(* ===== verification/_CoqProject ===== *)
-Q . S2P
Prelude.v
Json.v
Effects.v
Llm.v
TurnMachine.v
Compression.v
ToolContract.v
ToolFacts.v
ToolInvocation.v
ToolRegistry.v
ToolExecution.v
Approval.v
AgentPorts.v
AgentLoop.v
AgentFacts.v
AgentLoopFacts.v
AgentRunFacts.v
AgentSample.v
AgentSpec.v
AgentModelSpec.v
Graph.v
Instance.v
Membership.v
Topology.v
Route.v
Tasks.v
Mailbox.v
Handoff.v
Workspace.v
Governance.v
Arbitration.v
Store.v
StoreTasks.v
StoreMessages.v
StoreHandoffs.v
StoreArbitration.v
StoreFacts.v
StoreRun.v
WorkspaceStore.v
InstanceStore.v
InstanceStoreFacts.v
InstanceStoreRun.v
InstanceStoreSave.v
StoreSystem.v
StoreHistory.v
Ledger.v
SessionTables.v
TurnStore.v
ToolStore.v
HistoryStore.v
Inference.v
InferenceStore.v
TurnFacts.v
Scheduler.v
SchedulerSpec.v
HistoryFacts.v
TurnRun.v
LedgerRun.v
InferenceRun.v
Service.v
ServiceFacts.v
ServiceGovernance.v
ServiceTasks.v
Sample.v
StoreSpec.v
ModelSpec.v
GovernanceSpec.v
SystemSample.v
SystemSpec.v
TurnSample.v
InferenceSpec.v
WorkspaceJournal.v
JournalFacts.v
JournalRun.v
JournalCrash.v
JournalSpec.v
TurnSpec.v
ServiceSample.v
ServiceSpec.v
