(* ===== verification/Prelude.v ===== *)
(** * Verification of the agent kernel and the coordination core of Sylvander

    Sylvander runs sessions in which agents, each a loop around a language
    model, work together under one moderator.  This library models three parts
    of its Rust code and proves what the other parts may rely on:

    - the agent kernel, src/sylvander-agent/src with the provider-neutral types
      of src/sylvander-llm-core/src: one turn of one agent;
    - the coordination core of the runtime,
      src/sylvander-runtime/src/coordination/ with session/membership.rs and
      agent/instance/model.rs, the stores that make it durable,
      storage/coordination.rs, storage/workspace_coordination.rs and
      storage/agent_instance.rs over the tables of storage/session/sqlite.rs,
      the coordination service over them, coordination/service.rs and service/,
      and the mailbox scheduler, runtime/mailbox_scheduler.rs;
    - the durable record of turns: the ledgers of storage/session/ (turns, model
      iterations, tool calls, recovery, usage, inferences of specialists), the
      message history, and the workspace journal,
      storage/workspace_journal.rs.

    ** The parts and how they interact

    A turn (kernel/agent_loop.rs) is a stream of events.  It drives a turn
    machine (turn/machine.rs) through hooks, compression of the conversation
    (context/compression/), the call of the model with retries, the stream of
    its response, and the tools the response calls: each call is prepared by the
    registry (tool/registry.rs, tool/contract.rs), approved by a gate
    (interaction/approval.rs), authorized by the invocation gateway
    (tool/invocation.rs) and executed, ordered when a control tool is among
    them, as a concurrent batch under a read-write lock otherwise.

    A session has a membership (the participating agents and the governance
    lease of the moderator), a topology (who owns, reviews or is a peer of
    whom), a task graph, a mailbox, handoffs of tasks, workspace views, and
    governance cases that its moderator decides.  Each is plain data with an
    admission check and a lifecycle; the checks of the later parts use the
    earlier ones: a message must follow the shortest route of the topology, a
    handoff must name the arbitrator the topology selects, a decision is checked
    against membership and task graph.  The store wraps every operation in one
    SQLite transaction under one connection lock, re-reads the durable facts,
    repeats the checks and writes.  Agents interact only through the store, so
    what they can observe is a sequence of operations.

    The coordination service is what agents call.  A command of an agent reads
    the membership, the topology, the tasks and the observations in one store
    call each, assesses the session against the policy, asks the moderator for a
    decision where the assessment has findings, and commits with a last call
    that repeats the checks.  Between two calls of one command the others commit
    what they like; that the last call is guarded by the revisions read before
    is what the theorems about the service rest on.

    A scheduler wakes the recipients of messages: it queues them, drains a bounded
    number at a time and repeats a drain that was woken again meanwhile.

    What a turn does is written ahead to the ledgers of the session store: a turn
    has numbered iterations, an iteration its response as a message of the history,
    and each tool call moves through the positions prepared, authorized, effect
    started, committed and persisted by a compare-and-swap on its revision.  After
    a crash the positions decide what recovery may repeat and what it has to ask the
    moderator.  The files that the tools of a turn write are recorded by the
    workspace journal before and after the write, so that a turn can be rolled back.

    ** Files

    - [Prelude]: results with errors, panics and divergence ([res]), integers
      and their widths, [str::trim], string order, hash iteration orders, stable
      sorting, and loops whose termination is proved from a measure or a
      well-founded relation.
    - The agent kernel:
      [Json], the JSON values and the service class [SerdeJson]; [Effects], the
      state and error monad of services, with its program logic [triple] and its
      special case [calm] (no panic, no hang, no change);
      [Llm] (src/sylvander-llm-core/src: usage.rs, model.rs, error.rs, types.rs,
      validation.rs); [TurnMachine] (turn/machine.rs); [Compression]
      (context/compression/, a Module per layer); [ToolContract], [ToolFacts]
      (tool/contract.rs, execution/risk.rs); [ToolInvocation]
      (tool/invocation.rs); [ToolRegistry] (tool/registry.rs); [ToolExecution]
      ([execute_registered_tool] and the batch); [Approval]
      (interaction/approval.rs); [AgentPorts] (turn/request.rs, turn/event.rs,
      execution/ports.rs and the gates of interaction/); [AgentLoop]
      (kernel/agent_loop.rs, a definition per block of [run_stream], composed by
      [run_iteration], [iterate] and [kernel]); [AgentFacts], [AgentLoopFacts],
      [AgentRunFacts], the invariant of the loop and what each block does to it;
      [AgentSample], a turn of three iterations, evaluated.
    - The coordination core:
      [Graph]: adjacency maps, worklist search with a queue or a stack, cycles;
      [Instance], [Membership], [Topology], [Route], [Tasks], [Mailbox],
      [Handoff], [Workspace], [Governance], [Arbitration]: one file of the
      source each ([Route] is [SessionTopology::route_between]).  Each states an
      abstract specification ([well_formed], [governed], [graph_ok],
      [message_ok], [proposal_ok], [view_ok], [approval_ok], [overloaded],
      [decision_ok]) and proves that the check decides it;
      [Store]: the tables as finite maps, transactions, codecs and checked
      conversions; [StoreTasks], [StoreMessages], [StoreHandoffs],
      [StoreArbitration], [StoreFacts]: the operations of
      [impl CoordinationStore for SqliteSessionStore], with the guards in the
      order of the code, and what each committed operation does;
      [StoreRun]: the class [StoreFamily], which promises that an operation of a
      family takes a well-formed store to a well-formed store by a [store_step];
      the families are its instances and a sum of families is one, so runs of
      [coordination_op] interleave everything; [Sample]: a session of one
      moderator and two workers with reachable stores.
    - The session database:
      [WorkspaceStore] (storage/workspace_coordination.rs), [InstanceStore]
      (storage/agent_instance.rs and [materialize_fork_history] of
      storage/session/sqlite.rs): the operations, around the tables of [Store];
      [InstanceStoreFacts], [InstanceStoreRun], [InstanceStoreSave]: what the
      latter keep; [StoreSystem]: the invariant [durable_ok] of all tables and the
      runs of all operations, [durable_op]; [StoreHistory]: [reaches], the
      histories that callers can bring about, [remembers], what no history
      undoes, and that no store operation runs for ever; [SystemSample].
    - The ledgers of the session store:
      [Ledger] (execution_ledger.rs, model_ledger.rs, recovery_action.rs and the
      states of mod.rs): positions, their texts and the classification of
      interrupted work; [SessionTables]: the tables [tdb] around those of
      [InstanceStore]; [TurnStore], [ToolStore], [HistoryStore]: the operations of
      [impl SessionStore for SqliteSessionStore] on turns and iterations, on tool
      calls, recovery and usage, and on the history; [TurnFacts]: the invariant
      [turns_ok] and the relation [turns_step]; [HistoryFacts], [TurnRun]: what each
      operation keeps; [LedgerRun]: runs of [session_op], which interleave them with
      the stores below; [TurnSample].  [Inference], [InferenceStore]
      (cognition_ledger.rs, perception_ledger.rs and their operations of
      sqlite.rs); [InferenceRun]: the interface [Invocation], through which both
      ledgers are one, and their runs.
    - The workspace journal:
      [WorkspaceJournal]: a file system whose process can die at any change of it,
      and the operations of workspace_journal.rs over it; [JournalFacts], what these
      change; [JournalRun], the invariant [journal_ok] and the edits of a turn;
      [JournalCrash], a rollback cut short and its recovery.
    - The coordination service:
      [Service] (coordination/service.rs and coordination/service/, a definition
      per method and per closure); [ServiceFacts]: the triples [serves], which
      say that a method reaches its last database by legal operations, and the
      proof that every method of the service does; [ServiceGovernance],
      [ServiceTasks]: what the methods promise; [ServiceSample].
    - The mailbox scheduler: [Scheduler], the loop as a machine over the events of
      its [select!].
    - [StoreSpec], [AgentSpec], [AgentModelSpec], [ModelSpec], [GovernanceSpec],
      [SystemSpec], [ServiceSpec], [TurnSpec], [InferenceSpec], [SchedulerSpec],
      [JournalSpec]: the properties C1 to C40 and further theorems, each with an
      instance on a sample where it has hypotheses.

    Records and inductives have the fields and constructors of the source
    (fields that would clash carry a short prefix); an operation has the name of
    its Rust function, a helper the name of the loop, the block or the closure it
    stands for.

    ** What the theorems show

    - The service (C1, C2, C8 to C11, C29 to C31): every method refines a run of
      store operations, whatever others do meanwhile; messages, tasks, forks and
      their decisions are made only with the authority, the assessment or the
      decision they need, a verdict is final, and claims and renewals are bounded.
    - The session database (C3, C32, C33): any interleaving of the three stores keeps
      all tables well-formed; a membership reads back, and an integration was
      approved as it is stored.  In [SystemSpec] also that participants are only
      appended, that forks inherit open history and that an instance follows its
      lifecycle.
    - The coordination store (C4, C21, C22, C34): runs keep the tables well-formed
      and each row moves by the changes that its tables allow; tasks only move
      forward, within their budget, and are frozen once terminal; a message starts
      one turn; recovery needs every receipt.  In [StoreSpec] also that live leases
      exclude others, that takeovers fence, that claims serve the oldest message,
      that the codecs are inverse, that topologies stay governed and that waits and
      progress are recorded faithfully.
    - The ledgers (C5 to C7, C13, C15 to C18): any interleaving keeps the tables
      well-formed, with one running turn per instance; what is settled is frozen;
      the moderator decides once about interrupted work; responses are durable
      before anything is done about them; positions and revisions are spent once;
      a replaced history reads back.  In [TurnSpec] also that a recovery lease
      excludes others and that usage adds up; in [InferenceSpec] that both ledgers of
      inferences stay well-formed and that budgets hold.
    - The workspace journal (C12, C36): a rollback restores the files as they were
      before the turn, and one that is interrupted by a crash is completed by the
      next operation, for turns that wrote each file once.  In [JournalSpec] also that
      a file changed since is never overwritten, that what recovery concludes about a
      call is true of its file, and two examples of crashes that block a session.
    - The scheduler (C14, C19, C20): no wake-up is lost, the queue is served in order,
      drains are exclusive and bounded.
    - The stream of a turn (C23, C24): it refines the turn machine within its limit of
      iterations; when the services answer, it ends, and it does not panic.  In
      [AgentSpec] also that its consumers report the terminal event.
    - Tool calls (C25 to C28): every call is answered once, in order; the handler of a
      call that is not approved is not used; exclusive executions run alone; retries
      are bounded.
    - The parts of a turn (C35, C37): the machine keeps its types and the gateway
      admits exactly what its specification does.  In [AgentModelSpec] also that the
      layers of compression before the summary leave no orphaned results, that the
      machine can always finish, that usage accounting is independent of order, and
      that a frozen surface is pinned.
    - Checks and searches (C38 to C40): the check of a topology decides its
      specification, all checks answer, and the wait cycles are the deadlocks.  In
      [ModelSpec] and [GovernanceSpec] also the other checks, that the arbitrator is
      the nearest common owner, that routes are shortest, and that an assessment does
      not depend on the hash order.

    ** Conventions, bounds and fuel

    Rust integers are [Z] with explicit widths: [checked_add] and [saturating_add]
    at u64, u32 or i64 as in the code; a [usize] count that cannot overflow is a
    [nat].  A Rust panic ([expect]) is [Panic], an endless loop is [Diverge]; both
    are distinct from [Err]; unchecked arithmetic that would overflow is [Panic],
    as in a build with overflow checks.  Iteration over a [HashMap] or [HashSet]
    takes its order from the class [HashOrder], over which the theorems quantify.
    An [f32] is a binary float of the Standard Library's [SpecFloat].

    Code outside the repository is a parameter: [SerdeJson] and [Crates] (JSON
    text, digests, UUIDs), [Host] (the model, the clock, the artifact store),
    [Scheduler] (deadlines, the order of a batch, what a bounded channel drops)
    and [Codecs] (deserialized requests of control tools).  Services act on a
    world [W] and may fail, panic or hang; [Reliable] states what a theorem
    assumes of them, with two propositions that say whether they may panic and
    hang, and C23 assumes nothing.  [AgentSample] instantiates all of them.
    The coordination service has [ServicePorts]: the digest of a request (SHA-256),
    the tokens drawn for claims, and what other callers commit before each of its
    calls; [FaithfulPorts] assumes of the others that they go through the stores.
    [ServiceSample] instantiates it.
    The journal has [Os] (symbolic links, the order of a directory, the drawn uuids,
    what a torn write leaves) and [Serde] (the JSON of manifests and markers), of which
    [JournalLaws] assumes that uuids differ and that JSON reads back; [JournalSpec]
    instantiates them.

    The batch advances one await of one execution at a time, in any order the
    scheduler picks among the executions that the lock admits; admission allows
    every order a fair lock allows and more.  When a service hangs, the events
    before it are those of the blocks that had finished.

    Loops that end by a measure compute without fuel.  [iterate] counts down the
    iterations that are left, [try_open] the attempts, [run_steps] and
    [run_batch] the awaits that are left ([rank], [batch_rank]), which suffice
    since every step lowers them.  [validate_input_value] recurses with the size
    of the value as fuel, which bounds its depth.  [Governance.ownership_depth] takes fuel because it does not
    end on cyclic topologies, and on governed ones two more than the number of
    relations are enough ([assessment_terminates]).  [Topology.arbitrator_for]
    has the fuel of the number of ownership edges, which decides its divergence.
    The time is an argument [now].  The random fencing token of
    [StoreTasks.claim_task] is an argument; that it differs from the previous one
    is a hypothesis of [StoreSpec]'s fencing theorem.  A decision is stored against a task graph that is a
    reading of the store ([StoreArbitration.snapshot]), as the service reads it.

    ** Not modelled

    Texts of errors, the JSON of columns (their values are stored as they are) and
    the getters that only load one row.  Of the coordination store:
    [undispatched_background_tasks], a text search that changes nothing.  Of the
    session store: saving, patching, configuring, listing and deleting sessions;
    [OpSessionRows] stands in the runs for any change of sessions and messages, but
    not for the deletion of a session with all that depends on it.  The settings of [SessionEffectiveConfig] that the stores only copy and
    compare are one text.  Of the scheduler: what a drain does ([drain_recipient] and
    the turns it starts), which runs an agent through the process, and the recovery at
    boot, which feeds the modelled recovery operations.  Of the agent: tracing, the
    built-in tools (but the journaled path of [Write]), prompt assembly, memory and
    user profiles.  Of the journal: its mutex, and disks that fail or fill up.
    Channels, providers, transports and the user interface are I/O. *)

From stdpp Require Import base tactics gmap strings list sorting relations.
From Stdlib Require Import ZArith Lia Ascii.

(** * Notations *)

Declare Scope rust_scope.
Delimit Scope rust_scope with rust.

(** [==] and [!=] of types whose Rust equality is structural. *)
Notation "x == y" := (bool_decide (x = y)) (at level 70, no associativity) : rust_scope.
Notation "x != y" := (negb (bool_decide (x = y))) (at level 70, no associativity) : rust_scope.

Open Scope rust_scope.
#[global] Arguments bool_decide : simpl never.

(** * Computations

    A Rust function that returns [Result<A, E>] can also panic (an [expect]
    on [None], an index out of range) or run forever.  [res] names the four
    ways such a call can end; the theorems that a function never panics or
    always terminates are statements about its last two constructors. *)

Inductive res (A E : Type) : Type :=
  | Ok (a : A)
  | Err (e : E)
  | Panic
  | Diverge.
Arguments Ok {A E} a.
Arguments Err {A E} e.
Arguments Panic {A E}.
Arguments Diverge {A E}.

#[global] Instance res_eq_dec {A E} `{EqDecision A, EqDecision E} : EqDecision (res A E).
Proof. solve_decision. Defined.

(** [?] on a fallible call: every outcome but [Ok] ends the caller. *)
Definition res_bind {A B E} (c : res A E) (k : A → res B E) : res B E :=
  match c with
  | Ok a => k a
  | Err e => Err e
  | Panic => Panic
  | Diverge => Diverge
  end.

Notation "x <- c ;; k" := (res_bind c (fun x => k))
  (at level 100, c at next level, right associativity) : rust_scope.
(** [if b { return Err(e); }] *)
Definition bail_if {E} (b : bool) (e : E) : res unit E := if b then Err e else Ok tt.
Notation "'bail' b 'with' e ;; k" := (res_bind (bail_if b e) (fun _ => k))
  (at level 100, b at next level, e at next level, right associativity) : rust_scope.

(** [Result::map_err]. *)
Definition map_err {A E F} (f : E → F) (c : res A E) : res A F :=
  match c with
  | Ok a => Ok a
  | Err e => Err (f e)
  | Panic => Panic
  | Diverge => Diverge
  end.

(** [Option::ok_or]. *)
Definition ok_or {A E} (o : option A) (e : E) : res A E :=
  match o with Some a => Ok a | None => Err e end.

(** [Option::expect]: a panic on [None]. *)
Definition expect {A E} (o : option A) : res A E :=
  match o with Some a => Ok a | None => Panic end.

(** A computation without errors, used where errors of another type occur. *)
Definition infallible {A E} (c : res A Empty_set) : res A E :=
  map_err (λ e : Empty_set, match e with end) c.

(** The computation ends with a value or an error. *)
Definition returns {A E} (c : res A E) : Prop :=
  match c with Ok _ | Err _ => True | Panic | Diverge => False end.

Lemma res_bind_ok {A B E} (c : res A E) (k : A → res B E) (b : B) :
  res_bind c k = Ok b ↔ ∃ a, c = Ok a ∧ k a = Ok b.
Proof. destruct c; simpl; naive_solver. Qed.

Lemma bail_if_ok {E} (b : bool) (e : E) : bail_if b e = Ok tt ↔ b = false.
Proof. destruct b; simpl; naive_solver. Qed.

Lemma bail_ok {B E} (b : bool) (e : E) (k : res B E) (r : B) :
  (bail b with e;; k) = Ok r ↔ b = false ∧ k = Ok r.
Proof. destruct b; simpl; naive_solver. Qed.

Lemma ok_or_ok {A E} (o : option A) (e : E) (a : A) : ok_or o e = Ok a ↔ o = Some a.
Proof. destruct o; simpl; naive_solver. Qed.

Lemma expect_ok {A E} (o : option A) (a : A) : @expect A E o = Ok a ↔ o = Some a.
Proof. destruct o; simpl; naive_solver. Qed.

Lemma map_err_ok {A E F} (f : E → F) (c : res A E) (a : A) : map_err f c = Ok a ↔ c = Ok a.
Proof. destruct c; simpl; naive_solver. Qed.

Lemma infallible_ok {A E} (c : res A Empty_set) (a : A) :
  @infallible A E c = Ok a ↔ c = Ok a.
Proof. apply map_err_ok. Qed.

Lemma returns_bind {A B E} (c : res A E) (k : A → res B E) :
  returns c → (∀ a, c = Ok a → returns (k a)) → returns (res_bind c k).
Proof. destruct c; simpl; naive_solver. Qed.

Lemma returns_bail {B E} (b : bool) (e : E) (k : res B E) :
  (b = false → returns k) → returns (bail b with e;; k).
Proof. destruct b; simpl; naive_solver. Qed.

Lemma returns_ok {A E} (a : A) : returns (@Ok A E a).
Proof. exact I. Qed.

Lemma returns_err {A E} (e : E) : returns (@Err A E e).
Proof. exact I. Qed.

Lemma returns_ok_or {A E} (o : option A) (e : E) : returns (ok_or o e).
Proof. by destruct o. Qed.

Lemma returns_bail_if {E} (b : bool) (e : E) : returns (bail_if b e).
Proof. by destruct b. Qed.

Lemma returns_map_err {A E F} (f : E → F) (c : res A E) : returns c → returns (map_err f c).
Proof. by destruct c. Qed.

Lemma returns_infallible {A E} (c : res A Empty_set) : returns c → returns (@infallible A E c).
Proof. apply returns_map_err. Qed.

Create HintDb res_db.
#[export] Hint Resolve returns_ok returns_err returns_bail_if returns_ok_or returns_map_err returns_infallible : res_db.

(** Boolean guards as propositions. *)
Lemma negb_bool_decide_false (P : Prop) `{!Decision P} : negb (bool_decide P) = false ↔ P.
Proof. rewrite negb_false_iff, bool_decide_eq_true. done. Qed.
Lemma negb_bool_decide_true (P : Prop) `{!Decision P} : negb (bool_decide P) = true ↔ ¬ P.
Proof. rewrite negb_true_iff, bool_decide_eq_false. done. Qed.

(** Splits a successful computation into its steps and the guards it passed
    into facts. *)
Ltac destruct_guards :=
  repeat match goal with
  | H : (_ || _)%bool = false |- _ => apply orb_false_iff in H; destruct H
  | H : (_ && _)%bool = true |- _ => apply andb_true_iff in H; destruct H
  | H : negb (bool_decide _) = false |- _ => rewrite negb_bool_decide_false in H
  | H : negb (bool_decide _) = true |- _ => rewrite negb_bool_decide_true in H
  | H : bool_decide _ = false |- _ => rewrite bool_decide_eq_false in H
  | H : bool_decide _ = true |- _ => rewrite bool_decide_eq_true in H
  | H : negb _ = false |- _ => rewrite negb_false_iff in H
  | H : negb _ = true |- _ => rewrite negb_true_iff in H
  | H : (_ <=? _)%Z = true |- _ => rewrite Z.leb_le in H
  | H : (_ <=? _)%Z = false |- _ => rewrite Z.leb_gt in H
  | H : (_ <? _)%Z = true |- _ => rewrite Z.ltb_lt in H
  | H : (_ <? _)%Z = false |- _ => rewrite Z.ltb_ge in H
  end.

Ltac inv_ok :=
  repeat match goal with
  | H : (bail _ with _;; _) = Ok _ |- _ => apply bail_ok in H; destruct H as [? H]
  | H : res_bind _ _ = Ok _ |- _ =>
      let a := fresh "a" in apply res_bind_ok in H; destruct H as [a [? H]]
  | H : bail_if _ _ = Ok _ |- _ => apply bail_if_ok in H
  | H : ok_or _ _ = Ok _ |- _ => rewrite ok_or_ok in H
  | H : map_err _ _ = Ok _ |- _ => rewrite map_err_ok in H
  | H : infallible _ = Ok _ |- _ => rewrite infallible_ok in H
  | H : Ok _ = Ok _ |- _ => injection H as H; try subst
  | H : Err _ = Ok _ |- _ => discriminate H
  end.

(** * Machine integers

    A [u64], [u32], [u16] or [i64] is a [Z] in its range; the operations write
    out saturation and overflow checks. *)

Open Scope Z_scope.

Definition u64_max : Z := 18446744073709551615.
Definition u32_max : Z := 4294967295.
Definition u16_max : Z := 65535.
Definition i64_min : Z := -9223372036854775808.
Definition i64_max : Z := 9223372036854775807.

Definition in_u64 (x : Z) : Prop := 0 ≤ x ≤ u64_max.
Definition in_u32 (x : Z) : Prop := 0 ≤ x ≤ u32_max.

(** [saturating_add] of an unsigned type with maximum [hi]. *)
Definition saturating_add (hi x y : Z) : Z := Z.min (x + y) hi.

(** [checked_add] of an unsigned type with maximum [hi]. *)
Definition checked_add (hi x y : Z) : option Z :=
  if x + y <=? hi then Some (x + y) else None.

(** [i64::checked_add]. *)
Definition checked_add_i64 (x y : Z) : option Z :=
  if (i64_min <=? x + y) && (x + y <=? i64_max) then Some (x + y) else None.

(** [i64::try_from] of a [u64], and [u16::try_from] of a [usize]. *)
Definition i64_of_u64 (x : Z) : option Z := if x <=? i64_max then Some x else None.
Definition u16_of_usize (x : Z) : option Z := if x <=? u16_max then Some x else None.

Lemma saturating_add_u64 (x y : Z) :
  in_u64 x → in_u64 y → in_u64 (saturating_add u64_max x y).
Proof. unfold in_u64, saturating_add, u64_max. lia. Qed.

Lemma saturating_add_u32 (x y : Z) :
  in_u32 x → in_u32 y → in_u32 (saturating_add u32_max x y).
Proof. unfold in_u32, saturating_add, u32_max. lia. Qed.

Lemma saturating_add_comm (hi x y : Z) : saturating_add hi x y = saturating_add hi y x.
Proof. unfold saturating_add. lia. Qed.

Lemma saturating_add_assoc (hi x y z : Z) :
  0 ≤ x → 0 ≤ z →
  saturating_add hi (saturating_add hi x y) z = saturating_add hi x (saturating_add hi y z).
Proof. unfold saturating_add. lia. Qed.

Lemma checked_add_some (hi x y z : Z) : checked_add hi x y = Some z ↔ z = x + y ∧ x + y ≤ hi.
Proof. unfold checked_add. destruct (x + y <=? hi) eqn:?; naive_solver lia. Qed.

Close Scope Z_scope.

(** * Strings

    A Rust [String] is its UTF-8 byte sequence.  [str::trim] removes the
    characters with the Unicode property White_Space, so a string trims to
    the empty string exactly when it is a sequence of their encodings: U+0009
    to U+000D and U+0020; U+0085 and U+00A0; U+1680, U+2000 to U+200A,
    U+2028, U+2029, U+202F, U+205F and U+3000. *)

Definition byte (c : ascii) : N := N_of_ascii c.

Definition white_space1 (a : N) : bool := ((9 <=? a) && (a <=? 13) || (a =? 32))%N.
Definition white_space2 (a b : N) : bool := ((a =? 194) && ((b =? 133) || (b =? 160)))%N.
Definition white_space3 (a b c : N) : bool :=
  ((a =? 225) && (b =? 154) && (c =? 128) ||
   (a =? 226) && (b =? 128) &&
     ((128 <=? c) && (c <=? 138) || (c =? 168) || (c =? 169) || (c =? 175)) ||
   (a =? 226) && (b =? 129) && (c =? 159) ||
   (a =? 227) && (b =? 128) && (c =? 128))%N.

(** [s.trim().is_empty()] *)
Fixpoint trim_is_empty (s : string) : bool :=
  match s with
  | EmptyString => true
  | String a r =>
      if white_space1 (byte a) then trim_is_empty r
      else match r with
      | EmptyString => false
      | String b r =>
          if white_space2 (byte a) (byte b) then trim_is_empty r
          else match r with
          | EmptyString => false
          | String c r =>
              if white_space3 (byte a) (byte b) (byte c) then trim_is_empty r else false
          end
      end
  end.

(** [<] of [String]: byte-wise lexicographic. *)
Definition string_lt (a b : string) : bool :=
  match String.compare a b with Lt => true | _ => false end.
Definition string_le (a b : string) : bool := negb (string_lt b a).

Lemma string_lt_asymm (a b : string) : string_lt a b = true → string_lt b a = false.
Proof.
  unfold string_lt. rewrite (String.compare_antisym a b).
  by destruct (String.compare b a).
Qed.

Lemma string_lt_irrefl (a : string) : string_lt a a = false.
Proof. destruct (string_lt a a) eqn:E; [|done]. by rewrite (string_lt_asymm a a E) in E. Qed.

Lemma string_lt_total (a b : string) : string_lt a b = false → string_lt b a = false → a = b.
Proof.
  unfold string_lt. rewrite (String.compare_antisym a b).
  pose proof (String.compare_eq_iff b a) as Heq.
  destruct (String.compare b a); simpl; intros; try done. by rewrite Heq.
Qed.

Lemma string_lt_cons (c d : ascii) (a b : string) :
  string_lt (String c a) (String d b) = true ↔
    (byte c < byte d)%N ∨ c = d ∧ string_lt a b = true.
Proof.
  unfold string_lt, byte. simpl. unfold Ascii.compare.
  destruct (N.compare_spec (N_of_ascii c) (N_of_ascii d)) as [Heq|Hlt|Hgt].
  - assert (c = d) as ->.
    { rewrite <- (ascii_N_embedding c), <- (ascii_N_embedding d). by rewrite Heq. }
    split; [naive_solver|]. intros [?|[_ ?]]; [lia|done].
  - naive_solver.
  - split; [done|]. intros [?|[-> _]]; lia.
Qed.

Lemma string_lt_trans (a b c : string) :
  string_lt a b = true → string_lt b c = true → string_lt a c = true.
Proof.
  revert b c. induction a as [|x a IH]; intros [|y b] [|z c]; try done.
  rewrite !string_lt_cons. intros [?|[-> ?]] [?|[-> ?]]; [left; lia|by left|by left|].
  right. split; [done|]. by apply (IH b).
Qed.

#[export] Instance string_le_total : Total (λ a b, Is_true (string_le a b)).
Proof.
  intros a b. unfold string_le. destruct (string_lt b a) eqn:E; simpl; [|by left].
  right. by rewrite (string_lt_asymm _ _ E).
Qed.

#[export] Instance string_le_antisymm : AntiSymm eq (λ a b, Is_true (string_le a b)).
Proof.
  intros a b. unfold string_le. rewrite !Is_true_true, !negb_true_iff.
  intros. by apply string_lt_total.
Qed.

#[export] Instance string_le_trans : Transitive (λ a b, Is_true (string_le a b)).
Proof.
  intros a b c. unfold string_le. rewrite !Is_true_true, !negb_true_iff.
  intros Hab Hbc. destruct (string_lt c a) eqn:Hca; [|done].
  destruct (string_lt a b) eqn:Hab'.
  - by rewrite (string_lt_trans c a b) in Hbc.
  - pose proof (string_lt_total a b Hab' Hab) as ->. congruence.
Qed.

(** [str::strip_prefix] *)
Fixpoint strip_prefix (p s : string) : option string :=
  match p, s with
  | EmptyString, _ => Some s
  | String a p, String b s => if decide (a = b) then strip_prefix p s else None
  | String _ _, EmptyString => None
  end.

(** [bytes().all(|byte| byte.is_ascii_hexdigit())] *)
Definition is_ascii_hexdigit (a : N) : bool :=
  ((48 <=? a) && (a <=? 57) || (65 <=? a) && (a <=? 70) || (97 <=? a) && (a <=? 102))%N.
Fixpoint all_hexdigit (s : string) : bool :=
  match s with
  | EmptyString => true
  | String a r => is_ascii_hexdigit (byte a) && all_hexdigit r
  end.

Example trim_is_empty_examples :
  trim_is_empty "" = true ∧ trim_is_empty "  " = true ∧ trim_is_empty " a " = false.
Proof. vm_compute. done. Qed.

(** * Hash iteration

    The order in which a [HashMap] or [HashSet] is iterated is unspecified
    and differs between runs.  [hash_iter n s] is the order of the [n]-th
    iteration of a run; a theorem about a definition that takes a
    [HashOrder] holds for every order. *)

Class HashOrder : Type := {
  hash_iter : nat → gset string → list string;
  hash_iter_perm n s : hash_iter n s ≡ₚ elements s
}.

#[export, program] Instance elements_order : HashOrder | 10 :=
  {| hash_iter _ s := elements s |}.
Next Obligation. done. Qed.

#[program] Definition reverse_order : HashOrder := {| hash_iter _ s := reverse (elements s) |}.
Next Obligation. intros. apply reverse_Permutation. Qed.

Lemma elem_of_hash_iter `{!HashOrder} n (s : gset string) x : x ∈ hash_iter n s ↔ x ∈ s.
Proof. rewrite hash_iter_perm. apply elem_of_elements. Qed.

Lemma NoDup_hash_iter `{!HashOrder} n (s : gset string) : NoDup (hash_iter n s).
Proof. rewrite hash_iter_perm. apply NoDup_elements. Qed.

(** * Sorting

    [slice::sort_by_key] is stable; insertion sort is its reference
    definition.  [le] is the comparison of the keys. *)

Lemma existsb_false_elem {A} (f : A → bool) l : existsb f l = false ↔ ∀ x, x ∈ l → f x = false.
Proof.
  induction l as [|a l IH]; simpl; [set_solver|]. rewrite orb_false_iff, IH. set_solver.
Qed.

Section stable_sort.
Context {A : Type} (le : A → A → bool).

Fixpoint sort_insert (x : A) (l : list A) : list A :=
  match l with
  | [] => [x]
  | y :: l' => if le x y then x :: l else y :: sort_insert x l'
  end.

Definition stable_sort (l : list A) : list A := foldr sort_insert [] l.

Lemma sort_insert_perm x l : sort_insert x l ≡ₚ x :: l.
Proof.
  induction l as [|y l IH]; simpl; [done|].
  destruct (le x y); [done|]. rewrite IH. apply Permutation_swap.
Qed.

Lemma stable_sort_perm l : stable_sort l ≡ₚ l.
Proof. induction l as [|x l IH]; simpl; [done|]. by rewrite sort_insert_perm, IH. Qed.

Context `{Hle : !Total (λ a b, Is_true (le a b)), Hlet : !Transitive (λ a b, Is_true (le a b))}.

Lemma sort_insert_sorted x l :
  StronglySorted (λ a b, Is_true (le a b)) l →
  StronglySorted (λ a b, Is_true (le a b)) (sort_insert x l).
Proof.
  induction 1 as [|y l Hl IH Hy]; simpl; [by repeat constructor|].
  destruct (le x y) eqn:E.
  - constructor; [by constructor|]. constructor; [by rewrite E|].
    eapply Forall_impl; [done|]. intros z Hz. apply (Hlet x y z); [by rewrite E|done].
  - constructor; [done|]. rewrite sort_insert_perm. constructor; [|done].
    destruct (Hle x y) as [H|H]; [by rewrite E in H|done].
Qed.

Lemma stable_sort_sorted l : StronglySorted (λ a b, Is_true (le a b)) (stable_sort l).
Proof. induction l; simpl; [constructor|]. by apply sort_insert_sorted. Qed.
End stable_sort.

(** Two sorted permutations of one list of strings are equal, so [sort_by] on
    names erases the iteration order that produced the list. *)
Lemma stable_sort_strings_perm (l k : list string) :
  l ≡ₚ k → stable_sort string_le l = stable_sort string_le k.
Proof.
  intros Hlk. apply (StronglySorted_unique (λ a b, Is_true (string_le a b))).
  - apply (stable_sort_sorted string_le).
  - apply (stable_sort_sorted string_le).
  - by rewrite !stable_sort_perm.
Qed.

(** Sorting by an integer key gives the one list in which the key increases. *)
Lemma stable_sort_key {A} (key : A → Z) (l k : list A) :
  StronglySorted (λ a b, (key a < key b)%Z) k → l ≡ₚ k →
  stable_sort (λ a b, (key a <=? key b)%Z) l = k.
Proof.
  intros Hk Hlk.
  assert (StronglySorted (λ a b, Is_true (key a <=? key b)%Z)
            (stable_sort (λ a b, (key a <=? key b)%Z) l)) as Hs.
  { apply stable_sort_sorted.
    - intros a b. rewrite !Is_true_true, !Z.leb_le. lia.
    - intros a b c. rewrite !Is_true_true, !Z.leb_le. lia. }
  assert (stable_sort (λ a b, (key a <=? key b)%Z) l ≡ₚ k) as Hp by by rewrite stable_sort_perm.
  revert Hs Hp. generalize (stable_sort (λ a b, (key a <=? key b)%Z) l). clear l Hlk.
  induction Hk as [|x k Hk IH Hx]; intros l Hs Hp; [by apply Permutation_nil|].
  destruct l as [|y l]; [by apply Permutation_nil in Hp|].
  apply StronglySorted_inv in Hs as [Hs Hy]. rewrite Forall_forall in Hx, Hy.
  assert (x = y) as <-.
  { assert (y ∈ x :: k) as [->|Hyk]%elem_of_cons by (rewrite <- Hp; by left); [done|].
    assert (x ∈ y :: l) as [->|Hxl]%elem_of_cons by (rewrite Hp; by left); [done|].
    specialize (Hx y Hyk). specialize (Hy x Hxl). rewrite Is_true_true, Z.leb_le in Hy. lia. }
  f_equal. apply IH; [done|]. by apply Permutation_cons_inv in Hp.
Qed.

(** * Lifecycles

    A transition relation whose steps raise a rank bounded by [top] has no
    run longer than what is left of the rank. *)

Lemma ranked_run_bounded {A} (R : relation A) (rank : A → nat) (top : nat) :
  (∀ x y, R x y → rank x < rank y ≤ top) →
  ∀ n x y, nsteps R n x y → rank x ≤ top → rank x + n ≤ top.
Proof.
  intros Hrank n x y Hn. induction Hn as [|n x y z Hxy _ IH]; [lia|].
  destruct (Hrank x y Hxy). intros _. specialize (IH ltac:(lia)). lia.
Qed.

(** * Loops *)

(** A [while] loop whose every iteration decreases a measure: [loop] is the
    total function the loop computes. *)
Section loop.
Context {St R : Type} (step : St → St + R) (measure : St → nat).
Context (decreases : ∀ s s', step s = inl s' → measure s' < measure s).

Fixpoint loop_acc (s : St) (a : Acc lt (measure s)) {struct a} : R :=
  match step s as o return step s = o → R with
  | inl s' => λ e, loop_acc s' (Acc_inv a (decreases s s' e))
  | inr r => λ _, r
  end eq_refl.

Definition loop (s : St) : R := loop_acc s (wf_guard 32 lt_wf (measure s)).

(** The value does not depend on the termination argument. *)
Lemma loop_acc_irrel s (a a' : Acc lt (measure s)) : loop_acc s a = loop_acc s a'.
Proof.
  revert s a a'. fix IH 2. intros s [a] [a']. simpl.
  generalize (decreases s). destruct (step s) as [s'|r]; [|done].
  intros d. apply IH.
Qed.

Lemma loop_unfold s : loop s = match step s with inl s' => loop s' | inr r => r end.
Proof.
  unfold loop at 1. generalize (wf_guard 32 lt_wf (measure s)). intros [a]. simpl.
  generalize (decreases s). destruct (step s) as [s'|r]; [|done].
  intros d. apply loop_acc_irrel.
Qed.

(** Loop invariants. *)
Lemma loop_invariant (I : St → Prop) (Q : R → Prop) s :
  I s →
  (∀ s s', I s → step s = inl s' → I s') →
  (∀ s r, I s → step s = inr r → Q r) →
  Q (loop s).
Proof.
  intros Hs Hpres Hexit. induction s as [s IH] using (induction_ltof1 _ measure).
  rewrite loop_unfold. destruct (step s) as [s'|r] eqn:E; [|by eauto].
  apply IH; [by apply decreases|by eauto].
Qed.
End loop.

(** A loop that need not terminate, run for at most [n] iterations. *)
Section loop_fuel.
Context {St R : Type} (step : St → St + R).

Fixpoint loop_fuel (n : nat) (s : St) : option R :=
  match n with
  | O => None
  | S n => match step s with inl s' => loop_fuel n s' | inr r => Some r end
  end.

Lemma loop_fuel_mono n m s r : loop_fuel n s = Some r → n ≤ m → loop_fuel m s = Some r.
Proof.
  revert m s. induction n as [|n IH]; intros m s; simpl; [done|].
  destruct m as [|m]; [lia|]. simpl. destruct (step s); [|done].
  intros. apply IH; [done|lia].
Qed.

Lemma loop_fuel_det n m s r r' : loop_fuel n s = Some r → loop_fuel m s = Some r' → r = r'.
Proof.
  intros Hn Hm. destruct (decide (n ≤ m)).
  - apply (loop_fuel_mono n m) in Hn; [congruence|done].
  - apply (loop_fuel_mono m n) in Hm; [congruence|lia].
Qed.

Lemma loop_fuel_enough (I : St → Prop) (measure : St → nat) n s :
  I s →
  (∀ s s', I s → step s = inl s' → I s' ∧ measure s' < measure s) →
  measure s < n →
  is_Some (loop_fuel n s).
Proof.
  intros Hs Hstep. revert s Hs. induction n as [|n IH]; intros s Hs Hn; [lia|]. simpl.
  destruct (step s) as [s'|r] eqn:E; [|done].
  destruct (Hstep s s' Hs E). apply IH; [done|lia].
Qed.

Lemma loop_fuel_invariant (I : St → Prop) (Q : R → Prop) n s r :
  I s →
  (∀ s s', I s → step s = inl s' → I s') →
  (∀ s r, I s → step s = inr r → Q r) →
  loop_fuel n s = Some r → Q r.
Proof.
  intros Hs Hpres Hexit. revert s Hs. induction n as [|n IH]; intros s Hs; simpl; [done|].
  destruct (step s) as [s'|r'] eqn:E; [by eauto|]. intros [= ->]. by eauto.
Qed.

(** A set of states closed under [step] is never left. *)
Lemma loop_fuel_diverges (I : St → Prop) n s :
  I s → (∀ s, I s → ∃ s', step s = inl s' ∧ I s') → loop_fuel n s = None.
Proof.
  intros Hs Hstep. revert s Hs. induction n as [|n IH]; intros s Hs; simpl; [done|].
  destruct (Hstep s Hs) as (s' & -> & ?). by apply IH.
Qed.
End loop_fuel.
