(* ===== verification/Json.v ===== *)
(** JSON values.

    Tool arguments, schemas and provider state are [serde_json::Value]s.  The
    crate is not part of the repository, so the values are an interface: the
    class [SerdeJson] has the accessors the source calls, and the laws state
    what the documentation of serde_json says about them (a value has one kind,
    and an array or object is a finite tree).  The definitions of the agent take
    the class as a parameter and the theorems hold for each instance. *)

From S2P Require Import Prelude.
From stdpp Require Import base tactics gmap strings list.
From Stdlib Require Import ZArith Lia.

Class SerdeJson : Type := {
  Value : Type;
  Value_eq_dec :: EqDecision Value;
  (** [Value::as_object], in the iteration order of [serde_json::Map] *)
  as_object : Value → option (list (string * Value));
  as_array : Value → option (list Value);
  as_str : Value → option string;
  as_bool : Value → option bool;
  as_u64 : Value → option Z;
  as_i64 : Value → option Z;
  is_null : Value → bool;
  is_number : Value → bool;
  (** [Value::as_f64] and the comparison [<] of [f64] *)
  F64 : Type;
  as_f64 : Value → option F64;
  f64_lt : F64 → F64 → bool;
  (** the constructors behind the macro [json!] *)
  json_string : string → Value;
  json_bool : bool → Value;
  json_number : Z → Value;
  json_array : list Value → Value;
  json_object : list (string * Value) → Value;
  (** [serde_json::to_vec] and [Value::to_string] *)
  json_text : Value → string;
  json_size : Value → nat;
  as_object_size v entries : as_object v = Some entries →
    ∀ k x, (k, x) ∈ entries → json_size x < json_size v;
  as_array_size v items : as_array v = Some items →
    ∀ x, x ∈ items → json_size x < json_size v;
  as_object_keys v entries : as_object v = Some entries → NoDup entries.*1;
  as_object_array v entries : as_object v = Some entries → as_array v = None
}.

Section json.
Context `{J : SerdeJson}.

(** [Map::get] *)
Definition entry (entries : list (string * Value)) (key : string) : option Value :=
  match list_find (λ e, e.1 = key) entries with Some (_, (_, x)) => Some x | None => None end.

(** [Value::get] with a string; [value[key].as_...] reads the same field, a
    missing one is [Value::Null] *)
Definition json_get (v : Value) (key : string) : option Value :=
  match as_object v with Some entries => entry entries key | None => None end.

Definition get_str (v : Value) (key : string) : option string := json_get v key ≫= as_str.
Definition get_array (v : Value) (key : string) : option (list Value) :=
  json_get v key ≫= as_array.

(** [as_array().map(|a| a.iter().filter_map(as_str).collect()).unwrap_or_default()] *)
Definition get_strings (v : Value) (key : string) : list string :=
  match get_array v key with Some items => omap as_str items | None => [] end.

Lemma entry_some entries key x : entry entries key = Some x → (key, x) ∈ entries.
Proof.
  unfold entry. destruct (list_find _ entries) as [[i [k y]]|] eqn:E; simpl; [|done].
  intros [= <-]. apply list_find_Some in E as (Hi & <- & _).
  by apply list_elem_of_lookup_2 in Hi.
Qed.

Lemma entry_none entries key : entry entries key = None ↔ key ∉ entries.*1.
Proof.
  unfold entry. destruct (list_find _ entries) as [[i [k y]]|] eqn:E; simpl.
  - split; [done|]. intros Hk. destruct Hk. apply list_find_Some in E as (Hi & <- & _).
    apply list_elem_of_lookup_2 in Hi. by apply (list_elem_of_fmap_2' fst _ (k, y)).
  - split; [|done]. intros _ ([k y] & -> & Hin)%list_elem_of_fmap.
    apply list_find_None in E. rewrite Forall_forall in E. by apply (E (k, y)).
Qed.

Lemma json_get_size v key x : json_get v key = Some x → json_size x < json_size v.
Proof.
  unfold json_get. destruct (as_object v) as [entries|] eqn:E; [|done].
  intros ?%entry_some. by eapply as_object_size.
Qed.
End json.
