(* ===== verification/Effects.v ===== *)
(** Effectful code of the agent.

    An [async] function of the agent awaits services of the runtime.  It is a
    function of the state it can reach (the world of the services, and what it
    mutates) that returns the state it leaves and how it ended: with a value,
    with its error, by a panic, or never ([res]).  The services are parameters,
    arbitrary such functions, so a theorem holds for whatever they answer.

    [triple panics hangs P c Q R] specifies a computation: from states with [P]
    it ends with a value and [Q], or with an error and [R]; it panics only if
    [panics] and never ends only if [hangs].  With both true this is partial
    correctness, with both false it says that the computation ends. *)

From S2P Require Import Prelude.
From stdpp Require Import base tactics sets list.

Definition eff (S E A : Type) : Type := S → S * res A E.

Definition eret {S E A} (a : A) : eff S E A := λ s, (s, Ok a).
Definition efail {S E A} (e : E) : eff S E A := λ s, (s, Err e).
Definition epanic {S E A} : eff S E A := λ s, (s, Panic).
Definition ehang {S E A} : eff S E A := λ s, (s, Diverge).
Definition eget {S E} : eff S E S := λ s, (s, Ok s).
Definition eput {S E} (s : S) : eff S E unit := λ _, (s, Ok tt).
Definition emodify {S E} (f : S → S) : eff S E unit := λ s, (f s, Ok tt).

Definition ebind {S E A B} (c : eff S E A) (k : A → eff S E B) : eff S E B := λ s,
  match c s with
  | (s', Ok a) => k a s'
  | (s', Err e) => (s', Err e)
  | (s', Panic) => (s', Panic)
  | (s', Diverge) => (s', Diverge)
  end.

Notation "x <~ c ;; k" := (ebind c (fun x => k))
  (at level 100, c at next level, right associativity) : rust_scope.
Notation "' x <~ c ;; k" := (ebind c (fun x => k))
  (at level 20, x pattern, c at level 99, k at level 200, only parsing) : rust_scope.
Notation "'perform' c ;; k" := (ebind c (fun _ => k))
  (at level 100, c at next level, right associativity) : rust_scope.

(** [match call.await { Ok .. Err .. }]: the error becomes a value. *)
Definition etry {S E F A} (c : eff S E A) : eff S F (A + E) := λ s,
  match c s with
  | (s', Ok a) => (s', Ok (inl a))
  | (s', Err e) => (s', Ok (inr e))
  | (s', Panic) => (s', Panic)
  | (s', Diverge) => (s', Diverge)
  end.

Definition emap_err {S E F A} (f : E → F) (c : eff S E A) : eff S F A := λ s,
  let '(s', r) := c s in (s', map_err f r).

(** A pure [Result]. *)
Definition eres {S E A} (r : res A E) : eff S E A := λ s, (s, r).

Fixpoint efor {S E A} (l : list A) (body : A → eff S E unit) : eff S E unit :=
  match l with
  | [] => eret tt
  | a :: l => perform body a;; efor l body
  end.

(** A computation on a part of the state. *)
Definition ezoom {S T E A} (get : S → T) (set : T → S → S) (c : eff T E A) : eff S E A := λ s,
  let '(t, r) := c (get s) in (set t s, r).

Section triple.
Context {S E : Type} (panics hangs : Prop).

Definition triple {A} (P : S → Prop) (c : eff S E A) (Q : A → S → Prop) (R : E → S → Prop) : Prop :=
  ∀ s, P s →
    match c s with
    | (s', Ok a) => Q a s'
    | (s', Err e) => R e s'
    | (_, Panic) => panics
    | (_, Diverge) => hangs
    end.

(** Nothing but how it may end. *)
Definition calm {A} (c : eff S E A) : Prop :=
  ∀ s, match (c s).2 with Panic => panics | Diverge => hangs | _ => True end.

Lemma triple_ret {A} (P : S → Prop) (a : A) (Q : A → S → Prop) R :
  (∀ s, P s → Q a s) → triple P (eret a) Q R.
Proof. intros H s Hs. by apply H. Qed.

Lemma triple_fail {A} (P : S → Prop) (e : E) (Q : A → S → Prop) (R : E → S → Prop) :
  (∀ s, P s → R e s) → triple P (efail e) Q R.
Proof. intros H s Hs. by apply H. Qed.

Lemma triple_hang {A} (P : S → Prop) (Q : A → S → Prop) R : hangs → triple P ehang Q R.
Proof. by intros H s Hs. Qed.

Lemma triple_panic {A} (P : S → Prop) (Q : A → S → Prop) R : panics → triple P epanic Q R.
Proof. by intros H s Hs. Qed.

Lemma triple_bind {A B} P (c : eff S E A) (k : A → eff S E B) Q' Q R :
  triple P c Q' R → (∀ a, triple (Q' a) (k a) Q R) → triple P (ebind c k) Q R.
Proof.
  intros Hc Hk s Hs. unfold ebind. specialize (Hc s Hs).
  destruct (c s) as [s' [a|e| |]]; try done. by apply Hk.
Qed.

(** A precondition that does not mention the state. *)
Lemma triple_pure {A} (φ : Prop) P (c : eff S E A) Q R :
  (φ → triple P c Q R) → triple (λ s, φ ∧ P s) c Q R.
Proof. intros H s [Hφ Hs]. by apply H. Qed.

Lemma triple_exists {A X} (P : X → S → Prop) (c : eff S E A) Q R :
  (∀ x, triple (P x) c Q R) → triple (λ s, ∃ x, P x s) c Q R.
Proof. intros H s [x Hs]. by apply (H x). Qed.

Lemma triple_conseq {A} (P P' : S → Prop) (c : eff S E A) (Q Q' : A → S → Prop) (R R' : E → S → Prop) :
  triple P' c Q' R' → (∀ s, P s → P' s) → (∀ a s, Q' a s → Q a s) → (∀ e s, R' e s → R e s) →
  triple P c Q R.
Proof.
  intros Hc HP HQ HR s Hs. specialize (Hc s (HP s Hs)).
  destruct (c s) as [s' [a|e| |]]; auto.
Qed.

Lemma triple_for {A} (I : S → Prop) (l : list A) (body : A → eff S E unit) R :
  (∀ a, a ∈ l → triple I (body a) (λ _, I) R) → triple I (efor l body) (λ _, I) R.
Proof.
  induction l as [|a l IH]; intros Hbody; simpl.
  - by apply triple_ret.
  - apply (triple_bind _ _ _ (λ _, I)).
    + apply Hbody. set_solver.
    + intros _. apply IH. intros. apply Hbody. set_solver.
Qed.

Lemma calm_ret {A} (a : A) : calm (eret a).
Proof. done. Qed.

Lemma calm_bind {A B} (c : eff S E A) (k : A → eff S E B) :
  calm c → (∀ s s' a, c s = (s', Ok a) → calm (k a)) → calm (ebind c k).
Proof.
  intros Hc Hk s. unfold ebind. specialize (Hc s). specialize (Hk s).
  destruct (c s) as [s' [a|e| |]]; try done. by eapply Hk.
Qed.

Lemma calm_for {A} (l : list A) (body : A → eff S E unit) :
  (∀ a, a ∈ l → calm (body a)) → calm (efor l body).
Proof.
  induction l as [|a l IH]; intros Hbody; simpl; [apply calm_ret|].
  apply calm_bind; [apply Hbody; set_solver|]. intros. apply IH. intros. apply Hbody. set_solver.
Qed.

Lemma ebind_ok {A B} (c : eff S E A) (k : A → eff S E B) s s' b :
  ebind c k s = (s', Ok b) ↔ ∃ a s1, c s = (s1, Ok a) ∧ k a s1 = (s', Ok b).
Proof. unfold ebind. destruct (c s) as [s1 [a|e| |]]; naive_solver. Qed.

End triple.

Lemma calm_try {S E F A} panics hangs (c : eff S E A) :
  calm panics hangs c → calm panics hangs (etry (F := F) c).
Proof. intros H s. specialize (H s). unfold etry. by destruct (c s) as [s' [a|e| |]]. Qed.

Lemma calm_map_err {S E F A} panics hangs (f : E → F) (c : eff S E A) :
  calm panics hangs c → calm panics hangs (emap_err f c).
Proof. intros H s. specialize (H s). unfold emap_err. by destruct (c s) as [s' [a|e| |]]. Qed.

Lemma calm_zoom {S T E A} panics hangs (get : S → T) (set : T → S → S) (c : eff T E A) :
  calm panics hangs c → calm panics hangs (ezoom get set c).
Proof. intros H s. specialize (H (get s)). unfold ezoom. by destruct (c (get s)) as [t r]. Qed.

(** A condition on the value of a calm computation. *)
Lemma calm_triple {S E A} panics hangs (P : S → Prop) (c : eff S E A) (Q : A → S → Prop)
    (R : E → S → Prop) :
  calm panics hangs c →
  (∀ s s' a, P s → c s = (s', Ok a) → Q a s') → (∀ s s' e, P s → c s = (s', Err e) → R e s') →
  triple panics hangs P c Q R.
Proof.
  intros Hc HQ HR s Hs. specialize (Hc s). specialize (HQ s). specialize (HR s).
  destruct (c s) as [s' [a|e| |]]; eauto.
Qed.

(** A bind whose first part has the rule [lem]. *)
Tactic Notation "bind_with" uconstr(lem) := eapply triple_bind; [eapply lem|intros ?].
