(* ===== verification/Llm.v ===== *)
(** The provider-neutral vocabulary of src/sylvander-llm-core/src: token usage
    (usage.rs), model capabilities (model.rs), conversations and responses
    (types.rs), provider failures (error.rs) and the validation of a request
    against the capabilities of a model (validation.rs). *)

From S2P Require Import Prelude Json.
From stdpp Require Import base tactics gmap strings list.
From Stdlib Require Import ZArith Lia.

Open Scope Z_scope.

(** * Token usage *)

Definition add_optional (total next : option Z) : option Z :=
  match total, next with
  | None, None => None
  | total, next => Some (saturating_add u64_max (default 0 total) (default 0 next))
  end.

Record TokenUsageDetails := {
  reported_total_tokens : option Z;
  cache_write_5m_tokens : option Z;
  cache_write_1h_tokens : option Z;
  reasoning_tokens : option Z;
  audio_input_tokens : option Z;
  audio_output_tokens : option Z;
  accepted_prediction_tokens : option Z;
  rejected_prediction_tokens : option Z;
}.

#[global] Instance TokenUsageDetails_eq_dec : EqDecision TokenUsageDetails.
Proof. solve_decision. Defined.

Definition details_default : TokenUsageDetails :=
  Build_TokenUsageDetails None None None None None None None None.

Record TokenUsage := {
  input_tokens : Z;
  output_tokens : Z;
  cache_write_tokens : option Z;
  cache_read_tokens : option Z;
  details : TokenUsageDetails;
}.

#[global] Instance TokenUsage_eq_dec : EqDecision TokenUsage.
Proof. solve_decision. Defined.

Definition usage_default : TokenUsage := Build_TokenUsage 0 0 None None details_default.

Module Details.

(** [TokenUsageDetails::saturating_add_assign] *)
Definition saturating_add_assign (d other : TokenUsageDetails) : TokenUsageDetails := {|
  cache_write_5m_tokens := add_optional (cache_write_5m_tokens d) (cache_write_5m_tokens other);
  cache_write_1h_tokens := add_optional (cache_write_1h_tokens d) (cache_write_1h_tokens other);
  reasoning_tokens := add_optional (reasoning_tokens d) (reasoning_tokens other);
  audio_input_tokens := add_optional (audio_input_tokens d) (audio_input_tokens other);
  audio_output_tokens := add_optional (audio_output_tokens d) (audio_output_tokens other);
  accepted_prediction_tokens :=
    add_optional (accepted_prediction_tokens d) (accepted_prediction_tokens other);
  rejected_prediction_tokens :=
    add_optional (rejected_prediction_tokens d) (rejected_prediction_tokens other);
  reported_total_tokens := add_optional (reported_total_tokens d) (reported_total_tokens other);
|}.

End Details.

(** [TokenUsage::saturating_add_assign] *)
Definition saturating_add_assign (u other : TokenUsage) : TokenUsage := {|
  input_tokens := saturating_add u64_max (input_tokens u) (input_tokens other);
  output_tokens := saturating_add u64_max (output_tokens u) (output_tokens other);
  cache_write_tokens := add_optional (cache_write_tokens u) (cache_write_tokens other);
  cache_read_tokens := add_optional (cache_read_tokens u) (cache_read_tokens other);
  details := Details.saturating_add_assign (details u) (details other);
|}.

Definition total_input_tokens (u : TokenUsage) : Z :=
  saturating_add u64_max
    (saturating_add u64_max (input_tokens u) (default 0 (cache_write_tokens u)))
    (default 0 (cache_read_tokens u)).

(** Every dimension of a usage record, in one list. *)
Definition dimensions (u : TokenUsage) : list (option Z) :=
  let d := details u in
  [Some (input_tokens u); Some (output_tokens u); cache_write_tokens u; cache_read_tokens u;
   reported_total_tokens d; cache_write_5m_tokens d; cache_write_1h_tokens d; reasoning_tokens d;
   audio_input_tokens d; audio_output_tokens d; accepted_prediction_tokens d;
   rejected_prediction_tokens d].

(** Every dimension is a [u64]. *)
Definition usage_ok (u : TokenUsage) : Prop :=
  Forall (λ o, ∀ x, o = Some x → in_u64 x) (dimensions u).

Definition optional_ok (o : option Z) : Prop := ∀ x, o = Some x → in_u64 x.

Lemma optional_ok_default o : optional_ok o → in_u64 (default 0 o).
Proof. intros H. destruct o; simpl; [by apply H|]. unfold in_u64, u64_max. lia. Qed.

Lemma add_optional_ok x y : optional_ok x → optional_ok y → optional_ok (add_optional x y).
Proof.
  intros Hx Hy z. unfold add_optional.
  pose proof (saturating_add_u64 _ _ (optional_ok_default x Hx) (optional_ok_default y Hy)) as H.
  destruct x, y; intros [= <-]; exact H.
Qed.

Lemma add_optional_comm x y : add_optional x y = add_optional y x.
Proof.
  destruct x, y; simpl; try done; f_equal; apply saturating_add_comm.
Qed.

Lemma add_optional_assoc x y z :
  optional_ok x → optional_ok y → optional_ok z →
  add_optional (add_optional x y) z = add_optional x (add_optional y z).
Proof.
  intros Hx Hy Hz.
  pose proof (optional_ok_default x Hx) as Rx. pose proof (optional_ok_default y Hy) as Ry.
  pose proof (optional_ok_default z Hz) as Rz. unfold in_u64, u64_max in *.
  destruct x, y, z; simpl in *; try done; f_equal; unfold saturating_add, u64_max in *; lia.
Qed.

Lemma dimensions_add u v :
  usage_ok u → usage_ok v →
  dimensions (saturating_add_assign u v) = zip_with add_optional (dimensions u) (dimensions v).
Proof. done. Qed.

Lemma dimensions_inj u v : dimensions u = dimensions v → u = v.
Proof.
  destruct u as [? ? ? ? []], v as [? ? ? ? []]. unfold dimensions; simpl.
  intros H. injection H as <- <- <- <- <- <- <- <- <- <- <- <-. done.
Qed.

Lemma usage_ok_default : usage_ok usage_default.
Proof.
  assert (in_u64 0) by (unfold in_u64, u64_max; lia).
  unfold usage_ok, dimensions. simpl. repeat (constructor; [naive_solver|]). constructor.
Qed.

Lemma zip_with_add_optional_ok l k :
  Forall optional_ok l → Forall optional_ok k → Forall optional_ok (zip_with add_optional l k).
Proof.
  intros Hl. revert k. induction Hl; intros k Hk; [constructor|].
  destruct Hk; simpl; constructor; auto using add_optional_ok.
Qed.

Lemma usage_ok_add u v : usage_ok u → usage_ok v → usage_ok (saturating_add_assign u v).
Proof.
  intros Hu Hv. unfold usage_ok. rewrite dimensions_add by done.
  by apply zip_with_add_optional_ok.
Qed.

Lemma zip_with_add_optional_assoc (l k m : list (option Z)) :
  Forall optional_ok l → Forall optional_ok k → Forall optional_ok m →
  zip_with add_optional (zip_with add_optional l k) m
  = zip_with add_optional l (zip_with add_optional k m).
Proof.
  intros Hl. revert k m. induction Hl as [|x l Hx Hl IH]; intros k m Hk Hm; [done|].
  destruct Hk as [|y k Hy Hk]; [done|]. destruct Hm as [|z m Hz Hm]; [done|]. simpl.
  rewrite add_optional_assoc by done. f_equal. by apply IH.
Qed.

Lemma usage_add_comm u v :
  usage_ok u → usage_ok v → saturating_add_assign u v = saturating_add_assign v u.
Proof.
  intros Hu Hv. apply dimensions_inj. rewrite !dimensions_add by done.
  generalize (dimensions v). induction (dimensions u) as [|x l IH]; intros [|y k]; simpl; try done.
  by rewrite add_optional_comm, IH.
Qed.

Lemma usage_add_assoc u v w :
  usage_ok u → usage_ok v → usage_ok w →
  saturating_add_assign (saturating_add_assign u v) w
  = saturating_add_assign u (saturating_add_assign v w).
Proof.
  intros Hu Hv Hw. apply dimensions_inj.
  rewrite !dimensions_add by auto using usage_ok_add.
  by apply zip_with_add_optional_assoc.
Qed.

(** The usage accumulated over a list of records, and that it does not depend
    on their order. *)
Definition total_usage (l : list TokenUsage) : TokenUsage :=
  foldl saturating_add_assign usage_default l.

Lemma usage_fold_ok u l :
  usage_ok u → Forall usage_ok l → usage_ok (foldl saturating_add_assign u l).
Proof.
  intros Hu Hl. revert u Hu. induction Hl; intros u Hu; simpl; [done|].
  auto using usage_ok_add.
Qed.

Lemma usage_fold_perm u l k :
  usage_ok u → Forall usage_ok l → l ≡ₚ k →
  foldl saturating_add_assign u l = foldl saturating_add_assign u k.
Proof.
  intros Hu Hl Hp. revert u Hu. induction Hp as [|x l k Hp IH|x y l|l k m H1 IH1 H2 IH2];
    intros u Hu; simpl; [done| | |].
  - inversion Hl; subst. auto using usage_ok_add.
  - inversion Hl as [|?? Hy Hl']; subst. inversion Hl' as [|?? Hx Hl'']; subst.
    by rewrite usage_add_assoc, (usage_add_comm y x), <- usage_add_assoc by done.
  - rewrite IH1 by done. apply IH2; [|done]. by rewrite <- H1.
Qed.

Lemma total_input_tokens_u64 u : usage_ok u → in_u64 (total_input_tokens u).
Proof.
  intros Hu. unfold usage_ok, dimensions in Hu. simpl in Hu.
  repeat match goal with H : Forall _ (_ :: _) |- _ => inversion_clear H end.
  unfold total_input_tokens.
  repeat apply saturating_add_u64; try apply optional_ok_default; eauto.
Qed.

(** * Models *)

Record ModelRef := {
  provider : string;
  model_name : string;
}.

#[global] Instance ModelRef_eq_dec : EqDecision ModelRef.
Proof. solve_decision. Defined.

Module Capabilities.

(** [ModelCapabilities] is a [u16] bit set. *)
Definition t := Z.

Definition REASONING : t := Z.shiftl 1 0.
Definition PROMPT_CACHING : t := Z.shiftl 1 1.
Definition STRUCTURED_OUTPUT : t := Z.shiftl 1 2.
Definition TOOL_USE : t := Z.shiftl 1 3.
Definition VISION : t := Z.shiftl 1 4.
Definition DOCUMENT_INPUT : t := Z.shiftl 1 5.
Definition AUDIO_INPUT : t := Z.shiftl 1 6.

Definition empty : t := 0.
Definition contains (c other : t) : bool := Z.land c other =? other.
Definition union (c other : t) : t := Z.lor c other.
Definition intersects (c other : t) : bool := negb (Z.land c other =? 0).

Lemma contains_spec c d :
  contains c d = true ↔ ∀ n, Z.testbit d n = true → Z.testbit c n = true.
Proof.
  unfold contains. rewrite Z.eqb_eq. split.
  - intros H n Hn. rewrite <- H, Z.land_spec in Hn. by apply andb_true_iff in Hn as [? _].
  - intros H. apply Z.bits_inj. intros n. rewrite Z.land_spec.
    destruct (Z.testbit d n) eqn:E; [by rewrite (H n E)|apply andb_false_r].
Qed.

Lemma contains_union c d e :
  contains c (union d e) = true ↔ contains c d = true ∧ contains c e = true.
Proof.
  rewrite !contains_spec. unfold union. split.
  - intros H; split; intros n Hn; apply H; rewrite Z.lor_spec, Hn;
      [done|apply orb_true_r].
  - intros [Hd He] n. rewrite Z.lor_spec. intros [?|?]%orb_true_iff; auto.
Qed.

Lemma contains_empty c : contains c empty = true.
Proof. apply contains_spec. intros n. unfold empty. by rewrite Z.bits_0. Qed.

End Capabilities.

Notation ModelCapabilities := Capabilities.t (only parsing).

Record ModelInfo := {
  reference : ModelRef;
  context_window : Z;
  mi_max_output_tokens : Z;
  capabilities : ModelCapabilities;
}.

(** * Provider failures *)

Module ProviderErrorKind.
Inductive t :=
  | Transport | Timeout | RateLimited | Authentication | QuotaExceeded | PermissionDenied
  | ModelNotFound | InvalidRequest | Unsupported | Unavailable | Protocol | Cancelled | Other.

#[global] Instance t_eq_dec : EqDecision t.
Proof. solve_decision. Defined.

Definition is_retryable (k : t) : bool :=
  match k with Transport | Timeout | RateLimited | Unavailable => true | _ => false end.
End ProviderErrorKind.

(** The derived [Debug] names. *)
Definition kind_text (k : ProviderErrorKind.t) : string :=
  match k with
  | ProviderErrorKind.Transport => "Transport"
  | ProviderErrorKind.Timeout => "Timeout"
  | ProviderErrorKind.RateLimited => "RateLimited"
  | ProviderErrorKind.Authentication => "Authentication"
  | ProviderErrorKind.QuotaExceeded => "QuotaExceeded"
  | ProviderErrorKind.PermissionDenied => "PermissionDenied"
  | ProviderErrorKind.ModelNotFound => "ModelNotFound"
  | ProviderErrorKind.InvalidRequest => "InvalidRequest"
  | ProviderErrorKind.Unsupported => "Unsupported"
  | ProviderErrorKind.Unavailable => "Unavailable"
  | ProviderErrorKind.Protocol => "Protocol"
  | ProviderErrorKind.Cancelled => "Cancelled"
  | ProviderErrorKind.Other => "Other"
  end.

Inductive ProviderErrorPhase := Open | Stream.

#[global] Instance ProviderErrorPhase_eq_dec : EqDecision ProviderErrorPhase.
Proof. solve_decision. Defined.

Record ProviderError := {
  kind : ProviderErrorKind.t;
  pe_phase : ProviderErrorPhase;
  pe_message : string;
  status : option Z;
  pe_request_id : option string;
  retry_after_ms : option Z;
}.

#[global] Instance ProviderError_eq_dec : EqDecision ProviderError.
Proof. solve_decision. Defined.

(** [ProviderError::new] *)
Definition provider_error_new (k : ProviderErrorKind.t) (p : ProviderErrorPhase)
    (message : string) : ProviderError :=
  {| kind := k; pe_phase := p; pe_message := message; status := None;
     pe_request_id := None; retry_after_ms := None |}.

(** The [Display] text. *)
Definition provider_error_text (e : ProviderError) : string :=
  "provider " +:+ kind_text (kind e) +:+ " error during "
  +:+ (match pe_phase e with Open => "Open" | Stream => "Stream" end) +:+ ": " +:+ pe_message e.

Definition is_retryable (e : ProviderError) : bool := ProviderErrorKind.is_retryable (kind e).

(** * Conversations *)

Inductive ChatRole := User | Assistant.

#[global] Instance ChatRole_eq_dec : EqDecision ChatRole.
Proof. solve_decision. Defined.

Inductive MediaSource :=
  | Base64 (media_type data : string)
  | Url (url : string).

#[global] Instance MediaSource_eq_dec : EqDecision MediaSource.
Proof. solve_decision. Defined.

Record ImageContent := { image_source : MediaSource; alt_text : option string }.

#[global] Instance ImageContent_eq_dec : EqDecision ImageContent.
Proof. solve_decision. Defined.

Inductive AudioFormat := Wav | Mp3.

#[global] Instance AudioFormat_eq_dec : EqDecision AudioFormat.
Proof. solve_decision. Defined.

Record AudioContent := {
  audio_data : string;
  audio_format : AudioFormat;
  transcript : option string;
}.

#[global] Instance AudioContent_eq_dec : EqDecision AudioContent.
Proof. solve_decision. Defined.

Record DocumentContent := { document_source : MediaSource; title : option string }.

#[global] Instance DocumentContent_eq_dec : EqDecision DocumentContent.
Proof. solve_decision. Defined.

Module ToolResultContent.
Inductive t :=
  | Text (text : string)
  | Image (image : ImageContent)
  | Audio (audio : AudioContent)
  | Document (document : DocumentContent).

#[global] Instance t_eq_dec : EqDecision t.
Proof. solve_decision. Defined.
End ToolResultContent.

Notation ToolResultContent := ToolResultContent.t (only parsing).

Inductive CacheHint := Ephemeral.

#[global] Instance CacheHint_eq_dec : EqDecision CacheHint.
Proof. solve_decision. Defined.

Record SystemInstruction := { si_text : string; si_cache_hint : option CacheHint }.

Inductive ReasoningEffort := Disabled | Minimal | Low | Medium | High | Xhigh | Max.

Record ReasoningConfig := { budget_tokens : option Z; effort : option ReasoningEffort }.

Module StopReason.
Inductive t :=
  | EndTurn
  | ToolUse
  | MaxOutputTokens
  | StopSequence (sequence : string)
  | Refusal
  | Paused
  | Other (detail : string).

#[global] Instance t_eq_dec : EqDecision t.
Proof. solve_decision. Defined.
End StopReason.

Notation StopReason := StopReason.t (only parsing).

Section conversation.
Context `{J : SerdeJson}.

Record OpaqueProviderState := { state_provider : string; state_data : Value }.

#[global] Instance OpaqueProviderState_eq_dec : EqDecision OpaqueProviderState.
Proof. solve_decision. Defined.

Inductive ContentBlock :=
  | Text (text : string)
  | Reasoning (text : string) (opaque_state : option OpaqueProviderState)
  | ToolCall (id name : string) (arguments : Value)
  | ToolResult (call_id : string) (content : list ToolResultContent) (is_error : bool)
  | Image (image : ImageContent)
  | Audio (audio : AudioContent)
  | Document (document : DocumentContent).

#[global] Instance ContentBlock_eq_dec : EqDecision ContentBlock.
Proof. solve_decision. Defined.

Record ChatMessage := { msg_role : ChatRole; content : list ContentBlock }.

#[global] Instance ChatMessage_eq_dec : EqDecision ChatMessage.
Proof. solve_decision. Defined.

Definition user (text : string) : ChatMessage := {| msg_role := User; content := [Text text] |}.
Definition user_blocks (blocks : list ContentBlock) : ChatMessage :=
  {| msg_role := User; content := blocks |}.
Definition assistant (blocks : list ContentBlock) : ChatMessage :=
  {| msg_role := Assistant; content := blocks |}.

Definition tool_result_text (call_id text : string) (is_error : bool) : ContentBlock :=
  ToolResult call_id [ToolResultContent.Text text] is_error.

(** [ToolDefinition] of llm-core, what a model is told about a tool. *)
Record LlmToolDefinition := {
  td_name : string;
  td_description : string;
  td_input_schema : Value;
  td_cache_hint : option CacheHint;
}.

Record ModelRequest := {
  mr_request_id : string;
  mr_model : ModelRef;
  system : list SystemInstruction;
  mr_messages : list ChatMessage;
  tools : list LlmToolDefinition;
  max_output_tokens : Z;
  reasoning : option ReasoningConfig;
  output_schema : option Value;
}.

Record ModelResponse := {
  response_id : string;
  response_model : ModelRef;
  response_content : list ContentBlock;
  stop_reason : StopReason;
  usage : TokenUsage;
}.

#[global] Instance ModelResponse_eq_dec : EqDecision ModelResponse.
Proof. solve_decision. Defined.

(** [ModelResponse::text] *)
Definition response_text (r : ModelResponse) : string :=
  foldl String.append ""
    (omap (λ b, match b with Text text => Some text | _ => None end) (response_content r)).

Inductive ModelStreamEvent :=
  | TextDelta (text : string)
  | ReasoningDelta (text : string)
  | StreamCompleted (response : ModelResponse).

End conversation.

(** * Validation of a request against the capabilities of a model *)

Inductive RequiredModelCapability :=
  | RequiresToolUse | RequiresReasoning | RequiresStructuredOutput | RequiresPromptCaching
  | RequiresVision | RequiresDocumentInput | RequiresAudioInput.

#[global] Instance RequiredModelCapability_eq_dec : EqDecision RequiredModelCapability.
Proof. solve_decision. Defined.

Definition flag (c : RequiredModelCapability) : ModelCapabilities :=
  match c with
  | RequiresToolUse => Capabilities.TOOL_USE
  | RequiresReasoning => Capabilities.REASONING
  | RequiresStructuredOutput => Capabilities.STRUCTURED_OUTPUT
  | RequiresPromptCaching => Capabilities.PROMPT_CACHING
  | RequiresVision => Capabilities.VISION
  | RequiresDocumentInput => Capabilities.DOCUMENT_INPUT
  | RequiresAudioInput => Capabilities.AUDIO_INPUT
  end.

Inductive ModelRequestFeature :=
  | ToolDefinitions | ToolHistory | ReasoningRequest | ReasoningHistory | OutputSchema
  | SystemCacheHint | ToolCacheHint | DirectImage | ToolResultImage | DirectDocument
  | ToolResultDocument | DirectAudio | ToolResultAudio.

#[global] Instance ModelRequestFeature_eq_dec : EqDecision ModelRequestFeature.
Proof. solve_decision. Defined.

Record ModelRequestCapabilityError := {
  mce_capability : RequiredModelCapability;
  mce_feature : ModelRequestFeature;
}.

Definition capability_text (c : RequiredModelCapability) : string :=
  match c with
  | RequiresToolUse => "tool_use"
  | RequiresReasoning => "reasoning"
  | RequiresStructuredOutput => "structured_output"
  | RequiresPromptCaching => "prompt_caching"
  | RequiresVision => "vision"
  | RequiresDocumentInput => "document_input"
  | RequiresAudioInput => "audio_input"
  end.

Definition feature_text (f : ModelRequestFeature) : string :=
  match f with
  | ToolDefinitions => "tool_definitions"
  | ToolHistory => "tool_history"
  | ReasoningRequest => "reasoning_request"
  | ReasoningHistory => "reasoning_history"
  | OutputSchema => "output_schema"
  | SystemCacheHint => "system_cache_hint"
  | ToolCacheHint => "tool_cache_hint"
  | DirectImage => "direct_image"
  | ToolResultImage => "tool_result_image"
  | DirectDocument => "direct_document"
  | ToolResultDocument => "tool_result_document"
  | DirectAudio => "direct_audio"
  | ToolResultAudio => "tool_result_audio"
  end.

Definition capability_error_text (e : ModelRequestCapabilityError) : string :=
  "model lacks `" +:+ capability_text (mce_capability e) +:+ "` required by `"
  +:+ feature_text (mce_feature e) +:+ "`".

Record FeatureScan := {
  scan_tool : bool;
  scan_reasoning : bool;
  scan_image : bool;
  scan_result_image : bool;
  scan_document : bool;
  scan_result_document : bool;
  scan_audio : bool;
  scan_result_audio : bool;
}.

Definition scan_default : FeatureScan :=
  Build_FeatureScan false false false false false false false false.

(** [bool::then_some] and [Option::or] *)
Definition then_some {A} (b : bool) (a : A) : option A := if b then Some a else None.
Definition option_or {A} (x y : option A) : option A := match x with Some _ => x | None => y end.

Section validation.
Context `{J : SerdeJson}.

Definition is_result_image (c : ToolResultContent) : bool :=
  match c with ToolResultContent.Image _ => true | _ => false end.
Definition is_result_document (c : ToolResultContent) : bool :=
  match c with ToolResultContent.Document _ => true | _ => false end.
Definition is_result_audio (c : ToolResultContent) : bool :=
  match c with ToolResultContent.Audio _ => true | _ => false end.

(** The loop over the items of a tool result in [FeatureScan::visit]. *)
Definition visit_item (s : FeatureScan) (item : ToolResultContent) : FeatureScan := {|
  scan_tool := scan_tool s; scan_reasoning := scan_reasoning s;
  scan_image := scan_image s; scan_document := scan_document s; scan_audio := scan_audio s;
  scan_result_image := scan_result_image s || is_result_image item;
  scan_result_document := scan_result_document s || is_result_document item;
  scan_result_audio := scan_result_audio s || is_result_audio item;
|}.

Definition visit (s : FeatureScan) (block : ContentBlock) : FeatureScan :=
  match block with
  | ToolCall _ _ _ =>
      Build_FeatureScan true (scan_reasoning s) (scan_image s) (scan_result_image s)
        (scan_document s) (scan_result_document s) (scan_audio s) (scan_result_audio s)
  | ToolResult _ items _ =>
      foldl visit_item
        (Build_FeatureScan true (scan_reasoning s) (scan_image s) (scan_result_image s)
           (scan_document s) (scan_result_document s) (scan_audio s) (scan_result_audio s)) items
  | Reasoning _ _ =>
      Build_FeatureScan (scan_tool s) true (scan_image s) (scan_result_image s)
        (scan_document s) (scan_result_document s) (scan_audio s) (scan_result_audio s)
  | Image _ =>
      Build_FeatureScan (scan_tool s) (scan_reasoning s) true (scan_result_image s)
        (scan_document s) (scan_result_document s) (scan_audio s) (scan_result_audio s)
  | Document _ =>
      Build_FeatureScan (scan_tool s) (scan_reasoning s) (scan_image s) (scan_result_image s)
        true (scan_result_document s) (scan_audio s) (scan_result_audio s)
  | Audio _ =>
      Build_FeatureScan (scan_tool s) (scan_reasoning s) (scan_image s) (scan_result_image s)
        (scan_document s) (scan_result_document s) true (scan_result_audio s)
  | Text _ => s
  end.

Definition request_scan (r : ModelRequest) : FeatureScan :=
  foldl visit scan_default (mr_messages r ≫= content).

Definition requirements (r : ModelRequest)
    : list (RequiredModelCapability * ModelRequestFeature) :=
  let scan := request_scan r in
  let tool := option_or
    (then_some (negb (bool_decide (tools r = []))) ToolDefinitions)
    (then_some (scan_tool scan) ToolHistory) in
  let reasoning := option_or
    (then_some (bool_decide (is_Some (reasoning r))) ReasoningRequest)
    (then_some (scan_reasoning scan) ReasoningHistory) in
  let cache := option_or
    (then_some (existsb (λ i, bool_decide (is_Some (si_cache_hint i))) (system r)) SystemCacheHint)
    (then_some (existsb (λ t, bool_decide (is_Some (td_cache_hint t))) (tools r)) ToolCacheHint) in
  omap id [
    pair RequiresToolUse <$> tool;
    pair RequiresReasoning <$> reasoning;
    then_some (bool_decide (is_Some (output_schema r))) (RequiresStructuredOutput, OutputSchema);
    pair RequiresPromptCaching <$> cache;
    then_some (scan_image scan || scan_result_image scan)
      (RequiresVision, if scan_image scan then DirectImage else ToolResultImage);
    then_some (scan_document scan || scan_result_document scan)
      (RequiresDocumentInput, if scan_document scan then DirectDocument else ToolResultDocument);
    then_some (scan_audio scan || scan_result_audio scan)
      (RequiresAudioInput, if scan_audio scan then DirectAudio else ToolResultAudio)].

Definition required_model_capabilities (r : ModelRequest) : ModelCapabilities :=
  foldl (λ all '(c, _), Capabilities.union all (flag c)) Capabilities.empty (requirements r).

(** The loop of [validate_model_request_capabilities]. *)
Fixpoint first_missing (available : ModelCapabilities)
    (l : list (RequiredModelCapability * ModelRequestFeature))
    : res unit ModelRequestCapabilityError :=
  match l with
  | [] => Ok tt
  | (c, f) :: l' =>
      if Capabilities.contains available (flag c) then first_missing available l'
      else Err {| mce_capability := c; mce_feature := f |}
  end.

Definition validate_model_request_capabilities (r : ModelRequest) (available : ModelCapabilities)
    : res unit ModelRequestCapabilityError :=
  first_missing available (requirements r).

(** ** What a request uses

    The requirements, read off the request without the scan. *)

Definition block_uses_tools (b : ContentBlock) : Prop :=
  match b with ToolCall _ _ _ | ToolResult _ _ _ => True | _ => False end.

(** A block is a medium, or carries one inside a tool result. *)
Definition block_has (direct : ContentBlock → bool) (item : ToolResultContent → bool)
    (b : ContentBlock) : Prop :=
  direct b = true ∨ ∃ id items e, b = ToolResult id items e ∧ existsb item items = true.

Definition is_image (b : ContentBlock) : bool := match b with Image _ => true | _ => false end.
Definition is_document (b : ContentBlock) : bool :=
  match b with Document _ => true | _ => false end.
Definition is_audio (b : ContentBlock) : bool := match b with Audio _ => true | _ => false end.

Definition uses (r : ModelRequest) (c : RequiredModelCapability) : Prop :=
  let blocks := mr_messages r ≫= content in
  match c with
  | RequiresToolUse => tools r ≠ [] ∨ Exists block_uses_tools blocks
  | RequiresReasoning =>
      is_Some (reasoning r) ∨ Exists (λ b, match b with Reasoning _ _ => True | _ => False end) blocks
  | RequiresStructuredOutput => is_Some (output_schema r)
  | RequiresPromptCaching =>
      Exists (λ i, is_Some (si_cache_hint i)) (system r) ∨
      Exists (λ t, is_Some (td_cache_hint t)) (tools r)
  | RequiresVision => Exists (block_has is_image is_result_image) blocks
  | RequiresDocumentInput => Exists (block_has is_document is_result_document) blocks
  | RequiresAudioInput => Exists (block_has is_audio is_result_audio) blocks
  end.

Lemma visit_items_scan s items :
  let s' := foldl visit_item s items in
  scan_tool s' = scan_tool s ∧ scan_reasoning s' = scan_reasoning s ∧
  scan_image s' = scan_image s ∧ scan_document s' = scan_document s ∧
  scan_audio s' = scan_audio s ∧
  scan_result_image s' = (scan_result_image s || existsb is_result_image items) ∧
  scan_result_document s' = (scan_result_document s || existsb is_result_document items) ∧
  scan_result_audio s' = (scan_result_audio s || existsb is_result_audio items).
Proof.
  revert s. induction items as [|i items IH]; intros s; simpl.
  - by rewrite !orb_false_r.
  - destruct (IH (visit_item s i)) as (-> & -> & -> & -> & -> & -> & -> & ->). simpl.
    by rewrite !orb_assoc.
Qed.

(** Each flag of the scan is the disjunction of what the blocks contribute. *)
Lemma foldl_flag (get : FeatureScan → bool) (f : ContentBlock → bool) s l :
  (∀ s b, get (visit s b) = (get s || f b)%bool) →
  get (foldl visit s l) = (get s || existsb f l)%bool.
Proof.
  intros Hstep. revert s. induction l as [|b l IH]; intros s; simpl; [by rewrite orb_false_r|].
  by rewrite IH, Hstep, orb_assoc.
Qed.

Definition result_items (b : ContentBlock) : list ToolResultContent :=
  match b with ToolResult _ items _ => items | _ => [] end.

Lemma request_scan_spec r :
  let blocks := mr_messages r ≫= content in
  let s := request_scan r in
  scan_tool s = existsb (λ b, match b with ToolCall _ _ _ | ToolResult _ _ _ => true | _ => false end) blocks ∧
  scan_reasoning s = existsb (λ b, match b with Reasoning _ _ => true | _ => false end) blocks ∧
  scan_image s = existsb is_image blocks ∧ scan_document s = existsb is_document blocks ∧
  scan_audio s = existsb is_audio blocks ∧
  scan_result_image s = existsb (λ b, existsb is_result_image (result_items b)) blocks ∧
  scan_result_document s = existsb (λ b, existsb is_result_document (result_items b)) blocks ∧
  scan_result_audio s = existsb (λ b, existsb is_result_audio (result_items b)) blocks.
Proof.
  simpl. unfold request_scan.
  split_and!; match goal with |- ?get (foldl _ _ _) = existsb ?f _ => apply (foldl_flag get f) end;
    intros s b; destruct b as [| | |? items ?| | |]; simpl;
    rewrite ?orb_false_r, ?orb_true_r; try done;
    match goal with |- context [foldl visit_item ?s0 items] =>
      destruct (visit_items_scan s0 items) as (E1 & E2 & E3 & E4 & E5 & E6 & E7 & E8) end;
    rewrite ?E1, ?E2, ?E3, ?E4, ?E5, ?E6, ?E7, ?E8; simpl; done.
Qed.

Lemma existsb_Exists {A} (f : A → bool) (P : A → Prop) l :
  (∀ x, f x = true ↔ P x) → existsb f l = true ↔ Exists P l.
Proof.
  intros Hf. rewrite existsb_exists, Exists_exists.
  split; intros (x & Hx & H); exists x; split; try by apply Hf.
  - by apply list_elem_of_In.
  - by apply list_elem_of_In.
Qed.

Lemma medium_used (direct : ContentBlock → bool) (item : ToolResultContent → bool) blocks :
  (existsb direct blocks || existsb (λ b, existsb item (result_items b)) blocks)%bool = true ↔
  Exists (block_has direct item) blocks.
Proof.
  rewrite orb_true_iff, (existsb_Exists direct (λ b, direct b = true)) by done.
  rewrite (existsb_Exists _ (λ b, existsb item (result_items b) = true)) by done.
  rewrite !Exists_exists. unfold block_has. split.
  - intros [(b & Hb & H)|(b & Hb & H)]; exists b; (split; [done|]); [by left|].
    right. destruct b; simpl in H; try done. by eauto 10.
  - intros (b & Hb & [H|(id & items & e & -> & H)]); [left; by eauto|].
    right. exists (ToolResult id items e). by split.
Qed.

(** The condition of each entry of [requirements]. *)
Definition required (r : ModelRequest) (c : RequiredModelCapability) : bool :=
  let s := request_scan r in
  match c with
  | RequiresToolUse => negb (bool_decide (tools r = [])) || scan_tool s
  | RequiresReasoning => bool_decide (is_Some (reasoning r)) || scan_reasoning s
  | RequiresStructuredOutput => bool_decide (is_Some (output_schema r))
  | RequiresPromptCaching =>
      existsb (λ i, bool_decide (is_Some (si_cache_hint i))) (system r) ||
      existsb (λ t, bool_decide (is_Some (td_cache_hint t))) (tools r)
  | RequiresVision => scan_image s || scan_result_image s
  | RequiresDocumentInput => scan_document s || scan_result_document s
  | RequiresAudioInput => scan_audio s || scan_result_audio s
  end.

Lemma requirements_required r c : c ∈ (requirements r).*1 ↔ required r c = true.
Proof.
  unfold requirements, required.
  generalize (negb (bool_decide (tools r = []))); intros b1.
  generalize (bool_decide (is_Some (reasoning r))); intros b2.
  generalize (bool_decide (is_Some (output_schema r))); intros b3.
  generalize (existsb (λ i, bool_decide (is_Some (si_cache_hint i))) (system r)); intros b4.
  generalize (existsb (λ t, bool_decide (is_Some (td_cache_hint t))) (tools r)); intros b5.
  assert (Hin : ∀ l, c ∈ (omap id l : list (RequiredModelCapability * ModelRequestFeature)).*1 ↔
    ∃ f, Some (c, f) ∈ l).
  { intros l. rewrite list_elem_of_fmap. split.
    - intros ([c' f] & -> & (o & Ho & Heq)%list_elem_of_omap). simpl in *. subst o. by eauto.
    - intros (f & Hf). exists (c, f). split; [done|]. apply list_elem_of_omap. by exists (Some (c, f)). }
  rewrite Hin. clear Hin. destruct (request_scan r) as [s1 s2 s3 s4 s5 s6 s7 s8]; simpl.
  unfold then_some, option_or. split.
  - intros (f & Hf). repeat (apply elem_of_cons in Hf as [Hf|Hf]); [..|by apply elem_of_nil in Hf];
      repeat case_match; simplify_eq/=; by rewrite ?orb_true_r.
  - intros H. destruct c;
      [ exists (if b1 then ToolDefinitions else ToolHistory); apply (list_elem_of_lookup_2 _ 0)
      | exists (if b2 then ReasoningRequest else ReasoningHistory); apply (list_elem_of_lookup_2 _ 1)
      | exists OutputSchema; apply (list_elem_of_lookup_2 _ 2)
      | exists (if b4 then SystemCacheHint else ToolCacheHint); apply (list_elem_of_lookup_2 _ 3)
      | exists (if s3 then DirectImage else ToolResultImage); apply (list_elem_of_lookup_2 _ 4)
      | exists (if s5 then DirectDocument else ToolResultDocument); apply (list_elem_of_lookup_2 _ 5)
      | exists (if s7 then DirectAudio else ToolResultAudio); apply (list_elem_of_lookup_2 _ 6) ];
      simpl; repeat case_match; simplify_eq/=; done.
Qed.

Lemma requirements_used r c : c ∈ (requirements r).*1 ↔ uses r c.
Proof.
  rewrite requirements_required. unfold required, uses.
  destruct (request_scan_spec r) as (E1 & E2 & E3 & E4 & E5 & E6 & E7 & E8).
  destruct c; rewrite ?E1, ?E2, ?E3, ?E4, ?E5, ?E6, ?E7, ?E8; try apply medium_used;
    rewrite ?orb_true_iff, ?negb_bool_decide_true, ?bool_decide_eq_true; try done.
  - rewrite (existsb_Exists _ block_uses_tools); [done|]. intros []; simpl; naive_solver.
  - rewrite (existsb_Exists _ (λ b, match b with Reasoning _ _ => True | _ => False end)); [done|].
    intros []; simpl; naive_solver.
  - rewrite (existsb_Exists _ (λ i, is_Some (si_cache_hint i))) by (intros; apply bool_decide_eq_true).
    by rewrite (existsb_Exists _ (λ t, is_Some (td_cache_hint t))) by (intros; apply bool_decide_eq_true).
Qed.

Lemma first_missing_ok available l :
  first_missing available l = Ok tt ↔
  ∀ c, c ∈ l.*1 → Capabilities.contains available (flag c) = true.
Proof.
  induction l as [|[c f] l IH]; simpl; [set_solver|].
  destruct (Capabilities.contains available (flag c)) eqn:E.
  - rewrite IH. set_solver.
  - split; [done|]. intros H. rewrite H in E; [done|set_solver].
Qed.

Lemma first_missing_err available l c f :
  first_missing available l = Err {| mce_capability := c; mce_feature := f |} ↔
  ∃ l1 l2, l = l1 ++ (c, f) :: l2 ∧ Capabilities.contains available (flag c) = false ∧
    ∀ c', c' ∈ l1.*1 → Capabilities.contains available (flag c') = true.
Proof.
  induction l as [|[c' f'] l IH]; simpl.
  - split; [done|]. intros (l1 & l2 & H & _). by destruct l1.
  - destruct (Capabilities.contains available (flag c')) eqn:E.
    + rewrite IH. split.
      * intros (l1 & l2 & -> & Hc & Hpre). exists ((c', f') :: l1), l2. split; [done|]. set_solver.
      * intros ([|? l1] & l2 & [= <- ->] & Hc & Hpre); [congruence|]. exists l1, l2. set_solver.
    + split.
      * intros [= <- <-]. exists [], l. set_solver.
      * intros ([|? l1] & l2 & [= <- ->] & Hc & Hpre); [done|]. rewrite Hpre in E; [done|set_solver].
Qed.

Lemma contains_foldl available all l :
  Capabilities.contains available
    (foldl (λ all '(c, _), Capabilities.union all (flag c)) all l) = true ↔
  Capabilities.contains available all = true ∧
  ∀ c : RequiredModelCapability, c ∈ (l : list (_ * ModelRequestFeature)).*1 →
    Capabilities.contains available (flag c) = true.
Proof.
  revert all. induction l as [|[c f] l IH]; intros all; simpl; [set_solver|].
  rewrite IH, Capabilities.contains_union. set_solver.
Qed.

End validation.
