(* ===== verification/TurnMachine.v ===== *)
(** The state machine of one agent turn,
    src/sylvander-agent/src/turn/machine.rs, with the conversation snapshot of
    turn/conversation.rs, the outcome of turn/outcome.rs and the errors of
    turn/error.rs.

    The methods that take [&mut self] return the machine they leave, also when
    they fail: [start_iteration] writes two fields before it asks [transition]. *)

From S2P Require Import Prelude Json Llm.
From stdpp Require Import base tactics gmap strings list relations pretty.
From Stdlib Require Import ZArith Lia Ascii.

Open Scope Z_scope.

(** [AgentLoopError] of turn/error.rs *)
Module LoopError.

Inductive AgentLoopError :=
  | MaxIterationsReached (n : Z)
  | IncompatibleModel (reason : string)
  | Provider (attempts : Z) (source : ProviderError)
  | Tool (reason : string)
  | Compression (reason : string)
  | Validation (reason : string).

#[global] Instance AgentLoopError_eq_dec : EqDecision AgentLoopError.
Proof. solve_decision. Defined.

Definition is_retryable (e : AgentLoopError) : bool :=
  match e with
  | Provider _ source => Llm.is_retryable source
  | MaxIterationsReached _ | IncompatibleModel _ | Tool _ | Compression _ | Validation _ => false
  end.

Definition status (e : AgentLoopError) : option Z :=
  match e with Provider _ source => Llm.status source | _ => None end.

(** The [Display] text. *)
Definition text (e : AgentLoopError) : string :=
  match e with
  | MaxIterationsReached n =>
      "max iterations (" +:+ pretty n +:+ ") reached without end_turn"
  | IncompatibleModel reason => "incompatible model: " +:+ reason
  | Provider attempts source =>
      "model provider error after " +:+ pretty attempts +:+ " attempts: "
      +:+ provider_error_text source
  | Tool reason => "tool execution failed: " +:+ reason
  | Compression reason => "compression error: " +:+ reason
  | Validation reason => "validation error: " +:+ reason
  end.

End LoopError.

Notation AgentLoopError := LoopError.AgentLoopError (only parsing).

Module TurnPhase.

Inductive TurnPhase :=
  | Created
  | Validating
  | RunningBeforeHooks
  | ReadyForIteration
  | PreparingIteration
  | Compacting
  | CallingModel
  | StreamingModel
  | FinalizingModelResponse
  | PreparingTools
  | WaitingForApproval
  | WaitingForUser
  | WaitingForPlanReview
  | ExecutingTools
  | RunningAfterHooks
  | Completed
  | Failed
  | Interrupted.

#[global] Instance TurnPhase_eq_dec : EqDecision TurnPhase.
Proof. solve_decision. Defined.

Definition is_terminal (p : TurnPhase) : bool :=
  match p with Completed | Failed | Interrupted => true | _ => false end.

Definition as_str (p : TurnPhase) : string :=
  match p with
  | Created => "created"
  | Validating => "validating"
  | RunningBeforeHooks => "running_before_hooks"
  | ReadyForIteration => "ready_for_iteration"
  | PreparingIteration => "preparing_iteration"
  | Compacting => "compacting"
  | CallingModel => "calling_model"
  | StreamingModel => "streaming_model"
  | FinalizingModelResponse => "finalizing_model_response"
  | PreparingTools => "preparing_tools"
  | WaitingForApproval => "waiting_for_approval"
  | WaitingForUser => "waiting_for_user"
  | WaitingForPlanReview => "waiting_for_plan_review"
  | ExecutingTools => "executing_tools"
  | RunningAfterHooks => "running_after_hooks"
  | Completed => "completed"
  | Failed => "failed"
  | Interrupted => "interrupted"
  end.

End TurnPhase.

Module Reason.

Inductive TurnTransitionReason :=
  | ExecutionStarted
  | RequestValidated
  | BeforeHooksCompleted
  | IterationStarted
  | CompressionStarted
  | CompressionCompleted
  | ModelCallStarted
  | ModelStreamOpened
  | ModelResponseCompleted
  | ToolPreparationStarted
  | ApprovalRequired
  | ApprovalResolved
  | UserInputRequired
  | UserInputResolved
  | PlanReviewRequired
  | PlanReviewResolved
  | ToolExecutionStarted
  | ToolExecutionCompleted
  | ContinueAfterToolResults
  | ContinueAfterMaxOutputTokens
  | TerminalModelResponse
  | IterationLimitReached
  | AfterHooksCompleted
  | ExecutionFailed
  | InterruptRequested.

#[global] Instance TurnTransitionReason_eq_dec : EqDecision TurnTransitionReason.
Proof. solve_decision. Defined.

Definition as_str (r : TurnTransitionReason) : string :=
  match r with
  | ExecutionStarted => "execution_started"
  | RequestValidated => "request_validated"
  | BeforeHooksCompleted => "before_hooks_completed"
  | IterationStarted => "iteration_started"
  | CompressionStarted => "compression_started"
  | CompressionCompleted => "compression_completed"
  | ModelCallStarted => "model_call_started"
  | ModelStreamOpened => "model_stream_opened"
  | ModelResponseCompleted => "model_response_completed"
  | ToolPreparationStarted => "tool_preparation_started"
  | ApprovalRequired => "approval_required"
  | ApprovalResolved => "approval_resolved"
  | UserInputRequired => "user_input_required"
  | UserInputResolved => "user_input_resolved"
  | PlanReviewRequired => "plan_review_required"
  | PlanReviewResolved => "plan_review_resolved"
  | ToolExecutionStarted => "tool_execution_started"
  | ToolExecutionCompleted => "tool_execution_completed"
  | ContinueAfterToolResults => "continue_after_tool_results"
  | ContinueAfterMaxOutputTokens => "continue_after_max_output_tokens"
  | TerminalModelResponse => "terminal_model_response"
  | IterationLimitReached => "iteration_limit_reached"
  | AfterHooksCompleted => "after_hooks_completed"
  | ExecutionFailed => "execution_failed"
  | InterruptRequested => "interrupt_requested"
  end.

End Reason.

Module Continuation.

Inductive TurnContinuationReason :=
  | ToolResultsReady
  | MaxOutputTokens
  | ProviderRequestedContinuation.

#[global] Instance TurnContinuationReason_eq_dec : EqDecision TurnContinuationReason.
Proof. solve_decision. Defined.

Definition as_str (c : TurnContinuationReason) : string :=
  match c with
  | ToolResultsReady => "tool_results_ready"
  | MaxOutputTokens => "max_output_tokens"
  | ProviderRequestedContinuation => "provider_requested_continuation"
  end.

End Continuation.

Import TurnPhase Reason.
Notation TurnContinuationReason := Continuation.TurnContinuationReason (only parsing).

Record TurnTransition := {
  tt_sequence : Z;
  tt_iteration : Z;
  tt_from : TurnPhase;
  tt_to : TurnPhase;
  tt_reason : TurnTransitionReason;
  tt_continuation : option TurnContinuationReason;
}.

#[global] Instance TurnTransition_eq_dec : EqDecision TurnTransition.
Proof. solve_decision. Defined.

Record TurnSnapshot := {
  ts_sequence : Z;
  ts_iteration : Z;
  ts_phase : TurnPhase;
  ts_continuation : option TurnContinuationReason;
}.

(** [TurnSnapshot::from] *)
Definition snapshot_from (t : TurnTransition) : TurnSnapshot :=
  {| ts_sequence := tt_sequence t; ts_iteration := tt_iteration t;
     ts_phase := tt_to t; ts_continuation := tt_continuation t |}.

Inductive TurnStateError :=
  | InvalidTransition (from to : TurnPhase) (reason : TurnTransitionReason)
  | TerminalTransition
  | InvalidIteration
  | MissingFinalResponse.

(** The name of the constructor in the derived [Debug] output, from the snake
    case of [as_str]. *)
Definition ascii_upper (c : ascii) : ascii :=
  if ((97 <=? byte c) && (byte c <=? 122))%N then ascii_of_N (byte c - 32) else c.
Fixpoint camel (start : bool) (s : string) : string :=
  match s with
  | EmptyString => ""
  | String c r =>
      if (byte c =? 95)%N then camel true r
      else String (if start then ascii_upper c else c) (camel false r)
  end.

Example camel_example : camel true (TurnPhase.as_str RunningBeforeHooks) = "RunningBeforeHooks".
Proof. reflexivity. Qed.

(** The [Display] text. *)
Definition state_error_text (e : TurnStateError) : string :=
  match e with
  | InvalidTransition from to reason =>
      "turn state transition is not allowed: " +:+ camel true (TurnPhase.as_str from) +:+ " -> "
      +:+ camel true (TurnPhase.as_str to) +:+ " (" +:+ camel true (Reason.as_str reason) +:+ ")"
  | TerminalTransition => "terminal turn state cannot transition"
  | InvalidIteration => "turn iteration must advance monotonically"
  | MissingFinalResponse => "turn outcome is unavailable before a model response"
  end.

#[global] Instance TurnStateError_eq_dec : EqDecision TurnStateError.
Proof. solve_decision. Defined.

Definition allowed (from to : TurnPhase) (reason : TurnTransitionReason) : bool :=
  match from, to, reason with
  | Created, Validating, ExecutionStarted
  | Validating, RunningBeforeHooks, RequestValidated
  | RunningBeforeHooks, ReadyForIteration, BeforeHooksCompleted
  | ReadyForIteration, PreparingIteration, IterationStarted
  | PreparingIteration, Compacting, CompressionStarted
  | Compacting, CallingModel, CompressionCompleted
  | PreparingIteration, CallingModel, ModelCallStarted
  | CallingModel, StreamingModel, ModelStreamOpened
  | StreamingModel, FinalizingModelResponse, ModelResponseCompleted
  | FinalizingModelResponse, PreparingTools, ToolPreparationStarted
  | PreparingTools, WaitingForApproval, ApprovalRequired
  | WaitingForApproval, PreparingTools, ApprovalResolved
  | (PreparingTools | ExecutingTools), WaitingForUser, UserInputRequired
  | WaitingForUser, ExecutingTools, UserInputResolved
  | (PreparingTools | ExecutingTools), WaitingForPlanReview, PlanReviewRequired
  | WaitingForPlanReview, ExecutingTools, PlanReviewResolved
  | PreparingTools, ExecutingTools, ToolExecutionStarted
  | (FinalizingModelResponse | ExecutingTools), ReadyForIteration,
      (ContinueAfterToolResults | ContinueAfterMaxOutputTokens)
  | (FinalizingModelResponse | ExecutingTools), RunningAfterHooks, TerminalModelResponse
  | RunningAfterHooks, Completed, AfterHooksCompleted
  | ReadyForIteration, RunningAfterHooks, IterationLimitReached
  | _, Failed, ExecutionFailed
  | _, Interrupted, InterruptRequested => true
  | _, _, _ => false
  end.

Section machine.
Context `{J : SerdeJson}.

(** [ConversationSnapshot] wraps the ordered messages. *)
Record ConversationSnapshot := { conv_messages : list ChatMessage }.

Record AgentOutcome := {
  final_response : ModelResponse;
  conversation : ConversationSnapshot;
  iterations : Z;
  total_usage : TokenUsage;
}.

Record TurnMachine := {
  phase : TurnPhase;
  sequence : Z;
  iteration : Z;
  continuation : option TurnContinuationReason;
  messages : list ChatMessage;
  cumulative_usage : TokenUsage;
  last_provider_usage : TokenUsage;
  tm_final_response : option ModelResponse;
  completed_iterations : Z;
}.

Definition new (conversation : ConversationSnapshot) : TurnMachine := {|
  phase := Created;
  sequence := 0;
  iteration := 0;
  continuation := None;
  messages := conv_messages conversation;
  cumulative_usage := usage_default;
  last_provider_usage := usage_default;
  tm_final_response := None;
  completed_iterations := 0;
|}.

Definition snapshot (m : TurnMachine) : TurnSnapshot :=
  {| ts_sequence := sequence m; ts_iteration := iteration m;
     ts_phase := phase m; ts_continuation := continuation m |}.

Definition transition (m : TurnMachine) (to : TurnPhase) (reason : TurnTransitionReason)
    : TurnMachine * res TurnTransition TurnStateError :=
  if is_terminal (phase m) then (m, Err TerminalTransition)
  else if negb (allowed (phase m) to reason) then (m, Err (InvalidTransition (phase m) to reason))
  else
    let seq := saturating_add u64_max (sequence m) 1 in
    ({| phase := to; sequence := seq; iteration := iteration m; continuation := continuation m;
        messages := messages m; cumulative_usage := cumulative_usage m;
        last_provider_usage := last_provider_usage m; tm_final_response := tm_final_response m;
        completed_iterations := completed_iterations m |},
     Ok {| tt_sequence := seq; tt_iteration := iteration m; tt_from := phase m; tt_to := to;
           tt_reason := reason; tt_continuation := continuation m |}).

Definition start_iteration (m : TurnMachine) (n : Z)
    : TurnMachine * res TurnTransition TurnStateError :=
  if negb (n =? saturating_add u32_max (completed_iterations m) 1) then (m, Err InvalidIteration)
  else
    transition
      {| phase := phase m; sequence := sequence m; iteration := n; continuation := None;
         messages := messages m; cumulative_usage := cumulative_usage m;
         last_provider_usage := last_provider_usage m; tm_final_response := tm_final_response m;
         completed_iterations := completed_iterations m |}
      PreparingIteration IterationStarted.

Definition complete_iteration (m : TurnMachine) (response : ModelResponse)
    (c : option TurnContinuationReason) : TurnMachine :=
  let cumulative := saturating_add_assign (cumulative_usage m) (usage response) in
  {| phase := phase m; sequence := sequence m; iteration := iteration m; continuation := c;
     messages := messages m; cumulative_usage := cumulative;
     last_provider_usage := usage response;
     tm_final_response := Some {|
       response_id := response_id response; response_model := response_model response;
       response_content := response_content response; stop_reason := stop_reason response;
       usage := cumulative |};
     completed_iterations := iteration m |}.

(** A write through [messages_mut]. *)
Definition with_messages (m : TurnMachine) (l : list ChatMessage) : TurnMachine :=
  {| phase := phase m; sequence := sequence m; iteration := iteration m;
     continuation := continuation m; messages := l; cumulative_usage := cumulative_usage m;
     last_provider_usage := last_provider_usage m; tm_final_response := tm_final_response m;
     completed_iterations := completed_iterations m |}.

Definition outcome (m : TurnMachine) : res AgentOutcome TurnStateError :=
  r <- ok_or (tm_final_response m) MissingFinalResponse;;
  Ok {| final_response := r; conversation := {| conv_messages := messages m |};
        iterations := completed_iterations m; total_usage := cumulative_usage m |}.

Definition continuation_for (response : ModelResponse) : option TurnContinuationReason :=
  match stop_reason response with
  | StopReason.ToolUse => Some Continuation.ToolResultsReady
  | StopReason.MaxOutputTokens => Some Continuation.MaxOutputTokens
  | StopReason.EndTurn | StopReason.StopSequence _ | StopReason.Refusal | StopReason.Paused
  | StopReason.Other _ => None
  end.

(** ** Runs of a machine

    The operations of the public interface, and the transitions a caller has
    seen succeed. *)

Inductive machine_op :=
  | OpTransition (to : TurnPhase) (reason : TurnTransitionReason)
  | OpStart (n : Z)
  | OpComplete (response : ModelResponse) (c : option TurnContinuationReason)
  | OpMessages (l : list ChatMessage).

Definition emitted (r : res TurnTransition TurnStateError) : list TurnTransition :=
  match r with Ok t => [t] | _ => [] end.

Definition machine_exec (m : TurnMachine) (o : machine_op) : TurnMachine * list TurnTransition :=
  match o with
  | OpTransition to reason => let '(m', r) := transition m to reason in (m', emitted r)
  | OpStart n => let '(m', r) := start_iteration m n in (m', emitted r)
  | OpComplete response c => (complete_iteration m response c, [])
  | OpMessages l => (with_messages m l, [])
  end.

Fixpoint machine_run (m : TurnMachine) (ops : list machine_op)
    : TurnMachine * list TurnTransition :=
  match ops with
  | [] => (m, [])
  | o :: ops =>
      let '(m1, t1) := machine_exec m o in
      let '(m2, t2) := machine_run m1 ops in (m2, t1 ++ t2)
  end.

(** The responses handed to a run carry [u64] usages. *)
Definition op_ok (o : machine_op) : Prop :=
  match o with OpComplete response _ => usage_ok (usage response) | _ => True end.

Record machine_ok (m : TurnMachine) : Prop := {
  mo_sequence : in_u64 (sequence m);
  mo_completed : in_u32 (completed_iterations m);
  mo_iteration : iteration m = completed_iterations m
    ∨ iteration m = saturating_add u32_max (completed_iterations m) 1;
  mo_usage : usage_ok (cumulative_usage m);
  mo_last_usage : usage_ok (last_provider_usage m);
  mo_response : ∀ r, tm_final_response m = Some r → usage r = cumulative_usage m;
}.

Lemma machine_ok_new c : machine_ok (new c).
Proof.
  split; simpl; unfold in_u64, in_u32, u64_max, u32_max; try lia; try done;
    try apply usage_ok_default.
Qed.

Lemma machine_transition_spec m to reason :
  (∃ t, transition m to reason = (fst (transition m to reason), Ok t) ∧
    is_terminal (phase m) = false ∧ allowed (phase m) to reason = true ∧
    t = {| tt_sequence := saturating_add u64_max (sequence m) 1; tt_iteration := iteration m;
           tt_from := phase m; tt_to := to; tt_reason := reason;
           tt_continuation := continuation m |} ∧
    snapshot (fst (transition m to reason)) = snapshot_from t) ∨
  (∃ e, transition m to reason = (m, Err e) ∧
    (is_terminal (phase m) = true ∨ allowed (phase m) to reason = false)).
Proof.
  unfold transition. destruct (is_terminal (phase m)); [by right; eauto|].
  destruct (allowed (phase m) to reason) eqn:E; simpl; [|by right; eauto].
  left. eexists. split_and!; done.
Qed.

Lemma transition_ok_iff m to reason :
  (∃ t, snd (transition m to reason) = Ok t) ↔
  is_terminal (phase m) = false ∧ allowed (phase m) to reason = true.
Proof.
  unfold transition. destruct (is_terminal (phase m)); simpl; [naive_solver|].
  destruct (allowed (phase m) to reason); simpl; naive_solver.
Qed.

Lemma transition_keeps_ok m to reason : machine_ok m → machine_ok (fst (transition m to reason)).
Proof.
  intros [H1 H2 H3 H4 H5 H6]. unfold transition.
  destruct (is_terminal (phase m)); [done|]. destruct (negb _); [done|].
  split; simpl; try done. apply saturating_add_u64; [done|]. unfold in_u64, u64_max. lia.
Qed.

Lemma start_iteration_keeps_ok m n : machine_ok m → machine_ok (fst (start_iteration m n)).
Proof.
  intros [H1 H2 H3 H4 H5 H6]. unfold start_iteration.
  destruct (n =? _) eqn:E; simpl; [|done]. apply Z.eqb_eq in E.
  apply transition_keeps_ok. split; simpl; try done. by right.
Qed.

Lemma complete_iteration_keeps_ok m response c :
  usage_ok (usage response) → machine_ok m → machine_ok (complete_iteration m response c).
Proof.
  intros Hu [H1 H2 H3 H4 H5 H6].
  assert (in_u32 (iteration m)) as Hi.
  { destruct H3 as [->| ->]; [done|]. apply saturating_add_u32; [done|]. by split. }
  pose proof (usage_ok_add _ _ H4 Hu) as Hc.
  split; [exact H1|exact Hi|by left|exact Hc|exact Hu|].
  intros r Hr. unfold complete_iteration in Hr. simpl in Hr. by injection Hr as <-.
Qed.

Lemma machine_exec_keeps_ok m o : op_ok o → machine_ok m → machine_ok (fst (machine_exec m o)).
Proof.
  intros Ho Hm. destruct o as [to reason|n|response c|l]; simpl in *.
  - pose proof (transition_keeps_ok m to reason Hm). by destruct (transition m to reason).
  - pose proof (start_iteration_keeps_ok m n Hm). by destruct (start_iteration m n).
  - by apply complete_iteration_keeps_ok.
  - by destruct Hm; split.
Qed.

Lemma machine_run_keeps_ok m ops :
  Forall op_ok ops → machine_ok m → machine_ok (fst (machine_run m ops)).
Proof.
  intros Hops. revert m. induction Hops as [|o ops Ho _ IH]; intros m Hm; [done|]. simpl.
  pose proof (machine_exec_keeps_ok m o Ho Hm) as Hm1.
  destruct (machine_exec m o) as [m1 t1]. specialize (IH m1 Hm1).
  by destruct (machine_run m1 ops).
Qed.

(** What one operation does to the phase: nothing, or the one allowed step it
    emits. *)
Lemma machine_exec_phase m o :
  let '(m', ts) := machine_exec m o in
  (ts = [] ∧ phase m' = phase m ∧ sequence m' = sequence m) ∨
  (∃ t, ts = [t] ∧ tt_from t = phase m ∧ tt_to t = phase m' ∧ sequence m' = tt_sequence t ∧
    tt_sequence t = saturating_add u64_max (sequence m) 1 ∧
    is_terminal (phase m) = false ∧ allowed (phase m) (phase m') (tt_reason t) = true).
Proof.
  assert (Htr : ∀ m0 to reason, phase m0 = phase m → sequence m0 = sequence m →
    let '(m', r) := transition m0 to reason in
    (emitted r = [] ∧ phase m' = phase m ∧ sequence m' = sequence m) ∨
    (∃ t, emitted r = [t] ∧ tt_from t = phase m ∧ tt_to t = phase m' ∧ sequence m' = tt_sequence t ∧
      tt_sequence t = saturating_add u64_max (sequence m) 1 ∧
      is_terminal (phase m) = false ∧ allowed (phase m) (phase m') (tt_reason t) = true)).
  { intros m0 to reason Hp Hs. unfold transition. rewrite Hp, Hs.
    destruct (is_terminal (phase m)) eqn:Et; [by left|].
    destruct (allowed (phase m) to reason) eqn:Ea; simpl; [|by left].
    right. eexists. by split_and!. }
  destruct o as [to reason|n|response c|l]; simpl.
  - specialize (Htr m to reason eq_refl eq_refl). by destruct (transition m to reason).
  - unfold start_iteration. destruct (n =? _); simpl; [|by left].
    match goal with |- context [transition ?m0 _ _] =>
      specialize (Htr m0 PreparingIteration IterationStarted eq_refl eq_refl);
      by destruct (transition m0 PreparingIteration IterationStarted) end.
  - by left.
  - by left.
Qed.

(** Consecutive transitions: each starts where the previous one ended. *)
Fixpoint chained (from : TurnPhase) (seq : Z) (ts : list TurnTransition) (to : TurnPhase) : Prop :=
  match ts with
  | [] => from = to
  | t :: ts =>
      tt_from t = from ∧ tt_sequence t = saturating_add u64_max seq 1 ∧
      is_terminal from = false ∧ allowed from (tt_to t) (tt_reason t) = true ∧
      chained (tt_to t) (tt_sequence t) ts to
  end.

Lemma chained_app from seq ts1 mid ts2 to :
  chained from seq ts1 mid →
  chained mid (default seq (tt_sequence <$> last ts1)) ts2 to →
  chained from seq (ts1 ++ ts2) to.
Proof.
  revert from seq. induction ts1 as [|t ts1 IH]; simpl; intros from seq.
  - by intros ->.
  - intros (H1 & H2 & H3 & H4 & H5) H. split_and!; try done.
    apply IH; [done|]. destruct ts1 as [|t' ts1]; [done|].
    rewrite last_cons_cons in H. destruct (last (t' :: ts1)) eqn:E; [done|].
    by apply last_None in E.
Qed.

Lemma machine_run_chained m ops :
  let '(m', ts) := machine_run m ops in
  chained (phase m) (sequence m) ts (phase m') ∧
  sequence m' = default (sequence m) (tt_sequence <$> last ts).
Proof.
  revert m. induction ops as [|o ops IH]; intros m; simpl; [done|].
  pose proof (machine_exec_phase m o) as Hstep.
  destruct (machine_exec m o) as [m1 t1]. specialize (IH m1).
  destruct (machine_run m1 ops) as [m2 t2]. destruct IH as [IH1 IH2].
  destruct Hstep as [(-> & Hp & Hs)|(t & -> & Hf & Ht & Hs & Hseq & Hnt & Hal)]; simpl.
  - by rewrite <- Hp, <- Hs.
  - rewrite Hf, Ht, <- Hs. split; [done || (rewrite Hs in *; done)|].
    rewrite IH2, Hs. destruct t2 as [|t' t2]; [done|]. rewrite last_cons_cons.
    destruct (last (t' :: t2)) eqn:E; [done|]. by apply last_None in E.
Qed.

(** ** The hooks run once *)

Definition passed_before (p : TurnPhase) : nat :=
  match p with Created | Validating => 0 | _ => 1 end.
Definition passed_after (p : TurnPhase) : nat :=
  match p with RunningAfterHooks | Completed => 1 | _ => 0 end.

Definition entries (p : TurnPhase) (ts : list TurnTransition) : nat :=
  length (filter (λ t, tt_to t = p) ts).

Lemma chained_hooks from seq ts to :
  chained from seq ts to → to ≠ Failed → to ≠ Interrupted →
  (passed_before from + entries RunningBeforeHooks ts = passed_before to)%nat ∧
  (passed_after from + entries RunningAfterHooks ts = passed_after to)%nat.
Proof.
  intros Hch Hf Hi. revert from seq Hch. induction ts as [|t ts IH]; simpl; intros from seq.
  - intros ->. unfold entries. simpl. lia.
  - intros (_ & _ & Hnt & Hal & Hch). destruct (IH _ _ Hch) as [IH1 IH2].
    assert (tt_to t ≠ Failed ∧ tt_to t ≠ Interrupted) as [Hnf Hni].
    { split; intros Heq; rewrite Heq in Hch; destruct ts as [|t' ts]; simpl in Hch;
        naive_solver. }
    unfold entries in *. rewrite !filter_cons.
    clear IH Hch. revert Hnf Hni Hal IH1 IH2. generalize (tt_to t), (tt_reason t).
    intros p reason Hnf Hni Hal IH1 IH2.
    destruct from, p; try done; destruct reason; try done;
      repeat case_decide; simplify_eq/=; lia.
Qed.

(** ** A turn can always finish *)

Definition phase_step (p q : TurnPhase) : Prop :=
  is_terminal p = false ∧ ∃ reason, allowed p q reason = true.

Lemma phase_step_via q reason p r :
  rtc phase_step q r → is_terminal p = false → allowed p q reason = true → rtc phase_step p r.
Proof. intros. eapply rtc_l; [|done]. split; [done|]. by exists reason. Qed.

Lemma phase_step_completes p : is_terminal p = false → rtc phase_step p Completed.
Proof.
  assert (rtc phase_step RunningAfterHooks Completed) as Hafter
    by by apply (phase_step_via Completed AfterHooksCompleted).
  assert (rtc phase_step ReadyForIteration Completed) as Hready
    by by apply (phase_step_via _ IterationLimitReached _ _ Hafter).
  assert (rtc phase_step ExecutingTools Completed) as Hexec
    by by apply (phase_step_via _ TerminalModelResponse _ _ Hafter).
  assert (rtc phase_step FinalizingModelResponse Completed) as Hfinal
    by by apply (phase_step_via _ TerminalModelResponse _ _ Hafter).
  assert (rtc phase_step CallingModel Completed) as Hcall.
  { apply (phase_step_via StreamingModel ModelStreamOpened); try done.
    by apply (phase_step_via _ ModelResponseCompleted _ _ Hfinal). }
  assert (rtc phase_step PreparingTools Completed) as Hprep
    by by apply (phase_step_via _ ToolExecutionStarted _ _ Hexec).
  assert (rtc phase_step Validating Completed) as Hvalid.
  { apply (phase_step_via RunningBeforeHooks RequestValidated); try done.
    by apply (phase_step_via _ BeforeHooksCompleted _ _ Hready). }
  destruct p; try done; intros _.
  - by apply (phase_step_via _ ExecutionStarted _ _ Hvalid).
  - by apply (phase_step_via _ BeforeHooksCompleted _ _ Hready).
  - by apply (phase_step_via _ ModelCallStarted _ _ Hcall).
  - by apply (phase_step_via _ CompressionCompleted _ _ Hcall).
  - by apply (phase_step_via _ ModelResponseCompleted _ _ Hfinal).
  - by apply (phase_step_via _ ApprovalResolved _ _ Hprep).
  - by apply (phase_step_via _ UserInputResolved _ _ Hexec).
  - by apply (phase_step_via _ PlanReviewResolved _ _ Hexec).
Qed.

End machine.
