(* ===== verification/Compression.v ===== *)
(** Compression of the message history,
    src/sylvander-agent/src/context/compression: the context and the reports
    (mod.rs, layer.rs), the failure classes (error.rs), the layers L0 to L4
    (layers/), the summarizer (auto_compact_llm.rs) and the pipeline
    (pipeline.rs), with the artifact port of execution/artifact.rs.

    A layer gets the context and returns the rewritten messages and its report.
    [auto_compact] compares with a product of [f32]s, which is computed in the
    binary32 arithmetic of [SpecFloat]. *)

From S2P Require Import Prelude Json Effects Llm TurnMachine.
From stdpp Require Import base tactics gmap sets strings list pretty.
From Stdlib Require Import ZArith Lia SpecFloat.

Open Scope Z_scope.

(** The length of a [String] in bytes, a [usize]. *)
Definition len (s : string) : Z := Z.of_nat (String.length s).

(** [(saved / 4) as u32] and [saturating_sub] *)
Definition tokens_of (saved : Z) : Z := (saved / 4) mod (u32_max + 1).
Definition saturating_sub (x y : Z) : Z := Z.max 0 (x - y).

(** * Failures and reports *)

Module Failure.

Inductive CompactionFailureCode :=
  | Busy | InsufficientHistory | Provider | Protocol | Persistence | UnsupportedBackend
  | SessionUnavailable | Other.

#[global] Instance CompactionFailureCode_eq_dec : EqDecision CompactionFailureCode.
Proof. solve_decision. Defined.

(** [CompactionError::new] and [compatibility_reason] *)
Definition reason (c : CompactionFailureCode) : string :=
  match c with
  | Busy => "interrupt active work before compacting"
  | InsufficientHistory => "not enough conversation history to compact"
  | Provider => "model provider request failed during compaction"
  | Protocol => "model provider returned an invalid summary"
  | Persistence => "compacted history could not be persisted"
  | UnsupportedBackend => "compaction is unavailable for this model backend"
  | SessionUnavailable => "session is unavailable for compaction"
  | Other => "compaction failed"
  end.

(** [CompactionError::from_loop] *)
Definition from_loop (e : AgentLoopError) : CompactionFailureCode :=
  match e with
  | LoopError.Provider _ source =>
      if kind source == ProviderErrorKind.Protocol then Protocol else Provider
  | LoopError.Compression _ | LoopError.Validation _ => Protocol
  | _ => Other
  end.

End Failure.

Notation CompactionFailureCode := Failure.CompactionFailureCode (only parsing).

(** The JSON object a layer puts into [LayerReport::details]. *)
Inductive ReportDetails :=
  | ArtifactLocators (locators : list string)
  | TrimmedBlocks (trimmed max_thinking_chars : Z)
  | Summary (summary : string) (summary_chars kept_messages trigger_threshold actual_used : Z).

#[global] Instance ReportDetails_eq_dec : EqDecision ReportDetails.
Proof. solve_decision. Defined.

Record LayerReport := {
  report_name : string;
  removed_count : Z;
  condensed_count : Z;
  freed_tokens : Z;
  report_details : option ReportDetails;
  failure : option string;
  failure_code : option CompactionFailureCode;
}.

#[global] Instance LayerReport_eq_dec : EqDecision LayerReport.
Proof. solve_decision. Defined.

Definition noop (name : string) : LayerReport :=
  {| report_name := name; removed_count := 0; condensed_count := 0; freed_tokens := 0;
     report_details := None; failure := None; failure_code := None |}.

Definition failed_with (name : string) (code : CompactionFailureCode) : LayerReport :=
  {| report_name := name; removed_count := 0; condensed_count := 0; freed_tokens := 0;
     report_details := None; failure := Some (Failure.reason code);
     failure_code := Some code |}.

Definition total_removed (layers : list LayerReport) : Z :=
  foldr (λ r n, removed_count r + n) 0 layers.
Definition total_condensed (layers : list LayerReport) : Z :=
  foldr (λ r n, condensed_count r + n) 0 layers.
Definition first_failure (layers : list LayerReport) : option string :=
  head (omap failure layers).
Definition first_failure_error (layers : list LayerReport) : option CompactionFailureCode :=
  head (omap (λ r, (λ _, default Failure.Other (failure_code r)) <$> failure r) layers).

(** * The ports of a layer *)

(** execution/artifact.rs *)
Record ArtifactWrite := {
  aw_call_id : string;
  aw_media_type : string;
  payload : string;
}.

Record ArtifactReference := {
  locator : string;
  original_bytes : Z;
}.

Inductive ArtifactStoreError := ArtifactInvalidRequest | ArtifactUnavailable.

(** The stream of a provider: the items it yields, and whether it then ends,
    panics or never yields again. *)
Inductive StreamEnd := Ended | StreamPanics | StreamHangs.

Section compression.
Context `{J : SerdeJson} {W : Type}.

Record ProviderStream := {
  items : list (ModelStreamEvent + ProviderError);
  stream_end : StreamEnd;
}.

(** [ModelProvider] of llm-core, [Uuid::new_v4] and the length of the derived
    [Debug] output. *)
Class Host := {
  complete_stream : ModelRequest → eff W ProviderError ProviderStream;
  new_v4 : W → W * string;
  debug_len : ChatMessage → Z;
}.

Definition AutoCompactLlm : Type :=
  list ChatMessage → ModelInfo → eff W AgentLoopError string.
Definition TurnArtifactStore : Type :=
  ArtifactWrite → eff W ArtifactStoreError ArtifactReference.

Record CompressContext := {
  ctx_messages : list ChatMessage;
  last_usage : TokenUsage;
  model_info : ModelInfo;
  auto_compact_llm : option AutoCompactLlm;
  artifact_store : option TurnArtifactStore;
}.

(** A layer; [apply] does not return an error. *)
Record CompressionLayer := {
  layer_name : string;
  apply : CompressContext → eff W Empty_set (list ChatMessage * LayerReport);
}.

End compression.

Arguments Host {J} W.
Arguments ProviderStream {J}.
Arguments AutoCompactLlm {J} W.
Arguments TurnArtifactStore W : clear implicits.
Arguments CompressionLayer {J} W.
Arguments CompressContext {J} W.

(** * L0: tool result budget *)

Module ToolResultBudget.

Section layer.
Context `{J : SerdeJson} {W : Type}.

Definition DEFAULT_MAX_INLINE_CHARS : Z := 5000.
Definition DEFAULT_PREVIEW_CHARS : Z := 500.

(** [str::is_char_boundary] of a UTF-8 string *)
Definition is_char_boundary (s : string) (i : nat) : bool :=
  match String.get i s with
  | Some c => negb ((128 <=? byte c) && (byte c <? 192))%N
  | None => Nat.eqb i (String.length s)
  end.

(** The [while] of [floor_char_boundary]. *)
Fixpoint floor_loop (s : string) (i : nat) : nat :=
  match i with
  | O => O
  | S j => if negb (is_char_boundary s i) then floor_loop s j else i
  end.

Definition floor_char_boundary (s : string) (i : nat) : nat :=
  if (String.length s <=? i)%nat then String.length s else floor_loop s i.

Definition candidate (block : ContentBlock) (max_inline_chars : Z) : option (string * string) :=
  match block with
  | ToolResult call_id [ToolResultContent.Text text] _ =>
      if max_inline_chars <? len text then Some (call_id, text) else None
  | _ => None
  end.

Definition is_error_of (block : ContentBlock) : bool :=
  match block with ToolResult _ _ e => e | _ => false end.

Definition replacement (reference : ArtifactReference) (body : string) (preview_end : nat) : string :=
  "[Output retained as " +:+ locator reference +:+ " and truncated; first "
  +:+ pretty (N.of_nat preview_end) +:+ " bytes shown]
" +:+ String.substring 0 preview_end body.

(** What the nested loops accumulate. *)
Record Progress := {
  condensed : Z;
  freed : Z;
  locators : list string;
  persist_failed : bool;
}.

(** The body of the loops, for one block. *)
Definition retain_block (store : TurnArtifactStore W) (max_inline_chars : Z) (preview_chars : nat)
    (block : ContentBlock) (p : Progress) : eff W Empty_set (ContentBlock * Progress) :=
  match candidate block max_inline_chars with
  | None => eret (block, p)
  | Some (call_id, body) =>
      r <~ etry (store {| aw_call_id := call_id; aw_media_type := "text/plain; charset=utf-8";
                          payload := body |});;
      match r with
      | inr _ => eret (block, {| condensed := condensed p; freed := freed p;
                                 locators := locators p; persist_failed := true |})
      | inl reference =>
          let preview_end := floor_char_boundary body (min preview_chars (String.length body)) in
          let text := replacement reference body preview_end in
          let saved := saturating_sub (len body) (len text) in
          eret (ToolResult call_id [ToolResultContent.Text text] (is_error_of block),
                {| condensed := condensed p + 1;
                   freed := saturating_add u32_max (freed p) (tokens_of saved);
                   locators := locators p ++ [locator reference];
                   persist_failed := persist_failed p |})
      end
  end.

Fixpoint retain_blocks (store : TurnArtifactStore W) (max_inline_chars : Z) (preview_chars : nat)
    (blocks : list ContentBlock) (p : Progress) : eff W Empty_set (list ContentBlock * Progress) :=
  match blocks with
  | [] => eret ([], p)
  | b :: blocks =>
      '(b', p) <~ retain_block store max_inline_chars preview_chars b p;;
      '(blocks', p) <~ retain_blocks store max_inline_chars preview_chars blocks p;;
      eret (b' :: blocks', p)
  end.

Fixpoint retain_messages (store : TurnArtifactStore W) (max_inline_chars : Z) (preview_chars : nat)
    (messages : list ChatMessage) (p : Progress) : eff W Empty_set (list ChatMessage * Progress) :=
  match messages with
  | [] => eret ([], p)
  | m :: messages =>
      '(blocks, p) <~ retain_blocks store max_inline_chars preview_chars (content m) p;;
      '(messages', p) <~ retain_messages store max_inline_chars preview_chars messages p;;
      eret ({| msg_role := msg_role m; content := blocks |} :: messages', p)
  end.

Definition apply_async (max_inline_chars : Z) (preview_chars : nat) (ctx : CompressContext W)
    : eff W Empty_set (list ChatMessage * LayerReport) :=
  match artifact_store ctx with
  | None => eret (ctx_messages ctx, noop "tool_result_budget")
  | Some store =>
      '(messages, p) <~ retain_messages store max_inline_chars preview_chars (ctx_messages ctx)
        {| condensed := 0; freed := 0; locators := []; persist_failed := false |};;
      eret (messages,
        {| report_name := "tool_result_budget"; removed_count := 0;
           condensed_count := condensed p; freed_tokens := freed p;
           report_details := Some (ArtifactLocators (locators p));
           failure := if persist_failed p then Some (Failure.reason Failure.Persistence) else None;
           failure_code := if persist_failed p then Some Failure.Persistence else None |})
  end.

(** [ToolResultBudgetLayer::new] *)
Definition layer : CompressionLayer W :=
  {| layer_name := "tool_result_budget";
     apply := apply_async DEFAULT_MAX_INLINE_CHARS (Z.to_nat DEFAULT_PREVIEW_CHARS) |}.

End layer.

End ToolResultBudget.

(** * L1: orphan snip *)

Module OrphanSnip.

Section layer.
Context `{J : SerdeJson} {W : Type}.

(** Pass 1: the ids of the tool calls in assistant messages. *)
Definition call_ids (b : ContentBlock) : list string :=
  match b with ToolCall id _ _ => [id] | _ => [] end.
Definition tool_use_ids (messages : list ChatMessage) : gset string :=
  list_to_set (messages ≫= λ m,
    match msg_role m with Assistant => content m ≫= call_ids | User => [] end).

(** Pass 2: the blocks that stay. *)
Definition keeps (ids : gset string) (b : ContentBlock) : bool :=
  match b with ToolResult call_id _ _ => bool_decide (call_id ∈ ids) | _ => true end.
Definition snip (ids : gset string) (m : ChatMessage) : ChatMessage :=
  {| msg_role := msg_role m; content := filter (λ b, keeps ids b = true) (content m) |}.

Definition apply_messages (messages : list ChatMessage) : list ChatMessage * LayerReport :=
  let ids := tool_use_ids messages in
  let messages' := snip ids <$> messages in
  let removed := foldr (λ m n, Z.of_nat (length (content m) - length (content (snip ids m))) + n)
    0 messages in
  (messages',
   if removed =? 0 then noop "orphan_snip"
   else {| report_name := "orphan_snip"; removed_count := 0; condensed_count := removed;
           freed_tokens := (removed * 100) mod (u32_max + 1); report_details := None;
           failure := None; failure_code := None |}).

Definition layer : CompressionLayer W :=
  {| layer_name := "orphan_snip"; apply ctx := eret (apply_messages (ctx_messages ctx)) |}.

End layer.

End OrphanSnip.

(** * The rewriting loops of L2 and L3

    Both walk the messages of one role, skip the most recent ones and replace
    some of the blocks of the others; [rewrite] gives the new block and the
    bytes it saves. *)

Section rewriting.
Context `{J : SerdeJson} (role : ChatRole) (rewrite : ContentBlock → option (ContentBlock * Z)).

Fixpoint rewrite_blocks (blocks : list ContentBlock) (condensed freed : Z)
    : list ContentBlock * Z * Z :=
  match blocks with
  | [] => ([], condensed, freed)
  | b :: blocks =>
      let '(b', condensed, freed) :=
        match rewrite b with
        | None => (b, condensed, freed)
        | Some (b', saved) =>
            (b', condensed + 1, saturating_add u32_max freed (tokens_of saved))
        end in
      let '(blocks', condensed, freed) := rewrite_blocks blocks condensed freed in
      (b' :: blocks', condensed, freed)
  end.

Fixpoint rewrite_messages (active_threshold : nat) (messages : list ChatMessage)
    (seen : nat) (condensed freed : Z) : list ChatMessage * Z * Z :=
  match messages with
  | [] => ([], condensed, freed)
  | m :: messages =>
      let is_role := bool_decide (msg_role m = role) in
      let seen := if is_role then S seen else seen in
      let '(m', condensed, freed) :=
        if negb is_role || (active_threshold <? seen)%nat then (m, condensed, freed)
        else
          let '(blocks, condensed, freed) := rewrite_blocks (content m) condensed freed in
          ({| msg_role := msg_role m; content := blocks |}, condensed, freed) in
      let '(messages', condensed, freed) :=
        rewrite_messages active_threshold messages seen condensed freed in
      (m' :: messages', condensed, freed)
  end.

Definition count_role (messages : list ChatMessage) : nat :=
  length (filter (λ m, msg_role m = role) messages).

(** The whole loop, with [keep_last_n] messages of the role left alone. *)
Definition rewrite_old (keep_last_n : nat) (messages : list ChatMessage)
    : list ChatMessage * Z * Z :=
  rewrite_messages (count_role messages - keep_last_n) messages 0 0 0.

End rewriting.

(** * L2: micro compact *)

Module MicroCompact.

Section layer.
Context `{J : SerdeJson} {W : Type}.

Definition DEFAULT_KEEP_LAST_N : nat := 3.

Definition placeholder (tool_use_id : string) : string :=
  "[Previous tool result for " +:+ tool_use_id +:+ " truncated; refer to earlier context.]".

(** The body of the inner loop. *)
Definition condense (b : ContentBlock) : option (ContentBlock * Z) :=
  match b with
  | ToolResult call_id [ToolResultContent.Text body] e =>
      let p := placeholder call_id in
      if len body <=? len p then None
      else Some (ToolResult call_id [ToolResultContent.Text p] e,
                 saturating_sub (len body) (len p))
  | _ => None
  end.

Definition apply_messages (keep_last_n : nat) (messages : list ChatMessage)
    : list ChatMessage * LayerReport :=
  let '(messages', condensed, freed) := rewrite_old User condense keep_last_n messages in
  (messages',
   if condensed =? 0 then noop "micro_compact"
   else {| report_name := "micro_compact"; removed_count := 0; condensed_count := condensed;
           freed_tokens := freed; report_details := None; failure := None;
           failure_code := None |}).

Definition layer : CompressionLayer W :=
  {| layer_name := "micro_compact";
     apply ctx := eret (apply_messages DEFAULT_KEEP_LAST_N (ctx_messages ctx)) |}.

End layer.

End MicroCompact.

(** * L3: context collapse *)

Module ContextCollapse.

Section layer.
Context `{J : SerdeJson} {W : Type}.

Definition DEFAULT_KEEP_LAST_N : nat := 3.
Definition DEFAULT_MAX_THINKING_CHARS : Z := 500.

Definition placeholder (original_chars : nat) : string :=
  "[...earlier reasoning omitted (" +:+ pretty (N.of_nat original_chars) +:+ " chars)]".

(** The body of the inner loop. *)
Definition trim (max_thinking_chars : Z) (b : ContentBlock) : option (ContentBlock * Z) :=
  match b with
  | Reasoning text opaque_state =>
      if len text <=? max_thinking_chars then None
      else
        let p := placeholder (String.length text) in
        Some (Reasoning p opaque_state, saturating_sub (len text) (len p))
  | _ => None
  end.

Definition apply_messages (keep_last_n : nat) (max_thinking_chars : Z)
    (messages : list ChatMessage) : list ChatMessage * LayerReport :=
  let '(messages', condensed, freed) :=
    rewrite_old Assistant (trim max_thinking_chars) keep_last_n messages in
  (messages',
   if condensed =? 0 then noop "context_collapse"
   else {| report_name := "context_collapse"; removed_count := 0; condensed_count := condensed;
           freed_tokens := freed;
           report_details := Some (TrimmedBlocks condensed max_thinking_chars);
           failure := None; failure_code := None |}).

Definition layer : CompressionLayer W :=
  {| layer_name := "context_collapse";
     apply ctx := eret (apply_messages DEFAULT_KEEP_LAST_N DEFAULT_MAX_THINKING_CHARS
       (ctx_messages ctx)) |}.

End layer.

End ContextCollapse.

(** * L4: auto compact *)

Module AutoCompact.

Section layer.
Context `{J : SerdeJson} {W : Type}.

(** [x as f32] of an unsigned integer, [*] of [f32], and [x as u64], which
    truncates and saturates. *)
Definition f32_of_uint (x : Z) : spec_float := binary_normalize 24 128 x 0 false.
Definition f32_mul (x y : spec_float) : spec_float := SFmul 24 128 x y.
Definition u64_of_float (x : spec_float) : Z :=
  match x with
  | S754_zero _ | S754_nan => 0
  | S754_infinity s => if s then 0 else u64_max
  | S754_finite s m e =>
      if s then 0 else Z.min u64_max (Z.shiftl (Zpos m) e)
  end.

(** The literal [0.93_f32], the [f32] nearest to 93/100. *)
Definition DEFAULT_TRIGGER_RATIO : spec_float := SFdiv 24 128 (f32_of_uint 93) (f32_of_uint 100).
Definition DEFAULT_KEEP_LAST_N_TURNS : nat := 2.

Definition threshold (context_window : Z) (trigger_ratio : spec_float) : Z :=
  u64_of_float (f32_mul (f32_of_uint context_window) trigger_ratio).

Definition summary_message (summary : string) : ChatMessage :=
  user ("[Earlier conversation summary]
" +:+ summary).

Context `{H : !Host W}.

Definition apply_async (trigger_ratio : spec_float) (keep_last_n_turns : nat)
    (ctx : CompressContext W) : eff W Empty_set (list ChatMessage * LayerReport) :=
  let messages := ctx_messages ctx in
  let used := total_input_tokens (last_usage ctx) in
  let threshold := threshold (context_window (model_info ctx)) trigger_ratio in
  if used <? threshold then eret (messages, noop "auto_compact")
  else
    match auto_compact_llm ctx with
    | None => eret (messages, failed_with "auto_compact" Failure.UnsupportedBackend)
    | Some llm =>
        let keep_count := min (keep_last_n_turns * 2) (length messages) in
        if (length messages <=? keep_count)%nat then eret (messages, noop "auto_compact")
        else
          let split_at := (length messages - keep_count)%nat in
          let to_summarize := take split_at messages in
          let kept := drop split_at messages in
          r <~ etry (llm to_summarize (model_info ctx));;
          match r with
          | inr e => eret (messages, failed_with "auto_compact" (Failure.from_loop e))
          | inl summary =>
              let original_chars := foldr (λ m n, debug_len m + n) 0 to_summarize in
              let saved := saturating_sub original_chars (len summary + 80) in
              eret (summary_message summary :: kept,
                {| report_name := "auto_compact";
                   removed_count := Z.of_nat (length to_summarize); condensed_count := 0;
                   freed_tokens := tokens_of saved;
                   report_details := Some (Summary summary (len summary) (Z.of_nat keep_count)
                     threshold used);
                   failure := None; failure_code := None |})
          end
    end.

Definition layer : CompressionLayer W :=
  {| layer_name := "auto_compact";
     apply := apply_async DEFAULT_TRIGGER_RATIO DEFAULT_KEEP_LAST_N_TURNS |}.

(** ** The summarizer, auto_compact_llm.rs *)

Definition DEFAULT_SUMMARY_PROMPT : string :=
"You are a conversation compressor. Given the conversation so far, produce a concise summary that preserves:
1. The original user task and any constraints they stated
2. Key tool calls and their results (file paths, IDs, conclusions)
3. Decisions made and the reasoning behind them
4. Open questions or unfinished work

Output plain text only — no tool calls, no markdown. Be terse. The summary will replace the earlier turns in the model's context, so it must contain everything the model will need to continue the task without re-fetching information.".

Definition provider_error (source : ProviderError) : AgentLoopError := LoopError.Provider 1 source.
Definition protocol (message : string) : AgentLoopError :=
  provider_error (provider_error_new ProviderErrorKind.Protocol Stream message).

(** The [while let] over the stream. *)
Fixpoint drain (expected : ModelRef) (l : list (ModelStreamEvent + ProviderError))
    (completed : option ModelResponse) : res (option ModelResponse) AgentLoopError :=
  match l with
  | [] => Ok completed
  | inr e :: _ => Err (provider_error e)
  | inl event :: l =>
      bail bool_decide (is_Some completed)
        with protocol "summary provider emitted an event after completion";;
      match event with
      | TextDelta _ => drain expected l completed
      | ReasoningDelta _ => Err (protocol "summary provider emitted reasoning")
      | StreamCompleted response =>
          bail (response_model response != expected)
            with protocol "summary provider returned an unexpected model";;
          drain expected l (Some response)
      end
  end.

(** The concatenation of the blocks of the response. *)
Fixpoint text_only (blocks : list ContentBlock) (text : string) : res string AgentLoopError :=
  match blocks with
  | [] => Ok text
  | Text part :: blocks => text_only blocks (text +:+ part)
  | _ :: _ => Err (protocol "summary response contained non-text content")
  end.

Definition stream_result (s : ProviderStream)
    (r : res (option ModelResponse) AgentLoopError) : res (option ModelResponse) AgentLoopError :=
  match r, stream_end s with
  | Ok _, StreamPanics => Panic
  | Ok _, StreamHangs => Diverge
  | _, _ => r
  end.

(** [ProviderAutoCompactLlm::summarize] *)
Definition summarize (model : ModelInfo) : AutoCompactLlm W := λ messages _,
  id <~ (λ w, let '(w, id) := new_v4 w in (w, Ok id));;
  stream <~ emap_err provider_error (complete_stream
    {| mr_request_id := id; mr_model := reference model;
       system := [{| si_text := DEFAULT_SUMMARY_PROMPT; si_cache_hint := None |}];
       mr_messages := messages; tools := [];
       max_output_tokens := Z.min (mi_max_output_tokens model) 4096;
       reasoning := None; output_schema := None |});;
  completed <~ eres (stream_result stream (drain (reference model) (items stream) None));;
  response <~ eres (ok_or completed (protocol "summary stream ended without completion"));;
  text <~ eres (text_only (response_content response) "");;
  if trim_is_empty text then efail (protocol "summary response contained no text")
  else eret text.

End layer.

End AutoCompact.

(** * The pipeline *)

Section pipeline.
Context `{J : SerdeJson} {W : Type}.

Definition CompressionPipeline : Type := list (CompressionLayer W).

(** [run_all], and [run_pipeline], which only calls it *)
Fixpoint run_all (p : CompressionPipeline) (ctx : CompressContext W)
    : eff W Empty_set (list ChatMessage * list LayerReport) :=
  match p with
  | [] => eret (ctx_messages ctx, [])
  | l :: p =>
      '(messages, report) <~ apply l ctx;;
      '(messages, reports) <~ run_all p
        {| ctx_messages := messages; last_usage := last_usage ctx; model_info := model_info ctx;
           auto_compact_llm := auto_compact_llm ctx; artifact_store := artifact_store ctx |};;
      eret (messages, report :: reports)
  end.

End pipeline.

Arguments CompressionPipeline {J} W.

(** [CompressionPipeline::default_for_model] *)
Definition default_for_model `{J : SerdeJson} {W} `{H : !Host W} : CompressionPipeline W :=
  [ToolResultBudget.layer; OrphanSnip.layer; MicroCompact.layer; ContextCollapse.layer;
   AutoCompact.layer].

Local Open Scope nat_scope.

(** * Previews *)

Lemma floor_loop_spec s i :
  ToolResultBudget.floor_loop s i ≤ i ∧
  (ToolResultBudget.floor_loop s i = 0 ∨
   ToolResultBudget.is_char_boundary s (ToolResultBudget.floor_loop s i) = true) ∧
  ∀ j, ToolResultBudget.floor_loop s i < j ≤ i → ToolResultBudget.is_char_boundary s j = false.
Proof.
  induction i as [|i IH]; simpl; [split_and!; [lia|by left|lia]|].
  destruct (ToolResultBudget.is_char_boundary s (S i)) eqn:E; simpl.
  - split_and!; [lia|by right|lia].
  - destruct IH as (H1 & H2 & H3). split_and!; [lia|done|].
    intros j Hj. destruct (decide (j = S i)) as [->|]; [done|]. apply H3. lia.
Qed.

Lemma filter_id {A} (P : A → Prop) `{!∀ x, Decision (P x)} (l : list A) :
  (∀ x, x ∈ l → P x) → filter P l = l.
Proof.
  induction l as [|x l IH]; intros Hl; [done|].
  rewrite filter_cons_True by (apply Hl; set_solver). by rewrite IH by set_solver.
Qed.

Section facts.
Context `{J : SerdeJson}.

(** * The rewriting loops *)

Section rewriting.
Context (role : ChatRole) (rewrite : ContentBlock → option (ContentBlock * Z)).

Definition rewritten (b : ContentBlock) : ContentBlock := default b (fst <$> rewrite b).
Definition rewritten_message (m : ChatMessage) : ChatMessage :=
  {| msg_role := msg_role m; content := rewritten <$> content m |}.

Lemma rewrite_blocks_spec blocks c f :
  (rewrite_blocks rewrite blocks c f).1.1 = rewritten <$> blocks.
Proof.
  revert c f. induction blocks as [|b blocks IH]; intros c f; simpl; [done|].
  unfold rewritten at 1. destruct (rewrite b) as [[b' saved]|]; simpl.
  - specialize (IH (c + 1)%Z (saturating_add u32_max f (tokens_of saved))).
    destruct (rewrite_blocks rewrite blocks _ _) as [[blocks' ?] ?]. simpl in *. by rewrite IH.
  - specialize (IH c f). destruct (rewrite_blocks rewrite blocks c f) as [[blocks' ?] ?].
    simpl in *. by rewrite IH.
Qed.

Lemma count_role_cons m l :
  count_role role (m :: l) = (if bool_decide (msg_role m = role) then 1 else 0) + count_role role l.
Proof. unfold count_role. rewrite filter_cons. case_bool_decide; case_decide; simpl; done. Qed.

(** A message is rewritten when it has the role and is not counted among the
    active ones. *)
Lemma rewrite_messages_spec th l seen c f i :
  (rewrite_messages role rewrite th l seen c f).1.1 !! i =
  (λ m, if bool_decide (msg_role m = role) && (seen + count_role role (take (S i) l) <=? th)
        then rewritten_message m else m) <$> l !! i.
Proof.
  revert seen c f i. induction l as [|m l IH]; intros seen c f i; [done|].
  cbn [rewrite_messages]. rewrite firstn_cons, count_role_cons.
  set (seen' := if bool_decide (msg_role m = role) then S seen else seen).
  destruct (negb _ || _) eqn:Ekeep.
  - destruct (rewrite_messages role rewrite th l seen' c f) as [[l' ?] ?] eqn:El. simpl.
    destruct i as [|i]; simpl.
    + replace (_ && _) with false; [done|]. symmetry. subst seen'.
      case_bool_decide; simpl in *; [|done]. apply Nat.ltb_lt in Ekeep. apply Nat.leb_gt.
      unfold count_role. simpl. lia.
    + specialize (IH seen' c f i). rewrite El in IH. simpl in IH. rewrite IH.
      subst seen'. by case_bool_decide; simpl; rewrite ?Nat.add_succ_r.
  - apply orb_false_iff in Ekeep as [Hr Hth]. rewrite negb_false_iff in Hr.
    subst seen'. rewrite Hr in *. apply Nat.ltb_ge in Hth.
    pose proof (rewrite_blocks_spec (content m) c f) as Hb.
    destruct (rewrite_blocks rewrite (content m) c f) as [[blocks c1] f1]. simpl in Hb.
    destruct (rewrite_messages role rewrite th l (S seen) c1 f1) as [[l' ?] ?] eqn:El. simpl.
    destruct i as [|i]; simpl.
    + replace (seen + _ <=? th) with true; [|symmetry; apply Nat.leb_le; unfold count_role; simpl; lia].
      rewrite Hr. simpl. unfold rewritten_message. by rewrite Hb.
    + specialize (IH (S seen) c1 f1 i). rewrite El in IH. simpl in IH. rewrite IH.
      by rewrite Nat.add_succ_r.
Qed.

Lemma count_role_app l k : count_role role (l ++ k) = count_role role l + count_role role k.
Proof. unfold count_role. by rewrite filter_app, length_app. Qed.

(** The reference: exactly the messages of the role that [keep] later ones
    follow are rewritten. *)
Lemma rewrite_old_spec keep l i :
  (rewrite_old role rewrite keep l).1.1 !! i =
  (λ m, if bool_decide (msg_role m = role ∧ keep ≤ count_role role (drop (S i) l))
        then rewritten_message m else m) <$> l !! i.
Proof.
  unfold rewrite_old. rewrite rewrite_messages_spec.
  destruct (l !! i) as [m|] eqn:Hi; [|done]. simpl. f_equal.
  pose proof (count_role_app (take (S i) l) (drop (S i) l)) as Hc. rewrite take_drop in Hc.
  erewrite take_S_r in Hc |- * by done.
  rewrite count_role_app, count_role_cons in Hc |- *.
  replace (count_role role []) with 0 in Hc |- * by done.
  set (a := count_role role (take i l)) in *. set (d := count_role role (drop (S i) l)) in *.
  rewrite bool_decide_and. repeat case_bool_decide; simpl in *; try done.
  - replace (a + 1 <=? _) with true; [done|]. symmetry. apply Nat.leb_le. lia.
  - replace (a + 1 <=? _) with false; [done|]. symmetry. apply Nat.leb_gt. lia.
Qed.

Lemma rewrite_old_length keep l : length (rewrite_old role rewrite keep l).1.1 = length l.
Proof.
  apply Nat.le_antisymm; apply Nat.nlt_ge; intros Hlt.
  - apply lookup_lt_is_Some_2 in Hlt as [m Hm]. rewrite rewrite_old_spec in Hm.
    rewrite lookup_ge_None_2 in Hm; [done|lia].
  - apply lookup_lt_is_Some_2 in Hlt as [m Hm]. pose proof (rewrite_old_spec keep l
      (length (rewrite_old role rewrite keep l).1.1)) as Hs.
    rewrite Hm, lookup_ge_None_2 in Hs; done.
Qed.

End rewriting.

(** * Conversations before and after a layer *)

(** A layer may change the content of a tool result and the text of a
    reasoning block, nothing else. *)
Inductive like : ContentBlock → ContentBlock → Prop :=
  | like_refl b : like b b
  | like_result id c c' e : like (ToolResult id c e) (ToolResult id c' e)
  | like_reasoning t t' o : like (Reasoning t o) (Reasoning t' o).

Definition message_like (m m' : ChatMessage) : Prop :=
  msg_role m = msg_role m' ∧ Forall2 like (content m) (content m').
Definition messages_like : relation (list ChatMessage) := Forall2 message_like.

#[global] Instance like_preorder : PreOrder like.
Proof.
  split; [constructor|]. intros b c d Hbc Hcd. inversion Hbc; subst; [done|..];
    inversion Hcd; subst; constructor.
Qed.

#[global] Instance message_like_preorder : PreOrder message_like.
Proof.
  split; [by intros m; split|]. intros m n o [H1 H2] [H3 H4]. split; [congruence|].
  by transitivity (content n).
Qed.

#[global] Instance messages_like_preorder : PreOrder messages_like.
Proof. unfold messages_like. apply _. Qed.

Definition result_ids (b : ContentBlock) : list string :=
  match b with ToolResult id _ _ => [id] | _ => [] end.

(** Every tool result answers a tool call of the assistant. *)
Definition no_orphans (l : list ChatMessage) : Prop :=
  ∀ m b id, m ∈ l → b ∈ content m → id ∈ result_ids b → id ∈ OrphanSnip.tool_use_ids l.

#[global] Instance no_orphans_dec l : Decision (no_orphans l).
Proof.
  refine (cast_if (decide (Forall (λ m, Forall (λ b, Forall (λ id,
    id ∈ OrphanSnip.tool_use_ids l) (result_ids b)) (content m)) l))); unfold no_orphans.
  - intros m b id Hm Hb Hid. rewrite Forall_forall in f. specialize (f m Hm).
    rewrite Forall_forall in f. specialize (f b Hb). rewrite Forall_forall in f. by apply f.
  - intros Hno. apply n. apply Forall_forall. intros m Hm. apply Forall_forall. intros b Hb.
    apply Forall_forall. intros id Hid. by apply (Hno m b).
Defined.

Lemma like_ids b b' :
  like b b' → result_ids b = result_ids b' ∧ OrphanSnip.call_ids b = OrphanSnip.call_ids b'.
Proof. by inversion 1. Qed.

Lemma elem_of_tool_use_ids id l :
  id ∈ OrphanSnip.tool_use_ids l ↔
  ∃ m name args, m ∈ l ∧ msg_role m = Assistant ∧ ToolCall id name args ∈ content m.
Proof.
  unfold OrphanSnip.tool_use_ids. rewrite elem_of_list_to_set, list_elem_of_bind. split.
  - intros (m & Hid & Hm). destruct (msg_role m) eqn:Hr; [by apply elem_of_nil in Hid|].
    apply list_elem_of_bind in Hid as (b & Hid & Hb). destruct b; simpl in Hid;
      try by apply elem_of_nil in Hid.
    apply list_elem_of_singleton in Hid as ->. by eauto 10.
  - intros (m & name & args & Hm & Hr & Hb). exists m. split; [|done]. rewrite Hr.
    apply list_elem_of_bind. exists (ToolCall id name args). split; [set_solver|done].
Qed.

Lemma messages_like_call l l' id :
  messages_like l l' → id ∈ OrphanSnip.tool_use_ids l ↔ id ∈ OrphanSnip.tool_use_ids l'.
Proof.
  intros Hl. rewrite !elem_of_tool_use_ids. split.
  - intros (m & name & args & Hm & Hr & Hb).
    apply list_elem_of_lookup in Hm as [i Hi].
    destruct (Forall2_lookup_l _ _ _ _ _ Hl Hi) as (m' & Hi' & Hrole & Hc).
    apply list_elem_of_lookup in Hb as [j Hj].
    destruct (Forall2_lookup_l _ _ _ _ _ Hc Hj) as (b' & Hj' & Hlike).
    inversion Hlike; subst. exists m', name, args.
    split_and!; [by eapply list_elem_of_lookup_2|congruence|by eapply list_elem_of_lookup_2].
  - intros (m & name & args & Hm & Hr & Hb).
    apply list_elem_of_lookup in Hm as [i Hi].
    destruct (Forall2_lookup_r _ _ _ _ _ Hl Hi) as (m' & Hi' & Hrole & Hc).
    apply list_elem_of_lookup in Hb as [j Hj].
    destruct (Forall2_lookup_r _ _ _ _ _ Hc Hj) as (b' & Hj' & Hlike).
    inversion Hlike; subst. exists m', name, args.
    split_and!; [by eapply list_elem_of_lookup_2|congruence|by eapply list_elem_of_lookup_2].
Qed.

Lemma messages_like_no_orphans l l' : messages_like l l' → no_orphans l → no_orphans l'.
Proof.
  intros Hl Hno m' b' id Hm Hb Hid. apply (messages_like_call _ _ _ Hl).
  apply list_elem_of_lookup in Hm as [i Hi].
  destruct (Forall2_lookup_r _ _ _ _ _ Hl Hi) as (m & Hi' & Hrole & Hc).
  apply list_elem_of_lookup in Hb as [j Hj].
  destruct (Forall2_lookup_r _ _ _ _ _ Hc Hj) as (b & Hj' & Hlike).
  apply (Hno m b); [by eapply list_elem_of_lookup_2|by eapply list_elem_of_lookup_2|].
  by rewrite (proj1 (like_ids _ _ Hlike)).
Qed.

(** ** L1 *)

Definition snipped (l : list ChatMessage) : list ChatMessage :=
  OrphanSnip.snip (OrphanSnip.tool_use_ids l) <$> l.

Lemma snipped_calls l id : id ∈ OrphanSnip.tool_use_ids (snipped l) ↔ id ∈ OrphanSnip.tool_use_ids l.
Proof.
  rewrite !elem_of_tool_use_ids. unfold snipped. split.
  - intros (m & name & args & (m0 & -> & Hm)%list_elem_of_fmap & Hr & Hb). simpl in *.
    apply list_elem_of_filter in Hb as [_ Hb]. by eauto 10.
  - intros (m & name & args & Hm & Hr & Hb).
    exists (OrphanSnip.snip (OrphanSnip.tool_use_ids l) m), name, args.
    split_and!; [by apply list_elem_of_fmap_2|done|]. simpl. by apply list_elem_of_filter.
Qed.

Lemma snipped_no_orphans l : no_orphans (snipped l).
Proof.
  intros m b id (m0 & -> & Hm)%list_elem_of_fmap Hb Hid. apply snipped_calls. simpl in Hb.
  apply list_elem_of_filter in Hb as [Hk Hb]. destruct b; simpl in Hid;
    try by apply elem_of_nil in Hid.
  apply list_elem_of_singleton in Hid as ->. simpl in Hk. by apply bool_decide_eq_true in Hk.
Qed.

Lemma snipped_id l : no_orphans l → snipped l = l.
Proof.
  intros Hno. unfold snipped. set (ids := OrphanSnip.tool_use_ids l).
  assert (∀ k : list ChatMessage, (∀ m, m ∈ k → m ∈ l) → OrphanSnip.snip ids <$> k = k) as Hall; [|by apply Hall].
  induction k as [|m k IH]; intros Hk; [done|]. rewrite fmap_cons, IH by set_solver. f_equal.
  assert (m ∈ l) as Hm by set_solver. destruct m as [r c]. unfold OrphanSnip.snip. simpl. f_equal.
  apply filter_id. intros b Hb. destruct b; simpl; try done.
  apply bool_decide_eq_true. apply (Hno _ _ _ Hm Hb). set_solver.
Qed.

Lemma keeps_like ids b b' : like b b' → OrphanSnip.keeps ids b = OrphanSnip.keeps ids b'.
Proof. by inversion 1. Qed.

Lemma snip_like ids ids' m m' :
  (∀ id, id ∈ ids ↔ id ∈ ids') → message_like m m' →
  message_like (OrphanSnip.snip ids m) (OrphanSnip.snip ids' m').
Proof.
  intros Hids [Hr Hc]. split; [done|]. simpl.
  assert (ids = ids') as <- by set_solver. clear Hids Hr.
  induction Hc as [|b b' c c' Hb _ IH]; [constructor|]. rewrite !filter_cons.
  rewrite (keeps_like _ _ _ Hb). case_decide; [by constructor|done].
Qed.

Lemma snipped_like l l' : messages_like l l' → messages_like (snipped l) (snipped l').
Proof.
  intros Hl. unfold snipped. apply Forall2_fmap. eapply Forall2_impl; [exact Hl|].
  intros m m' Hm. apply snip_like; [|done]. intros id. by apply messages_like_call.
Qed.

(** ** L2 and L3 *)

Lemma rewrite_old_like role rewrite keep l :
  (∀ b b' saved, rewrite b = Some (b', saved) → like b b') →
  messages_like l (rewrite_old role rewrite keep l).1.1.
Proof.
  intros Hrw. apply Forall2_same_length_lookup. split; [by rewrite rewrite_old_length|].
  intros i m m' Hi Hi'. rewrite rewrite_old_spec, Hi in Hi'. simpl in Hi'. injection Hi' as <-.
  case_bool_decide; [|reflexivity]. split; [done|]. simpl. apply Forall2_fmap_r. apply Forall_Forall2_diag.
  apply Forall_forall. intros b _. unfold rewritten, compose.
  destruct (rewrite b) as [[b' saved]|] eqn:E; simpl; [by eapply Hrw|reflexivity].
Qed.

Lemma micro_compact_like keep l : messages_like l (MicroCompact.apply_messages keep l).1.
Proof.
  unfold MicroCompact.apply_messages.
  pose proof (rewrite_old_like User MicroCompact.condense keep l) as Hl.
  destruct (rewrite_old _ _ _ _) as [[l' ?] ?]. apply Hl. intros b b' saved.
  unfold MicroCompact.condense. destruct b as [| | |? [|[] []] ?| | |]; try done.
  case_match; [done|]. intros [= <- _]. constructor.
Qed.

Lemma context_collapse_like keep max l :
  messages_like l (ContextCollapse.apply_messages keep max l).1.
Proof.
  unfold ContextCollapse.apply_messages.
  pose proof (rewrite_old_like Assistant (ContextCollapse.trim max) keep l) as Hl.
  destruct (rewrite_old _ _ _ _) as [[l' ?] ?]. apply Hl. intros b b' saved.
  unfold ContextCollapse.trim. destruct b; try done. case_match; [done|].
  intros [= <- _]. constructor.
Qed.

(** ** L0 *)

Context {W : Type}.

Lemma retain_block_like (store : TurnArtifactStore W) hi n b p w w' b' p' :
  ToolResultBudget.retain_block store hi n b p w = (w', Ok (b', p')) → like b b'.
Proof.
  unfold ToolResultBudget.retain_block, eret.
  destruct (ToolResultBudget.candidate b hi) as [[id body]|] eqn:E; [|intros [= _ <- _]; reflexivity].
  unfold ToolResultBudget.candidate in E.
  destruct b as [| | |id' [|[] []] e| | |]; try done. case_match; [|done]. injection E as -> ->.
  intros (r & s1 & Hr & Hk)%ebind_ok. destruct r as [reference|e']; simplify_eq/=; constructor.
Qed.

Lemma retain_blocks_like (store : TurnArtifactStore W) hi n blocks p w w' blocks' p' :
  ToolResultBudget.retain_blocks store hi n blocks p w = (w', Ok (blocks', p')) →
  Forall2 like blocks blocks'.
Proof.
  revert p w blocks'. induction blocks as [|b blocks IH]; intros p w blocks'; simpl.
  - intros [= _ <- _]. constructor.
  - intros ([b1 p1] & w1 & Hb & ([bs p2] & w2 & Hbs & Hr)%ebind_ok)%ebind_ok.
    unfold eret in Hr. simplify_eq. constructor; [by eapply retain_block_like|by eapply IH].
Qed.

Lemma retain_messages_like (store : TurnArtifactStore W) hi n l p w w' l' p' :
  ToolResultBudget.retain_messages store hi n l p w = (w', Ok (l', p')) → messages_like l l'.
Proof.
  revert p w l'. induction l as [|m l IH]; intros p w l'; simpl.
  - intros [= _ <- _]. constructor.
  - intros ([bs p1] & w1 & Hb & ([ms p2] & w2 & Hms & Hr)%ebind_ok)%ebind_ok.
    unfold eret in Hr. simplify_eq. constructor; [|by eapply IH]. split; [done|]. by eapply retain_blocks_like.
Qed.

Lemma budget_like hi n (ctx : CompressContext W) w w' l' r :
  ToolResultBudget.apply_async hi n ctx w = (w', Ok (l', r)) → messages_like (ctx_messages ctx) l'.
Proof.
  unfold ToolResultBudget.apply_async. destruct (artifact_store ctx) as [store|].
  - intros ([ms p] & w1 & Hms & Hr)%ebind_ok. unfold eret in Hr. simplify_eq. by eapply retain_messages_like.
  - intros [= _ <- _]. reflexivity.
Qed.

(** ** L4 and the pipeline *)

Context `{H : !Host W}.

Lemma auto_compact_result ratio keep (ctx : CompressContext W) w w' l' r :
  AutoCompact.apply_async ratio keep ctx w = (w', Ok (l', r)) →
  report_name r = "auto_compact" ∧
  (l' = ctx_messages ctx ∨
   (AutoCompact.threshold (context_window (model_info ctx)) ratio
      ≤ total_input_tokens (last_usage ctx))%Z ∧
   keep * 2 < length (ctx_messages ctx) ∧
   ∃ summary, l' = AutoCompact.summary_message summary
     :: drop (length (ctx_messages ctx) - keep * 2) (ctx_messages ctx)).
Proof.
  unfold AutoCompact.apply_async. destruct (_ <? _)%Z eqn:Et; [intros [= _ <- <-]; by auto|].
  apply Z.ltb_ge in Et.
  destruct (auto_compact_llm ctx) as [llm|]; [|intros [= _ <- <-]; by auto].
  destruct (_ <=? _) eqn:Ek; [intros [= _ <- <-]; by auto|]. apply Nat.leb_gt in Ek.
  intros (x & w1 & _ & Hx)%ebind_ok. destruct x as [summary|e]; unfold eret in Hx; simplify_eq/=.
  - split; [done|]. right. split_and!; [done|lia|]. exists summary. do 2 f_equal. lia.
  - by auto.
Qed.

Lemma run_all_cons (layer : CompressionLayer W) p ctx w w' l' reports :
  run_all (layer :: p) ctx w = (w', Ok (l', reports)) →
  ∃ w1 l1 r1 rs, Compression.apply layer ctx w = (w1, Ok (l1, r1)) ∧
    run_all p {| ctx_messages := l1; last_usage := last_usage ctx; model_info := model_info ctx;
                 auto_compact_llm := auto_compact_llm ctx; artifact_store := artifact_store ctx |} w1
    = (w', Ok (l', rs)) ∧ reports = r1 :: rs.
Proof.
  cbn [run_all]. intros ([l1 r1] & w1 & H1 & ([l2 rs] & w2 & H2 & Hr)%ebind_ok)%ebind_ok.
  unfold eret in Hr. simplify_eq. by eauto 10.
Qed.

Lemma pure_layer (f : list ChatMessage → list ChatMessage * LayerReport) name l0 (w w' : W) l' r :
  (∀ l, report_name (f l).2 = name) →
  (eret (f l0) : eff W Empty_set _) w = (w', Ok (l', r)) → l' = (f l0).1 ∧ report_name r = name.
Proof. intros Hf. unfold eret. intros [= _ Heq]. specialize (Hf l0). by rewrite Heq in Hf |- *. Qed.

Lemma budget_name hi n (ctx : CompressContext W) w w' l' r :
  ToolResultBudget.apply_async hi n ctx w = (w', Ok (l', r)) → report_name r = "tool_result_budget".
Proof.
  unfold ToolResultBudget.apply_async. destruct (artifact_store ctx) as [store|].
  - intros ([ms p] & w1 & _ & Hr)%ebind_ok. unfold eret in Hr. by simplify_eq.
  - by intros [= _ _ <-].
Qed.

Lemma orphan_name l : report_name (OrphanSnip.apply_messages l).2 = "orphan_snip".
Proof. unfold OrphanSnip.apply_messages. simpl. by case_match. Qed.

Lemma micro_name keep l : report_name (MicroCompact.apply_messages keep l).2 = "micro_compact".
Proof. unfold MicroCompact.apply_messages. do 2 case_match. simpl. by case_match. Qed.

Lemma collapse_name keep hi l :
  report_name (ContextCollapse.apply_messages keep hi l).2 = "context_collapse".
Proof. unfold ContextCollapse.apply_messages. do 2 case_match. simpl. by case_match. Qed.

(** The conversation after the default pipeline. *)
Lemma default_pipeline_result (ctx : CompressContext W) w w' l' reports :
  run_all default_for_model ctx w = (w', Ok (l', reports)) →
  ∃ l, messages_like (snipped (ctx_messages ctx)) l ∧ no_orphans l ∧
    (l' = l ∨
     (AutoCompact.threshold (context_window (model_info ctx)) AutoCompact.DEFAULT_TRIGGER_RATIO
        ≤ total_input_tokens (last_usage ctx))%Z ∧
     4 < length l ∧ ∃ summary, l' = AutoCompact.summary_message summary :: drop (length l - 4) l) ∧
    report_name <$> reports
      = ["tool_result_budget"; "orphan_snip"; "micro_compact"; "context_collapse"; "auto_compact"].
Proof.
  unfold default_for_model.
  intros (w1 & l1 & r1 & rs1 & Hl1 & (w2 & l2 & r2 & rs2 & Hl2 & (w3 & l3 & r3 & rs3 & Hl3 &
    (w4 & l4 & r4 & rs4 & Hl4 & (w5 & l5 & r5 & rs5 & Hl5 & Hend & ->)%run_all_cons
    & ->)%run_all_cons & ->)%run_all_cons & ->)%run_all_cons & ->)%run_all_cons.
  cbn [run_all] in Hend. unfold eret in Hend. simplify_eq.
  pose proof (budget_name _ _ _ _ _ _ _ Hl1) as N1. apply budget_like in Hl1.
  apply (pure_layer _ _ _ _ _ _ _ orphan_name) in Hl2 as [Hl2 N2]. simpl in Hl2.
  apply (pure_layer _ _ _ _ _ _ _ (micro_name _)) in Hl3 as [Hl3 N3]. simpl in Hl3.
  apply (pure_layer _ _ _ _ _ _ _ (collapse_name _ _)) in Hl4 as [Hl4 N4]. simpl in Hl4.
  apply auto_compact_result in Hl5 as [N5 Hl5]. simpl in Hl5.
  exists l4.
  assert (messages_like (snipped (ctx_messages ctx)) l4) as Hlike.
  { transitivity (snipped l1); [by apply snipped_like|].
    transitivity l3; [subst l3 l2; apply micro_compact_like|subst l4; apply context_collapse_like]. }
  split_and!; [done| |done|].
  - eapply messages_like_no_orphans; [exact Hlike|]. apply snipped_no_orphans.
  - simpl. by rewrite N1, N2, N3, N4, N5.
Qed.

End facts.

(** * How the pipeline ends *)

Section calm.
Context `{J : SerdeJson} {W : Type} (panics hangs : Prop).

Notation calm := (Effects.calm panics hangs).

Definition store_calm (o : option (TurnArtifactStore W)) : Prop :=
  ∀ store, o = Some store → ∀ a, calm (store a).
Definition llm_calm (o : option (AutoCompactLlm W)) : Prop :=
  ∀ llm, o = Some llm → ∀ l m, calm (llm l m).

Lemma retain_block_calm store hi n b p :
  (∀ a, calm (store a)) → calm (ToolResultBudget.retain_block (W := W) store hi n b p).
Proof.
  intros Hs. unfold ToolResultBudget.retain_block.
  destruct (ToolResultBudget.candidate b hi) as [[id body]|]; [|apply calm_ret].
  apply calm_bind; [by apply calm_try|]. by intros ?? [] _.
Qed.

Lemma retain_blocks_calm store hi n blocks p :
  (∀ a, calm (store a)) → calm (ToolResultBudget.retain_blocks (W := W) store hi n blocks p).
Proof.
  intros Hs. revert p. induction blocks as [|b blocks IH]; intros p; [apply calm_ret|].
  cbn [ToolResultBudget.retain_blocks]. apply calm_bind; [by apply retain_block_calm|].
  intros ?? [b' p'] _. apply calm_bind; [apply IH|]. by intros ?? [] _.
Qed.

Lemma retain_messages_calm store hi n l p :
  (∀ a, calm (store a)) → calm (ToolResultBudget.retain_messages (W := W) store hi n l p).
Proof.
  intros Hs. revert p. induction l as [|m l IH]; intros p; [apply calm_ret|].
  cbn [ToolResultBudget.retain_messages]. apply calm_bind; [by apply retain_blocks_calm|].
  intros ?? [blocks p'] _. apply calm_bind; [apply IH|]. by intros ?? [] _.
Qed.

Lemma auto_compact_calm `{H : !Host W} ratio keep (ctx : CompressContext W) :
  llm_calm (auto_compact_llm ctx) → calm (AutoCompact.apply_async ratio keep ctx).
Proof.
  intros Hl. unfold AutoCompact.apply_async. cbv zeta. destruct (_ <? _)%Z; [apply calm_ret|].
  destruct (auto_compact_llm ctx) as [llm|] eqn:E; [|apply calm_ret].
  destruct (_ <=? _); [apply calm_ret|].
  apply calm_bind; [by apply calm_try, Hl|]. by intros ?? [] _.
Qed.

Lemma run_all_calm (p : CompressionPipeline W) ctx :
  (∀ l messages, l ∈ p → calm (Compression.apply l
     {| ctx_messages := messages; last_usage := last_usage ctx; model_info := model_info ctx;
        auto_compact_llm := auto_compact_llm ctx; artifact_store := artifact_store ctx |})) →
  calm (run_all p ctx).
Proof.
  revert ctx. induction p as [|l p IH]; intros ctx Hp; [apply calm_ret|]. cbn [run_all].
  apply calm_bind.
  - specialize (Hp l (ctx_messages ctx)). destruct ctx. apply Hp. by left.
  - intros ?? [messages report] _. apply calm_bind; [|by intros ?? [] _].
    apply IH. simpl. intros. apply Hp. by right.
Qed.

Lemma default_pipeline_calm `{H : !Host W} (ctx : CompressContext W) :
  store_calm (artifact_store ctx) → llm_calm (auto_compact_llm ctx) →
  calm (run_all default_for_model ctx).
Proof.
  intros Hs Hl. apply run_all_calm. intros l messages Hin.
  unfold default_for_model in Hin. rewrite !elem_of_cons in Hin.
  destruct Hin as [->|[->|[->|[->|[->|[]%elem_of_nil]]]]]; try apply calm_ret.
  - simpl. unfold ToolResultBudget.apply_async. simpl.
    destruct (artifact_store ctx) as [store|]; [|apply calm_ret].
    apply calm_bind; [apply retain_messages_calm; by apply Hs|]. by intros ?? [] _.
  - by apply auto_compact_calm.
Qed.

Lemma drain_ends expected l completed :
  match AutoCompact.drain expected l completed with Panic | Diverge => False | _ => True end.
Proof.
  revert completed. induction l as [|[[t|t|r]|e] l IH]; intros completed; simpl; try done;
    destruct (bool_decide _); simpl; try done; try apply IH.
  destruct (_ != _); simpl; [done|apply IH].
Qed.

Lemma text_only_ends blocks text :
  match AutoCompact.text_only blocks text with Panic | Diverge => False | _ => True end.
Proof. revert text. induction blocks as [|[] blocks IH]; intros acc; simpl; try done. apply IH. Qed.

(** The summarizer waits for the model, and panics when its stream does. *)
Lemma summarize_calm `{H : !Host W} model l m :
  (∀ r, calm (complete_stream r)) →
  (∀ r w w' s, complete_stream r w = (w', Ok s) →
     match stream_end s with Compression.Ended => True | StreamPanics => panics | StreamHangs => hangs end) →
  calm (AutoCompact.summarize model l m).
Proof.
  intros Hc Hs. unfold AutoCompact.summarize. apply calm_bind.
  { intros w. by destruct (new_v4 w). }
  intros _ _ id _. apply calm_bind; [by apply calm_map_err|]. intros w w' stream Hw.
  assert (match stream_end stream with
    Compression.Ended => True | StreamPanics => panics | StreamHangs => hangs end) as Hend.
  { unfold emap_err in Hw. destruct (complete_stream _ w) as [w1 [s| | |]] eqn:E; simplify_eq/=.
    by eapply Hs. }
  apply calm_bind.
  { intros w1. simpl. unfold AutoCompact.stream_result.
    pose proof (drain_ends (reference model) (items stream) None) as Hd.
    destruct (AutoCompact.drain _ _ _); try done. by destruct (stream_end stream). }
  intros _ _ completed _. apply calm_bind; [by intros w1; destruct completed|].
  intros _ _ response _. apply calm_bind.
  { intros w1. simpl. pose proof (text_only_ends (response_content response) "") as Ht.
    by destruct (AutoCompact.text_only _ _). }
  intros _ _ text _. by destruct (trim_is_empty text).
Qed.

End calm.
