(* ===== verification/ToolContract.v ===== *)
(** The contract of a tool: src/sylvander-agent/src/tool/contract.rs, with the
    command risk of execution/risk.rs, the trusted context of
    turn/execution_context.rs and what tools use of execution/tool_context.rs
    and execution/workspace.rs.

    A registered tool is a specification, a preparation of untrusted input and
    a handler.  The handler is foreign code: it works on the world and on the
    list of progress deltas it has emitted. *)

From S2P Require Import Prelude Json Effects.
From stdpp Require Import base tactics gmap sets strings list pretty.
From Stdlib Require Import ZArith Lia Ascii.

Open Scope Z_scope.

(** * Strings *)

(** A [String] is UTF-8: a character is a byte that does not continue one. *)
Definition continues (c : ascii) : bool := ((128 <=? byte c) && (byte c <? 192))%N.

(** [s.chars()], each character as its bytes *)
Fixpoint chars (s : string) : list string :=
  match s with
  | EmptyString => []
  | String a r =>
      match chars r with
      | String b c :: cs =>
          if continues b then String a (String b c) :: cs else String a "" :: String b c :: cs
      | cs => String a "" :: cs
      end
  end.

(** [str::starts_with] and [str::contains] *)
Definition starts_with (s p : string) : bool := bool_decide (is_Some (Prelude.strip_prefix p s)).
Fixpoint str_contains (s p : string) : bool :=
  starts_with s p || match s with EmptyString => false | String _ r => str_contains r p end.

Definition ascii_lower (c : ascii) : ascii :=
  if ((65 <=? byte c) && (byte c <=? 90))%N then ascii_of_N (byte c + 32) else c.
Fixpoint to_ascii_lowercase (s : string) : string :=
  match s with EmptyString => "" | String c r => String (ascii_lower c) (to_ascii_lowercase r) end.

(** * Command risk, execution/risk.rs *)

Inductive CommandRiskLevel := Routine | Elevated | Destructive.

#[global] Instance CommandRiskLevel_eq_dec : EqDecision CommandRiskLevel.
Proof. solve_decision. Defined.

Inductive CommandRiskReason :=
  | RecursiveDeletion | GitDestructiveCleanup | RemoteContentExecution | PrivilegeEscalation.

#[global] Instance CommandRiskReason_eq_dec : EqDecision CommandRiskReason.
Proof. solve_decision. Defined.

Record CommandRiskAssessment := {
  level : CommandRiskLevel;
  reasons : list CommandRiskReason;
}.

#[global] Instance CommandRiskAssessment_eq_dec : EqDecision CommandRiskAssessment.
Proof. solve_decision. Defined.

Definition routine : CommandRiskAssessment := {| level := Routine; reasons := [] |}.

Definition evaluate (command : string) : CommandRiskAssessment :=
  let n := to_ascii_lowercase command in
  let reasons :=
    (if str_contains n "rm -rf" || str_contains n "rm -fr" then [RecursiveDeletion] else []) ++
    (if str_contains n "git clean" && (str_contains n " -f" || str_contains n " --force")
     then [GitDestructiveCleanup] else []) ++
    (if (str_contains n "curl " || str_contains n "wget ") && str_contains n "|" &&
        (str_contains n " sh" || str_contains n " bash") then [RemoteContentExecution] else []) ++
    (if str_contains n "sudo " || starts_with n "sudo " then [PrivilegeEscalation] else []) in
  {| level :=
       if existsb (λ r, match r with RecursiveDeletion | GitDestructiveCleanup => true
                                   | _ => false end) reasons then Destructive
       else match reasons with [] => Routine | _ => Elevated end;
     reasons := reasons |}.

(** * Execution context, turn/execution_context.rs *)

Record ExecutionActor := {
  actor_user_id : string;
  actor_agent_id : string;
  actor_session_id : string;
}.

#[global] Instance ExecutionActor_eq_dec : EqDecision ExecutionActor.
Proof. solve_decision. Defined.

Record ExecutionWorkspace := {
  ew_workspace_id : string;
  ew_target_id : string;
  ew_read_only : bool;
}.

#[global] Instance ExecutionWorkspace_eq_dec : EqDecision ExecutionWorkspace.
Proof. solve_decision. Defined.

Inductive ExecutionCapability :=
  | CapWorkspaceRead | CapWorkspaceWrite | CapProcess | CapNetwork | CapGit | CapMemoryRead
  | CapMemoryCandidate.

#[global] Instance ExecutionCapability_eq_dec : EqDecision ExecutionCapability.
Proof. solve_decision. Defined.

#[global] Instance ExecutionCapability_countable : Countable ExecutionCapability.
Proof.
  apply (inj_countable
    (λ c, match c with CapWorkspaceRead => 0 | CapWorkspaceWrite => 1 | CapProcess => 2
      | CapNetwork => 3 | CapGit => 4 | CapMemoryRead => 5 | CapMemoryCandidate => 6 end)%nat
    (λ n, match n with 0 => Some CapWorkspaceRead | 1 => Some CapWorkspaceWrite
      | 2 => Some CapProcess | 3 => Some CapNetwork | 4 => Some CapGit | 5 => Some CapMemoryRead
      | 6 => Some CapMemoryCandidate | _ => None end%nat)).
  by intros [].
Defined.

Record AgentExecutionContext := {
  actor : ExecutionActor;
  turn_id : option string;
  workspace : option ExecutionWorkspace;
  exec_capabilities : gset ExecutionCapability;
  exec_timeout : option Z;
  started_at_unix_secs : Z;
  trace_id : option string;
}.

#[global] Instance AgentExecutionContext_eq_dec : EqDecision AgentExecutionContext.
Proof. solve_decision. Defined.

(** * Policies *)

Inductive AgentHookPhase := BeforeTool | AfterTool | BeforeTurn | AfterTurn.

#[global] Instance AgentHookPhase_eq_dec : EqDecision AgentHookPhase.
Proof. solve_decision. Defined.

Inductive ToolExposure := Immediate | Deferred.

#[global] Instance ToolExposure_eq_dec : EqDecision ToolExposure.
Proof. solve_decision. Defined.

Inductive ToolExecutionMode := Parallel | Exclusive.

#[global] Instance ToolExecutionMode_eq_dec : EqDecision ToolExecutionMode.
Proof. solve_decision. Defined.

Inductive SandboxRequirement := NotApplicable | Preferred | Required.

#[global] Instance SandboxRequirement_eq_dec : EqDecision SandboxRequirement.
Proof. solve_decision. Defined.

Inductive ToolFilesystemPolicy := FsNone | FsWorkspaceRead | FsWorkspaceWrite.

#[global] Instance ToolFilesystemPolicy_eq_dec : EqDecision ToolFilesystemPolicy.
Proof. solve_decision. Defined.

Inductive ToolNetworkPolicy := Denied | FullAfterApproval.

#[global] Instance ToolNetworkPolicy_eq_dec : EqDecision ToolNetworkPolicy.
Proof. solve_decision. Defined.

Record ToolExecutionPolicy := {
  sandbox : SandboxRequirement;
  filesystem : ToolFilesystemPolicy;
  network : ToolNetworkPolicy;
  launches_processes : bool;
}.

#[global] Instance ToolExecutionPolicy_eq_dec : EqDecision ToolExecutionPolicy.
Proof. solve_decision. Defined.

Definition in_process : ToolExecutionPolicy := Build_ToolExecutionPolicy NotApplicable FsNone Denied false.
Definition workspace_read : ToolExecutionPolicy :=
  Build_ToolExecutionPolicy NotApplicable FsWorkspaceRead Denied false.
Definition workspace_write : ToolExecutionPolicy :=
  Build_ToolExecutionPolicy NotApplicable FsWorkspaceWrite Denied false.
Definition process : ToolExecutionPolicy :=
  Build_ToolExecutionPolicy Required FsWorkspaceWrite Denied true.
Definition read_only_process : ToolExecutionPolicy :=
  Build_ToolExecutionPolicy Required FsWorkspaceRead Denied true.

(** [ToolInvocationClass] and [ToolRecoveryPolicy] of tool/invocation.rs *)
Module InvocationClass.
Inductive t :=
  | Read | FilesystemMutation | Terminal | Browser | HostControl | ArbitraryMcp
  | MemoryCandidate | Control | Extension.

#[global] Instance t_eq_dec : EqDecision t.
Proof. solve_decision. Defined.
End InvocationClass.

Notation ToolInvocationClass := InvocationClass.t (only parsing).

Inductive ToolRecoveryPolicy := NeverReplay | RetryWithSameInvocation | ReconcileBeforeRetry.

#[global] Instance ToolRecoveryPolicy_eq_dec : EqDecision ToolRecoveryPolicy.
Proof. solve_decision. Defined.

Inductive ToolPrepareError :=
  | Unavailable (name : string)
  | InvalidInput (reason : string).

#[global] Instance ToolPrepareError_eq_dec : EqDecision ToolPrepareError.
Proof. solve_decision. Defined.

Definition prepare_error_text (e : ToolPrepareError) : string :=
  match e with
  | Unavailable name => "tool `" +:+ name +:+ "` is unavailable"
  | InvalidInput reason => "tool input is invalid: " +:+ reason
  end.

Inductive ToolEnvironmentError :=
  | SandboxUnavailable (operation : string)
  | NetworkPolicyUnavailable (operation : string).

#[global] Instance ToolEnvironmentError_eq_dec : EqDecision ToolEnvironmentError.
Proof. solve_decision. Defined.

Definition environment_error_text (e : ToolEnvironmentError) : string :=
  match e with
  | SandboxUnavailable op => "tool `" +:+ op +:+ "` requires an OS-enforced process sandbox"
  | NetworkPolicyUnavailable op => "tool `" +:+ op +:+
      "` requires approved full network access, which this sandbox cannot enforce"
  end.

Inductive ToolFailureKind := Unclassified | FilesystemBoundaryPolicyViolation.

#[global] Instance ToolFailureKind_eq_dec : EqDecision ToolFailureKind.
Proof. solve_decision. Defined.

Record ToolOutput := {
  output_content : string;
  output_is_error : bool;
  failure_kind : option ToolFailureKind;
}.

(** [ToolOutput::ok] and [ToolOutput::err] *)
Definition output_ok (content : string) : ToolOutput := Build_ToolOutput content false None.
Definition output_err (content : string) : ToolOutput :=
  Build_ToolOutput content true (Some Unclassified).

Inductive ToolError :=
  | ToolPanic (reason : string)
  | ToolTimeout (text : string)
  | ToolOther (reason : string).

Definition tool_error_text (e : ToolError) : string :=
  match e with
  | ToolPanic reason => "tool panicked: " +:+ reason
  | ToolTimeout text => "tool timed out after " +:+ text
  | ToolOther reason => "tool execution failed: " +:+ reason
  end.

(** * Process isolation, execution/workspace.rs *)

Record ProcessIsolation := {
  iso_filesystem : bool;
  network_denied : bool;
  resource_limits : bool;
  process_tree : bool;
}.

Definition enforces_process_sandbox (i : ProcessIsolation) : bool :=
  iso_filesystem i && network_denied i && process_tree i.

Inductive CommandStream := Stdout | Stderr.

(** What a command printed while it ran and how it ended. *)
Record CommandRun := {
  command_output : list (CommandStream * string);
  success : bool;
  status_code : option Z;
}.

Section contract.
Context `{J : SerdeJson}.

Record ToolSpec := {
  ts_name : string;
  description : string;
  input_schema : Value;
  exposure : ToolExposure;
  search_hint : string;
  prompt_guidelines : list string;
  invocation_class : ToolInvocationClass;
  recovery_policy : ToolRecoveryPolicy;
}.

(** [ToolSpec::immediate] *)
Definition immediate (name description : string) (schema : Value) (class : ToolInvocationClass)
    : ToolSpec :=
  {| ts_name := name; description := description; input_schema := schema; exposure := Immediate;
     search_hint := description; prompt_guidelines := []; invocation_class := class;
     recovery_policy := NeverReplay |}.

Record ToolPreparation := {
  tp_input : Value;
  tp_execution_mode : ToolExecutionMode;
  tp_execution_policy : ToolExecutionPolicy;
  tp_command_risk : CommandRiskAssessment;
}.

(** * Validation of untrusted input *)

(** A loop with an early return. *)
Fixpoint try_each {A E} (f : A → res unit E) (l : list A) : res unit E :=
  match l with
  | [] => Ok tt
  | a :: l => _ <- f a;; try_each f l
  end.

Definition quoted (path rest : string) : ToolPrepareError := InvalidInput ("`" +:+ path +:+ "`" +:+ rest).

Definition validate_string_input (schema value : Value) (path : string)
    : res unit ToolPrepareError :=
  text <- ok_or (as_str value) (quoted path " must be a string");;
  let length := Z.of_nat (length (chars text)) in
  _ <- match json_get schema "minLength" ≫= as_u64 with
       | Some minimum => bail_if (length <? minimum) (quoted path (" is shorter than " +:+ pretty minimum +:+ " characters"))
       | None => Ok tt
       end;;
  match json_get schema "maxLength" ≫= as_u64 with
  | Some maximum => bail_if (maximum <? length) (quoted path (" is longer than " +:+ pretty maximum +:+ " characters"))
  | None => Ok tt
  end.

Definition validate_numeric_bounds (schema value : Value) (path : string)
    : res unit ToolPrepareError :=
  number <- ok_or (as_f64 value) (quoted path " must be numeric");;
  _ <- match json_get schema "minimum" ≫= as_f64 with
       | Some minimum => bail_if (f64_lt number minimum) (quoted path " is below its minimum")
       | None => Ok tt
       end;;
  match json_get schema "maximum" ≫= as_f64 with
  | Some maximum => bail_if (f64_lt maximum number) (quoted path " exceeds its maximum")
  | None => Ok tt
  end.

Section nested.
Context (validate_input_value : Value → Value → string → res unit ToolPrepareError).

(** One iteration of the loop over the fields of the value. *)
Definition validate_field (schema : Value) (field_entry : string * Value)
    : res unit ToolPrepareError :=
  let '(field, field_value) := field_entry in
  match (json_get schema "properties" ≫= as_object) ≫= (λ fields, entry fields field) with
  | Some field_schema => validate_input_value field_schema field_value field
  | None =>
      match json_get schema "additionalProperties" with
      | Some additional =>
          if bool_decide (as_bool additional = Some false)
          then Err (InvalidInput ("unknown field `" +:+ field +:+ "`"))
          else if bool_decide (is_Some (as_object additional))
          then validate_input_value additional field_value field
          else Ok tt
      | None => Ok tt
      end
  end.

Definition validate_object_input (schema value : Value) (path : string)
    : res unit ToolPrepareError :=
  object <- ok_or (as_object value) (quoted path " must be an object");;
  _ <- match get_array schema "required" with
       | Some required =>
           try_each (λ field, match entry object field with
             | Some _ => Ok tt
             | None => Err (InvalidInput ("missing required field `" +:+ field +:+ "`"))
             end) (omap as_str required)
       | None => Ok tt
       end;;
  try_each (validate_field schema) object.

Definition validate_array_input (schema value : Value) (path : string)
    : res unit ToolPrepareError :=
  values <- ok_or (as_array value) (quoted path " must be an array");;
  _ <- match json_get schema "minItems" ≫= as_u64 with
       | Some minimum => bail_if (Z.of_nat (length values) <? minimum)
           (quoted path (" has fewer than " +:+ pretty minimum +:+ " items"))
       | None => Ok tt
       end;;
  match json_get schema "items" with
  | Some item_schema => try_each (λ item, validate_input_value item_schema item path) values
  | None => Ok tt
  end.

(** The body of [validate_input_value]. *)
Definition validate_input_body (schema value : Value) (path : string)
    : res unit ToolPrepareError :=
  _ <- match get_array schema "enum" with
       | Some allowed =>
           bail_if (bool_decide (value ∉ allowed)) (quoted path " is not an allowed value")
       | None => Ok tt
       end;;
  match get_str schema "type" with
  | None => Ok tt
  | Some type =>
      if type == "object" then validate_object_input schema value path
      else if type == "array" then validate_array_input schema value path
      else if type == "string" then validate_string_input schema value path
      else if (type == "integer") && (bool_decide (is_Some (as_i64 value)) ||
                                      bool_decide (is_Some (as_u64 value)))
      then validate_numeric_bounds schema value path
      else if (type == "number") && is_number value
      then validate_numeric_bounds schema value path
      else if (type == "boolean") && bool_decide (is_Some (as_bool value)) then Ok tt
      else if (type == "null") && is_null value then Ok tt
      else Err (quoted path (" must be " +:+ type))
  end.

End nested.

(** [validate_input_value] recurs into the fields and items of the value;
    [fuel] bounds the depth, and the size of the value is enough. *)
Fixpoint validate_with_fuel (fuel : nat) (schema value : Value) (path : string)
    : res unit ToolPrepareError :=
  match fuel with
  | O => Diverge
  | S fuel => validate_input_body (validate_with_fuel fuel) schema value path
  end.

Definition validate_input_value (schema value : Value) (path : string) : res unit ToolPrepareError :=
  validate_with_fuel (S (json_size value)) schema value path.

Definition execution_mode_of (class : ToolInvocationClass) : ToolExecutionMode :=
  match class with
  | InvocationClass.Read | InvocationClass.Control | InvocationClass.Extension => Parallel
  | InvocationClass.FilesystemMutation | InvocationClass.Terminal | InvocationClass.Browser
  | InvocationClass.HostControl | InvocationClass.ArbitraryMcp
  | InvocationClass.MemoryCandidate => Exclusive
  end.

Definition execution_policy_of (class : ToolInvocationClass) : ToolExecutionPolicy :=
  match class with
  | InvocationClass.Read => workspace_read
  | InvocationClass.FilesystemMutation => workspace_write
  | InvocationClass.Terminal => process
  | InvocationClass.Browser | InvocationClass.HostControl | InvocationClass.ArbitraryMcp
  | InvocationClass.MemoryCandidate | InvocationClass.Control
  | InvocationClass.Extension => in_process
  end.

Definition prepare_from_spec (spec : ToolSpec) (input : Value)
    : res ToolPreparation ToolPrepareError :=
  _ <- validate_input_value (input_schema spec) input "input";;
  let class := invocation_class spec in
  Ok {| tp_input := input; tp_execution_mode := execution_mode_of class;
        tp_execution_policy := execution_policy_of class; tp_command_risk := routine |}.

(** * Tools *)

(** What a handler sees of a [PreparedToolCall]. *)
Record PreparedCall := {
  pc_spec : ToolSpec;
  pc_input : Value;
  pc_execution_mode : ToolExecutionMode;
  pc_execution_policy : ToolExecutionPolicy;
  pc_command_risk : CommandRiskAssessment;
}.

Context {W : Type}.

(** [ToolContext]: the execution snapshot and what the agent calls of the
    executor bound to its target. *)
Record ToolContext := {
  execution : AgentExecutionContext;
  budget_timeout : option Z;
  process_isolation : ProcessIsolation;
  run_command_streaming : string → Z → eff W string CommandRun;
  invocation_call_id : option string;
}.

(** [with_invocation_call_id] *)
Definition with_invocation_call_id (ctx : ToolContext) (call_id : string) : ToolContext :=
  {| execution := execution ctx; budget_timeout := budget_timeout ctx;
     process_isolation := process_isolation ctx;
     run_command_streaming := run_command_streaming ctx;
     invocation_call_id := Some call_id |}.

(** The world and the progress emitted so far. *)
Definition Progress : Type := W * list string.
Definition emit {E} (delta : string) : eff Progress E unit :=
  λ s, ((s.1, s.2 ++ [delta]), Ok tt).

Record RegisteredTool := {
  spec : ToolSpec;
  tool_prepare : Value → res ToolPreparation ToolPrepareError;
  handle_streaming : ToolContext → PreparedCall → eff Progress ToolError ToolOutput;
}.

Record PreparedToolCall := {
  implementation : RegisteredTool;
  call : PreparedCall;
}.

Definition validate_execution_environment (operation : string) (policy : ToolExecutionPolicy)
    (ctx : ToolContext) : res unit ToolEnvironmentError :=
  if negb (launches_processes policy) then Ok tt
  else
    bail (sandbox policy == Required) && negb (enforces_process_sandbox (process_isolation ctx))
      with SandboxUnavailable operation;;
    bail network policy == FullAfterApproval with NetworkPolicyUnavailable operation;;
    Ok tt.

Definition validate_environment (c : PreparedToolCall) (ctx : ToolContext)
    : res unit ToolEnvironmentError :=
  validate_execution_environment (ts_name (pc_spec (call c))) (pc_execution_policy (call c)) ctx.

Definition execute_streaming (c : PreparedToolCall) (ctx : ToolContext)
    : eff Progress ToolError ToolOutput :=
  handle_streaming (implementation c) ctx (call c).

End contract.

Arguments ToolContext W : clear implicits.
Arguments RegisteredTool {J} W.
Arguments PreparedToolCall {J} W.
