(* ===== verification/ToolFacts.v ===== *)
(** Facts about tool contracts: the validation of untrusted input ends and
    decides conformance to the schema, and when an environment is accepted. *)

From S2P Require Import Prelude Json Effects ToolContract.
From stdpp Require Import base tactics gmap sets strings list pretty.
From Stdlib Require Import ZArith Lia.

Open Scope Z_scope.

Section validation.
Context `{J : SerdeJson}.

Lemma try_each_ok {A E} (f : A → res unit E) l :
  try_each f l = Ok tt ↔ ∀ x, x ∈ l → f x = Ok tt.
Proof.
  induction l as [|a l IH]; simpl; [set_solver|].
  rewrite res_bind_ok. split.
  - intros ([] & Ha & Hl) x [->|Hx]%elem_of_cons; [done|]. by apply IH.
  - intros Hl. exists tt. split; [apply Hl; set_solver|]. apply IH. set_solver.
Qed.

Lemma try_each_ext {A E} (f g : A → res unit E) l :
  (∀ x, x ∈ l → f x = g x) → try_each f l = try_each g l.
Proof.
  induction l as [|a l IH]; intros Hfg; simpl; [done|].
  rewrite (Hfg a) by set_solver. destruct (g a); simpl; try done. apply IH. set_solver.
Qed.

Lemma try_each_returns {A E} (f : A → res unit E) l :
  (∀ x, x ∈ l → returns (f x)) → returns (try_each f l).
Proof.
  induction l as [|a l IH]; intros Hf; simpl; [done|].
  apply returns_bind; [apply Hf; set_solver|]. intros _ _. apply IH. set_solver.
Qed.

(** ** The recursion *)

(** [validate_input_body] calls its argument on smaller values only. *)
Lemma validate_input_body_ext rec rec' schema value path :
  (∀ s v p, (json_size v < json_size value)%nat → rec s v p = rec' s v p) →
  validate_input_body rec schema value path = validate_input_body rec' schema value path.
Proof.
  intros Hrec. unfold validate_input_body.
  destruct (match get_array schema "enum" with Some _ => _ | None => _ end) as [[]|e| |]; simpl;
    try done.
  destruct (get_str schema "type") as [ty|]; [|done].
  destruct (ty == "object").
  { unfold validate_object_input. destruct (as_object value) as [object|] eqn:Ho; simpl; [|done].
    destruct (match get_array schema "required" with Some _ => _ | None => _ end) as [[]|e| |];
      simpl; try done.
    apply try_each_ext. intros [field x] Hx. unfold validate_field.
    pose proof (as_object_size _ _ Ho _ _ Hx). repeat case_match; try done; by apply Hrec. }
  destruct (ty == "array"); [|done].
  unfold validate_array_input. destruct (as_array value) as [values|] eqn:Ha; simpl; [|done].
  destruct (match json_get schema "minItems" ≫= as_u64 with Some _ => _ | None => _ end)
    as [[]|e| |]; simpl; try done.
  destruct (json_get schema "items"); [|done].
  apply try_each_ext. intros x Hx. apply Hrec. by eapply as_array_size.
Qed.

Lemma validate_with_fuel_enough n m schema value path :
  (json_size value < n)%nat → (json_size value < m)%nat →
  validate_with_fuel n schema value path = validate_with_fuel m schema value path.
Proof.
  revert m schema value path. induction n as [|n IH]; intros m schema value path Hn Hm; [lia|].
  destruct m as [|m]; [lia|]. simpl. apply validate_input_body_ext.
  intros s v p Hv. apply IH; lia.
Qed.

Lemma validate_input_value_unfold schema value path :
  validate_input_value schema value path = validate_input_body validate_input_value schema value path.
Proof.
  unfold validate_input_value at 1. simpl. apply validate_input_body_ext.
  intros s v p Hv. unfold validate_input_value. apply validate_with_fuel_enough; lia.
Qed.

Lemma validate_input_value_returns schema value path : returns (validate_input_value schema value path).
Proof.
  remember (json_size value) as n eqn:Hn. revert schema value path Hn.
  induction (lt_wf n) as [n _ IH]. intros schema value path ->.
  rewrite validate_input_value_unfold. unfold validate_input_body.
  apply returns_bind; [by repeat case_match; auto with res_db|]. intros _ _.
  destruct (get_str schema "type") as [ty|]; [|done].
  destruct (ty == "object").
  { unfold validate_object_input. apply returns_bind; [auto with res_db|].
    intros object Ho. rewrite ok_or_ok in Ho. apply returns_bind.
    - destruct (get_array schema "required"); [|done]. apply try_each_returns.
      intros x _. by case_match.
    - intros _ _. apply try_each_returns. intros [field x] Hx. unfold validate_field.
      pose proof (as_object_size _ _ Ho _ _ Hx). repeat case_match; try done; by eapply IH. }
  destruct (ty == "array").
  { unfold validate_array_input. apply returns_bind; [auto with res_db|].
    intros values Ha. rewrite ok_or_ok in Ha.
    apply returns_bind; [by repeat case_match; auto with res_db|]. intros _ _.
    destruct (json_get schema "items"); [|done]. apply try_each_returns.
    intros x Hx. eapply IH; [|done]. by eapply as_array_size. }
  assert (returns (validate_string_input schema value path)).
  { unfold validate_string_input. apply returns_bind; [auto with res_db|]. intros ? _.
    apply returns_bind; intros; repeat case_match; auto with res_db. }
  assert (returns (validate_numeric_bounds schema value path)).
  { unfold validate_numeric_bounds. apply returns_bind; [auto with res_db|]. intros ? _.
    apply returns_bind; intros; repeat case_match; auto with res_db. }
  repeat case_match; done.
Qed.

Lemma prepare_from_spec_returns spec input : returns (prepare_from_spec spec input).
Proof.
  apply returns_bind; [apply validate_input_value_returns|]. done.
Qed.


(** ** Conformance *)

(** What a schema demands of the field [f] of an object: [None] that it is
    absent, [Some None] nothing, [Some (Some s)] the schema [s]. *)
Definition field_schema (schema : Value) (f : string) : option (option Value) :=
  match (json_get schema "properties" ≫= as_object) ≫= (λ fields, entry fields f) with
  | Some s => Some (Some s)
  | None =>
      match json_get schema "additionalProperties" with
      | Some additional =>
          if decide (as_bool additional = Some false) then None
          else Some (if decide (is_Some (as_object additional)) then Some additional else None)
      | None => Some None
      end
  end.

Definition in_bounds (schema value : Value) : Prop :=
  ∃ number, as_f64 value = Some number ∧
    (∀ x, json_get schema "minimum" ≫= as_f64 = Some x → f64_lt number x = false) ∧
    (∀ x, json_get schema "maximum" ≫= as_f64 = Some x → f64_lt x number = false).

Inductive conforms : Value → Value → Prop :=
  | Conforms schema value :
      (∀ allowed, get_array schema "enum" = Some allowed → value ∈ allowed) →
      typed schema value → conforms schema value
with typed : Value → Value → Prop :=
  | Untyped schema value : get_str schema "type" = None → typed schema value
  | TypedObject schema value object :
      get_str schema "type" = Some "object" → as_object value = Some object →
      (∀ names f, get_array schema "required" = Some names → f ∈ omap as_str names →
        f ∈ object.*1) →
      (∀ f x, (f, x) ∈ object → is_Some (field_schema schema f)) →
      (∀ f x s, (f, x) ∈ object → field_schema schema f = Some (Some s) → conforms s x) →
      typed schema value
  | TypedArray schema value values :
      get_str schema "type" = Some "array" → as_array value = Some values →
      (∀ n, json_get schema "minItems" ≫= as_u64 = Some n → n ≤ Z.of_nat (length values)) →
      (∀ s x, json_get schema "items" = Some s → x ∈ values → conforms s x) →
      typed schema value
  | TypedString schema value text :
      get_str schema "type" = Some "string" → as_str value = Some text →
      (∀ n, json_get schema "minLength" ≫= as_u64 = Some n → n ≤ Z.of_nat (length (chars text))) →
      (∀ n, json_get schema "maxLength" ≫= as_u64 = Some n → Z.of_nat (length (chars text)) ≤ n) →
      typed schema value
  | TypedInteger schema value :
      get_str schema "type" = Some "integer" →
      is_Some (as_i64 value) ∨ is_Some (as_u64 value) → in_bounds schema value →
      typed schema value
  | TypedNumber schema value :
      get_str schema "type" = Some "number" → is_number value = true → in_bounds schema value →
      typed schema value
  | TypedBoolean schema value :
      get_str schema "type" = Some "boolean" → is_Some (as_bool value) → typed schema value
  | TypedNull schema value :
      get_str schema "type" = Some "null" → is_null value = true → typed schema value.

Lemma bail_if_res {E} (b : bool) (e : E) (k : res unit E) :
  res_bind (bail_if b e) (λ _, k) = Ok tt ↔ b = false ∧ k = Ok tt.
Proof. apply bail_ok. Qed.

(** Cases on the optional bounds of a schema. *)
Ltac optional_checks :=
  repeat match goal with
  | |- context [match ?o with Some _ => bail_if _ _ | None => Ok tt end] =>
      let x := fresh "x" in destruct o as [x|]
  end; simpl; rewrite ?bail_if_res, ?bail_if_ok, ?Z.ltb_ge.

Lemma validate_numeric_bounds_ok schema value path :
  validate_numeric_bounds schema value path = Ok tt ↔ in_bounds schema value.
Proof.
  unfold validate_numeric_bounds, in_bounds.
  destruct (as_f64 value) as [number|]; simpl; [|naive_solver].
  optional_checks; naive_solver.
Qed.

Lemma validate_string_input_ok schema value path :
  validate_string_input schema value path = Ok tt ↔
  ∃ text, as_str value = Some text ∧
    (∀ n, json_get schema "minLength" ≫= as_u64 = Some n → n ≤ Z.of_nat (length (chars text))) ∧
    (∀ n, json_get schema "maxLength" ≫= as_u64 = Some n → Z.of_nat (length (chars text)) ≤ n).
Proof.
  unfold validate_string_input.
  destruct (as_str value) as [text|]; simpl; [|naive_solver].
  optional_checks; naive_solver.
Qed.

Lemma validate_field_ok rec schema f x :
  validate_field rec schema (f, x) = Ok tt ↔
  is_Some (field_schema schema f) ∧
  ∀ s, field_schema schema f = Some (Some s) → rec s x f = Ok tt.
Proof.
  unfold validate_field, field_schema.
  destruct ((json_get schema "properties" ≫= as_object) ≫= _) as [s|]; [naive_solver|].
  destruct (json_get schema "additionalProperties") as [a|]; [|naive_solver].
  rewrite <- (decide_bool_decide (as_bool a = Some false)),
    <- (decide_bool_decide (is_Some (as_object a))).
  destruct (decide (as_bool a = Some false)); simpl; [split; [done|]; by intros [[]]|].
  destruct (decide (is_Some (as_object a))); simpl; naive_solver.
Qed.

Lemma required_ok object names :
  try_each (λ field, match entry object field with
    | Some _ => Ok tt
    | None => Err (InvalidInput ("missing required field `" +:+ field +:+ "`"))
    end) (omap as_str names) = Ok tt ↔
  ∀ f, f ∈ omap as_str names → f ∈ object.*1.
Proof.
  rewrite try_each_ok. apply forall_proper. intros f.
  destruct (entry object f) as [x|] eqn:E.
  - split; [|done]. intros _ _. apply entry_some in E. by apply (list_elem_of_fmap_2' fst _ (f, x)).
  - apply entry_none in E. split; [|naive_solver]. intros Hf Hin. by specialize (Hf Hin).
Qed.

Lemma validate_object_input_ok rec schema value path :
  validate_object_input rec schema value path = Ok tt ↔
  ∃ object, as_object value = Some object ∧
    (∀ names f, get_array schema "required" = Some names → f ∈ omap as_str names →
      f ∈ object.*1) ∧
    (∀ f x, (f, x) ∈ object → is_Some (field_schema schema f)) ∧
    (∀ f x s, (f, x) ∈ object → field_schema schema f = Some (Some s) → rec s x f = Ok tt).
Proof.
  unfold validate_object_input. destruct (as_object value) as [object|]; simpl; [|naive_solver].
  assert (try_each (validate_field rec schema) object = Ok tt ↔
    (∀ f x, (f, x) ∈ object → is_Some (field_schema schema f)) ∧
    (∀ f x s, (f, x) ∈ object → field_schema schema f = Some (Some s) → rec s x f = Ok tt)) as Hfields.
  { rewrite try_each_ok. split.
    - intros Hall. split; intros f x; intros; by eapply (validate_field_ok rec schema f x); eauto.
    - intros [H1 H2] [f x] Hx. apply validate_field_ok. naive_solver. }
  destruct (get_array schema "required") as [names|]; simpl.
  - rewrite res_bind_ok. split.
    + intros ([] & Hreq & Hf). rewrite required_ok in Hreq. rewrite Hfields in Hf.
      exists object. naive_solver.
    + intros (? & [= <-] & Hreq & Hf). exists tt. rewrite Hfields, required_ok. naive_solver.
  - rewrite Hfields. naive_solver.
Qed.

Lemma validate_array_input_ok rec schema value path :
  validate_array_input rec schema value path = Ok tt ↔
  ∃ values, as_array value = Some values ∧
    (∀ n, json_get schema "minItems" ≫= as_u64 = Some n → n ≤ Z.of_nat (length values)) ∧
    (∀ s x, json_get schema "items" = Some s → x ∈ values → rec s x path = Ok tt).
Proof.
  unfold validate_array_input.
  destruct (as_array value) as [values|]; simpl; [|naive_solver].
  assert (match json_get schema "items" with
    | Some item_schema => try_each (λ item, rec item_schema item path) values
    | None => Ok tt end = Ok tt ↔
    ∀ s x, json_get schema "items" = Some s → x ∈ values → rec s x path = Ok tt) as Hitems.
  { destruct (json_get schema "items"); [rewrite try_each_ok|]; naive_solver. }
  destruct (json_get schema "minItems" ≫= as_u64) as [n|];
    rewrite ?bail_if_res, ?Z.ltb_ge; simpl; rewrite Hitems; naive_solver.
Qed.

Lemma enum_ok schema value path :
  match get_array schema "enum" with
  | Some allowed => bail_if (bool_decide (value ∉ allowed)) (quoted path " is not an allowed value")
  | None => Ok tt
  end = Ok tt ↔ ∀ allowed, get_array schema "enum" = Some allowed → value ∈ allowed.
Proof.
  destruct (get_array schema "enum") as [allowed|]; [|naive_solver].
  rewrite bail_if_ok, bool_decide_eq_false. split; [|naive_solver].
  intros Hin ? [= <-]. by apply dec_stable.
Qed.

Lemma validate_input_value_ok schema value path :
  validate_input_value schema value path = Ok tt ↔ conforms schema value.
Proof.
  remember (json_size value) as n eqn:Hn. revert schema value path Hn.
  induction (lt_wf n) as [n _ IH]. intros schema value path ->.
  rewrite validate_input_value_unfold. unfold validate_input_body.
  rewrite res_bind_ok.
  assert (Hobj : ∀ object, as_object value = Some object → ∀ f x s p, (f, x) ∈ object →
    validate_input_value s x p = Ok tt ↔ conforms s x).
  { intros object Ho f x s p Hx. eapply IH; [|done]. by eapply as_object_size. }
  assert (Harr : ∀ values, as_array value = Some values → ∀ x s p, x ∈ values →
    validate_input_value s x p = Ok tt ↔ conforms s x).
  { intros values Ha x s p Hx. eapply IH; [|done]. by eapply as_array_size. }
  clear IH. split.
  - intros ([] & Henum & Hty). rewrite enum_ok in Henum. constructor; [done|].
    destruct (get_str schema "type") as [ty|] eqn:Et; [|by apply Untyped].
    repeat match goal with
    | H : (if ?b then _ else _) = _ |- _ => destruct b eqn:?; destruct_guards; subst
    end; try done.
    + apply validate_object_input_ok in Hty as (object & Ho & H1 & H2 & H3).
      eapply TypedObject; eauto. intros f x s Hx Hs. eapply Hobj; eauto.
    + apply validate_array_input_ok in Hty as (values & Ha & H1 & H2).
      eapply TypedArray; eauto. intros s x Hs Hx. eapply Harr; eauto.
    + apply validate_string_input_ok in Hty as (text & Ha & H1 & H2). by eapply TypedString.
    + apply validate_numeric_bounds_ok in Hty. apply TypedInteger; [done| |done].
      apply orb_true_iff in H0 as [?%bool_decide_eq_true|?%bool_decide_eq_true]; auto.
    + apply validate_numeric_bounds_ok in Hty. by apply TypedNumber.
    + by apply TypedBoolean.
    + by apply TypedNull.
  - intros Hc. inversion Hc as [? ? Henum Hty]; subst. exists tt. rewrite enum_ok.
    split; [done|].
    inversion Hty as [? ? Et|? ? object Et Ho H1 H2 H3|? ? values Et Ha H1 H2|? ? text Et Ht H1 H2
      |? ? Et Hi Hb|? ? Et Hi Hb|? ? Et Hi|? ? Et Hi]; subst; rewrite Et; try done; simpl.
    + apply validate_object_input_ok. exists object. split_and!; [done..|].
      intros f x s Hx Hs. eapply Hobj; eauto.
    + apply validate_array_input_ok. exists values. split_and!; [done..|].
      intros s x Hs Hx. eapply Harr; eauto.
    + apply validate_string_input_ok. by exists text.
    + replace (_ || _) with true; [by apply validate_numeric_bounds_ok|]. symmetry.
      apply orb_true_iff. rewrite !bool_decide_eq_true. done.
    + rewrite Hi. by apply validate_numeric_bounds_ok.
    + by rewrite bool_decide_eq_true_2.
    + by rewrite Hi.
Qed.

End validation.
