(* ===== verification/ToolInvocation.v ===== *)
(** The authorization boundary of tool calls,
    src/sylvander-agent/src/tool/invocation.rs: capability snapshots, invocation
    requests, the gateway interface and the exact-route gateway.

    A [BTreeSet] of features is a finite set here; its iteration order only
    enters the content hash of a snapshot. *)

From S2P Require Import Prelude Json Effects ToolContract.
From stdpp Require Import base tactics gmap sets strings list.
From Stdlib Require Import ZArith Lia Ascii.

(** Functions of third-party crates and of the Unicode tables of the standard
    library: the hexadecimal SHA-256 of a byte string, whether
    [Uuid::parse_str] succeeds, [str::to_lowercase], [split_whitespace] and
    [trim]. *)
Class Crates := {
  sha256_hex : string → string;
  uuid_parses : string → bool;
  to_lowercase : string → string;
  split_whitespace : string → list string;
  trim : string → string
}.

Inductive CapabilityFeatureKind :=
  | Executable (class : ToolInvocationClass) (policy : ToolRecoveryPolicy)
  | PromptContext.

#[global] Instance CapabilityFeatureKind_eq_dec : EqDecision CapabilityFeatureKind.
Proof. solve_decision. Defined.

Record CapabilityFeature := {
  cf_name : string;
  cf_kind : CapabilityFeatureKind;
}.

#[global] Instance CapabilityFeature_eq_dec : EqDecision CapabilityFeature.
Proof. solve_decision. Defined.

Definition invocation_class_code (c : ToolInvocationClass) : nat :=
  match c with
  | InvocationClass.Read => 1 | InvocationClass.FilesystemMutation => 2
  | InvocationClass.Terminal => 3 | InvocationClass.Browser => 4
  | InvocationClass.HostControl => 5 | InvocationClass.ArbitraryMcp => 6
  | InvocationClass.MemoryCandidate => 7 | InvocationClass.Control => 8
  | InvocationClass.Extension => 9
  end.

Definition recovery_policy_code (p : ToolRecoveryPolicy) : nat :=
  match p with NeverReplay => 1 | RetryWithSameInvocation => 2 | ReconcileBeforeRetry => 3 end.

Definition class_of_code (n : nat) : option ToolInvocationClass :=
  match n with
  | 1 => Some InvocationClass.Read | 2 => Some InvocationClass.FilesystemMutation
  | 3 => Some InvocationClass.Terminal | 4 => Some InvocationClass.Browser
  | 5 => Some InvocationClass.HostControl | 6 => Some InvocationClass.ArbitraryMcp
  | 7 => Some InvocationClass.MemoryCandidate | 8 => Some InvocationClass.Control
  | 9 => Some InvocationClass.Extension | _ => None
  end.

Definition policy_of_code (n : nat) : option ToolRecoveryPolicy :=
  match n with
  | 1 => Some NeverReplay | 2 => Some RetryWithSameInvocation | 3 => Some ReconcileBeforeRetry
  | _ => None
  end.

#[global] Instance CapabilityFeature_countable : Countable CapabilityFeature.
Proof.
  apply (inj_countable
    (λ f, (cf_name f, match cf_kind f with
      | Executable c p => Some (invocation_class_code c, recovery_policy_code p)
      | PromptContext => None end))
    (λ '(n, k), match k with
      | Some (c, p) => c ← class_of_code c; p ← policy_of_code p;
          Some {| cf_name := n; cf_kind := Executable c p |}
      | None => Some {| cf_name := n; cf_kind := PromptContext |} end)).
  by intros [n [[] []|]].
Defined.

Definition is_executable (f : CapabilityFeature) : bool :=
  match cf_kind f with Executable _ _ => true | PromptContext => false end.

Record ToolInvocationSnapshot := {
  revision : string;
  features : gset CapabilityFeature;
}.

(** The bytes of one feature in the hash, and the derived order: by name, then
    executable before prompt context, by class and by policy. *)
Definition code_byte (n : nat) : string := String (ascii_of_nat n) "".
Definition feature_bytes (f : CapabilityFeature) : string :=
  code_byte 0 +:+
  match cf_kind f with
  | Executable c p =>
      "e" +:+ code_byte (invocation_class_code c) +:+ code_byte (recovery_policy_code p)
  | PromptContext => "p" +:+ code_byte 0 +:+ code_byte 0
  end +:+ cf_name f.

Definition kind_rank (k : CapabilityFeatureKind) : nat :=
  match k with
  | Executable c p => invocation_class_code c * 4 + recovery_policy_code p
  | PromptContext => 64
  end.
Definition feature_le (a b : CapabilityFeature) : bool :=
  string_lt (cf_name a) (cf_name b) ||
  bool_decide (cf_name a = cf_name b) && (kind_rank (cf_kind a) <=? kind_rank (cf_kind b)).

Definition snapshot_revision `{Crates} (base surface : string) (fs : gset CapabilityFeature) : string :=
  "sha256:" +:+ sha256_hex ("sylvander.tool.invocation-snapshot.v2" +:+ code_byte 0 +:+ base
    +:+ code_byte 0 +:+ surface
    +:+ foldr (λ f s, feature_bytes f +:+ s) "" (stable_sort feature_le (elements fs))).

Section invocation.
Context `{J : SerdeJson} `{C : Crates}.

Record ToolInvocationDescriptor := {
  d_name : string;
  d_class : ToolInvocationClass;
  d_recovery_policy : ToolRecoveryPolicy;
  d_input_schema : Value;
}.

#[global] Instance ToolInvocationDescriptor_eq_dec : EqDecision ToolInvocationDescriptor.
Proof. solve_decision. Defined.

Definition descriptor_feature (d : ToolInvocationDescriptor) : CapabilityFeature :=
  {| cf_name := d_name d; cf_kind := Executable (d_class d) (d_recovery_policy d) |}.

Definition from_descriptors (ds : list ToolInvocationDescriptor) : ToolInvocationSnapshot :=
  let features := list_to_set (descriptor_feature <$> ds) in
  {| revision := snapshot_revision "base" "" features; features := features |}.

Definition for_turn (s : ToolInvocationSnapshot) (tool_surface_revision : string)
    (prompt_context_features : list string) : ToolInvocationSnapshot :=
  let fs := features s ∪ list_to_set
    ((λ name, {| cf_name := name; cf_kind := PromptContext |}) <$> prompt_context_features) in
  {| revision := snapshot_revision (revision s) tool_surface_revision fs; features := fs |}.

Definition executable_features (s : ToolInvocationSnapshot) : gset CapabilityFeature :=
  filter (λ f, is_executable f = true) (features s).

(** The filtered iterators of two [BTreeSet]s agree when the sets do. *)
Definition has_same_executable_surface (s other : ToolInvocationSnapshot) : bool :=
  bool_decide (executable_features s = executable_features other).

Definition authorizes (s : ToolInvocationSnapshot) (name : string) (class : ToolInvocationClass)
    (policy : ToolRecoveryPolicy) : bool :=
  bool_decide ({| cf_name := name; cf_kind := Executable class policy |} ∈ features s).

Context {W : Type}.

Record ToolInvocationRequest := {
  ir_invocation_id : string;
  ir_call_id : string;
  route : string;
  class : option ToolInvocationClass;
  ir_recovery_policy : option ToolRecoveryPolicy;
  context : ToolContext W;
  ir_input : Value;
  ir_snapshot : ToolInvocationSnapshot;
}.

Inductive ToolInvocationOutcome := Succeeded | InvocationFailed | TimedOut.

#[local] Instance ToolInvocationOutcome_eq_dec : EqDecision ToolInvocationOutcome.
Proof. solve_decision. Defined.

Inductive ToolInvocationError :=
  | InvocationUnavailable | AccessDenied | AuditUnavailable | ExecutionOutcomeUncertain.

Definition invocation_error_text (e : ToolInvocationError) : string :=
  match e with
  | InvocationUnavailable => "tool capability is unavailable"
  | AccessDenied => "tool capability access denied"
  | AuditUnavailable => "tool capability audit is unavailable"
  | ExecutionOutcomeUncertain => "tool execution outcome is uncertain"
  end.

(** An [AuthorizedToolInvocation]: the grant is its [finish]. *)
Definition Grant : Type := ToolInvocationOutcome → eff W ToolInvocationError unit.

Record ToolInvocationGateway := {
  gateway_snapshot : ToolInvocationSnapshot;
  authorize : ToolInvocationRequest → eff W ToolInvocationError Grant;
}.

(** [contains_owner_selector]; the size of the value bounds the recursion. *)
Definition is_owner_key (key : string) : bool :=
  bool_decide (key ∈ ["owner"; "owner_id"; "user_id"; "agent_id"; "session_id"; "workspace_id"]).

Fixpoint owner_selector_within (fuel : nat) (v : Value) : bool :=
  match fuel with
  | O => false
  | S fuel =>
      match as_object v with
      | Some object =>
          existsb (λ e, is_owner_key e.1 || owner_selector_within fuel e.2) object
      | None =>
          match as_array v with
          | Some values => existsb (owner_selector_within fuel) values
          | None => false
          end
      end
  end.

Definition contains_owner_selector (v : Value) : bool := owner_selector_within (S (json_size v)) v.

(** [RegistryBoundToolGateway]: [new] keeps the last descriptor of a name. *)
Definition descriptor_map (ds : list ToolInvocationDescriptor)
    : gmap string ToolInvocationDescriptor :=
  foldl (λ m d, <[d_name d := d]> m) ∅ ds.

Definition bound_authorize (ds : list ToolInvocationDescriptor) (request : ToolInvocationRequest)
    : res unit ToolInvocationError :=
  class <- ok_or (class request) InvocationUnavailable;;
  recovery_policy <- ok_or (ir_recovery_policy request) InvocationUnavailable;;
  descriptor <- ok_or (descriptor_map ds !! route request) InvocationUnavailable;;
  bail (d_class descriptor != class)
    || (d_recovery_policy descriptor != recovery_policy)
    || negb (uuid_parses (ir_invocation_id request))
    || negb (authorizes (ir_snapshot request) (route request) class recovery_policy)
    || contains_owner_selector (ir_input request) with AccessDenied;;
  Ok tt.

Definition registry_bound_gateway (ds : list ToolInvocationDescriptor) : ToolInvocationGateway :=
  {| gateway_snapshot := from_descriptors ds;
     authorize request :=
       perform eres (bound_authorize ds request);;
       eret (λ _, eret tt) |}.

(** [prepared_input_digest] *)
Definition prepared_input_digest (input : Value) : string :=
  "sha256:" +:+ sha256_hex ("sylvander.tool.prepared-input.v1" +:+ code_byte 0 +:+ json_text input).

(** ** Facts *)

Lemma authorizes_from_descriptors ds name class policy :
  authorizes (from_descriptors ds) name class policy = true ↔
  ∃ d, d ∈ ds ∧ d_name d = name ∧ d_class d = class ∧ d_recovery_policy d = policy.
Proof.
  unfold authorizes, from_descriptors. simpl. rewrite bool_decide_eq_true, elem_of_list_to_set.
  rewrite list_elem_of_fmap. unfold descriptor_feature. split.
  - intros (d & [= -> -> ->] & Hd). eauto.
  - intros (d & Hd & <- & <- & <-). eauto.
Qed.

(** Prompt context never changes what is executable. *)
Lemma for_turn_executable s surface names :
  executable_features (for_turn s surface names) = executable_features s.
Proof.
  unfold executable_features, for_turn. simpl. apply set_eq. intros f.
  rewrite !elem_of_filter, elem_of_union, elem_of_list_to_set, list_elem_of_fmap.
  split; [|naive_solver]. intros (He & [Hf|(name & -> & _)]); [done|]. by cbv in He.
Qed.

Lemma authorizes_executable s name class policy :
  authorizes s name class policy = true ↔
  {| cf_name := name; cf_kind := Executable class policy |} ∈ executable_features s.
Proof.
  unfold authorizes, executable_features. rewrite bool_decide_eq_true, elem_of_filter.
  split; [done|by intros [_ ?]].
Qed.

(** A nested object has a field that selects an owner. *)
Inductive selects_owner : Value → Prop :=
  | OwnerKey v object key x :
      as_object v = Some object → (key, x) ∈ object → is_owner_key key = true → selects_owner v
  | OwnerField v object key x :
      as_object v = Some object → (key, x) ∈ object → selects_owner x → selects_owner v
  | OwnerItem v values x :
      as_array v = Some values → x ∈ values → selects_owner x → selects_owner v.

Lemma owner_selector_within_spec n v :
  json_size v < n → owner_selector_within n v = true ↔ selects_owner v.
Proof.
  revert v. induction n as [|n IH]; intros v Hn; [lia|]. simpl.
  destruct (as_object v) as [object|] eqn:Ho.
  - rewrite existsb_exists. split.
    + intros ([key x] & Hin & Hor). apply list_elem_of_In in Hin. simpl in Hor.
      apply orb_true_iff in Hor as [Hk|Hr]; [by eapply OwnerKey|].
      pose proof (as_object_size _ _ Ho _ _ Hin). eapply OwnerField; [done|done|].
      apply IH; [lia|done].
    + intros Hs. inversion Hs as [? ? key x Ho' Hin Hk|? ? key x Ho' Hin Hx|? values x Ha]; subst;
        [| |by rewrite (as_object_array _ _ Ho) in Ha]; rewrite Ho in Ho'; injection Ho' as <-;
        exists (key, x); (split; [by apply list_elem_of_In|]); simpl; apply orb_true_iff; [by left|].
      right. pose proof (as_object_size _ _ Ho _ _ Hin). apply IH; [lia|done].
  - destruct (as_array v) as [values|] eqn:Ha.
    + rewrite existsb_exists. split.
      * intros (x & Hin & Hr). apply list_elem_of_In in Hin.
        pose proof (as_array_size _ _ Ha _ Hin). eapply OwnerItem; [done|done|]. apply IH; [lia|done].
      * intros Hs. inversion Hs as [|?|? ? x Ha' Hin Hx]; subst; try congruence.
        rewrite Ha in Ha'. injection Ha' as <-. exists x. split; [by apply list_elem_of_In|].
        pose proof (as_array_size _ _ Ha _ Hin). apply IH; [lia|done].
    + split; [done|]. intros Hs. inversion Hs; subst; congruence.
Qed.

Lemma contains_owner_selector_spec v : contains_owner_selector v = true ↔ selects_owner v.
Proof. apply owner_selector_within_spec. lia. Qed.

Lemma descriptor_map_some ds name d : descriptor_map ds !! name = Some d → d ∈ ds ∧ d_name d = name.
Proof.
  unfold descriptor_map.
  assert (∀ m : gmap string ToolInvocationDescriptor, (∀ d, m !! name = Some d → d ∈ ds ∧ d_name d = name) → ∀ l, (∀ d, d ∈ l → d ∈ ds) →
    foldl (λ m d, <[d_name d := d]> m) m l !! name = Some d → d ∈ ds ∧ d_name d = name) as Hgen.
  { intros m Hm l. revert m Hm. induction l as [|x l IH]; intros m Hm Hl; simpl; [apply Hm|].
    apply IH; [|set_solver]. intros d' [[<- <-]|[_ Hd']]%lookup_insert_Some; [|by apply Hm].
    split; [apply Hl; set_solver|done]. }
  apply Hgen; [|done]. intros d'. by rewrite lookup_empty.
Qed.

(** What the exact-route gateway admits. *)
Definition admissible (ds : list ToolInvocationDescriptor) (request : ToolInvocationRequest) : Prop :=
  ∃ d, descriptor_map ds !! route request = Some d ∧
    class request = Some (d_class d) ∧ ir_recovery_policy request = Some (d_recovery_policy d) ∧
    uuid_parses (ir_invocation_id request) = true ∧
    authorizes (ir_snapshot request) (route request) (d_class d) (d_recovery_policy d) = true ∧
    ¬ selects_owner (ir_input request).

Lemma bound_authorize_admissible ds (request : ToolInvocationRequest) :
  bound_authorize ds request = Ok tt ↔ admissible ds request.
Proof.
  unfold bound_authorize, admissible.
  destruct (class request) as [c|]; simpl; [|naive_solver].
  destruct (ir_recovery_policy request) as [p|]; simpl; [|naive_solver].
  destruct (descriptor_map ds !! route request) as [d|]; simpl; [|naive_solver].
  rewrite bail_ok, !orb_false_iff, !negb_false_iff, !bool_decide_eq_true.
  assert (contains_owner_selector (ir_input request) = false ↔ ¬ selects_owner (ir_input request))
    as -> by by rewrite <- contains_owner_selector_spec, not_true_iff_false.
  split.
  - intros (((((H1 & H2) & H3) & H4) & H5) & _). exists d. subst. by split_and!.
  - intros (d' & [= <-] & [= ->] & [= ->] & H3 & H4 & H5). by split_and!.
Qed.

End invocation.

Arguments ToolInvocationRequest {J} W.
Arguments ToolInvocationGateway {J} W.
