(* ===== verification/ToolRegistry.v ===== *)
(** The tool registry, src/sylvander-agent/src/tool/registry.rs: registration,
    dynamic sources, freezing and composition, deferred discovery and lifecycle
    hooks.

    The map of tools is a finite map; where the source walks it the order is
    that of [HashOrder].  [HookedTool] and [ToolSearchTool] are the functions
    [hooked] and [tool_search]; a dynamic source is a function of the world. *)

From S2P Require Import Prelude Json Effects Llm ToolContract ToolInvocation.
From stdpp Require Import base tactics gmap sets strings list pretty fin_maps sorting.
From Stdlib Require Import ZArith Lia Ascii.

Definition TOOL_SEARCH_NAME : string := "tool_search".
Definition MAX_TOOL_SEARCH_MATCHES : nat := 8.
Definition MAX_TOOL_SEARCH_RESULT_BYTES : nat := Z.to_nat (64 * 1024).
Definition MAX_VISIBLE_HOOK_DELTA_CHARS : nat := Z.to_nat 4096.

Definition newline : string := String (ascii_of_nat 10) "".

Record ToolHookConfig := {
  hook_name : string;
  hook_phase : AgentHookPhase;
  command : string;
  timeout_secs : Z;
  blocking : bool;
}.

#[global] Instance ToolHookConfig_eq_dec : EqDecision ToolHookConfig.
Proof. solve_decision. Defined.

Record HookBlocked := {
  hb_hook_name : string;
  hb_phase : string;
}.

Definition hook_blocked_text (b : HookBlocked) : string :=
  "blocking hook `" +:+ hb_hook_name b +:+ "` failed during `" +:+ hb_phase b +:+ "`".

Inductive ToolRegistryCompositionError :=
  | DuplicateRoute (name : string)
  | ExtensionHooks.

#[global] Instance ToolRegistryCompositionError_eq_dec : EqDecision ToolRegistryCompositionError.
Proof. solve_decision. Defined.

Definition hook_phase_name (p : AgentHookPhase) : string :=
  match p with
  | BeforeTool => "before_tool"
  | AfterTool => "after_tool"
  | BeforeTurn => "before_turn"
  | AfterTurn => "after_turn"
  end.

(** [char::is_control] of a UTF-8 character, except line feed, return and tab. *)
Definition hidden_char (c : string) : bool :=
  match c with
  | String a EmptyString =>
      ((byte a <? 32) || (byte a =? 127))%N
      && negb ((byte a =? 10) || (byte a =? 13) || (byte a =? 9))%N
  | String a (String b EmptyString) => ((byte a =? 194) && (128 <=? byte b) && (byte b <=? 159))%N
  | _ => false
  end.

Definition bounded_hook_delta (delta : string) : string :=
  let sanitized := (λ c, if hidden_char c then "�" else c) <$> chars delta in
  let visible := String.concat "" (take MAX_VISIBLE_HOOK_DELTA_CHARS sanitized) in
  if MAX_VISIBLE_HOOK_DELTA_CHARS <? length sanitized
  then visible +:+ newline +:+ "… hook output delta truncated …" +:+ newline
  else visible.

(** Names of serde for the content hash of the tool surface. *)
Definition invocation_class_name (c : ToolInvocationClass) : string :=
  match c with
  | InvocationClass.Read => "read"
  | InvocationClass.FilesystemMutation => "filesystem_mutation"
  | InvocationClass.Terminal => "terminal"
  | InvocationClass.Browser => "browser"
  | InvocationClass.HostControl => "host_control"
  | InvocationClass.ArbitraryMcp => "arbitrary_mcp"
  | InvocationClass.MemoryCandidate => "memory_candidate"
  | InvocationClass.Control => "control"
  | InvocationClass.Extension => "extension"
  end.

Definition recovery_policy_name (p : ToolRecoveryPolicy) : string :=
  match p with
  | NeverReplay => "never_replay"
  | RetryWithSameInvocation => "retry_with_same_invocation"
  | ReconcileBeforeRetry => "reconcile_before_retry"
  end.

Section registry.
Context `{J : SerdeJson} `{C : Crates} {W : Type}.

(** * Hooks *)

Definition blocked (hook : ToolHookConfig) : HookBlocked :=
  {| hb_hook_name := hook_name hook; hb_phase := hook_phase_name (hook_phase hook) |}.

(** A failed hook: it stops the caller when it is blocking. *)
Definition hook_failed (hook : ToolHookConfig) : eff (Progress (W := W)) HookBlocked unit :=
  if blocking hook then efail (blocked hook) else eret tt.

(** [progress.emit(format!("hook {} · {phase} · {status}\n"))] *)
Definition emit_status {E} (hook : ToolHookConfig) (text : string) : eff (Progress (W := W)) E unit :=
  emit ("hook " +:+ hook_name hook +:+ " · " +:+ hook_phase_name (hook_phase hook) +:+ " · "
    +:+ text +:+ newline).

Definition emit_output (chunk : CommandStream * string) : eff (Progress (W := W)) HookBlocked unit :=
  match chunk.1 with
  | Stdout => emit ("hook stdout · " +:+ bounded_hook_delta chunk.2)
  | Stderr => emit ("hook stderr · " +:+ bounded_hook_delta chunk.2)
  end.

(** The world part of the state. *)
Definition on_world {E A} (c : eff W E A) : eff (Progress (W := W)) E A :=
  ezoom fst (λ w s, (w, s.2)) c.

(** One iteration of the loop of [run_configured_hooks]. *)
Definition run_hook (ctx : ToolContext W) (hook : ToolHookConfig)
    : eff (Progress (W := W)) HookBlocked unit :=
  match validate_execution_environment ("hook:" +:+ hook_name hook) process ctx with
  | Ok _ =>
      perform emit_status hook "running";;
      r <~ etry (on_world (run_command_streaming ctx (command hook)
             (Z.max 1 (Z.min (timeout_secs hook) 300))));;
      let decision := if blocking hook then "blocked" else "failed" in
      match r with
      | inl run =>
          perform efor (command_output run) emit_output;;
          if success run then emit_status hook "passed"
          else
            perform emit_status hook (decision +:+ " · exit " +:+
              match status_code run with Some code => pretty code | None => "unknown" end);;
            hook_failed hook
      | inr _ =>
          perform emit_status hook (decision +:+ " · execution error");;
          hook_failed hook
      end
  | _ => hook_failed hook
  end.

Definition run_configured_hooks (hooks : list ToolHookConfig) (phase : AgentHookPhase)
    (ctx : ToolContext W) : eff (Progress (W := W)) HookBlocked unit :=
  efor (filter (λ h, hook_phase h = phase) hooks) (run_hook ctx).

(** [HookedTool] *)
Definition hooked (hooks : list ToolHookConfig) (inner : RegisteredTool W) : RegisteredTool W := {|
  spec := spec inner;
  tool_prepare := tool_prepare inner;
  handle_streaming ctx c :=
    before <~ etry (run_configured_hooks hooks BeforeTool ctx);;
    match before with
    | inr b => eret (output_err (hook_blocked_text b +:+ "; tool `" +:+ ts_name (pc_spec c)
                                 +:+ "` was not executed"))
    | inl _ =>
        result <~ etry (handle_streaming inner ctx c);;
        after <~ etry (run_configured_hooks hooks AfterTool ctx);;
        match after, result with
        | inr b, inl _ => eret (output_err (hook_blocked_text b +:+ "; tool `"
                                 +:+ ts_name (pc_spec c) +:+ "` result was rejected"))
        | inr b, inr _ => efail (ToolOther (hook_blocked_text b))
        | inl _, inl output => eret output
        | inl _, inr e => efail e
        end
    end
|}.

(** * Deferred discovery *)

Definition tool_search_schema : Value :=
  json_object [
    ("type", json_string "object");
    ("properties", json_object [("query", json_object [
      ("type", json_string "string"); ("minLength", json_number 1);
      ("maxLength", json_number 256);
      ("description", json_string
        "Capability words to match against deferred tool names and descriptions")])]);
    ("required", json_array [json_string "query"]);
    ("additionalProperties", json_bool false)].

Definition tool_search_spec : ToolSpec :=
  immediate TOOL_SEARCH_NAME
    "Search deferred tools by capability, then call an exact returned tool name with its JSON schema."
    tool_search_schema InvocationClass.Read.

Definition search_match (s : ToolSpec) : Value :=
  json_object [("name", json_string (ts_name s)); ("description", json_string (description s));
    ("input_schema", input_schema s)].

Definition search_envelope (matches : list Value) (total : nat) : Value :=
  json_object [("matches", json_array matches); ("total_matches", json_number (Z.of_nat total))].

(** The loop that admits matches while the envelope fits. *)
Fixpoint admit_matches (total : nat) (candidates : list ToolSpec) (matches : list Value)
    : list Value :=
  match candidates with
  | [] => matches
  | s :: candidates =>
      let proposed := matches ++ [search_match s] in
      if String.length (json_text (search_envelope proposed total)) <=? MAX_TOOL_SEARCH_RESULT_BYTES
      then admit_matches total candidates proposed
      else matches
  end.

Definition spec_name_le (a b : ToolSpec) : bool := string_le (ts_name a) (ts_name b).

Definition search (deferred : list ToolSpec) (query : string) : list Value * nat :=
  let terms := to_lowercase <$> split_whitespace query in
  let candidates := stable_sort spec_name_le (filter (λ s,
    Is_true (forallb (str_contains
      (to_lowercase (ts_name s +:+ " " +:+ description s +:+ " " +:+ search_hint s))) terms))
    deferred) in
  (admit_matches (length candidates) (take MAX_TOOL_SEARCH_MATCHES candidates) [],
   length candidates).

(** [ToolSearchTool] *)
Definition tool_search (deferred : list (RegisteredTool W)) : RegisteredTool W := {|
  spec := tool_search_spec;
  tool_prepare := prepare_from_spec tool_search_spec;
  handle_streaming _ c :=
    let query := trim <$> get_str (pc_input c) "query" in
    match query with
    | Some query =>
        if negb (bool_decide (query = "")) && (String.length query <=? 256)
        then
          let '(matches, total) := search (spec <$> deferred) query in
          eret (output_ok (json_text (json_object [
            ("matches", json_array matches); ("total_matches", json_number (Z.of_nat total));
            ("returned_matches", json_number (Z.of_nat (length matches)))])))
        else efail (ToolOther "query must contain 1 to 256 bytes")
    | None => efail (ToolOther "query must contain 1 to 256 bytes")
    end
|}.

(** * The registry *)

Notation Tools := (gmap string (RegisteredTool W)).

Record ToolRegistry := {
  tools : Tools;
  dynamic_sources : list (W → list (RegisteredTool W));
  hooks : list ToolHookConfig;
}.

Definition registry_new : ToolRegistry := {| tools := ∅; dynamic_sources := []; hooks := [] |}.

Definition register (r : ToolRegistry) (tool : RegisteredTool W) : ToolRegistry :=
  {| tools := <[ts_name (spec tool) := tool]> (tools r); dynamic_sources := dynamic_sources r;
     hooks := hooks r |}.

Definition register_dynamic_source (r : ToolRegistry) (source : W → list (RegisteredTool W))
    : ToolRegistry :=
  {| tools := tools r; dynamic_sources := dynamic_sources r ++ [source]; hooks := hooks r |}.

Definition with_hooks (r : ToolRegistry) (hs : list ToolHookConfig) : ToolRegistry :=
  {| tools := tools r; dynamic_sources := dynamic_sources r; hooks := hs |}.

Context `{O : !HashOrder}.

(** [into_iter] and [values] of the map, in the order of the [n]-th walk *)
Definition walk (n : nat) (ts : Tools) : list (string * RegisteredTool W) :=
  omap (λ name, pair name <$> ts !! name) (hash_iter n (dom ts)).

Definition is_deferred (tool : RegisteredTool W) : bool := exposure (spec tool) == Deferred.

Definition add_source (w : W) (ts : Tools) (source : W → list (RegisteredTool W)) : Tools :=
  foldl (λ ts tool, <[ts_name (spec tool) := tool]> ts) ts (source w).

Definition unhooked_snapshot (r : ToolRegistry) (w : W) : Tools :=
  let ts := foldl (add_source w) (tools r) (dynamic_sources r) in
  let deferred := filter (λ tool, is_deferred tool = true) (snd <$> walk 0 ts) in
  match deferred with
  | [] => ts
  | _ => <[TOOL_SEARCH_NAME := tool_search deferred]> ts
  end.

Definition snapshot (r : ToolRegistry) (w : W) : Tools :=
  let ts := unhooked_snapshot r w in
  match hooks r with [] => ts | hs => hooked hs <$> ts end.

(** The specifications in the order [sort_by] name gives. *)
Definition sorted_specs (r : ToolRegistry) (w : W) : list ToolSpec :=
  stable_sort spec_name_le ((λ e, spec e.2) <$> walk 1 (snapshot r w)).

Definition descriptor (s : ToolSpec) : ToolInvocationDescriptor :=
  {| d_name := ts_name s; d_class := invocation_class s; d_recovery_policy := recovery_policy s;
     d_input_schema := input_schema s |}.

(** [sort_by] of the descriptors, which have the names of their specifications *)
Definition invocation_descriptors (r : ToolRegistry) (w : W) : list ToolInvocationDescriptor :=
  descriptor <$> sorted_specs r w.

Definition get (r : ToolRegistry) (w : W) (name : string) : option (RegisteredTool W) :=
  snapshot r w !! name.

Definition prepare (r : ToolRegistry) (w : W) (name : string) (input : Value)
    : res (PreparedToolCall W) ToolPrepareError :=
  implementation <- ok_or (get r w name) (Unavailable name);;
  p <- tool_prepare implementation input;;
  Ok {| implementation := implementation;
        call := {| pc_spec := spec implementation; pc_input := tp_input p;
                   pc_execution_mode := tp_execution_mode p;
                   pc_execution_policy := tp_execution_policy p;
                   pc_command_risk := tp_command_risk p |} |}.

(** The [freeze_for_turn] registry; its content revision is a hash of the
    sorted specifications and the hooks. *)
Definition freeze_for_turn (r : ToolRegistry) (w : W) : ToolRegistry :=
  {| tools := unhooked_snapshot r w; dynamic_sources := []; hooks := hooks r |}.

(** The loop of [compose_session_extensions]. *)
Fixpoint insert_extensions (base : Tools) (l : list (string * RegisteredTool W))
    : res Tools ToolRegistryCompositionError :=
  match l with
  | [] => Ok base
  | (name, tool) :: l =>
      bail bool_decide (is_Some (base !! name)) with DuplicateRoute name;;
      insert_extensions (<[name := tool]> base) l
  end.

Definition compose_session_extensions (r extensions : ToolRegistry) (w : W)
    : res ToolRegistry ToolRegistryCompositionError :=
  bail negb (bool_decide (hooks extensions = [])) with ExtensionHooks;;
  let base := freeze_for_turn r w in
  composed <- insert_extensions (tools base) (walk 2 (tools (freeze_for_turn extensions w)));;
  Ok {| tools := composed; dynamic_sources := []; hooks := hooks base |}.

Definition retain_named (r : ToolRegistry) (w : W) (allowed : list string) : ToolRegistry :=
  {| tools := filter (λ e, e.1 ∈ allowed) (unhooked_snapshot r w); dynamic_sources := [];
     hooks := [] |}.

(** Only specifications with guidelines that the model sees contribute. *)
Definition prompt_guidelines_of (r : ToolRegistry) (w : W) : option string :=
  let specs := filter (λ s, exposure s = Immediate ∧ prompt_guidelines s ≠ []) (sorted_specs r w) in
  let lines := specs ≫= λ s,
    (λ g, "- [" +:+ ts_name s +:+ "] " +:+ g) <$> prompt_guidelines s in
  match lines with
  | [] => None
  | _ => Some ("Tool usage guidelines for the active tool set:" +:+ newline
               +:+ String.concat newline lines)
  end.

(** [build_definitions]: the last definition carries the cache breakpoint. *)
Definition wire_definition (s : ToolSpec) : LlmToolDefinition :=
  {| td_name := ts_name s; td_description := description s; td_input_schema := input_schema s;
     td_cache_hint := None |}.

Definition cached (d : LlmToolDefinition) : LlmToolDefinition :=
  {| td_name := td_name d; td_description := td_description d;
     td_input_schema := td_input_schema d; td_cache_hint := Some Ephemeral |}.

Fixpoint cache_last (l : list LlmToolDefinition) : list LlmToolDefinition :=
  match l with
  | [] => []
  | [d] => [cached d]
  | d :: l => d :: cache_last l
  end.

Definition build_definitions (r : ToolRegistry) (w : W) : list LlmToolDefinition :=
  cache_last (wire_definition <$> filter (λ s, exposure s = Immediate) (sorted_specs r w)).

(** [run_turn_hooks]: a panic for a tool phase, and progress is dropped. *)
Definition run_turn_hooks (r : ToolRegistry) (phase : AgentHookPhase) (ctx : ToolContext W)
    : eff W HookBlocked unit :=
  match phase with
  | BeforeTurn | AfterTurn =>
      λ w, let '(s, res) := run_configured_hooks (hooks r) phase ctx (w, []) in (s.1, res)
  | BeforeTool | AfterTool => epanic
  end.

End registry.

Arguments ToolRegistry {J} W.

Section facts.
Context `{J : SerdeJson} `{C : Crates} {W : Type} `{O : !HashOrder}.

Implicit Types (r : ToolRegistry W) (ts : gmap string (RegisteredTool W)).

(** The specifications of a map of tools. *)
Definition specs_of ts : gmap string ToolSpec := spec <$> ts.

Lemma walk_specs n ts :
  (λ e, spec e.2) <$> walk n ts
  = omap (λ name, specs_of ts !! name) (hash_iter n (dom (specs_of ts))).
Proof.
  assert (∀ l : list string, (λ e, spec e.2) <$> omap (λ name, pair name <$> ts !! name) l
    = omap (λ name, specs_of ts !! name) l) as Hl.
  { induction l as [|name l IH]; [done|].
    assert (specs_of ts !! name = spec <$> ts !! name) as Hf
      by apply (lookup_fmap).
    cbn. rewrite Hf. destruct (ts !! name); cbn; [f_equal|]; exact IH. }
  unfold walk. rewrite Hl. do 2 f_equal.
  symmetry. apply dom_fmap_L.
Qed.

Lemma walk_elem n ts name tool : (name, tool) ∈ walk n ts ↔ ts !! name = Some tool.
Proof.
  unfold walk. rewrite list_elem_of_omap. split.
  - intros (x & _ & Hx). destruct (ts !! x) eqn:E; simplify_eq/=. done.
  - intros Hl. exists name. rewrite Hl. split; [|done]. apply elem_of_hash_iter.
    apply (elem_of_dom (D := gset string)). by eexists.
Qed.

Lemma specs_hooked hs ts : specs_of (hooked hs <$> ts) = specs_of ts.
Proof. unfold specs_of. rewrite <- map_fmap_compose. by apply map_fmap_ext. Qed.

Lemma specs_snapshot r w : specs_of (snapshot r w) = specs_of (unhooked_snapshot r w).
Proof. unfold snapshot. destruct (hooks r); [done|]. apply specs_hooked. Qed.

(** The deferred tools of a map, and the map with the discovery tool. *)
Definition deferred_tools ts : list (RegisteredTool W) :=
  filter (λ tool, is_deferred tool = true) (snd <$> walk 0 ts).

Definition with_search ts : gmap string (RegisteredTool W) :=
  match deferred_tools ts with
  | [] => ts
  | _ => <[TOOL_SEARCH_NAME := tool_search (deferred_tools ts)]> ts
  end.

Lemma deferred_tools_elem ts tool :
  tool ∈ deferred_tools ts ↔ is_deferred tool = true ∧ ∃ name, ts !! name = Some tool.
Proof.
  unfold deferred_tools. rewrite list_elem_of_filter, list_elem_of_fmap. split.
  - intros [Hd ([name t] & -> & Hin%walk_elem)]. split; [done|]. by exists name.
  - intros [Hd [name Hn]]. split; [done|]. exists (name, tool). split; [done|]. by apply walk_elem.
Qed.

Lemma unhooked_snapshot_search r w :
  unhooked_snapshot r w = with_search (foldl (add_source w) (tools r) (dynamic_sources r)).
Proof. done. Qed.

(** Every route is the name of its tool. *)
Definition well_keyed (specs : gmap string ToolSpec) : Prop :=
  map_Forall (λ name s, ts_name s = name) specs.

Lemma add_sources_keyed w sources ts :
  well_keyed (specs_of ts) → well_keyed (specs_of (foldl (add_source w) ts sources)).
Proof.
  revert ts. induction sources as [|source sources IH]; intros ts Hts; [done|]. simpl. apply IH.
  unfold add_source. revert ts Hts. induction (source w) as [|tool l IHl]; intros ts Hts; [done|].
  simpl. apply IHl. unfold specs_of, well_keyed. rewrite fmap_insert.
  by apply map_Forall_insert_2.
Qed.

Lemma with_search_keyed ts : well_keyed (specs_of ts) → well_keyed (specs_of (with_search ts)).
Proof.
  intros Hts. unfold with_search. destruct (deferred_tools ts); [done|].
  unfold specs_of, well_keyed. rewrite fmap_insert. by apply map_Forall_insert_2.
Qed.

Lemma snapshot_keyed r w : well_keyed (specs_of (tools r)) → well_keyed (specs_of (snapshot r w)).
Proof.
  intros Hr. rewrite specs_snapshot, unhooked_snapshot_search.
  by apply with_search_keyed, add_sources_keyed.
Qed.

Lemma register_keyed r tool :
  well_keyed (specs_of (tools r)) → well_keyed (specs_of (tools (register r tool))).
Proof.
  intros Hr. unfold well_keyed, specs_of. simpl. rewrite fmap_insert. by apply map_Forall_insert_2.
Qed.

End facts.

(** ** Order of the walk

    Two instances of the hash order, before and after a freeze, give the same
    sorted specifications: names are distinct, so sorting erases the order. *)

Section order.
Context `{J : SerdeJson} `{C : Crates} {W : Type}.

(** Freezing twice adds nothing. *)
Lemma specs_with_search (order order' : HashOrder) (ts : gmap string (RegisteredTool W)) :
  specs_of (with_search (O := order') (with_search (O := order) ts)) = specs_of (with_search (O := order) ts).
Proof.
  unfold with_search at 1.
  destruct (deferred_tools (O := order') (with_search (O := order) ts)) as [|d ds] eqn:E; [done|].
  unfold with_search in *. destruct (deferred_tools (O := order) ts) as [|d' ds'] eqn:E'.
  { assert (d ∈ deferred_tools (O := order') ts) as Hd by (rewrite E; by left).
    apply deferred_tools_elem in Hd. apply (deferred_tools_elem (O := order)) in Hd.
    rewrite E' in Hd. by apply elem_of_nil in Hd. }
  unfold specs_of. rewrite !fmap_insert. simpl.
  apply insert_insert_eq.
Qed.

Definition walk_names (order : HashOrder) (n : nat) (specs : gmap string ToolSpec) : list ToolSpec :=
  omap (λ name, specs !! name) (hash_iter (HashOrder := order) n (dom specs)).

Lemma walk_names_elem order n specs s :
  s ∈ walk_names order n specs ↔ ∃ name, specs !! name = Some s.
Proof.
  unfold walk_names. rewrite list_elem_of_omap. split.
  - intros (name & _ & Hs). by exists name.
  - intros (name & Hs). exists name. split; [|done]. apply elem_of_hash_iter, elem_of_dom. by eexists.
Qed.

Lemma walk_names_perm order order' n n' specs :
  walk_names order n specs ≡ₚ walk_names order' n' specs.
Proof. unfold walk_names. by rewrite !hash_iter_perm. Qed.

Lemma sorted_walk order order' n n' specs :
  well_keyed specs →
  stable_sort spec_name_le (walk_names order n specs)
  = stable_sort spec_name_le (walk_names order' n' specs).
Proof.
  intros Hk. unfold spec_name_le.
  assert (Total (λ a b : ToolSpec, Is_true (string_le (ts_name a) (ts_name b)))) as Htotal
    by (intros a b; apply (string_le_total (ts_name a) (ts_name b))).
  assert (Transitive (λ a b : ToolSpec, Is_true (string_le (ts_name a) (ts_name b)))) as Htrans
    by (intros a b c; apply (string_le_trans (ts_name a) (ts_name b) (ts_name c))).
  apply (StronglySorted_unique_strong (λ a b, Is_true (string_le (ts_name a) (ts_name b)))).
  - intros a b Ha Hb Hab Hba. rewrite !stable_sort_perm in *.
    apply walk_names_elem in Ha as (x & Hx), Hb as (y & Hy).
    assert (x = y) as ->; [|congruence].
    rewrite <- (Hk _ _ Hx), <- (Hk _ _ Hy). by apply (anti_symm (λ a b, Is_true (string_le a b))).
  - by apply (stable_sort_sorted (λ a b : ToolSpec, string_le (ts_name a) (ts_name b))).
  - by apply (stable_sort_sorted (λ a b : ToolSpec, string_le (ts_name a) (ts_name b))).
  - rewrite !stable_sort_perm. apply walk_names_perm.
Qed.

(** The frozen surface, whatever the maps are walked in. *)
Lemma frozen_surface (order order' : HashOrder) (r : ToolRegistry W) w w' :
  well_keyed (specs_of (tools r)) →
  sorted_specs (O := order') (freeze_for_turn (O := order) r w) w' = sorted_specs (O := order) r w.
Proof.
  intros Hr. unfold sorted_specs. rewrite !walk_specs.
  fold (walk_names order' 1 (specs_of (snapshot (O := order') (freeze_for_turn (O := order) r w) w'))).
  fold (walk_names order 1 (specs_of (snapshot (O := order) r w))).
  assert (specs_of (snapshot (O := order') (freeze_for_turn (O := order) r w) w')
    = specs_of (snapshot (O := order) r w)) as ->.
  { rewrite !specs_snapshot, unhooked_snapshot_search. simpl. rewrite unhooked_snapshot_search.
    apply specs_with_search. }
  apply sorted_walk. by apply (snapshot_keyed (O := order)).
Qed.

End order.

Section composition.
Context `{J : SerdeJson} `{C : Crates} {W : Type} `{O : !HashOrder}.

Implicit Types (r : ToolRegistry W) (ts : gmap string (RegisteredTool W)).

(** ** Composition *)

Lemma insert_extensions_ok base l ts :
  insert_extensions base l = Ok ts →
  NoDup l.*1 ∧ (∀ name, name ∈ l.*1 → base !! name = None) ∧
  ∀ name, ts !! name = match list_to_map (M := gmap string (RegisteredTool W)) l !! name with
                       | Some tool => Some tool | None => base !! name end.
Proof.
  revert base. induction l as [|[name tool] l IH]; intros base; simpl.
  - intros [= <-]. split_and!; [constructor|set_solver|]. intros. by rewrite lookup_empty.
  - intros [Hn H]%bail_ok. apply bool_decide_eq_false, eq_None_not_Some in Hn.
    apply IH in H as (Hnd & Hfresh & Hts).
    assert (name ∉ l.*1) as Hnl.
    { intros Hin. specialize (Hfresh name Hin). by rewrite lookup_insert_eq in Hfresh. }
    split_and!.
    + by constructor.
    + intros x [->|Hx]%elem_of_cons; [done|]. specialize (Hfresh x Hx).
      apply (lookup_insert_None) in Hfresh. tauto.
    + intros x. rewrite Hts. destruct (decide (name = x)) as [<-|Hx].
      * rewrite (not_elem_of_list_to_map_1) by done.
        by rewrite !lookup_insert_eq.
      * by rewrite !lookup_insert_ne by done.
Qed.

Lemma insert_extensions_fails (base : gmap string (RegisteredTool W)) l e :
  insert_extensions base l = Err e → ∃ name, e = DuplicateRoute name ∧ name ∈ l.*1 ∧
    (is_Some (base !! name) ∨ ¬ NoDup l.*1).
Proof.
  revert base. induction l as [|[name tool] l IH]; intros base; simpl; [done|].
  unfold bail_if. case_bool_decide as Hd; simpl.
  - intros [= <-]. exists name. split; [done|]. split; [by left|]. by left.
  - intros (x & -> & Hx & Hor)%IH. exists x. split; [done|]. split; [by right|].
    destruct Hor as [Hs|Hs].
    + destruct (decide (name = x)) as [<-|Hne].
      * right. intros Hnd. by inversion Hnd.
      * rewrite lookup_insert_ne in Hs by done. by left.
    + right. intros Hnd. by inversion Hnd.
Qed.

Lemma walk_nodup n ts : NoDup (walk n ts).*1.
Proof.
  unfold walk. induction (NoDup_hash_iter n (dom ts)) as [|x l Hx Hl IH]; [constructor|].
  cbn. destruct (ts !! x) as [tool|]; cbn; [|exact IH]. constructor; [|exact IH].
  intros ([k t] & -> & (y & Hy & Hf)%list_elem_of_omap)%list_elem_of_fmap.
  destruct (ts !! y); by simplify_eq/=.
Qed.

Lemma walk_lookup n ts name : list_to_map (M := gmap string (RegisteredTool W)) (walk n ts) !! name = ts !! name.
Proof.
  apply option_eq. intros tool. rewrite <- elem_of_list_to_map by apply walk_nodup. apply walk_elem.
Qed.

(** Composition succeeds exactly for extensions without hooks whose routes are
    new, and then has the routes of both. *)
Lemma compose_ok r extensions w :
  let base := unhooked_snapshot r w in
  let added := tools (freeze_for_turn extensions w) in
  match compose_session_extensions r extensions w with
  | Ok c =>
      hooks extensions = [] ∧ hooks c = hooks r ∧ dynamic_sources c = [] ∧
      (∀ name, is_Some (added !! name) → base !! name = None) ∧
      ∀ name, tools c !! name = match added !! name with Some t => Some t | None => base !! name end
  | Err ExtensionHooks => hooks extensions ≠ []
  | Err (DuplicateRoute name) => is_Some (base !! name) ∧ is_Some (added !! name)
  | Panic | Diverge => False
  end.
Proof.
  intros base added. unfold compose_session_extensions, bail_if.
  case_bool_decide as Hh; simpl; [|done].
  change (unhooked_snapshot extensions w) with added. change (unhooked_snapshot r w) with base.
  destruct (insert_extensions base (walk 2 added)) as [ts|e| |] eqn:E; simpl.
  - apply insert_extensions_ok in E as (Hnd & Hfresh & Hts). split_and!; try done.
    + intros name [tool Ht]. apply Hfresh. apply list_elem_of_fmap. exists (name, tool).
      split; [done|]. by apply walk_elem.
    + intros name. by rewrite Hts, walk_lookup.
  - apply insert_extensions_fails in E as (name & -> & Hin & [Hs|Hs]).
    + split; [done|]. apply list_elem_of_fmap in Hin as ([k tool] & -> & Hin%walk_elem). by eexists.
    + by destruct (Hs (walk_nodup 2 added)).
  - exfalso. revert E. generalize base. induction (walk 2 added) as [|[k t] l IH]; intros b; simpl; [done|].
    unfold bail_if. case_bool_decide; [done|]. apply IH.
  - exfalso. revert E. generalize base. induction (walk 2 added) as [|[k t] l IH]; intros b; simpl; [done|].
    unfold bail_if. case_bool_decide; [done|]. apply IH.
Qed.

End composition.
