(* ===== verification/ToolExecution.v ===== *)
(** Execution of prepared tools in
    src/sylvander-agent/src/kernel/agent_loop.rs: [execute_registered_tool] and
    the concurrent batch of ordinary tools.

    One execution is a sequence of awaits: authorization, the handler, the
    terminal audit.  [ToolPhase] is where an execution stands between them, so a
    batch of executions under the lock of the batch is an interleaving of their
    steps; which enabled execution moves next is a choice of the host
    ([schedule]).  A handler with its hooks is one step. *)

From S2P Require Import Prelude Json Effects Llm TurnMachine Compression ToolContract.
From S2P Require Import ToolInvocation.
From stdpp Require Import base tactics gmap sets strings list pretty.
From Stdlib Require Import ZArith Lia.

Record ToolExecutionOutcome := {
  te_output : string;
  te_is_error : bool;
  timed_out_after : option Z;
  te_failure_kind : option ToolFailureKind;
}.

#[global] Instance ToolExecutionOutcome_eq_dec : EqDecision ToolExecutionOutcome.
Proof. solve_decision. Defined.

Definition failed_outcome (output : string) : ToolExecutionOutcome :=
  {| te_output := output; te_is_error := true; timed_out_after := None;
     te_failure_kind := Some Unclassified |}.

(** [Duration::as_secs] of a duration in nanoseconds *)
Definition as_secs (d : Z) : Z := d / 1000000000.

Section execution.
Context `{J : SerdeJson} `{C : Crates} {W : Type}.

(** What the executor of the futures decides: whether a deadline passes before
    a future completes (and the world the cancelled future leaves), which
    progress deltas pass the bounded channel and whether one was dropped, and
    which of the enabled executions of a batch runs next. *)
Class Scheduler := {
  expires : Z → W → option W;
  deliver_progress : list string → W → W * (list string * bool);
  schedule : W → nat
}.

Context `{Sched : Scheduler}.

(** [RegisteredToolExecutionRequest] without the progress sink *)
Record ExecutionRequest := {
  er_prepared_call : PreparedToolCall W + ToolPrepareError;
  er_gateway : ToolInvocationGateway W;
  er_snapshot : ToolInvocationSnapshot;
  er_context : ToolContext W;
  er_call_id : string;
  er_invocation_id : string;
  er_route : string;
  er_timeout : option Z;
}.

Inductive ToolPhase :=
  | Waiting
  | Authorizing (call : PreparedToolCall W)
  | Executing (call : PreparedToolCall W) (grant : Grant (W := W))
  | Finishing (grant : Grant (W := W)) (outcome : ToolExecutionOutcome)
      (terminal : ToolInvocationOutcome)
  | Done (outcome : ToolExecutionOutcome).

Definition tool_context (r : ExecutionRequest) : ToolContext W :=
  with_invocation_call_id (er_context r) (er_call_id r).

(** The authorization request for a prepared call. *)
Definition invocation_request (r : ExecutionRequest) (call : PreparedToolCall W)
    : ToolInvocationRequest W :=
  {| ir_invocation_id := er_invocation_id r; ir_call_id := er_call_id r; route := er_route r;
     class := Some (invocation_class (pc_spec (ToolContract.call call)));
     ir_recovery_policy := Some (recovery_policy (pc_spec (ToolContract.call call)));
     context := tool_context r; ir_input := pc_input (ToolContract.call call);
     ir_snapshot := er_snapshot r |}.

(** A failed preparation ends the execution. *)
Definition begin (r : ExecutionRequest) : ToolPhase :=
  match er_prepared_call r with
  | inl call => Authorizing call
  | inr e => Done (failed_outcome (prepare_error_text e))
  end.

Definition authorize_step (r : ExecutionRequest) (call : PreparedToolCall W)
    : eff W Empty_set ToolPhase :=
  granted <~ etry (authorize (er_gateway r) (invocation_request r call));;
  match granted with
  | inl grant => eret (Executing call grant)
  | inr e => eret (Done (failed_outcome ("tool authorization failed: " +:+ invocation_error_text e)))
  end.

(** The handler, on the world and the progress. *)
Definition handler (r : ExecutionRequest) (call : PreparedToolCall W)
    : eff W Empty_set (list string * (ToolOutput + ToolError)) := λ w,
  let '((w, deltas), result) := execute_streaming call (tool_context r) (w, []) in
  match result with
  | Ok output => (w, Ok (deltas, inl output))
  | Err e => (w, Ok (deltas, inr e))
  | Panic => (w, Panic)
  | Diverge => (w, Diverge)
  end.

(** [tokio::time::timeout]: a future that never completes times out, too. *)
Definition within {A} (d : Z) (c : eff W Empty_set A) : eff W Empty_set (option A) := λ w,
  match c w with
  | (w', Diverge) => (w', Ok None)
  | (w', Panic) => (w', Panic)
  | (w', Err e) => (w', Err e)
  | (w', Ok a) =>
      match expires d w with Some w'' => (w'', Ok None) | None => (w', Ok (Some a)) end
  end.

Definition run_handler (r : ExecutionRequest) (call : PreparedToolCall W)
    : eff W Empty_set (option (list string * (ToolOutput + ToolError))) :=
  match er_timeout r with
  | Some d => within d (handler r call)
  | None => result <~ handler r call;; eret (Some result)
  end.

(** The outcome of the handler and the terminal state that is audited. *)
Definition conclude (r : ExecutionRequest) (result : option (ToolOutput + ToolError))
    : ToolExecutionOutcome * ToolInvocationOutcome :=
  match result with
  | None =>
      ({| te_output := "tool `" +:+ er_route r +:+ "` timed out after "
            +:+ pretty (as_secs (default 0%Z (er_timeout r))) +:+ "s";
          te_is_error := true; timed_out_after := er_timeout r;
          te_failure_kind := Some Unclassified |}, TimedOut)
  | Some (inl output) =>
      ({| te_output := output_content output; te_is_error := output_is_error output;
          timed_out_after := None; te_failure_kind := failure_kind output |},
       if output_is_error output then InvocationFailed else Succeeded)
  | Some (inr e) =>
      (failed_outcome ("tool execution failed: " +:+ tool_error_text e), InvocationFailed)
  end.

Definition execute_step (r : ExecutionRequest) (call : PreparedToolCall W)
    (grant : Grant (W := W)) : eff W Empty_set (ToolPhase * list string) :=
  match validate_environment call (tool_context r) with
  | Err e => eret (Finishing grant (failed_outcome (environment_error_text e)) InvocationFailed, [])
  | _ =>
      result <~ run_handler r call;;
      let '(outcome, terminal) := conclude r (snd <$> result) in
      eret (Finishing grant outcome terminal, default [] (fst <$> result))
  end.

Definition finish_step (grant : Grant (W := W)) (outcome : ToolExecutionOutcome)
    (terminal : ToolInvocationOutcome) : eff W Empty_set ToolPhase :=
  audited <~ etry (grant terminal);;
  match audited with
  | inl _ => eret (Done outcome)
  | inr e =>
      eret (Done {| te_output := invocation_error_text e; te_is_error := true;
                    timed_out_after := timed_out_after outcome;
                    te_failure_kind := Some Unclassified |})
  end.

(** One await of an execution. *)
Definition tool_step (r : ExecutionRequest) (p : ToolPhase)
    : eff W Empty_set (ToolPhase * list string) :=
  match p with
  | Waiting => eret (begin r, [])
  | Authorizing call => p <~ authorize_step r call;; eret (p, [])
  | Executing call grant => execute_step r call grant
  | Finishing grant outcome terminal => p <~ finish_step grant outcome terminal;; eret (p, [])
  | Done outcome => eret (Done outcome, [])
  end.

(** How many steps are left at most. *)
Definition rank (p : ToolPhase) : nat :=
  match p with
  | Waiting => 4 | Authorizing _ => 3 | Executing _ _ => 2 | Finishing _ _ _ => 1 | Done _ => 0
  end.

(** [execute_registered_tool]: the steps one after the other, with the deltas
    that passed the channel and whether one was dropped. *)
Fixpoint run_steps (n : nat) (r : ExecutionRequest) (p : ToolPhase)
    : eff W Empty_set (ToolExecutionOutcome * list string) :=
  match p, n with
  | Done outcome, _ => eret (outcome, [])
  | _, O => epanic
  | _, S n =>
      '(p, deltas) <~ tool_step r p;;
      '(outcome, deltas') <~ run_steps n r p;;
      eret (outcome, deltas ++ deltas')
  end.

Definition execute_registered_tool (r : ExecutionRequest)
    : eff W Empty_set (ToolExecutionOutcome * (list string * bool)) :=
  '(outcome, deltas) <~ run_steps 4 r Waiting;;
  delivered <~ (λ w, let '(w, d) := deliver_progress deltas w in (w, Ok d));;
  eret (outcome, delivered).

(** * The batch *)

Inductive ParallelToolOutcome :=
  | Executed (outcome : ToolExecutionOutcome)
  | Rejected (reason : string).

(** One future of the batch: an execution with its lock mode and phase, or a
    rejected call. *)
Inductive Task :=
  | ToolTask (r : ExecutionRequest) (mode : ToolExecutionMode) (p : ToolPhase) (omitted : bool)
  | RejectedTask (reason : string).

Record Thread := {
  th_id : string;
  th_name : string;
  th_task : Task;
}.

(** Whether a future holds the lock: between [read]/[write] and its end. *)
Definition holds (t : Thread) : bool :=
  match th_task t with
  | ToolTask _ _ (Authorizing _ | Executing _ _ | Finishing _ _ _) _ => true
  | _ => false
  end.

Definition mode_of (t : Thread) : ToolExecutionMode :=
  match th_task t with ToolTask _ mode _ _ => mode | RejectedTask _ => Parallel end.

Definition finished (t : Thread) : bool :=
  match th_task t with
  | ToolTask _ _ (Done _) _ | RejectedTask _ => true
  | _ => false
  end.

Definition waiting (t : Thread) : bool :=
  match th_task t with ToolTask _ _ Waiting _ => true | _ => false end.

(** The [RwLock]: a reader is admitted unless a writer holds the lock, a writer
    unless anybody does. *)
Definition admitted (threads : list Thread) (t : Thread) : bool :=
  match mode_of t with
  | Parallel => negb (existsb (λ o, holds o && (mode_of o == Exclusive)) threads)
  | Exclusive => negb (existsb holds threads)
  end.

Definition enabled (threads : list Thread) (t : Thread) : bool :=
  negb (finished t) && (negb (waiting t) || admitted threads t).

Definition enabled_indices (threads : list Thread) : list nat :=
  omap id (imap (λ i t, if enabled threads t then Some i else None) threads).

(** A delta of a running tool, as the outer stream sees it. *)
Definition Delta : Type := string * string * string.

(** The step of the [i]-th future. *)
Definition thread_step (t : Thread) : eff W Empty_set (Thread * list Delta) :=
  match th_task t with
  | RejectedTask _ => eret (t, [])
  | ToolTask r mode p omitted =>
      '(p, deltas) <~ tool_step r p;;
      '(delivered, dropped) <~ (λ w, let '(w, d) := deliver_progress deltas w in (w, Ok d));;
      eret ({| th_id := th_id t; th_name := th_name t;
               th_task := ToolTask r mode p (omitted || dropped) |},
            (λ d, (th_id t, th_name t, d)) <$> delivered)
  end.

Definition thread_rank (t : Thread) : nat :=
  match th_task t with ToolTask _ _ p _ => rank p | RejectedTask _ => 0 end.

Definition batch_rank (threads : list Thread) : nat := sum_list_with thread_rank threads.

(** [join_all] of the batch, with the progress in the order it arrives. *)
Fixpoint run_batch (n : nat) (threads : list Thread)
    : eff W Empty_set (list Thread * list Delta) :=
  match enabled_indices threads with
  | [] => eret (threads, [])
  | i0 :: indices =>
      match n with
      | O => epanic
      | S n =>
          k <~ (λ w, (w, Ok (schedule w)));;
          let i := default i0 ((i0 :: indices) !! (k mod length (i0 :: indices))) in
          match threads !! i with
          | None => epanic
          | Some t =>
              '(t, deltas) <~ thread_step t;;
              '(threads, deltas') <~ run_batch n (<[i := t]> threads);;
              eret (threads, deltas ++ deltas')
          end
      end
  end.

(** The result of a future that is over. *)
Definition thread_outcome (t : Thread) : option (string * string * ParallelToolOutcome * bool) :=
  match th_task t with
  | ToolTask _ _ (Done outcome) omitted => Some (th_id t, th_name t, Executed outcome, omitted)
  | RejectedTask reason => Some (th_id t, th_name t, Rejected reason, false)
  | _ => None
  end.

Definition execute_batch (threads : list Thread)
    : eff W Empty_set (list (string * string * ParallelToolOutcome * bool) * list Delta) :=
  '(threads, deltas) <~ run_batch (batch_rank threads) threads;;
  eret (omap thread_outcome threads, deltas).

(** * Facts *)

Lemma tool_step_rank r p w w' p' deltas :
  tool_step r p w = (w', Ok (p', deltas)) → rank p' < rank p ∨ (rank p = 0 ∧ p' = p).
Proof.
  destruct p as [|call|call grant|grant outcome terminal|outcome]; simpl.
  - unfold eret. intros [= _ <- _]. left. unfold begin.
    destruct (er_prepared_call r); simpl; lia.
  - intros (q & w1 & Hq & Hr)%ebind_ok. unfold eret in Hr. simplify_eq. left.
    apply ebind_ok in Hq as (g & w2 & _ & Hg). destruct g; unfold eret in Hg; simplify_eq/=; lia.
  - unfold execute_step. intros Hex. left.
    assert (∃ g o t, p' = Finishing g o t) as (g & o & t & ->); [|simpl; lia].
    destruct (validate_environment call (tool_context r)) as [[]|e| |];
      try (unfold eret in Hex; simplify_eq; by eauto);
      apply ebind_ok in Hex as (result & w2 & _ & Hk);
      destruct (conclude r (snd <$> result)) as [o t]; unfold eret in Hk; simplify_eq; by eauto.
  - intros (q & w1 & Hq & Hr)%ebind_ok. unfold eret in Hr. simplify_eq. left.
    apply ebind_ok in Hq as (g & w2 & _ & Hg). destruct g; unfold eret in Hg; simplify_eq/=; lia.
  - unfold eret. intros [= _ <- _]. by right.
Qed.

Lemma thread_step_rank t w w' t' deltas :
  thread_step t w = (w', Ok (t', deltas)) → finished t = false →
  thread_rank t' < thread_rank t ∧ th_id t' = th_id t ∧ th_name t' = th_name t ∧
  mode_of t' = mode_of t.
Proof.
  unfold thread_step, thread_rank, finished, mode_of. destruct (th_task t) as [r mode p om|reason]; [|done].
  intros ([p' ds] & w1 & Hp & Hk)%ebind_ok Hf. apply ebind_ok in Hk as ([dl dr] & w2 & _ & Hk).
  unfold eret in Hk. simplify_eq/=. split_and!; try done.
  apply tool_step_rank in Hp as [?|[Hr ->]]; [done|]. by destruct p.
Qed.

Lemma batch_rank_insert threads i t t' :
  threads !! i = Some t → thread_rank t' < thread_rank t →
  batch_rank (<[i := t']> threads) < batch_rank threads.
Proof.
  unfold batch_rank. revert i. induction threads as [|x l IH]; intros [|i] Hi Hr; simplify_eq/=; [lia|].
  specialize (IH i Hi Hr). lia.
Qed.

Lemma elem_of_enabled_indices threads i :
  i ∈ enabled_indices threads ↔ ∃ t, threads !! i = Some t ∧ enabled threads t = true.
Proof.
  unfold enabled_indices. rewrite list_elem_of_omap. split.
  - intros (o & Ho & Heq). simpl in Heq. subst o. apply list_elem_of_lookup in Ho as [j Hj].
    rewrite list_lookup_imap in Hj. destruct (threads !! j) as [t|] eqn:Et; simplify_eq/=.
    case_match; simplify_eq. by eauto.
  - intros (t & Ht & He). exists (Some i). split; [|done]. apply list_elem_of_lookup. exists i.
    rewrite list_lookup_imap, Ht. simpl. by rewrite He.
Qed.

(** Progress: while a future is not over, some future is enabled. *)
Lemma enabled_exists threads t :
  t ∈ threads → finished t = false → enabled_indices threads ≠ [].
Proof.
  intros Ht Hf Hnone.
  assert (∀ o, o ∈ threads → enabled threads o = false) as Hall.
  { intros o Ho. destruct (enabled threads o) eqn:E; [|done].
    apply list_elem_of_lookup in Ho as [i Hi].
    assert (i ∈ enabled_indices threads) as Hin by (apply elem_of_enabled_indices; eauto).
    rewrite Hnone in Hin. by apply elem_of_nil in Hin. }
  assert (existsb holds threads = false) as Hholds.
  { apply not_true_is_false. intros (o & Ho & Hh)%existsb_exists. apply list_elem_of_In in Ho.
    specialize (Hall o Ho). revert Hall Hh. unfold enabled, holds, finished, waiting.
    destruct (th_task o) as [? ? [] ?|]; done. }
  specialize (Hall t Ht). revert Hall. unfold enabled, admitted. rewrite Hf, Hholds. simpl.
  rewrite orb_false_iff. intros [_ Hadm]. destruct (mode_of t); [|done].
  rewrite negb_false_iff in Hadm. apply existsb_exists in Hadm as (o & Ho & Hh).
  apply andb_true_iff in Hh as [Hh _].
  apply not_true_iff_false in Hholds. apply Hholds. apply existsb_exists. eauto.
Qed.

Lemma run_batch_unfold n threads :
  run_batch n threads =
  match enabled_indices threads with
  | [] => eret (threads, [])
  | i0 :: indices =>
      match n with
      | O => epanic
      | S n =>
          k <~ (λ w, (w, Ok (schedule w)));;
          let i := default i0 ((i0 :: indices) !! (k mod length (i0 :: indices))) in
          match threads !! i with
          | None => epanic
          | Some t =>
              '(t, deltas) <~ thread_step t;;
              '(threads, deltas') <~ run_batch n (<[i := t]> threads);;
              eret (threads, deltas ++ deltas')
          end
      end
  end.
Proof. destruct n; done. Qed.

(** What a scheduler picks is an enabled future. *)
Lemma pick_enabled threads i0 indices k :
  enabled_indices threads = i0 :: indices →
  ∃ t, threads !! (default i0 ((i0 :: indices) !! (k mod length (i0 :: indices)))) = Some t ∧
    enabled threads t = true.
Proof.
  intros He. apply elem_of_enabled_indices. rewrite He.
  destruct ((i0 :: indices) !! (k mod length (i0 :: indices))) as [i|] eqn:Ei; simpl.
  - by eapply list_elem_of_lookup_2.
  - apply elem_of_cons. by left.
Qed.

(** Rule for a batch: an invariant of the futures that every step of an enabled
    one keeps holds at the end, where all are over. *)
Lemma run_batch_rule (I : W → list Thread → list Delta → Prop) n threads ds :
  (∀ w threads ds i t w' t' ds', I w threads ds → threads !! i = Some t → enabled threads t = true →
    thread_step t w = (w', Ok (t', ds')) → I w' (<[i := t']> threads) (ds ++ ds')) →
  batch_rank threads ≤ n →
  ∀ w w' threads' ds', I w threads ds → run_batch n threads w = (w', Ok (threads', ds')) →
  I w' threads' (ds ++ ds') ∧ Forall (λ t, finished t = true) threads'.
Proof.
  intros Hstep. revert threads ds. induction n as [|n IH]; intros threads ds Hn w w' threads' ds' HI;
    rewrite run_batch_unfold; destruct (enabled_indices threads) as [|i0 indices] eqn:He;
    try (unfold eret; intros [= <- <- <-]; rewrite app_nil_r; split; [done|];
      apply Forall_forall; intros t Ht; destruct (finished t) eqn:Hf; [done|];
      by destruct (enabled_exists threads t Ht Hf)); try done.
  intros (k & w1 & Hk & Hrun)%ebind_ok. injection Hk as <- <-.
  destruct (pick_enabled threads i0 indices (schedule w) He) as (t & Ht & Hen).
  cbv zeta in Hrun. rewrite Ht in Hrun.
  apply ebind_ok in Hrun as ([t1 d1] & w1 & Hts & Hrun).
  apply ebind_ok in Hrun as ([ths d2] & w2 & Hrun & Hr). unfold eret in Hr. simplify_eq.
  rewrite app_assoc. eapply IH; [| |exact Hrun].
  - destruct (thread_step_rank _ _ _ _ _ Hts) as [Hlt _].
    { unfold enabled in Hen. by destruct (finished t). }
    pose proof (batch_rank_insert _ _ _ _ Ht Hlt). lia.
  - by eapply Hstep.
Qed.

(** The lock: an exclusive execution that holds it is alone. *)
Definition exclusive (threads : list Thread) : Prop :=
  ∀ i j t u, threads !! i = Some t → threads !! j = Some u → i ≠ j →
    holds t = true → holds u = true → mode_of t = Parallel ∧ mode_of u = Parallel.

Lemma thread_step_holds threads i t w w' t' ds :
  threads !! i = Some t → enabled threads t = true → thread_step t w = (w', Ok (t', ds)) →
  exclusive threads → exclusive (<[i := t']> threads).
Proof.
  intros Hi Hen Hts Hex.
  destruct (thread_step_rank _ _ _ _ _ Hts) as (_ & _ & _ & Hmode).
  { unfold enabled in Hen. by destruct (finished t). }
  assert (∀ j u, threads !! j = Some u → j ≠ i → holds t' = true → holds u = true →
    mode_of t' = Parallel ∧ mode_of u = Parallel) as Hkey.
  { intros j u Hj Hne Ht' Hu. destruct (waiting t) eqn:Hw.
    - unfold enabled in Hen. rewrite Hw, orb_false_l in Hen. apply andb_true_iff in Hen as [_ Hadm].
      unfold admitted in Hadm. rewrite Hmode.
      destruct (mode_of t); rewrite negb_true_iff in Hadm; apply not_true_iff_false in Hadm.
      + split; [done|]. destruct (mode_of u) eqn:Hmu; [done|]. destruct Hadm. apply existsb_exists.
        exists u. split; [by eapply list_elem_of_In, list_elem_of_lookup_2|].
        by rewrite Hu, Hmu.
      + destruct Hadm. apply existsb_exists. exists u.
        split; [by eapply list_elem_of_In, list_elem_of_lookup_2|done].
    - assert (holds t = true) as Hht.
      { unfold enabled in Hen. rewrite Hw in Hen. revert Hen Hw. unfold finished, waiting, holds.
        by destruct (th_task t) as [? ? [] ?|]. }
      rewrite Hmode. by apply (Hex i j). }
  intros a b x y Ha Hb Hab Hx Hy.
  apply list_lookup_insert_Some in Ha as [(<- & <- & _)|[Hai Ha]];
    apply list_lookup_insert_Some in Hb as [(<- & <- & _)|[Hbi Hb]]; [done| | |].
  - by eapply Hkey.
  - destruct (Hkey a x Ha ltac:(done) Hy Hx). done.
  - by apply (Hex a b).
Qed.

End execution.

Arguments Scheduler W : clear implicits.
Arguments ExecutionRequest {J} W.
Arguments Thread {J} W.

Section facts.
Context `{J : SerdeJson} `{C : Crates} {W : Type} `{HS : !Scheduler W} (panics hangs : Prop).

Notation calm := (Effects.calm panics hangs).

Definition handler_calm (c : PreparedToolCall W) : Prop :=
  ∀ ctx, calm (execute_streaming c ctx).

Definition grant_calm (g : Grant (W := W)) : Prop := ∀ t, calm (g t).

Record gateway_calm (g : ToolInvocationGateway W) : Prop := {
  gc_authorize : ∀ r, calm (authorize g r);
  gc_grant : ∀ r w w' grant, authorize g r w = (w', Ok grant) → grant_calm grant;
}.

Definition prepared_calm (p : PreparedToolCall W + ToolPrepareError) : Prop :=
  match p with inl c => handler_calm c | inr _ => True end.

Record request_calm (r : ExecutionRequest W) : Prop := {
  rc_gateway : gateway_calm (er_gateway r);
  rc_prepared : prepared_calm (er_prepared_call r);
}.

Definition phase_calm (p : ToolPhase) : Prop :=
  match p with
  | Authorizing c => handler_calm c
  | Executing c g => handler_calm c ∧ grant_calm g
  | Finishing g _ _ => grant_calm g
  | Waiting | Done _ => True
  end.

Lemma handler_step_calm r c : handler_calm c → calm (handler r c).
Proof.
  intros Hc w. unfold handler. specialize (Hc (tool_context r) (w, [])).
  by destruct (execute_streaming c (tool_context r) (w, [])) as [[w' ds] [a|e| |]].
Qed.

Lemma within_calm {A} d (c : eff W Empty_set A) : calm c → calm (within d c).
Proof.
  intros Hc w. unfold within. specialize (Hc w). destruct (c w) as [w' [a|e| |]]; try done.
  by destruct (expires d w).
Qed.

Lemma run_handler_calm r c : handler_calm c → calm (run_handler r c).
Proof.
  intros Hc. unfold run_handler. destruct (er_timeout r); [by apply within_calm, handler_step_calm|].
  apply calm_bind; [by apply handler_step_calm|]. intros. apply calm_ret.
Qed.

(** A step of a calm execution is calm, and leaves a calm phase. *)
Lemma tool_step_calm r p : request_calm r → phase_calm p → calm (tool_step r p).
Proof.
  intros [[Ha Hg] Hp] Hph. destruct p as [|c|c g|g o t|o]; simpl in *.
  - apply calm_ret.
  - apply calm_bind; [|intros; apply calm_ret]. unfold authorize_step.
    apply calm_bind; [by apply calm_try|]. intros ?? [] _; apply calm_ret.
  - destruct Hph as [Hc _]. unfold execute_step. destruct (validate_environment _ _) as [u|e| |];
      try apply calm_ret; (apply calm_bind; [by apply run_handler_calm|]; intros ?? res _;
      destruct (conclude r (snd <$> res)); apply calm_ret).
  - apply calm_bind; [|intros; apply calm_ret]. unfold finish_step.
    apply calm_bind; [by apply calm_try|]. intros ?? [] _; apply calm_ret.
  - apply calm_ret.
Qed.

Lemma tool_step_phase_calm r p w w' p' ds :
  request_calm r → phase_calm p → tool_step r p w = (w', Ok (p', ds)) → phase_calm p'.
Proof.
  intros [[Ha Hg] Hp] Hph. destruct p as [|c|c g|g o t|o]; simpl in *.
  - unfold eret, begin, prepared_calm in *. intros [= _ <- _].
    by destruct (er_prepared_call r).
  - intros (q & w1 & Hq & Hr)%ebind_ok. unfold eret in Hr. simplify_eq.
    apply ebind_ok in Hq as (res & w2 & Hres & Hk). unfold etry in Hres.
    destruct (authorize (er_gateway r) (invocation_request r c) w) as [w3 [grant|e| |]] eqn:E;
      simplify_eq; unfold eret in Hk; simplify_eq; simpl; [|done].
    split; [done|]. by eapply Hg.
  - destruct Hph as [Hc Hgr]. unfold execute_step. intros Hex.
    destruct (validate_environment c (tool_context r)) as [u|e| |];
      try (unfold eret in Hex; simplify_eq; done);
      apply ebind_ok in Hex as (res & w2 & _ & Hk);
      destruct (conclude r (snd <$> res)) as [o t]; unfold eret in Hk; by simplify_eq.
  - intros (q & w1 & Hq & Hr)%ebind_ok. unfold eret in Hr. simplify_eq.
    apply ebind_ok in Hq as (res & w2 & _ & Hk). destruct res; unfold eret in Hk; by simplify_eq.
  - unfold eret. by intros [= _ <- _].
Qed.

Lemma run_steps_S n r p :
  (∀ o, p ≠ Done o) →
  run_steps (S n) r p =
  ('(p, deltas) <~ tool_step r p;;
   '(outcome, deltas') <~ run_steps n r p;;
   eret (outcome, deltas ++ deltas')).
Proof. intros Hp. destruct p; try done. by destruct (Hp outcome). Qed.

Lemma run_steps_calm n r p :
  request_calm r → phase_calm p → rank p ≤ n → calm (run_steps n r p).
Proof.
  intros Hr. revert p. induction n as [|n IH]; intros p Hp Hn.
  { destruct p; simpl in *; try lia. apply calm_ret. }
  destruct (rank p) eqn:Erank; [destruct p; simpl in *; try done; apply calm_ret|].
  rewrite run_steps_S by (intros o ->; done).
  apply calm_bind; [by apply tool_step_calm|]. intros w w' [p' ds] Hs.
  apply calm_bind; [|intros ?? [??] _; apply calm_ret].
  apply IH; [by eapply tool_step_phase_calm|].
  apply tool_step_rank in Hs as [?|[Hz _]]; [lia|congruence].
Qed.

Lemma execute_registered_tool_calm r : request_calm r → calm (execute_registered_tool r).
Proof.
  intros Hr. unfold execute_registered_tool. apply calm_bind; [by apply run_steps_calm|].
  intros ?? [o ds] _. apply calm_bind; [|intros; apply calm_ret].
  intros w. by destruct (deliver_progress ds w).
Qed.

(** ** The batch *)

Definition thread_calm (t : Thread W) : Prop :=
  match th_task t with
  | ToolTask r _ p _ => request_calm r ∧ phase_calm p
  | RejectedTask _ => True
  end.

Lemma thread_step_calm t : thread_calm t → calm (thread_step t).
Proof.
  unfold thread_calm, thread_step. destruct (th_task t) as [r m p om|reason]; [|intros; apply calm_ret].
  intros [Hr Hp]. apply calm_bind; [by apply tool_step_calm|]. intros ?? [p' ds] _.
  apply calm_bind; [|intros ?? [??] _; apply calm_ret]. intros w. by destruct (deliver_progress ds w).
Qed.

Lemma thread_step_keeps_calm t w w' t' ds :
  thread_calm t → thread_step t w = (w', Ok (t', ds)) → thread_calm t'.
Proof.
  unfold thread_calm, thread_step. destruct (th_task t) as [r m p om|reason] eqn:Et.
  - intros [Hr Hp] Hs. apply ebind_ok in Hs as ([p' d] & w1 & Hs & Hk).
    apply ebind_ok in Hk as ([dl dr] & w2 & _ & Hk). unfold eret in Hk. simplify_eq/=.
    split; [done|]. by eapply tool_step_phase_calm.
  - intros _ Hs. unfold eret in Hs. simplify_eq. by rewrite Et.
Qed.

Lemma enabled_unfinished threads (t : Thread W) : enabled threads t = true → finished t = false.
Proof. unfold enabled. by destruct (finished t). Qed.

Lemma run_batch_calm n threads :
  Forall thread_calm threads → batch_rank threads ≤ n → calm (run_batch n threads).
Proof.
  revert threads. induction n as [|n IH]; intros threads Ht Hn; rewrite run_batch_unfold;
    destruct (enabled_indices threads) as [|i0 indices] eqn:He; try apply calm_ret.
  - assert (∃ t, threads !! i0 = Some t ∧ enabled threads t = true) as (t & Hi & Hen)
      by (apply elem_of_enabled_indices; rewrite He; set_solver).
    apply enabled_unfinished in Hen. exfalso. clear He.
    assert (0 < thread_rank t) as Hr.
    { unfold finished, thread_rank in *. destruct (th_task t) as [?? [] ?|]; simpl in *; try done; lia. }
    revert Hn. unfold batch_rank. rewrite Nat.le_0_r.
    revert i0 Hi. induction threads as [|x l IHl]; intros [|i] Hi; simplify_eq/=; [lia|].
    inversion Ht; subst. intros Hz. eapply IHl; eauto. lia.
  - apply calm_bind; [done|]. intros w w1 k _. cbv zeta.
    destruct (pick_enabled threads i0 indices k He) as (t & Hi & Hen). rewrite Hi.
    rewrite Forall_forall in Ht. pose proof (list_elem_of_lookup_2 _ _ _ Hi) as Hin.
    apply calm_bind; [by apply thread_step_calm, Ht|]. intros w2 w3 [t' ds] Hts.
    destruct (thread_step_rank _ _ _ _ _ Hts (enabled_unfinished _ _ Hen)) as [Hlt _].
    pose proof (batch_rank_insert _ _ _ _ Hi Hlt).
    apply calm_bind; [|intros ?? [??] _; apply calm_ret]. apply IH; [|lia].
    apply Forall_insert; [by apply Forall_forall|]. eapply thread_step_keeps_calm; eauto.
Qed.

Lemma execute_batch_calm threads : Forall thread_calm threads → calm (execute_batch threads).
Proof.
  intros Ht. unfold execute_batch. apply calm_bind; [by apply run_batch_calm|].
  intros ?? [??] _. apply calm_ret.
Qed.

End facts.

Section outcomes.
Context `{J : SerdeJson} `{C : Crates} {W : Type} `{HS : !Scheduler W}.

Definition outcome_id (o : string * string * ParallelToolOutcome * bool) : string * string := o.1.1.
Definition thread_key (t : Thread W) : string * string := (th_id t, th_name t).

(** One outcome per call, in the order of the calls. *)
Lemma execute_batch_outcomes threads w w' outcomes ds :
  execute_batch threads w = (w', Ok (outcomes, ds)) →
  outcome_id <$> outcomes = thread_key <$> threads.
Proof.
  unfold execute_batch. intros ([ths d] & w1 & Hrun & Hk)%ebind_ok. unfold eret in Hk. simplify_eq.
  destruct (run_batch_rule (λ _ l _, thread_key <$> l = thread_key <$> threads)
    (batch_rank threads) threads []) with (w := w) (w' := w') (threads' := ths) (ds' := ds)
    as [Hkeys Hfin]; [|done|done|done|].
  - intros ? l ? i t ? t' ? Hkey Hi Hen Hts. rewrite <- Hkey.
    destruct (thread_step_rank _ _ _ _ _ Hts) as (_ & Hid & Hname & _).
    { by eapply enabled_unfinished. }
    rewrite list_fmap_insert. apply list_insert_id.
    rewrite list_lookup_fmap, Hi. unfold thread_key. simpl. by rewrite Hid, Hname.
  - rewrite <- Hkeys. clear Hkeys Hrun. induction Hfin as [|t l Hf Hl IH]; simpl; [done|].
    assert (∃ o, thread_outcome t = Some o ∧ outcome_id o = thread_key t) as (o & -> & Ho).
    { unfold finished, thread_outcome in *. destruct (th_task t) as [?? [] ?|]; try done; eauto. }
    simpl. rewrite Ho. by f_equal.
Qed.

(** One step of the batch: some enabled future moves. *)
Definition batch_step (threads threads' : list (Thread W)) : Prop :=
  ∃ i t t' w w' ds, threads !! i = Some t ∧ enabled threads t = true ∧
    thread_step t w = (w', Ok (t', ds)) ∧ threads' = <[i := t']> threads.

(** The futures of a batch before it runs. *)
Definition fresh_batch (threads : list (Thread W)) : Prop :=
  Forall (λ t, waiting t = true ∨ finished t = true) threads.

Lemma fresh_exclusive threads : fresh_batch threads → exclusive threads.
Proof.
  intros Hf i j t u Hi Hj _ Ht. exfalso. unfold fresh_batch in Hf. rewrite Forall_forall in Hf.
  specialize (Hf t (list_elem_of_lookup_2 _ _ _ Hi)). revert Hf Ht.
  unfold waiting, finished, holds. destruct (th_task t) as [?? [] ?|]; naive_solver.
Qed.

Lemma batch_exclusive threads threads' :
  fresh_batch threads → rtc batch_step threads threads' → exclusive threads'.
Proof.
  intros Hf%fresh_exclusive. induction 1 as [|x y z Hxy _ IH]; [done|]. apply IH.
  destruct Hxy as (i & t & t' & w & w' & ds & Hi & Hen & Hts & ->).
  by eapply thread_step_holds.
Qed.

(** Every step of a batch uses up rank, so every batch ends. *)
Lemma batch_step_rank threads threads' :
  batch_step threads threads' → batch_rank threads' < batch_rank threads.
Proof.
  intros (i & t & t' & w & w' & ds & Hi & Hen & Hts & ->). eapply batch_rank_insert; [done|].
  by destruct (thread_step_rank _ _ _ _ _ Hts (enabled_unfinished _ _ Hen)).
Qed.

End outcomes.
