(* ===== verification/Approval.v ===== *)
(** Approval of tool calls, src/sylvander-agent/src/interaction/approval.rs: the
    requests a gate sees, and the gate that applies static rules before a
    fallback. *)

From S2P Require Import Prelude Json Effects ToolContract.
From stdpp Require Import base tactics sets strings list.
From Stdlib Require Import ZArith Lia.

Inductive ApprovalDecision :=
  | Approved
  | Rejected (reason : string).

#[global] Instance ApprovalDecision_eq_dec : EqDecision ApprovalDecision.
Proof. solve_decision. Defined.

Inductive RuleAction :=
  | AutoApprove
  | AutoReject (reason : string).

Record ApprovalRule := {
  rule_tools : list string;
  action : RuleAction;
}.

Record ToolApprovalFacts := {
  facts_invocation_class : ToolInvocationClass;
  facts_execution_mode : ToolExecutionMode;
  facts_execution_policy : ToolExecutionPolicy;
  facts_command_risk : CommandRiskAssessment;
}.

Section approval.
Context `{J : SerdeJson} {W : Type}.

Record ToolUseRequest := {
  tu_call_id : string;
  tool_name : string;
  tu_input : Value;
  facts : ToolApprovalFacts;
}.

(** [ToolUseRequest::from_prepared] with [ToolApprovalFacts::from_prepared] *)
Definition from_prepared (call_id : string) (c : PreparedToolCall W) : ToolUseRequest :=
  let c := call c in
  {| tu_call_id := call_id; tool_name := ts_name (pc_spec c); tu_input := pc_input c;
     facts := {| facts_invocation_class := invocation_class (pc_spec c);
                 facts_execution_mode := pc_execution_mode c;
                 facts_execution_policy := pc_execution_policy c;
                 facts_command_risk := pc_command_risk c |} |}.

(** [ApprovalGate::check_batch] *)
Definition ApprovalGate : Type :=
  list ToolUseRequest → eff W Empty_set (list ApprovalDecision).

Fixpoint match_rule (rules : list ApprovalRule) (name : string) : option RuleAction :=
  match rules with
  | [] => None
  | rule :: rules =>
      if existsb (λ t, t == name) (rule_tools rule) then Some (action rule)
      else match_rule rules name
  end.

Definition rule_decision (a : RuleAction) : ApprovalDecision :=
  match a with AutoApprove => Approved | AutoReject reason => Rejected reason end.

(** The first loop: the decisions of the rules and the requests without one. *)
Definition apply_rules (rules : list ApprovalRule) (tools : list ToolUseRequest)
    : list (option ApprovalDecision) :=
  (λ t, rule_decision <$> match_rule rules (tool_name t)) <$> tools.

Definition remaining (rules : list ApprovalRule) (tools : list ToolUseRequest)
    : list ToolUseRequest :=
  filter (λ t, match_rule rules (tool_name t) = None) tools.

(** The second loop fills the open places in order; indexing the result of the
    fallback panics when it is too short. *)
Fixpoint fill (decisions : list (option ApprovalDecision)) (fallback : list ApprovalDecision)
    : option (list ApprovalDecision) :=
  match decisions, fallback with
  | [], _ => Some []
  | Some d :: decisions, _ => cons d <$> fill decisions fallback
  | None :: decisions, d :: fallback => cons d <$> fill decisions fallback
  | None :: _, [] => None
  end.

(** [RuleBasedApprovalGate::check_batch] *)
Definition rule_based_gate (rules : list ApprovalRule) (fallback : ApprovalGate) : ApprovalGate :=
  λ tools,
    let decisions := apply_rules rules tools in
    match remaining rules tools with
    | [] => eres (expect (fill decisions []))
    | rest =>
        result <~ fallback rest;;
        eres (expect (fill decisions result))
    end.

Lemma fill_spec rules tools fallback :
  length (remaining rules tools) ≤ length fallback →
  ∃ ds, fill (apply_rules rules tools) fallback = Some ds ∧ length ds = length tools ∧
    ∀ i t d, tools !! i = Some t → ds !! i = Some d →
      match match_rule rules (tool_name t) with
      | Some a => d = rule_decision a
      | None => fallback !! length (remaining rules (take i tools)) = Some d
      end.
Proof.
  revert fallback. induction tools as [|t tools IH]; intros fallback Hlen.
  - by exists [].
  - unfold remaining in Hlen. rewrite filter_cons in Hlen. simpl.
    destruct (match_rule rules (tool_name t)) as [a|] eqn:Em; simpl.
    + rewrite decide_False in Hlen by done. destruct (IH fallback Hlen) as (ds & -> & Hl & Hds).
      exists (rule_decision a :: ds). split_and!; [done|simpl; by rewrite Hl|].
      intros [|i] t' d Ht Hd; simplify_eq/=; [by rewrite Em|].
      specialize (Hds i t' d Ht Hd). case_match; [done|]. unfold remaining. rewrite filter_cons.
      by rewrite decide_False by congruence.
    + rewrite decide_True in Hlen by done. destruct fallback as [|d0 fallback]; [simpl in Hlen; lia|].
      simpl in Hlen. destruct (IH fallback) as (ds & Hf & Hl & Hds); [unfold remaining; lia|].
      rewrite Hf. exists (d0 :: ds). split_and!; [done|simpl; by rewrite Hl|].
      intros [|i] t' d Ht Hd; simplify_eq/=; [by rewrite Em|].
      specialize (Hds i t' d Ht Hd). case_match; [done|]. unfold remaining. rewrite filter_cons.
      by rewrite decide_True by done.
Qed.

Lemma fill_short decisions fallback :
  length fallback < length (filter (λ d, d = None) decisions) → fill decisions fallback = None.
Proof.
  revert fallback. induction decisions as [|[d|] decisions IH]; intros fallback.
  - intros H. by apply Nat.nlt_0_r in H.
  - rewrite filter_cons, decide_False by done. intros H. simpl. by rewrite IH.
  - rewrite filter_cons, decide_True by done. destruct fallback as [|d0 fallback]; [done|]. simpl.
    intros H. rewrite IH; [done|lia].
Qed.

End approval.

Arguments ApprovalGate {J} W.
