(* ===== verification/AgentPorts.v ===== *)
(** What one agent execution is given and what it emits:
    src/sylvander-agent/src/turn/request.rs, execution/ports.rs, turn/event.rs
    and the interactive gates of interaction/ (ask_user, background_task,
    cognition, doctor, plan, workflow).

    A gate is a function of the world of the runtime; [serde] conversions and
    the timer are parameters. *)

From S2P Require Import Prelude Json Effects Llm TurnMachine Compression.
From S2P Require Import ToolContract ToolInvocation ToolRegistry ToolExecution.
From S2P Require Import Approval.
From stdpp Require Import base tactics gmap sets strings list.
From Stdlib Require Import ZArith Lia.

Inductive ModelRetryCause := RateLimit | Server | Network | RetryStream | RetryOther.

Module Plan.
Inductive PlanDecision :=
  | Approved
  | Revised (steps : list string)
  | Rejected (reason : string).
End Plan.

Record BackgroundTaskRequest := {
  bt_invocation_id : string;
  purpose : string;
  bt_prompt : string;
}.

Module WorkflowTaskState.
Inductive t :=
  | Ready | Running | Blocked | AwaitingReview | Completed | Failed | Cancelled.

(** The derived [Debug] names. *)
Definition text (s : t) : string :=
  match s with
  | Ready => "Ready"
  | Running => "Running"
  | Blocked => "Blocked"
  | AwaitingReview => "AwaitingReview"
  | Completed => "Completed"
  | Failed => "Failed"
  | Cancelled => "Cancelled"
  end.
End WorkflowTaskState.

Inductive WorkflowCommand :=
  | WorkflowCreate (task_id objective : string) (token_budget max_handoffs : Z)
  | WorkflowTransition (task_id : string) (state : WorkflowTaskState.t) (consumed_tokens : Z).

Record WorkflowReceipt := {
  wr_task_id : string;
  wr_state : WorkflowTaskState.t;
  wr_revision : Z;
}.

Inductive CognitionRole := FastDraft | Deliberation | Critic.

Definition cognition_role_text (r : CognitionRole) : string :=
  match r with FastDraft => "FastDraft" | Deliberation => "Deliberation" | Critic => "Critic" end.

Record CognitionIntent := { ci_role : CognitionRole; ci_prompt : string }.

Record CognitionRequest := {
  cr_invocation_id : string;
  cr_role : CognitionRole;
  cr_prompt : string;
}.

Record CognitionObservation := { co_role : CognitionRole; co_text : string }.

Inductive DoctorAttention :=
  | Healthy | Active | Waiting | Recovering | NeedsReview | ManualActionRequired.

Record DoctorReport := {
  attention : DoctorAttention;
  active_agents : Z;
  waiting_agents : Z;
  manual_agents : Z;
  ready_tasks : Z;
  running_tasks : Z;
  blocked_tasks : Z;
  review_tasks : Z;
  remaining_token_budget : Z;
  integrating_workspaces : Z;
  conflicted_workspaces : Z;
  manual_workspaces : Z;
  interrupted_models : Z;
  interrupted_perceptions : Z;
  completed_perceptions : Z;
  total_perceptions : Z;
  interrupted_tools : Z;
  operator_recoveries : Z;
  open_arbitrations : Z;
}.

(** * Events *)

Module AgentEvent.

Section event.
Context `{J : SerdeJson}.

Inductive t :=
  | TurnTransition (transition : TurnMachine.TurnTransition)
  | IterationStart (iteration : Z)
  | ModelInvocationPrepared (iteration : Z) (invocation_id request_digest : string)
  | TextChunk (text : string)
  | ThinkingChunk (text : string)
  | ModelRetry (attempt max_attempts delay_ms : Z) (reason : string) (cause : ModelRetryCause)
  | ModelResponsePrepared (iteration : Z) (message : ChatMessage) (terminal : bool)
  | ToolCallPrepared (id invocation_id name : string)
      (invocation_class : option ToolInvocationClass) (recovery_policy : ToolRecoveryPolicy)
      (input_digest capability_revision : string)
  | ToolCallStart (id name : string) (input : Value)
  | ToolCallOutputDelta (id name delta : string)
  | ToolTimedOut (id name : string) (timeout_secs : Z)
  | ToolCallEnd (id name output : string) (is_error : bool) (failure_kind : option ToolFailureKind)
  | ToolRejected (id name reason : string)
  | CompressionStarted
  | Compressed (layers : list LayerReport)
  | HistoryCompacted (history : list ChatMessage) (layers : list LayerReport)
  | IterationEnd (iteration : Z) (response_id : string) (usage provider_usage : TokenUsage)
  | Done (outcome : AgentOutcome)
  | Error (error : AgentLoopError)
  | AskUser (call_id question : string) (options : list string) (multi_select : bool)
  | UserAnswer (call_id : string) (answer : list string)
  | PlanProposed (plan_id : string) (steps : list string)
  | PlanResolved (plan_id : string) (decision : Plan.PlanDecision).

End event.

End AgentEvent.

(** * Ports *)

Section ports.
Context `{J : SerdeJson} `{C : Crates} {W : Type}.

(** serde_json on the types of the agent (an error is its text), and
    [tokio::time::sleep] of some milliseconds. *)
Class Codecs := {
  encode_request : ModelRequest → string + string;
  workflow_from_value : Value → WorkflowCommand + string;
  cognition_from_value : Value → CognitionIntent + string;
  report_to_string : DoctorReport → string + string;
  sleep : Z → eff W Empty_set unit
}.

Definition AskUserGate : Type :=
  string → string → list string → bool → eff W Empty_set (list string).

Record PlanGate := {
  review : string → list string → eff W Empty_set Plan.PlanDecision;
  update : string → list string → nat → eff W Empty_set unit;
}.

Definition TaskGate : Type := BackgroundTaskRequest → eff W string string.
Definition WorkflowGate : Type := WorkflowCommand → eff W string WorkflowReceipt.
Definition CognitionGate : Type := CognitionRequest → eff W string CognitionObservation.
Definition DoctorGate : Type := eff W string DoctorReport.

Record AgentTurnRequest := {
  req_conversation : ConversationSnapshot;
  req_model : ModelInfo;
  system_instructions : list SystemInstruction;
  req_reasoning : option ReasoningConfig;
  req_tools : ToolRegistry W;
  req_execution : AgentExecutionContext;
}.

(** The model route is the [complete_stream] of [Host]. *)
Record AgentExecutionPorts := {
  port_tool_context : ToolContext W;
  invocation_gateway : ToolInvocationGateway W;
  invocation_snapshot : ToolInvocationSnapshot;
  approval_gate : option (ApprovalGate W);
  ask_user_gate : option AskUserGate;
  plan_gate : option PlanGate;
  task_gate : option TaskGate;
  workflow_gate : option WorkflowGate;
  cognition_gate : option CognitionGate;
  doctor_gate : option DoctorGate;
  port_artifact_store : option (TurnArtifactStore W);
}.

(** [AgentExecutionPorts::new] *)
Definition ports_new (tool_context : ToolContext W) (gateway : ToolInvocationGateway W)
    (snapshot : ToolInvocationSnapshot) : AgentExecutionPorts :=
  {| port_tool_context := tool_context; invocation_gateway := gateway;
     invocation_snapshot := snapshot; approval_gate := None; ask_user_gate := None;
     plan_gate := None; task_gate := None; workflow_gate := None; cognition_gate := None;
     doctor_gate := None; port_artifact_store := None |}.

Context `{O : !HashOrder}.

Definition validate_for (ports : AgentExecutionPorts) (request : AgentTurnRequest) (w : W)
    : res unit AgentLoopError :=
  bail bool_decide (execution (port_tool_context ports) ≠ req_execution request)
    with LoopError.Validation "turn request and execution ports carry different authority";;
  let requested_tools := invocation_descriptors (req_tools request) w in
  bail existsb (λ tool, negb (authorizes (invocation_snapshot ports) (d_name tool) (d_class tool)
                               (d_recovery_policy tool))) requested_tools
    || negb (has_same_executable_surface (gateway_snapshot (invocation_gateway ports))
               (invocation_snapshot ports))
    with LoopError.Validation
      "turn tools and invocation gateway expose different executable surfaces";;
  Ok tt.

Lemma validate_for_ends ports request w :
  match validate_for ports request w with Panic | Diverge => False | _ => True end.
Proof. unfold validate_for. destruct (bool_decide _); [done|]. simpl. by destruct (_ || _). Qed.

Lemma validate_for_ok ports request w :
  validate_for ports request w = Ok tt ↔
  execution (port_tool_context ports) = req_execution request ∧
  (∀ d, d ∈ invocation_descriptors (req_tools request) w →
    authorizes (invocation_snapshot ports) (d_name d) (d_class d) (d_recovery_policy d) = true) ∧
  executable_features (gateway_snapshot (invocation_gateway ports))
  = executable_features (invocation_snapshot ports).
Proof.
  unfold validate_for. rewrite !bail_ok, orb_false_iff, negb_false_iff, bool_decide_eq_false.
  unfold has_same_executable_surface. rewrite bool_decide_eq_true.
  rewrite <- not_true_iff_false, existsb_exists.
  split; [intros (H1 & (H2 & H3) & _)|intros (H1 & H2 & H3)]; split_and!; try done; try tauto.
  - by apply dec_stable.
  - intros d Hd. destruct (authorizes _ _ _ _) eqn:E; [done|]. destruct H2. exists d.
    rewrite E. split; [by apply list_elem_of_In|done].
  - intros (d & Hd & Ha). rewrite H2 in Ha; [done|by apply list_elem_of_In].
Qed.

End ports.

Arguments Codecs {J} W.
Arguments AskUserGate W : clear implicits.
Arguments PlanGate W : clear implicits.
Arguments AgentTurnRequest {J} W.
Arguments AgentExecutionPorts {J} W.
