(* ===== verification/AgentLoop.v ===== *)
(** The execution kernel, src/sylvander-agent/src/kernel/agent_loop.rs.

    [run_stream] is a computation on the turn machine, the world of the services
    and the list of the events yielded so far; [Returned] is the [return] of the
    stream's body.  [required_turn_transition] panics on a transition the
    machine rejects.  Arithmetic that overflows panics, as in a checked build. *)

From S2P Require Import Prelude Json Effects Llm TurnMachine Compression.
From S2P Require Import ToolContract ToolInvocation ToolRegistry ToolExecution.
From S2P Require Import Approval AgentPorts.
From stdpp Require Import base tactics gmap sets strings list pretty.
From Stdlib Require Import ZArith Lia.

Open Scope Z_scope.

Import TurnPhase Reason.

Definition TOOL_PROGRESS_OMITTED_MARKER : string := 
  newline +:+ "… intermediate tool output omitted because the progress buffer was full …" +:+ newline.

Definition is_control_tool (name : string) : bool :=
  bool_decide (name ∈ ["ask_user"; "consult_cognition"; "inspect_runtime"; "manage_workflow";
    "present_plan"; "start_background_task"; "update_plan"]).

Definition provider_retry_cause (error : ProviderError) : ModelRetryCause :=
  match kind error with
  | ProviderErrorKind.RateLimited => RateLimit
  | ProviderErrorKind.Unavailable => Server
  | ProviderErrorKind.Transport | ProviderErrorKind.Timeout => Network
  | ProviderErrorKind.Protocol => RetryStream
  | _ => RetryOther
  end.

Definition provider_protocol (message : string) : AgentLoopError :=
  LoopError.Provider 1 (provider_error_new ProviderErrorKind.Protocol Stream message).

(** The delay before the retry after an attempt, in milliseconds: [None] when
    [100 * (1_u64 << attempt)] overflows. *)
Definition backoff (attempt : Z) : option Z :=
  let delay := 100 * Z.shiftl 1 attempt in
  if (64 <=? attempt) || (u64_max <? delay) then None else Some delay.

(** The reasons to end the loop after a response. *)
Definition is_terminal_stop (s : StopReason) : bool :=
  match s with
  | StopReason.EndTurn | StopReason.StopSequence _ | StopReason.Refusal | StopReason.Paused
  | StopReason.Other _ => true
  | StopReason.ToolUse | StopReason.MaxOutputTokens => false
  end.

(** The flag [terminal] of [ModelResponsePrepared]. *)
Definition terminal_response (s : StopReason) : bool :=
  match s with
  | StopReason.EndTurn | StopReason.StopSequence _ | StopReason.Refusal => true
  | _ => false
  end.

Definition continuation_reason (c : option TurnContinuationReason) : TurnTransitionReason :=
  match c with
  | Some Continuation.MaxOutputTokens => ContinueAfterMaxOutputTokens
  | Some Continuation.ToolResultsReady | Some Continuation.ProviderRequestedContinuation
  | None => ContinueAfterToolResults
  end.

(** A report that is not a no-op. *)
Definition meaningful (r : LayerReport) : bool :=
  (0 <? removed_count r) || (0 <? condensed_count r) || (0 <? freed_tokens r)
  || bool_decide (is_Some (failure r)).

Section kernel.
Context `{J : SerdeJson} `{C : Crates} {W : Type} `{HO : !HashOrder} `{HH : !Host W}
  `{HS : !Scheduler W} `{HC : !Codecs W}.

Record AgentLoop := {
  compression_pipeline : option (CompressionPipeline W);
  max_iterations : Z;
  max_retries : Z;
}.

(** [AgentLoopBuilder::default().build()] *)
Definition agent_loop_default : AgentLoop :=
  {| compression_pipeline := None; max_iterations := 50; max_retries := 3 |}.

Record LoopState := {
  machine : TurnMachine;
  world : W;
  events : list AgentEvent.t;
}.

Inductive Return := Returned.
Definition Loop (A : Type) : Type := eff LoopState Return A.

(** * Primitives *)

Definition set_machine (m : TurnMachine) (s : LoopState) : LoopState :=
  {| machine := m; world := world s; events := events s |}.
Definition set_world (w : W) (s : LoopState) : LoopState :=
  {| machine := machine s; world := w; events := events s |}.
Definition emit_event (e : AgentEvent.t) (s : LoopState) : LoopState :=
  {| machine := machine s; world := world s; events := events s ++ [e] |}.

Definition yield {E} (e : AgentEvent.t) : eff LoopState E unit := emodify (emit_event e).
Definition yields {E} (l : list AgentEvent.t) : eff LoopState E unit := efor l yield.

Definition get_machine {E} : eff LoopState E TurnMachine := λ s, (s, Ok (machine s)).
Definition get_world {E} : eff LoopState E W := λ s, (s, Ok (world s)).
Definition put_machine {E} (m : TurnMachine) : eff LoopState E unit := emodify (set_machine m).

Definition never {A} (e : Empty_set) : A := match e with end.

(** [call.await] of a service without an error; [awaiting (etry call)] of one
    with an error. *)
Definition awaiting {E A} (c : eff W Empty_set A) : eff LoopState E A :=
  ezoom world set_world (emap_err never c).

(** [yield TurnTransition(required_turn_transition(&mut machine, to, reason))] *)
Definition turn_to (to : TurnPhase) (reason : TurnTransitionReason) : Loop unit := λ s,
  match transition (machine s) to reason with
  | (m, Ok t) => (emit_event (AgentEvent.TurnTransition t) (set_machine m s), Ok tt)
  | (m, _) => (set_machine m s, Panic)
  end.

(** The failed transition, the error event and [return]. *)
Definition fail_with {A} (e : AgentLoopError) : Loop A :=
  perform turn_to Failed ExecutionFailed;;
  perform yield (AgentEvent.Error e);;
  efail Returned.

(** [machine.messages_mut().push(message)] *)
Definition push_message (message : ChatMessage) : Loop unit :=
  m <~ get_machine;;
  put_machine (with_messages m (messages m ++ [message])).

Definition fresh_uuid {E} : eff LoopState E string :=
  awaiting (λ w, let '(w, id) := new_v4 w in (w, Ok id)).

(** * Validation and hooks before the first iteration *)

Definition prologue (request : AgentTurnRequest W) (ports : AgentExecutionPorts W) : Loop unit :=
  perform turn_to Validating ExecutionStarted;;
  w <~ get_world;;
  match validate_for ports request w with
  | Err error => fail_with error
  | Panic => epanic
  | Diverge => ehang
  | Ok _ =>
      perform turn_to RunningBeforeHooks RequestValidated;;
      hooks <~ awaiting (etry (run_turn_hooks (req_tools request) BeforeTurn
                                 (port_tool_context ports)));;
      match hooks with
      | inr blocked => fail_with (LoopError.Tool (hook_blocked_text blocked))
      | inl _ => turn_to ReadyForIteration BeforeHooksCompleted
      end
  end.

(** [machine.start_iteration] *)
Definition start (n : Z) : Loop unit :=
  m <~ get_machine;;
  let '(m', started) := start_iteration m n in
  perform put_machine m';;
  match started with
  | Ok t => perform yield (AgentEvent.TurnTransition t);; yield (AgentEvent.IterationStart n)
  | Err error => fail_with (LoopError.Validation (state_error_text error))
  | Panic => epanic
  | Diverge => ehang
  end.

(** * Step 1: compression *)

Definition compress_context (request : AgentTurnRequest W) (ports : AgentExecutionPorts W)
    (m : TurnMachine) : CompressContext W :=
  {| ctx_messages := messages m; last_usage := last_provider_usage m;
     model_info := req_model request;
     auto_compact_llm := Some (AutoCompact.summarize (req_model request));
     artifact_store := port_artifact_store ports |}.

(** [config.compression_pipeline.clone().unwrap_or_else(..)] *)
Definition pipeline_of (config : AgentLoop) : CompressionPipeline W :=
  default default_for_model (compression_pipeline config).

Definition compress (config : AgentLoop) (request : AgentTurnRequest W)
    (ports : AgentExecutionPorts W) : Loop unit :=
  perform turn_to Compacting CompressionStarted;;
  m <~ get_machine;;
  let auto_threshold := AutoCompact.threshold (context_window (req_model request))
    AutoCompact.DEFAULT_TRIGGER_RATIO in
  perform (if (auto_threshold <=? total_input_tokens (last_provider_usage m))
              && (4 <? length (messages m))%nat
           then yield AgentEvent.CompressionStarted else eret tt);;
  '(history, reports) <~ awaiting (run_all (pipeline_of config) (compress_context request ports m));;
  perform put_machine (with_messages m history);;
  perform (match filter (λ r, meaningful r = true) reports with
           | [] => eret tt
           | layers =>
               perform yield (AgentEvent.Compressed layers);;
               yield (AgentEvent.HistoryCompacted history layers)
           end);;
  turn_to CallingModel CompressionCompleted.

(** * Step 2: the provider request *)

Definition tool_definitions_for_model (tools : ToolRegistry W) (model : ModelInfo) (w : W)
    : list LlmToolDefinition :=
  let definitions := build_definitions tools w in
  if Capabilities.contains (capabilities model) Capabilities.PROMPT_CACHING then definitions
  else (λ d, {| td_name := td_name d; td_description := td_description d;
                td_input_schema := td_input_schema d; td_cache_hint := None |}) <$> definitions.

Definition bounded_reasoning (model : ModelInfo) (r : ReasoningConfig) : ReasoningConfig :=
  {| budget_tokens := (λ budget, Z.min budget (mi_max_output_tokens model)) <$> budget_tokens r;
     effort := effort r |}.

Definition build_provider_request (request : AgentTurnRequest W) (messages : list ChatMessage)
    : Loop ModelRequest :=
  w <~ get_world;;
  let definitions := tool_definitions_for_model (req_tools request) (req_model request) w in
  id <~ fresh_uuid;;
  eret {| mr_request_id := id; mr_model := reference (req_model request);
          system := system_instructions request; mr_messages := messages; Llm.tools := definitions;
          max_output_tokens := mi_max_output_tokens (req_model request);
          reasoning := bounded_reasoning (req_model request) <$> req_reasoning request;
          output_schema := None |}.

Definition prepare_invocation (request : AgentTurnRequest W) (n : Z) : Loop ModelRequest :=
  m <~ get_machine;;
  provider_request <~ build_provider_request request (messages m);;
  match encode_request provider_request with
  | inr error =>
      fail_with (LoopError.Validation
        ("provider-neutral request serialization failed: " +:+ error))
  | inl encoded =>
      perform yield (AgentEvent.ModelInvocationPrepared n (mr_request_id provider_request)
                       ("sha256:" +:+ sha256_hex encoded));;
      eret provider_request
  end.

(** * Step 4: the model call with its retries *)

Fixpoint try_open (config : AgentLoop) (provider_request : ModelRequest) (tries : nat) (attempt : Z)
    : eff LoopState AgentLoopError ProviderStream :=
  match tries with
  | O => epanic
  | S tries =>
      result <~ awaiting (etry (complete_stream provider_request));;
      match result with
      | inl stream => eret stream
      | inr source =>
          let e := LoopError.Provider (attempt + 1) source in
          if negb (LoopError.is_retryable e) || (attempt =? max_retries config) then efail e
          else
            match backoff attempt with
            | None => epanic
            | Some delay =>
                perform yield (AgentEvent.ModelRetry (attempt + 1) (max_retries config) delay
                                 (LoopError.text e) (provider_retry_cause source));;
                perform awaiting (sleep delay);;
                try_open config provider_request tries (attempt + 1)
            end
      end
  end.

Definition call_model_with_retry (config : AgentLoop) (provider_request : ModelRequest)
    (model : ModelInfo) : eff LoopState AgentLoopError ProviderStream :=
  match validate_model_request_capabilities provider_request (capabilities model) with
  | Err error => efail (LoopError.IncompatibleModel (capability_error_text error))
  | Panic => epanic
  | Diverge => ehang
  | Ok _ =>
      if u32_max <? max_retries config + 1 then epanic
      else try_open config provider_request (Z.to_nat (max_retries config + 1)) 0
  end.

Definition open_stream (config : AgentLoop) (request : AgentTurnRequest W)
    (provider_request : ModelRequest) : Loop ProviderStream :=
  result <~ etry (call_model_with_retry config provider_request (req_model request));;
  match result with
  | inr error => fail_with error
  | inl stream => perform turn_to StreamingModel ModelStreamOpened;; eret stream
  end.

(** * Step 5: the stream *)

(** The [while let] of [consume_provider_stream], with the chunks it sends. *)
Fixpoint consume_items (expected : ModelRef) (l : list (ModelStreamEvent + ProviderError))
    (completed : option ModelResponse)
    : list AgentEvent.t * res (option ModelResponse) AgentLoopError :=
  match l with
  | [] => ([], Ok completed)
  | inr source :: _ => ([], Err (LoopError.Provider 1 source))
  | inl event :: l =>
      if bool_decide (is_Some completed)
      then ([], Err (provider_protocol "provider emitted an event after completion"))
      else
        match event with
        | TextDelta text =>
            let '(chunks, r) := consume_items expected l completed in
            (AgentEvent.TextChunk text :: chunks, r)
        | ReasoningDelta text =>
            let '(chunks, r) := consume_items expected l completed in
            (AgentEvent.ThinkingChunk text :: chunks, r)
        | StreamCompleted response =>
            if response_model response != expected
            then ([], Err (provider_protocol "provider completed with an unexpected model"))
            else consume_items expected l (Some response)
        end
  end.

Definition consume_provider_stream (expected : ModelRef) (stream : ProviderStream)
    : list AgentEvent.t * res ModelResponse AgentLoopError :=
  let '(chunks, r) := consume_items expected (items stream) None in
  (chunks,
   match r, stream_end stream with
   | Ok _, StreamPanics => Panic
   | Ok _, StreamHangs => Diverge
   | Ok completed, Ended =>
       ok_or completed (provider_protocol "provider stream ended without completion")
   | Err e, _ => Err e
   | Panic, _ => Panic
   | Diverge, _ => Diverge
   end).

(** The consumer is a task of its own: when it panics, its result channel is
    dropped. *)
Definition consume (request : AgentTurnRequest W) (stream : ProviderStream) : Loop ModelResponse :=
  let '(chunks, result) := consume_provider_stream (reference (req_model request)) stream in
  perform yields chunks;;
  match result with
  | Ok response => eret response
  | Err e => fail_with e
  | Panic => fail_with (LoopError.Validation "stream consumer dropped oneshot")
  | Diverge => ehang
  end.

(** [assistant_message_from_response] *)
Definition assistant_message_from_response (response : ModelResponse) : ChatMessage :=
  assistant (response_content response).

(** The response is announced, and (step 6) fed back. *)
Definition accept_response (n : Z) (response : ModelResponse) : Loop unit :=
  perform turn_to FinalizingModelResponse ModelResponseCompleted;;
  perform yield (AgentEvent.ModelResponsePrepared n (assistant_message_from_response response)
                   (terminal_response (stop_reason response)));;
  push_message (assistant_message_from_response response).

(** * Step 7: tools *)

Record PendingToolCall := {
  pt_id : string;
  pt_invocation_id : string;
  pt_name : string;
  pt_input : Value;
}.

Fixpoint pending_calls (blocks : list ContentBlock) : Loop (list PendingToolCall) :=
  match blocks with
  | [] => eret []
  | ToolCall id name arguments :: blocks =>
      invocation_id <~ fresh_uuid;;
      rest <~ pending_calls blocks;;
      eret ({| pt_id := id; pt_invocation_id := invocation_id; pt_name := name;
               pt_input := arguments |} :: rest)
  | _ :: blocks => pending_calls blocks
  end.

(** A call and its [Result<PreparedToolCall, ToolPrepareError>] *)
Definition Prepared : Type := PendingToolCall * (PreparedToolCall W + ToolPrepareError).

Fixpoint prepare_calls (request : AgentTurnRequest W) (w : W) (calls : list PendingToolCall)
    : Loop (list Prepared) :=
  match calls with
  | [] => eret []
  | tool :: calls =>
      prepared <~ etry (eres (prepare (req_tools request) w (pt_name tool) (pt_input tool)));;
      rest <~ prepare_calls request w calls;;
      eret ((tool, prepared) :: rest)
  end.

Definition announce_prepared (ports : AgentExecutionPorts W) (p : Prepared) : Loop unit :=
  let '(tool, prepared) := p in
  let '(class, recovery, input) :=
    match prepared with
    | inl c => (Some (invocation_class (pc_spec (call c))), recovery_policy (pc_spec (call c)),
                pc_input (call c))
    | inr _ => (None, NeverReplay, pt_input tool)
    end in
  yield (AgentEvent.ToolCallPrepared (pt_id tool) (pt_invocation_id tool) (pt_name tool) class
           recovery (prepared_input_digest input) (revision (invocation_snapshot ports))).

(** ** Approval *)

Definition approval_request (p : Prepared) : option ToolUseRequest :=
  match p.2 with
  | inl c => if is_control_tool (pt_name p.1) then None else Some (from_prepared (pt_id p.1) c)
  | inr _ => None
  end.

(** The decisions of the gate, given out to the calls it was asked about. *)
Fixpoint merge_decisions (l : list Prepared) (gated : list ApprovalDecision)
    : list ApprovalDecision :=
  match l with
  | [] => []
  | (tool, inr error) :: l =>
      Approval.Rejected (prepare_error_text error) :: merge_decisions l gated
  | (tool, inl _) :: l =>
      if is_control_tool (pt_name tool) then Approval.Approved :: merge_decisions l gated
      else
        match gated with
        | d :: gated => d :: merge_decisions l gated
        | [] => Approval.Rejected "approval gate returned no decision" :: merge_decisions l []
        end
  end.

Definition ungated_decision (p : Prepared) : ApprovalDecision :=
  match p.2 with
  | inl _ => Approval.Approved
  | inr error => Approval.Rejected (prepare_error_text error)
  end.

Definition decisions_for (ports : AgentExecutionPorts W) (l : list Prepared)
    : Loop (list ApprovalDecision) :=
  match approval_gate ports with
  | None => eret (ungated_decision <$> l)
  | Some gate =>
      perform turn_to WaitingForApproval ApprovalRequired;;
      gated <~ awaiting (gate (omap approval_request l));;
      perform turn_to PreparingTools ApprovalResolved;;
      eret (merge_decisions l gated)
  end.

(** ** Control tools *)

Definition unclassified (is_error : bool) : option ToolFailureKind :=
  if is_error then Some Unclassified else None.

(** The end event of a call and the block that answers it. *)
Definition finish_call (id name output : string) (is_error : bool)
    (failure_kind : option ToolFailureKind) : Loop ContentBlock :=
  perform yield (AgentEvent.ToolCallEnd id name output is_error failure_kind);;
  eret (tool_result_text id output is_error).

Definition finish_control (tool : PendingToolCall) (result : string * bool) : Loop ContentBlock :=
  finish_call (pt_id tool) (pt_name tool) result.1 result.2 (unclassified result.2).

Definition result_of (r : string + string) : string * bool :=
  match r with inl output => (output, false) | inr error => (error, true) end.

Definition join (separator : string) (l : list string) : string := String.concat separator l.

Definition run_ask_user (ports : AgentExecutionPorts W) (tool : PendingToolCall)
    : Loop ContentBlock :=
  perform turn_to WaitingForUser UserInputRequired;;
  let question := default "" (get_str (pt_input tool) "question") in
  let options := get_strings (pt_input tool) "options" in
  let multi_select := default false (json_get (pt_input tool) "multi_select" ≫= as_bool) in
  perform yield (AgentEvent.AskUser (pt_id tool) question options multi_select);;
  answer <~ match ask_user_gate ports with
            | Some gate => awaiting (gate (pt_id tool) question options multi_select)
            | None => eret []
            end;;
  perform turn_to ExecutingTools UserInputResolved;;
  perform yield (AgentEvent.UserAnswer (pt_id tool) answer);;
  finish_call (pt_id tool) "ask_user" (join ", " answer) false None.

Definition plan_result (d : Plan.PlanDecision) : string * bool :=
  match d with
  | Plan.Approved => ("Plan approved. Continue with the proposed steps.", false)
  | Plan.Revised steps =>
      ("Plan revised by the user. Continue with these steps:" +:+ newline +:+ "- "
       +:+ join (newline +:+ "- ") steps, false)
  | Plan.Rejected reason => ("Plan rejected by the user: " +:+ reason, true)
  end.

Definition run_present_plan (ports : AgentExecutionPorts W) (tool : PendingToolCall)
    : Loop ContentBlock :=
  perform turn_to WaitingForPlanReview PlanReviewRequired;;
  let steps := get_strings (pt_input tool) "steps" in
  perform yield (AgentEvent.PlanProposed (pt_id tool) steps);;
  decision <~ match plan_gate ports with
              | Some gate => awaiting (review gate (pt_id tool) steps)
              | None => eret Plan.Approved
              end;;
  perform turn_to ExecutingTools PlanReviewResolved;;
  perform yield (AgentEvent.PlanResolved (pt_id tool) decision);;
  let '(output, is_error) := plan_result decision in
  finish_call (pt_id tool) "present_plan" output is_error (unclassified is_error).

Definition run_background_task (ports : AgentExecutionPorts W) (tool : PendingToolCall)
    : Loop ContentBlock :=
  result <~ match task_gate ports with
            | Some gate => awaiting (etry (gate
                {| bt_invocation_id := pt_id tool;
                   purpose := default "Background investigation" (get_str (pt_input tool) "purpose");
                   bt_prompt := default "" (get_str (pt_input tool) "prompt") |}))
            | None => eret (inr "background task runtime is unavailable")
            end;;
  finish_control tool (match result with
    | inl task_id => ("Background task `" +:+ task_id +:+ "` started.", false)
    | inr error => (error, true)
    end).

Definition receipt_text (r : WorkflowReceipt) : string :=
  "Task `" +:+ wr_task_id r +:+ "` is " +:+ WorkflowTaskState.text (wr_state r)
  +:+ " at durable revision " +:+ pretty (wr_revision r) +:+ ".".

Definition run_manage_workflow (ports : AgentExecutionPorts W) (tool : PendingToolCall)
    : Loop ContentBlock :=
  result <~ match workflow_from_value (pt_input tool), workflow_gate ports with
            | inl command, Some gate =>
                r <~ awaiting (etry (gate command));;
                eret (match r with inl receipt => inl (receipt_text receipt) | inr e => inr e end)
            | inr error, _ => eret (inr ("invalid workflow command: " +:+ error))
            | _, None => eret (inr "durable workflow runtime is unavailable")
            end;;
  finish_control tool (result_of result).

Definition observation_text (o : CognitionObservation) : string :=
  "[Untrusted internal " +:+ cognition_role_text (co_role o)
  +:+ " observation; advisory only. You remain responsible for the final answer.]" +:+ newline
  +:+ co_text o.

Definition run_consult_cognition (ports : AgentExecutionPorts W) (tool : PendingToolCall)
    : Loop ContentBlock :=
  result <~ match cognition_from_value (pt_input tool), cognition_gate ports with
            | inl intent, Some gate =>
                r <~ awaiting (etry (gate
                  {| cr_invocation_id := pt_id tool; cr_role := ci_role intent;
                     cr_prompt := ci_prompt intent |}));;
                eret (match r with inl o => inl (observation_text o) | inr e => inr e end)
            | inr error, _ => eret (inr ("invalid cognition request: " +:+ error))
            | _, None => eret (inr "approved cognition runtime is unavailable")
            end;;
  finish_control tool (result_of result).

Definition run_inspect_runtime (ports : AgentExecutionPorts W) (tool : PendingToolCall)
    : Loop ContentBlock :=
  result <~ match doctor_gate ports with
            | Some gate =>
                r <~ awaiting (etry gate);;
                eret (match r with
                      | inl report =>
                          match report_to_string report with
                          | inl text => inl text
                          | inr error => inr ("runtime report serialization failed: " +:+ error)
                          end
                      | inr e => inr e
                      end)
            | None => eret (inr "runtime inspection is unavailable")
            end;;
  finish_control tool (result_of result).

(** [current.min(steps.len().saturating_sub(1))] *)
Definition plan_position (tool : PendingToolCall) (steps : list string) : nat :=
  Nat.min (Z.to_nat (default 0 (json_get (pt_input tool) "current" ≫= as_u64))) (length steps - 1).

Definition run_update_plan (ports : AgentExecutionPorts W) (tool : PendingToolCall)
    : Loop ContentBlock :=
  let plan_id := default "" (get_str (pt_input tool) "plan_id") in
  let steps := get_strings (pt_input tool) "steps" in
  result <~ (if bool_decide (plan_id = "") || bool_decide (steps = [])
             then eret ("plan_id and at least one step are required", true)
             else
               match plan_gate ports with
               | Some gate =>
                   perform awaiting (update gate plan_id steps (plan_position tool steps));;
                   eret ("Visible plan progress updated.", false)
               | None => eret ("plan runtime is unavailable", true)
               end);;
  finish_control tool result.

(** ** Ordinary tools *)

Definition execution_request (ports : AgentExecutionPorts W) (p : Prepared) : ExecutionRequest W :=
  {| er_prepared_call := p.2; er_gateway := invocation_gateway ports;
     er_snapshot := invocation_snapshot ports; er_context := port_tool_context ports;
     er_call_id := pt_id p.1; er_invocation_id := pt_invocation_id p.1; er_route := pt_name p.1;
     er_timeout := budget_timeout (port_tool_context ports) |}.

(** The events of an outcome and its block. *)
Definition publish_outcome (id name : string) (o : ToolExecutionOutcome) : Loop ContentBlock :=
  perform (match timed_out_after o with
           | Some timeout => yield (AgentEvent.ToolTimedOut id name (as_secs timeout))
           | None => eret tt
           end);;
  finish_call id name (te_output o) (te_is_error o) (te_failure_kind o).

Definition omission (id name : string) (omitted : bool) : Loop unit :=
  if omitted then yield (AgentEvent.ToolCallOutputDelta id name TOOL_PROGRESS_OMITTED_MARKER)
  else eret tt.

Definition run_ordinary (ports : AgentExecutionPorts W) (p : Prepared) : Loop ContentBlock :=
  let tool := p.1 in
  '(outcome, (deltas, omitted)) <~ awaiting (execute_registered_tool (execution_request ports p));;
  perform yields (AgentEvent.ToolCallOutputDelta (pt_id tool) (pt_name tool) <$> deltas);;
  perform omission (pt_id tool) (pt_name tool) omitted;;
  publish_outcome (pt_id tool) (pt_name tool) outcome.

Definition reject_call (id name reason : string) : Loop ContentBlock :=
  perform yield (AgentEvent.ToolRejected id name reason);;
  eret (tool_result_text id reason true).

(** One turn of the ordered loop that runs when a call is of a control tool. *)
Definition run_call (ports : AgentExecutionPorts W) (p : Prepared) (d : ApprovalDecision)
    : Loop ContentBlock :=
  let tool := p.1 in
  match d with
  | Approval.Rejected reason => reject_call (pt_id tool) (pt_name tool) reason
  | Approval.Approved =>
      perform yield (AgentEvent.ToolCallStart (pt_id tool) (pt_name tool) (pt_input tool));;
      if pt_name tool == "ask_user" then run_ask_user ports tool
      else if pt_name tool == "present_plan" then run_present_plan ports tool
      else if pt_name tool == "start_background_task" then run_background_task ports tool
      else if pt_name tool == "manage_workflow" then run_manage_workflow ports tool
      else if pt_name tool == "consult_cognition" then run_consult_cognition ports tool
      else if pt_name tool == "inspect_runtime" then run_inspect_runtime ports tool
      else if pt_name tool == "update_plan" then run_update_plan ports tool
      else run_ordinary ports p
  end.

Fixpoint run_calls (ports : AgentExecutionPorts W) (l : list (Prepared * ApprovalDecision))
    : Loop (list ContentBlock) :=
  match l with
  | [] => eret []
  | (p, d) :: l =>
      block <~ run_call ports p d;;
      blocks <~ run_calls ports l;;
      eret (block :: blocks)
  end.

(** The future of a call in the concurrent batch. *)
Definition batch_thread (ports : AgentExecutionPorts W) (p : Prepared * ApprovalDecision)
    : Thread W :=
  let '(q, d) := p in
  {| th_id := pt_id q.1; th_name := pt_name q.1;
     th_task := match d with
       | Approval.Rejected reason => RejectedTask reason
       | Approval.Approved =>
           ToolTask (execution_request ports q)
             (match q.2 with inl c => pc_execution_mode (call c) | inr _ => Exclusive end)
             ToolExecution.Waiting false
       end |}.

Definition start_events (p : Prepared * ApprovalDecision) : list AgentEvent.t :=
  let '(q, d) := p in
  match d with
  | Approval.Approved => [AgentEvent.ToolCallStart (pt_id q.1) (pt_name q.1) (pt_input q.1)]
  | Approval.Rejected _ => []
  end.

Definition delta_event (d : Delta) : AgentEvent.t :=
  let '(id, name, text) := d in AgentEvent.ToolCallOutputDelta id name text.

(** The loop over the outcomes, in model order. *)
Fixpoint publish_batch (l : list (string * string * ParallelToolOutcome * bool))
    : Loop (list ContentBlock) :=
  match l with
  | [] => eret []
  | (id, name, outcome, omitted) :: l =>
      perform omission id name omitted;;
      block <~ match outcome with
               | Executed o => publish_outcome id name o
               | ToolExecution.Rejected reason => reject_call id name reason
               end;;
      blocks <~ publish_batch l;;
      eret (block :: blocks)
  end.

Definition run_parallel (ports : AgentExecutionPorts W) (l : list (Prepared * ApprovalDecision))
    : Loop (list ContentBlock) :=
  perform yields (l ≫= start_events);;
  '(outcomes, deltas) <~ awaiting (execute_batch (batch_thread ports <$> l));;
  perform yields (delta_event <$> deltas);;
  publish_batch outcomes.

(** The calls run once they are decided, in order when one is of a control tool; their
    results are the next message. *)
Definition execute_calls (ports : AgentExecutionPorts W) (calls : list PendingToolCall)
    (l : list (Prepared * ApprovalDecision)) : Loop unit :=
  blocks <~ (if existsb (λ tool, is_control_tool (pt_name tool)) calls
             then run_calls ports l else run_parallel ports l);;
  push_message (user_blocks blocks).

(** The whole step 7, for the calls of a response. *)
Definition run_tools (request : AgentTurnRequest W) (ports : AgentExecutionPorts W)
    (calls : list PendingToolCall) : Loop unit :=
  match calls with
  | [] => eret tt
  | _ =>
      perform turn_to PreparingTools ToolPreparationStarted;;
      w <~ get_world;;
      prepared <~ prepare_calls request w calls;;
      perform efor prepared (announce_prepared ports);;
      decisions <~ decisions_for ports prepared;;
      perform turn_to ExecutingTools ToolExecutionStarted;;
      execute_calls ports calls (zip prepared decisions)
  end.

(** * The iteration *)

(** Steps 9 and 10: whether the loop breaks. *)
Definition end_iteration (n : Z) (response : ModelResponse) : Loop bool :=
  let continuation := continuation_for response in
  m <~ get_machine;;
  let m := complete_iteration m response continuation in
  perform put_machine m;;
  perform yield (AgentEvent.IterationEnd n (response_id response) (cumulative_usage m)
                   (last_provider_usage m));;
  if is_terminal_stop (stop_reason response)
  then perform turn_to RunningAfterHooks TerminalModelResponse;; eret true
  else perform turn_to ReadyForIteration (continuation_reason continuation);; eret false.

(** One iteration of the [for]; true is its [break]. *)
Definition run_iteration (config : AgentLoop) (request : AgentTurnRequest W)
    (ports : AgentExecutionPorts W) (n : Z) : Loop bool :=
  perform start n;;
  perform compress config request ports;;
  provider_request <~ prepare_invocation request n;;
  stream <~ open_stream config request provider_request;;
  response <~ consume request stream;;
  perform accept_response n response;;
  calls <~ pending_calls (response_content response);;
  perform run_tools request ports calls;;
  end_iteration n response.

(** [for iteration in n..n + tries] *)
Fixpoint iterate (config : AgentLoop) (request : AgentTurnRequest W)
    (ports : AgentExecutionPorts W) (tries : nat) (n : Z) : Loop unit :=
  match tries with
  | O => eret tt
  | S tries =>
      terminal <~ run_iteration config request ports n;;
      if terminal then eret tt else iterate config request ports tries (n + 1)
  end.

(** After the loop. *)
Definition epilogue (config : AgentLoop) (request : AgentTurnRequest W)
    (ports : AgentExecutionPorts W) : Loop unit :=
  m <~ get_machine;;
  perform (if phase m == ReadyForIteration
           then turn_to RunningAfterHooks IterationLimitReached else eret tt);;
  hooks <~ awaiting (etry (run_turn_hooks (req_tools request) AfterTurn
                             (port_tool_context ports)));;
  match hooks with
  | inr blocked => fail_with (LoopError.Tool (hook_blocked_text blocked))
  | inl _ =>
      m <~ get_machine;;
      match outcome m with
      | Ok outcome =>
          perform turn_to Completed AfterHooksCompleted;;
          yield (AgentEvent.Done outcome)
      | _ => fail_with (LoopError.MaxIterationsReached (max_iterations config))
      end
  end.

Definition kernel (config : AgentLoop) (request : AgentTurnRequest W)
    (ports : AgentExecutionPorts W) : Loop unit :=
  perform prologue request ports;;
  perform iterate config request ports (Z.to_nat (max_iterations config)) 1;;
  epilogue config request ports.

Definition initial_state (request : AgentTurnRequest W) (w : W) : LoopState :=
  {| machine := TurnMachine.new (req_conversation request); world := w; events := [] |}.

(** [run_stream]: the events, and how the stream ends; [return] is an end. *)
Definition run_stream (config : AgentLoop) (request : AgentTurnRequest W)
    (ports : AgentExecutionPorts W) (w : W) : LoopState * res unit Return :=
  kernel config request ports (initial_state request w).

(** * Consumers of the stream *)

(** The [while let] of [consume_stream_to_run] and of [run_with_events]. *)
Fixpoint last_outcome (l : list AgentEvent.t) (outcome : option AgentOutcome)
    : res (option AgentOutcome) AgentLoopError :=
  match l with
  | [] => Ok outcome
  | AgentEvent.Done completed :: l => last_outcome l (Some completed)
  | AgentEvent.Error e :: _ => Err e
  | _ :: l => last_outcome l outcome
  end.

(** What a consumer sees after the last event. *)
Definition stream_outcome (max_iterations : Z) (outcome : option AgentOutcome)
    (ended : res unit Return) : res AgentOutcome AgentLoopError :=
  match ended with
  | Panic => Panic
  | Diverge => Diverge
  | _ => ok_or outcome (LoopError.MaxIterationsReached max_iterations)
  end.

(** [run] *)
Definition run (config : AgentLoop) (request : AgentTurnRequest W)
    (ports : AgentExecutionPorts W) (w : W) : res AgentOutcome AgentLoopError :=
  let '(s, ended) := run_stream config request ports w in
  outcome <- last_outcome (events s) None;;
  stream_outcome (max_iterations config) outcome ended.

(** The events [run_with_events] hands to its callback. *)
Fixpoint fired (l : list AgentEvent.t) : list AgentEvent.t :=
  match l with
  | [] => []
  | AgentEvent.Done _ :: l => fired l
  | AgentEvent.Error _ :: _ => []
  | e :: l => e :: fired l
  end.

Definition run_with_events (config : AgentLoop) (request : AgentTurnRequest W)
    (ports : AgentExecutionPorts W) (w : W)
    : list AgentEvent.t * res AgentOutcome AgentLoopError :=
  (fired (events (run_stream config request ports w).1), run config request ports w).

(** * Recovery *)

(** [RecoveryToolRequest] *)
Record RecoveryToolRequest := {
  rt_tools : ToolRegistry W;
  rt_gateway : ToolInvocationGateway W;
  rt_snapshot : ToolInvocationSnapshot;
  rt_context : ToolContext W;
  rt_call_id : string;
  rt_invocation_id : string;
  rt_route : string;
  rt_input : Value;
}.

Record RecoveryToolOutput := {
  ro_output : string;
  ro_is_error : bool;
  ro_failure_kind : option ToolFailureKind;
}.

(** [execute_recovery_tool]; progress goes to a sink that drops it. *)
Definition execute_recovery_tool (r : RecoveryToolRequest) : eff W Empty_set RecoveryToolOutput :=
  w <~ eget;;
  prepared <~ etry (eres (prepare (rt_tools r) w (rt_route r) (rt_input r)));;
  '(o, _) <~ run_steps 4
    {| er_prepared_call := prepared; er_gateway := rt_gateway r; er_snapshot := rt_snapshot r;
       er_context := rt_context r; er_call_id := rt_call_id r;
       er_invocation_id := rt_invocation_id r; er_route := rt_route r;
       er_timeout := budget_timeout (rt_context r) |} ToolExecution.Waiting;;
  eret {| ro_output := te_output o; ro_is_error := te_is_error o;
          ro_failure_kind := te_failure_kind o |}.

End kernel.

Arguments AgentLoop {J} W.
Arguments LoopState {J} W.
