(* ===== verification/AgentFacts.v ===== *)
(** The execution kernel keeps the turn machine, the events and the conversation
    in step.

    [Inv p k n ms] holds between two awaits of the loop: the machine is in phase
    [p], [k] iterations have started, within the limit, and [n] have ended, the conversation is
    [ms]; the transition events form a path of the machine, the usage is that of
    the iteration events, and no terminal event has been yielded.  Each part of
    the loop takes one such state to the next, or ends the stream with an error
    event in phase [Failed] ([Failed_with]).  [Reliable] says what the services
    have to do for the loop not to panic and not to hang. *)

From S2P Require Import Prelude Json Effects Llm TurnMachine Compression.
From S2P Require Import Compression ToolContract ToolInvocation ToolRegistry.
From S2P Require Import ToolExecution Approval AgentPorts.
From S2P Require Import AgentLoop.
From stdpp Require Import base tactics gmap sets strings list.
From Stdlib Require Import ZArith Lia.

Open Scope Z_scope.

Import TurnPhase Reason.

(** The limit on the iterations of the run. *)
Class IterationBound := iteration_bound : Z.

Section facts.
Context `{J : SerdeJson} `{C : Crates} {W : Type} `{HO : !HashOrder} `{HH : !Host W}
  `{HS : !Scheduler W} `{HC : !Codecs W} `{IB : !IterationBound}.

(** * What the events say *)

Definition transition_of (e : AgentEvent.t) : option TurnTransition :=
  match e with AgentEvent.TurnTransition t => Some t | _ => None end.
Definition start_of (e : AgentEvent.t) : option Z :=
  match e with AgentEvent.IterationStart n => Some n | _ => None end.
Definition end_of (e : AgentEvent.t) : option Z :=
  match e with AgentEvent.IterationEnd n _ _ _ => Some n | _ => None end.
Definition usage_of (e : AgentEvent.t) : option TokenUsage :=
  match e with AgentEvent.IterationEnd _ _ _ u => Some u | _ => None end.

Definition transitions (l : list AgentEvent.t) : list TurnTransition := omap transition_of l.
Definition starts (l : list AgentEvent.t) : list Z := omap start_of l.
Definition ends (l : list AgentEvent.t) : list Z := omap end_of l.
Definition provider_usages (l : list AgentEvent.t) : list TokenUsage := omap usage_of l.

Definition is_final (e : AgentEvent.t) : bool :=
  match e with AgentEvent.Done _ | AgentEvent.Error _ => true | _ => false end.

Definition quiet (e : AgentEvent.t) : bool :=
  match e with
  | AgentEvent.TurnTransition _ | AgentEvent.IterationStart _ | AgentEvent.IterationEnd _ _ _ _
  | AgentEvent.Done _ | AgentEvent.Error _ => false
  | _ => true
  end.

(** * Invariants *)

(** The events and the machine agree on the path through the phases. *)
Record path_ok (p : TurnPhase) (m : TurnMachine) (l : list AgentEvent.t) : Prop := {
  po_phase : phase m = p;
  po_chain : chained Created 0 (transitions l) p;
  po_sequence : sequence m = default 0 (tt_sequence <$> last (transitions l));
}.

(** ... and on the iterations and their usage. *)
Record account_ok (k n : Z) (m : TurnMachine) (l : list AgentEvent.t) : Prop := {
  ao_completed : completed_iterations m = n;
  ao_starts : starts l = seqZ 1 k;
  ao_ends : ends l = seqZ 1 n;
  ao_usage : cumulative_usage m = Llm.total_usage (provider_usages l);
  ao_response : if 0 <? n then ∃ r, tm_final_response m = Some r ∧ usage r = cumulative_usage m
                else tm_final_response m = None;
  ao_range : 0 ≤ n ≤ k ∧ k ≤ iteration_bound;
}.

Record Inv (p : TurnPhase) (k n : Z) (ms : list ChatMessage) (s : LoopState W) : Prop := {
  inv_path : path_ok p (machine s) (events s);
  inv_account : account_ok k n (machine s) (events s);
  inv_messages : messages (machine s) = ms;
  inv_open : Forall (λ e, is_final e = false) (events s);
  inv_iteration : iteration (machine s) = k;
}.

(** The stream is over: one terminal event, the last one. *)
Record Ended (p : TurnPhase) (last_event : AgentEvent.t) (s : LoopState W) : Prop := {
  en_path : path_ok p (machine s) (events s);
  en_last : ∃ l, events s = l ++ [last_event] ∧ Forall (λ e, is_final e = false) l;
  en_account : ∃ k n, account_ok k n (machine s) (events s);
}.

Definition Failed_with (e : AgentLoopError) : LoopState W → Prop :=
  Ended Failed (AgentEvent.Error e).
Definition Stopped (_ : Return) (s : LoopState W) : Prop := ∃ e, Failed_with e s.

Definition Ready k n : LoopState W → Prop := λ s, ∃ ms, Inv ReadyForIteration k n ms s.

(** * Services *)

Section reliable.
Context (panics hangs : Prop).

Notation calm := (Effects.calm panics hangs).

Definition pure_calm {A E} (r : res A E) : Prop :=
  match r with Panic => panics | Diverge => hangs | _ => True end.

Record Reliable (config : AgentLoop W) (request : AgentTurnRequest W)
    (ports : AgentExecutionPorts W) : Prop := {
  rel_model r : calm (complete_stream r);
  rel_stream r w w' s : complete_stream r w = (w', Ok s) → stream_end s = StreamHangs → hangs;
  rel_sleep d : calm (sleep d);
  rel_hook_command c d : calm (run_command_streaming (port_tool_context ports) c d);
  rel_pipeline m : calm (run_all (pipeline_of config) (compress_context request ports m));
  rel_tools w name tool : get (req_tools request) w name = Some tool →
    (∀ input, pure_calm (tool_prepare tool input)) ∧
    ∀ ctx c, calm (handle_streaming tool ctx c);
  rel_gateway : gateway_calm panics hangs (invocation_gateway ports);
  rel_approval g l : approval_gate ports = Some g → calm (g l);
  rel_ask_user g id q o m : ask_user_gate ports = Some g → calm (g id q o m);
  rel_review g id l : plan_gate ports = Some g → calm (review g id l);
  rel_update g id l n : plan_gate ports = Some g → calm (update g id l n);
  rel_task g r : task_gate ports = Some g → calm (g r);
  rel_workflow g c : workflow_gate ports = Some g → calm (g c);
  rel_cognition g r : cognition_gate ports = Some g → calm (g r);
  rel_doctor g : doctor_gate ports = Some g → calm g;
  rel_retries : panics ∨ 0 ≤ max_retries config ≤ 57;
}.

End reliable.

(** Any services are reliable when panics and hangs are let through. *)
Lemma calm_trivial {S E A} (c : eff S E A) : Effects.calm True True c.
Proof. intros s. by destruct (c s).2. Qed.

Lemma reliable_trivial config request ports : Reliable True True config request ports.
Proof.
  split; try (intros; apply calm_trivial); try done.
  - intros w name tool _. split; [intros input; unfold pure_calm; by case_match|].
    intros; apply calm_trivial.
  - split; [intros; apply calm_trivial|]. intros r w w' grant _ t. apply calm_trivial.
  - by left.
Qed.

(** * Primitives *)

Section rules.
Context (panics hangs : Prop).

Notation calm := (Effects.calm panics hangs).
Notation triple := (Effects.triple panics hangs).

Lemma omap_snoc {A B} (f : A → option B) l x :
  omap f (l ++ [x]) = omap f l ++ match f x with Some y => [y] | None => [] end.
Proof. rewrite omap_app. simpl. by destruct (f x). Qed.

Lemma seqZ_snoc n : 0 ≤ n → seqZ 1 (n + 1) = seqZ 1 n ++ [n + 1].
Proof. intros Hn. rewrite seqZ_app by lia. f_equal. simpl. by rewrite Z.add_comm. Qed.

Lemma Forall_snoc {A} (P : A → Prop) l x : Forall P (l ++ [x]) ↔ Forall P l ∧ P x.
Proof. by rewrite Forall_app, Forall_singleton. Qed.

Lemma path_ok_event p m l e : transition_of e = None → path_ok p m l → path_ok p m (l ++ [e]).
Proof.
  intros He [P1 P2 P3].
  assert (transitions (l ++ [e]) = transitions l) as Ht
    by (unfold transitions; by rewrite omap_snoc, He, app_nil_r).
  split; by rewrite ?Ht.
Qed.

Lemma path_ok_step p q r m l :
  path_ok p m l → is_terminal p = false → allowed p q r = true →
  ∃ m' t, transition m q r = (m', Ok t) ∧ tt_to t = q ∧
    path_ok q m' (l ++ [AgentEvent.TurnTransition t]) ∧
    messages m' = messages m ∧ iteration m' = iteration m ∧
    completed_iterations m' = completed_iterations m ∧ cumulative_usage m' = cumulative_usage m ∧
    tm_final_response m' = tm_final_response m ∧ last_provider_usage m' = last_provider_usage m.
Proof.
  intros [Hp Hc Hs] Ht Ha. unfold transition. rewrite Hp, Ht, Ha. simpl.
  eexists _, _. split_and!; try done. split; simpl; try done.
  - unfold transitions. rewrite omap_snoc. simpl.
    eapply chained_app; [exact Hc|]. fold (transitions l). rewrite <- Hs. simpl.
    by rewrite ?Hp, ?Ht, ?Ha.
  - unfold transitions. rewrite omap_snoc. simpl. by rewrite last_snoc.
Qed.

Lemma account_ok_event k n m l e :
  account_ok k n m l → start_of e = None → end_of e = None → account_ok k n m (l ++ [e]).
Proof.
  intros [H1 H2 H3 H4 H5 H6] Hs He.
  split; unfold starts, ends, provider_usages in *; rewrite ?omap_snoc; try done.
  - by rewrite Hs, app_nil_r.
  - by rewrite He, app_nil_r.
  - rewrite H4. assert (usage_of e = None) as -> by (by destruct e). by rewrite app_nil_r.
Qed.

Lemma account_ok_machine k n m m' l :
  account_ok k n m l → completed_iterations m' = completed_iterations m →
  cumulative_usage m' = cumulative_usage m → tm_final_response m' = tm_final_response m →
  account_ok k n m' l.
Proof. intros [H1 H2 H3 H4 H5 H6] E1 E2 E3. split; rewrite ?E1, ?E2, ?E3; done. Qed.

Lemma Inv_world p k n ms s w : Inv p k n ms s → Inv p k n ms (set_world w s).
Proof. by intros [H1 H2 H3 H4 H5]. Qed.

Lemma Inv_quiet p k n ms s e : quiet e = true → Inv p k n ms s → Inv p k n ms (emit_event e s).
Proof.
  intros Hq [H1 H2 H3 H4 H5]. split; simpl; try done.
  - apply path_ok_event; [by destruct e|done].
  - apply account_ok_event; [done|by destruct e..].
  - apply Forall_snoc. split; [done|by destruct e].
Qed.

Lemma yield_quiet {E} p k n ms e (R : E → LoopState W → Prop) :
  quiet e = true → triple (Inv p k n ms) (yield e) (λ _, Inv p k n ms) R.
Proof. intros Hq s Hs. by apply Inv_quiet. Qed.

Lemma yields_quiet {E} p k n ms l (R : E → LoopState W → Prop) :
  Forall (λ e, quiet e = true) l → triple (Inv p k n ms) (yields l) (λ _, Inv p k n ms) R.
Proof.
  intros Hl. apply triple_for. intros e He. apply yield_quiet. rewrite Forall_forall in Hl. auto.
Qed.

Lemma awaiting_ok {E A} p k n ms (c : eff W Empty_set A) (Q : A → Prop) (R : E → LoopState W → Prop) :
  calm c → (∀ w w' a, c w = (w', Ok a) → Q a) →
  triple (Inv p k n ms) (awaiting c) (λ a s, Q a ∧ Inv p k n ms s) R.
Proof.
  intros Hc HQ s Hs. unfold awaiting, ezoom, emap_err. specialize (Hc (world s)).
  specialize (HQ (world s)). destruct (c (world s)) as [w' [a|[]| |]]; simpl in *; try done.
  split; [by eapply HQ|by apply Inv_world].
Qed.

(** When nothing is known of the answer. *)
Lemma awaiting_any {E A} p k n ms (c : eff W Empty_set A) (R : E → LoopState W → Prop) :
  calm c → triple (Inv p k n ms) (awaiting c) (λ _, Inv p k n ms) R.
Proof.
  intros Hc. eapply triple_conseq; [by apply (awaiting_ok p k n ms c (λ _, True))|done| |done].
  by intros a s [_ H].
Qed.

Lemma turn_to_ok p q r k n ms (R : Return → LoopState W → Prop) :
  is_terminal p = false → allowed p q r = true →
  triple (Inv p k n ms) (turn_to q r) (λ _, Inv q k n ms) R.
Proof.
  intros Ht Ha s [H1 H2 H3 H4 H5]. unfold turn_to.
  destruct (path_ok_step p q r _ _ H1 Ht Ha)
    as (m' & t & -> & Hto & Hp & E1 & E2 & E3 & E4 & E5 & _).
  split; simpl; try done.
  - apply account_ok_event; [|done|done]. by eapply account_ok_machine.
  - congruence.
  - apply Forall_snoc. by split.
  - congruence.
Qed.

Lemma fail_with_ok {A} p k n ms e (Q : A → LoopState W → Prop) :
  is_terminal p = false → triple (Inv p k n ms) (fail_with e) Q Stopped.
Proof.
  intros Ht. unfold fail_with. eapply triple_bind.
  { apply (turn_to_ok p Failed ExecutionFailed); [done|by destruct p]. }
  intros _ s [H1 H2 H3 H4 H5]. simpl. exists e. split; simpl.
  - by apply path_ok_event.
  - by exists (events s).
  - exists k, n. by apply account_ok_event.
Qed.

Lemma get_machine_ok {E} p k n ms (R : E → LoopState W → Prop) :
  triple (Inv p k n ms) get_machine
    (λ m s, (messages m = ms ∧ phase m = p) ∧ machine s = m ∧ Inv p k n ms s) R.
Proof. intros s Hs. simpl. pose proof Hs as [[P1 _ _] _ H3 _ _]. split; [done|]. by split. Qed.

Lemma set_messages_ok {E} p k n ms m ms' (R : E → LoopState W → Prop) :
  triple (λ s, machine s = m ∧ Inv p k n ms s) (put_machine (with_messages m ms'))
    (λ _, Inv p k n ms') R.
Proof. intros s [<- [[P1 P2 P3] H2 H3 H4 H5]]. split; [by split|by destruct H2; split|done..]. Qed.

Lemma push_message_ok p k n ms message (R : Return → LoopState W → Prop) :
  triple (Inv p k n ms) (push_message message) (λ _, Inv p k n (ms ++ [message])) R.
Proof.
  unfold push_message. eapply triple_bind; [apply get_machine_ok|]. intros m.
  apply triple_pure. intros [-> _]. apply set_messages_ok.
Qed.

Lemma fresh_uuid_ok {E} p k n ms (R : E → LoopState W → Prop) :
  triple (Inv p k n ms) fresh_uuid (λ _, Inv p k n ms) R.
Proof. apply awaiting_any. intros w. by destruct (new_v4 w). Qed.

Lemma get_world_ok {E} p k n ms (R : E → LoopState W → Prop) :
  triple (Inv p k n ms) get_world (λ _, Inv p k n ms) R.
Proof. by intros s Hs. Qed.

End rules.

End facts.
