(* ===== verification/AgentLoopFacts.v ===== *)
(** Each part of the execution kernel takes an invariant state to the next, for
    services that are [Reliable]; the whole stream then ends as the events say. *)

From S2P Require Import Prelude Json Effects Llm TurnMachine Compression.
From S2P Require Import Compression ToolContract ToolInvocation ToolRegistry.
From S2P Require Import ToolExecution Approval AgentPorts.
From S2P Require Import AgentLoop AgentFacts.
From stdpp Require Import base tactics gmap sets strings list.
From Stdlib Require Import ZArith Lia.

Open Scope Z_scope.

Import TurnPhase Reason.

Section parts.
Context `{J : SerdeJson} `{C : Crates} {W : Type} `{HO : !HashOrder} `{HH : !Host W}
  `{HS : !Scheduler W} `{HC : !Codecs W} `{IB : !IterationBound}.
Context (panics hangs : Prop) (config : AgentLoop W) (request : AgentTurnRequest W)
  (ports : AgentExecutionPorts W).
Context (Hrel : Reliable panics hangs config request ports).

Notation calm := (Effects.calm panics hangs).
Notation triple := (Effects.triple panics hangs).

(** ** Hooks *)

Lemma run_hook_calm hook : calm (run_hook (port_tool_context ports) hook).
Proof.
  assert (∀ h, calm (hook_failed (W := W) h)) as Hfailed
    by (intros h; unfold hook_failed; by destruct (blocking h)).
  unfold run_hook. destruct (validate_execution_environment _ _ _); try apply Hfailed.
  apply calm_bind; [done|]. intros _ _ _ _. apply calm_bind.
  { apply calm_try, calm_zoom, (rel_hook_command _ _ _ _ _ Hrel). }
  intros ?? [run|e] _.
  - apply calm_bind; [apply calm_for; intros [[] ?] _; done|]. intros _ _ _ _.
    destruct (success run); [done|]. apply calm_bind; [done|]. intros _ _ _ _. apply Hfailed.
  - apply calm_bind; [done|]. intros _ _ _ _. apply Hfailed.
Qed.

Lemma turn_hooks_calm r p :
  p = BeforeTurn ∨ p = AfterTurn → calm (run_turn_hooks r p (port_tool_context ports)).
Proof.
  intros Hp w.
  assert (calm (run_configured_hooks (hooks r) p (port_tool_context ports))) as Hc
    by (apply calm_for; intros; apply run_hook_calm).
  specialize (Hc (w, [])). unfold run_turn_hooks.
  destruct Hp as [->| ->]; by destruct (run_configured_hooks _ _ _ (w, [])) as [s []].
Qed.

(** ** Before the first iteration *)

Lemma initial_inv w :
  0 ≤ iteration_bound →
  Inv Created 0 0 (conv_messages (req_conversation request)) (initial_state request w).
Proof. intros Hb. repeat split; simpl; try done; lia. Qed.

Lemma prologue_ok ms :
  triple (Inv Created 0 0 ms) (prologue request ports)
    (λ _, Inv ReadyForIteration 0 0 ms) Stopped.
Proof.
  unfold prologue. bind_with turn_to_ok; [done|done|]. bind_with get_world_ok. rename a0 into w.
  pose proof (validate_for_ends ports request w) as Hv.
  destruct (validate_for ports request w) as [u|e| |]; try done.
  - bind_with turn_to_ok; [done|done|].
    bind_with awaiting_any; [by apply calm_try, turn_hooks_calm; left|].
    destruct a1 as [?|blocked]; [by apply turn_to_ok|by apply fail_with_ok].
  - by apply fail_with_ok.
Qed.

Lemma start_ok n ms :
  0 ≤ n < u32_max → n < iteration_bound →
  triple (Inv (W:=W) ReadyForIteration n n ms) (start (n + 1))
    (λ _, Inv PreparingIteration (n + 1) n ms) Stopped.
Proof.
  intros Hn Hb s Hs. unfold start, get_machine, ebind.
  destruct Hs as [Hp Ha Hm Ho Hi]. pose proof Ha as [A1 A2 A3 A4 A5 A6].
  unfold start_iteration. rewrite A1.
  assert (n + 1 =? saturating_add u32_max n 1 = true) as ->
    by (apply Z.eqb_eq; unfold saturating_add; lia). cbn [negb].
  match goal with |- context [transition ?m0 _ _] => set (m := m0) end.
  assert (path_ok ReadyForIteration m (events s)) as Hpm
    by (destruct Hp as [P1 P2 P3]; split; [exact P1|exact P2|exact P3]).
  destruct (path_ok_step _ PreparingIteration IterationStarted _ _ Hpm eq_refl eq_refl)
    as (m' & t & -> & Hto & Hp' & E1 & E2 & E3 & E4 & E5 & _). simpl.
  split; simpl.
  - by apply path_ok_event.
  - apply (account_ok_machine (n + 1) n (machine s)); [|by rewrite ?E3, ?E4, ?E5..].
    split; unfold starts, ends, provider_usages in *; rewrite ?omap_snoc; simpl; try done.
    + by rewrite app_nil_r, A2, seqZ_snoc by lia.
    + by rewrite !app_nil_r.
    + by rewrite !app_nil_r.
    + lia.
  - by rewrite E1.
  - by rewrite !Forall_snoc.
  - by rewrite E2.
Qed.

(** ** Compression and the request *)

Lemma compress_ok k n ms :
  triple (Inv PreparingIteration k n ms) (compress config request ports)
    (λ _ s, ∃ ms', Inv CallingModel k n ms' s) Stopped.
Proof.
  unfold compress. bind_with turn_to_ok; [done|done|].
  eapply triple_bind; [apply get_machine_ok|]. intros m. apply triple_pure. intros [Hm Hp].
  eapply (triple_bind _ _ _ _ _ (λ _ s, machine s = m ∧ Inv Compacting k n ms s)).
  { destruct (_ && _); [|by apply triple_ret].
    intros s [Hs HI]. split; [done|]. by apply Inv_quiet. }
  intros _.
  eapply (triple_bind _ _ _ _ _ (λ _ s, machine s = m ∧ Inv Compacting k n ms s)).
  { intros s [Hs HI]. unfold awaiting, ezoom, emap_err.
    pose proof (rel_pipeline _ _ _ _ _ Hrel m (world s)) as Hc.
    destruct (run_all _ _ (world s)) as [w' [x|[]| |]]; simpl in *; try done.
    split; [done|]. by apply Inv_world. }
  intros [history reports].
  bind_with set_messages_ok.
  eapply (triple_bind _ _ _ _ _ (λ _, Inv Compacting k n history)).
  { destruct (filter _ reports) as [|r layers]; [by apply triple_ret|].
    bind_with yield_quiet; [done|]. by apply yield_quiet. }
  intros _. eapply triple_conseq; [by apply (turn_to_ok _ _ Compacting)|done| |done].
  intros ? s HI. by exists history.
Qed.

Lemma prepare_invocation_ok k n ms i :
  triple (Inv CallingModel k n ms) (prepare_invocation request i)
    (λ _, Inv CallingModel k n ms) Stopped.
Proof.
  unfold prepare_invocation. eapply triple_bind; [apply get_machine_ok|]. intros m.
  eapply (triple_bind _ _ _ _ _ (λ _, Inv CallingModel k n ms)).
  { unfold build_provider_request. intros s (_ & _ & Hs). revert s Hs.
    change (triple (Inv CallingModel k n ms) (build_provider_request request (messages m))
      (λ _, Inv CallingModel k n ms) Stopped).
    unfold build_provider_request. bind_with get_world_ok. bind_with fresh_uuid_ok. by apply triple_ret. }
  intros pr. destruct (encode_request pr) as [enc|err].
  - bind_with yield_quiet; [done|]. by apply triple_ret.
  - by apply fail_with_ok.
Qed.

(** ** The model call *)

Lemma backoff_some attempt : 0 ≤ attempt ≤ 57 → is_Some (backoff attempt).
Proof.
  intros Ha. unfold backoff. rewrite Z.shiftl_1_l.
  assert (2 ^ attempt ≤ 2 ^ 57) by (apply Z.pow_le_mono_r; lia).
  assert (64 <=? attempt = false) as -> by (apply Z.leb_gt; lia).
  assert (u64_max <? 100 * 2 ^ attempt = false) as ->; [|by eexists].
  apply Z.ltb_ge. transitivity (100 * 2 ^ 57); [lia|]. by vm_compute.
Qed.

Definition stream_ok (stream : ProviderStream) : Prop := stream_end stream = StreamHangs → hangs.

Lemma try_open_ok k n ms pr tries attempt :
  (panics ∨ (0 ≤ attempt ∧ Z.of_nat tries = max_retries config + 1 - attempt ∧
     0 < Z.of_nat tries ∧ max_retries config ≤ 57)) →
  triple (Inv CallingModel k n ms) (try_open config pr tries attempt)
    (λ stream s, stream_ok stream ∧ Inv CallingModel k n ms s)
    (λ _, Inv CallingModel k n ms).
Proof.
  revert attempt. induction tries as [|tries IH]; intros attempt Hr; simpl.
  - apply triple_panic. destruct Hr; [done|lia].
  - eapply triple_bind; [eapply (awaiting_ok _ _ _ _ _ _ _
      (λ r, match r with inl s => stream_ok s | inr _ => True end))|].
    + apply calm_try, (rel_model _ _ _ _ _ Hrel).
    + intros w w' [stream|e] Hw; [|done]. unfold etry in Hw.
      destruct (complete_stream pr w) as [w1 [s1|?| |]] eqn:E; simplify_eq.
      exact (rel_stream _ _ _ _ _ Hrel pr w w' stream E).
    + intros [stream|source]; [by apply triple_ret|]. apply triple_pure. intros _.
      destruct (negb _ || _) eqn:Hlast; [by apply triple_fail|].
      apply orb_false_iff in Hlast as [_ Hlast%Z.eqb_neq].
      destruct (backoff attempt) as [delay|] eqn:Hb.
      * bind_with yield_quiet; [done|].
        bind_with awaiting_any; [apply (rel_sleep _ _ _ _ _ Hrel)|]. apply IH.
        destruct Hr as [?|Hr]; [by left|right; lia].
      * apply triple_panic. destruct Hr as [?|Hr]; [done|].
        destruct (backoff_some attempt) as [? Hs]; [lia|congruence].
Qed.

Lemma open_stream_ok k n ms pr :
  triple (Inv CallingModel k n ms) (open_stream config request pr)
    (λ stream s, stream_ok stream ∧ Inv StreamingModel k n ms s) Stopped.
Proof.
  unfold open_stream.
  assert (triple (Inv CallingModel k n ms) (call_model_with_retry config pr (req_model request))
    (λ stream s, stream_ok stream ∧ Inv CallingModel k n ms s)
    (λ _, Inv CallingModel k n ms)) as Hcall.
  { unfold call_model_with_retry, validate_model_request_capabilities.
    assert (∀ l, match first_missing (capabilities (req_model request)) l with
      Panic | Diverge => False | _ => True end) as Hf.
    { induction l as [|[c f] l IHl]; simpl; [done|]. by destruct (Capabilities.contains _ _). }
    specialize (Hf (requirements pr)). destruct (first_missing _ _) as [u|e| |]; try done.
    2: by apply triple_fail.
    destruct (u32_max <? max_retries config + 1) eqn:Hm.
    - apply triple_panic. destruct (rel_retries _ _ _ _ _ Hrel) as [?|Hr]; [done|].
      apply Z.ltb_lt in Hm. exfalso. revert Hm. unfold u32_max. lia.
    - apply try_open_ok. destruct (rel_retries _ _ _ _ _ Hrel) as [?|Hr]; [by left|right; lia]. }
  eapply (triple_bind _ _ _ _ _ (λ r s, match r with inl stream => stream_ok stream | inr _ => True end
    ∧ Inv CallingModel k n ms s)).
  { intros s Hs. specialize (Hcall s Hs). unfold etry.
    by destruct (call_model_with_retry _ _ _ s) as [s' []]. }
  intros [stream|e]; apply triple_pure; [intros Hst|intros _; by apply fail_with_ok].
  bind_with turn_to_ok; [done|done|]. by apply triple_ret.
Qed.

(** ** The stream *)

Lemma consume_items_quiet expected l completed :
  Forall (λ e, quiet e = true) (consume_items expected l completed).1.
Proof.
  revert completed. induction l as [|[event|e] l IH]; intros completed; simpl; [done| |done].
  destruct (bool_decide _); [done|].
  destruct event as [text|text|response].
  - specialize (IH completed). destruct (consume_items expected l completed). by constructor.
  - specialize (IH completed). destruct (consume_items expected l completed). by constructor.
  - destruct (_ != _); [done|]. apply IH.
Qed.

Lemma consume_items_ends expected l completed :
  match (consume_items expected l completed).2 with Panic | Diverge => False | _ => True end.
Proof.
  revert completed. induction l as [|[event|e] l IH]; intros completed; simpl; [done| |done].
  destruct (bool_decide _); [done|].
  destruct event as [text|text|response].
  - specialize (IH completed). by destruct (consume_items expected l completed).
  - specialize (IH completed). by destruct (consume_items expected l completed).
  - destruct (_ != _); [done|]. apply IH.
Qed.

Lemma consume_ok k n ms stream :
  stream_ok stream →
  triple (Inv StreamingModel k n ms) (consume request stream)
    (λ _, Inv StreamingModel k n ms) Stopped.
Proof.
  intros Hst. unfold consume, consume_provider_stream.
  pose proof (consume_items_quiet (reference (req_model request)) (items stream) None) as Hq.
  pose proof (consume_items_ends (reference (req_model request)) (items stream) None) as He.
  destruct (consume_items _ _ None) as [chunks r]. simpl in *.
  bind_with yields_quiet; [done|].
  destruct r as [completed|e| |]; try done; [|by apply fail_with_ok].
  destruct (stream_end stream) eqn:Es.
  - destruct completed; simpl; [by apply triple_ret|by apply fail_with_ok].
  - by apply fail_with_ok.
  - by apply triple_hang, Hst.
Qed.

Lemma accept_response_ok k n ms i response :
  triple (Inv (W:=W) StreamingModel k n ms) (accept_response i response)
    (λ _, Inv FinalizingModelResponse k n (ms ++ [assistant_message_from_response response])) Stopped.
Proof.
  unfold accept_response. bind_with turn_to_ok; [done|done|]. bind_with yield_quiet; [done|].
  apply push_message_ok.
Qed.

End parts.

(** ** Retries *)

Section retries.
Context `{J : SerdeJson} {W : Type} `{HH : !Host W} `{HC : !Codecs W}.

(** The [i]-th retry of a call: its number, the limit and the doubled delay. *)
Definition is_retry (config : AgentLoop W) (i : Z) (e : AgentEvent.t) : Prop :=
  ∃ reason cause, e = AgentEvent.ModelRetry (i + 1) (max_retries config) (100 * 2 ^ i) reason cause.

Lemma backoff_value attempt delay :
  0 ≤ attempt → backoff attempt = Some delay → delay = 100 * 2 ^ attempt ∧ delay ≤ u64_max.
Proof.
  intros Ha. unfold backoff. rewrite Z.shiftl_1_l.
  destruct (_ || _) eqn:E; [done|]. intros [= <-]. apply orb_false_iff in E as [_ E%Z.ltb_ge].
  done.
Qed.

Lemma try_open_retries config pr tries attempt s s' r :
  0 ≤ attempt → Z.of_nat tries = max_retries config + 1 - attempt →
  try_open config pr tries attempt s = (s', r) →
  machine s' = machine s ∧
  ∃ rs, events s' = events s ++ rs ∧ attempt + Z.of_nat (length rs) ≤ Z.max attempt (max_retries config) ∧
    ∀ i e, rs !! i = Some e → is_retry config (attempt + Z.of_nat i) e.
Proof.
  revert attempt s. induction tries as [|tries IH]; intros attempt s Ha Ht; cbn [try_open].
  - intros [= <- <-]. split; [done|]. exists []. rewrite app_nil_r. split_and!; [done|simpl; lia|done].
  - assert (∀ (s1 : LoopState W) (_ : unit), machine s1 = machine s → events s1 = events s →
      machine s1 = machine s ∧ ∃ rs, events s1 = events s ++ rs ∧
        attempt + Z.of_nat (length rs) ≤ Z.max attempt (max_retries config) ∧
        ∀ i e, rs !! i = Some e → is_retry config (attempt + Z.of_nat i) e) as Hsame.
    { intros s1 _ Hm He. split; [done|]. exists []. rewrite app_nil_r, He.
      split_and!; [done|simpl; lia|done]. }
    unfold ebind at 1, awaiting at 1, ezoom, emap_err, etry.
    destruct (complete_stream pr (world s)) as [w1 [stream|source| |]];
      try (intros [= <- <-]; by apply (Hsame _ tt)).
    simpl. destruct (negb _ || _) eqn:Hlast; [intros [= <- <-]; by apply (Hsame _ tt)|].
    apply orb_false_iff in Hlast as [_ Hlast%Z.eqb_neq].
    destruct (backoff attempt) as [delay|] eqn:Hb; [|intros [= <- <-]; by apply (Hsame _ tt)].
    apply backoff_value in Hb as [-> _]; [|done].
    unfold ebind at 1. cbn [yield emodify]. unfold ebind at 1, awaiting, ezoom, emap_err.
    set (e0 := AgentEvent.ModelRetry _ _ _ _ _).
    assert (is_retry config attempt e0) as He0 by (by eexists _, _).
    assert (∀ s1 : LoopState W, machine s1 = machine s → events s1 = events s ++ [e0] →
      machine s1 = machine s ∧ ∃ rs, events s1 = events s ++ rs ∧
        attempt + Z.of_nat (length rs) ≤ Z.max attempt (max_retries config) ∧
        ∀ i e, rs !! i = Some e → is_retry config (attempt + Z.of_nat i) e) as Hone.
    { intros s1 Hm He. split; [done|]. exists [e0]. split_and!; [done|simpl; lia|].
      intros [|i] e Hi; simplify_eq/=. by rewrite Z.add_0_r. }
    destruct (sleep (100 * 2 ^ attempt) _) as [w2 [u|[]| |]] eqn:Hsl; simpl in Hsl |- *;
      try (intros [= <- <-]; by apply Hone).
    intros Hrec. apply IH in Hrec as (Hm & rs & He & Hlen & Hrs); [|lia|lia].
    split; [done|]. exists (e0 :: rs). simpl in He. split_and!.
    + by rewrite He, <- app_assoc.
    + simpl. lia.
    + intros [|i] e Hi; simplify_eq/=; [by rewrite Z.add_0_r|].
      specialize (Hrs i e Hi). by replace (attempt + Z.of_nat (S i)) with (attempt + 1 + Z.of_nat i) by lia.
Qed.

End retries.
