(* ===== verification/AgentRunFacts.v ===== *)
(** The tool phase of an iteration, the loop and its end: every call of a
    response gets one result, in order; the stream ends with one terminal event. *)

From S2P Require Import Prelude Json Effects Llm TurnMachine Compression ToolContract.
From S2P Require Import ToolInvocation ToolRegistry ToolExecution Approval AgentPorts.
From S2P Require Import AgentLoop AgentFacts AgentLoopFacts.
From stdpp Require Import base tactics gmap sets strings list.
From Stdlib Require Import ZArith Lia.

Open Scope Z_scope.

Import TurnPhase Reason.

(** The ids of the calls in a response, and of the results in a message. *)
Definition response_calls `{J : SerdeJson} (response : ModelResponse) : list string :=
  response_content response ≫= OrphanSnip.call_ids.
Definition answered_ids `{J : SerdeJson} (blocks : list ContentBlock) : list string :=
  blocks ≫= result_ids.

(** ** Decisions *)

Section decisions.
Context `{J : SerdeJson} {W : Type}.

(** A call is approved when it is prepared, and the gate approved the request it
    was asked about, unless the call is of a control tool. *)
Lemma merge_decisions_approved (l : list (Prepared (W := W))) gated i q :
  l !! i = Some q → merge_decisions l gated !! i = Some Approval.Approved →
  ∃ c, q.2 = inl c ∧
    if is_control_tool (pt_name q.1) then True
    else gated !! length (omap approval_request (take i l)) = Some Approval.Approved.
Proof.
  revert gated i. induction l as [|[tool p] l IH]; intros gated i Hi Hd; [done|].
  destruct i as [|i]; simpl in Hi.
  - injection Hi as <-. simpl in *. destruct p as [c|e]; [|done]. exists c. split; [done|].
    destruct (is_control_tool (pt_name tool)); [done|]. by destruct gated; simplify_eq/=.
  - destruct p as [c|e]; simpl in Hd.
    + unfold approval_request at 1. simpl.
      destruct (is_control_tool (pt_name tool)); simpl in *; [by apply IH|].
      destruct gated as [|d gated]; simpl in *; [|by apply IH].
      destruct (IH [] i Hi Hd) as (c' & Hc & Hg). exists c'. split; [done|].
      by destruct (is_control_tool (pt_name q.1)).
    + by apply IH.
Qed.

Lemma ungated_approved (l : list (Prepared (W := W))) i q :
  l !! i = Some q → (ungated_decision <$> l) !! i = Some Approval.Approved →
  ∃ c, q.2 = inl c.
Proof.
  intros Hi Hd. apply list_lookup_fmap_Some in Hd as (q' & Hd & Hq).
  injection (eq_trans (eq_sym Hi) Hq) as <-. unfold ungated_decision in Hd.
  destruct (q.2); simplify_eq. by eexists.
Qed.

End decisions.

Section tools.
Context `{J : SerdeJson} `{C : Crates} {W : Type} `{HO : !HashOrder} `{HH : !Host W}
  `{HS : !Scheduler W} `{HC : !Codecs W} `{IB : !IterationBound}.
Context (panics hangs : Prop) (config : AgentLoop W) (request : AgentTurnRequest W)
  (ports : AgentExecutionPorts W).
Context (Hrel : Reliable panics hangs config request ports).

Notation calm := (Effects.calm panics hangs).
Notation triple := (Effects.triple panics hangs).
Notation prepared_calm := (prepared_calm panics hangs).

(** ** Preparation *)

Lemma pending_calls_ok p k n ms blocks :
  triple (Inv (W := W) p k n ms) (pending_calls blocks)
    (λ calls s, pt_id <$> calls = blocks ≫= OrphanSnip.call_ids ∧ Inv p k n ms s) Stopped.
Proof.
  induction blocks as [|b blocks IH]; [by apply triple_ret|].
  destruct b; try exact IH. cbn [pending_calls].
  bind_with fresh_uuid_ok. eapply triple_bind; [exact IH|]. intros rest.
  apply triple_pure. intros Hrest. apply triple_ret. intros s Hs. split; [|done].
  simpl. by f_equal.
Qed.

Lemma prepare_calm w tool input :
  match prepare (req_tools request) w tool input with
  | Ok c => handler_calm panics hangs c
  | Err _ => True
  | Panic => panics
  | Diverge => hangs
  end.
Proof.
  unfold prepare. destruct (get (req_tools request) w tool) as [impl|] eqn:E; simpl; [|done].
  destruct (rel_tools _ _ _ _ _ Hrel w tool impl E) as [Hp Hh]. specialize (Hp input).
  destruct (tool_prepare impl input); simpl; try done. intros ctx. apply Hh.
Qed.

Lemma prepare_calls_ok p k n ms w calls :
  triple (Inv p k n ms) (prepare_calls request w calls)
    (λ l s, (l.*1 = calls ∧ Forall (λ q, prepared_calm q.2) l) ∧ Inv p k n ms s) Stopped.
Proof.
  induction calls as [|tool calls IH]; [by apply triple_ret|]. cbn [prepare_calls].
  eapply (triple_bind _ _ _ _ _ (λ q s, prepared_calm q ∧ Inv p k n ms s)).
  { intros s Hs. pose proof (prepare_calm w (pt_name tool) (pt_input tool)) as Hc.
    unfold etry, eres. by destruct (prepare _ w _ _). }
  intros q. apply triple_pure. intros Hq. eapply triple_bind; [exact IH|]. intros rest.
  apply triple_pure. intros [Hrest Hall]. apply triple_ret. intros s Hs.
  split; [|done]. split; [simpl; by f_equal|by constructor].
Qed.

Lemma announce_prepared_ok p k n ms q :
  triple (Inv (W := W) p k n ms) (announce_prepared ports q) (λ _, Inv p k n ms) Stopped.
Proof. unfold announce_prepared. destruct q as [tool [c|e]]; by apply yield_quiet. Qed.

Lemma merge_decisions_length (l : list (Prepared (W := W))) gated :
  length (merge_decisions l gated) = length l.
Proof.
  revert gated. induction l as [|[tool [c|e]] l IH]; intros gated; simpl; [done| |by rewrite IH].
  destruct (is_control_tool _); simpl; [by rewrite IH|]. destruct gated; simpl; by rewrite IH.
Qed.

Lemma decisions_for_ok k n ms l :
  triple (Inv PreparingTools k n ms) (decisions_for ports l)
    (λ ds s, length ds = length l ∧ Inv PreparingTools k n ms s) Stopped.
Proof.
  unfold decisions_for. destruct (approval_gate ports) as [gate|] eqn:Hg.
  - bind_with turn_to_ok; [done|done|].
    bind_with awaiting_any; [by apply (rel_approval _ _ _ _ _ Hrel)|].
    bind_with turn_to_ok; [done|done|]. apply triple_ret. intros s Hs.
    split; [apply merge_decisions_length|done].
  - apply triple_ret. intros s Hs. split; [by rewrite length_fmap|done].
Qed.

(** ** One call *)

Notation answers id k n ms := (λ b s, result_ids b = [id] ∧ Inv ExecutingTools k n ms s).

Lemma finish_call_ok k n ms id name output e f :
  triple (Inv (W := W) ExecutingTools k n ms) (finish_call id name output e f)
    (answers id k n ms) Stopped.
Proof. unfold finish_call. bind_with yield_quiet; [done|]. by apply triple_ret. Qed.

(** A gate that may be absent, asked by a call. *)
Lemma gate_ok {A} k n ms (c : Loop (W := W) A) id (f : A → Loop ContentBlock) :
  triple (Inv ExecutingTools k n ms) c (λ _, Inv ExecutingTools k n ms) Stopped →
  (∀ a, triple (Inv ExecutingTools k n ms) (f a) (answers id k n ms) Stopped) →
  triple (Inv ExecutingTools k n ms) (a <~ c;; f a) (answers id k n ms) Stopped.
Proof. intros Hc Hf. eapply triple_bind; [exact Hc|exact Hf]. Qed.

Lemma run_ask_user_ok k n ms tool :
  triple (Inv ExecutingTools k n ms) (run_ask_user ports tool) (answers (pt_id tool) k n ms) Stopped.
Proof.
  unfold run_ask_user. bind_with turn_to_ok; [done|done|]. bind_with yield_quiet; [done|].
  eapply (triple_bind _ _ _ _ _ (λ _, Inv WaitingForUser k n ms)).
  { destruct (ask_user_gate ports) eqn:Hg; [|by apply triple_ret].
    by apply awaiting_any, (rel_ask_user _ _ _ _ _ Hrel). }
  intros answer. bind_with turn_to_ok; [done|done|]. bind_with yield_quiet; [done|].
  apply finish_call_ok.
Qed.

Lemma run_present_plan_ok k n ms tool :
  triple (Inv ExecutingTools k n ms) (run_present_plan ports tool)
    (answers (pt_id tool) k n ms) Stopped.
Proof.
  unfold run_present_plan. bind_with turn_to_ok; [done|done|]. bind_with yield_quiet; [done|].
  eapply (triple_bind _ _ _ _ _ (λ _, Inv WaitingForPlanReview k n ms)).
  { destruct (plan_gate ports) eqn:Hg; [|by apply triple_ret].
    by apply awaiting_any, (rel_review _ _ _ _ _ Hrel). }
  intros d. bind_with turn_to_ok; [done|done|]. bind_with yield_quiet; [done|].
  destruct (plan_result d). apply finish_call_ok.
Qed.

Lemma run_background_task_ok k n ms tool :
  triple (Inv ExecutingTools k n ms) (run_background_task ports tool)
    (answers (pt_id tool) k n ms) Stopped.
Proof.
  apply gate_ok; [|intros; apply finish_call_ok].
  destruct (task_gate ports) eqn:Hg; [|by apply triple_ret].
  by apply awaiting_any, calm_try, (rel_task _ _ _ _ _ Hrel).
Qed.

Lemma run_manage_workflow_ok k n ms tool :
  triple (Inv ExecutingTools k n ms) (run_manage_workflow ports tool)
    (answers (pt_id tool) k n ms) Stopped.
Proof.
  apply gate_ok; [|intros; apply finish_call_ok].
  destruct (workflow_from_value _) as [c|e]; [|by apply triple_ret].
  destruct (workflow_gate ports) eqn:Hg; [|by apply triple_ret].
  bind_with awaiting_any; [by apply calm_try, (rel_workflow _ _ _ _ _ Hrel)|]. by apply triple_ret.
Qed.

Lemma run_consult_cognition_ok k n ms tool :
  triple (Inv ExecutingTools k n ms) (run_consult_cognition ports tool)
    (answers (pt_id tool) k n ms) Stopped.
Proof.
  apply gate_ok; [|intros; apply finish_call_ok].
  destruct (cognition_from_value _) as [c|e]; [|by apply triple_ret].
  destruct (cognition_gate ports) eqn:Hg; [|by apply triple_ret].
  bind_with awaiting_any; [by apply calm_try, (rel_cognition _ _ _ _ _ Hrel)|]. by apply triple_ret.
Qed.

Lemma run_inspect_runtime_ok k n ms tool :
  triple (Inv ExecutingTools k n ms) (run_inspect_runtime ports tool)
    (answers (pt_id tool) k n ms) Stopped.
Proof.
  apply gate_ok; [|intros; apply finish_call_ok].
  destruct (doctor_gate ports) eqn:Hg; [|by apply triple_ret].
  bind_with awaiting_any; [by apply calm_try, (rel_doctor _ _ _ _ _ Hrel)|]. by apply triple_ret.
Qed.

Lemma run_update_plan_ok k n ms tool :
  triple (Inv ExecutingTools k n ms) (run_update_plan ports tool)
    (answers (pt_id tool) k n ms) Stopped.
Proof.
  apply gate_ok; [|intros; apply finish_call_ok].
  destruct (_ || _); [by apply triple_ret|].
  destruct (plan_gate ports) eqn:Hg; [|by apply triple_ret].
  bind_with awaiting_any; [by apply (rel_update _ _ _ _ _ Hrel)|]. by apply triple_ret.
Qed.

Lemma omission_ok p k n ms id name b :
  triple (Inv (W := W) p k n ms) (omission id name b) (λ _, Inv p k n ms) Stopped.
Proof. unfold omission. destruct b; [by apply yield_quiet|by apply triple_ret]. Qed.

Lemma publish_outcome_ok k n ms id name o :
  triple (Inv (W := W) ExecutingTools k n ms) (publish_outcome id name o)
    (answers id k n ms) Stopped.
Proof.
  unfold publish_outcome. eapply (triple_bind _ _ _ _ _ (λ _, Inv ExecutingTools k n ms)).
  { destruct (timed_out_after o); [by apply yield_quiet|by apply triple_ret]. }
  intros _. apply finish_call_ok.
Qed.

Lemma reject_call_ok k n ms id name reason :
  triple (Inv (W := W) ExecutingTools k n ms) (reject_call id name reason)
    (answers id k n ms) Stopped.
Proof. unfold reject_call. bind_with yield_quiet; [done|]. by apply triple_ret. Qed.

Lemma execution_calm (q : Prepared) :
  prepared_calm q.2 → request_calm panics hangs (execution_request ports q).
Proof. intros Hq. split; [apply (rel_gateway _ _ _ _ _ Hrel)|done]. Qed.

Lemma run_ordinary_ok k n ms q :
  prepared_calm q.2 →
  triple (Inv ExecutingTools k n ms) (run_ordinary ports q) (answers (pt_id q.1) k n ms) Stopped.
Proof.
  intros Hq. unfold run_ordinary.
  bind_with awaiting_any; [by apply execute_registered_tool_calm, execution_calm|].
  destruct a as [o [deltas omitted]].
  bind_with yields_quiet; [apply Forall_fmap, Forall_forall; done|].
  bind_with omission_ok. apply publish_outcome_ok.
Qed.

Lemma run_call_ok k n ms q d :
  prepared_calm q.2 →
  triple (Inv ExecutingTools k n ms) (run_call ports q d) (answers (pt_id q.1) k n ms) Stopped.
Proof.
  intros Hq. unfold run_call. destruct d as [|reason]; [|apply reject_call_ok].
  bind_with yield_quiet; [done|].
  repeat match goal with |- context [if ?b then _ else _] => destruct b end;
    auto using run_ask_user_ok, run_present_plan_ok, run_background_task_ok,
      run_manage_workflow_ok, run_consult_cognition_ok, run_inspect_runtime_ok,
      run_update_plan_ok, run_ordinary_ok.
Qed.

(** ** All calls of a response *)

Notation answers_all ids k n ms :=
  (λ blocks s, answered_ids blocks = ids ∧ Inv ExecutingTools k n ms s).

Lemma answers_cons k n ms id ids (c : Loop (W := W) ContentBlock) (r : Loop (list ContentBlock)) :
  triple (Inv ExecutingTools k n ms) c (answers id k n ms) Stopped →
  triple (Inv ExecutingTools k n ms) r (answers_all ids k n ms) Stopped →
  triple (Inv ExecutingTools k n ms) (block <~ c;; blocks <~ r;; eret (block :: blocks))
    (answers_all (id :: ids) k n ms) Stopped.
Proof.
  intros Hc Hr. eapply triple_bind; [exact Hc|]. intros b. apply triple_pure. intros Hb.
  eapply triple_bind; [exact Hr|]. intros blocks. apply triple_pure. intros Hbs.
  apply triple_ret. intros s Hs. split; [|done]. unfold answered_ids in *.
  rewrite bind_cons, Hb, Hbs. done.
Qed.

Lemma run_calls_ok k n ms l :
  Forall (λ q, prepared_calm q.1.2) l →
  triple (Inv ExecutingTools k n ms) (run_calls ports l)
    (answers_all ((λ q, pt_id q.1.1) <$> l) k n ms) Stopped.
Proof.
  induction 1 as [|[q d] l Hq Hl IH]; [by apply triple_ret|]. cbn [run_calls].
  apply answers_cons; [by apply run_call_ok|exact IH].
Qed.

Lemma publish_batch_ok k n ms l :
  triple (Inv (W := W) ExecutingTools k n ms) (publish_batch l)
    (answers_all ((λ o, (outcome_id o).1) <$> l) k n ms) Stopped.
Proof.
  induction l as [|[[[id name] o] omitted] l IH]; [by apply triple_ret|]. cbn [publish_batch].
  bind_with omission_ok. apply answers_cons; [|exact IH].
  destruct o; [apply publish_outcome_ok|apply reject_call_ok].
Qed.

Lemma run_parallel_ok k n ms l :
  Forall (λ q, prepared_calm q.1.2) l →
  triple (Inv ExecutingTools k n ms) (run_parallel ports l)
    (answers_all ((λ q, pt_id q.1.1) <$> l) k n ms) Stopped.
Proof.
  intros Hl. unfold run_parallel. bind_with yields_quiet.
  { apply Forall_forall. intros e ([q d] & Hin & _)%list_elem_of_bind.
    destruct d; simpl in Hin; set_solver. }
  eapply triple_bind; [eapply (awaiting_ok _ _ _ _ _ _ _ (λ r,
    (λ o, (outcome_id o).1) <$> r.1 = (λ q, pt_id q.1.1) <$> l))|].
  - apply execute_batch_calm. apply Forall_fmap. eapply Forall_impl; [exact Hl|].
    intros [q d] Hq. simpl. unfold thread_calm, batch_thread. destruct d; simpl; [|done].
    split; [by apply execution_calm|done].
  - intros w w' [outcomes ds] Hrun. simpl. apply execute_batch_outcomes in Hrun.
    rewrite <- list_fmap_compose in Hrun. apply (f_equal (fmap fst)) in Hrun.
    rewrite <- !list_fmap_compose in Hrun. etransitivity; [exact Hrun|].
    apply list_fmap_ext. by intros ? [q d] _.
  - intros [outcomes ds]. apply triple_pure. simpl. intros <-.
    bind_with yields_quiet; [|apply publish_batch_ok].
    apply Forall_fmap, Forall_forall. by intros [[??]?] _.
Qed.

(** The state after step 7. *)
Definition answered (calls : list string) (ms : list ChatMessage) (p : TurnPhase)
    (ms' : list ChatMessage) : Prop :=
  match calls with
  | [] => p = FinalizingModelResponse ∧ ms' = ms
  | _ => p = ExecutingTools ∧
      ∃ blocks, ms' = ms ++ [user_blocks blocks] ∧ answered_ids blocks = calls
  end.

Lemma run_tools_ok k n ms calls :
  triple (Inv FinalizingModelResponse k n ms) (run_tools request ports calls)
    (λ _ s, ∃ p ms', answered (pt_id <$> calls) ms p ms' ∧ Inv p k n ms' s) Stopped.
Proof.
  unfold run_tools. destruct calls as [|c calls].
  { apply triple_ret. intros s Hs. by exists FinalizingModelResponse, ms. }
  bind_with turn_to_ok; [done|done|]. bind_with get_world_ok.
  bind_with prepare_calls_ok. apply triple_pure. intros [Hcalls Hcalm].
  eapply triple_bind; [apply triple_for; intros; apply announce_prepared_ok|]. intros ?.
  bind_with decisions_for_ok. apply triple_pure. intros Hlen.
  bind_with turn_to_ok; [done|done|]. unfold execute_calls.
  set (l := zip _ _).
  assert (Forall (λ q, prepared_calm q.1.2) l) as Hl.
  { apply Forall_forall. intros [q d] Hin%elem_of_zip_l. rewrite Forall_forall in Hcalm. auto. }
  assert ((λ q, pt_id q.1.1) <$> l = pt_id <$> c :: calls) as Hids.
  { rewrite <- Hcalls, <- list_fmap_compose. unfold l.
    rewrite <- (fst_zip a1 a3) at 2 by lia. by rewrite <- list_fmap_compose. }
  eapply (triple_bind _ _ _ _ _ (answers_all (pt_id <$> c :: calls) k n ms)).
  { rewrite <- Hids. destruct (existsb _ _); [by apply run_calls_ok|by apply run_parallel_ok]. }
  intros blocks. apply triple_pure. intros Hb.
  eapply triple_conseq; [apply push_message_ok|done| |done].
  intros ? s Hs. exists ExecutingTools, (ms ++ [user_blocks blocks]).
  split; [|exact Hs]. split; [done|]. by exists blocks.
Qed.

End tools.

(** ** What a call can use *)

(** The tools that the loop answers itself. *)
Definition control_names : list string :=
  ["ask_user"; "consult_cognition"; "inspect_runtime"; "manage_workflow"; "present_plan";
   "start_background_task"; "update_plan"].

Section blind.
Context `{J : SerdeJson} `{C : Crates} {W : Type} `{HO : !HashOrder} `{HH : !Host W}
  `{HS : !Scheduler W} `{HC : !Codecs W}.

(** The same call, prepared to the same handler if it may be used: the call is approved
    and not of a control tool. *)
Definition same_if_granted (qd : Prepared (W := W) * Approval.ApprovalDecision)
    (q' : Prepared (W := W)) : Prop :=
  q'.1 = qd.1.1 ∧ (qd.2 = Approval.Approved → pt_name qd.1.1 ∉ control_names → q' = qd.1).

Lemma is_control_true name : is_control_tool name = true ↔ name ∈ control_names.
Proof. apply bool_decide_eq_true. Qed.

Lemma run_call_blind (ports : AgentExecutionPorts W) q d q' :
  same_if_granted (q, d) q' → run_call ports q' d = run_call ports q d.
Proof.
  intros [Hid Hq]. simpl in *. unfold run_call. rewrite Hid. destruct d; [|done].
  destruct (decide (pt_name q.1 ∈ control_names)) as [Hin|Hout]; [|by rewrite Hq].
  repeat match goal with |- context [if ?b then _ else _] =>
    destruct b eqn:?; [done|] end.
  rewrite !bool_decide_eq_false in *. unfold control_names in Hin. set_solver.
Qed.

Lemma run_calls_blind (ports : AgentExecutionPorts W) l l' :
  Forall2 same_if_granted l l' → run_calls ports (zip l' l.*2) = run_calls ports l.
Proof.
  induction 1 as [|[q d] q' l l' Hq Hl IH]; [done|].
  change (zip (q' :: l') ((q, d) :: l).*2) with ((q', d) :: zip l' l.*2). cbn [run_calls].
  by rewrite IH, (run_call_blind _ q d q').
Qed.

Lemma batch_blind (ports : AgentExecutionPorts W) l l' :
  Forall (λ qd, pt_name qd.1.1 ∉ control_names) l → Forall2 same_if_granted l l' →
  run_parallel ports (zip l' l.*2) = run_parallel ports l.
Proof.
  intros Hc Hl. unfold run_parallel.
  assert ((zip l' l.*2 ≫= start_events) = (l ≫= start_events) ∧
    batch_thread ports <$> zip l' l.*2 = batch_thread ports <$> l) as [-> ->]; [|done].
  induction Hl as [|[q d] q' l l' [Hid Hq] Hl IH]; [done|]. apply Forall_cons in Hc as [Hn Hc].
  destruct (IH Hc) as [IH1 IH2].
  change (zip (q' :: l') ((q, d) :: l).*2) with ((q', d) :: zip l' l.*2).
  assert (start_events (q', d) = start_events (q, d) ∧
    batch_thread ports (q', d) = batch_thread ports (q, d)) as [Hs Ht].
  { simpl in *. destruct d; [by rewrite Hq|]. by rewrite Hid. }
  split.
  - etransitivity; [apply bind_cons|]. rewrite Hs.
    etransitivity; [|symmetry; apply bind_cons]. f_equal. exact IH1.
  - etransitivity; [apply fmap_cons|]. rewrite Ht. exact (f_equal (cons _) IH2).
Qed.

(** The calls run without what is prepared for those that are not granted. *)
Lemma execute_calls_blind (ports : AgentExecutionPorts W) calls l l' :
  l.*1.*1 = calls → Forall2 same_if_granted l l' →
  execute_calls ports calls (zip l' l.*2) = execute_calls ports calls l.
Proof.
  intros Hids Hl. unfold execute_calls. destruct (existsb _ calls) eqn:He.
  - by rewrite run_calls_blind.
  - rewrite batch_blind; [done| |done]. rewrite existsb_false_elem in He.
    apply Forall_forall. intros [q d] Hin Hname%is_control_true. simpl in Hname.
    rewrite He in Hname; [done|]. rewrite <- Hids. apply list_elem_of_fmap. exists q.
    split; [done|]. apply list_elem_of_fmap. by exists (q, d).
Qed.

Lemma prepare_calls_spec (request : AgentTurnRequest W) w calls s s' l :
  prepare_calls request w calls s = (s', Ok l) →
  l.*1 = calls ∧ Forall (λ q, prepare (req_tools request) w (pt_name q.1) (pt_input q.1) =
    match q.2 with inl c => Ok c | inr e => Err e end) l.
Proof.
  revert s s' l. induction calls as [|tool calls IH]; intros s s' l; cbn [prepare_calls].
  { intros [= _ <-]. done. }
  rewrite ebind_ok. intros (q & s1 & Hq & Hrest). rewrite ebind_ok in Hrest.
  destruct Hrest as (rest & s2 & Hrest & [= _ <-]). destruct (IH _ _ _ Hrest) as [Hids Hall].
  split; [exact (f_equal (cons tool) Hids)|]. constructor; [|done]. unfold etry, eres in Hq. simpl.
  by destruct (prepare _ _ _ _); simplify_eq.
Qed.

(** The decisions of a turn: the gate is asked once, for the requests of the calls. *)
Lemma decisions_for_spec (ports : AgentExecutionPorts W) l s s' ds :
  decisions_for ports l s = (s', Ok ds) →
  match approval_gate ports with
  | None => ds = ungated_decision <$> l
  | Some gate => ∃ w w' gated, gate (omap approval_request l) w = (w', Ok gated) ∧
      ds = merge_decisions l gated
  end.
Proof.
  unfold decisions_for. destruct (approval_gate ports) as [gate|]; [|by intros [= _ <-]].
  rewrite ebind_ok. intros (? & s1 & _ & H). rewrite ebind_ok in H.
  destruct H as (gated & s2 & Hg & H). rewrite ebind_ok in H.
  destruct H as (? & s3 & _ & [= _ <-]). unfold awaiting, ezoom, emap_err in Hg.
  destruct (gate _ (world s1)) as [w' [g|[]| |]] eqn:Hr; try done. injection Hg as _ ->.
  by exists (world s1), w', gated.
Qed.

Lemma decided_length (ports : AgentExecutionPorts W) l s s' ds :
  decisions_for ports l s = (s', Ok ds) → length ds = length l.
Proof.
  intros H%decisions_for_spec. destruct (approval_gate ports).
  - destruct H as (? & ? & ? & _ & ->). apply merge_decisions_length.
  - subst. apply length_fmap.
Qed.

Lemma run_tools_stages (request : AgentTurnRequest W) ports calls s s' :
  calls ≠ [] → run_tools request ports calls s = (s', Ok tt) →
  ∃ w prepared decisions s1 s2 s3 s4, prepare_calls request w calls s1 = (s2, Ok prepared) ∧
    decisions_for ports prepared s3 = (s4, Ok decisions) ∧
    ∃ s5, execute_calls ports calls (zip prepared decisions) s5 = (s', Ok tt).
Proof.
  destruct calls as [|c calls]; [done|]. intros _. unfold run_tools.
  rewrite ebind_ok. intros (? & s1 & _ & H). rewrite ebind_ok in H.
  destruct H as (w & s2 & _ & H). rewrite ebind_ok in H.
  destruct H as (prepared & s3 & Hp & H). rewrite ebind_ok in H.
  destruct H as (? & s4 & _ & H). rewrite ebind_ok in H.
  destruct H as (decisions & s5 & Hd & H). rewrite ebind_ok in H.
  destruct H as (? & s6 & _ & H). exists w, prepared, decisions, s2, s3, s4, s5.
  split; [done|]. split; [done|]. by exists s6.
Qed.
End blind.

Open Scope Z_scope.

Import TurnPhase Reason.

Section loop.
Context `{J : SerdeJson} `{C : Crates} {W : Type} `{HO : !HashOrder} `{HH : !Host W}
  `{HS : !Scheduler W} `{HC : !Codecs W} `{IB : !IterationBound}.

(** A stream that ended as it should: [Done] with the account of the events, or
    an error. *)
Record Completed_with (o : AgentOutcome) (s : LoopState W) : Prop := {
  cw_ended : Ended Completed (AgentEvent.Done o) s;
  cw_usage : TurnMachine.total_usage o = Llm.total_usage (provider_usages (events s));
  cw_response : usage (final_response o) = TurnMachine.total_usage o;
  cw_starts : starts (events s) = seqZ 1 (iterations o);
  cw_ends : ends (events s) = seqZ 1 (iterations o);
  cw_iterations : 0 < iterations o;
}.

Context (panics hangs : Prop) (config : AgentLoop W) (request : AgentTurnRequest W)
  (ports : AgentExecutionPorts W).
Context (Hrel : Reliable panics hangs config request ports).

Notation triple := (Effects.triple panics hangs).

Lemma complete_account n m l response c i id u :
  account_ok (n + 1) n m l → iteration m = n + 1 → i = n + 1 →
  account_ok (n + 1) (n + 1) (complete_iteration m response c)
    (l ++ [AgentEvent.IterationEnd i id u (usage response)]).
Proof.
  intros [A1 A2 A3 A4 A5 A6] Hi ->.
  split; unfold starts, ends, provider_usages in *; rewrite ?omap_snoc; simpl; try done.
  - by rewrite app_nil_r.
  - by rewrite A3, seqZ_snoc by lia.
  - unfold Llm.total_usage in *. by rewrite foldl_app, <- A4.
  - assert (0 <? n + 1 = true) as -> by (apply Z.ltb_lt; lia). by eexists.
  - lia.
Qed.

Definition after_end (n : Z) (ms : list ChatMessage) (b : bool) (s : LoopState W) : Prop :=
  if b then Inv RunningAfterHooks (n + 1) (n + 1) ms s
  else Inv ReadyForIteration (n + 1) (n + 1) ms s.

Lemma end_iteration_ok p n ms response :
  p = FinalizingModelResponse ∨ p = ExecutingTools →
  triple (Inv p (n + 1) n ms) (end_iteration (n + 1) response) (after_end n ms) Stopped.
Proof.
  intros Hp. unfold end_iteration.
  set (c := continuation_for response).
  eapply (triple_bind _ _ _ _ _ (λ m s, machine s = m ∧ Inv p (n + 1) n ms s)).
  { by intros s Hs. }
  intros m.
  eapply (triple_bind _ _ _ _ _ (λ _ s, machine s = complete_iteration m response c ∧
    ∃ s0, machine s0 = m ∧ events s = events s0 ∧ Inv p (n + 1) n ms s0)).
  { intros s [Hm Hs]. split; [done|]. by exists s. }
  intros _.
  eapply (triple_bind _ _ _ _ _ (λ _, Inv p (n + 1) (n + 1) ms)).
  { intros s [Hm (s0 & Hm0 & He & [[P1 P2 P3] H2 H3 H4 H5])]. rewrite Hm0 in *.
    split; simpl; rewrite ?Hm, ?He; try done.
    - apply path_ok_event; [done|]. by split.
    - by apply complete_account.
    - by apply Forall_snoc.  }
  intros _. destruct (is_terminal_stop _).
  - bind_with turn_to_ok; [by destruct Hp as [->| ->]..|]. by apply triple_ret.
  - bind_with turn_to_ok; [by destruct Hp as [->| ->]| |by apply triple_ret].
    destruct c as [[]|], Hp as [->| ->]; done.
Qed.

Lemma run_iteration_ok n ms :
  0 ≤ n < u32_max → n < iteration_bound →
  triple (Inv ReadyForIteration n n ms) (run_iteration config request ports (n + 1))
    (λ b s, ∃ ms', after_end n ms' b s) Stopped.
Proof.
  intros Hn Hb. unfold run_iteration. bind_with start_ok; [done|done|].
  bind_with compress_ok; [exact Hrel|]. apply triple_exists. intros ms1.
  bind_with prepare_invocation_ok.
  bind_with open_stream_ok; [exact Hrel|]. apply triple_pure. intros Hst.
  bind_with consume_ok; [exact Hst|]. rename a3 into response.
  bind_with accept_response_ok.
  bind_with pending_calls_ok. apply triple_pure. intros Hcalls.
  bind_with run_tools_ok; [exact Hrel|]. apply triple_exists. intros p. apply triple_exists. intros ms2.
  apply triple_pure. intros Hans.
  eapply triple_conseq; [apply (end_iteration_ok p n ms2)|done| |done].
  - revert Hans. unfold answered. destruct (pt_id <$> _); [intros [-> _]; by left|].
    intros [-> _]. by right.
  - intros b s Hs. by exists ms2.
Qed.

(** Where the [for] leaves the kernel. *)
Definition loop_left (tries : nat) (n : Z) (s : LoopState W) : Prop :=
  ∃ p k ms, Inv p k k ms s ∧
    ((p = RunningAfterHooks ∧ 0 < k ≤ n + Z.of_nat tries)
     ∨ (p = ReadyForIteration ∧ k = n + Z.of_nat tries)).

Lemma iterate_ok tries n ms :
  0 ≤ n → n + Z.of_nat tries ≤ u32_max → n + Z.of_nat tries ≤ iteration_bound →
  triple (Inv ReadyForIteration n n ms) (iterate config request ports tries (n + 1))
    (λ _, loop_left tries n) Stopped.
Proof.
  revert n ms. induction tries as [|tries IH]; intros n ms Hn Hmax Hb; cbn [iterate].
  - apply triple_ret. intros s Hs. exists ReadyForIteration, n, ms. split; [done|right; split; [done|lia]].
  - bind_with run_iteration_ok; [lia|lia|]. apply triple_exists. intros ms1. destruct a; unfold after_end.
    + apply triple_ret. intros s Hs. exists RunningAfterHooks, (n + 1), ms1. split; [done|left; split; [done|lia]].
    + eapply triple_conseq; [apply (IH (n + 1)); lia|done| |done].
      intros ? s (p & k & ms2 & Hs & Hk). exists p, k, ms2. split; [done|].
      by replace (n + Z.of_nat (S tries)) with (n + 1 + Z.of_nat tries) by lia.
Qed.

Lemma run_after_hooks_ok k ms :
  triple (Inv RunningAfterHooks k k ms)
    (awaiting (etry (run_turn_hooks (req_tools request) AfterTurn (port_tool_context ports))))
    (λ _, Inv RunningAfterHooks k k ms) Stopped.
Proof. apply awaiting_any, calm_try. eapply turn_hooks_calm; [exact Hrel|by right]. Qed.

(** The last steps of a turn with a response. *)
Lemma complete_ok k ms m o :
  0 < k → outcome m = Ok o →
  triple (λ s, machine s = m ∧ Inv RunningAfterHooks k k ms s)
    (perform turn_to Completed AfterHooksCompleted;; yield (AgentEvent.Done o))
    (λ _ s, Completed_with o s) Stopped.
Proof.
  intros Hk Ho s [Hm [H1 H2 H3 H4 H5]]. unfold turn_to, ebind.
  destruct (path_ok_step _ Completed AfterHooksCompleted _ _ H1 eq_refl eq_refl)
    as (m' & t & -> & _ & Hp & _ & _ & E3 & E4 & E5 & _).
  pose proof H2 as [A1 A2 A3 A4 A5 A6].
  assert (0 <? k = true) as Hk' by by apply Z.ltb_lt. rewrite Hk' in A5.
  destruct A5 as (r & Hr & Hu). unfold outcome in Ho. rewrite <- Hm, Hr in Ho.
  simpl in Ho. injection Ho as <-.
  assert (account_ok k k m' ((events s ++ [AgentEvent.TurnTransition t]) ++
    [AgentEvent.Done {| final_response := r;
       conversation := {| conv_messages := messages (machine s) |};
       iterations := completed_iterations (machine s);
       TurnMachine.total_usage := cumulative_usage (machine s) |}])) as Ha.
  { do 2 (apply account_ok_event; [|done|done]). by eapply account_ok_machine. }
  pose proof Ha as [B1 B2 B3 B4 B5 B6].
  split; simpl; try done.
  - split; simpl; [by apply path_ok_event| |by exists k, k].
    eexists. split; [done|]. by apply Forall_snoc.
  - by rewrite <- B4, E4.
  - by rewrite B2, A1.
  - by rewrite B3, A1.
  - by rewrite A1.
Qed.

Lemma epilogue_ok tries :
  triple (loop_left tries 0) (epilogue config request ports)
    (λ _ s, ∃ o, Completed_with o s ∧ iterations o ≤ Z.of_nat tries) Stopped.
Proof.
  apply triple_exists. intros p. apply triple_exists. intros k. apply triple_exists. intros ms.
  intros s0 [Hs0 Hk]. revert s0 Hs0.
  change (triple (Inv p k k ms) (epilogue config request ports)
    (λ _ s, ∃ o, Completed_with o s ∧ iterations o ≤ Z.of_nat tries) Stopped).
  unfold epilogue. eapply triple_bind; [apply get_machine_ok|]. intros m.
  apply triple_pure. intros [_ Hph]. rewrite Hph.
  eapply (triple_bind _ _ _ _ _ (λ _, Inv RunningAfterHooks k k ms)).
  { intros s [_ Hs]. revert s Hs.
    destruct Hk as [[-> Hk]|[-> Hk]]; [by apply triple_ret|].
    exact (turn_to_ok _ _ ReadyForIteration RunningAfterHooks IterationLimitReached k k ms Stopped
      eq_refl eq_refl). }
  intros _. bind_with run_after_hooks_ok. destruct a as [?|b]; [|by apply fail_with_ok].
  eapply triple_bind; [apply get_machine_ok|]. intros m1. apply triple_pure. intros [_ _].
  destruct (outcome m1) as [o|e| |] eqn:Ho.
  - intros s [Hm Hs].
    assert (0 < k) as Hk0.
    { destruct Hs as [_ [A1 A2 A3 A4 A5 A6] _ _ _]. apply Z.le_neq. split; [lia|]. intros Hk0.
      rewrite <- Hk0 in A5. simpl in A5. unfold outcome in Ho. rewrite <- Hm, A5 in Ho. done. }
    pose proof (complete_ok k ms m1 o Hk0 Ho s (conj Hm Hs)) as Hc.
    destruct ((perform _;; _) s) as [s' []]; try done.
    exists o. split; [done|].
    unfold outcome in Ho. destruct (tm_final_response m1); [|done]. simpl in Ho.
    injection Ho as <-. simpl. destruct Hs as [_ [A1 _ _ _ _ _] _ _ _]. rewrite <- Hm, A1.
    destruct Hk as [[_ ?]|[_ ?]]; lia.
  - intros s [_ Hs]. revert s Hs. by apply fail_with_ok.
  - intros s [_ Hs]. revert s Hs. by apply fail_with_ok.
  - intros s [_ Hs]. revert s Hs. by apply fail_with_ok.
Qed.

Lemma kernel_ok w :
  in_u32 (max_iterations config) → iteration_bound = max_iterations config →
  match run_stream config request ports w with
  | (s, Ok _) => ∃ o, Completed_with o s ∧ iterations o ≤ max_iterations config
  | (s, Err _) => ∃ e, Failed_with e s
  | (_, Panic) => panics
  | (_, Diverge) => hangs
  end.
Proof.
  intros Hmax Hb. unfold in_u32 in Hmax.
  assert (triple (Inv Created 0 0 (conv_messages (req_conversation request)))
    (kernel config request ports)
    (λ _ s, ∃ o, Completed_with o s ∧ iterations o ≤ max_iterations config) Stopped) as Hk.
  { unfold kernel. bind_with prologue_ok; [exact Hrel|].
    bind_with (iterate_ok (Z.to_nat (max_iterations config)) 0); [lia|lia|lia|].
    eapply triple_conseq; [apply (epilogue_ok (Z.to_nat (max_iterations config)))|done| |done].
    intros ? s (o & Ho & Hi). exists o. split; [done|lia]. }
  assert (0 ≤ iteration_bound) as H0 by (rewrite Hb; lia).
  specialize (Hk _ (initial_inv request w H0)). unfold run_stream.
  by destruct (kernel config request ports (initial_state request w)) as [s []].
Qed.

End loop.
