(* ===== verification/AgentSample.v ===== *)
(** A concrete agent for the instances of the theorems: JSON values as trees, a
    scripted model, one tool that reads and gates that answer at once. *)

From S2P Require Import Prelude Json Effects Llm TurnMachine Compression.
From S2P Require Import Compression ToolContract ToolFacts ToolInvocation.
From S2P Require Import ToolRegistry ToolExecution Approval.
From S2P Require Import AgentPorts AgentLoop AgentFacts AgentLoopFacts.
From S2P Require Import AgentRunFacts.
From stdpp Require Import base tactics gmap sets strings countable pretty list.
From Stdlib Require Import ZArith Lia.

(** * JSON *)

Inductive leaf := LNull | LBool (b : bool) | LNumber (z : Z) | LString (s : string).

#[global] Instance leaf_eq_dec : EqDecision leaf.
Proof. solve_decision. Defined.

(** An array is a node 0, an object a node 1 of fields, which are nodes 2 of a
    name and a value. *)
Notation json := (gen_tree leaf).

Definition field_of (v : json) : option (string * json) :=
  match v with GenNode 2 [GenLeaf (LString name); x] => Some (name, x) | _ => None end.

(** The first field of a name counts. *)
Fixpoint distinct_fields (seen : list string) (l : list (string * json)) : list (string * json) :=
  match l with
  | [] => []
  | (name, x) :: l =>
      if bool_decide (name ∈ seen) then distinct_fields seen l
      else (name, x) :: distinct_fields (name :: seen) l
  end.

Definition tree_object (v : json) : option (list (string * json)) :=
  match v with GenNode 1 l => Some (distinct_fields [] (omap field_of l)) | _ => None end.
Definition tree_array (v : json) : option (list json) :=
  match v with GenNode 0 l => Some l | _ => None end.

Fixpoint tree_size (v : json) : nat :=
  match v with
  | GenLeaf _ => 1
  | GenNode _ l => S (foldr (λ x n, tree_size x + n) 0 l)
  end.

Fixpoint tree_text (v : json) : string :=
  match v with
  | GenLeaf LNull => "null"
  | GenLeaf (LBool b) => if b then "true" else "false"
  | GenLeaf (LNumber z) => pretty z
  | GenLeaf (LString s) => "'" +:+ s +:+ "'"
  | GenNode 2 l => String.concat ":" (tree_text <$> l)
  | GenNode _ l => "[" +:+ String.concat "," (tree_text <$> l) +:+ "]"
  end.

Lemma distinct_fields_in seen l k x :
  (k, x) ∈ distinct_fields seen l → (k, x) ∈ l ∧ k ∉ seen.
Proof.
  revert seen. induction l as [|[name y] l IH]; intros seen; simpl; [by intros ?%elem_of_nil|].
  case_bool_decide as Hs.
  - intros [? ?]%IH. split; [by right|done].
  - intros [[= -> ->]|H]%elem_of_cons; [split; [by left|done]|].
    apply IH in H as [? Hk]. split; [by right|set_solver].
Qed.

Lemma distinct_fields_nodup seen l : NoDup (distinct_fields seen l).*1.
Proof.
  revert seen. induction l as [|[name y] l IH]; intros seen; simpl; [constructor|].
  case_bool_decide; [apply IH|]. simpl. constructor; [|apply IH].
  intros ([k x] & Hk & Hin)%list_elem_of_fmap. simpl in Hk. subst k.
  apply distinct_fields_in in Hin as [_ Hn]. set_solver.
Qed.

Lemma tree_size_in x n l : x ∈ l → tree_size x < tree_size (GenNode n l).
Proof. induction l as [|y l IH]; [by intros ?%elem_of_nil|]. intros [->|H]%elem_of_cons; simpl in *; [lia|]. specialize (IH H). lia. Qed.

Lemma tree_object_size v entries :
  tree_object v = Some entries → ∀ k x, (k, x) ∈ entries → tree_size x < tree_size v.
Proof.
  destruct v as [|[|[|n]] l]; simpl; try done. intros [= <-] k x Hin.
  apply distinct_fields_in in Hin as [Hin _]. apply list_elem_of_omap in Hin as (y & Hy & Hf).
  pose proof (tree_size_in y 1 l Hy) as Hlt. simpl in Hlt.
  assert (tree_size x < tree_size y); [|lia].
  unfold field_of in Hf. repeat (case_match; simplify_eq). simpl. lia.
Qed.

Lemma tree_array_size v l : tree_array v = Some l → ∀ x, x ∈ l → tree_size x < tree_size v.
Proof. destruct v as [|[|n] k]; simpl; try done. intros [= <-] x Hx. by apply (tree_size_in x 0). Qed.

Lemma tree_object_keys v entries : tree_object v = Some entries → NoDup entries.*1.
Proof.
  destruct v as [|[|[|n]] l]; simpl; try done. intros [= <-]. apply distinct_fields_nodup.
Qed.

Lemma tree_object_array v entries : tree_object v = Some entries → tree_array v = None.
Proof. by destruct v as [|[|[|n]] l]. Qed.

#[export] Instance sample_json : SerdeJson := {|
  Value := json;
  as_object := tree_object;
  as_array := tree_array;
  as_str v := match v with GenLeaf (LString s) => Some s | _ => None end;
  as_bool v := match v with GenLeaf (LBool b) => Some b | _ => None end;
  as_u64 v := match v with GenLeaf (LNumber z) => if bool_decide (0 ≤ z)%Z then Some z else None | _ => None end;
  as_i64 v := match v with GenLeaf (LNumber z) => Some z | _ => None end;
  is_null v := bool_decide (v = GenLeaf LNull);
  is_number v := match v with GenLeaf (LNumber _) => true | _ => false end;
  F64 := Z;
  as_f64 v := match v with GenLeaf (LNumber z) => Some z | _ => None end;
  f64_lt := Z.ltb;
  json_string s := GenLeaf (LString s);
  json_bool b := GenLeaf (LBool b);
  json_number z := GenLeaf (LNumber z);
  json_array := GenNode 0;
  json_object l := GenNode 1 ((λ e, GenNode 2 [GenLeaf (LString e.1); e.2]) <$> l);
  json_text := tree_text;
  json_size := tree_size;
  as_object_size := tree_object_size;
  as_array_size := tree_array_size;
  as_object_keys := tree_object_keys;
  as_object_array := tree_object_array;
|}.
(** * Services *)

#[export] Instance sample_crates : Crates := {|
  sha256_hex s := pretty (String.length s);
  uuid_parses s := bool_decide (s ≠ "");
  to_lowercase := to_ascii_lowercase;
  split_whitespace s := [s];
  trim s := s;
|}.

(** The world: what the model will answer (the items of its streams, which then
    end), and how many identifiers were drawn. *)
Record World := {
  script : list (list (ModelStreamEvent + ProviderError) + ProviderError);
  drawn : nat;
}.

Definition overloaded : ProviderError :=
  provider_error_new ProviderErrorKind.Unavailable Open "overloaded".

Definition answer_next (r : ModelRequest) : eff World ProviderError ProviderStream := λ w,
  match script w with
  | [] => (w, Err (provider_error_new ProviderErrorKind.InvalidRequest Open "no script"))
  | inl l0 :: l =>
      ({| script := l; drawn := drawn w |}, Ok {| items := l0; stream_end := Compression.Ended |})
  | inr e :: l => ({| script := l; drawn := drawn w |}, Err e)
  end.

#[export] Instance sample_host : Host World := {|
  complete_stream := answer_next;
  new_v4 w := ({| script := script w; drawn := S (drawn w) |}, "uuid-" +:+ pretty (drawn w));
  debug_len m := Z.of_nat (length (content m));
|}.

#[export] Instance sample_scheduler : Scheduler World := {|
  expires _ _ := None;
  deliver_progress deltas w := (w, (deltas, false));
  schedule w := drawn w;
|}.

#[export] Instance sample_codecs : Codecs World := {|
  encode_request r := inl (mr_request_id r);
  workflow_from_value _ := inr "unknown action";
  cognition_from_value _ := inr "unknown role";
  report_to_string _ := inl "{}";
  sleep _ := eret tt;
|}.

(** * A turn *)

Definition sample_ref : ModelRef := {| provider := "anthropic"; model_name := "m" |}.
Definition sample_model : ModelInfo := {|
  reference := sample_ref; context_window := 1000; mi_max_output_tokens := 100;
  capabilities := Capabilities.union Capabilities.TOOL_USE Capabilities.PROMPT_CACHING;
|}.

Definition sample_actor : AgentExecutionContext := {|
  actor := {| actor_user_id := "u"; actor_agent_id := "a"; actor_session_id := "s" |};
  turn_id := Some "t"; workspace := None; exec_capabilities := ∅; exec_timeout := None;
  started_at_unix_secs := 0; trace_id := None;
|}.

Definition sample_context : ToolContext World := {|
  execution := sample_actor; budget_timeout := None;
  process_isolation := Build_ProcessIsolation true true true true;
  run_command_streaming _ _ := efail "no shell"; invocation_call_id := None;
|}.

Definition read_spec (name : string) (class : ToolInvocationClass) : ToolSpec :=
  immediate name "reads" (json_object [("type", json_string "object")]) class.

(** A tool that answers with a fixed text. *)
Definition sample_tool (name : string) (class : ToolInvocationClass) : RegisteredTool World := {|
  spec := read_spec name class;
  tool_prepare := prepare_from_spec (read_spec name class);
  handle_streaming _ _ := perform emit "reading";; eret (output_ok "contents");
|}.

Definition sample_registry : ToolRegistry World :=
  register (register registry_new (sample_tool "read" InvocationClass.Read))
    (sample_tool "ask_user" InvocationClass.Control).

Definition start_world (l : list (list (ModelStreamEvent + ProviderError) + ProviderError)) : World :=
  {| script := l; drawn := 0 |}.

Definition sample_descriptors : list ToolInvocationDescriptor :=
  invocation_descriptors sample_registry (start_world []).

Definition sample_request : AgentTurnRequest World := {|
  req_conversation := {| conv_messages := [user "hello"] |};
  req_model := sample_model; system_instructions := []; req_reasoning := None;
  req_tools := sample_registry; req_execution := sample_actor;
|}.

(** Ports with a gate that answers questions and approves what it is asked. *)
Definition sample_ports : AgentExecutionPorts World :=
  let gateway := registry_bound_gateway sample_descriptors in
  {| port_tool_context := sample_context; invocation_gateway := gateway;
     invocation_snapshot := from_descriptors sample_descriptors;
     approval_gate := Some (λ l, eret ((λ _, Approval.Approved) <$> l));
     ask_user_gate := Some (λ _ _ _ _, eret ["yes"]);
     plan_gate := None; task_gate := None; workflow_gate := None; cognition_gate := None;
     doctor_gate := None; port_artifact_store := None |}.

Definition ports_without_gate : AgentExecutionPorts World :=
  ports_new sample_context (registry_bound_gateway sample_descriptors)
    (from_descriptors sample_descriptors).

Definition sample_usage (n : Z) : TokenUsage :=
  {| input_tokens := n; output_tokens := 1; cache_write_tokens := None; cache_read_tokens := None;
     details := details_default |}.

Definition response_of (blocks : list ContentBlock) (stop : StopReason) (n : Z) : ModelResponse :=
  {| response_id := "r"; response_model := sample_ref; response_content := blocks;
     stop_reason := stop; usage := sample_usage n |}.

Definition stream_of (r : ModelResponse) : list (ModelStreamEvent + ProviderError) :=
  [inl (TextDelta "..."); inl (StreamCompleted r)].

Definition tool_response : ModelResponse :=
  response_of [ToolCall "c1" "read" (json_object []); ToolCall "c2" "read" (json_object []);
               ToolCall "c3" "unknown" (json_object [])] StopReason.ToolUse 10.
Definition question_response : ModelResponse :=
  response_of [ToolCall "q1" "ask_user" (json_object [("question", json_string "Really?")]);
               ToolCall "c4" "read" (json_object [])] StopReason.ToolUse 20.
Definition final_answer : ModelResponse := response_of [Text "done"] StopReason.EndTurn 30.

(** The model is overloaded once, calls tools, asks the user, and answers. *)
Definition sample_world : World :=
  start_world [inr overloaded; inl (stream_of tool_response); inl (stream_of question_response);
               inl (stream_of final_answer)].

Definition sample_config : AgentLoop World := agent_loop_default.

Definition sample_run : LoopState World * res unit Return :=
  run_stream sample_config sample_request sample_ports sample_world.

Definition result_blocks (m : ChatMessage) : list (string * string * bool) :=
  omap (λ b, match b with
    | ToolResult id [ToolResultContent.Text text] e => Some (id, text, e)
    | _ => None end) (content m).

Example sample_run_done :
  sample_run.2 = Ok tt ∧
  match last (events sample_run.1) with
  | Some (AgentEvent.Done o) =>
      iterations o = 3%Z ∧ input_tokens (TurnMachine.total_usage o) = 60%Z ∧
      (conv_messages (conversation o) ≫= result_blocks) =
        [("c1", "contents", false); ("c2", "contents", false);
         ("c3", "tool `unknown` is unavailable", true);
         ("q1", "yes", false); ("c4", "contents", false)]
  | _ => False
  end.
Proof. vm_compute. repeat split. Qed.

(** ** The services are reliable *)

Section reliable.
Context (panics hangs : Prop).

Lemma sample_snapshot_tools w : snapshot sample_registry w = ToolRegistry.tools sample_registry.
Proof. reflexivity. Qed.

Lemma sample_tool_calm w name tool :
  get sample_registry w name = Some tool →
  (∀ input, pure_calm panics hangs (tool_prepare tool input)) ∧
  ∀ ctx c, Effects.calm panics hangs (handle_streaming tool ctx c).
Proof.
  unfold get. rewrite sample_snapshot_tools. unfold sample_registry, register. simpl. intros Hl.
  assert (∃ n class, tool = sample_tool n class) as (n & class & ->).
  { apply lookup_insert_Some in Hl as [[_ <-]|[_ Hl]]; [by eauto|].
    apply lookup_insert_Some in Hl as [[_ <-]|[_ Hl]]; [by eauto|]. done. }
  split; [|done]. intros input. simpl.
  pose proof (prepare_from_spec_returns (read_spec n class) input) as Hr. unfold returns in Hr.
  unfold pure_calm. by destruct (prepare_from_spec (read_spec n class) input).
Qed.

Lemma bound_gateway_calm ds : gateway_calm panics hangs (registry_bound_gateway (W := World) ds).
Proof.
  split.
  - intros r. simpl. apply calm_bind; [|done]. intros w. simpl.
    unfold bound_authorize, ok_or, res_bind, bail_if. by repeat case_match.
  - intros r w w' grant Hg. simpl in Hg. apply ebind_ok in Hg as (u & w1 & _ & Hk).
    unfold eret in Hk. by simplify_eq.
Qed.

Lemma sample_summarizer_calm model : llm_calm panics hangs (Some (AutoCompact.summarize (W := World) model)).
Proof.
  intros llm [= <-] l m. apply summarize_calm.
  - intros r w. simpl. unfold answer_next. by destruct (script w) as [|[] ?].
  - intros r w w' s Hw. simpl in Hw. unfold answer_next in Hw.
    by destruct (script w) as [|[] ?]; simplify_eq.
Qed.

(** Whatever the ports beyond context, gateway and gates of the sample. *)
Lemma sample_reliable ports max :
  ports = sample_ports ∨ ports = ports_without_gate →
  Reliable panics hangs {| compression_pipeline := None; max_iterations := max; max_retries := 3 |}
    sample_request ports.
Proof.
  intros Hp.
  assert (gateway_calm panics hangs (invocation_gateway ports)) as Hg
    by (destruct Hp as [->| ->]; apply bound_gateway_calm).
  split.
  - intros r w. simpl. unfold answer_next. by destruct (script w) as [|[] ?].
  - intros r w w' s Hw. simpl in Hw. unfold answer_next in Hw.
    by destruct (script w) as [|[] ?]; simplify_eq.
  - intros d. apply calm_ret.
  - intros c d w. by destruct Hp as [->| ->].
  - intros m. apply default_pipeline_calm; [by destruct Hp as [->| ->]|].
    apply sample_summarizer_calm.
  - apply sample_tool_calm.
  - exact Hg.
  - intros g l Hgate. destruct Hp as [->| ->]; simpl in Hgate; by simplify_eq.
  - intros g id q o m Hgate. destruct Hp as [->| ->]; simpl in Hgate; by simplify_eq.
  - intros g id l Hgate. by destruct Hp as [->| ->].
  - intros g id l n Hgate. by destruct Hp as [->| ->].
  - intros g r Hgate. by destruct Hp as [->| ->].
  - intros g r Hgate. by destruct Hp as [->| ->].
  - intros g r Hgate. by destruct Hp as [->| ->].
  - intros g Hgate. by destruct Hp as [->| ->].
  - right. simpl. lia.
Qed.

End reliable.

(** ** The first iteration of the sample, up to its tool calls *)

Definition first_half : Loop (W := World) (list PendingToolCall) :=
  perform prologue sample_request sample_ports;;
  perform start 1;;
  perform compress sample_config sample_request sample_ports;;
  provider_request <~ prepare_invocation sample_request 1;;
  stream <~ open_stream sample_config sample_request provider_request;;
  response <~ consume sample_request stream;;
  perform accept_response 1 response;;
  pending_calls (response_content response).

Definition sample_ready : LoopState World :=
  (first_half (initial_state sample_request sample_world)).1.
Definition sample_calls : list PendingToolCall :=
  match (first_half (initial_state sample_request sample_world)).2 with Ok l => l | _ => [] end.

#[global] Instance sample_bound : IterationBound := max_iterations sample_config.

Lemma first_half_ok ms :
  Effects.triple True True (Inv TurnPhase.Created 0 0 ms) first_half
    (λ _ s, ∃ ms', Inv TurnPhase.FinalizingModelResponse 1 0 ms' s) Stopped.
Proof.
  pose proof (reliable_trivial sample_config sample_request sample_ports) as Hrel.
  unfold first_half. bind_with prologue_ok; [exact Hrel|].
  bind_with (start_ok _ _ 0); [split; [lia|by vm_compute]|by vm_compute|].
  bind_with compress_ok; [exact Hrel|]. apply triple_exists. intros ms1.
  bind_with prepare_invocation_ok.
  bind_with open_stream_ok; [exact Hrel|]. apply triple_pure. intros Hst.
  bind_with consume_ok; [exact Hst|]. bind_with accept_response_ok.
  eapply triple_conseq; [apply pending_calls_ok|done| |done].
  intros calls s [_ Hs]. by eexists.
Qed.

Lemma sample_ready_inv : ∃ ms, Inv TurnPhase.FinalizingModelResponse 1 0 ms sample_ready.
Proof.
  assert (0 ≤ iteration_bound)%Z as Hb by (by vm_compute).
  pose proof (first_half_ok _ _ (initial_inv sample_request sample_world Hb)) as Hk.
  unfold sample_ready.
  assert (match (first_half (initial_state sample_request sample_world)).2 with
    Ok _ => True | _ => False end) as Hok by by vm_compute.
  by destruct (first_half _) as [s []].
Qed.

(** Its calls, prepared, and the batch of the two that are known. *)
Definition sample_prepared : list (Prepared (W := World)) :=
  match (prepare_calls sample_request sample_world sample_calls sample_ready).2 with
  | Ok l => l | _ => [] end.

Definition sample_batch : list (Thread World) :=
  batch_thread sample_ports <$> zip (take 2 sample_prepared) [Approval.Approved; Approval.Approved].

Definition sample_model_request : ModelRequest := {|
  mr_request_id := "id"; mr_model := sample_ref; system := []; mr_messages := [user "hello"];
  Llm.tools := []; max_output_tokens := 100; reasoning := None; output_schema := None;
|}.

