(* ===== verification/AgentSpec.v ===== *)
(** What an agent turn promises: the stream of events of the kernel, the tool
    calls and their approval, the turn machine, usage, model capabilities,
    compression, and the tool boundary (src/sylvander-agent/src and
    src/sylvander-llm-core/src).

    Each theorem with a hypothesis is followed by an instance on the agent of
    [AgentSample]. *)

From S2P Require Import Prelude Json Effects Llm TurnMachine Compression.
From S2P Require Import Compression ToolContract ToolFacts ToolInvocation.
From S2P Require Import ToolRegistry ToolExecution.
From S2P Require Import ToolExecution Approval AgentPorts AgentLoop AgentFacts.
From S2P Require Import AgentLoopFacts AgentRunFacts AgentSample.
From stdpp Require Import base tactics gmap sets strings list relations.
From Stdlib Require Import ZArith Lia.

Open Scope Z_scope.

Import TurnPhase Reason.

(** * The stream *)

Section stream.
Context `{J : SerdeJson} `{C : Crates} {W : Type} `{HO : !HashOrder} `{HH : !Host W}
  `{HS : !Scheduler W} `{HC : !Codecs W}.

(** C23: whatever the services do, a stream that ends refines the turn machine:
    its transition events are a path of allowed transitions from [Created]; it
    ends with exactly one terminal event, which is [Done] in phase [Completed]
    or an error in phase [Failed]; either way the iterations it started are
    numbered from one without gaps and are no more than the limit, and an outcome
    reports their number and the sum of the usages of their events. *)
Theorem stream_refines_machine config request ports (w : W) s r
    (Hmax : in_u32 (max_iterations config))
    (Hrun : run_stream config request ports w = (s, r)) (Hended : returns r) :
  match r with
  | Ok _ => ∃ o, Completed_with (IB := max_iterations config) o s ∧
      iterations o ≤ max_iterations config
  | _ => ∃ e k, Failed_with (IB := max_iterations config) e s ∧
      starts (events s) = seqZ 1 k ∧ 0 ≤ k ≤ max_iterations config
  end.
Proof.
  pose proof (kernel_ok (IB := max_iterations config) True True config request ports
    (reliable_trivial _ _ _) w Hmax eq_refl) as Hk.
  rewrite Hrun in Hk. destruct r; try done. destruct Hk as [x Hk]. exists x.
  pose proof Hk as [_ _ (k & n & [_ Hs _ _ _ [H0 Hk']])]. exists k.
  split; [done|]. split; [done|]. change (k ≤ max_iterations config) in Hk'. lia.
Qed.

(** C24: the kernel is live: when every service it awaits eventually answers
    without panicking (the compression pipeline of the agent counts as one) and
    the agent retries a model call at most 57 times, so that the backoff does not
    overflow, the stream ends, with [Done] or with an error; and under the same
    conditions, but with services that may hang, it never panics, so it only ever
    asks the turn machine for transitions that are allowed. *)
Theorem stream_ends config request ports (w : W)
    (Hmax : in_u32 (max_iterations config)) :
  (Reliable False False config request ports →
   ∃ s, (run_stream config request ports w = (s, Ok tt) ∧ ∃ o, Completed_with (IB := max_iterations config) o s) ∨
        (run_stream config request ports w = (s, Err Returned) ∧
         ∃ e, Failed_with (IB := max_iterations config) e s)) ∧
  (Reliable False True config request ports → (run_stream config request ports w).2 ≠ Panic).
Proof.
  split; intros Hrel.
  - pose proof (kernel_ok (IB := max_iterations config) _ _ config request ports Hrel w Hmax
      eq_refl) as Hk.
    destruct (run_stream config request ports w) as [s [[]|[]| |]]; try done.
    + destruct Hk as (o & Ho & _). exists s. left. split; [done|]. by exists o.
    + exists s. by right.
  - pose proof (kernel_ok (IB := max_iterations config) _ _ config request ports Hrel w Hmax
      eq_refl) as Hk.
    by destruct (run_stream config request ports w) as [s []].
Qed.

(** The consumers, on a stream with one terminal event. *)
Lemma consume_quiet (l : list AgentEvent.t) o :
  Forall (λ e, is_final e = false) l → last_outcome l o = Ok o ∧ fired l = l.
Proof. induction 1 as [|e l He _ [IH1 IH2]]; [done|]. destruct e; try done; simpl; by rewrite IH1, IH2. Qed.

Lemma consume_last (l : list AgentEvent.t) e :
  Forall (λ x, is_final x = false) l →
  fired (l ++ [e]) = l ++ (if is_final e then [] else [e]) ∧
  last_outcome (l ++ [e]) None =
    match e with AgentEvent.Done o => Ok (Some o) | AgentEvent.Error x => Err x | _ => Ok None end.
Proof.
  induction 1 as [|x l Hx _ [IH1 IH2]]; [by destruct e|].
  destruct x; try done; simpl; by rewrite IH1, IH2.
Qed.

(** The two consumers agree with the stream: they return the outcome of its
    [Done] or the error of its [Error], and the callback sees every other event,
    in order. *)
Theorem consumers_report_terminal_event config request ports (w : W) s r
    (Hmax : in_u32 (max_iterations config))
    (Hrun : run_stream config request ports w = (s, r)) (Hended : returns r) :
  ∃ last_event, events s = (run_with_events config request ports w).1 ++ [last_event] ∧
    (run_with_events config request ports w).2 = run config request ports w ∧
    run config request ports w =
      match last_event with AgentEvent.Done o => Ok o | AgentEvent.Error e => Err e | _ => Panic end ∧
    is_final last_event = true.
Proof.
  pose proof (kernel_ok (IB := max_iterations config) True True config request ports
    (reliable_trivial _ _ _) w Hmax eq_refl) as Hk.
  unfold run_with_events, run. rewrite Hrun in *. simpl.
  destruct r as [u|e| |]; try done.
  - destruct Hk as (o & [[_ (l & Hl & Hq) _] _ _ _ _ _] & _).
    destruct (consume_last l (AgentEvent.Done o) Hq) as [Hf Ho].
    exists (AgentEvent.Done o). rewrite Hl, Hf, Ho. simpl. by rewrite app_nil_r.
  - destruct Hk as (e' & [_ (l & Hl & Hq) _]).
    destruct (consume_last l (AgentEvent.Error e') Hq) as [Hf Ho].
    exists (AgentEvent.Error e'). rewrite Hl, Hf, Ho. simpl. by rewrite app_nil_r.
Qed.

(** * Tool calls *)

Context `{IB : !IterationBound}.

(** C25: every tool call of a response is answered: after the tool phase the
    conversation has one more message, with exactly one result per call, in the
    order of the calls, whether a call ran, failed, timed out or was rejected,
    and whether the calls ran in order or concurrently. *)
Theorem every_call_is_answered request (ports : AgentExecutionPorts W) k n ms calls s s'
    (Hinv : Inv FinalizingModelResponse k n ms s)
    (Hrun : run_tools request ports calls s = (s', Ok tt)) :
  match calls with
  | [] => messages (machine s') = ms
  | _ => ∃ blocks, messages (machine s') = ms ++ [user_blocks blocks] ∧
           answered_ids blocks = pt_id <$> calls
  end.
Proof.
  pose proof (run_tools_ok True True agent_loop_default request ports (reliable_trivial _ _ _)
    k n ms calls s Hinv) as Hk.
  rewrite Hrun in Hk. destruct Hk as (p & ms' & Hans & Hs). rewrite (inv_messages _ _ _ _ _ Hs).
  destruct calls; simpl in Hans; [by destruct Hans|]. destruct Hans as [_ (blocks & -> & Hb)].
  by exists blocks.
Qed.


(** C27: the concurrent batch is safe: in every state that an interleaving of its
    executions can reach, an exclusive execution that holds the lock is alone;
    some execution can always move until all are over, and every step brings the
    end nearer; the outcomes come back one per call, in the order of the calls. *)
Theorem batch_is_exclusive (threads : list (Thread W)) (Hfresh : fresh_batch threads) :
  (∀ threads', rtc batch_step threads threads' →
     exclusive threads' ∧
     (∀ t, t ∈ threads' → finished t = false →
        ∃ i u, threads' !! i = Some u ∧ enabled threads' u = true) ∧
     ∀ next, batch_step threads' next → (batch_rank next < batch_rank threads')%nat) ∧
  (∀ w w' outcomes deltas, execute_batch threads w = (w', Ok (outcomes, deltas)) →
     outcome_id <$> outcomes = thread_key <$> threads).
Proof.
  split.
  - intros threads' Hrtc. split_and!.
    + by eapply batch_exclusive.
    + intros t Ht Hf. destruct (enabled_indices threads') as [|i indices] eqn:He.
      { by destruct (enabled_exists threads' t Ht Hf). }
      exists i. apply elem_of_enabled_indices. rewrite He. by left.
    + intros next. apply batch_step_rank.
  - intros w w' outcomes deltas. apply execute_batch_outcomes.
Qed.

(** C28: a model call is retried at most [max_retries] times, numbered from one,
    with a delay that starts at 100 ms and doubles; nothing but the retry events
    is observable of a call, whatever its result. *)
Theorem retries_are_bounded (config : AgentLoop W) pr model s s' r
    (Hmax : in_u32 (max_retries config))
    (Hcall : call_model_with_retry config pr model s = (s', r)) :
  machine s' = machine s ∧
  ∃ rs, events s' = events s ++ rs ∧ Z.of_nat (length rs) ≤ max_retries config ∧
    ∀ i e, rs !! i = Some e → is_retry config (Z.of_nat i) e.
Proof.
  assert (s' = s → machine s' = machine s ∧ ∃ rs, events s' = events s ++ rs ∧
    Z.of_nat (length rs) ≤ max_retries config ∧
    ∀ i e, rs !! i = Some e → is_retry config (Z.of_nat i) e) as Hsame.
  { intros ->. split; [done|]. exists []. rewrite app_nil_r. unfold in_u32 in Hmax.
    split_and!; [done|simpl; lia|done]. }
  unfold call_model_with_retry in Hcall.
  destruct (validate_model_request_capabilities _ _); try (injection Hcall as <- <-; by apply Hsame).
  destruct (u32_max <? max_retries config + 1); [injection Hcall as <- <-; by apply Hsame|].
  unfold in_u32 in Hmax.
  apply try_open_retries in Hcall as (Hm & rs & He & Hlen & Hrs); [|lia|lia].
  split; [done|]. exists rs. split_and!; [done|lia|done].
Qed.

End stream.

(** ** Instances *)

Lemma sample_run_returns : returns sample_run.2.
Proof. by vm_compute. Qed.

Lemma sample_config_u32 : in_u32 (max_iterations sample_config).
Proof. unfold in_u32, sample_config, agent_loop_default, u32_max. simpl. lia. Qed.

Lemma stream_refines_machine_witness :
  match sample_run.2 with
  | Ok _ => ∃ o, Completed_with o sample_run.1 ∧ iterations o ≤ 50
  | _ => ∃ e k, Failed_with e sample_run.1 ∧ starts (events sample_run.1) = seqZ 1 k ∧ 0 ≤ k ≤ 50
  end.
Proof.
  exact (stream_refines_machine sample_config sample_request sample_ports sample_world
    sample_run.1 sample_run.2 sample_config_u32 (surjective_pairing sample_run) sample_run_returns).
Defined.

Lemma stream_ends_witness :
  ∃ s, (run_stream sample_config sample_request sample_ports sample_world = (s, Ok tt) ∧
          ∃ o, Completed_with o s) ∨
       (run_stream sample_config sample_request sample_ports sample_world = (s, Err Returned) ∧
          ∃ e, Failed_with e s).
Proof.
  exact (proj1 (stream_ends sample_config sample_request sample_ports sample_world
    sample_config_u32) (sample_reliable False False sample_ports 50 (or_introl eq_refl))).
Defined.

Lemma consumers_report_terminal_event_witness :
  ∃ last_event, events sample_run.1 =
      (run_with_events sample_config sample_request sample_ports sample_world).1 ++ [last_event] ∧
    is_final last_event = true.
Proof.
  destruct (consumers_report_terminal_event sample_config sample_request sample_ports sample_world
    sample_run.1 sample_run.2 sample_config_u32 (surjective_pairing sample_run) sample_run_returns)
    as (e & He & _ & _ & Hf).
  exists e. split; [exact He|exact Hf].
Defined.

Lemma every_call_is_answered_witness :
  ∃ blocks, messages (machine (run_tools sample_request sample_ports sample_calls sample_ready).1)
    = messages (machine sample_ready) ++ [user_blocks blocks] ∧
    answered_ids blocks = ["c1"; "c2"; "c3"].
Proof.
  assert (run_tools sample_request sample_ports sample_calls sample_ready
    = ((run_tools sample_request sample_ports sample_calls sample_ready).1, Ok tt)) as Hrun
    by (vm_compute; reflexivity).
  assert (pt_id <$> sample_calls = ["c1"; "c2"; "c3"]) as Hids by (vm_compute; reflexivity).
  destruct sample_ready_inv as [ms Hinv]. revert Hrun Hids.
  generalize sample_calls as calls, sample_ready as s, Hinv.
  intros calls s Hinv' Hrun Hids.
  pose proof (every_call_is_answered sample_request sample_ports 1 0 ms calls s _ Hinv' Hrun) as Hans.
  rewrite <- (inv_messages _ _ _ _ _ Hinv'), Hids in Hans.
  destruct calls; [discriminate Hids|exact Hans].
Defined.


Lemma batch_is_exclusive_witness :
  outcome_id <$> (match (execute_batch sample_batch sample_world).2 with Ok (l, _) => l | _ => [] end)
  = [("c1", "read"); ("c2", "read")].
Proof.
  assert (fresh_batch sample_batch) as Hf
    by (apply (bool_decide_eq_true_1 _); vm_compute; reflexivity).
  destruct (batch_is_exclusive sample_batch Hf) as [_ Hout].
  destruct (execute_batch sample_batch sample_world) as [w' [[outcomes ds]|e| |]] eqn:He.
  - simpl. rewrite (Hout _ _ _ _ He). vm_compute. reflexivity.
  - destruct e.
  - exfalso. vm_compute in He. discriminate He.
  - exfalso. vm_compute in He. discriminate He.
Defined.

Lemma retries_are_bounded_witness :
  let s' := (call_model_with_retry sample_config sample_model_request sample_model
               (initial_state sample_request sample_world)).1 in
  ∃ rs, events s' = [] ++ rs ∧ Z.of_nat (length rs) ≤ 3.
Proof.
  destruct (retries_are_bounded sample_config sample_model_request sample_model
    (initial_state sample_request sample_world) _ _ ltac:(split; [|vm_compute]; discriminate)
    (surjective_pairing _)) as (_ & rs & He & Hl & _).
  exists rs. split; [exact He|exact Hl].
Defined.

(** ** Where the ends of a turn disagree *)

Definition prepared_flags (l : list AgentEvent.t) : list bool :=
  omap (λ e, match e with AgentEvent.ModelResponsePrepared _ _ t => Some t | _ => None end) l.

Definition done_iterations (s : LoopState World) : option Z :=
  match last (events s) with Some (AgentEvent.Done o) => Some (iterations o) | _ => None end.

(** A paused response ends the turn with [Done], but is announced as not
    terminal. *)
Lemma paused_response_is_not_announced_terminal :
  let s := (run_stream sample_config sample_request ports_without_gate
              (start_world [inl (stream_of (response_of [Text "wait"] StopReason.Paused 1))])).1 in
  prepared_flags (events s) = [false] ∧ done_iterations s = Some 1.
Proof. vm_compute. split; reflexivity. Qed.

(** At the iteration limit the turn ends with [Done], not with
    [MaxIterationsReached]. *)
Lemma iteration_limit_ends_with_done :
  let config := {| compression_pipeline := None; max_iterations := 1; max_retries := 3 |} in
  let s := (run_stream config sample_request ports_without_gate
              (start_world [inl (stream_of tool_response)])).1 in
  prepared_flags (events s) = [false] ∧ done_iterations s = Some 1.
Proof. vm_compute. split; reflexivity. Qed.

(** The summary layer runs after the orphan layer and may separate a tool result
    from its call. *)
Definition long_history : CompressContext World := {|
  ctx_messages := [user "task"; assistant [ToolCall "c1" "read" (json_object [])];
    user_blocks [tool_result_text "c1" "output" false]; assistant [Text "a"]; user "b";
    assistant [Text "c"]];
  last_usage := sample_usage 1000; model_info := sample_model;
  auto_compact_llm := Some (λ _ _, eret "summary"); artifact_store := None;
|}.

Lemma summary_may_orphan_a_result :
  bool_decide (no_orphans (ctx_messages long_history)) = true ∧
  match (run_all default_for_model long_history sample_world).2 with
  | Ok (history, _) => bool_decide (no_orphans history) = false
  | _ => False
  end.
Proof. vm_compute. split; reflexivity. Qed.

(** Both registries of a session may defer tools; then the composition reports
    the discovery tool that each of them gets as a duplicate route. *)
Definition deferring (name : string) : ToolRegistry World :=
  register registry_new
    {| spec := {| ts_name := name; description := "d"; input_schema := json_object [];
                  exposure := Deferred; search_hint := "h"; prompt_guidelines := [];
                  invocation_class := InvocationClass.Read; recovery_policy := NeverReplay |};
       tool_prepare := prepare_from_spec (read_spec name InvocationClass.Read);
       handle_streaming _ _ := eret (output_ok "") |}.

Lemma deferred_extensions_collide :
  compose_session_extensions (deferring "a") (deferring "b") sample_world
  = Err (DuplicateRoute "tool_search").
Proof. vm_compute. reflexivity. Qed.
