(* ===== verification/AgentModelSpec.v ===== *)
(** What the parts of an agent turn promise on their own: the turn machine, the
    account of token usage, the capability check, compression, and the contract
    of tools (src/sylvander-agent/src and src/sylvander-llm-core/src).

    Each theorem with a hypothesis is followed by an instance on the agent of
    [AgentSample]. *)

From S2P Require Import Prelude Json Effects Llm TurnMachine Compression.
From S2P Require Import Compression ToolContract ToolFacts ToolInvocation.
From S2P Require Import ToolRegistry ToolExecution.
From S2P Require Import ToolExecution Approval AgentPorts AgentLoop AgentFacts.
From S2P Require Import AgentSample.
From stdpp Require Import base tactics gmap sets strings list relations.
From Stdlib Require Import ZArith Lia.

Open Scope Z_scope.

Import TurnPhase Reason.

Section model.
Context `{J : SerdeJson} `{C : Crates} {W : Type} `{HO : !HashOrder} `{HH : !Host W}.

(** * The turn machine *)

(** C35: the turn machine is well-typed: over any calls of its methods, accepted
    or rejected, with usages that are [u64]s, its counters keep their widths, its
    iteration is the completed one or the next, every dimension of its usage is a
    [u64], and a stored response carries the cumulative usage. *)
Theorem machine_stays_typed (conv : ConversationSnapshot) ops (Hops : Forall op_ok ops) :
  machine_ok (machine_run (new conv) ops).1.
Proof. apply machine_run_keeps_ok; [done|apply machine_ok_new]. Qed.

(** The transitions that a caller sees succeed form a path: consecutive
    sequence numbers from one, each starting in the phase where the last one
    ended, each allowed by the table; and a turn that has not failed or been
    interrupted entered its before-turn hooks and its after-turn hooks once each
    exactly if it is past them. *)
Theorem transitions_form_a_path (conv : ConversationSnapshot) ops :
  let '(m, ts) := machine_run (new conv) ops in
  chained Created 0 ts (phase m) ∧
  (phase m ≠ Failed → phase m ≠ Interrupted →
   entries RunningBeforeHooks ts = passed_before (phase m) ∧
   entries RunningAfterHooks ts = passed_after (phase m)).
Proof.
  pose proof (machine_run_chained (new conv) ops) as Hch.
  destruct (machine_run (new conv) ops) as [m ts]. destruct Hch as [Hch _].
  split; [done|]. intros Hf Hi. by destruct (chained_hooks _ _ _ _ Hch Hf Hi).
Qed.

Definition transitions_ops (l : list (TurnPhase * TurnTransitionReason)) : list machine_op :=
  (λ s, OpTransition s.1 s.2) <$> l.

(** A turn can always be finished: from every machine that is not in a
    terminal phase some transitions, all accepted, lead to [Completed], and one
    leads to [Failed]; in a terminal phase every transition is rejected. *)
Theorem turn_can_finish (m : TurnMachine) :
  (is_terminal (phase m) = false →
   (∃ path, phase (machine_run m (transitions_ops path)).1 = Completed ∧
      length (machine_run m (transitions_ops path)).2 = length path) ∧
   phase (transition m Failed ExecutionFailed).1 = Failed) ∧
  (is_terminal (phase m) = true → ∀ to reason, transition m to reason = (m, Err TerminalTransition)).
Proof.
  split.
  - intros Ht. split.
    + pose proof (phase_step_completes (phase m) Ht) as Hp.
      remember (phase m) as p eqn:Hm. remember Completed as c eqn:Hc. revert m Hm Ht.
      induction Hp as [p|p q c [Hnt [reason Ha]] Hrtc IH]; intros m Hm Ht.
      * subst. done.
      * destruct (transition_ok_iff m q reason) as [_ Htr]. rewrite <- Hm in Htr.
        destruct (Htr (conj Hnt Ha)) as [t Hok].
        destruct (machine_transition_spec m q reason) as [(t' & Heq & _ & _ & -> & Hsnap)|(e & Heq & _)];
          [|rewrite Heq in Hok; done].
        remember (transition m q reason).1 as m' eqn:Hm'. clear Hm'.
        assert (q = phase m') as Hq by by injection Hsnap.
        destruct (decide (is_terminal q = true)) as [Hterm|Hterm].
        -- assert (q = c) as -> .
           { inversion Hrtc as [|? y ? [Hy _]]; subst; [done|congruence]. }
           exists [(c, reason)]. simpl. rewrite Heq. simpl. by rewrite <- Hq.
        -- apply not_true_is_false in Hterm.
           destruct (IH Hc m' Hq Hterm) as (path & Hend & Hlen).
           exists ((q, reason) :: path). simpl. rewrite Heq. simpl.
           fold (transitions_ops path). destruct (machine_run m' (transitions_ops path)) as [m2 t2].
           simpl in *. by rewrite Hlen.
    + unfold transition. rewrite Ht. by destruct (phase m).
  - intros Ht to reason. unfold transition. by rewrite Ht.
Qed.

(** * Usage and capabilities *)

(** The usage of a turn does not depend on the order of its requests, keeps
    every dimension a [u64] even when a sum saturates, and so does the size of
    its input. *)
Theorem usage_is_order_independent l k (Hok : Forall usage_ok l) (Hperm : l ≡ₚ k) :
  Llm.total_usage l = Llm.total_usage k ∧ usage_ok (Llm.total_usage l) ∧
  in_u64 (total_input_tokens (Llm.total_usage l)).
Proof.
  assert (usage_ok (Llm.total_usage l)) as Ht
    by (unfold Llm.total_usage; apply usage_fold_ok; [apply usage_ok_default|done]).
  split_and!; [|done|by apply total_input_tokens_u64].
  unfold Llm.total_usage. apply usage_fold_perm; [apply usage_ok_default|done|done].
Qed.

(** A request is sent to a model exactly when the model has every capability
    that the request uses, anywhere in its history, tools and settings; this is
    what the required capabilities say, too; and a refusal names a capability
    that is used and missing. *)
Theorem capability_check_exact (r : ModelRequest) available :
  (validate_model_request_capabilities r available = Ok tt ↔
   ∀ c, uses r c → Capabilities.contains available (flag c) = true) ∧
  (Capabilities.contains available (required_model_capabilities r) = true ↔
   validate_model_request_capabilities r available = Ok tt) ∧
  (∀ e, validate_model_request_capabilities r available = Err e →
   uses r (mce_capability e) ∧ Capabilities.contains available (flag (mce_capability e)) = false).
Proof.
  unfold validate_model_request_capabilities.
  assert (first_missing available (requirements r) = Ok tt ↔
    ∀ c, uses r c → Capabilities.contains available (flag c) = true) as Hok.
  { rewrite first_missing_ok. by setoid_rewrite requirements_used. }
  split_and!; [done| |].
  - unfold required_model_capabilities. rewrite contains_foldl, first_missing_ok.
    split; [by intros [_ H]|]. intros H. split; [apply Capabilities.contains_empty|done].
  - intros [c f] (l1 & l2 & Hl & Hc & _)%first_missing_err. split; [|done]. simpl.
    apply requirements_used. rewrite Hl, fmap_app. simpl. set_solver.
Qed.

(** * Compression *)

(** the local layers L0 to L3 of the default pipeline leave no tool result
    without its call: their list has the shape of the history without its orphans (only
    the text of tool results and of reasoning blocks may differ).  The last layer
    keeps that list, or, when the last usage reached its threshold, replaces all but
    the last four messages of it by a summary, which may cut a result from its call.
    The reports name the layers in order. *)
Theorem compression_leaves_no_orphans (ctx : CompressContext W) w w' history reports
    (Hrun : run_all default_for_model ctx w = (w', Ok (history, reports))) :
  ∃ l, messages_like (snipped (ctx_messages ctx)) l ∧ no_orphans l ∧
    (history = l ∨
     AutoCompact.threshold (context_window (model_info ctx)) AutoCompact.DEFAULT_TRIGGER_RATIO
       ≤ total_input_tokens (last_usage ctx) ∧
     (4 < length l)%nat ∧
     ∃ summary, history = AutoCompact.summary_message summary :: drop (length l - 4) l) ∧
    report_name <$> reports
      = ["tool_result_budget"; "orphan_snip"; "micro_compact"; "context_collapse"; "auto_compact"].
Proof.
  destruct (default_pipeline_result ctx w w' history reports Hrun) as (l & H1 & H2 & H3 & H4).
  exists l. split_and!; [done|done| |done]. destruct H3 as [H3|(H3 & H5 & H6)]; [by left|by right].
Qed.

(** * The tool boundary *)

(** an input of a tool is accepted exactly when it conforms to the schema:
    the recursive specification of types, required and known fields, bounds and
    items; and the check always answers. *)
Theorem input_validation_exact (schema value : Value) path :
  (validate_input_value schema value path = Ok tt ↔ conforms schema value) ∧
  returns (validate_input_value schema value path).
Proof. split; [apply validate_input_value_ok|apply validate_input_value_returns]. Qed.

(** C37: the gateway of a registry authorizes a call exactly when the frozen
    surface has its very route with the class and recovery policy it was prepared
    with, the snapshot of the turn authorizes it, the invocation is identified by
    a UUID, and no field of the input, at any depth, selects an owner. *)
Theorem gateway_authorizes_exactly ds (request : ToolInvocationRequest W) w :
  ((∃ grant, authorize (registry_bound_gateway ds) request w = (w, Ok grant)) ↔
   admissible ds request) ∧
  (∀ d, descriptor_map ds !! route request = Some d → d ∈ ds ∧ d_name d = route request).
Proof.
  split; [|intros d; apply descriptor_map_some].
  rewrite <- bound_authorize_admissible. simpl. unfold ebind, eres, eret.
  destruct (bound_authorize ds request) as [[]|e| |]; split; by naive_solver.
Qed.

(** Freezing a registry pins what the turn sees: whatever the dynamic sources
    offer later, and in whatever order the hash maps are then walked, the
    descriptors the gateway checks, the definitions the model is told and the
    guidelines of the prompt stay those of the moment of freezing. *)
Theorem frozen_surface_is_pinned (order order' : HashOrder) (r : ToolRegistry W) w w'
    (Hkeyed : well_keyed (specs_of (ToolRegistry.tools r))) :
  let frozen := freeze_for_turn (O := order) r w in
  invocation_descriptors (O := order') frozen w' = invocation_descriptors (O := order) r w ∧
  build_definitions (O := order') frozen w' = build_definitions (O := order) r w ∧
  prompt_guidelines_of (O := order') frozen w' = prompt_guidelines_of (O := order) r w.
Proof.
  unfold invocation_descriptors, build_definitions, prompt_guidelines_of.
  by rewrite !(frozen_surface order order' r w w' Hkeyed).
Qed.

End model.

(** ** Instances *)

Lemma sample_usage_u64 n : in_u64 n → usage_ok (sample_usage n).
Proof.
  intros Hn. assert (in_u64 1) as H1 by (unfold in_u64, u64_max; lia).
  unfold usage_ok, dimensions. simpl. repeat (constructor; [naive_solver|]). constructor.
Qed.

Lemma machine_stays_typed_witness :
  machine_ok (machine_run (new {| conv_messages := [user "hello"] |})
    [OpTransition Validating ExecutionStarted; OpStart 7; OpComplete final_answer None]).1.
Proof.
  apply machine_stays_typed.
  assert (usage_ok (usage final_answer)) as Hu
    by (apply (sample_usage_u64 30); unfold in_u64, u64_max; lia).
  apply Forall_cons; split; [exact I|]. apply Forall_cons; split; [exact I|].
  apply Forall_cons; split; [exact Hu|]. apply Forall_nil; exact I.
Defined.

Lemma sample_usage_ok : Forall usage_ok [sample_usage 1; sample_usage u64_max].
Proof.
  apply Forall_cons; split; [|apply Forall_singleton];
    apply sample_usage_u64; unfold in_u64, u64_max; lia.
Qed.

Lemma usage_is_order_independent_witness :
  Llm.total_usage [sample_usage 1; sample_usage u64_max]
  = Llm.total_usage [sample_usage u64_max; sample_usage 1] ∧
  input_tokens (Llm.total_usage [sample_usage 1; sample_usage u64_max]) = u64_max.
Proof.
  split; [|vm_compute; reflexivity].
  exact (proj1 (usage_is_order_independent [sample_usage 1; sample_usage u64_max]
    [sample_usage u64_max; sample_usage 1] sample_usage_ok
    (Permutation_swap (sample_usage u64_max) (sample_usage 1) []))).
Defined.

(** A history with an orphan, before its model has reported any usage. *)
Definition orphaned : CompressContext World := {|
  ctx_messages := [user "hello"; user_blocks [tool_result_text "lost" "output" false]];
  last_usage := usage_default; model_info := sample_model; auto_compact_llm := None;
  artifact_store := None;
|}.

Lemma compression_leaves_no_orphans_witness :
  ∃ l, messages_like (snipped (ctx_messages orphaned)) l ∧ no_orphans l.
Proof.
  destruct (run_all default_for_model orphaned sample_world) as [w' [[history reports]|e| |]] eqn:Hrun.
  - destruct (compression_leaves_no_orphans orphaned sample_world w' history reports Hrun)
      as (l & Hl & Ho & _).
    exists l. split; [exact Hl|exact Ho].
  - destruct e.
  - exfalso. vm_compute in Hrun. discriminate Hrun.
  - exfalso. vm_compute in Hrun. discriminate Hrun.
Defined.

(** Walked backwards after the freeze, the sample's surface is the same. *)
Lemma frozen_surface_is_pinned_witness :
  invocation_descriptors (O := reverse_order)
    (freeze_for_turn (O := elements_order) sample_registry (start_world [])) (start_world [])
  = invocation_descriptors (O := elements_order) sample_registry (start_world []) ∧
  length (invocation_descriptors (O := elements_order) sample_registry (start_world [])) = 2%nat.
Proof.
  split; [|vm_compute; reflexivity].
  refine (proj1 (frozen_surface_is_pinned elements_order reverse_order sample_registry
    (start_world []) (start_world []) _)).
  apply register_keyed, register_keyed. intros name s Hs. discriminate Hs.
Defined.
