(* ===== verification/Graph.v ===== *)
(** Adjacency maps and the worklist search shared by the graph algorithms of
    the coordination components: the BFS of the topology check, the DFS of
    the wait-for analysis, and the finiteness lemmas of both. *)

From S2P Require Import Prelude.
From stdpp Require Import base tactics gmap strings list relations sets fin_sets.
From Stdlib Require Import Lia.

(** A [HashMap<Id, Vec<Id>>]. *)
Notation adjacency := (gmap string (list string)).

(** [map.get(&x).into_iter().flatten()] *)
Definition succs (adj : adjacency) (x : string) : list string := default [] (adj !! x).

(** [map.entry(x).or_default().push(y)] *)
Definition push_edge (adj : adjacency) (x y : string) : adjacency :=
  <[x := succs adj x ++ [y]]> adj.

Definition edge (adj : adjacency) (x y : string) : Prop := y ∈ succs adj x.

#[export] Instance edge_dec adj x y : Decision (edge adj x y).
Proof. unfold edge. apply _. Defined.

Lemma succs_push_edge adj x y z :
  succs (push_edge adj x y) z = if decide (z = x) then succs adj x ++ [y] else succs adj z.
Proof.
  unfold succs, push_edge. case_decide; subst; [by rewrite lookup_insert_eq|].
  by rewrite lookup_insert_ne.
Qed.

Lemma edge_push_edge adj x y u v :
  edge (push_edge adj x y) u v ↔ edge adj u v ∨ (u = x ∧ v = y).
Proof. unfold edge. rewrite succs_push_edge. case_decide; set_solver. Qed.

(** Adding a list of edges one by one. *)
Definition push_edges (adj : adjacency) (es : list (string * string)) : adjacency :=
  foldl (λ adj e, push_edge adj e.1 e.2) adj es.

Lemma edge_push_edges adj es u v :
  edge (push_edges adj es) u v ↔ edge adj u v ∨ (u, v) ∈ es.
Proof.
  unfold push_edges. revert adj. induction es as [|[x y] es IH]; intros adj; simpl.
  - set_solver.
  - rewrite IH, edge_push_edge, elem_of_cons. naive_solver.
Qed.

Lemma succs_empty x : succs ∅ x = [].
Proof. done. Qed.

Lemma edge_empty u v : ¬ edge ∅ u v.
Proof. unfold edge. rewrite succs_empty. apply not_elem_of_nil. Qed.

(** The successors of a node are the second components of its edges, in order. *)
Lemma succs_push_edges adj es x :
  succs (push_edges adj es) x = succs adj x ++ (filter (λ e, e.1 = x) es).*2.
Proof.
  unfold push_edges. revert adj. induction es as [|[u v] es IH]; intros adj; simpl.
  - by rewrite app_nil_r.
  - rewrite IH, succs_push_edge, filter_cons. simpl.
    destruct (decide (x = u)) as [->|Hne].
    + rewrite decide_True by done. simpl. by rewrite <- app_assoc.
    + by rewrite decide_False by done.
Qed.

(** * Worklist search

    The state of the search is the worklist, its next node first, and the set
    of visited nodes.  [push] says where new nodes go: [queue_push] for a
    [VecDeque] with [pop_front] and [extend], [stack_push] for a [Vec] with
    [pop] and [extend], held with its top first. *)

Definition queue_push (rest new : list string) : list string := rest ++ new.
Definition stack_push (rest new : list string) : list string := reverse new ++ rest.

Class Frontier (push : list string → list string → list string) : Prop :=
  push_perm rest new : push rest new ≡ₚ rest ++ new.

#[export] Instance queue_frontier : Frontier queue_push.
Proof. by intros rest new. Qed.
#[export] Instance stack_frontier : Frontier stack_push.
Proof.
  intros rest new. unfold stack_push. rewrite reverse_Permutation. apply Permutation_app_comm.
Qed.

(** Edges out of the nodes that are not visited yet. *)
Definition weigh (visited : gset string) (l : list (string * list string)) : nat :=
  sum_list_with (λ kv, if decide (kv.1 ∈ visited) then 0 else length kv.2) l.
Definition weight (adj : adjacency) (visited : gset string) : nat :=
  weigh visited (map_to_list adj).

Lemma weigh_visit_absent l x visited :
  x ∉ l.*1 → weigh ({[x]} ∪ visited) l = weigh visited l.
Proof.
  induction l as [|[k v] l IH]; simpl; [done|]. rewrite not_elem_of_cons. intros [Hk Hl].
  rewrite (IH Hl). f_equal. destruct (decide (k ∈ visited)), (decide (k ∈ {[x]} ∪ visited)); set_solver.
Qed.

Lemma weigh_visit l x (v : list string) visited :
  NoDup l.*1 → (x, v) ∈ l → x ∉ visited →
  weigh ({[x]} ∪ visited) l + length v = weigh visited l.
Proof.
  intros Hl Hx Hv. induction l as [|[k w] l IH]; simpl in *; [set_solver|].
  apply NoDup_cons in Hl as [Hk Hl]. apply elem_of_cons in Hx as [[= <- <-]|Hx].
  - rewrite weigh_visit_absent by done. rewrite decide_True by set_solver.
    rewrite decide_False by done. lia.
  - rewrite <- (IH Hl Hx). assert (k ≠ x).
    { intros ->. apply Hk, list_elem_of_fmap. by exists (x, v). }
    destruct (decide (k ∈ visited)), (decide (k ∈ {[x]} ∪ visited)); try set_solver; lia.
Qed.

Lemma weight_visit adj x visited :
  x ∉ visited → weight adj ({[x]} ∪ visited) + length (succs adj x) = weight adj visited.
Proof.
  intros Hx. unfold weight, succs. destruct (adj !! x) as [v|] eqn:E; simpl.
  - apply weigh_visit; [apply NoDup_fst_map_to_list|by apply elem_of_map_to_list|done].
  - rewrite weigh_visit_absent; [lia|]. rewrite list_elem_of_fmap.
    intros ([k v] & -> & Hk%elem_of_map_to_list). simpl in *. congruence.
Qed.

Section search.
Context (push : list string → list string → list string) `{!Frontier push}.
Context (adj : adjacency).

Definition search_step (st : list string * gset string) :
    (list string * gset string) + gset string :=
  match st with
  | ([], visited) => inr visited
  | (x :: rest, visited) =>
      if decide (x ∈ visited) then inl (rest, visited)
      else inl (push rest (succs adj x), {[x]} ∪ visited)
  end.

Definition search_measure (st : list string * gset string) : nat :=
  length st.1 + weight adj st.2.

Lemma search_decreases st st' :
  search_step st = inl st' → search_measure st' < search_measure st.
Proof.
  destruct st as [[|x rest] visited]; simpl; [done|].
  case_decide as Hx; intros [= <-]; unfold search_measure; simpl; [lia|].
  rewrite push_perm, length_app. pose proof (weight_visit adj x visited Hx). lia.
Qed.

(** The nodes the search visits, from a worklist and no visited node. *)
Definition search (todo : list string) : gset string :=
  loop search_step search_measure search_decreases (todo, ∅).

(** The search visits exactly what is reachable from the worklist. *)
Lemma elem_of_search todo y :
  y ∈ search todo ↔ ∃ x, x ∈ todo ∧ rtc (edge adj) x y.
Proof.
  set (I := λ st : list string * gset string,
    (∀ x, x ∈ todo → x ∈ st.1 ∨ x ∈ st.2) ∧
    (∀ z, z ∈ st.1 ∨ z ∈ st.2 → ∃ x, x ∈ todo ∧ rtc (edge adj) x z) ∧
    (∀ z w, z ∈ st.2 → edge adj z w → w ∈ st.1 ∨ w ∈ st.2)).
  set (Q := λ r : gset string,
    ∀ y, y ∈ r ↔ ∃ x, x ∈ todo ∧ rtc (edge adj) x y).
  enough (Q (search todo)) by auto. unfold search.
  apply (loop_invariant _ _ _ I).
  - unfold I; simpl. split_and!; [auto|intros z [?|?]; [|set_solver]|set_solver].
    exists z. by split.
  - intros [[|x rest] visited] st' (Hcov & Hsound & Hclosed); simpl; [done|].
    case_decide as Hx; intros [= <-]; unfold I; simpl in *.
    + setoid_rewrite elem_of_cons in Hcov. setoid_rewrite elem_of_cons in Hsound.
      setoid_rewrite elem_of_cons in Hclosed.
      split_and!; [intros z ?%Hcov|by naive_solver|intros z w ? ?%Hclosed]; naive_solver.
    + setoid_rewrite elem_of_cons in Hcov. setoid_rewrite elem_of_cons in Hsound.
      setoid_rewrite elem_of_cons in Hclosed. setoid_rewrite push_perm.
      setoid_rewrite elem_of_app. setoid_rewrite elem_of_union.
      setoid_rewrite elem_of_singleton. split_and!.
      * intros z [[->|?]|?]%Hcov; auto.
      * intros z [[?|Hz]|[->|?]]; [by auto| |by auto|by auto].
        destruct (Hsound x) as (r & ? & ?); [by auto|]. exists r. split; [done|].
        by apply rtc_r with x.
      * intros z w [->|Hz] Hzw; [by auto|].
        destruct (Hclosed z w Hz Hzw) as [[->|?]|?]; auto.
  - intros [[|x rest] visited] r (Hcov & Hsound & Hclosed); simpl in *.
    + intros [= <-] z. split; [by auto|]. intros (x & Hx & Hz).
      assert (x ∈ visited) as Hv by (destruct (Hcov x Hx); [set_solver|done]).
      clear Hx. induction Hz as [|x x' z Hxx' _ IH]; [done|].
      apply IH. destruct (Hclosed x x' Hv Hxx'); [set_solver|done].
    + by case_decide.
Qed.

Lemma search_reach x y : y ∈ search [x] ↔ rtc (edge adj) x y.
Proof. rewrite elem_of_search. setoid_rewrite list_elem_of_singleton. naive_solver. Qed.
End search.

(** * Finiteness *)

Lemma tc_last {A} (R : relation A) x z : tc R x z → R x z ∨ ∃ y, tc R x y ∧ R y z.
Proof.
  induction 1 as [x z|x y z Hxy _ IH]; [by left|]. right.
  destruct IH as [?|(u & ? & ?)]; [|by eauto using tc_l].
  exists y. split; [by apply tc_once|done].
Qed.

(** A node all of whose predecessors are well-founded lies on no cycle. *)
Lemma acc_no_cycle {A} (R : relation A) x : Acc R x → ¬ tc R x x.
Proof.
  induction 1 as [x _ IH]. intros Hx. destruct (tc_last R x x Hx) as [H|(u & Hxu & Hux)].
  - by apply (IH x).
  - apply (IH u); [done|]. by apply tc_l with x.
Qed.

(** In a finite graph without cycles every node is well-founded. *)
Lemma acyclic_acc (R : relation string) (nodes : gset string) x :
  (∀ u v, R u v → u ∈ nodes) → (∀ v, ¬ tc R v v) → Acc R x.
Proof.
  intros Hnodes Hacyc. change (sn (flip R) x).
  assert (∀ u v, tc (flip R) u v → tc R v u) as Hflip.
  { intros u v. induction 1 as [u v|u w v Hw _ IH]; [by apply tc_once|]. by apply tc_r with w. }
  apply tc_finite_sn.
  - intros u Hu. by apply (Hacyc u), Hflip.
  - exists (elements nodes). intros u Hu. apply elem_of_elements.
    apply Hflip, tc_nsteps in Hu as (n & Hn & Hu). destruct Hu; [lia|]. by eapply Hnodes.
Qed.

(** Every edge of a path stays inside a set closed under the edges. *)
Lemma rtc_closed {A} (R : relation A) (P : A → Prop) x y :
  (∀ u v, P u → R u v → P v) → P x → rtc R x y → P y.
Proof. intros Hc Hx Hxy. induction Hxy; eauto. Qed.

(** Equivalent relations have equivalent closures. *)
Lemma rtc_subrel {A} (R S : relation A) x y : (∀ u v, R u v → S u v) → rtc R x y → rtc S x y.
Proof. intros HRS. induction 1; eauto using rtc_l, rtc_refl. Qed.

Lemma tc_subrel {A} (R S : relation A) x y : (∀ u v, R u v → S u v) → tc R x y → tc S x y.
Proof. intros HRS. induction 1; eauto using tc_l, tc_once. Qed.

Lemma rtc_ext {A} (R S : relation A) :
  (∀ u v, R u v ↔ S u v) → ∀ x y, rtc R x y ↔ rtc S x y.
Proof. intros HRS x y. split; apply rtc_subrel; naive_solver. Qed.

Lemma tc_ext {A} (R S : relation A) :
  (∀ u v, R u v ↔ S u v) → ∀ x y, tc R x y ↔ tc S x y.
Proof. intros HRS x y. split; apply tc_subrel; naive_solver. Qed.

Lemma nsteps_subrel {A} (R S : relation A) n x y :
  (∀ u v, R u v → S u v) → nsteps R n x y → nsteps S n x y.
Proof. intros HRS. induction 1; econstructor; eauto. Qed.

Lemma nsteps_ext {A} (R S : relation A) :
  (∀ u v, R u v ↔ S u v) → ∀ n x y, nsteps R n x y ↔ nsteps S n x y.
Proof. intros HRS n x y. split; apply nsteps_subrel; naive_solver. Qed.
