(* ===== verification/Instance.v ===== *)
(** Agent instances: the domain model of
    src/sylvander-runtime/src/agent/instance/model.rs.

    The identifiers of sylvander-api are newtypes over [String]; they are
    their byte strings here.  The lifecycle of an instance is a transition
    relation on [AgentInstanceState]; [lifecycle_step] is its closure. *)

From S2P Require Import Prelude.
From stdpp Require Import base tactics gmap strings list relations.
From Stdlib Require Import ZArith Lia.

Notation AgentId := string (only parsing).
Notation AgentInstanceId := string (only parsing).
Notation SessionId := string (only parsing).
Notation SwarmId := string (only parsing).
Notation TaskId := string (only parsing).
Notation DelegationId := string (only parsing).

Record AgentDefinitionKey := {
  agent_id : AgentId;
  definition_revision : Z;
}.

#[global] Instance AgentDefinitionKey_eq_dec : EqDecision AgentDefinitionKey.
Proof. solve_decision. Defined.

Inductive AgentInstanceOrigin :=
  | Defined
  | Forked (parent_instance_id : AgentInstanceId) (fork_sequence : Z)
  | Delegated (parent_instance_id : AgentInstanceId) (delegation_id : DelegationId)
      (task_id : TaskId)
  | SwarmMember (swarm_id : SwarmId).

#[global] Instance AgentInstanceOrigin_eq_dec : EqDecision AgentInstanceOrigin.
Proof. solve_decision. Defined.

Inductive SessionAgentRole :=
  | Moderator
  | Coordinator (swarm_id : SwarmId)
  | Worker
  | Reviewer
  | Specialist
  | Observer.

#[global] Instance SessionAgentRole_eq_dec : EqDecision SessionAgentRole.
Proof. solve_decision. Defined.

Definition is_root_moderator (r : SessionAgentRole) : bool :=
  match r with Moderator => true | _ => false end.

Inductive HistoryView :=
  | SharedLane (cursor : Z)
  | ForkSnapshot (base_sequence : Z) (branch_id : string).

#[global] Instance HistoryView_eq_dec : EqDecision HistoryView.
Proof. solve_decision. Defined.

Inductive ApprovalRoute :=
  | RouteUser
  | RouteParent (instance_id : AgentInstanceId)
  | RouteModerator (instance_id : AgentInstanceId)
  | RouteGuardian.

#[global] Instance ApprovalRoute_eq_dec : EqDecision ApprovalRoute.
Proof. solve_decision. Defined.

Module InstanceState.

Inductive AgentInstanceState :=
  | Created
  | Ready
  | Running
  | WaitingMessage
  | WaitingApproval
  | Completed
  | Failed
  | Cancelled
  | ManualReconciliation.

#[global] Instance AgentInstanceState_eq_dec : EqDecision AgentInstanceState.
Proof. solve_decision. Defined.

Definition is_terminal (s : AgentInstanceState) : bool :=
  match s with Completed | Failed | Cancelled => true | _ => false end.

Definition can_transition_to (s next : AgentInstanceState) : bool :=
  if is_terminal s || (s == next) then false
  else match s, next with
  | Created, (Ready | ManualReconciliation) => true
  | Ready, (Running | Cancelled | ManualReconciliation) => true
  | Running, (WaitingMessage | WaitingApproval | Completed | Failed | Cancelled
             | ManualReconciliation) => true
  | (WaitingMessage | WaitingApproval), (Running | Failed | Cancelled
                                        | ManualReconciliation) => true
  | ManualReconciliation, (Ready | Failed | Cancelled) => true
  | _, _ => false
  end.

End InstanceState.

Notation AgentInstanceState := InstanceState.AgentInstanceState.

Record AgentInstance := {
  instance_id : AgentInstanceId;
  ai_session_id : SessionId;
  definition : AgentDefinitionKey;
  origin : AgentInstanceOrigin;
  role : SessionAgentRole;
  history_view : HistoryView;
  approval_route : ApprovalRoute;
  ai_state : AgentInstanceState;
  lifecycle_revision : Z;
  capability_revision : string;
  ai_created_at : Z;
  ai_updated_at : Z;
}.

#[global] Instance AgentInstance_eq_dec : EqDecision AgentInstance.
Proof. solve_decision. Defined.

(** The availability test that Runtime repeats before it lets an instance act:
    neither terminal nor under manual reconciliation. *)
Definition available (s : AgentInstanceState) : bool :=
  negb (InstanceState.is_terminal s || (s == InstanceState.ManualReconciliation)).

Definition lifecycle_step (s next : AgentInstanceState) : Prop :=
  InstanceState.can_transition_to s next = true.

Lemma lifecycle_terminal_stuck s next :
  InstanceState.is_terminal s = true → ¬ lifecycle_step s next.
Proof. intros Hs Hstep. unfold lifecycle_step in Hstep. destruct s, next; discriminate. Qed.

(** Terminal states are exactly the ones without a successor. *)
Lemma lifecycle_stuck_iff_terminal s :
  InstanceState.is_terminal s = true ↔ ∀ next, ¬ lifecycle_step s next.
Proof.
  split; [intros; by apply lifecycle_terminal_stuck|].
  intros Hs. destruct s; try done; exfalso.
  - by apply (Hs InstanceState.Ready).
  - by apply (Hs InstanceState.Running).
  - by apply (Hs InstanceState.Completed).
  - by apply (Hs InstanceState.Running).
  - by apply (Hs InstanceState.Running).
  - by apply (Hs InstanceState.Ready).
Qed.

(** Every state can be driven to a terminal one. *)
Lemma lifecycle_terminates s :
  ∃ t, rtc lifecycle_step s t ∧ InstanceState.is_terminal t = true.
Proof.
  assert (∀ s t, InstanceState.is_terminal t = true → lifecycle_step s t →
    ∃ t, rtc lifecycle_step s t ∧ InstanceState.is_terminal t = true) as Hone
    by eauto using rtc_once.
  destruct s.
  - exists InstanceState.Cancelled. split; [|done].
    apply rtc_l with InstanceState.Ready; [done|by apply rtc_once].
  - by apply (Hone _ InstanceState.Cancelled).
  - by apply (Hone _ InstanceState.Completed).
  - by apply (Hone _ InstanceState.Failed).
  - by apply (Hone _ InstanceState.Failed).
  - by exists InstanceState.Completed.
  - by exists InstanceState.Failed.
  - by exists InstanceState.Cancelled.
  - by apply (Hone _ InstanceState.Failed).
Qed.

(** * The history of one instance *)

(** One transition: only the state, its revision and the time of the change. *)
Record instance_step (p p' : AgentInstance) : Prop := {
  is_identity : instance_id p' = instance_id p ∧ ai_session_id p' = ai_session_id p ∧
    definition p' = definition p ∧ origin p' = origin p ∧ role p' = role p ∧
    history_view p' = history_view p ∧ approval_route p' = approval_route p ∧
    capability_revision p' = capability_revision p ∧ ai_created_at p' = ai_created_at p;
  is_lifecycle : lifecycle_step (ai_state p) (ai_state p');
  is_revision : lifecycle_revision p' = (lifecycle_revision p + 1)%Z;
}.

(** The rows of an instance before and after some transitions. *)
Definition lineage (o o' : option AgentInstance) : Prop :=
  match o, o' with
  | Some p, Some p' => rtc instance_step p p'
  | None, None => True
  | _, _ => False
  end.

Lemma lineage_refl o : lineage o o.
Proof. by destruct o; simpl. Qed.

Lemma lineage_trans o1 o2 o3 : lineage o1 o2 → lineage o2 o3 → lineage o1 o3.
Proof. destruct o1, o2, o3; simpl; try done. intros. by etrans. Qed.

(** The facts that no transition changes. *)
Lemma instance_run_identity p p' :
  rtc instance_step p p' →
  instance_id p' = instance_id p ∧ ai_session_id p' = ai_session_id p ∧
  definition p' = definition p ∧ origin p' = origin p ∧ role p' = role p ∧
  capability_revision p' = capability_revision p ∧
  (lifecycle_revision p ≤ lifecycle_revision p')%Z ∧
  rtc lifecycle_step (ai_state p) (ai_state p').
Proof.
  induction 1 as [p|p q r [Hid Hs Hr] _ IH]; [by split_and!; try done; apply rtc_refl|].
  destruct Hid as (? & ? & ? & ? & ? & ? & ? & ? & ?), IH as (? & ? & ? & ? & ? & ? & ? & ?).
  split_and!; try congruence; [lia|by eapply rtc_l].
Qed.
