(* ===== verification/Membership.v ===== *)
(** Session membership: src/sylvander-runtime/src/session/membership.rs.

    [validate] is the check of the source, loop included; [well_formed] is
    the abstract specification it decides. *)

From S2P Require Import Prelude Instance.
From stdpp Require Import base tactics gmap strings list.
From Stdlib Require Import ZArith Lia.

Record SessionGovernance := {
  g_session_id : SessionId;
  moderator_instance_id : AgentInstanceId;
  governance_revision : string;
  membership_revision : Z;
  lease_epoch : Z;
  fencing_token : Z;
  g_updated_at : Z;
}.

#[global] Instance SessionGovernance_eq_dec : EqDecision SessionGovernance.
Proof. solve_decision. Defined.

Record SessionMembership := {
  m_session_id : SessionId;
  participants : list AgentInstance;
  governance : SessionGovernance;
}.

#[global] Instance SessionMembership_eq_dec : EqDecision SessionMembership.
Proof. solve_decision. Defined.

Inductive SessionMembershipError :=
  | Empty
  | GovernanceSessionMismatch
  | InvalidGovernanceLease
  | ParticipantSessionMismatch (i : AgentInstanceId)
  | InvalidParticipant (i : AgentInstanceId)
  | DuplicateParticipant (i : AgentInstanceId)
  | ModeratorCount (n : Z)
  | ModeratorMissing
  | ModeratorRoleMismatch
  | ModeratorUnavailable.

(** The accumulators of the loop over the participants. *)
Record scan := {
  identities : gset AgentInstanceId;
  moderators : Z;
  governed_moderator : option AgentInstance;
}.

Definition scan0 : scan :=
  {| identities := ∅; moderators := 0; governed_moderator := None |}.

(** One iteration of the loop. *)
Definition scan_participant (m : SessionMembership) (acc : scan) (p : AgentInstance) :
    res scan SessionMembershipError :=
  bail ai_session_id p != m_session_id m with ParticipantSessionMismatch (instance_id p);;
  bail (definition_revision (definition p) =? 0)%Z || trim_is_empty (capability_revision p)
    with InvalidParticipant (instance_id p);;
  bail bool_decide (instance_id p ∈ identities acc) with DuplicateParticipant (instance_id p);;
  Ok {|
    identities := {[instance_id p]} ∪ identities acc;
    moderators :=
      if is_root_moderator (role p) then saturating_add u32_max (moderators acc) 1
      else moderators acc;
    governed_moderator :=
      if instance_id p == moderator_instance_id (governance m) then Some p
      else governed_moderator acc;
  |}.

Fixpoint scan_participants (m : SessionMembership) (acc : scan) (ps : list AgentInstance) :
    res scan SessionMembershipError :=
  match ps with
  | [] => Ok acc
  | p :: ps => acc <- scan_participant m acc p;; scan_participants m acc ps
  end.

Definition validate (m : SessionMembership) : res unit SessionMembershipError :=
  bail bool_decide (participants m = []) with Empty;;
  bail g_session_id (governance m) != m_session_id m with GovernanceSessionMismatch;;
  bail trim_is_empty (governance_revision (governance m))
       || (lease_epoch (governance m) =? 0)%Z || (fencing_token (governance m) =? 0)%Z
    with InvalidGovernanceLease;;
  acc <- scan_participants m scan0 (participants m);;
  bail negb (moderators acc =? 1)%Z with ModeratorCount (moderators acc);;
  moderator <- ok_or (governed_moderator acc) ModeratorMissing;;
  bail negb (is_root_moderator (role moderator)) with ModeratorRoleMismatch;;
  bail InstanceState.is_terminal (ai_state moderator)
       || (ai_state moderator == InstanceState.ManualReconciliation)
    with ModeratorUnavailable;;
  Ok tt.

(** [SessionMembership::new] *)
Definition new (session_id : SessionId) (ps : list AgentInstance) (g : SessionGovernance) :
    res SessionMembership SessionMembershipError :=
  let membership := {| m_session_id := session_id; participants := ps; governance := g |} in
  _ <- validate membership;;
  Ok membership.

(** The first participant with an identity. *)
Fixpoint find_participant (ps : list AgentInstance) (i : AgentInstanceId) :
    option AgentInstance :=
  match ps with
  | [] => None
  | p :: ps => if instance_id p == i then Some p else find_participant ps i
  end.

(** [SessionMembership::moderator], a panic where the [expect] fails. *)
Definition moderator (m : SessionMembership) : res AgentInstance SessionMembershipError :=
  expect (find_participant (participants m) (moderator_instance_id (governance m))).

(** The set of identities that the components build from a membership. *)
Definition members (m : SessionMembership) : gset AgentInstanceId :=
  list_to_set (instance_id <$> participants m).

(** * Specification *)

Definition roots (ps : list AgentInstance) : list AgentInstance :=
  filter (λ p, is_root_moderator (role p) = true) ps.

Record participant_ok (m : SessionMembership) (p : AgentInstance) : Prop := {
  p_session : ai_session_id p = m_session_id m;
  p_definition : definition_revision (definition p) ≠ 0%Z;
  p_capability : trim_is_empty (capability_revision p) = false;
}.

Record well_formed (m : SessionMembership) : Prop := {
  wf_governance_session : g_session_id (governance m) = m_session_id m;
  wf_governance_revision : trim_is_empty (governance_revision (governance m)) = false;
  wf_lease_epoch : lease_epoch (governance m) ≠ 0%Z;
  wf_fencing_token : fencing_token (governance m) ≠ 0%Z;
  wf_participants : Forall (participant_ok m) (participants m);
  wf_identities : NoDup (instance_id <$> participants m);
  wf_moderator : ∃ p, roots (participants m) = [p] ∧
    instance_id p = moderator_instance_id (governance m) ∧ available (ai_state p) = true;
}.

(** * The loop over the participants *)

Lemma scan_participant_ok m acc p acc' :
  scan_participant m acc p = Ok acc' ↔
    participant_ok m p ∧ instance_id p ∉ identities acc ∧
    acc' = {|
      identities := {[instance_id p]} ∪ identities acc;
      moderators := if is_root_moderator (role p) then saturating_add u32_max (moderators acc) 1
                    else moderators acc;
      governed_moderator := if instance_id p == moderator_instance_id (governance m) then Some p
                            else governed_moderator acc |}.
Proof.
  unfold scan_participant. rewrite !bail_ok. split.
  - intros (? & ? & ? & [= <-]). destruct_guards. split; [|done].
    split; [done|lia|done].
  - intros ([? ? ?] & ? & ->).
    rewrite negb_bool_decide_false, orb_false_iff, bool_decide_eq_false, Z.eqb_neq. done.
Qed.

Lemma elem_of_ids (ps : list AgentInstance) i :
  i ∈ instance_id <$> ps ↔ ∃ p, p ∈ ps ∧ instance_id p = i.
Proof. rewrite list_elem_of_fmap. naive_solver. Qed.

Lemma find_participant_some ps i p :
  find_participant ps i = Some p → p ∈ ps ∧ instance_id p = i.
Proof.
  induction ps as [|q ps IH]; simpl; [done|].
  case_bool_decide; [intros [= ->]; split; [by left|done]|].
  intros [? ?]%IH. split; [by right|done].
Qed.

Lemma find_participant_none ps i :
  find_participant ps i = None ↔ i ∉ instance_id <$> ps.
Proof.
  induction ps as [|p ps IH]; simpl; [split; [intros _ ?%not_elem_of_nil; done|done]|].
  rewrite not_elem_of_cons, <- IH. case_bool_decide; naive_solver.
Qed.

Lemma find_participant_unique ps p :
  NoDup (instance_id <$> ps) → p ∈ ps → find_participant ps (instance_id p) = Some p.
Proof.
  induction ps as [|q ps IH]; simpl; [by intros _ ?%not_elem_of_nil|].
  rewrite NoDup_cons, elem_of_cons. intros [Hq Hps] [->|Hp]; case_bool_decide; try done.
  - destruct Hq. rewrite H. apply elem_of_ids. eauto.
  - by apply IH.
Qed.

Lemma find_participant_cons_fresh p ps i (o : option AgentInstance) :
  instance_id p ∉ instance_id <$> ps →
  match find_participant ps i with
  | Some q => Some q
  | None => if instance_id p == i then Some p else o
  end = match find_participant (p :: ps) i with Some q => Some q | None => o end.
Proof.
  intros Hp. simpl. case_bool_decide as Hi; [|done]. subst i.
  by apply find_participant_none in Hp as ->.
Qed.

Lemma scan_participants_ok m ps acc acc' :
  (0 ≤ moderators acc ≤ u32_max)%Z →
  scan_participants m acc ps = Ok acc' ↔
    Forall (participant_ok m) ps ∧
    NoDup (instance_id <$> ps) ∧
    (∀ i, i ∈ instance_id <$> ps → i ∉ identities acc) ∧
    acc' = {|
      identities := list_to_set (instance_id <$> ps) ∪ identities acc;
      moderators := Z.min (moderators acc + Z.of_nat (length (roots ps))) u32_max;
      governed_moderator :=
        match find_participant ps (moderator_instance_id (governance m)) with
        | Some p => Some p
        | None => governed_moderator acc
        end |}.
Proof.
  revert acc. induction ps as [|p ps IH]; intros acc Hacc.
  - simpl. split.
    + intros [= <-]. split_and!; [constructor|constructor|by intros ? ?%not_elem_of_nil|].
      destruct acc as [ids n g]. simpl in *. f_equal; [set_solver|lia].
    + intros (_ & _ & _ & ->). destruct acc as [ids n g]. simpl in *.
      do 2 f_equal; [set_solver|lia].
  - cbn [scan_participants]. rewrite res_bind_ok.
    setoid_rewrite scan_participant_ok. rewrite Forall_cons, fmap_cons, NoDup_cons.
    assert (∀ n : Z, (0 ≤ n ≤ u32_max)%Z →
      (0 ≤ (if is_root_moderator (role p) then saturating_add u32_max n 1 else n) ≤ u32_max)%Z)
      as Hrange by (intros n; unfold saturating_add; destruct is_root_moderator; lia).
    assert (∀ n : Z, (n ≤ u32_max)%Z →
      Z.min ((if is_root_moderator (role p) then saturating_add u32_max n 1 else n)
             + Z.of_nat (length (roots ps))) u32_max =
      Z.min (n + Z.of_nat (length (roots (p :: ps)))) u32_max) as Hsum.
    { intros n Hn. unfold roots, saturating_add. rewrite filter_cons.
      destruct (is_root_moderator (role p)); simpl; lia. }
    split.
    + intros (? & (Hp & Hfresh & ->) & Hrest). apply IH in Hrest as (? & ? & Hdisj & ->); [|by apply Hrange].
      cbn [identities moderators governed_moderator] in *.
      assert (instance_id p ∉ instance_id <$> ps) by set_solver.
      split_and!; [done|done|done|done|set_solver|]. f_equal; [set_solver|apply Hsum; lia|].
      by apply find_participant_cons_fresh.
    + intros ([Hp ?] & [Hfresh ?] & Hdisj & ->).
      eexists. split; [split_and!; [done|set_solver|done]|].
      apply IH; [by apply Hrange|]. cbn [identities moderators governed_moderator].
      split_and!; [done|done|set_solver|]. f_equal; [set_solver|symmetry; apply Hsum; lia|].
      symmetry. by apply find_participant_cons_fresh.
Qed.

(** * The check decides well-formedness *)

Lemma elem_of_members m i : i ∈ members m ↔ ∃ p, p ∈ participants m ∧ instance_id p = i.
Proof. unfold members. by rewrite elem_of_list_to_set, elem_of_ids. Qed.

Lemma elem_of_roots ps p : p ∈ roots ps ↔ is_root_moderator (role p) = true ∧ p ∈ ps.
Proof. unfold roots. by rewrite list_elem_of_filter. Qed.

Lemma unavailable_false s :
  InstanceState.is_terminal s || (s == InstanceState.ManualReconciliation) = false ↔
  available s = true.
Proof. unfold available. by rewrite negb_true_iff. Qed.

Lemma count_is_one n : (Z.min (0 + Z.of_nat n) u32_max = 1)%Z ↔ n = 1.
Proof. unfold u32_max. lia. Qed.

Lemma well_formed_non_empty m : well_formed m → participants m ≠ [].
Proof. intros [_ _ _ _ _ _ (p & Hp & _)]. by intros Hm; rewrite Hm in Hp. Qed.

Lemma validate_well_formed m : validate m = Ok tt ↔ well_formed m.
Proof.
  unfold validate. rewrite !bail_ok, res_bind_ok.
  setoid_rewrite scan_participants_ok; [|by vm_compute]. split.
  - intros (Hne & Hs & Hg & acc & (Hps & Hids & _ & ->) & H). inv_ok.
    cbn [moderators governed_moderator scan0] in *. destruct_guards.
    rewrite Z.eqb_neq in *. rewrite Z.eqb_eq, count_is_one in *.
    destruct (find_participant _ _) as [p|] eqn:Hp; [|done]. simplify_eq.
    destruct (find_participant_some _ _ _ Hp) as [Hin Hid].
    split; try done. exists a. split_and!; [|done|by apply unavailable_false, orb_false_iff;
      rewrite bool_decide_eq_false].
    destruct (roots (participants m)) as [|q [|]] eqn:Hr; try done.
    assert (a ∈ roots (participants m)) as Ha by by apply elem_of_roots.
    rewrite Hr in Ha. by apply list_elem_of_singleton in Ha as ->.
  - intros Hwf. pose proof (well_formed_non_empty m Hwf) as Hne.
    destruct Hwf as [? ? ? ? ? ? (p & Hr & Hid & Hav)].
    rewrite bool_decide_eq_false, negb_bool_decide_false, !orb_false_iff, !Z.eqb_neq.
    split; [done|]. split; [done|]. split; [done|].
    eexists. split; [split_and!; [done|done|set_solver|done]|].
    cbn [moderators governed_moderator scan0]. rewrite Hr, <- Hid.
    assert (p ∈ roots (participants m)) as [Hroot Hp]%elem_of_roots
      by (rewrite Hr; by left).
    rewrite find_participant_unique by done. simpl. rewrite Hroot. simpl.
    by apply unavailable_false in Hav as ->.
Qed.

(** On a well-formed membership [moderator] finds the root moderator. *)
Lemma moderator_of_well_formed m :
  well_formed m →
  ∃ p, moderator m = Ok p ∧ p ∈ participants m ∧ role p = Moderator ∧
    instance_id p = moderator_instance_id (governance m) ∧ available (ai_state p) = true.
Proof.
  intros [_ _ _ _ _ Hids (p & Hr & Hid & Hav)].
  assert (p ∈ roots (participants m)) as [Hroot Hp]%elem_of_roots by (rewrite Hr; by left).
  exists p. unfold moderator. rewrite <- Hid, find_participant_unique by done.
  split_and!; try done. by destruct (role p).
Qed.

Lemma moderator_in_members m :
  well_formed m → moderator_instance_id (governance m) ∈ members m.
Proof.
  intros (p & _ & Hp & _ & Hid & _)%moderator_of_well_formed.
  apply elem_of_members. eauto.
Qed.

Lemma scan_participants_returns m ps acc : returns (scan_participants m acc ps).
Proof.
  revert acc. induction ps as [|p ps IH]; intros acc; simpl; [done|].
  apply returns_bind; [|by intros; apply IH].
  unfold scan_participant. by repeat (apply returns_bail; intros _).
Qed.

Lemma validate_membership_returns m : returns (validate m).
Proof.
  unfold validate. repeat (apply returns_bail; intros _).
  apply returns_bind; [apply scan_participants_returns|]. intros acc _.
  apply returns_bail; intros _. apply returns_bind; [auto with res_db|].
  intros p _. by repeat (apply returns_bail; intros _).
Qed.
