(* ===== verification/Topology.v ===== *)
(** The Session topology: src/sylvander-runtime/src/coordination/topology.rs
    but for [route_between], which is in Route.v.

    [validate] is the check of the source; [governed] is its specification, a
    moderator-rooted ownership tree over the Session members with undirected
    collaboration edges.  [arbitrator_for] follows owners upwards and
    computes the nearest common owner. *)

From S2P Require Import Prelude Graph Instance.
From S2P Require Membership.
From stdpp Require Import base tactics gmap strings list relations.
From Stdlib Require Import ZArith Lia.

Notation SessionMembership := Membership.SessionMembership (only parsing).

Inductive AgentRelationKind := ParentOf | Peer | Reviews.

#[global] Instance AgentRelationKind_eq_dec : EqDecision AgentRelationKind.
Proof. solve_decision. Defined.

#[export] Instance AgentRelationKind_countable : Countable AgentRelationKind.
Proof.
  refine (inj_countable' (λ k, match k with ParentOf => 0 | Peer => 1 | Reviews => 2 end)
    (λ n, match n with 0 => ParentOf | 1 => Peer | _ => Reviews end) _).
  by intros [].
Defined.

(** [encode_relation_kind] *)
Definition encode_relation_kind (k : AgentRelationKind) : string :=
  match k with ParentOf => "parent_of" | Peer => "peer" | Reviews => "reviews" end.

Record AgentRelation := {
  source : AgentInstanceId;
  target : AgentInstanceId;
  kind : AgentRelationKind;
  r_created_at : Z;
}.

#[global] Instance AgentRelation_eq_dec : EqDecision AgentRelation.
Proof. solve_decision. Defined.

Record SessionTopology := {
  session_id : SessionId;
  membership_revision : Z;
  topology_revision : Z;
  relations : list AgentRelation;
  updated_at : Z;
}.

#[global] Instance SessionTopology_eq_dec : EqDecision SessionTopology.
Proof. solve_decision. Defined.

Inductive TopologyError :=
  | SessionMismatch
  | StaleMembership (topology membership : Z)
  | UnknownInstance (i : AgentInstanceId)
  | SelfRelation (i : AgentInstanceId)
  | DuplicateRelation
  | ModeratorHasParent
  | MultipleParents (i : AgentInstanceId)
  | OwnershipCycle (i : AgentInstanceId)
  | UnreachableFromModerator (i : AgentInstanceId).

(** The identity of an edge: a [Peer] edge has no direction. *)
Definition relation_key (r : AgentRelation) : AgentRelationKind * string * string :=
  if (kind r == Peer) && string_lt (target r) (source r)
  then (kind r, target r, source r)
  else (kind r, source r, target r).

(** The accumulators of the loop over the relations. *)
Record scan := {
  unique_edges : gset (AgentRelationKind * string * string);
  parent_by_child : gmap AgentInstanceId AgentInstanceId;
  children_by_parent : adjacency;
}.

Definition scan0 : scan :=
  {| unique_edges := ∅; parent_by_child := ∅; children_by_parent := ∅ |}.

(** One iteration of the loop over the relations. *)
Definition scan_relation (members : gset AgentInstanceId) (moderator : AgentInstanceId)
    (acc : scan) (r : AgentRelation) : res scan TopologyError :=
  bail bool_decide (source r ∉ members) with UnknownInstance (source r);;
  bail bool_decide (target r ∉ members) with UnknownInstance (target r);;
  bail source r == target r with SelfRelation (source r);;
  bail bool_decide (relation_key r ∈ unique_edges acc) with DuplicateRelation;;
  let edges := {[relation_key r]} ∪ unique_edges acc in
  if kind r != ParentOf then
    Ok {| unique_edges := edges; parent_by_child := parent_by_child acc;
          children_by_parent := children_by_parent acc |}
  else
    bail target r == moderator with ModeratorHasParent;;
    bail bool_decide (is_Some (parent_by_child acc !! target r)) with MultipleParents (target r);;
    Ok {| unique_edges := edges;
          parent_by_child := <[target r := source r]> (parent_by_child acc);
          children_by_parent := push_edge (children_by_parent acc) (source r) (target r) |}.

Fixpoint scan_relations (members : gset AgentInstanceId) (moderator : AgentInstanceId)
    (acc : scan) (rs : list AgentRelation) : res scan TopologyError :=
  match rs with
  | [] => Ok acc
  | r :: rs => acc <- scan_relation members moderator acc r;; scan_relations members moderator acc rs
  end.

(** [parent_cycle_from]: the loop inserts a new key of the map into
    [visited] in every iteration, so it ends. *)
Definition parent_cycle_step (parents : gmap AgentInstanceId AgentInstanceId)
    (st : AgentInstanceId * gset AgentInstanceId) :
    (AgentInstanceId * gset AgentInstanceId) + bool :=
  match parents !! st.1 with
  | None => inr false
  | Some parent =>
      if decide (st.1 ∈ st.2) then inr true else inl (parent, {[st.1]} ∪ st.2)
  end.

Definition parent_cycle_measure (parents : gmap AgentInstanceId AgentInstanceId)
    (st : AgentInstanceId * gset AgentInstanceId) : nat := size (dom parents ∖ st.2).

Lemma parent_cycle_decreases parents st st' :
  parent_cycle_step parents st = inl st' →
  parent_cycle_measure parents st' < parent_cycle_measure parents st.
Proof.
  destruct st as [x visited]. unfold parent_cycle_step, parent_cycle_measure. simpl.
  destruct (parents !! x) as [p|] eqn:Hx; [|done]. case_decide; [done|]. intros [= <-]. simpl.
  apply subset_size. apply elem_of_dom_2 in Hx. set_solver.
Qed.

Definition parent_cycle_from (start : AgentInstanceId)
    (parents : gmap AgentInstanceId AgentInstanceId) : bool :=
  loop (parent_cycle_step parents) (parent_cycle_measure parents)
    (parent_cycle_decreases parents) (start, ∅).

Section validate.
Context `{!HashOrder}.

(** [SessionTopology::validate].  [members.into_iter().find(..).expect(..)]
  takes the first unreachable member of some iteration of the set. *)
Definition validate (t : SessionTopology) (m : SessionMembership) : res unit TopologyError :=
bail session_id t != Membership.m_session_id m with SessionMismatch;;
bail negb (membership_revision t =? Membership.membership_revision (Membership.governance m))%Z
  with StaleMembership (membership_revision t)
         (Membership.membership_revision (Membership.governance m));;
let members := Membership.members m in
let moderator := Membership.moderator_instance_id (Membership.governance m) in
acc <- scan_relations members moderator scan0 (relations t);;
let reachable := search queue_push (children_by_parent acc) [moderator] in
if negb (size reachable =? size members)%nat then
  instance <- expect (list_find (λ i, i ∉ reachable) (hash_iter 0 members));;
  bail parent_cycle_from instance.2 (parent_by_child acc) with OwnershipCycle instance.2;;
  Err (UnreachableFromModerator instance.2)
else Ok tt.

(** [SessionTopology::new] *)
Definition new (sid : SessionId) (mrev trev : Z) (rs : list AgentRelation) (now : Z)
  (m : SessionMembership) : res SessionTopology TopologyError :=
let topology := {| session_id := sid; membership_revision := mrev; topology_revision := trev;
                   relations := rs; updated_at := now |} in
_ <- validate topology m;;
Ok topology.
End validate.

(** * Nearest common owner *)

(** The owner map of [arbitrator_for]; a later edge replaces an earlier one. *)
Definition parents_of (t : SessionTopology) : gmap AgentInstanceId AgentInstanceId :=
  foldl (λ ps r, if kind r == ParentOf then <[target r := source r]> ps else ps) ∅ (relations t).

(** [while let Some(instance) = cursor { set.insert(instance); cursor = parents.get(instance); }] *)
Definition ancestors_step (parents : gmap AgentInstanceId AgentInstanceId)
    (st : option AgentInstanceId * gset AgentInstanceId) :
    (option AgentInstanceId * gset AgentInstanceId) + gset AgentInstanceId :=
  match st.1 with
  | None => inr st.2
  | Some i => inl (parents !! i, {[i]} ∪ st.2)
  end.

Definition common_step (parents : gmap AgentInstanceId AgentInstanceId)
    (ancestors : gset AgentInstanceId) (cursor : option AgentInstanceId) :
    option AgentInstanceId + option AgentInstanceId :=
  match cursor with
  | None => inr None
  | Some i => if decide (i ∈ ancestors) then inr (Some i) else inl (parents !! i)
  end.

(** Both loops follow the owner map.  A walk that does not repeat has at most
    [size parents] steps, so a loop still running after this many iterations
    runs forever ([chase_exact]). *)
Definition chase_fuel (parents : gmap AgentInstanceId AgentInstanceId) : nat := size parents + 2.

Definition arbitrator_for (t : SessionTopology) (src tgt : AgentInstanceId)
    (m : SessionMembership) : res AgentInstanceId Empty_set :=
  let parents := parents_of t in
  match loop_fuel (ancestors_step parents) (chase_fuel parents) (Some src, ∅) with
  | None => Diverge
  | Some ancestors =>
      match loop_fuel (common_step parents ancestors) (chase_fuel parents) (Some tgt) with
      | None => Diverge
      | Some (Some i) => Ok i
      | Some None => Ok (Membership.moderator_instance_id (Membership.governance m))
      end
  end.

(** * Specification *)

(** [owns t u v]: an ownership edge. *)
Definition owns (t : SessionTopology) (u v : AgentInstanceId) : Prop :=
  ∃ r, r ∈ relations t ∧ kind r = ParentOf ∧ source r = u ∧ target r = v.

Definition owned (rs : list AgentRelation) : list AgentInstanceId :=
  target <$> filter (λ r, kind r = ParentOf) rs.

(** Edges join distinct members, no edge occurs twice, the moderator has no
    owner and no instance has two, and the moderator governs every member. *)
Record edges_ok (members : gset AgentInstanceId) (moderator : AgentInstanceId)
    (rs : list AgentRelation) : Prop := {
  e_source : Forall (λ r, source r ∈ members) rs;
  e_target : Forall (λ r, target r ∈ members) rs;
  e_irreflexive : Forall (λ r, source r ≠ target r) rs;
  e_distinct : NoDup (relation_key <$> rs);
  e_moderator : moderator ∉ owned rs;
  e_single_owner : NoDup (owned rs);
}.

Record governed (t : SessionTopology) (m : SessionMembership) : Prop := {
  t_session : session_id t = Membership.m_session_id m;
  t_revision : membership_revision t = Membership.membership_revision (Membership.governance m);
  t_edges : edges_ok (Membership.members m)
    (Membership.moderator_instance_id (Membership.governance m)) (relations t);
  t_reachable i : i ∈ Membership.members m →
    rtc (owns t) (Membership.moderator_instance_id (Membership.governance m)) i;
}.

(** * The loop over the relations *)

Definition own_edges (rs : list AgentRelation) : list (AgentInstanceId * AgentInstanceId) :=
  (λ r, (source r, target r)) <$> filter (λ r, kind r = ParentOf) rs.

Definition add_parents (ps : gmap AgentInstanceId AgentInstanceId) (rs : list AgentRelation) :
    gmap AgentInstanceId AgentInstanceId :=
  foldl (λ ps r, if kind r == ParentOf then <[target r := source r]> ps else ps) ps rs.

Definition scan_result (acc : scan) (rs : list AgentRelation) : scan :=
  {| unique_edges := list_to_set (relation_key <$> rs) ∪ unique_edges acc;
     parent_by_child := add_parents (parent_by_child acc) rs;
     children_by_parent := push_edges (children_by_parent acc) (own_edges rs) |}.

Lemma owned_cons r rs :
  owned (r :: rs) = if decide (kind r = ParentOf) then target r :: owned rs else owned rs.
Proof. unfold owned. rewrite filter_cons. by case_decide. Qed.

Lemma own_edges_cons r rs :
  own_edges (r :: rs) =
    if decide (kind r = ParentOf) then (source r, target r) :: own_edges rs else own_edges rs.
Proof. unfold own_edges. rewrite filter_cons. by case_decide. Qed.

Lemma elem_of_own_edges t u v : (u, v) ∈ own_edges (relations t) ↔ owns t u v.
Proof.
  unfold own_edges, owns. rewrite list_elem_of_fmap. setoid_rewrite list_elem_of_filter.
  naive_solver.
Qed.

Lemma elem_of_owned rs v : v ∈ owned rs ↔ ∃ r, r ∈ rs ∧ kind r = ParentOf ∧ target r = v.
Proof.
  unfold owned. rewrite list_elem_of_fmap. setoid_rewrite list_elem_of_filter. naive_solver.
Qed.

Lemma scan_relation_ok members moderator acc r acc' :
  scan_relation members moderator acc r = Ok acc' ↔
    source r ∈ members ∧ target r ∈ members ∧ source r ≠ target r ∧
    relation_key r ∉ unique_edges acc ∧
    (kind r = ParentOf → target r ≠ moderator ∧ parent_by_child acc !! target r = None) ∧
    acc' = scan_result acc [r].
Proof.
  unfold scan_relation, scan_result. rewrite !bail_ok, !bool_decide_eq_false.
  rewrite own_edges_cons. simpl. rewrite !(right_id_L ∅ (∪)).
  destruct (bool_decide_reflect (kind r = ParentOf)) as [Hk|Hk]; simpl.
  - rewrite !bail_ok, !bool_decide_eq_false, decide_True by done. unfold push_edges. simpl.
    rewrite <- eq_None_not_Some.
    split.
    + intros (Hs & Ht & ? & ? & ? & ? & [= <-]).
      split_and!; try done; by apply dec_stable.
    + intros (Hs & Ht & ? & ? & Hp & ->). destruct Hp; [done|]. split_and!; auto.
  - rewrite decide_False by done. unfold push_edges. simpl. split.
    + intros (Hs & Ht & ? & ? & [= <-]).
      split_and!; try done; by apply dec_stable.
    + intros (Hs & Ht & ? & ? & Hp & ->). split_and!; auto.
Qed.

Lemma scan_result_cons acc r rs : scan_result (scan_result acc [r]) rs = scan_result acc (r :: rs).
Proof.
  unfold scan_result. rewrite fmap_cons. simpl. f_equal; [set_solver|].
  rewrite (own_edges_cons r rs), own_edges_cons. by case_decide.
Qed.

Lemma lookup_add_parents_fresh ps rs v :
  v ∉ owned rs → add_parents ps rs !! v = ps !! v.
Proof.
  unfold add_parents. revert ps. induction rs as [|r rs IH]; intros ps; simpl; [done|].
  rewrite owned_cons. case_bool_decide; case_decide; try done.
  - rewrite not_elem_of_cons. intros [? ?]. rewrite IH by done. by rewrite lookup_insert_ne.
  - intros. by apply IH.
Qed.

Lemma scan_relations_ok members moderator acc rs acc' :
  scan_relations members moderator acc rs = Ok acc' ↔
    Forall (λ r, source r ∈ members) rs ∧ Forall (λ r, target r ∈ members) rs ∧
    Forall (λ r, source r ≠ target r) rs ∧
    NoDup (relation_key <$> rs) ∧
    (∀ k, k ∈ relation_key <$> rs → k ∉ unique_edges acc) ∧
    moderator ∉ owned rs ∧ NoDup (owned rs) ∧
    (∀ v, v ∈ owned rs → parent_by_child acc !! v = None) ∧
    acc' = scan_result acc rs.
Proof.
  revert acc. induction rs as [|r rs IH]; intros acc.
  - simpl. split.
    + intros [= <-]. split_and!; try by constructor; try set_solver.
      all: try (intros ? ?%not_elem_of_nil; done).
      * apply not_elem_of_nil.
      * destruct acc. unfold scan_result. simpl. f_equal. set_solver.
    + intros (_ & _ & _ & _ & _ & _ & _ & _ & ->). destruct acc.
      unfold scan_result. simpl. do 2 f_equal. set_solver.
  - cbn [scan_relations]. rewrite res_bind_ok. setoid_rewrite scan_relation_ok.
    rewrite !Forall_cons, fmap_cons, NoDup_cons.
    setoid_rewrite elem_of_cons. rewrite owned_cons. split.
    + intros (? & (? & ? & ? & Hk & Hp & ->) & Hrest).
      apply IH in Hrest as (? & ? & ? & ? & Hdisj & ? & ? & Hpar & ->).
      rewrite scan_result_cons. unfold scan_result in Hdisj, Hpar. simpl in Hdisj, Hpar.
      assert (relation_key r ∉ relation_key <$> rs) by set_solver.
      assert (∀ k, k = relation_key r ∨ k ∈ relation_key <$> rs → k ∉ unique_edges acc)
        by (intros k [->|?]; set_solver).
      destruct (decide (kind r = ParentOf)) as [HP|HP].
      * rewrite bool_decide_true in Hpar by done. destruct (Hp HP) as [? ?].
        assert (target r ∉ owned rs) by
          (intros Ht%Hpar; by rewrite lookup_insert_eq in Ht).
        split_and!; try done; [by apply not_elem_of_cons; auto|by apply NoDup_cons|].
        intros v [->|Hv]%elem_of_cons; [done|].
        by apply Hpar, lookup_insert_None in Hv as [? _].
      * rewrite bool_decide_false in Hpar by done. by split_and!.
    + intros ([? ?] & [? ?] & [? ?] & [Hk ?] & Hdisj & Hm & Hd & Hpar & ->).
      exists (scan_result acc [r]). split.
      * split_and!; try done; [apply Hdisj; by left|]. intros HP.
        rewrite decide_True in Hm, Hpar by done. apply not_elem_of_cons in Hm as [? _].
        split; [done|]. apply Hpar. by left.
      * apply IH. rewrite scan_result_cons. unfold scan_result. simpl.
        assert (∀ k, k ∈ relation_key <$> rs → k ∉ {[relation_key r]} ∪ ∅ ∪ unique_edges acc).
        { intros k Hrk. specialize (Hdisj k (or_intror Hrk)). set_solver. }
        destruct (decide (kind r = ParentOf)) as [HP|HP].
        -- apply not_elem_of_cons in Hm as [_ ?]. apply NoDup_cons in Hd as [? ?].
           rewrite bool_decide_true by done. split_and!; try done.
           intros v Hv. rewrite lookup_insert_ne by (by intros <-). apply Hpar. by right.
        -- rewrite bool_decide_false by done. by split_and!.
Qed.

(** * The ownership graph *)

Lemma edge_children rs u v : edge (push_edges ∅ (own_edges rs)) u v ↔ (u, v) ∈ own_edges rs.
Proof.
  rewrite edge_push_edges. split; [|by right]. intros [H|H]; [|done]. by apply edge_empty in H.
Qed.

Lemma owns_children t u v : edge (push_edges ∅ (own_edges (relations t))) u v ↔ owns t u v.
Proof. by rewrite edge_children, elem_of_own_edges. Qed.

Lemma rtc_owns_children t u v :
  rtc (edge (push_edges ∅ (own_edges (relations t)))) u v ↔ rtc (owns t) u v.
Proof.
  split; apply rtc_subrel; intros x y; by rewrite owns_children.
Qed.

Lemma owns_members t members moderator u v :
  edges_ok members moderator (relations t) → owns t u v → u ∈ members ∧ v ∈ members.
Proof.
  intros [Hs Ht _ _ _ _] (r & Hr & _ & <- & <-). rewrite Forall_forall in Hs, Ht. auto.
Qed.

Lemma owns_owned t u v : owns t u v → v ∈ owned (relations t).
Proof. intros (r & ? & ? & _ & ?). apply elem_of_owned. eauto. Qed.

Lemma lookup_parents rs v u :
  NoDup (owned rs) → (u, v) ∈ own_edges rs → ∀ ps, add_parents ps rs !! v = Some u.
Proof.
  induction rs as [|r rs IH]; [by intros _ ?%not_elem_of_nil|].
  rewrite owned_cons, own_edges_cons. intros Hd Hin ps.
  unfold add_parents. cbn [foldl].
  destruct (decide (kind r = ParentOf)) as [HP|HP].
  - rewrite bool_decide_true by done. apply NoDup_cons in Hd as [Hr Hrs].
    apply elem_of_cons in Hin as [[= -> ->]|Hin]; [|by apply IH].
    change (add_parents (<[target r := source r]> ps) rs !! target r = Some (source r)).
    by rewrite lookup_add_parents_fresh, lookup_insert_eq.
  - rewrite bool_decide_false by done. by apply IH.
Qed.

Lemma lookup_parents_inv rs ps v u :
  add_parents ps rs !! v = Some u → ps !! v = Some u ∨ (u, v) ∈ own_edges rs.
Proof.
  unfold add_parents. revert ps. induction rs as [|r rs IH]; intros ps; simpl; [by left|].
  rewrite own_edges_cons. case_bool_decide; case_decide; try done; [|by apply IH].
  intros [Hl|?]%IH; [|right; by right].
  apply lookup_insert_Some in Hl as [[<- <-]|[_ ?]]; [right; by left|by left].
Qed.

(** With single owners the map the source builds is the owner relation. *)
Lemma parents_of_owns t u v :
  NoDup (owned (relations t)) → parents_of t !! v = Some u ↔ owns t u v.
Proof.
  intros Hd. change (parents_of t) with (add_parents ∅ (relations t)).
  rewrite <- elem_of_own_edges. split.
  - by intros [?|?]%lookup_parents_inv.
  - intros. by apply lookup_parents.
Qed.

Lemma owner_unique t u u' v :
  NoDup (owned (relations t)) → owns t u v → owns t u' v → u = u'.
Proof.
  intros Hd Hu Hu'. apply (parents_of_owns t) in Hu; [|done].
  apply (parents_of_owns t) in Hu'; [|done]. congruence.
Qed.

(** * The check decides governance *)

Lemma search_children t i j :
  j ∈ search queue_push (push_edges ∅ (own_edges (relations t))) [i] ↔ rtc (owns t) i j.
Proof. by rewrite search_reach, rtc_owns_children. Qed.

Lemma reachable_members t members moderator :
  edges_ok members moderator (relations t) → moderator ∈ members →
  search queue_push (push_edges ∅ (own_edges (relations t))) [moderator] ⊆ members.
Proof.
  intros He Hm j. rewrite search_children. intros Hj.
  apply (rtc_closed (owns t) (λ j, j ∈ members) moderator); [|done|done].
  intros u v _ Huv. by destruct (owns_members t members moderator u v He Huv).
Qed.

Lemma validate_governed_iff `{!HashOrder} t m :
  Membership.moderator_instance_id (Membership.governance m) ∈ Membership.members m →
  validate t m = Ok tt ↔ governed t m.
Proof.
  intros Hm. unfold validate. rewrite !bail_ok, negb_bool_decide_false, negb_false_iff, Z.eqb_eq.
  rewrite res_bind_ok. setoid_rewrite scan_relations_ok.
  set (moderator := Membership.moderator_instance_id _) in *.
  set (members := Membership.members m) in *.
  set (reach := search queue_push (push_edges ∅ (own_edges (relations t))) [moderator]).
  split.
  - intros (Hs & Hr & acc & (? & ? & ? & ? & _ & ? & ? & _ & ->) & Hrest).
    assert (edges_ok members moderator (relations t)) as He by (split; done).
    simpl in Hrest. fold reach in Hrest.
    destruct (size reach =? size members)%nat eqn:Hsz; simpl in Hrest.
    + apply Nat.eqb_eq in Hsz. split; [done|done|done|]. intros i Hi.
      apply search_children. fold moderator reach.
      rewrite (set_subseteq_size_eq reach members); [done|by apply reachable_members|lia].
    + inv_ok.
  - intros [Hs Hr He Hreach]. fold moderator members in He, Hreach.
    split; [done|]. split; [done|]. exists (scan_result scan0 (relations t)).
    split; [destruct He; split_and!; try done; set_solver|]. simpl. fold reach.
    replace (size reach =? size members)%nat with true; [done|]. symmetry. apply Nat.eqb_eq.
    assert (reach = members) as ->; [|done]. apply set_eq. intros i. split.
    + by apply reachable_members.
    + intros Hi. apply search_children, Hreach, Hi.
Qed.

Lemma scan_relations_returns members moderator acc rs :
  returns (scan_relations members moderator acc rs).
Proof.
  revert acc. induction rs as [|r rs IH]; intros acc; simpl; [done|].
  apply returns_bind; [|by intros; apply IH]. unfold scan_relation.
  repeat (apply returns_bail; intros _). case_match; [done|].
  by repeat (apply returns_bail; intros _).
Qed.

(** The [expect] in [validate] never fails when the moderator is a member. *)
Lemma validate_topology_returns `{!HashOrder} t m :
  Membership.moderator_instance_id (Membership.governance m) ∈ Membership.members m →
  returns (validate t m).
Proof.
  intros Hm. unfold validate. repeat (apply returns_bail; intros _).
  apply returns_bind; [apply scan_relations_returns|]. intros acc Hacc.
  apply scan_relations_ok in Hacc as (? & ? & ? & ? & _ & ? & ? & _ & ->). simpl.
  set (reach := search _ _ _). destruct (negb _) eqn:Hsz; [|done].
  destruct (list_find _ _) as [i|] eqn:Hfind; simpl; [by apply returns_bail|].
  apply list_find_None in Hfind. rewrite Forall_forall in Hfind.
  rewrite negb_true_iff, Nat.eqb_neq in Hsz. destruct Hsz.
  assert (reach = Membership.members m) as ->; [|done]. apply set_eq. intros i. split.
  - by apply reachable_members.
  - intros Hi. apply dec_stable. apply Hfind. by apply elem_of_hash_iter.
Qed.

(** * The ownership tree *)

Section tree.
Context (t : SessionTopology) (m : SessionMembership) (Hg : governed t m).

Lemma governed_single_owner : NoDup (owned (relations t)).
Proof. by destruct Hg as [_ _ [] _]. Qed.

Lemma governed_owned_member i : i ∈ owned (relations t) → i ∈ Membership.members m.
Proof.
  intros (r & Hr & _ & <-)%elem_of_owned. destruct Hg as [_ _ [_ Ht _ _ _ _] _].
  by rewrite Forall_forall in Ht; apply Ht.
Qed.

Lemma moderator_rooted_acyclic i :
  rtc (owns t) (Membership.moderator_instance_id (Membership.governance m)) i →
  ¬ tc (owns t) i i.
Proof.
  revert i. apply rtc_ind_r.
  - intros Hc. assert (∃ u, owns t u (Membership.moderator_instance_id (Membership.governance m)))
      as [u Hu] by (destruct (tc_last _ _ _ Hc) as [?|(? & _ & ?)]; eauto).
    apply owns_owned in Hu. by destruct Hg as [_ _ [] _].
  - intros y z _ Hyz Hy Hz. apply Hy.
    destruct (tc_last _ _ _ Hz) as [Hzz|(u & Hzu & Huz)].
    + pose proof (owner_unique t y z z governed_single_owner Hyz Hzz) as ->. by apply tc_once.
    + pose proof (owner_unique t y u z governed_single_owner Hyz Huz) as ->. by apply tc_l with z.
Qed.

(** Ownership has no cycle. *)
Lemma governed_acyclic i : ¬ tc (owns t) i i.
Proof.
  intros Hi. destruct (tc_last _ _ _ Hi) as [H|(u & _ & H)];
    (apply (moderator_rooted_acyclic i); [|done]); apply (t_reachable t m Hg);
    by eapply governed_owned_member, owns_owned.
Qed.

Lemma governed_acc i : Acc (owns t) i.
Proof.
  apply (acyclic_acc _ (Membership.members m)); [|apply governed_acyclic].
  intros u v Huv. destruct Hg as [_ _ He _]. by destruct (owns_members _ _ _ _ _ He Huv).
Qed.
End tree.

(** * Walking up the owner map *)

Section chase.
Implicit Types (parents : gmap AgentInstanceId AgentInstanceId).

Definition up parents (a b : AgentInstanceId) : Prop := parents !! a = Some b.

Inductive halts parents : nat → AgentInstanceId → Prop :=
  | halts_root x : parents !! x = None → halts parents 0 x
  | halts_up k x y : parents !! x = Some y → halts parents k y → halts parents (S k) x.

Lemma halts_unique parents k k' x : halts parents k x → halts parents k' x → k = k'.
Proof.
  intros Hk. revert k'. induction Hk as [x Hx|k x y Hx _ IH]; intros k' Hk'; inversion Hk'; subst;
    [done|congruence|congruence|]. f_equal. apply IH. congruence.
Qed.

(** A walk that ends visits every node once. *)
Lemma halts_bound parents k x : halts parents k x → k ≤ size parents.
Proof.
  intros Hk. enough (∃ s : gset AgentInstanceId, s ⊆ dom parents ∧ size s = k ∧
    ∀ z, z ∈ s → ∃ j, 1 ≤ j ≤ k ∧ halts parents j z) as (s & Hs & <- & _).
  { rewrite <- size_dom. by apply subseteq_size. }
  induction Hk as [x Hx|k x y Hx Hy (s & Hs & Hsize & Hin)].
  - exists ∅. split_and!; [set_solver|apply size_empty|set_solver].
  - exists ({[x]} ∪ s). assert (x ∉ s) as Hxs.
    { intros (j & Hj & Hjx)%Hin. pose proof (halts_up parents k x y Hx Hy) as Hk.
      pose proof (halts_unique _ _ _ _ Hjx Hk). lia. }
    split_and!.
    + apply elem_of_dom_2 in Hx. set_solver.
    + rewrite size_union by set_solver. rewrite size_singleton. lia.
    + intros z [->%elem_of_singleton|Hz]%elem_of_union.
      * exists (S k). split; [lia|]. by apply halts_up with y.
      * destruct (Hin z Hz) as (j & ? & ?). exists j. split; [lia|done].
Qed.

Lemma rtc_up_cons parents x y z :
  parents !! x = Some y → rtc (up parents) x z ↔ z = x ∨ rtc (up parents) y z.
Proof.
  intros Hx. split.
  - intros [->|(w & Hw & Hz)]%rtc_inv; [by left|right]. unfold up in Hw. by simplify_eq.
  - intros [->|Hz]; [done|]. by apply rtc_l with y.
Qed.

Lemma rtc_up_root parents x z : parents !! x = None → rtc (up parents) x z ↔ z = x.
Proof.
  intros Hx. split; [|by intros ->]. intros [->|(w & Hw & _)]%rtc_inv; [done|].
  unfold up in Hw. congruence.
Qed.

(** The first loop collects the instance and its ancestors. *)
Lemma ancestors_loop parents k x n s :
  halts parents k x → k + 2 ≤ n →
  ∃ r, loop_fuel (ancestors_step parents) n (Some x, s) = Some r ∧
    ∀ z, z ∈ r ↔ z ∈ s ∨ rtc (up parents) x z.
Proof.
  intros Hk. revert n s. induction Hk as [x Hx|k x y Hx _ IH]; intros n s Hn;
    (destruct n as [|n]; [lia|]); simpl; rewrite Hx.
  - destruct n as [|n]; [lia|]. simpl. eexists. split; [done|]. intros z.
    rewrite rtc_up_root by done. set_solver.
  - destruct (IH n ({[x]} ∪ s)) as (r & -> & Hr); [lia|]. exists r. split; [done|].
    intros z. rewrite Hr, (rtc_up_cons parents x y) by done. set_solver.
Qed.

Lemma ancestors_loop_halts parents n x s r :
  loop_fuel (ancestors_step parents) n (Some x, s) = Some r → ∃ k, halts parents k x.
Proof.
  revert x s. induction n as [|n IH]; intros x s; simpl; [done|].
  destruct (parents !! x) as [y|] eqn:Hx; [|by eauto using halts].
  intros [k Hk]%IH. eauto using halts.
Qed.

(** The second loop stops at the first node of the walk that is an ancestor. *)
Lemma common_loop parents anc k x n :
  halts (filter (λ kv, kv.1 ∉ anc) parents) k x → k + 2 ≤ n →
  ∃ r, loop_fuel (common_step parents anc) n (Some x) = Some r ∧
    match r with
    | Some c => c ∈ anc ∧ rtc (up parents) x c ∧
        ∀ z, rtc (up parents) x z → z ∈ anc → rtc (up parents) c z
    | None => ∀ z, rtc (up parents) x z → z ∉ anc
    end.
Proof.
  intros Hk. revert n. induction Hk as [x Hx|k x y Hx _ IH]; intros n Hn;
    (destruct n as [|n]; [lia|]); simpl.
  - case_decide as Ha; [by exists (Some x)|].
    assert (parents !! x = None) as Hpx.
    { apply eq_None_not_Some. intros [y Hy]. apply map_lookup_filter_None in Hx.
      destruct Hx as [Hx|Hx]; [congruence|]. by apply (Hx y). }
    destruct n as [|n]; [lia|]. simpl. rewrite Hpx. exists None. split; [done|].
    intros z. rewrite rtc_up_root by done. by intros ->.
  - apply map_lookup_filter_Some in Hx as [Hx Ha]. simpl in Ha.
    rewrite decide_False by done. rewrite Hx.
    destruct (IH n) as (r & -> & Hr); [lia|]. exists r. split; [done|].
    destruct r as [c|].
    + destruct Hr as (? & ? & Hmin). split_and!; [done|by apply rtc_l with y|].
      intros z. rewrite (rtc_up_cons parents x y) by done. intros [->|?]; [done|by auto].
    + intros z. rewrite (rtc_up_cons parents x y) by done. intros [->|?]; [done|by auto].
Qed.

Lemma common_loop_halts parents anc n x r :
  loop_fuel (common_step parents anc) n (Some x) = Some r →
  ∃ k, halts (filter (λ kv, kv.1 ∉ anc) parents) k x.
Proof.
  revert x. induction n as [|n IH]; intros x; simpl; [done|]. case_decide as Ha.
  - intros _. exists 0. constructor. apply map_lookup_filter_None. right. intros ? _. simpl. auto.
  - destruct (parents !! x) as [y|] eqn:Hx.
    + intros [k Hk]%IH. exists (S k). apply halts_up with y; [|done].
      by apply map_lookup_filter_Some.
    + intros _. exists 0. constructor. apply map_lookup_filter_None. by left.
Qed.

(** Out of fuel means the source loops forever. *)
Lemma ancestors_exact parents x s :
  loop_fuel (ancestors_step parents) (chase_fuel parents) (Some x, s) = None →
  ∀ n, loop_fuel (ancestors_step parents) n (Some x, s) = None.
Proof.
  intros Hnone n. destruct (loop_fuel _ n _) eqn:Hn; [|done].
  apply ancestors_loop_halts in Hn as [k Hk].
  destruct (ancestors_loop parents k x (chase_fuel parents) s Hk) as (? & ? & _); [|congruence].
  apply halts_bound in Hk. unfold chase_fuel. lia.
Qed.

Lemma common_exact parents anc x :
  loop_fuel (common_step parents anc) (chase_fuel parents) (Some x) = None →
  ∀ n, loop_fuel (common_step parents anc) n (Some x) = None.
Proof.
  intros Hnone n. destruct (loop_fuel _ n _) eqn:Hn; [|done].
  apply common_loop_halts in Hn as [k Hk].
  destruct (common_loop parents anc k x (chase_fuel parents) Hk) as (? & ? & _); [|congruence].
  apply halts_bound in Hk. pose proof (map_subseteq_size (filter (λ kv, kv.1 ∉ anc) parents) parents
    (map_filter_subseteq _ _)). unfold chase_fuel. lia.
Qed.
End chase.

(** * The arbitrator *)

Lemma up_owns t a b : NoDup (owned (relations t)) → up (parents_of t) a b ↔ owns t b a.
Proof. apply parents_of_owns. Qed.

Lemma rtc_up_owns t a b :
  NoDup (owned (relations t)) → rtc (up (parents_of t)) a b ↔ rtc (owns t) b a.
Proof.
  intros Hd. split.
  - induction 1 as [|x y z Hxy _ IH]; [done|]. apply rtc_r with y; [done|by apply up_owns].
  - induction 1 as [|x y z Hxy _ IH]; [done|]. apply rtc_r with y; [done|by apply up_owns].
Qed.

(** In a well-founded ownership graph every walk up ends, also restricted to
    the nodes that are not ancestors. *)
Lemma acc_halts t parents i :
  NoDup (owned (relations t)) → Acc (owns t) i → parents ⊆ parents_of t →
  ∃ k, halts parents k i.
Proof.
  intros Hd Hi Hsub. induction Hi as [i _ IH].
  destruct (parents !! i) as [y|] eqn:Hy; [|by eauto using halts].
  destruct (IH y) as [k Hk]; [|by eauto using halts].
  apply parents_of_owns; [done|]. by eapply lookup_weaken.
Qed.

Lemma arbitrator_for_spec t src tgt m :
  NoDup (owned (relations t)) → Acc (owns t) src → Acc (owns t) tgt →
  ∃ c, arbitrator_for t src tgt m = Ok c ∧
    ((rtc (owns t) c src ∧ rtc (owns t) c tgt ∧
      ∀ d, rtc (owns t) d src → rtc (owns t) d tgt → rtc (owns t) d c) ∨
     (c = Membership.moderator_instance_id (Membership.governance m) ∧
      ∀ d, rtc (owns t) d src → ¬ rtc (owns t) d tgt)).
Proof.
  intros Hd Hs Ht. unfold arbitrator_for.
  destruct (acc_halts t (parents_of t) src Hd Hs) as [k Hk]; [done|].
  destruct (ancestors_loop _ k src (chase_fuel (parents_of t)) ∅ Hk) as (anc & -> & Hanc).
  { apply halts_bound in Hk. unfold chase_fuel. lia. }
  assert (∀ z, z ∈ anc ↔ rtc (owns t) z src) as Hin.
  { intros z. rewrite Hanc, rtc_up_owns by done. set_solver. }
  set (rest := filter (λ kv, kv.1 ∉ anc) (parents_of t)).
  destruct (acc_halts t rest tgt Hd Ht) as [k' Hk']; [apply map_filter_subseteq|].
  destruct (common_loop _ anc k' tgt (chase_fuel (parents_of t)) Hk') as (c & -> & Hc).
  { apply halts_bound in Hk'. pose proof (map_subseteq_size rest (parents_of t)
      (map_filter_subseteq _ _)). unfold chase_fuel. lia. }
  destruct c as [c|].
  - destruct Hc as (Hca & Hct & Hmin). exists c. split; [done|left].
    rewrite rtc_up_owns in Hct by done. rewrite Hin in Hca. split_and!; [done|done|].
    intros d Hds Hdt. apply (rtc_up_owns t c d Hd), Hmin; [by apply rtc_up_owns|by apply Hin].
  - eexists. split; [done|right]. split; [done|]. intros d Hds Hdt.
    apply (Hc d); [by apply rtc_up_owns|by apply Hin].
Qed.

(** In a governed topology the arbitrator between two members is their
    nearest common owner. *)
Lemma arbitrator_for_governed t m src tgt :
  governed t m → src ∈ Membership.members m → tgt ∈ Membership.members m →
  ∃ c, arbitrator_for t src tgt m = Ok c ∧
    rtc (owns t) c src ∧ rtc (owns t) c tgt ∧
    ∀ d, rtc (owns t) d src → rtc (owns t) d tgt → rtc (owns t) d c.
Proof.
  intros Hg Hsrc Htgt.
  destruct (arbitrator_for_spec t src tgt m) as (c & Hc & [?|[_ Hno]]);
    [by apply (governed_single_owner t m)|by apply (governed_acc t m)|by apply (governed_acc t m)|..].
  - by exists c.
  - exfalso. apply (Hno (Membership.moderator_instance_id (Membership.governance m)));
      by apply (t_reachable t m Hg).
Qed.

(** An owner of a member is a member. *)
Lemma owner_member t m u v :
  governed t m → v ∈ Membership.members m → rtc (owns t) u v → u ∈ Membership.members m.
Proof.
  intros Hg Hv Huv. destruct Huv as [|u w v Huw _]; [done|].
  destruct Hg as [_ _ He _]. by destruct (owns_members _ _ _ _ _ He Huw).
Qed.

Lemma arbitrator_for_returns t m src tgt : governed t m → returns (arbitrator_for t src tgt m).
Proof.
  intros Hg. destruct (arbitrator_for_spec t src tgt m) as (c & -> & _);
    [by apply (governed_single_owner t m)|by apply (governed_acc t m)|by apply (governed_acc t m)|done].
Qed.

(** [arbitrator_for] of the model diverges exactly when a loop of the source does. *)
Lemma arbitrator_for_diverge t src tgt m :
  arbitrator_for t src tgt m = Diverge ↔
    (∀ n, loop_fuel (ancestors_step (parents_of t)) n (Some src, ∅) = None) ∨
    ∃ n anc, loop_fuel (ancestors_step (parents_of t)) n (Some src, ∅) = Some anc ∧
      ∀ n, loop_fuel (common_step (parents_of t) anc) n (Some tgt) = None.
Proof.
  unfold arbitrator_for.
  destruct (loop_fuel (ancestors_step _) _ _) as [anc|] eqn:Ha.
  - destruct (loop_fuel (common_step _ anc) _ _) as [[c|]|] eqn:Hc.
    + split; [done|]. intros [H|(n & anc' & Hn & H)]; [by rewrite H in Ha|].
      assert (anc' = anc) as -> by (pose proof (loop_fuel_det _ _ _ _ _ _ Hn Ha); congruence).
      by rewrite H in Hc.
    + split; [done|]. intros [H|(n & anc' & Hn & H)]; [by rewrite H in Ha|].
      assert (anc' = anc) as -> by (pose proof (loop_fuel_det _ _ _ _ _ _ Hn Ha); congruence).
      by rewrite H in Hc.
    + split; [|done]. intros _. right. eexists _, anc. split; [done|]. by apply common_exact.
  - split; [|done]. intros _. left. by apply ancestors_exact.
Qed.
