(* ===== verification/Route.v ===== *)
(** Message routing: [SessionTopology::route_between] of
    src/sylvander-runtime/src/coordination/topology.rs, a breadth-first search
    over the undirected relationship graph.

    [route_between_spec] is the refinement to its specification: the result is
    a shortest path without repeated nodes, or [None] when there is no path. *)

From S2P Require Import Prelude Graph Instance.
From S2P Require Topology.
From stdpp Require Import base tactics gmap strings list relations sorting.
From Stdlib Require Import ZArith Lia.

Notation SessionTopology := Topology.SessionTopology (only parsing).

(** * The search *)

(** Queue, visited set and predecessor map. *)
Record bfs := {
  queue : list string;
  visited : gset string;
  predecessor : gmap string string;
}.

Section search.
Context (adj : adjacency) (target : string).

(** The loop over the neighbours of [current]; [inr] when it finds the target. *)
Fixpoint visit (current : string) (ns : list string) (st : bfs) : bfs + gmap string string :=
  match ns with
  | [] => inl st
  | n :: ns =>
      if decide (n ∈ visited st) then visit current ns st
      else
        let predecessor' := <[n := current]> (predecessor st) in
        if n == target then inr predecessor'
        else visit current ns {| queue := queue st ++ [n]; visited := {[n]} ∪ visited st;
                                 predecessor := predecessor' |}
  end.

Definition bfs_step (st : bfs) : bfs + option (gmap string string) :=
  match queue st with
  | [] => inr None
  | current :: rest =>
      match visit current (succs adj current)
              {| queue := rest; visited := visited st; predecessor := predecessor st |} with
      | inl st' => inl st'
      | inr p => inr (Some p)
      end
  end.

Definition nodes : gset string := list_to_set (concat (map_to_list adj).*2).

Definition bfs_measure (st : bfs) : nat := length (queue st) + size (nodes ∖ visited st).

Lemma succs_nodes x y : y ∈ succs adj x → y ∈ nodes.
Proof.
  unfold succs, nodes. intros Hy. destruct (adj !! x) as [l|] eqn:Hx; simpl in Hy; [|set_solver].
  rewrite elem_of_list_to_set, list_elem_of_In, in_concat. exists l.
  rewrite <- !list_elem_of_In. split; [|done]. apply list_elem_of_fmap. exists (x, l).
  split; [done|]. by apply elem_of_map_to_list.
Qed.

Lemma visit_measure current ns st st' :
  (∀ n, n ∈ ns → n ∈ nodes) → visit current ns st = inl st' → bfs_measure st' ≤ bfs_measure st.
Proof.
  revert st. induction ns as [|n ns IH]; intros st Hns; simpl; [by intros [= ->]|].
  case_decide as Hn; [apply IH; set_solver|]. case_bool_decide; [done|].
  intros Hv. apply IH in Hv; [|set_solver]. unfold bfs_measure in *. simpl in *.
  rewrite length_app in Hv. simpl in Hv.
  assert (size (nodes ∖ visited st) = S (size (nodes ∖ ({[n]} ∪ visited st)))); [|lia].
  assert (n ∈ nodes) by (apply Hns; by left).
  replace (nodes ∖ visited st) with ({[n]} ∪ nodes ∖ ({[n]} ∪ visited st)).
  - rewrite size_union by set_solver. by rewrite size_singleton.
  - apply set_eq. intros x. destruct (decide (x = n)); set_solver.
Qed.

Lemma bfs_decreases st st' : bfs_step st = inl st' → bfs_measure st' < bfs_measure st.
Proof.
  unfold bfs_step. destruct (queue st) as [|x rest] eqn:Hq; [done|].
  destruct (visit _ _ _) as [st1|] eqn:Hv; [|done]. intros [= <-].
  apply visit_measure in Hv; [|apply succs_nodes]. unfold bfs_measure in *. simpl in *.
  rewrite Hq. simpl. lia.
Qed.

Definition bfs_search (src : string) : option (gmap string string) :=
  loop bfs_step bfs_measure bfs_decreases
    {| queue := [src]; visited := {[src]}; predecessor := ∅ |}.
End search.

(** [while cursor != source { cursor = predecessor.get(cursor)?; route.push(cursor); }] *)
Definition trace_step (predecessor : gmap string string) (src : string)
    (st : string * list string) : (string * list string) + option (list string) :=
  if st.1 == src then inr (Some st.2)
  else match predecessor !! st.1 with
  | None => inr None
  | Some c => inl (c, st.2 ++ [c])
  end.

(** The undirected relationship graph. *)
Definition neighbors (t : SessionTopology) : adjacency :=
  foldl (λ adj r, push_edge (push_edge adj (Topology.source r) (Topology.target r))
                    (Topology.target r) (Topology.source r)) ∅ (Topology.relations t).

Definition route_between (t : SessionTopology) (src tgt : AgentInstanceId) :
    res (option (list AgentInstanceId)) Empty_set :=
  if src == tgt then Ok (Some [src])
  else match bfs_search (neighbors t) tgt src with
  | None => Ok None
  | Some predecessor =>
      match loop_fuel (trace_step predecessor src) (size predecessor + 2) (tgt, [tgt]) with
      | None => Diverge
      | Some None => Ok None
      | Some (Some route) => Ok (Some (reverse route))
      end
  end.

(** * Paths *)

(** [path R x l y]: [x :: l] is a path to [y]. *)
Fixpoint path (R : relation string) (x : string) (l : list string) (y : string) : Prop :=
  match l with
  | [] => x = y
  | z :: l => R x z ∧ path R z l y
  end.

Lemma path_snoc R x l y z : path R x l y → R y z → path R x (l ++ [z]) z.
Proof.
  revert x. induction l as [|w l IH]; intros x; simpl; [by intros ->|].
  intros [? ?] ?. auto.
Qed.

Lemma path_nsteps R x l y : path R x l y → nsteps R (length l) x y.
Proof.
  revert x. induction l as [|z l IH]; intros x; simpl; [intros ->; constructor|].
  intros [? ?]. econstructor; eauto.
Qed.

Lemma path_rtc R x l y : path R x l y → rtc R x y.
Proof. intros H%path_nsteps. by eapply rtc_nsteps_2. Qed.

(** [linked t u v]: a relation of any kind joins [u] and [v]. *)
Definition linked (t : SessionTopology) (u v : AgentInstanceId) : Prop :=
  ∃ r, r ∈ Topology.relations t ∧
    ((Topology.source r = u ∧ Topology.target r = v) ∨
     (Topology.source r = v ∧ Topology.target r = u)).

Lemma edge_neighbors t u v : edge (neighbors t) u v ↔ linked t u v.
Proof.
  unfold neighbors, linked. generalize (Topology.relations t) as rs. intros rs.
  enough (∀ adj, edge (foldl (λ adj r, push_edge (push_edge adj (Topology.source r)
      (Topology.target r)) (Topology.target r) (Topology.source r)) adj rs) u v ↔
    edge adj u v ∨ ∃ r, r ∈ rs ∧ ((Topology.source r = u ∧ Topology.target r = v) ∨
     (Topology.source r = v ∧ Topology.target r = u))) as ->.
  { split; [intros [H|H]|]; [by apply edge_empty in H|done|by right]. }
  induction rs as [|r rs IH]; intros adj; simpl.
  - split; [by left|]. intros [?|(r & Hr & _)]; [done|by apply not_elem_of_nil in Hr].
  - rewrite IH, !edge_push_edge. setoid_rewrite elem_of_cons. naive_solver.
Qed.

(** * The search finds shortest paths *)

Section correct.
Context (adj : adjacency) (src tgt : string).
Implicit Types (d : string → nat).

(** The predecessors form a tree rooted at [src] with depths [d]. *)
Definition tree (V : gset string) (p : gmap string string) d : Prop :=
  src ∈ V ∧ d src = 0 ∧
  ∀ v, v ∈ V → v ≠ src → ∃ u, p !! v = Some u ∧ u ∈ V ∧ edge adj u v ∧ d v = S (d u).

(** [x]'s neighbours are visited, at most one level below it. *)
Definition expanded (V : gset string) d (x : string) (ns : list string) : Prop :=
  ∀ y, y ∈ ns → y ∈ V ∧ d y ≤ S (d x).

Record inv (st : bfs) d : Prop := {
  i_tree : tree (visited st) (predecessor st) d;
  i_target : tgt ∉ visited st;
  i_queue : ∀ x, x ∈ queue st → x ∈ visited st;
  i_expanded : ∀ x, x ∈ visited st → x ∉ queue st → expanded (visited st) d x (succs adj x);
  i_sorted : StronglySorted (λ a b, d a ≤ d b) (queue st);
  i_span : ∀ a b, a ∈ queue st → b ∈ queue st → d b ≤ S (d a);
  i_old : ∀ y a, y ∈ visited st → y ∉ queue st → a ∈ queue st → d y ≤ d a;
}.

(** While the neighbours of [x] are visited: [ds] of them are. *)
Record inner (x : string) (ds : list string) (st : bfs) d : Prop := {
  n_tree : tree (visited st) (predecessor st) d;
  n_target : tgt ∉ visited st;
  n_current : x ∈ visited st;
  n_queue : ∀ y, y ∈ queue st → y ∈ visited st;
  n_expanded : ∀ y, y ∈ visited st → y ∉ x :: queue st → expanded (visited st) d y (succs adj y);
  n_done : expanded (visited st) d x ds;
  n_sorted : StronglySorted (λ a b, d a ≤ d b) (queue st);
  n_span : ∀ a, a ∈ queue st → d x ≤ d a ≤ S (d x);
  n_old : ∀ y, y ∈ visited st → y ∉ x :: queue st → d y ≤ d x;
}.

(** The depths after [n] is reached from [x]. *)
Definition deepen d (x n : string) : string → nat :=
  λ z, if decide (z = n) then S (d x) else d z.

Lemma deepen_eq d x n : deepen d x n n = S (d x).
Proof. unfold deepen. by rewrite decide_True. Qed.
Lemma deepen_ne d x n z : z ≠ n → deepen d x n z = d z.
Proof. intros. unfold deepen. by rewrite decide_False. Qed.
Lemma deepen_old d x n (V : gset string) z : n ∉ V → z ∈ V → deepen d x n z = d z.
Proof. intros. apply deepen_ne. set_solver. Qed.

Lemma tree_insert V p d x n :
  tree V p d → x ∈ V → n ∉ V → edge adj x n → tree ({[n]} ∪ V) (<[n := x]> p) (deepen d x n).
Proof.
  intros (Hs & Hd & Htree) Hx Hn Hxn. split; [set_solver|].
  split; [by rewrite (deepen_old _ _ _ V)|].
  intros v [->%elem_of_singleton|Hv]%elem_of_union Hvs.
  - exists x. rewrite lookup_insert_eq, deepen_eq, (deepen_old d x n V) by done.
    split_and!; [done|set_solver|done|done].
  - destruct (Htree v Hv Hvs) as (u & Hu & HuV & Huv & Hdu). exists u.
    rewrite lookup_insert_ne by set_solver. rewrite !(deepen_old d x n V) by done.
    split_and!; [done|set_solver|done|done].
Qed.

Lemma expanded_insert V d x n y ns :
  expanded V d y ns → n ∉ V → y ∈ V → expanded ({[n]} ∪ V) (deepen d x n) y ns.
Proof.
  intros He Hn Hy z Hz. destruct (He z Hz) as [HzV Hdz].
  rewrite !(deepen_old d x n V) by done. split; [set_solver|done].
Qed.

Lemma sorted_snoc d l n k :
  StronglySorted (λ a b, d a ≤ d b) l → (∀ a, a ∈ l → d a ≤ k) → d n = k →
  StronglySorted (λ a b, d a ≤ d b) (l ++ [n]).
Proof.
  intros Hl Hk <-. induction Hl as [|a l Hl IH Ha]; simpl; [by repeat constructor|].
  constructor.
  - apply IH. intros. apply Hk. by right.
  - apply Forall_app. split; [done|]. constructor; [|done]. apply Hk. by left.
Qed.

Lemma sorted_ext d d' l :
  (∀ a, a ∈ l → d' a = d a) → StronglySorted (λ a b, d a ≤ d b) l →
  StronglySorted (λ a b, d' a ≤ d' b) l.
Proof.
  intros Heq Hl. induction Hl as [|a l Hl IH Ha]; constructor.
  - apply IH. intros. apply Heq. by right.
  - rewrite Forall_forall in Ha |- *. intros b Hb. rewrite (Heq a) by (by left). rewrite (Heq b) by (by right).
    by apply Ha.
Qed.

Lemma inner_push x ds st d n :
  inner x ds st d → n ∉ visited st → n ≠ tgt → edge adj x n →
  inner x (ds ++ [n])
    {| queue := queue st ++ [n]; visited := {[n]} ∪ visited st;
       predecessor := <[n := x]> (predecessor st) |} (deepen d x n).
Proof.
  intros [Ht Htgt Hx Hq He Hd Hs Hspan Hold] Hn Hnt Hxn. split; simpl.
  - by apply tree_insert.
  - set_solver.
  - set_solver.
  - set_solver.
  - intros y Hy Hyq. assert (y ∈ visited st) as HyV by set_solver.
    apply expanded_insert; [|done|done]. apply He; [done|]. set_solver.
  - intros y [Hy| ->%list_elem_of_singleton]%elem_of_app.
    + by apply (expanded_insert _ d x n x ds).
    + rewrite deepen_eq, (deepen_old d x n (visited st)) by done. split; [set_solver|lia].
  - apply (sorted_snoc _ _ _ (S (d x))); [|intros a Ha|by rewrite deepen_eq].
    + apply (sorted_ext d); [|done]. intros a Ha. apply (deepen_old _ _ _ (visited st)); auto.
    + rewrite (deepen_old _ _ _ (visited st)) by auto. by apply Hspan.
  - intros a [Ha| ->%list_elem_of_singleton]%elem_of_app;
      rewrite (deepen_old d x n (visited st) x) by done.
    + rewrite (deepen_old d x n (visited st)) by auto. by apply Hspan.
    + rewrite deepen_eq. lia.
  - intros y Hy Hyq. assert (y ∈ visited st) by set_solver.
    rewrite !(deepen_old d x n (visited st)) by done. apply Hold; [done|set_solver].
Qed.

(** The search has found the target below [x]: every walk to it is longer
    than the depth of [x]. *)
Definition found (p : gmap string string) : Prop :=
  ∃ V d, tree V p d ∧ tgt ∈ V ∧ ∀ n, nsteps (edge adj) n src tgt → d tgt ≤ n.

(** A walk of length [n] ends in the visited part, or leaves it through a
    node of the frontier. *)
Lemma frontier_walk (V : gset string) d (F : list string) n z :
  src ∈ V → d src = 0 →
  (∀ y, y ∈ V → y ∉ F → expanded V d y (succs adj y)) →
  nsteps (edge adj) n src z → (z ∈ V ∧ d z ≤ n) ∨ ∃ a, a ∈ F ∧ d a < n.
Proof.
  intros Hs Hd He. revert z. induction n as [|n IH]; intros z Hz.
  - inversion Hz; subst. left. split; [done|lia].
  - apply nsteps_inv_r in Hz as (y & Hy & Hyz). destruct (IH y Hy) as [[HyV Hdy]|(a & ? & ?)].
    + destruct (decide (y ∈ F)); [right; exists y; split; [done|lia]|].
      destruct (He y HyV) with z as [? ?]; [done|done|]. left. split; [done|lia].
    + right. exists a. split; [done|lia].
Qed.

Lemma inner_known x ds st d n :
  inner x ds st d → n ∈ visited st → inner x (ds ++ [n]) st d.
Proof.
  intros [Ht Htgt Hx Hq He Hd Hs Hspan Hold] Hn. split; try done.
  intros y [Hy| ->%list_elem_of_singleton]%elem_of_app; [by apply Hd|]. split; [done|].
  destruct (decide (n ∈ x :: queue st)) as [Hnq|Hnq].
  - apply elem_of_cons in Hnq as [->|Hnq]; [lia|]. by apply Hspan.
  - specialize (Hold n Hn Hnq). lia.
Qed.

Lemma inner_found x ds st d :
  inner x ds st d → edge adj x tgt → found (<[tgt := x]> (predecessor st)).
Proof.
  intros [Ht Htgt Hx Hq He Hd Hs Hspan Hold] Hxt.
  exists ({[tgt]} ∪ visited st), (deepen d x tgt).
  split; [by apply tree_insert|]. split; [set_solver|]. intros n Hn.
  rewrite deepen_eq. destruct Ht as (? & ? & _).
  destruct (frontier_walk (visited st) d (x :: queue st) n tgt) as [[? _]|(a & Ha & Hda)]; [done..|].
  apply elem_of_cons in Ha as [->|Ha]; [lia|]. specialize (Hspan a Ha). lia.
Qed.

Lemma visit_inner x ds ns st d :
  inner x ds st d → (∀ y, y ∈ ns → edge adj x y) →
  match visit tgt x ns st with
  | inl st' => ∃ d', inner x (ds ++ ns) st' d'
  | inr p => found p
  end.
Proof.
  revert ds st d. induction ns as [|n ns IH]; intros ds st d Hi Hns; simpl.
  - exists d. by rewrite app_nil_r.
  - assert (edge adj x n) as Hxn by (apply Hns; by left).
    assert (∀ y, y ∈ ns → edge adj x y) as Hns' by (intros; apply Hns; by right).
    replace (ds ++ n :: ns) with ((ds ++ [n]) ++ ns) by (by rewrite <- app_assoc).
    case_decide as Hn.
    + apply (IH _ _ d); [|done]. by apply inner_known.
    + case_bool_decide as Ht; [subst; by eapply inner_found|].
      apply (IH _ _ (deepen d x n)); [|done]. by apply inner_push.
Qed.

Lemma inv_pop x rest st d :
  inv st d → queue st = x :: rest →
  inner x [] {| queue := rest; visited := visited st; predecessor := predecessor st |} d.
Proof.
  intros [Ht Htgt Hq He Hs Hspan Hold] Heq. rewrite Heq in *.
  apply StronglySorted_inv in Hs as [Hs Hx]. rewrite Forall_forall in Hx.
  split; simpl; try done.
  - apply Hq. by left.
  - intros. apply Hq. by right.
  - intros y Hy. by apply not_elem_of_nil in Hy.
  - intros a Ha. split; [by apply Hx|]. apply Hspan; [by left|by right].
  - intros y Hy Hyq. apply Hold; [done|done|by left].
Qed.

Lemma inner_inv x st d : inner x (succs adj x) st d → inv st d.
Proof.
  intros [Ht Htgt Hx Hq He Hd Hs Hspan Hold]. split; try done.
  - intros y Hy Hyq. destruct (decide (y = x)) as [->|]; [done|]. apply He; [done|].
    by apply not_elem_of_cons.
  - intros a b Ha Hb. destruct (Hspan a Ha), (Hspan b Hb). lia.
  - intros y a Hy Hyq Ha. destruct (Hspan a Ha). destruct (decide (y = x)) as [->|]; [done|].
    assert (d y ≤ d x); [|lia]. apply Hold; [done|]. by apply not_elem_of_cons.
Qed.

Lemma bfs_search_correct :
  src ≠ tgt →
  match bfs_search adj tgt src with
  | Some p => found p
  | None => ¬ rtc (edge adj) src tgt
  end.
Proof.
  intros Hne. unfold bfs_search.
  apply (loop_invariant _ _ _ (λ st, ∃ d, inv st d)
    (λ o, match o with Some p => found p | None => ¬ rtc (edge adj) src tgt end)).
  - exists (λ _, 0). split; simpl.
    + split; [set_solver|]. split; [done|]. intros v ->%elem_of_singleton. done.
    + set_solver.
    + set_solver.
    + intros x Hx Hxq. set_solver.
    + by repeat constructor.
    + lia.
    + lia.
  - intros st st' [d Hi]. unfold bfs_step. destruct (queue st) as [|x rest] eqn:Hq; [done|].
    pose proof (visit_inner x [] (succs adj x) _ d (inv_pop x rest st d Hi Hq)) as Hv.
    destruct (visit _ _ _ _) as [st1|]; [|done]. intros [= <-].
    destruct Hv as [d' Hd']; [done|]. exists d'. by apply (inner_inv x).
  - intros st o [d Hi]. unfold bfs_step. destruct (queue st) as [|x rest] eqn:Hq.
    + intros [= <-] [n Hn]%rtc_nsteps. destruct Hi as [(? & ? & _) Htgt _ He _ _ _].
      destruct (frontier_walk (visited st) d [] n tgt) as [[? _]|(a & Ha & _)];
        [done|done| |done|done|by apply not_elem_of_nil in Ha].
      intros y Hy _. apply He; [done|]. rewrite Hq. apply not_elem_of_nil.
    + pose proof (visit_inner x [] (succs adj x) _ d (inv_pop x rest st d Hi Hq)) as Hv.
      destruct (visit _ _ _ _) as [st1|p]; [done|]. intros [= <-]. by apply Hv.
Qed.
End correct.

(** * Reconstructing the route *)

Section trace.
Context (adj : adjacency) (src : string) (V : gset string) (p : gmap string string).
Context (d : string → nat) (Htree : tree adj src V p d).

Lemma tree_depth_size v : v ∈ V → d v ≤ size p.
Proof.
  intros Hv. enough (∃ s : gset string, s ⊆ dom p ∧ size s = d v ∧ ∀ z, z ∈ s → d z ≤ d v)
    as (s & Hs & <- & _) by (rewrite <- size_dom; by apply subseteq_size).
  remember (d v) as k eqn:Hk. revert v Hv Hk.
  induction k as [|k IH]; intros v Hv Hk; [exists ∅; set_solver by apply size_empty|].
  destruct Htree as (_ & Hd0 & Ht). assert (v ≠ src) as Hvs by congruence.
  destruct (Ht v Hv Hvs) as (u & Hu & HuV & _ & Hdu).
  destruct (IH u HuV) as (s & Hs & Hsize & Hle); [lia|].
  assert (v ∉ s) by (intros ?%Hle; lia). exists ({[v]} ∪ s). split_and!.
  - apply elem_of_dom_2 in Hu. set_solver.
  - rewrite size_union by set_solver. rewrite size_singleton. lia.
  - intros z [->%elem_of_singleton|Hz%Hle]%elem_of_union; lia.
Qed.

(** The nodes above [v] towards the root, with their depths. *)
Lemma trace_correct v acc n :
  v ∈ V → d v < n →
  ∃ l, loop_fuel (trace_step p src) n (v, acc) = Some (Some (acc ++ l)) ∧
    length l = d v ∧ (∀ z, z ∈ l → d z < d v) ∧ NoDup l ∧
    ∃ l', reverse (v :: l) = src :: l' ∧ path (edge adj) src l' v.
Proof.
  remember (d v) as k eqn:Hk. revert v acc n Hk.
  induction k as [|k IH]; intros v acc n Hk Hv Hn; (destruct n as [|n]; [lia|]).
  - assert (v = src) as ->.
    { destruct (decide (v = src)); [done|]. destruct Htree as (_ & _ & Ht).
      destruct (Ht v Hv) as (u & _ & _ & _ & Hdu); [done|lia]. }
    exists []. simpl. unfold trace_step. simpl. rewrite bool_decide_true by done.
    split_and!; [by rewrite app_nil_r|done|set_solver|constructor|]. by exists [].
  - destruct Htree as (_ & Hd0 & Ht). assert (v ≠ src) as Hvs by congruence.
    destruct (Ht v Hv Hvs) as (u & Hu & HuV & Huv & Hdu).
    destruct (IH u (acc ++ [u]) n) as (l & Hl & Hlen & Hlt & Hnd & l' & Hrev & Hpath);
      [lia|done|lia|].
    exists (u :: l). simpl. unfold trace_step at 1. simpl.
    rewrite bool_decide_false by done. rewrite Hu. split_and!.
    + rewrite Hl. by rewrite <- app_assoc.
    + lia.
    + intros z [->|Hz%Hlt]%elem_of_cons; lia.
    + constructor; [|done]. intros Hin%Hlt. lia.
    + exists (l' ++ [v]). rewrite reverse_cons, Hrev. split; [done|].
      by apply path_snoc with u.
Qed.
End trace.

(** A route starts at the source, ends at the target, follows the edges,
    visits no node twice, and no walk is shorter. *)
Definition shortest_route (R : relation string) (src tgt : string) (route : list string) : Prop :=
  ∃ l, route = src :: l ∧ path R src l tgt ∧ NoDup route ∧
    ∀ n, nsteps R n src tgt → length l ≤ n.

Lemma route_between_spec t src tgt :
  (∃ route, route_between t src tgt = Ok (Some route) ∧
     shortest_route (edge (neighbors t)) src tgt route) ∨
  (route_between t src tgt = Ok None ∧ ¬ rtc (edge (neighbors t)) src tgt).
Proof.
  unfold route_between. case_bool_decide as Heq.
  - subst. left. eexists. split; [done|]. exists []. split_and!; try done; [|simpl; lia].
    by apply NoDup_singleton.
  - pose proof (bfs_search_correct (neighbors t) src tgt Heq) as Hs.
    destruct (bfs_search _ _ _) as [p|]; [|by right].
    destruct Hs as (V & d & Htree & Htgt & Hmin). left.
    destruct (trace_correct _ _ _ _ _ Htree tgt [tgt] (size p + 2)) as
      (l & -> & Hlen & Hlt & Hnd & l' & Hrev & Hpath); [done| |].
    { pose proof (tree_depth_size _ _ _ _ _ Htree tgt Htgt). lia. }
    eexists. split; [done|]. simpl. exists l'. split_and!; [done|done| |].
    + rewrite reverse_Permutation. constructor; [|done]. intros ?%Hlt. lia.
    + intros n Hn%Hmin. apply (f_equal length) in Hrev. rewrite length_reverse in Hrev.
      simpl in Hrev. lia.
Qed.

Lemma route_between_returns t src tgt : returns (route_between t src tgt).
Proof. destruct (route_between_spec t src tgt) as [(r & -> & _)|[-> _]]; done. Qed.

Lemma route_between_ok t src tgt route :
  route_between t src tgt = Ok (Some route) → shortest_route (edge (neighbors t)) src tgt route.
Proof. destruct (route_between_spec t src tgt) as [(r & -> & ?)|[-> _]]; naive_solver. Qed.

Lemma shortest_route_linked t src tgt route :
  shortest_route (edge (neighbors t)) src tgt route → shortest_route (linked t) src tgt route.
Proof.
  intros (l & -> & Hl & Hnd & Hmin). exists l. split_and!; [done| |done|].
  - clear Hnd Hmin. revert src Hl. induction l as [|z l IH]; intros src; simpl; [done|].
    rewrite edge_neighbors. intros [? ?]. auto.
  - intros n Hn. apply Hmin. clear -Hn. induction Hn; [constructor|].
    econstructor; [by apply edge_neighbors|done].
Qed.
