(* ===== verification/Tasks.v ===== *)
(** The durable work graph: src/sylvander-runtime/src/coordination/task.rs.

    [validate_acyclic_edges] is Kahn's algorithm as the source runs it, with
    its in-degree table and queue; [acyclic_edges] is what it decides. *)

From S2P Require Import Prelude Graph Instance.
From S2P Require Membership.
From stdpp Require Import base tactics gmap strings list relations.
From Stdlib Require Import ZArith Lia.

Notation SessionMembership := Membership.SessionMembership (only parsing).

(** * Task states *)

Module TaskState.

Inductive CoordinationTaskState :=
  | Proposed
  | Ready
  | Running
  | Blocked
  | AwaitingReview
  | Completed
  | Failed
  | Cancelled.

#[global] Instance CoordinationTaskState_eq_dec : EqDecision CoordinationTaskState.
Proof. solve_decision. Defined.

Definition is_terminal (s : CoordinationTaskState) : bool :=
  match s with Completed | Failed | Cancelled => true | _ => false end.

Definition can_transition_to (s next : CoordinationTaskState) : bool :=
  if is_terminal s || (s == next) then false
  else match s, next with
  | Proposed, (Ready | Cancelled) => true
  | Ready, (Running | Cancelled) => true
  | Running, (Blocked | AwaitingReview | Completed | Failed | Cancelled) => true
  | Blocked, (Ready | Failed | Cancelled) => true
  | AwaitingReview, (Running | Completed | Failed | Cancelled) => true
  | _, _ => false
  end.

End TaskState.

Notation CoordinationTaskState := TaskState.CoordinationTaskState.

Record CoordinationTask := {
  task_id : TaskId;
  session_id : SessionId;
  membership_revision : Z;
  parent_task_id : option TaskId;
  created_by : AgentInstanceId;
  assigned_to : option AgentInstanceId;
  objective : string;
  state : CoordinationTaskState;
  token_budget : Z;
  consumed_tokens : Z;
  max_handoffs : Z;
  handoff_count : Z;
  revision : Z;
  created_at : Z;
  updated_at : Z;
}.

#[global] Instance CoordinationTask_eq_dec : EqDecision CoordinationTask.
Proof. solve_decision. Defined.

(** Ownership of one running task, fenced by epoch and token. *)
Record TaskExecutionLease := {
  l_task_id : TaskId;
  l_session_id : SessionId;
  l_assignee : AgentInstanceId;
  l_claim_owner_id : string;
  l_task_revision : Z;
  l_lease_epoch : Z;
  l_fencing_token : string;
  l_expires_at : Z;
}.

#[global] Instance TaskExecutionLease_eq_dec : EqDecision TaskExecutionLease.
Proof. solve_decision. Defined.

Definition MAX_TASK_LEASE_SECONDS : Z := 300.

Record TaskDependency := { prerequisite : TaskId; dependent : TaskId }.

#[global] Instance TaskDependency_eq_dec : EqDecision TaskDependency.
Proof. solve_decision. Defined.

Record SessionTaskGraph := {
  g_session_id : SessionId;
  g_membership_revision : Z;
  tasks : list CoordinationTask;
  dependencies : list TaskDependency;
}.

#[global] Instance SessionTaskGraph_eq_dec : EqDecision SessionTaskGraph.
Proof. solve_decision. Defined.

Inductive TaskGraphError :=
  | MembershipMismatch
  | TaskSessionMismatch (t : TaskId)
  | InvalidTask (t : TaskId)
  | BudgetExceeded (t : TaskId)
  | UnknownActor (t : TaskId)
  | DuplicateTask (t : TaskId)
  | UnknownTask (t : TaskId)
  | ParentCycle
  | DuplicateDependency
  | DependencyCycle.

(** * Kahn's algorithm *)

(** One edge of the counting loop. *)
Definition count_edge (ids : gset TaskId) (cycle_error : TaskGraphError)
    (acc : gmap TaskId nat * adjacency) (e : TaskId * TaskId) :
    res (gmap TaskId nat * adjacency) TaskGraphError :=
  bail e.1 == e.2 with cycle_error;;
  target_degree <- ok_or (acc.1 !! e.2) (UnknownTask e.2);;
  bail bool_decide (e.1 ∉ ids) with UnknownTask e.1;;
  Ok (<[e.2 := S target_degree]> acc.1, push_edge acc.2 e.1 e.2).

Fixpoint count_edges (ids : gset TaskId) (cycle_error : TaskGraphError)
    (acc : gmap TaskId nat * adjacency) (es : list (TaskId * TaskId)) :
    res (gmap TaskId nat * adjacency) TaskGraphError :=
  match es with
  | [] => Ok acc
  | e :: es => acc <- count_edge ids cycle_error acc e;; count_edges ids cycle_error acc es
  end.

(** Queue and in-degrees. *)
Notation kahn := (list TaskId * gmap TaskId nat)%type.

(** One successor: [*degree -= 1] panics on an underflow, [expect] on a
    missing entry. *)
Definition visit_successor (st : kahn) (s : TaskId) : option kahn :=
  match st.2 !! s with
  | None | Some O => None
  | Some (S degree) =>
      let indegree := <[s := degree]> st.2 in
      Some (if (degree =? 0)%nat then st.1 ++ [s] else st.1, indegree)
  end.

Fixpoint visit_successors (st : kahn) (ns : list TaskId) : option kahn :=
  match ns with
  | [] => Some st
  | n :: ns => match visit_successor st n with Some st => visit_successors st ns | None => None end
  end.

Section kahn.
Context (successors : adjacency).

Definition kahn_step (st : kahn * nat) : (kahn * nat) + res nat TaskGraphError :=
  match st.1.1 with
  | [] => inr (Ok st.2)
  | x :: queue =>
      match visit_successors (queue, st.1.2) (succs successors x) with
      | None => inr Panic
      | Some next => inl (next, S st.2)
      end
  end.

Definition positive (indegree : gmap TaskId nat) : nat :=
  size (filter (λ kv, kv.2 ≠ 0) indegree).

Definition kahn_measure (st : kahn * nat) : nat := length st.1.1 + positive st.1.2.

Lemma positive_insert indegree s k :
  indegree !! s = Some (S k) →
  positive (<[s := k]> indegree) + (if (k =? 0)%nat then 1 else 0) = positive indegree.
Proof.
  intros Hs. unfold positive. destruct (Nat.eqb_spec k 0) as [->|Hk].
  - rewrite map_filter_insert_False by (simpl; lia). rewrite map_filter_delete.
    rewrite map_size_delete_Some; [|eexists; apply map_lookup_filter_Some; split; [done|simpl; lia]].
    assert (size (filter (λ kv : TaskId * nat, kv.2 ≠ 0) indegree) ≠ 0); [|lia].
    rewrite map_size_ne_0_lookup. exists s, 1. by apply map_lookup_filter_Some.
  - rewrite map_filter_insert_True by done. rewrite map_size_insert_Some; [lia|].
    exists (S k). by apply map_lookup_filter_Some.
Qed.

Lemma visit_successors_measure st ns st' :
  visit_successors st ns = Some st' →
  length st'.1 + positive st'.2 = length st.1 + positive st.2.
Proof.
  revert st. induction ns as [|n ns IH]; intros st; simpl; [by intros [= ->]|].
  unfold visit_successor. destruct (st.2 !! n) as [[|k]|] eqn:Hn; [done| |done].
  intros ->%IH. simpl. pose proof (positive_insert st.2 n k Hn) as Hp.
  destruct (Nat.eqb_spec k 0); rewrite ?length_app; simpl; lia.
Qed.

Lemma kahn_decreases st st' : kahn_step st = inl st' → kahn_measure st' < kahn_measure st.
Proof.
  destruct st as [[[|x queue] indegree] visited]; unfold kahn_step; simpl; [done|].
  destruct (visit_successors _ _) as [next|] eqn:Hv; [|done]. intros [= <-].
  apply visit_successors_measure in Hv. unfold kahn_measure. simpl in *. lia.
Qed.

Definition kahn_run (st : kahn * nat) : res nat TaskGraphError :=
  loop kahn_step kahn_measure kahn_decreases st.
End kahn.

Section validate.
Context `{!HashOrder}.

(** The keys of [tasks] are [ids]; the initial queue is in the order of the
  [n]-th iteration of the in-degree table. *)
Definition validate_acyclic_edges (n : nat) (ids : gset TaskId) (es : list (TaskId * TaskId))
  (cycle_error : TaskGraphError) : res unit TaskGraphError :=
tables <- count_edges ids cycle_error (gset_to_gmap 0 ids, ∅) es;;
let queue := filter (λ i, tables.1 !! i = Some 0) (hash_iter n (dom tables.1)) in
visited <- kahn_run tables.2 ((queue, tables.1), 0);;
if (visited =? size ids)%nat then Ok tt else Err cycle_error.

(** One iteration of the loop over the tasks; [acc] are the ids seen. *)
Definition check_task (g : SessionTaskGraph) (members : gset AgentInstanceId)
  (acc : gset TaskId) (t : CoordinationTask) : res (gset TaskId) TaskGraphError :=
bail (session_id t != g_session_id g)
     || negb (membership_revision t =? g_membership_revision g)%Z
  with TaskSessionMismatch (task_id t);;
bail trim_is_empty (objective t) || (token_budget t =? 0)%Z with InvalidTask (task_id t);;
bail (token_budget t <? consumed_tokens t)%Z || (max_handoffs t <? handoff_count t)%Z
  with BudgetExceeded (task_id t);;
bail bool_decide (created_by t ∉ members)
     || match assigned_to t with Some a => bool_decide (a ∉ members) | None => false end
  with UnknownActor (task_id t);;
bail bool_decide (task_id t ∈ acc) with DuplicateTask (task_id t);;
Ok ({[task_id t]} ∪ acc).

Fixpoint check_tasks (g : SessionTaskGraph) (members : gset AgentInstanceId)
  (acc : gset TaskId) (ts : list CoordinationTask) : res (gset TaskId) TaskGraphError :=
match ts with
| [] => Ok acc
| t :: ts => acc <- check_task g members acc t;; check_tasks g members acc ts
end.

Definition parent_edges (ts : list CoordinationTask) : list (TaskId * TaskId) :=
omap (λ t, (λ p, (p, task_id t)) <$> parent_task_id t) ts.

(** The [map] and [collect] over the dependencies. *)
Fixpoint dependency_edges (seen : list TaskDependency) (ds : list TaskDependency) :
  res (list (TaskId * TaskId)) TaskGraphError :=
match ds with
| [] => Ok []
| d :: ds =>
    bail bool_decide (d ∈ seen) with DuplicateDependency;;
    es <- dependency_edges (d :: seen) ds;;
    Ok ((prerequisite d, dependent d) :: es)
end.

(** [SessionTaskGraph::validate] *)
Definition validate (g : SessionTaskGraph) (m : SessionMembership) : res unit TaskGraphError :=
bail (g_session_id g != Membership.m_session_id m)
     || negb (g_membership_revision g
              =? Membership.membership_revision (Membership.governance m))%Z
  with MembershipMismatch;;
ids <- check_tasks g (Membership.members m) ∅ (tasks g);;
_ <- validate_acyclic_edges 0 ids (parent_edges (tasks g)) ParentCycle;;
es <- dependency_edges [] (dependencies g);;
validate_acyclic_edges 1 ids es DependencyCycle.
End validate.

(** * Kahn's algorithm decides acyclicity *)

(** The edges as a relation. *)
Definition before (es : list (TaskId * TaskId)) (u v : TaskId) : Prop := (u, v) ∈ es.

(** Endpoints are known and no node is before itself. *)
Definition acyclic_edges (ids : gset TaskId) (es : list (TaskId * TaskId)) : Prop :=
  (∀ u v, before es u v → u ∈ ids ∧ v ∈ ids) ∧ ∀ v, ¬ tc (before es) v v.

(** Edges into [v] from nodes outside [D], and occurrences of [v]. *)
Definition deg (es : list (TaskId * TaskId)) (D : gset TaskId) (v : TaskId) : nat :=
  length (filter (λ e, e.1 ∉ D ∧ e.2 = v) es).
Definition occ (v : TaskId) (ns : list TaskId) : nat := length (filter (λ n, n = v) ns).

Lemma occ_cons v n ns : occ v (n :: ns) = (if decide (n = v) then 1 else 0) + occ v ns.
Proof. unfold occ. rewrite filter_cons. by case_decide. Qed.

(** Removing [x] removes its edges. *)
Lemma deg_remove es D x v :
  x ∉ D → deg es D v = deg es ({[x]} ∪ D) v + occ v (filter (λ e, e.1 = x) es).*2.
Proof.
  intros Hx. unfold deg. induction es as [|[u w] es IH]; [done|].
  rewrite !filter_cons. simpl. destruct (decide (u = x)) as [->|Hux].
  - rewrite fmap_cons, occ_cons. simpl.
    rewrite (decide_False (P := x ∉ {[x]} ∪ D ∧ w = v)) by set_solver.
    destruct (decide (w = v)); [rewrite decide_True by done|rewrite decide_False by naive_solver];
      simpl; lia.
  - destruct (decide (u ∉ D ∧ w = v)).
    + rewrite decide_True by set_solver. simpl. lia.
    + rewrite decide_False by set_solver. lia.
Qed.

Lemma deg_zero es D v : deg es D v = 0 ↔ ∀ u, before es u v → u ∈ D.
Proof.
  unfold deg, before. rewrite length_zero_iff_nil. split.
  - intros Hnil u Hu. apply dec_stable. intros HD.
    assert ((u, v) ∈ filter (λ e, e.1 ∉ D ∧ e.2 = v) es) as Hin by by apply list_elem_of_filter.
    rewrite Hnil in Hin. by apply not_elem_of_nil in Hin.
  - intros Hall. apply elem_of_nil_inv. intros [u w] [[Hu Hw] Hin]%list_elem_of_filter.
    simpl in *. subst. auto.
Qed.

Section kahn_correct.
Context (ids : gset TaskId) (es : list (TaskId * TaskId)).
Context (Hends : ∀ u v, before es u v → u ∈ ids ∧ v ∈ ids).
Let successors := push_edges ∅ es.

(** [D] are the finished nodes, [st] the queue and the in-degrees, and [ns]
    the successors of the current node still to be decremented. *)
Record kinv (D : gset TaskId) (st : kahn) (ns : list TaskId) : Prop := {
  k_done : D ⊆ ids;
  k_queue : ∀ v, v ∈ st.1 → v ∈ ids ∧ v ∉ D;
  k_nodup : NoDup st.1;
  k_degree : ∀ v, v ∈ ids → st.2 !! v = Some (deg es D v + occ v ns);
  k_ready : ∀ v, v ∈ ids → v ∈ st.1 ∨ v ∈ D ↔ deg es D v + occ v ns = 0;
}.

Lemma visit_successor_kinv D st n ns :
  kinv D st (n :: ns) → n ∈ ids → ∃ st', visit_successor st n = Some st' ∧ kinv D st' ns.
Proof.
  intros [Hd Hq Hnd Hdeg Hready] Hn. unfold visit_successor.
  pose proof (Hdeg n Hn) as Hdn. rewrite occ_cons, decide_True in Hdn by done.
  rewrite Hdn. replace (deg es D n + (1 + occ n ns)) with (S (deg es D n + occ n ns)) by lia.
  assert (n ∉ st.1 ∧ n ∉ D) as [Hnq HnD].
  { destruct (Hready n Hn) as [Hz _]. rewrite occ_cons, decide_True in Hz by done.
    split; intros ?; assert (n ∈ st.1 ∨ n ∈ D) as H0 by auto; apply Hz in H0; lia. }
  assert (∀ v, v ≠ n → occ v (n :: ns) = occ v ns) as Hother.
  { intros v Hv. by rewrite occ_cons, decide_False. }
  eexists. split; [done|]. destruct (Nat.eqb_spec (deg es D n + occ n ns) 0) as [Hz|Hnz];
    split; simpl; try done.
  - intros v [Hv| ->%list_elem_of_singleton]%elem_of_app; [by apply Hq|done].
  - apply NoDup_app. split_and!; [done| |apply NoDup_singleton].
    intros v Hv ->%list_elem_of_singleton. done.
  - intros v Hv. destruct (decide (v = n)) as [->|Hne]; [by rewrite lookup_insert_eq|].
    rewrite lookup_insert_ne by done. rewrite Hdeg by done. by rewrite Hother.
  - intros v Hv. rewrite elem_of_app, list_elem_of_singleton.
    destruct (decide (v = n)) as [->|Hne]; [naive_solver|].
    specialize (Hready v Hv). rewrite Hother in Hready by done. naive_solver.
  - intros v Hv. destruct (decide (v = n)) as [->|Hne]; [by rewrite lookup_insert_eq|].
    rewrite lookup_insert_ne by done. rewrite Hdeg by done. by rewrite Hother.
  - intros v Hv. destruct (decide (v = n)) as [->|Hne]; [naive_solver|].
    specialize (Hready v Hv). by rewrite Hother in Hready.
Qed.

Lemma visit_successors_kinv D st ns :
  kinv D st ns → (∀ n, n ∈ ns → n ∈ ids) →
  ∃ st', visit_successors st ns = Some st' ∧ kinv D st' [].
Proof.
  revert st. induction ns as [|n ns IH]; intros st Hk Hns; simpl; [by exists st|].
  destruct (visit_successor_kinv D st n ns Hk) as (st' & -> & Hk'); [apply Hns; by left|].
  apply IH; [done|]. intros. apply Hns. by right.
Qed.

Lemma succs_successors x : succs successors x = (filter (λ e, e.1 = x) es).*2.
Proof. unfold successors. by rewrite succs_push_edges. Qed.

(** Popping [x] and decrementing its successors keeps the invariant. *)
Lemma kinv_pop D x queue indegree :
  kinv D (x :: queue, indegree) [] →
  x ∈ ids ∧ x ∉ D ∧ deg es D x = 0 ∧
  ∃ st', visit_successors (queue, indegree) (succs successors x) = Some st' ∧
    kinv ({[x]} ∪ D) st' [].
Proof.
  intros [Hd Hq Hnd Hdeg Hready]. simpl in *.
  destruct (Hq x) as [Hx HxD]; [by left|]. apply NoDup_cons in Hnd as [Hxq Hnd].
  assert (∀ v, occ v [] = 0) as Hocc by done.
  assert (deg es D x = 0) as Hdx.
  { destruct (Hready x Hx) as [H _]. rewrite Hocc in H.
    assert (x ∈ x :: queue ∨ x ∈ D) as H0%H by (left; by left). lia. }
  split_and!; [done|done|done|]. apply visit_successors_kinv.
  - split; simpl; [set_solver| |done|..].
    + intros v Hv. destruct (Hq v) as [? ?]; [by right|]. split; [done|].
      rewrite elem_of_union, elem_of_singleton. intros [->|?]; done.
    + intros v Hv. rewrite Hdeg, Hocc, Nat.add_0_r by done.
      by rewrite succs_successors, <- deg_remove.
    + intros v Hv. rewrite succs_successors, <- deg_remove by done.
      specialize (Hready v Hv). rewrite Hocc, Nat.add_0_r, elem_of_cons in Hready. set_solver.
  - intros n Hn. rewrite succs_successors in Hn. apply list_elem_of_fmap in Hn as ([u w] & -> & Hn).
    apply list_elem_of_filter in Hn as [_ Hn]. by apply (Hends u w).
Qed.

(** The run counts the nodes that lie above no cycle. *)
Lemma kahn_run_correct queue indegree :
  kinv ∅ (queue, indegree) [] →
  ∃ D, kahn_run successors ((queue, indegree), 0) = Ok (size D) ∧ D ⊆ ids ∧
    ∀ v, v ∈ ids → v ∈ D ↔ Acc (before es) v.
Proof.
  intros Hk. unfold kahn_run.
  apply (loop_invariant _ _ _
    (λ st, ∃ D, kinv D st.1 [] ∧ st.2 = size D ∧ ∀ v, v ∈ D → Acc (before es) v)
    (λ r, ∃ D, r = Ok (size D) ∧ D ⊆ ids ∧ ∀ v, v ∈ ids → v ∈ D ↔ Acc (before es) v)).
  - exists ∅. split; [done|]. split; [by rewrite size_empty|set_solver].
  - intros [[[|x q] ind] n] st' (D & HD & Hn & Hacc); unfold kahn_step; simpl in *; [done|].
    destruct (kinv_pop D x q ind HD) as (Hx & HxD & Hdx & next & -> & Hnext).
    intros [= <-]. exists ({[x]} ∪ D). simpl. split_and!; [done| |].
    + rewrite size_union by set_solver. rewrite size_singleton. lia.
    + intros v [->%elem_of_singleton|Hv]%elem_of_union; [|by apply Hacc].
      constructor. intros u Hu. by apply Hacc, (deg_zero es D x).
  - intros [[[|x q] ind] n] r (D & HD & Hn & Hacc); unfold kahn_step; simpl in *.
    + intros [= <-]. exists D. destruct HD as [Hd _ _ _ Hready]. simpl in *.
      split_and!; [by rewrite Hn|done|]. intros v Hv. split; [by apply Hacc|]. clear Hn.
      intros Hv'. induction Hv' as [v _ IH]. apply dec_stable. intros HvD.
      apply HvD. destruct (Hready v Hv) as [_ H].
      assert (v ∈ [] ∨ v ∈ D) as [?%not_elem_of_nil|?]; [|done|done]. apply H.
      unfold occ. rewrite Nat.add_0_r. apply deg_zero. intros u Hu.
      apply IH; [done|]. by apply (Hends u v).
    + destruct (kinv_pop D x q ind HD) as (_ & _ & _ & next & -> & _). done.
Qed.
End kahn_correct.

(** * The tables *)

Definition bump (m : gmap TaskId nat) (es : list (TaskId * TaskId)) : gmap TaskId nat :=
  foldl (λ m e, <[e.2 := S (default 0 (m !! e.2))]> m) m es.

Lemma count_edge_ok ids err acc e acc' :
  dom acc.1 = ids →
  count_edge ids err acc e = Ok acc' ↔
    (e.1 ≠ e.2 ∧ e.1 ∈ ids ∧ e.2 ∈ ids) ∧ acc' = (bump acc.1 [e], push_edges acc.2 [e]).
Proof.
  intros Hdom. unfold count_edge. rewrite bail_ok, bool_decide_eq_false, res_bind_ok.
  setoid_rewrite ok_or_ok. setoid_rewrite bail_ok. setoid_rewrite bool_decide_eq_false.
  unfold bump, push_edges. simpl. rewrite <- Hdom. split.
  - intros (Hne & k & Hk & Hs & [= <-]). rewrite Hk. simpl.
    split; [|done]. split_and!; [done|by apply dec_stable|by apply elem_of_dom_2 in Hk].
  - intros ((Hne & Hs & [k Hk]%elem_of_dom) & ->). split; [done|]. exists k.
    rewrite Hk. simpl. auto.
Qed.

Lemma dom_bump m es : (∀ u v, (u, v) ∈ es → v ∈ dom m) → dom (bump m es) = dom m.
Proof.
  unfold bump. revert m. induction es as [|[u v] es IH]; intros m Hes; simpl; [done|].
  assert (dom (<[v:=S (default 0 (m !! v))]> m) = dom m) as Hdom.
  { rewrite dom_insert_L. assert (v ∈ dom m) by (apply (Hes u); by left). set_solver. }
  rewrite IH, Hdom; [done|]. intros u' v' Hin. rewrite Hdom. apply (Hes u'). by right.
Qed.

Lemma lookup_bump m es v k : m !! v = Some k → bump m es !! v = Some (k + deg es ∅ v).
Proof.
  unfold bump, deg. revert m k. induction es as [|[u w] es IH]; intros m k Hv; simpl.
  - by rewrite Nat.add_0_r.
  - rewrite filter_cons. simpl. destruct (decide (w = v)) as [->|Hne].
    + rewrite Hv. simpl. rewrite (IH _ (S k)) by by rewrite lookup_insert_eq.
      rewrite decide_True by set_solver. simpl. f_equal. lia.
    + rewrite (IH _ k) by by rewrite lookup_insert_ne.
      by rewrite decide_False by naive_solver.
Qed.

Lemma count_edges_ok ids err acc es acc' :
  dom acc.1 = ids →
  count_edges ids err acc es = Ok acc' ↔
    (∀ u v, (u, v) ∈ es → u ≠ v ∧ u ∈ ids ∧ v ∈ ids) ∧
    acc' = (bump acc.1 es, push_edges acc.2 es).
Proof.
  intros Hdom. revert acc Hdom. induction es as [|[u v] es IH]; intros acc Hdom.
  - simpl. split.
    + intros [= <-]. split; [intros ? ? H; by apply not_elem_of_nil in H|by destruct acc].
    + intros [_ ->]. by destruct acc.
  - cbn [count_edges]. rewrite res_bind_ok. setoid_rewrite count_edge_ok; [|done].
    setoid_rewrite elem_of_cons. split.
    + intros (? & (Hends & ->) & Hrest). simpl in Hends.
      apply IH in Hrest as [Hes ->].
      * split; [|done]. intros u' v' [[= -> ->]|Hin]; [done|by apply Hes].
      * cbn [fst]. rewrite <- Hdom. apply dom_bump.
        intros ? ? [= -> ->]%list_elem_of_singleton. rewrite Hdom. naive_solver.
    + intros [Hes ->]. exists (bump acc.1 [(u, v)], push_edges acc.2 [(u, v)]).
      assert (u ≠ v ∧ u ∈ ids ∧ v ∈ ids) as (? & ? & Hv) by (apply Hes; by left).
      split; [done|]. apply IH.
      * cbn [fst]. rewrite <- Hdom. apply dom_bump.
        intros ? ? [= -> ->]%list_elem_of_singleton. by rewrite Hdom.
      * split; [|done]. intros. apply Hes. by right.
Qed.

Lemma count_edges_returns ids err acc es : returns (count_edges ids err acc es).
Proof.
  revert acc. induction es as [|e es IH]; intros acc; simpl; [done|].
  apply returns_bind; [|by intros; apply IH]. unfold count_edge.
  apply returns_bail; intros _. apply returns_bind; [auto with res_db|]. intros k _.
  by apply returns_bail.
Qed.

Lemma lookup_zeros (ids : gset TaskId) v : v ∈ ids → gset_to_gmap 0 ids !! v = Some 0.
Proof. intros. by apply lookup_gset_to_gmap_Some. Qed.

Section decide.
Context `{!HashOrder}.

(** The initial queue establishes the invariant, in any order. *)
Lemma initial_kinv n ids es :
  (∀ u v, (u, v) ∈ es → u ≠ v ∧ u ∈ ids ∧ v ∈ ids) →
  let indegree := bump (gset_to_gmap 0 ids) es in
  kinv ids es ∅ (filter (λ i, indegree !! i = Some 0) (hash_iter n (dom indegree)), indegree) [].
Proof.
  intros Hes indegree. assert (dom indegree = ids) as Hdom.
  { unfold indegree. rewrite dom_bump; [apply dom_gset_to_gmap|].
    intros u v Hin. rewrite dom_gset_to_gmap. naive_solver. }
  assert (∀ v, v ∈ ids → indegree !! v = Some (deg es ∅ v)) as Hlook.
  { intros v Hv. unfold indegree. by rewrite (lookup_bump _ _ _ 0) by by apply lookup_zeros. }
  split; simpl.
  - set_solver.
  - intros v [_ Hv]%list_elem_of_filter. rewrite elem_of_hash_iter, Hdom in Hv. set_solver.
  - apply NoDup_filter, NoDup_hash_iter.
  - intros v Hv. unfold occ. simpl. by rewrite Nat.add_0_r, Hlook.
  - intros v Hv. unfold occ. simpl. rewrite Nat.add_0_r, list_elem_of_filter.
    rewrite elem_of_hash_iter, Hdom, Hlook by done. set_solver.
Qed.

Lemma validate_acyclic_edges_cases n ids es err :
  (∀ u v, (u, v) ∈ es → u ≠ v ∧ u ∈ ids ∧ v ∈ ids) →
  (validate_acyclic_edges n ids es err = Ok tt ∧ ∀ v, ¬ tc (before es) v v) ∨
  (validate_acyclic_edges n ids es err = Err err ∧ ∃ v, v ∈ ids ∧ ¬ Acc (before es) v).
Proof.
  intros Hes. unfold validate_acyclic_edges.
  set (indegree := bump (gset_to_gmap 0 ids) es).
  assert (count_edges ids err (gset_to_gmap 0 ids, ∅) es = Ok (indegree, push_edges ∅ es)) as ->
    by (by apply count_edges_ok; [apply dom_gset_to_gmap|]).
  simpl. destruct (kahn_run_correct ids es) with
    (queue := filter (λ i, indegree !! i = Some 0) (hash_iter n (dom indegree)))
    (indegree := indegree) as (D & -> & HD & Hacc).
  - intros u v Huv. naive_solver.
  - by apply initial_kinv.
  - simpl. destruct (Nat.eqb_spec (size D) (size ids)) as [Heq|Hne].
    + left. split; [done|]. intros v Hv.
      assert (D = ids) as -> by (apply set_subseteq_size_eq; [done|lia]).
      assert (v ∈ ids) as Hin.
      { destruct (tc_last _ _ _ Hv) as [Hu|(u & _ & Hu)];
          by destruct (Hes _ _ Hu) as (_ & _ & ?). }
      apply (acc_no_cycle _ _ (proj1 (Hacc v Hin) Hin) Hv).
    + right. split; [done|]. destruct (decide (ids ⊆ D)) as [Hsub|Hsub].
      * destruct Hne. f_equal. by apply (anti_symm (⊆)).
      * assert (ids ∖ D ≠ ∅) as [v Hv]%set_choose_L 
          by (intros Heq; apply Hsub; intros v Hv; apply dec_stable; set_solver).
        exists v. apply elem_of_difference in Hv as [Hv HvD]. split; [done|].
        by rewrite <- Hacc.
Qed.

(** Accepting a list of edges is accepting an acyclic graph over known ids. *)
Lemma validate_acyclic_edges_iff n ids es err :
  validate_acyclic_edges n ids es err = Ok tt ↔ acyclic_edges ids es.
Proof.
  split.
  - intros Hok. assert (∀ u v, (u, v) ∈ es → u ≠ v ∧ u ∈ ids ∧ v ∈ ids) as Hes.
    { unfold validate_acyclic_edges in Hok. apply res_bind_ok in Hok as (tables & Ht & _).
      apply count_edges_ok in Ht as [? _]; [done|apply dom_gset_to_gmap]. }
    destruct (validate_acyclic_edges_cases n ids es err Hes) as [[_ ?]|[? _]]; [|congruence].
    split; [|done]. intros u v Huv. naive_solver.
  - intros [Hends Hac]. assert (∀ u v, (u, v) ∈ es → u ≠ v ∧ u ∈ ids ∧ v ∈ ids) as Hes.
    { intros u v Huv. destruct (Hends u v Huv). split_and!; [|done|done].
      intros ->. by apply (Hac v), tc_once. }
    destruct (validate_acyclic_edges_cases n ids es err Hes) as [[? _]|[_ (v & _ & Hv)]]; [done|].
    destruct Hv. apply (acyclic_acc _ ids); [|done]. intros u w Huw. by apply (Hends u w).
Qed.

Lemma validate_acyclic_edges_returns n ids es err :
  returns (validate_acyclic_edges n ids es err).
Proof.
  destruct (count_edges ids err (gset_to_gmap 0 ids, ∅) es) as [tables| | |] eqn:Ht.
  - apply count_edges_ok in Ht as [Hes _]; [|apply dom_gset_to_gmap].
    by destruct (validate_acyclic_edges_cases n ids es err Hes) as [[-> _]|[-> _]].
  - unfold validate_acyclic_edges. by rewrite Ht.
  - pose proof (count_edges_returns ids err (gset_to_gmap 0 ids, ∅) es) as Hr. by rewrite Ht in Hr.
  - pose proof (count_edges_returns ids err (gset_to_gmap 0 ids, ∅) es) as Hr. by rewrite Ht in Hr.
Qed.
End decide.

(** * The task graph *)

Record task_ok (g : SessionTaskGraph) (members : gset AgentInstanceId) (t : CoordinationTask) :
    Prop := {
  t_session : session_id t = g_session_id g;
  t_revision : membership_revision t = g_membership_revision g;
  t_objective : trim_is_empty (objective t) = false;
  t_budget : token_budget t ≠ 0%Z;
  t_consumed : (consumed_tokens t ≤ token_budget t)%Z;
  t_handoffs : (handoff_count t ≤ max_handoffs t)%Z;
  t_creator : created_by t ∈ members;
  t_assignee a : assigned_to t = Some a → a ∈ members;
}.

Definition task_ids (ts : list CoordinationTask) : gset TaskId := list_to_set (task_id <$> ts).

Definition dep_edges (ds : list TaskDependency) : list (TaskId * TaskId) :=
  (λ d, (prerequisite d, dependent d)) <$> ds.

(** Tasks of the Session within their budgets, with distinct ids, an acyclic
    parent hierarchy and an acyclic dependency graph over them. *)
Record graph_ok (g : SessionTaskGraph) (m : SessionMembership) : Prop := {
  go_session : g_session_id g = Membership.m_session_id m;
  go_revision :
    g_membership_revision g = Membership.membership_revision (Membership.governance m);
  go_tasks : Forall (task_ok g (Membership.members m)) (tasks g);
  go_ids : NoDup (task_id <$> tasks g);
  go_parents : acyclic_edges (task_ids (tasks g)) (parent_edges (tasks g));
  go_distinct : NoDup (dependencies g);
  go_dependencies : acyclic_edges (task_ids (tasks g)) (dep_edges (dependencies g));
}.

Lemma check_task_ok g members acc t acc' :
  check_task g members acc t = Ok acc' ↔
    task_ok g members t ∧ task_id t ∉ acc ∧ acc' = {[task_id t]} ∪ acc.
Proof.
  unfold check_task. rewrite !bail_ok, !orb_false_iff, negb_bool_decide_false, !negb_false_iff,
    !bool_decide_eq_false, Z.eqb_eq, Z.eqb_neq, !Z.ltb_ge. split.
  - intros ((? & ?) & (? & ?) & (? & ?) & (Hc & Ha) & ? & [= <-]). split; [|done].
    split; try done; [by apply dec_stable|]. intros a Hassign. rewrite Hassign in Ha.
    rewrite bool_decide_eq_false in Ha. by apply dec_stable.
  - intros ([] & ? & ->). split_and!; try done; [naive_solver|].
    destruct (assigned_to t); [|done]. rewrite bool_decide_eq_false. naive_solver.
Qed.

Lemma check_tasks_ok g members acc ts acc' :
  check_tasks g members acc ts = Ok acc' ↔
    Forall (task_ok g members) ts ∧ NoDup (task_id <$> ts) ∧
    (∀ i, i ∈ task_id <$> ts → i ∉ acc) ∧ acc' = task_ids ts ∪ acc.
Proof.
  unfold task_ids. revert acc. induction ts as [|t ts IH]; intros acc.
  - simpl. split.
    + intros [= <-]. split_and!; [constructor|constructor|by intros ? ?%not_elem_of_nil|set_solver].
    + intros (_ & _ & _ & ->). f_equal. set_solver.
  - cbn [check_tasks]. rewrite res_bind_ok. setoid_rewrite check_task_ok.
    rewrite Forall_cons, fmap_cons, NoDup_cons. setoid_rewrite elem_of_cons. split.
    + intros (? & (? & ? & ->) & (? & ? & Hdisj & ->)%IH).
      assert (task_id t ∉ task_id <$> ts) by set_solver.
      split_and!; [done|done|done|done|intros i [->|Hi]; [done|set_solver]|set_solver].
    + intros ([? ?] & [? ?] & Hdisj & ->). eexists.
      split; [split_and!; [done|apply Hdisj; by left|done]|]. apply IH.
      split_and!; [done|done| |set_solver]. intros i Hi.
      specialize (Hdisj i (or_intror Hi)). set_solver.
Qed.

Lemma dependency_edges_ok seen ds es :
  dependency_edges seen ds = Ok es ↔
    NoDup ds ∧ (∀ d, d ∈ ds → d ∉ seen) ∧ es = dep_edges ds.
Proof.
  revert seen es. induction ds as [|d ds IH]; intros seen es; simpl.
  - split; [intros [= <-]|by intros (_ & _ & ->)].
    split_and!; [constructor|by intros ? ?%not_elem_of_nil|done].
  - rewrite bail_ok, bool_decide_eq_false, res_bind_ok. setoid_rewrite IH. rewrite NoDup_cons.
    setoid_rewrite elem_of_cons. split.
    + intros (Hd & ? & (? & Hseen & ->) & [= <-]). split_and!; [|done| |done].
      * intros Hin. apply (Hseen d Hin). by left.
      * intros d' [->|Hin]; [done|]. intros ?. apply (Hseen d' Hin). by right.
    + intros ([? ?] & Hseen & ->). split; [apply Hseen; by left|].
      eexists. split; [|done]. split_and!; [done| |done].
      intros d' Hin [->|?]; [done|]. apply (Hseen d'); [by right|done].
Qed.

Lemma dependency_edges_returns seen ds : returns (dependency_edges seen ds).
Proof.
  revert seen. induction ds as [|d ds IH]; intros seen; simpl; [done|].
  apply returns_bail; intros _. by apply returns_bind.
Qed.

Lemma validate_graph_iff `{!HashOrder} g m : validate g m = Ok tt ↔ graph_ok g m.
Proof.
  unfold validate. rewrite bail_ok, orb_false_iff, negb_bool_decide_false, negb_false_iff, Z.eqb_eq.
  split.
  - intros ([? ?] & Hv). apply res_bind_ok in Hv as (ids & Hids & Hv).
    apply check_tasks_ok in Hids as (? & ? & _ & ->). rewrite (right_id_L ∅ (∪)) in Hv.
    apply res_bind_ok in Hv as ([] & Hp & Hv). apply res_bind_ok in Hv as (es & Hes & Hd).
    apply dependency_edges_ok in Hes as (? & _ & ->).
    apply validate_acyclic_edges_iff in Hp, Hd. by split.
  - intros []. split; [done|]. apply res_bind_ok. exists (task_ids (tasks g)).
    split; [apply check_tasks_ok; split_and!; try done; set_solver|].
    apply res_bind_ok. exists tt. split; [by apply validate_acyclic_edges_iff|].
    apply res_bind_ok. exists (dep_edges (dependencies g)).
    split; [apply dependency_edges_ok; split_and!; [done|set_solver|done]|].
    by apply validate_acyclic_edges_iff.
Qed.

Lemma check_tasks_returns g members acc ts : returns (check_tasks g members acc ts).
Proof.
  revert acc. induction ts as [|t ts IH]; intros acc; simpl; [done|].
  apply returns_bind; [|by intros; apply IH]. unfold check_task.
  by repeat (apply returns_bail; intros _).
Qed.

Lemma validate_graph_returns `{!HashOrder} g m : returns (validate g m).
Proof.
  unfold validate. apply returns_bail; intros _.
  apply returns_bind; [apply check_tasks_returns|]. intros ids _.
  apply returns_bind; [apply validate_acyclic_edges_returns|]. intros _ _.
  apply returns_bind; [apply dependency_edges_returns|]. intros es _.
  apply validate_acyclic_edges_returns.
Qed.
