(* ===== verification/Mailbox.v ===== *)
(** Inter-Agent messages: src/sylvander-runtime/src/coordination/mailbox.rs.

    [validate_new] admits a message only on the governed shortest route;
    [message_ok] is its specification.  The delivery states form a lifecycle
    without cycles. *)

From S2P Require Import Prelude Graph Instance.
From S2P Require Membership Topology Route.
From stdpp Require Import base tactics gmap strings list relations.
From Stdlib Require Import ZArith Lia.

Notation CoordinationMessageId := string (only parsing).

Inductive CoordinationMessageKind := Task | Progress | Evidence | Question | Decision | Control.

#[global] Instance CoordinationMessageKind_eq_dec : EqDecision CoordinationMessageKind.
Proof. solve_decision. Defined.

Module Delivery.

Inductive MessageDeliveryState :=
  | Pending
  | Claimed
  | Delivered
  | Acknowledged
  | Expired
  | DeadLetter.

#[global] Instance MessageDeliveryState_eq_dec : EqDecision MessageDeliveryState.
Proof. solve_decision. Defined.

Definition can_transition_to (s next : MessageDeliveryState) : bool :=
  if (s == next) || match s with Acknowledged | Expired | DeadLetter => true | _ => false end
  then false
  else match s, next with
  | Pending, (Claimed | Expired | DeadLetter) => true
  | Claimed, (Delivered | Expired | DeadLetter) => true
  | Delivered, (Acknowledged | Expired | DeadLetter) => true
  | _, _ => false
  end.

End Delivery.

Notation MessageDeliveryState := Delivery.MessageDeliveryState.

Record CoordinationMessage := {
  message_id : CoordinationMessageId;
  session_id : SessionId;
  sender_instance_id : AgentInstanceId;
  recipient_instance_id : AgentInstanceId;
  task_id : option TaskId;
  kind : CoordinationMessageKind;
  payload : string;
  topology_revision : Z;
  route : list AgentInstanceId;
  max_hops : Z;
  state : MessageDeliveryState;
  delivery_attempts : Z;
  revision : Z;
  expires_at : Z;
  created_at : Z;
  updated_at : Z;
}.

#[global] Instance CoordinationMessage_eq_dec : EqDecision CoordinationMessage.
Proof. solve_decision. Defined.

(** A fenced right to deliver a message. *)
Record MessageClaim := {
  message : CoordinationMessage;
  lease_epoch : Z;
  lease_expires_at : Z;
}.

(** The bridge from a delivered envelope to one Agent turn. *)
Record AgentMessageTurn := {
  mt_message_id : CoordinationMessageId;
  mt_session_id : SessionId;
  mt_recipient_instance_id : AgentInstanceId;
  turn_id : string;
  mt_created_at : Z;
}.

#[global] Instance AgentMessageTurn_eq_dec : EqDecision AgentMessageTurn.
Proof. solve_decision. Defined.

Definition MAX_MESSAGE_LEASE_SECONDS : Z := 60.
Definition BACKGROUND_TASK_TTL_SECONDS : Z := 10 * 60.

Inductive MailboxError :=
  | NotNew
  | StaleFacts
  | EmptyPayload
  | ExpiredMessage
  | UnknownActor
  | RouteCycle
  | HopLimit
  | Unroutable
  | InvalidRoute.

(** [CoordinationMessage::validate_new] *)
Definition validate_new (x : CoordinationMessage) (topology : Topology.SessionTopology)
    (membership : Membership.SessionMembership) (now : Z) : res unit MailboxError :=
  bail (state x != Delivery.Pending) || negb (revision x =? 0)%Z
       || negb (delivery_attempts x =? 0)%Z
    with NotNew;;
  bail (session_id x != Membership.m_session_id membership)
       || (Topology.session_id topology != session_id x)
       || negb (Topology.membership_revision topology
                =? Membership.membership_revision (Membership.governance membership))%Z
       || negb (topology_revision x =? Topology.topology_revision topology)%Z
    with StaleFacts;;
  bail trim_is_empty (payload x) with EmptyPayload;;
  bail (expires_at x <=? now)%Z with ExpiredMessage;;
  let members := Membership.members membership in
  bail bool_decide (sender_instance_id x ∉ members)
       || bool_decide (recipient_instance_id x ∉ members)
    with UnknownActor;;
  let unique_route := list_to_set (route x) : gset AgentInstanceId in
  bail negb (size unique_route =? length (route x))%nat with RouteCycle;;
  let hops := length (route x) - 1 in
  bail (max_hops x =? 0)%Z || (max_hops x <? Z.of_nat hops)%Z with HopLimit;;
  expected <- infallible (Route.route_between topology (sender_instance_id x)
                            (recipient_instance_id x));;
  expected_route <- ok_or expected Unroutable;;
  bail route x != expected_route with InvalidRoute;;
  Ok tt.

(** * Specification *)

Record message_ok (x : CoordinationMessage) (topology : Topology.SessionTopology)
    (membership : Membership.SessionMembership) (now : Z) : Prop := {
  m_pending : state x = Delivery.Pending;
  m_revision : revision x = 0%Z;
  m_attempts : delivery_attempts x = 0%Z;
  m_session : session_id x = Membership.m_session_id membership;
  m_topology_session : Topology.session_id topology = session_id x;
  m_membership_revision : Topology.membership_revision topology =
    Membership.membership_revision (Membership.governance membership);
  m_topology_revision : topology_revision x = Topology.topology_revision topology;
  m_payload : trim_is_empty (payload x) = false;
  m_live : (now < expires_at x)%Z;
  m_sender : sender_instance_id x ∈ Membership.members membership;
  m_recipient : recipient_instance_id x ∈ Membership.members membership;
  m_hops : (0 ≠ max_hops x ∧ Z.of_nat (length (route x) - 1) ≤ max_hops x)%Z;
  m_route : Route.route_between topology (sender_instance_id x) (recipient_instance_id x) =
    Ok (Some (route x));
}.

(** [HashSet] deduplication keeps the length exactly when there are no repeats. *)
Lemma size_unique (l : list string) :
  size (list_to_set l : gset string) = length l ↔ NoDup l.
Proof.
  induction l as [|x l IH]; [split; [constructor|done]|].
  rewrite NoDup_cons, <- IH. cbn [list_to_set length].
  assert (size (list_to_set l : gset string) ≤ length l) as Hle.
  { clear. induction l as [|y l IH]; cbn [list_to_set length]; [by rewrite size_empty|].
    pose proof (size_union_alt ({[y]} : gset string) (list_to_set l)) as Hs.
    rewrite size_singleton in Hs.
    assert (size (list_to_set l ∖ {[y]} : gset string) ≤ size (list_to_set l : gset string))
      by (apply subseteq_size; set_solver). lia. }
  destruct (decide (x ∈ l)) as [Hx|Hx].
  - replace ({[x]} ∪ list_to_set l : gset string) with (list_to_set l : gset string) by set_solver.
    split; [lia|tauto].
  - rewrite size_union by set_solver. rewrite size_singleton. split; [intros; split; [done|lia]|lia].
Qed.

Lemma validate_message_iff x t m now : validate_new x t m now = Ok tt ↔ message_ok x t m now.
Proof.
  unfold validate_new. rewrite !bail_ok, !orb_false_iff, !negb_bool_decide_false, !negb_false_iff,
    !bool_decide_eq_false, !Z.eqb_eq, Z.eqb_neq, Z.leb_gt, Z.ltb_ge, Nat.eqb_eq, size_unique,
    res_bind_ok.
  setoid_rewrite infallible_ok. split.
  - intros ([[? ?] ?] & [[[? ?] ?] ?] & ? & ? & [Hs Hr] & Hnd & [? ?] & o & Ho & Hv).
    apply res_bind_ok in Hv as (r & ->%ok_or_ok & Hv). apply bail_ok in Hv as [Hroute _].
    apply negb_bool_decide_false in Hroute. subst r.
    split; try done; by apply dec_stable.
  - intros []. split_and!; try done; try lia; try tauto.
    + destruct (Route.route_between_ok _ _ _ _ m_route0) as (? & ? & ? & ? & ?). done.
    + exists (Some (route x)). split; [done|]. simpl. by rewrite bool_decide_true.
Qed.

Lemma validate_message_returns x t m now : returns (validate_new x t m now).
Proof.
  unfold validate_new. repeat (apply returns_bail; intros _).
  apply returns_bind; [apply returns_infallible, Route.route_between_returns|]. intros o _.
  apply returns_bind; [auto with res_db|]. intros r _. by apply returns_bail.
Qed.

(** The route of an admitted message is a shortest simple path of relations
    from the sender to the recipient. *)
Lemma message_ok_route x t m now :
  message_ok x t m now →
  Route.shortest_route (Route.linked t) (sender_instance_id x) (recipient_instance_id x) (route x).
Proof.
  intros Hok. apply Route.shortest_route_linked, Route.route_between_ok. apply Hok.
Qed.

(** * Delivery lifecycle *)

Definition delivery_step (s next : MessageDeliveryState) : Prop :=
  Delivery.can_transition_to s next = true.

Definition delivery_rank (s : MessageDeliveryState) : nat :=
  match s with
  | Delivery.Pending => 0
  | Delivery.Claimed => 1
  | Delivery.Delivered => 2
  | _ => 3
  end.

Lemma delivery_step_rank s next :
  delivery_step s next → delivery_rank s < delivery_rank next ≤ 3.
Proof. unfold delivery_step. destruct s, next; simpl; try discriminate; lia. Qed.

(** A message changes state at most three times. *)
Lemma delivery_bounded n s next : nsteps delivery_step n s next → n ≤ 3.
Proof.
  intros Hn. pose proof (ranked_run_bounded delivery_step delivery_rank 3 delivery_step_rank
    n s next Hn). destruct s; simpl in *; lia.
Qed.

(** Acknowledgement is only reached through claim and delivery. *)
Lemma delivery_acknowledged n s :
  nsteps delivery_step n s Delivery.Acknowledged → s = Delivery.Pending → n = 3.
Proof.
  intros Hn ->.
  assert (∀ s, delivery_step s Delivery.Acknowledged → s = Delivery.Delivered) as H3
    by (by intros [] Hs; unfold delivery_step in Hs).
  assert (∀ s, delivery_step s Delivery.Delivered → s = Delivery.Claimed) as H2
    by (by intros [] Hs; unfold delivery_step in Hs).
  assert (∀ s, delivery_step s Delivery.Claimed → s = Delivery.Pending) as H1
    by (by intros [] Hs; unfold delivery_step in Hs).
  assert (∀ s, ¬ delivery_step s Delivery.Pending) as H0
    by (by intros [] Hs; unfold delivery_step in Hs).
  destruct n as [|n]; [by inversion Hn|]. apply nsteps_inv_r in Hn as (? & Hn & ->%H3).
  destruct n as [|n]; [by inversion Hn|]. apply nsteps_inv_r in Hn as (? & Hn & ->%H2).
  destruct n as [|n]; [by inversion Hn|]. apply nsteps_inv_r in Hn as (? & Hn & ->%H1).
  destruct n as [|n]; [done|]. by apply nsteps_inv_r in Hn as (? & _ & ?%H0).
Qed.
