(* ===== verification/Handoff.v ===== *)
(** Governed task transfer: src/sylvander-runtime/src/coordination/handoff.rs.

    [validate_proposal] checks a proposal against the task, the topology and
    the membership; [proposal_ok] is its specification. *)

From S2P Require Import Prelude Graph Instance.
From S2P Require Membership Topology Tasks.
From stdpp Require Import base tactics gmap strings list relations.
From Stdlib Require Import ZArith Lia.

Notation HandoffId := string (only parsing).

Module State.

Inductive HandoffState :=
  | Proposed
  | AwaitingArbitration
  | Accepted
  | Rejected
  | Expired
  | Cancelled.

#[global] Instance HandoffState_eq_dec : EqDecision HandoffState.
Proof. solve_decision. Defined.

Definition is_terminal (s : HandoffState) : bool :=
  match s with Accepted | Rejected | Expired | Cancelled => true | _ => false end.

Definition can_transition_to (s next : HandoffState) : bool :=
  if is_terminal s || (s == next) then false
  else match s, next with
  | Proposed, (AwaitingArbitration | Cancelled | Expired) => true
  | AwaitingArbitration, (Accepted | Rejected | Cancelled | Expired) => true
  | _, _ => false
  end.

End State.

Notation HandoffState := State.HandoffState.

Record TaskHandoff := {
  handoff_id : HandoffId;
  session_id : SessionId;
  task_id : TaskId;
  from_instance_id : AgentInstanceId;
  to_instance_id : AgentInstanceId;
  requested_by : AgentInstanceId;
  arbitrator_instance_id : AgentInstanceId;
  task_revision : Z;
  topology_revision : Z;
  reason : string;
  state : HandoffState;
  revision : Z;
  expires_at : Z;
  created_at : Z;
  updated_at : Z;
}.

#[global] Instance TaskHandoff_eq_dec : EqDecision TaskHandoff.
Proof. solve_decision. Defined.

Inductive HandoffError :=
  | NotNew
  | TaskMismatch
  | StaleFacts
  | TerminalTask
  | NotCurrentAssignee
  | SameAssignee
  | HandoffBudgetExhausted
  | UnknownActor
  | UnauthorizedRequester
  | WrongArbitrator (expected : AgentInstanceId)
  | EmptyReason
  | ExpiredProposal.

(** [TaskHandoff::validate_proposal] *)
Definition validate_proposal (h : TaskHandoff) (task : Tasks.CoordinationTask)
    (topology : Topology.SessionTopology) (membership : Membership.SessionMembership)
    (now : Z) : res unit HandoffError :=
  bail (state h != State.Proposed) || negb (revision h =? 0)%Z with NotNew;;
  bail (session_id h != Membership.m_session_id membership)
       || (Tasks.session_id task != session_id h) || (Tasks.task_id task != task_id h)
    with TaskMismatch;;
  bail negb (task_revision h =? Tasks.revision task)%Z
       || negb (topology_revision h =? Topology.topology_revision topology)%Z
       || negb (Topology.membership_revision topology
                =? Membership.membership_revision (Membership.governance membership))%Z
    with StaleFacts;;
  bail Tasks.TaskState.is_terminal (Tasks.state task) with TerminalTask;;
  bail Tasks.assigned_to task != Some (from_instance_id h) with NotCurrentAssignee;;
  bail from_instance_id h == to_instance_id h with SameAssignee;;
  bail (Tasks.max_handoffs task <=? Tasks.handoff_count task)%Z with HandoffBudgetExhausted;;
  let members := Membership.members membership in
  bail bool_decide (to_instance_id h ∉ members) || bool_decide (requested_by h ∉ members)
       || bool_decide (arbitrator_instance_id h ∉ members)
    with UnknownActor;;
  let moderator := Membership.moderator_instance_id (Membership.governance membership) in
  bail (requested_by h != from_instance_id h) && (requested_by h != moderator)
    with UnauthorizedRequester;;
  arbitrator <- infallible (Topology.arbitrator_for topology (from_instance_id h)
                              (to_instance_id h) membership);;
  bail arbitrator_instance_id h != arbitrator with WrongArbitrator arbitrator;;
  bail trim_is_empty (reason h) with EmptyReason;;
  bail (expires_at h <=? now)%Z with ExpiredProposal;;
  Ok tt.

(** * Specification *)

Record proposal_ok (h : TaskHandoff) (task : Tasks.CoordinationTask)
    (topology : Topology.SessionTopology) (membership : Membership.SessionMembership)
    (now : Z) : Prop := {
  h_new : state h = State.Proposed ∧ revision h = 0%Z;
  h_session : session_id h = Membership.m_session_id membership;
  h_task : Tasks.session_id task = session_id h ∧ Tasks.task_id task = task_id h;
  h_revisions : task_revision h = Tasks.revision task ∧
    topology_revision h = Topology.topology_revision topology ∧
    Topology.membership_revision topology =
      Membership.membership_revision (Membership.governance membership);
  h_live_task : Tasks.TaskState.is_terminal (Tasks.state task) = false;
  h_assignee : Tasks.assigned_to task = Some (from_instance_id h);
  h_change : from_instance_id h ≠ to_instance_id h;
  h_budget : (Tasks.handoff_count task < Tasks.max_handoffs task)%Z;
  h_recipient : to_instance_id h ∈ Membership.members membership;
  h_requester : requested_by h ∈ Membership.members membership ∧
    (requested_by h = from_instance_id h ∨
     requested_by h = Membership.moderator_instance_id (Membership.governance membership));
  h_arbitrator_member : arbitrator_instance_id h ∈ Membership.members membership;
  h_arbitrator : Topology.arbitrator_for topology (from_instance_id h) (to_instance_id h)
    membership = Ok (arbitrator_instance_id h);
  h_reason : trim_is_empty (reason h) = false;
  h_live : (now < expires_at h)%Z;
}.

Lemma requester_guard (r f mo : AgentInstanceId) :
  (r != f) && (r != mo) = false ↔ r = f ∨ r = mo.
Proof.
  rewrite andb_false_iff, !negb_bool_decide_false. done.
Qed.

Lemma validate_proposal_iff h task t m now :
  validate_proposal h task t m now = Ok tt ↔ proposal_ok h task t m now.
Proof.
  unfold validate_proposal. rewrite !bail_ok, requester_guard, !orb_false_iff,
    !negb_bool_decide_false, !negb_false_iff, !bool_decide_eq_false, !Z.eqb_eq, Z.leb_gt,
    res_bind_ok.
  setoid_rewrite infallible_ok. setoid_rewrite bail_ok. setoid_rewrite negb_bool_decide_false.
  setoid_rewrite bail_ok. setoid_rewrite bail_ok. setoid_rewrite Z.leb_gt. split.
  - intros ([? ?] & [[? ?] ?] & [[? ?] ?] & ? & ? & ? & ? & [[Ht Hr] Ha] & ? & a & Harb & Hra & ? & ? & _).
    apply dec_stable in Ht, Hr, Ha. subst a. by split.
  - intros []. split_and!; naive_solver.
Qed.

(** On a governed topology the check always returns. *)
Lemma validate_proposal_returns h task t m now :
  Topology.governed t m → returns (validate_proposal h task t m now).
Proof.
  intros Hg. unfold validate_proposal. repeat (apply returns_bail; intros _).
  apply returns_bind; [by apply returns_infallible, Topology.arbitrator_for_returns|].
  intros a _. by repeat (apply returns_bail; intros _).
Qed.

(** The arbitrator of an accepted proposal owns both sides of the transfer. *)
Lemma proposal_arbitrated h task t m now :
  Topology.governed t m → from_instance_id h ∈ Membership.members m →
  proposal_ok h task t m now →
  rtc (Topology.owns t) (arbitrator_instance_id h) (from_instance_id h) ∧
  rtc (Topology.owns t) (arbitrator_instance_id h) (to_instance_id h) ∧
  ∀ d, rtc (Topology.owns t) d (from_instance_id h) →
    rtc (Topology.owns t) d (to_instance_id h) →
    rtc (Topology.owns t) d (arbitrator_instance_id h).
Proof.
  intros Hg Hfrom Hok. destruct (Topology.arbitrator_for_governed t m _ _ Hg Hfrom
    (h_recipient _ _ _ _ _ Hok)) as (c & Hc & ? & ? & ?).
  rewrite (h_arbitrator _ _ _ _ _ Hok) in Hc. injection Hc as ->. auto.
Qed.

(** * Lifecycle *)

Definition handoff_step (s next : HandoffState) : Prop := State.can_transition_to s next = true.

Definition handoff_rank (s : HandoffState) : nat :=
  match s with State.Proposed => 0 | State.AwaitingArbitration => 1 | _ => 2 end.

Lemma handoff_step_rank s next : handoff_step s next → handoff_rank s < handoff_rank next ≤ 2.
Proof. unfold handoff_step. destruct s, next; simpl; try discriminate; lia. Qed.

(** A hand-off is accepted or rejected only from arbitration. *)
Lemma handoff_decided_from_arbitration s next :
  handoff_step s next → next = State.Accepted ∨ next = State.Rejected →
  s = State.AwaitingArbitration.
Proof. unfold handoff_step. destruct s, next; simpl; naive_solver. Qed.
