(* ===== verification/Workspace.v ===== *)
(** Agent workspace views: src/sylvander-runtime/src/coordination/workspace.rs.

    [validate_new] checks a fresh view of an agent against the membership,
    [transition] moves it along its lifecycle under an expected revision and
    a fenced lease; an integration is created from a moderator approval and
    moved by [transition_with_receipt].  Specifications: [view_ok],
    [approval_ok] and the invariant [receipt_ok]. *)

From S2P Require Import Prelude Instance.
From S2P Require Membership.
From stdpp Require Import base tactics gmap strings list relations.
From Stdlib Require Import ZArith Lia Ascii.

Notation WorkspaceViewId := string (only parsing).
Notation WorkspaceIntegrationId := string (only parsing).

(** * Paths

    A [PathBuf] is the byte string of a Unix path.  Two paths are equal when
    their [Path::components] are: separators repeated or trailing and inner
    [.] parts do not count, a leading [.] of a relative path does. *)

Definition PathBuf : Type := string.

Fixpoint split_slash (s : string) : list string :=
  match s with
  | EmptyString => [""]
  | String c s =>
      if (byte c =? 47)%N then "" :: split_slash s
      else match split_slash s with
      | part :: parts => String c part :: parts
      | [] => [String c ""]
      end
  end.

Definition has_root (p : PathBuf) : bool :=
  match p with String c _ => (byte c =? 47)%N | EmptyString => false end.

(** A part that contributes a component wherever it stands. *)
Definition is_component (part : string) : bool := (part != "") && (part != ".").

Definition components (p : PathBuf) : list string :=
  if has_root p then "/" :: filter (λ s, is_component s = true) (split_slash p)
  else match split_slash p with
  | part :: parts =>
      (if part != "" then [part] else []) ++ filter (λ s, is_component s = true) parts
  | [] => []
  end.

(** [PathBuf::eq] *)
Definition path_eq (p q : PathBuf) : bool := components p == components q.

Example path_eq_examples :
  path_eq "/a//b/./c/" "/a/b/c" = true ∧ path_eq "./a" "a" = false ∧
  path_eq "a/../b" "b" = false ∧ path_eq "/a" "a" = false.
Proof. vm_compute. done. Qed.

(** [Path::to_str] succeeds on the byte strings that are UTF-8: no overlong
    form, no surrogate, nothing above U+10FFFF. *)
Definition cont (c : ascii) : bool := ((128 <=? byte c) && (byte c <=? 191))%N.
Definition lead3_ok (a b : ascii) : bool :=
  (((byte a =? 224) && (160 <=? byte b) && (byte b <=? 191)) ||
   ((225 <=? byte a) && (byte a <=? 236) && cont b) ||
   ((byte a =? 237) && (128 <=? byte b) && (byte b <=? 159)) ||
   ((238 <=? byte a) && (byte a <=? 239) && cont b))%N.
Definition lead4_ok (a b : ascii) : bool :=
  (((byte a =? 240) && (144 <=? byte b) && (byte b <=? 191)) ||
   ((241 <=? byte a) && (byte a <=? 243) && cont b) ||
   ((byte a =? 244) && (128 <=? byte b) && (byte b <=? 143)))%N.

Fixpoint is_utf8 (s : string) : bool :=
  match s with
  | EmptyString => true
  | String a r =>
      if (byte a <? 128)%N then is_utf8 r
      else match r with
      | EmptyString => false
      | String b r =>
          if ((194 <=? byte a) && (byte a <=? 223))%N && cont b then is_utf8 r
          else match r with
          | EmptyString => false
          | String c r =>
              if lead3_ok a b && cont c then is_utf8 r
              else match r with
              | EmptyString => false
              | String d r => if lead4_ok a b && cont c && cont d then is_utf8 r else false
              end
          end
      end
  end.

(** * Data *)

Inductive WorkspaceAccess := ReadOnly | ReadWrite.
#[global] Instance WorkspaceAccess_eq_dec : EqDecision WorkspaceAccess.
Proof. solve_decision. Defined.

Inductive WorkspaceIsolation := Shared | IsolatedWorktree.
#[global] Instance WorkspaceIsolation_eq_dec : EqDecision WorkspaceIsolation.
Proof. solve_decision. Defined.

Module ViewState.

Inductive WorkspaceViewState :=
  | Provisioning
  | Active
  | Integrating
  | Integrated
  | Conflicted
  | Released
  | ManualReconciliation.

#[global] Instance WorkspaceViewState_eq_dec : EqDecision WorkspaceViewState.
Proof. solve_decision. Defined.

Definition is_terminal (s : WorkspaceViewState) : bool :=
  match s with Integrated | Released => true | _ => false end.

Definition can_transition_to (s next : WorkspaceViewState) : bool :=
  if (s == next) || is_terminal s then false
  else match s, next with
  | Provisioning, (Active | Released | ManualReconciliation) => true
  | (Active | Conflicted), (Integrating | Released | ManualReconciliation) => true
  | Integrating, (Integrated | Conflicted | ManualReconciliation) => true
  | ManualReconciliation, Released => true
  | _, _ => false
  end.

End ViewState.
Notation WorkspaceViewState := ViewState.WorkspaceViewState.

Module IntegrationState.

Inductive WorkspaceIntegrationState :=
  | Approved
  | Applying
  | Applied
  | Conflicted
  | ManualReconciliation.

#[global] Instance WorkspaceIntegrationState_eq_dec : EqDecision WorkspaceIntegrationState.
Proof. solve_decision. Defined.

Definition is_final (s : WorkspaceIntegrationState) : bool :=
  match s with Applied | Conflicted | ManualReconciliation => true | _ => false end.

Definition can_transition_to (s next : WorkspaceIntegrationState) : bool :=
  if (s == next) || is_final s then false
  else match s, next with
  | Approved, (Applying | ManualReconciliation) => true
  | Applying, (Applied | Conflicted | ManualReconciliation) => true
  | _, _ => false
  end.

End IntegrationState.
Notation WorkspaceIntegrationState := IntegrationState.WorkspaceIntegrationState.

Record AgentWorkspaceView := {
  view_id : WorkspaceViewId;
  session_id : SessionId;
  agent_instance_id : AgentInstanceId;
  membership_revision : Z;
  access : WorkspaceAccess;
  isolation : WorkspaceIsolation;
  source_workspace : PathBuf;
  effective_workspace : PathBuf;
  target_id : option string;
  branch : option string;
  base_revision : option string;
  state : WorkspaceViewState;
  lease_epoch : Z;
  fencing_token : Z;
  revision : Z;
  created_at : Z;
  updated_at : Z;
}.

Record WorkspaceIntegrationApproval := {
  integration_id : WorkspaceIntegrationId;
  a_view_id : WorkspaceViewId;
  a_session_id : SessionId;
  a_agent_instance_id : AgentInstanceId;
  approved_by : AgentInstanceId;
  a_membership_revision : Z;
  topology_revision : Z;
  view_revision : Z;
  a_lease_epoch : Z;
  a_fencing_token : Z;
  review_digest : string;
  target_revision : string;
  candidate_revision : string;
  approved_at : Z;
}.

Record WorkspaceIntegration := {
  approval : WorkspaceIntegrationApproval;
  i_state : WorkspaceIntegrationState;
  merge_revision : option string;
  i_revision : Z;
  i_updated_at : Z;
}.

Inductive WorkspaceViewError :=
  | NotNew
  | StaleMembership
  | UnknownAgent
  | UnavailableAgent
  | InvalidLocation
  | SharedWriteForbidden
  | IncompleteWorktree
  | InvalidSharedView
  | RevisionConflict
  | StaleLease
  | InvalidTransition
  | RevisionOverflow
  | ApprovalMismatch
  | UnauthorizedIntegrator
  | StaleIntegrationApproval
  | InvalidIntegrationApproval
  | InvalidIntegrationTransition
  | InvalidMergeReceipt.

#[global] Instance WorkspaceViewError_eq_dec : EqDecision WorkspaceViewError.
Proof. solve_decision. Defined.

(** * Operations *)

(** [value.as_ref().is_none_or(|value| value.trim().is_empty())] *)
Definition none_or_blank (value : option string) : bool :=
  match value with None => true | Some v => trim_is_empty v end.
(** [value.as_ref().is_some_and(|value| value.trim().is_empty())] *)
Definition some_and_blank (value : option string) : bool :=
  match value with None => false | Some v => trim_is_empty v end.
Definition is_some {A} (o : option A) : bool :=
  match o with Some _ => true | None => false end.

(** The match on [(self.access, self.isolation)]. *)
Definition check_mode (v : AgentWorkspaceView) : res unit WorkspaceViewError :=
  let incomplete := path_eq (source_workspace v) (effective_workspace v)
                    || none_or_blank (branch v) || none_or_blank (base_revision v) in
  match access v, isolation v with
  | ReadWrite, Shared => Err SharedWriteForbidden
  | ReadWrite, IsolatedWorktree => bail_if incomplete IncompleteWorktree
  | ReadOnly, Shared =>
      bail_if (negb (path_eq (source_workspace v) (effective_workspace v))
               || is_some (branch v) || is_some (base_revision v)) InvalidSharedView
  | ReadOnly, IsolatedWorktree => bail_if incomplete IncompleteWorktree
  end.

(** [AgentWorkspaceView::validate_new] *)
Definition validate_new (v : AgentWorkspaceView) (membership : Membership.SessionMembership) :
    res unit WorkspaceViewError :=
  bail (state v != ViewState.Provisioning) || negb (revision v =? 0)%Z
       || (lease_epoch v =? 0)%Z || (fencing_token v =? 0)%Z with NotNew;;
  bail (session_id v != Membership.m_session_id membership)
       || negb (membership_revision v =?
                Membership.membership_revision (Membership.governance membership))%Z
    with StaleMembership;;
  instance <- ok_or (Membership.find_participant (Membership.participants membership)
                       (agent_instance_id v)) UnknownAgent;;
  bail InstanceState.is_terminal (ai_state instance)
       || (ai_state instance == InstanceState.ManualReconciliation) with UnavailableAgent;;
  bail (source_workspace v == "") || (effective_workspace v == "")
       || negb (is_utf8 (source_workspace v)) || negb (is_utf8 (effective_workspace v))
       || some_and_blank (target_id v) with InvalidLocation;;
  check_mode v.

(** The fields [transition] assigns. *)
Definition advance (v : AgentWorkspaceView) (rev : Z) (next : WorkspaceViewState) (now : Z) :
    AgentWorkspaceView :=
  {| view_id := view_id v; session_id := session_id v;
     agent_instance_id := agent_instance_id v;
     membership_revision := membership_revision v; access := access v;
     isolation := isolation v; source_workspace := source_workspace v;
     effective_workspace := effective_workspace v; target_id := target_id v;
     branch := branch v; base_revision := base_revision v; state := next;
     lease_epoch := lease_epoch v; fencing_token := fencing_token v; revision := rev;
     created_at := created_at v; updated_at := now |}.

(** [AgentWorkspaceView::transition]: the view after the call and its
    result. *)
Definition transition (v : AgentWorkspaceView) (expected_revision epoch token : Z)
    (next : WorkspaceViewState) (now : Z) :
    AgentWorkspaceView * res unit WorkspaceViewError :=
  if negb (revision v =? expected_revision)%Z then (v, Err RevisionConflict)
  else if negb (lease_epoch v =? epoch)%Z || negb (fencing_token v =? token)%Z
  then (v, Err StaleLease)
  else if negb (ViewState.can_transition_to (state v) next) then (v, Err InvalidTransition)
  else match checked_add u64_max (revision v) 1 with
  | None => (v, Err RevisionOverflow)
  | Some rev => (advance v rev next now, Ok tt)
  end.

Definition is_sha256_digest (value : string) : bool :=
  match Prelude.strip_prefix "sha256:" value with
  | Some digest => (String.length digest =? 64)%nat && all_hexdigit digest
  | None => false
  end.

Definition is_git_revision (value : string) : bool :=
  ((String.length value =? 40)%nat || (String.length value =? 64)%nat) && all_hexdigit value.

(** [WorkspaceIntegrationApproval::validate] *)
Definition validate_approval (a : WorkspaceIntegrationApproval) (v : AgentWorkspaceView)
    (membership : Membership.SessionMembership) (current_topology_revision : Z) :
    res unit WorkspaceViewError :=
  let g := Membership.governance membership in
  bail (a_view_id a != view_id v) || (a_session_id a != session_id v)
       || (a_agent_instance_id a != agent_instance_id v) with ApprovalMismatch;;
  bail approved_by a != Membership.moderator_instance_id g with UnauthorizedIntegrator;;
  bail negb (a_membership_revision a =? Membership.membership_revision g)%Z
       || negb (a_membership_revision a =? membership_revision v)%Z
       || negb (topology_revision a =? current_topology_revision)%Z
       || negb (view_revision a =? revision v)%Z
       || negb (a_lease_epoch a =? lease_epoch v)%Z
       || negb (a_fencing_token a =? fencing_token v)%Z with StaleIntegrationApproval;;
  bail negb ((state v == ViewState.Active) || (state v == ViewState.Conflicted))
       || negb (is_sha256_digest (review_digest a))
       || negb (is_git_revision (target_revision a))
       || negb (is_git_revision (candidate_revision a))
       || (target_revision a == candidate_revision a) with InvalidIntegrationApproval;;
  Ok tt.

(** [WorkspaceIntegration::new] *)
Definition new (a : WorkspaceIntegrationApproval) (v : AgentWorkspaceView)
    (membership : Membership.SessionMembership) (current_topology_revision : Z) :
    res WorkspaceIntegration WorkspaceViewError :=
  _ <- validate_approval a v membership current_topology_revision;;
  Ok {| approval := a; i_state := IntegrationState.Approved; merge_revision := None;
        i_revision := 0; i_updated_at := approved_at a |}.

Definition receipt_rejected (next : WorkspaceIntegrationState) (receipt : option string) : bool :=
  (next == IntegrationState.Applied)
    && match receipt with None => true | Some value => negb (is_git_revision value) end
  || (next != IntegrationState.Applied) && is_some receipt.

(** [WorkspaceIntegration::transition_with_receipt] *)
Definition transition_with_receipt (i : WorkspaceIntegration) (expected_revision : Z)
    (next : WorkspaceIntegrationState) (receipt : option string) (now : Z) :
    WorkspaceIntegration * res unit WorkspaceViewError :=
  if negb (i_revision i =? expected_revision)%Z then (i, Err RevisionConflict)
  else if negb (IntegrationState.can_transition_to (i_state i) next)
  then (i, Err InvalidIntegrationTransition)
  else if receipt_rejected next receipt then (i, Err InvalidMergeReceipt)
  else match checked_add u64_max (i_revision i) 1 with
  | None => (i, Err RevisionOverflow)
  | Some rev =>
      ({| approval := approval i; i_state := next; merge_revision := receipt;
          i_revision := rev; i_updated_at := now |}, Ok tt)
  end.

(** [WorkspaceIntegration::transition] *)
Definition transition_integration (i : WorkspaceIntegration) (expected_revision : Z)
    (next : WorkspaceIntegrationState) (now : Z) :
    WorkspaceIntegration * res unit WorkspaceViewError :=
  transition_with_receipt i expected_revision next None now.

(** * Specification of views *)

Definition filled (o : option string) : Prop := ∃ s, o = Some s ∧ trim_is_empty s = false.

Definition location_ok (v : AgentWorkspaceView) : Prop :=
  source_workspace v ≠ "" ∧ effective_workspace v ≠ "" ∧
  is_utf8 (source_workspace v) = true ∧ is_utf8 (effective_workspace v) = true ∧
  ∀ t, target_id v = Some t → trim_is_empty t = false.

(** Writes need an isolated worktree; an isolated worktree is another place
    than its source and names its branch and base; a shared view is the
    source itself. *)
Definition mode_ok (v : AgentWorkspaceView) : Prop :=
  match isolation v with
  | Shared => access v = ReadOnly ∧
      components (source_workspace v) = components (effective_workspace v) ∧
      branch v = None ∧ base_revision v = None
  | IsolatedWorktree =>
      components (source_workspace v) ≠ components (effective_workspace v) ∧
      filled (branch v) ∧ filled (base_revision v)
  end.

Record view_ok (v : AgentWorkspaceView) (m : Membership.SessionMembership) : Prop := {
  v_new : state v = ViewState.Provisioning ∧ revision v = 0%Z;
  v_lease : lease_epoch v ≠ 0%Z ∧ fencing_token v ≠ 0%Z;
  v_session : session_id v = Membership.m_session_id m;
  v_membership : membership_revision v =
    Membership.membership_revision (Membership.governance m);
  v_owner : ∃ p, Membership.find_participant (Membership.participants m) (agent_instance_id v)
      = Some p ∧ available (ai_state p) = true;
  v_location : location_ok v;
  v_mode : mode_ok v;
}.

Lemma none_or_blank_false o : none_or_blank o = false ↔ filled o.
Proof. unfold filled. destruct o; simpl; naive_solver. Qed.

Lemma some_and_blank_false o :
  some_and_blank o = false ↔ ∀ s, o = Some s → trim_is_empty s = false.
Proof. destruct o; simpl; naive_solver. Qed.

Lemma is_some_false {A} (o : option A) : is_some o = false ↔ o = None.
Proof. destruct o; simpl; naive_solver. Qed.

Lemma check_mode_ok v : check_mode v = Ok tt ↔ mode_ok v.
Proof.
  unfold check_mode, mode_ok, path_eq. destruct (access v), (isolation v);
    rewrite ?bail_if_ok, ?orb_false_iff, ?negb_bool_decide_false, ?bool_decide_eq_false,
      ?none_or_blank_false, ?is_some_false; naive_solver.
Qed.

Lemma location_guard v :
  (source_workspace v == "") || (effective_workspace v == "")
    || negb (is_utf8 (source_workspace v)) || negb (is_utf8 (effective_workspace v))
    || some_and_blank (target_id v) = false ↔ location_ok v.
Proof.
  unfold location_ok.
  rewrite !orb_false_iff, !bool_decide_eq_false, !negb_false_iff, some_and_blank_false. tauto.
Qed.

Lemma available_guard (p : AgentInstance) :
  InstanceState.is_terminal (ai_state p)
    || (ai_state p == InstanceState.ManualReconciliation) = false ↔ available (ai_state p) = true.
Proof.
  unfold available. by rewrite negb_true_iff.
Qed.

Lemma validate_view_iff v m : validate_new v m = Ok tt ↔ view_ok v m.
Proof.
  unfold validate_new. rewrite !bail_ok, !orb_false_iff, !negb_bool_decide_false,
    !negb_false_iff, !Z.eqb_eq, !Z.eqb_neq, res_bind_ok.
  setoid_rewrite ok_or_ok. setoid_rewrite bail_ok. setoid_rewrite available_guard.
  setoid_rewrite bail_ok. setoid_rewrite location_guard. setoid_rewrite check_mode_ok.
  split.
  - intros ([[[? ?] ?] ?] & [? ?] & p & ? & ? & ? & ?). split; eauto.
  - intros [[? ?] [? ?] ? ? (p & ? & ?) ? ?]. split_and!; eauto 10.
Qed.

Lemma validate_view_returns v m : returns (validate_new v m).
Proof.
  unfold validate_new. do 2 (apply returns_bail; intros _).
  apply returns_bind; [apply returns_ok_or|]. intros p _.
  do 2 (apply returns_bail; intros _). unfold check_mode.
  destruct (access v), (isolation v); auto with res_db.
Qed.

(** * The view under its lease *)

(** What one call of [transition] does. *)
Lemma transition_spec v e epoch token next now v' r :
  transition v e epoch token next now = (v', r) →
  (v' = v ∧ (∃ err, r = Err err)) ∨
  (r = Ok tt ∧ v' = advance v (revision v + 1) next now ∧ e = revision v ∧
   epoch = lease_epoch v ∧ token = fencing_token v ∧
   ViewState.can_transition_to (state v) next = true ∧ (revision v < u64_max)%Z).
Proof.
  unfold transition. repeat case_match; intros [= <- <-]; eauto. right.
  destruct_guards. rewrite Z.eqb_eq in *.
  match goal with H : checked_add _ _ _ = Some _ |- _ => apply checked_add_some in H as [-> ?] end.
  split_and!; auto; lia.
Qed.

Lemma transition_ok v e epoch token next now v' :
  transition v e epoch token next now = (v', Ok tt) ↔
  v' = advance v (revision v + 1) next now ∧ e = revision v ∧ epoch = lease_epoch v ∧
  token = fencing_token v ∧ ViewState.can_transition_to (state v) next = true ∧
  (revision v < u64_max)%Z.
Proof.
  split.
  - intros H. by destruct (transition_spec _ _ _ _ _ _ _ _ H) as [[_ [? ?]]|[_ ?]].
  - intros (-> & -> & -> & -> & Hs & Hr). unfold transition. rewrite !Z.eqb_refl, Hs. simpl.
    assert (checked_add u64_max (revision v) 1 = Some (revision v + 1)%Z) as ->
      by (apply checked_add_some; lia). done.
Qed.

(** A call made by a holder of the lease at [epoch] and [token]. *)
Record view_call := {
  c_expected : Z; c_epoch : Z; c_token : Z; c_next : WorkspaceViewState; c_now : Z;
}.

Definition call (v : AgentWorkspaceView) (c : view_call) :
    AgentWorkspaceView * res unit WorkspaceViewError :=
  transition v (c_expected c) (c_epoch c) (c_token c) (c_next c) (c_now c).

(** A sequence of calls and the number that succeeded. *)
Fixpoint calls (v : AgentWorkspaceView) (cs : list view_call) : AgentWorkspaceView * nat :=
  match cs with
  | [] => (v, 0%nat)
  | c :: cs =>
      let '(v', r) := call v c in
      let '(w, n) := calls v' cs in
      (w, if r == Ok tt then S n else n)
  end.

Lemma calls_revision v cs : let '(w, n) := calls v cs in
  revision w = (revision v + Z.of_nat n)%Z ∧
  lease_epoch w = lease_epoch v ∧ fencing_token w = fencing_token v ∧
  rtc (λ a b, ViewState.can_transition_to a b = true) (state v) (state w).
Proof.
  revert v. induction cs as [|c cs IH]; intros v; simpl.
  { split_and!; [lia|done|done|apply rtc_refl]. }
  destruct (call v c) as [v' r] eqn:E. specialize (IH v'). destruct (calls v' cs) as [w n].
  destruct IH as (Hrev & He & Ht & Hs). unfold call in E.
  apply transition_spec in E as [[-> [err ->]]|(-> & -> & _ & _ & _ & Hc & _)].
  - rewrite bool_decide_eq_false_2 by done. done.
  - rewrite bool_decide_eq_true_2 by done. simpl in *. split_and!; [lia|done|done|].
    by eapply rtc_l.
Qed.

(** A holder whose epoch or token was superseded changes nothing. *)
Lemma stale_calls v cs :
  (∀ c, c ∈ cs → c_epoch c ≠ lease_epoch v ∨ c_token c ≠ fencing_token v) →
  calls v cs = (v, 0%nat).
Proof.
  intros Hc. induction cs as [|c cs IH]; simpl; [done|].
  destruct (call v c) as [v' r] eqn:E. unfold call in E.
  apply transition_spec in E as [[-> [err ->]]|(_ & _ & _ & He & Ht & _)].
  - rewrite IH by (intros; apply Hc; by right).
    rewrite bool_decide_eq_false_2 by done. done.
  - destruct (Hc c ltac:(left)); congruence.
Qed.

(** Two calls that read the same revision: at most one succeeds. *)
Lemma one_winner v c d v1 v2 :
  c_expected c = c_expected d → call v c = (v1, Ok tt) → ¬ call v1 d = (v2, Ok tt).
Proof.
  unfold call. intros Heq H1 H2. apply transition_ok in H1 as (-> & Hc & _).
  apply transition_ok in H2 as (_ & Hd & _). simpl in *. lia.
Qed.

(** Nothing leaves a released or an integrated view. *)
Lemma view_frozen v cs :
  ViewState.is_terminal (state v) = true → calls v cs = (v, 0%nat).
Proof.
  intros Ht. induction cs as [|c cs IH]; simpl; [done|].
  destruct (call v c) as [v' r] eqn:E. unfold call in E.
  apply transition_spec in E as [[-> [err ->]]|(_ & _ & _ & _ & _ & Hn & _)].
  - rewrite IH. by rewrite bool_decide_eq_false_2 by done.
  - unfold ViewState.can_transition_to in Hn. rewrite Ht, orb_true_r in Hn. done.
Qed.

(** An integrated view was being integrated just before. *)
Lemma integrated_from s : ViewState.can_transition_to s ViewState.Integrated = true →
  s = ViewState.Integrating.
Proof. by destruct s; vm_compute. Qed.

(** * Integration *)

Record approval_ok (a : WorkspaceIntegrationApproval) (v : AgentWorkspaceView)
    (m : Membership.SessionMembership) (topology : Z) : Prop := {
  a_target : a_view_id a = view_id v ∧ a_session_id a = session_id v ∧
    a_agent_instance_id a = agent_instance_id v;
  a_moderator : approved_by a = Membership.moderator_instance_id (Membership.governance m);
  a_membership : a_membership_revision a =
      Membership.membership_revision (Membership.governance m) ∧
    a_membership_revision a = membership_revision v;
  a_topology : topology_revision a = topology;
  a_view : view_revision a = revision v ∧ a_lease_epoch a = lease_epoch v ∧
    a_fencing_token a = fencing_token v;
  a_state : state v = ViewState.Active ∨ state v = ViewState.Conflicted;
  a_digest : is_sha256_digest (review_digest a) = true;
  a_revisions : is_git_revision (target_revision a) = true ∧
    is_git_revision (candidate_revision a) = true ∧
    target_revision a ≠ candidate_revision a;
}.

Lemma validate_approval_iff a v m topology :
  validate_approval a v m topology = Ok tt ↔ approval_ok a v m topology.
Proof.
  unfold validate_approval.
  rewrite !bail_ok, !orb_false_iff, !negb_bool_decide_false, !negb_false_iff, orb_true_iff,
    !bool_decide_eq_true, bool_decide_eq_false, !Z.eqb_eq.
  split; [intros; destruct_and!; by split|]. intros []. naive_solver.
Qed.

Lemma new_ok a v m topology i :
  new a v m topology = Ok i ↔ approval_ok a v m topology ∧
    i = {| approval := a; i_state := IntegrationState.Approved; merge_revision := None;
           i_revision := 0; i_updated_at := approved_at a |}.
Proof.
  unfold new. rewrite res_bind_ok. setoid_rewrite <- validate_approval_iff. split.
  - intros ([] & ? & [= <-]). done.
  - intros [? ->]. by exists tt.
Qed.

(** A merge receipt is present exactly when the integration was applied, and
    it is a git revision. *)
Definition receipt_ok (i : WorkspaceIntegration) : Prop :=
  match merge_revision i with
  | Some r => i_state i = IntegrationState.Applied ∧ is_git_revision r = true
  | None => i_state i ≠ IntegrationState.Applied
  end.

Lemma receipt_rejected_false next receipt :
  receipt_rejected next receipt = false ↔
  match receipt with
  | Some r => next = IntegrationState.Applied ∧ is_git_revision r = true
  | None => next ≠ IntegrationState.Applied
  end.
Proof.
  unfold receipt_rejected. destruct receipt as [r|]; simpl;
    destruct (decide (next = IntegrationState.Applied)) as [->|Hne].
  - rewrite bool_decide_eq_true_2 by done. simpl. rewrite orb_false_r, negb_false_iff. naive_solver.
  - rewrite bool_decide_eq_false_2 by done. naive_solver.
  - rewrite bool_decide_eq_true_2 by done. naive_solver.
  - rewrite bool_decide_eq_false_2 by done. naive_solver.
Qed.

Record integration_call := {
  ic_expected : Z; ic_next : WorkspaceIntegrationState; ic_receipt : option string; ic_now : Z;
}.

Definition integrate (i : WorkspaceIntegration) (c : integration_call) :
    WorkspaceIntegration * res unit WorkspaceViewError :=
  transition_with_receipt i (ic_expected c) (ic_next c) (ic_receipt c) (ic_now c).

(** One successful call. *)
Definition integration_step (i j : WorkspaceIntegration) : Prop :=
  ∃ c, integrate i c = (j, Ok tt).

Lemma integrate_spec i c j r :
  integrate i c = (j, r) →
  (j = i ∧ ∃ e, r = Err e) ∨
  (r = Ok tt ∧ approval j = approval i ∧ i_revision j = (i_revision i + 1)%Z ∧
   ic_expected c = i_revision i ∧ i_state j = ic_next c ∧
   IntegrationState.can_transition_to (i_state i) (i_state j) = true ∧ receipt_ok j).
Proof.
  unfold integrate, transition_with_receipt.
  repeat case_match; intros [= <- <-]; eauto. right.
  match goal with H : receipt_rejected _ _ = false |- _ => apply receipt_rejected_false in H end.
  destruct_guards. rewrite Z.eqb_eq in *.
  match goal with H : checked_add _ _ _ = Some _ |- _ => apply checked_add_some in H as [-> ?] end.
  done.
Qed.

Definition integration_rank (s : WorkspaceIntegrationState) : nat :=
  match s with
  | IntegrationState.Approved => 0
  | IntegrationState.Applying => 1
  | _ => 2
  end.

Lemma integration_step_rank i j :
  integration_step i j → integration_rank (i_state i) < integration_rank (i_state j) ≤ 2.
Proof.
  intros [c Hc]. apply integrate_spec in Hc as [[_ [? ?]]|(_ & _ & _ & _ & _ & Hs & _)]; [done|].
  destruct (i_state i), (i_state j); vm_compute in Hs; try done; simpl; lia.
Qed.

(** From its creation on, an integration keeps its approval, holds a receipt
    exactly when applied, and changes at most twice. *)
Lemma integration_run n i j :
  nsteps integration_step n i j → receipt_ok i →
  receipt_ok j ∧ approval j = approval i ∧ i_revision j = (i_revision i + Z.of_nat n)%Z.
Proof.
  induction 1 as [|n i j k [c Hc] _ IH]; [intros; split_and!; [done|done|lia]|]. intros _.
  apply integrate_spec in Hc as [[_ [? ?]]|(_ & Ha & Hrev & _ & _ & _ & Hr)]; [done|].
  destruct (IH Hr) as (? & -> & ->). split_and!; [done|done|lia].
Qed.

Lemma integration_bounded n i j :
  nsteps integration_step n i j → integration_rank (i_state i) + n ≤ 2.
Proof.
  intros Hn. apply (ranked_run_bounded integration_step (λ i, integration_rank (i_state i)) 2
    integration_step_rank n i j Hn).
  destruct (i_state i); simpl; lia.
Qed.
