(* ===== verification/Governance.v ===== *)
(** Graph limits and escalation to the moderator:
    src/sylvander-runtime/src/coordination/governance.rs.

    [assess] collects findings from the membership, the topology, the task
    graph, the waits and the observations of a session.  Every hash map it
    iterates is iterated in the order of a [HashOrder]. *)

From S2P Require Import Prelude Graph Instance.
From S2P Require Membership Topology Tasks.
From stdpp Require Import base tactics gmap strings list sorting relations sets fin_sets.
From Stdlib Require Import ZArith Lia.

Record GovernancePolicy := {
  max_agents : Z;
  max_ownership_depth : Z;
  max_children_per_agent : Z;
  max_active_tasks_per_agent : Z;
  max_message_delivery_attempts : Z;
  stagnation_window : Z;
  handoff_ping_pong_window : Z;
}.

Definition default_policy : GovernancePolicy := {|
  max_agents := 16;
  max_ownership_depth := 4;
  max_children_per_agent := 6;
  max_active_tasks_per_agent := 4;
  max_message_delivery_attempts := 5;
  stagnation_window := 3;
  handoff_ping_pong_window := 4;
|}.

Record WaitDependency := { w_task_id : TaskId; waiter : AgentInstanceId; awaited : AgentInstanceId }.

Record ProgressObservation := {
  observation_id : string;
  p_task_id : TaskId;
  p_agent_instance_id : AgentInstanceId;
  task_revision : Z;
  consumed_tokens : Z;
  evidence_digest : option string;
  observed_at : Z;
}.

Record HandoffObservation := {
  o_task_id : TaskId;
  from : AgentInstanceId;
  to : AgentInstanceId;
  accepted_at : Z;
}.

Record GovernanceSnapshot := {
  membership : Membership.SessionMembership;
  topology : Topology.SessionTopology;
  tasks : Tasks.SessionTaskGraph;
  waits : list WaitDependency;
  progress : list ProgressObservation;
  handoffs : list HandoffObservation;
}.

Inductive FindingSeverity := HardStop | ModeratorReview.

#[global] Instance FindingSeverity_eq_dec : EqDecision FindingSeverity.
Proof. solve_decision. Defined.

Inductive GovernanceFinding :=
  | AgentLimit (actual maximum : Z)
  | OwnershipDepth (actual maximum : Z)
  | OwnershipFanout (agent_instance_id : AgentInstanceId) (actual maximum : Z)
  | TaskConcurrency (agent_instance_id : AgentInstanceId) (actual maximum : Z)
  | TokenBudgetExhausted (task_id : TaskId)
  | WaitCycle (agents : list AgentInstanceId)
  | StagnantProgress (task_id : TaskId) (observations : Z)
  | HandoffPingPong (task_id : TaskId) (handoffs : Z)
  | MailboxTurnUnresolved (agent_instance_id : AgentInstanceId) (message_id : string).

#[global] Instance GovernanceFinding_eq_dec : EqDecision GovernanceFinding.
Proof. solve_decision. Defined.

Definition severity (f : GovernanceFinding) : FindingSeverity :=
  match f with
  | StagnantProgress _ _ | HandoffPingPong _ _ => ModeratorReview
  | _ => HardStop
  end.

Record GovernanceAssessment := {
  moderator_instance_id : AgentInstanceId;
  findings : list GovernanceFinding;
}.

#[global] Instance GovernanceAssessment_eq_dec : EqDecision GovernanceAssessment.
Proof. solve_decision. Defined.

Definition permits_automatic_progress (a : GovernanceAssessment) : bool :=
  match findings a with [] => true | _ => false end.

Definition has_hard_stop (a : GovernanceAssessment) : bool :=
  existsb (λ f, severity f == HardStop) (findings a).

(** * Ownership limits *)

(** The children table: [entry(source).or_default().push(target)]. *)
Definition children_of (t : Topology.SessionTopology) : adjacency :=
  foldl (λ children r,
    if Topology.kind r == Topology.ParentOf
    then push_edge children (Topology.source r) (Topology.target r) else children)
    ∅ (Topology.relations t).

(** The [while let Some(...) = stack.pop()] loop; the stack is held with its
    top first. *)
Definition depth_step (children : adjacency) (st : list (AgentInstanceId * Z) * Z) :
    (list (AgentInstanceId * Z) * Z) + Z :=
  match st with
  | ([], maximum) => inr maximum
  | ((agent, depth) :: stack, maximum) =>
      inl (reverse ((λ child, (child, saturating_add u64_max depth 1)) <$> succs children agent)
             ++ stack,
           Z.max maximum depth)
  end.

Definition ownership_depth (fuel : nat) (children : adjacency) (root : AgentInstanceId) :
    option Z :=
  loop_fuel (depth_step children) fuel ([(root, 0%Z)], 0%Z).

Definition fanout_findings `{!HashOrder} (policy : GovernancePolicy) (children : adjacency) :
    list GovernanceFinding :=
  agent ← hash_iter 0 (dom children);
  let actual := Z.of_nat (length (succs children agent)) in
  if (max_children_per_agent policy <? actual)%Z
  then [OwnershipFanout agent actual (max_children_per_agent policy)] else [].

Definition depth_findings (policy : GovernancePolicy) (depth : Z) : list GovernanceFinding :=
  if (max_ownership_depth policy <? depth)%Z
  then [OwnershipDepth depth (max_ownership_depth policy)] else [].

(** [assess_topology]; [None] when [fuel] iterations do not empty the
    stack. *)
Definition assess_topology `{!HashOrder} (fuel : nat) (policy : GovernancePolicy)
    (snapshot : GovernanceSnapshot) (acc : list GovernanceFinding) :
    option (list GovernanceFinding) :=
  let children := children_of (topology snapshot) in
  let acc := acc ++ fanout_findings policy children in
  maximum ← ownership_depth fuel children
    (Membership.moderator_instance_id (Membership.governance (membership snapshot)));
  Some (acc ++ depth_findings policy maximum).

(** * Task limits *)

Definition is_active (s : Tasks.CoordinationTaskState) : bool :=
  match s with
  | Tasks.TaskState.Ready | Tasks.TaskState.Running | Tasks.TaskState.Blocked
  | Tasks.TaskState.AwaitingReview => true
  | _ => false
  end.

(** One iteration over the tasks: the findings and the active counts. *)
Definition assess_task (acc : list GovernanceFinding * gmap AgentInstanceId Z)
    (task : Tasks.CoordinationTask) : list GovernanceFinding * gmap AgentInstanceId Z :=
  if Tasks.TaskState.is_terminal (Tasks.state task) then acc
  else
    let fs := if (Tasks.token_budget task <=? Tasks.consumed_tokens task)%Z
      then acc.1 ++ [TokenBudgetExhausted (Tasks.task_id task)] else acc.1 in
    let active := match is_active (Tasks.state task), Tasks.assigned_to task with
      | true, Some assignee => <[assignee := (default 0 (acc.2 !! assignee) + 1)%Z]> acc.2
      | _, _ => acc.2
      end in
    (fs, active).

Definition concurrency_findings `{!HashOrder} (policy : GovernancePolicy)
    (active : gmap AgentInstanceId Z) : list GovernanceFinding :=
  agent ← hash_iter 1 (dom active);
  let actual := default 0%Z (active !! agent) in
  if (max_active_tasks_per_agent policy <? actual)%Z
  then [TaskConcurrency agent actual (max_active_tasks_per_agent policy)] else [].

Definition assess_tasks `{!HashOrder} (policy : GovernancePolicy) (snapshot : GovernanceSnapshot)
    (acc : list GovernanceFinding) : list GovernanceFinding :=
  let '(acc, active) := foldl assess_task (acc, ∅) (Tasks.tasks (tasks snapshot)) in
  acc ++ concurrency_findings policy active.

(** * Wait-for cycles *)

Definition add_wait (adj : adjacency) (w : WaitDependency) : adjacency :=
  let adj := push_edge adj (waiter w) (awaited w) in
  <[awaited w := succs adj (awaited w)]> adj.

Definition wait_graph (ws : list WaitDependency) : adjacency := foldl add_wait ∅ ws.

Definition reachable (start : AgentInstanceId) (adj : adjacency) : gset AgentInstanceId :=
  search stack_push adj [start].

(** [reverse]: iterates the map in the [n]-th order. *)
Definition reverse_graph `{!HashOrder} (n : nat) (adj : adjacency) : adjacency :=
  foldl (λ reversed source,
      foldl (λ reversed target, push_edge reversed target source) reversed (succs adj source))
    (gset_to_gmap [] (dom adj)) (hash_iter n (dom adj)).

(** The loop over [remaining]; its state holds a counter of the hash
    iterations, [remaining] and [cycles]. *)
Notation scc_state := (nat * gset AgentInstanceId * list (list AgentInstanceId))%type.

Definition component_of `{!HashOrder} (n : nat) (adj : adjacency) (start : AgentInstanceId) :
    gset AgentInstanceId :=
  reachable start adj ∩ reachable start (reverse_graph n adj).

Definition wait_step `{!HashOrder} (adj : adjacency) (st : scc_state) :
    scc_state + list (list AgentInstanceId) :=
  let '(n, remaining, cycles) := st in
  match hash_iter n remaining with
  | [] => inr cycles
  | start :: _ =>
      let component := component_of (n + 1) adj start in
      let self_wait := bool_decide (start ∈ succs adj start) in
      let members := hash_iter (n + 2) component in
      inl ((n + 3)%nat, remaining ∖ component,
           if (1 <? length members)%nat || self_wait
           then cycles ++ [stable_sort string_le members] else cycles)
  end.

Definition wait_measure (st : scc_state) : nat := size st.1.2.

Lemma reachable_start start adj : start ∈ reachable start adj.
Proof. apply search_reach. apply rtc_refl. Qed.

Lemma wait_decreases `{!HashOrder} adj st st' :
  wait_step adj st = inl st' → wait_measure st' < wait_measure st.
Proof.
  destruct st as [[n remaining] cycles]. unfold wait_step, wait_measure. simpl.
  destruct (hash_iter n remaining) as [|start l] eqn:E; [done|]. intros [= <-]. simpl.
  assert (start ∈ remaining) by (apply (elem_of_hash_iter n); rewrite E; left).
  assert (start ∈ component_of (n + 1) adj start)
    by (apply elem_of_intersection; split; apply reachable_start).
  apply subset_size. set_solver.
Qed.

Definition wait_cycles `{!HashOrder} (ws : list WaitDependency) : list (list AgentInstanceId) :=
  let adj := wait_graph ws in
  loop (wait_step adj) wait_measure (wait_decreases adj) (4%nat, dom adj, []).

(** * Observations *)

(** [by_task.entry(key).or_default().push(x)] over a list, and the list of a
    task sorted by time. *)
Definition group {A} (key : A → TaskId) (l : list A) : gmap TaskId (list A) :=
  foldl (λ m x, <[key x := default [] (m !! key x) ++ [x]]> m) ∅ l.

(** The newest [window] entries of a task, newest first. *)
Definition newest {A} (time : A → Z) (window : Z) (samples : list A) : list A :=
  take (Z.to_nat window) (reverse (stable_sort (λ x y, (time x <=? time y)%Z) samples)).

Definition max_opt (l : list Z) : option Z :=
  foldr (λ x m, Some (match m with None => x | Some y => Z.max x y end)) None l.
Definition min_opt (l : list Z) : option Z :=
  foldr (λ x m, Some (match m with None => x | Some y => Z.min x y end)) None l.
(** [>] of [Option<u64>]: [None] is below every [Some]. *)
Definition opt_gt (a b : option Z) : bool :=
  match a, b with
  | Some x, Some y => (y <? x)%Z
  | Some _, None => true
  | None, _ => false
  end.

Definition is_stagnant (window : list ProgressObservation) : bool :=
  match window with
  | [] => false
  | first :: _ =>
      forallb (λ s, (task_revision s =? task_revision first)%Z) window
      && forallb (λ s, evidence_digest s == evidence_digest first) window
      && opt_gt (max_opt (consumed_tokens <$> window)) (min_opt (consumed_tokens <$> window))
  end.

Definition assess_progress `{!HashOrder} (policy : GovernancePolicy)
    (observations : list ProgressObservation) (acc : list GovernanceFinding) :
    list GovernanceFinding :=
  if (stagnation_window policy <? 2)%Z then acc
  else
    let by_task := group p_task_id observations in
    acc ++ (task_id ← hash_iter 2 (dom by_task);
      let window :=
        newest observed_at (stagnation_window policy) (default [] (by_task !! task_id)) in
      if (Z.of_nat (length window) =? stagnation_window policy)%Z && is_stagnant window
      then [StagnantProgress task_id (Z.of_nat (length window))] else []).

(** [window.windows(2).all(...)] *)
Fixpoint alternates (window : list HandoffObservation) : bool :=
  match window with
  | a :: (b :: _) as rest => (from a == to b) && (to a == from b) && alternates rest
  | _ => true
  end.

Definition assess_handoffs `{!HashOrder} (policy : GovernancePolicy)
    (observed : list HandoffObservation) (acc : list GovernanceFinding) :
    list GovernanceFinding :=
  if (handoff_ping_pong_window policy <? 2)%Z then acc
  else
    let by_task := group o_task_id observed in
    acc ++ (task_id ← hash_iter 3 (dom by_task);
      let window :=
        newest accepted_at (handoff_ping_pong_window policy) (default [] (by_task !! task_id)) in
      if (Z.of_nat (length window) =? handoff_ping_pong_window policy)%Z && alternates window
      then [HandoffPingPong task_id (Z.of_nat (length window))] else []).

Definition agent_limit (policy : GovernancePolicy) (snapshot : GovernanceSnapshot) :
    list GovernanceFinding :=
  let actual := Z.of_nat (length (Membership.participants (membership snapshot))) in
  if (max_agents policy <? actual)%Z then [AgentLimit actual (max_agents policy)] else [].

(** [assess] *)
Definition assess `{!HashOrder} (fuel : nat) (policy : GovernancePolicy)
    (snapshot : GovernanceSnapshot) : option GovernanceAssessment :=
  acc ← assess_topology fuel policy snapshot (agent_limit policy snapshot);
  let acc := assess_tasks policy snapshot acc in
  let acc := acc ++ (WaitCycle <$> wait_cycles (waits snapshot)) in
  let acc := assess_progress policy (progress snapshot) acc in
  let acc := assess_handoffs policy (handoffs snapshot) acc in
  Some {|
    moderator_instance_id :=
      Membership.moderator_instance_id (Membership.governance (membership snapshot));
    findings := acc;
  |}.

(** The unit tests of the source. *)
Definition wait_of (u v : string) : WaitDependency :=
  {| w_task_id := "task"; waiter := u; awaited := v |}.

Example wait_cycles_triangle :
  wait_cycles [wait_of "a" "b"; wait_of "b" "c"; wait_of "c" "a"] = [["a"; "b"; "c"]].
Proof. vm_compute. reflexivity. Qed.

Example progress_stagnant :
  assess_progress default_policy
    ((λ i, {| observation_id := "o"; p_task_id := "task"; p_agent_instance_id := "worker";
              task_revision := 2; consumed_tokens := 100 + i * 50;
              evidence_digest := Some "sha256:same"; observed_at := i |}) <$> [0; 1; 2]%Z) []
  = [StagnantProgress "task" 3].
Proof. vm_compute. reflexivity. Qed.

Example handoffs_alternate :
  let o from to at_ := {| o_task_id := "task"; from := from; to := to; accepted_at := at_ |} in
  assess_handoffs default_policy [o "a" "b" 0; o "b" "a" 1; o "a" "b" 2; o "b" "a" 3]%Z []
  = [HandoffPingPong "task" 4].
Proof. vm_compute. reflexivity. Qed.

(** * Ownership depth *)

Lemma children_of_own_edges t :
  children_of t = push_edges ∅ (Topology.own_edges (Topology.relations t)).
Proof.
  unfold children_of. generalize (∅ : adjacency).
  induction (Topology.relations t) as [|r rs IH]; intros adj; [done|].
  rewrite Topology.own_edges_cons. simpl. rewrite IH.
  destruct (decide (Topology.kind r = Topology.ParentOf)).
  - by rewrite bool_decide_eq_true_2, ?decide_True by done.
  - by rewrite bool_decide_eq_false_2, ?decide_False by done.
Qed.

Lemma edge_children_of t u v : edge (children_of t) u v ↔ Topology.owns t u v.
Proof. rewrite children_of_own_edges. apply Topology.owns_children. Qed.

(** The depth of an agent below [root], saturated like the counter. *)
Definition at_depth (children : adjacency) (root a : AgentInstanceId) (d : Z) : Prop :=
  ∃ n, nsteps (edge children) n root a ∧ d = Z.min (Z.of_nat n) u64_max.

Lemma saturating_depth n :
  saturating_add u64_max (Z.min (Z.of_nat n) u64_max) 1 = Z.min (Z.of_nat (S n)) u64_max.
Proof. unfold saturating_add. lia. Qed.

Lemma elem_of_pushed children agent (d : Z) (x : AgentInstanceId * Z) stack :
  x ∈ reverse ((λ child, (child, d)) <$> succs children agent) ++ stack ↔
  (edge children agent x.1 ∧ x.2 = d) ∨ x ∈ stack.
Proof.
  unfold edge. rewrite elem_of_app, elem_of_reverse, list_elem_of_fmap.
  destruct x. simpl. naive_solver.
Qed.

Lemma pushed_fst (d : Z) (l : list AgentInstanceId) : ((λ child, (child, d)) <$> l).*1 = l.
Proof. induction l as [|x l IH]; cbn; [done|]. f_equal. exact IH. Qed.

(** Whenever the loop ends, it ends with the depth of the deepest agent. *)
Lemma ownership_depth_spec fuel children root d :
  ownership_depth fuel children root = Some d →
  (∃ a, at_depth children root a d) ∧ ∀ a d', at_depth children root a d' → (d' ≤ d)%Z.
Proof.
  apply (loop_fuel_invariant _ (λ st,
    (∀ x, x ∈ st.1 → at_depth children root x.1 x.2) ∧
    (∃ a, at_depth children root a st.2) ∧
    (∀ n a, nsteps (edge children) n root a → (Z.min (Z.of_nat n) u64_max ≤ st.2)%Z ∨
       ∃ b k m, (b, Z.min (Z.of_nat k) u64_max) ∈ st.1 ∧
         nsteps (edge children) m b a ∧ n = k + m))
    (λ d, (∃ a, at_depth children root a d) ∧
       ∀ a d', at_depth children root a d' → (d' ≤ d)%Z)).
  - assert (at_depth children root root 0) by (exists 0; split; [constructor|done]).
    simpl. split_and!; [|by eauto|].
    + by intros x ->%list_elem_of_singleton.
    + intros n a Hn. right. exists root, 0, n. rewrite list_elem_of_singleton. done.
  - intros [[|[agent depth] stack] maximum] st' (Hstack & Hmax & Hcov); simpl in *; [done|].
    intros [= <-]. simpl. destruct (Hstack (agent, depth)) as (k & Hk & Hd); [left|].
    simpl in Hk, Hd. subst depth.
    split_and!.
    + intros x [[Hx ->]|Hx]%elem_of_pushed; [|apply Hstack; by right].
      exists (S k). split; [by apply nsteps_r with agent|]. apply saturating_depth.
    + destruct Hmax as [a Ha]. destruct (Z.max_spec maximum (Z.min (Z.of_nat k) u64_max))
        as [[_ ->]|[_ ->]]; [|by eauto]. exists agent, k. done.
    + intros n a Hn. destruct (Hcov n a Hn) as [?|(b & k' & m & Hb & Hm & ->)]; [left; lia|].
      apply elem_of_cons in Hb as [[= -> Heq]|Hb].
      * destruct Hm as [|m x y z Hxy Hyz]; [left; lia|]. right.
        exists y, (S k'), m. split_and!; [|done|lia].
        apply elem_of_pushed. left. simpl. split; [done|].
        by rewrite <- saturating_depth, Heq.
      * right. exists b, k', m. split_and!; [|done|done]. rewrite elem_of_app. by right.
  - intros [[|[agent depth] stack] maximum] r (Hstack & Hmax & Hcov); simpl in *; [|done].
    intros [= <-]. split; [done|]. intros a d' (n & Hn & ->).
    destruct (Hcov n a Hn) as [?|(b & k & m & Hb & _)]; [done|set_solver].
Qed.

(** Each node has one owner and the root none: every agent is pushed once. *)
Definition forest (children : adjacency) (root : AgentInstanceId) : Prop :=
  (∀ u u' v, edge children u v → edge children u' v → u = u') ∧
  (∀ u, NoDup (succs children u)) ∧
  (∀ u, ¬ edge children u root).

Lemma ownership_depth_enough (nodes : list AgentInstanceId) fuel children root :
  forest children root → root ∈ nodes → (∀ u v, edge children u v → v ∈ nodes) →
  length nodes < fuel → is_Some (ownership_depth fuel children root).
Proof.
  intros (Huniq & Hnd & Hroot) Hin Hedges Hfuel.
  set (I := λ (seen : list AgentInstanceId) (st : list (AgentInstanceId * Z) * Z),
    NoDup (st.1.*1 ++ seen) ∧ (∀ x, x ∈ st.1.*1 ++ seen → x ∈ nodes) ∧
    (∀ u v, edge children u v → v ∈ st.1.*1 ++ seen → u ∈ seen) ∧
    length nodes < length seen + fuel).
  assert (∃ seen, I seen ([(root, 0%Z)], 0%Z)) as [seen HI].
  { exists []. unfold I. simpl. split_and!; [repeat constructor; set_solver|set_solver| |lia].
    intros u v Huv ->%list_elem_of_singleton. by destruct (Hroot u). }
  unfold ownership_depth. clear Hfuel. revert HI.
  generalize ([(root, 0%Z)], 0%Z). revert seen. unfold I. clear I.
  induction fuel as [|fuel IH]; intros seen [stack maximum] (HN & Hsub & Hpar & Hlen); simpl in *.
  - assert (length seen ≤ length nodes); [|lia]. apply NoDup_app in HN as (_ & _ & HN).
    apply submseteq_length, NoDup_submseteq; set_solver.
  - destruct stack as [|[agent depth] stack]; [done|]. cbn [depth_step].
    assert (∀ v, edge children agent v → v ∉ agent :: stack.*1 ++ seen) as Hfresh.
    { intros v Hv Hvin. apply NoDup_cons in HN as [HN _]. apply HN.
      rewrite elem_of_app. right. by apply (Hpar agent v). }
    apply (IH (agent :: seen)). simpl. rewrite fmap_app, fmap_reverse, pushed_fst.
    split_and!; [| | |lia].
    + rewrite <- app_assoc. apply NoDup_app. split_and!.
      * rewrite reverse_Permutation. apply Hnd.
      * intros v Hv. rewrite elem_of_reverse in Hv. specialize (Hfresh v Hv). set_solver.
      * rewrite <- Permutation_middle. done.
    + intros v. rewrite !elem_of_app, elem_of_reverse, elem_of_cons.
      intros [[Hv|?]|[->|?]]; [by apply (Hedges agent)|apply Hsub; set_solver..].
    + intros u v Huv. rewrite !elem_of_app, elem_of_reverse, !elem_of_cons.
      intros [[Hv|?]|[->|?]].
      * left. by apply (Huniq u agent v).
      * right. apply (Hpar u v Huv). set_solver.
      * right. apply (Hpar u agent Huv). set_solver.
      * right. apply (Hpar u v Huv). set_solver.
Qed.

(** ** Governed topologies *)

Lemma own_edges_snd rs : (Topology.own_edges rs).*2 = Topology.owned rs.
Proof. unfold Topology.own_edges, Topology.owned. by rewrite <- list_fmap_compose. Qed.

Lemma governed_forest t m :
  Topology.governed t m →
  forest (children_of t) (Membership.moderator_instance_id (Membership.governance m)).
Proof.
  intros [_ _ He _]. split_and!.
  - intros u u' v. rewrite !edge_children_of. apply Topology.owner_unique, He.
  - intros u. rewrite children_of_own_edges, succs_push_edges. simpl.
    rewrite succs_empty. simpl. eapply sublist_NoDup; [apply He|].
    rewrite <- own_edges_snd. apply fmap_sublist, sublist_filter.
  - intros u. rewrite edge_children_of. intros Hu%Topology.owns_owned. by destruct He.
Qed.

(** On a governed topology the stack is empty after one iteration per
    relation and one for the moderator. *)
Lemma governed_depth fuel t m :
  Topology.governed t m → length (Topology.relations t) + 1 < fuel →
  is_Some (ownership_depth fuel (children_of t)
    (Membership.moderator_instance_id (Membership.governance m))).
Proof.
  intros Hg Hfuel. apply (ownership_depth_enough
    (Membership.moderator_instance_id (Membership.governance m)
       :: Topology.owned (Topology.relations t))).
  - by apply governed_forest.
  - left.
  - intros u v. rewrite edge_children_of. intros Hu%Topology.owns_owned. by right.
  - simpl. unfold Topology.owned. rewrite length_fmap.
    pose proof (length_filter (λ r, Topology.kind r = Topology.ParentOf) (Topology.relations t)).
    lia.
Qed.

Lemma assess_is_some `{!HashOrder} fuel policy s :
  Topology.governed (topology s) (membership s) →
  length (Topology.relations (topology s)) + 1 < fuel →
  is_Some (assess fuel policy s).
Proof.
  intros Hg Hfuel. unfold assess, assess_topology.
  destruct (governed_depth fuel _ _ Hg Hfuel) as [d Hd]. rewrite Hd. simpl. by eexists.
Qed.

(** A cycle below the moderator keeps the stack filled for ever. *)
Lemma ownership_depth_cycle fuel children root a :
  rtc (edge children) root a → tc (edge children) a a →
  ownership_depth fuel children root = None.
Proof.
  intros Hra Haa. unfold ownership_depth.
  assert (∀ b, rtc (edge children) b a → ∃ c, edge children b c ∧ rtc (edge children) c a)
    as Hnext.
  { intros b Hb. destruct Hb as [b|b c a Hbc Hca]; [|by exists c].
    inversion Haa as [? ? Hs|? y ? Hs Hy]; subst; [by exists b|].
    exists y. split; [done|]. by apply tc_rtc. }
  apply (loop_fuel_diverges _ (λ st, ∃ b d, (b, d) ∈ st.1 ∧ rtc (edge children) b a)).
  - exists root, 0%Z. simpl. split; [left|done].
  - intros [[|[agent depth] stack] maximum] (b & d & Hb & Hba); simpl in Hb; [set_solver|].
    eexists. split; [done|]. simpl. apply elem_of_cons in Hb as [[= <- <-]|Hb].
    + destruct (Hnext b Hba) as (c & Hbc & Hca).
      exists c, (saturating_add u64_max d 1). split; [|done].
      apply elem_of_pushed. by left.
    + exists b, d. split; [|done]. apply elem_of_pushed. by right.
Qed.

(** * Wait-for cycles *)

Definition waits_for (ws : list WaitDependency) (u v : AgentInstanceId) : Prop :=
  ∃ w, w ∈ ws ∧ waiter w = u ∧ awaited w = v.

(** Two agents that wait for each other, directly or not. *)
Definition mutual {A} (E : relation A) (u v : A) : Prop := rtc E u v ∧ rtc E v u.

(** A deadlock: the agents that wait for each other with some agent that
    waits for itself, in increasing order. *)
Definition is_cycle (E : relation AgentInstanceId) (c : list AgentInstanceId) : Prop :=
  NoDup c ∧ StronglySorted (λ a b, Is_true (string_le a b)) c ∧
  ∃ a, tc E a a ∧ ∀ v, v ∈ c ↔ mutual E a v.

Lemma mutual_sym {A} (E : relation A) u v : mutual E u v → mutual E v u.
Proof. unfold mutual. tauto. Qed.
Lemma mutual_trans {A} (E : relation A) u v w : mutual E u v → mutual E v w → mutual E u w.
Proof. intros [? ?] [? ?]. split; by etrans. Qed.
Lemma mutual_refl {A} (E : relation A) u : mutual E u u.
Proof. by split. Qed.

Lemma edge_add_wait adj w u v :
  edge (add_wait adj w) u v ↔ edge adj u v ∨ (u = waiter w ∧ v = awaited w).
Proof.
  rewrite <- edge_push_edge. unfold add_wait, edge. unfold succs at 1 3.
  destruct (decide (u = awaited w)) as [->|Hne].
  - by rewrite lookup_insert_eq.
  - by rewrite lookup_insert_ne.
Qed.

Lemma edge_wait_graph ws u v : edge (wait_graph ws) u v ↔ waits_for ws u v.
Proof.
  unfold wait_graph, waits_for.
  assert (∀ adj, edge (foldl add_wait adj ws) u v ↔
    edge adj u v ∨ ∃ w, w ∈ ws ∧ waiter w = u ∧ awaited w = v) as H.
  { induction ws as [|w ws IH]; intros adj; simpl; [set_solver|].
    rewrite IH, edge_add_wait. setoid_rewrite elem_of_cons. naive_solver. }
  rewrite H. split; [|by right]. intros [He|?]; [by apply edge_empty in He|done].
Qed.

Lemma dom_wait_graph ws u v :
  waits_for ws u v → u ∈ dom (wait_graph ws) ∧ v ∈ dom (wait_graph ws).
Proof.
  unfold wait_graph, waits_for. intros (w & Hw & <- & <-). generalize (∅ : adjacency).
  assert (∀ adj ws x, x ∈ dom adj → x ∈ dom (foldl add_wait adj ws)) as Hmono.
  { intros adj ws' x. revert adj. induction ws' as [|w' ws' IH]; intros adj Hx; simpl; [done|].
    apply IH. unfold add_wait, push_edge. set_solver. }
  induction ws as [|w' ws IH]; intros adj; [set_solver|]. simpl.
  apply elem_of_cons in Hw as [<-|Hw]; [|by apply IH].
  split; apply Hmono; unfold add_wait, push_edge; set_solver.
Qed.

Lemma foldl_push_targets reversed source targets :
  foldl (λ reversed target, push_edge reversed target source) reversed targets =
  push_edges reversed ((λ target, (target, source)) <$> targets).
Proof.
  unfold push_edges. revert reversed. induction targets as [|t ts IH]; intros; simpl; [done|].
  by rewrite IH.
Qed.

Lemma edge_reverse_graph `{!HashOrder} n adj u v : edge (reverse_graph n adj) v u ↔ edge adj u v.
Proof.
  unfold reverse_graph.
  assert (∀ sources reversed,
    edge (foldl (λ reversed source,
      foldl (λ reversed target, push_edge reversed target source) reversed (succs adj source))
      reversed sources) v u ↔ edge reversed v u ∨ (u ∈ sources ∧ edge adj u v)) as Hall.
  { induction sources as [|s sources IH]; intros reversed; simpl; [set_solver|].
    rewrite IH, foldl_push_targets, edge_push_edges, list_elem_of_fmap, elem_of_cons.
    unfold edge at 2 3 4. naive_solver. }
  rewrite Hall. assert (¬ edge (gset_to_gmap [] (dom adj)) v u) as Hno.
  { unfold edge, succs. rewrite lookup_gset_to_gmap. case_guard; simpl; set_solver. }
  rewrite elem_of_hash_iter, elem_of_dom. split; [naive_solver|]. intros He. right.
  split; [|done]. unfold edge, succs in He. by destruct (adj !! u) eqn:E; [eexists|set_solver].
Qed.

Lemma rtc_reverse {A} (E F : relation A) : (∀ u v, F v u ↔ E u v) → ∀ u v, rtc F v u ↔ rtc E u v.
Proof.
  intros Hrev u v. split.
  - induction 1 as [|x y z Hxy _ IH]; [done|]. apply rtc_r with y; [done|]. by apply Hrev.
  - induction 1 as [|x y z Hxy _ IH]; [done|]. apply rtc_r with y; [done|]. by apply Hrev.
Qed.

Lemma elem_of_component `{!HashOrder} n adj s v :
  v ∈ component_of n adj s ↔ mutual (edge adj) s v.
Proof.
  unfold component_of, reachable, mutual. rewrite elem_of_intersection, !search_reach.
  by rewrite (rtc_reverse (edge adj) (edge (reverse_graph n adj)))
    by (intros; apply edge_reverse_graph).
Qed.

(** The test of the source on a component. *)
Lemma self_or_larger `{!HashOrder} n adj s (component : gset AgentInstanceId) :
  (∀ v, v ∈ component ↔ mutual (edge adj) s v) →
  (1 <? length (hash_iter n component))%nat || bool_decide (s ∈ succs adj s) = true ↔
  tc (edge adj) s s.
Proof.
  intros Hc. rewrite orb_true_iff, Nat.ltb_lt, bool_decide_eq_true. split.
  - intros [Hlen|?]; [|by apply tc_once].
    assert (∃ v, v ∈ component ∧ v ≠ s) as (v & Hv & Hne).
    { pose proof (NoDup_hash_iter n component) as HN.
      pose proof (elem_of_hash_iter n component) as Hin.
      destruct (hash_iter n component) as [|x [|y l]]; simpl in Hlen; [lia..|].
      apply NoDup_cons in HN as [Hx _]. destruct (decide (x = s)) as [->|].
      - exists y. rewrite <- Hin. set_solver.
      - exists x. rewrite <- Hin. set_solver. }
    apply Hc in Hv as [Hsv Hvs]. apply rtc_tc in Hsv as [->|Hsv]; [done|].
    by eapply tc_rtc_r.
  - intros Hs. destruct (decide (s ∈ succs adj s)) as [?|Hself]; [by right|]. left.
    inversion Hs as [? ? H1|? y ? Hsy Hys]; subst; [done|].
    assert (y ∈ hash_iter n component).
    { apply elem_of_hash_iter, Hc. split; [by apply rtc_once|by apply tc_rtc]. }
    assert (s ∈ hash_iter n component) by apply elem_of_hash_iter, Hc, mutual_refl.
    assert (y ≠ s) by (intros ->; done).
    destruct (hash_iter n component) as [|x [|z l]]; simpl; [set_solver| |lia].
    set_solver.
Qed.

Lemma is_cycle_unique E c d a :
  is_cycle E c → is_cycle E d → a ∈ c → a ∈ d → c = d.
Proof.
  intros (Hc & Hcs & x & _ & Hcx) (Hd & Hds & y & _ & Hdy) Hac Had.
  apply (StronglySorted_unique (λ a b, Is_true (string_le a b))); [done..|].
  apply NoDup_Permutation; [done..|]. intros v. rewrite Hcx, Hdy.
  apply Hcx in Hac. apply Hdy in Had. split; intros Hv.
  - eauto using mutual_trans, mutual_sym.
  - eauto using mutual_trans, mutual_sym.
Qed.

Lemma sorted_component `{!HashOrder} n E (component : gset AgentInstanceId) s :
  (∀ v, v ∈ component ↔ mutual E s v) → tc E s s →
  is_cycle E (stable_sort string_le (hash_iter n component)).
Proof.
  intros Hc Hs. split_and!.
  - rewrite stable_sort_perm. apply NoDup_hash_iter.
  - apply (stable_sort_sorted string_le).
  - exists s. split; [done|]. intros v. by rewrite stable_sort_perm, elem_of_hash_iter.
Qed.

(** The loop invariant: [remaining] is a union of components and [cycles]
    lists the deadlocks outside of it. *)
Definition wait_inv (adj : adjacency) (st : scc_state) : Prop :=
  (∀ u v, u ∈ st.1.2 → mutual (edge adj) u v → v ∈ st.1.2) ∧
  (∀ c, c ∈ st.2 ↔ is_cycle (edge adj) c ∧ ∀ v, v ∈ c → v ∉ st.1.2) ∧
  NoDup st.2.

Lemma wait_step_cycles `{!HashOrder} n E (remaining component : gset AgentInstanceId)
    (cycles : list (list AgentInstanceId)) s :
  (∀ v, v ∈ component ↔ mutual E s v) → s ∈ remaining →
  (∀ u v, u ∈ remaining → mutual E u v → v ∈ remaining) →
  (∀ c, c ∈ cycles ↔ is_cycle E c ∧ ∀ v, v ∈ c → v ∉ remaining) →
  ∀ c : list AgentInstanceId, is_cycle E c ∧ (∀ v, v ∈ c → v ∉ remaining ∖ component) ↔
    c ∈ cycles ∨ (tc E s s ∧ c = stable_sort string_le (hash_iter n component)).
Proof.
  intros Hc Hs Hclosed Hcycles c. rewrite Hcycles. split.
  - intros [Hcyc Hdisj]. pose proof Hcyc as (_ & _ & a & Ha & Hac).
    destruct (decide (a ∈ component)) as [Hin|Hout].
    + right. apply Hc in Hin. assert (tc E s s) as Hss.
      { destruct Hin. eapply tc_rtc_r; [|done]. by eapply tc_rtc_l. }
      split; [done|]. apply (is_cycle_unique E _ _ a Hcyc); [by apply sorted_component with s| |].
      * apply Hac, mutual_refl.
      * by rewrite stable_sort_perm, elem_of_hash_iter, Hc.
    + left. split; [done|]. intros v Hv Hr. apply (Hdisj v Hv), elem_of_difference.
      split; [done|]. intros Hvc. apply Hout, Hc. apply Hc in Hvc. apply Hac in Hv.
      eauto using mutual_trans, mutual_sym.
  - intros [[Hcyc Hdisj]|[Hss ->]].
    + split; [done|]. intros v Hv. specialize (Hdisj v Hv). set_solver.
    + split; [by apply sorted_component with s|]. intros v.
      rewrite stable_sort_perm, elem_of_hash_iter. set_solver.
Qed.

Lemma wait_inv_step `{!HashOrder} adj st st' :
  wait_inv adj st → wait_step adj st = inl st' → wait_inv adj st'.
Proof.
  destruct st as [[n remaining] cycles]. unfold wait_inv, wait_step.
  cbn [fst snd]. intros (Hclosed & Hcycles & HN).
  destruct (hash_iter n remaining) as [|s l] eqn:E; [done|]. intros [= <-]. cbn [fst snd].
  assert (s ∈ remaining) as Hs by (apply (elem_of_hash_iter n); rewrite E; left).
  pose proof (λ v, elem_of_component (n + 1) adj s v) as Hc.
  pose proof (self_or_larger (n + 2) adj s _ Hc) as Htest.
  pose proof (wait_step_cycles (n + 2) (edge adj) remaining _ cycles s Hc Hs Hclosed Hcycles)
    as Hnew.
  destruct (_ || _) eqn:Eb; split_and!.
  - intros u v. rewrite !elem_of_difference. intros [Hu Hnu] Huv. split; [by eapply Hclosed|].
    rewrite Hc in *. eauto using mutual_trans, mutual_sym.
  - intros c. rewrite Hnew, elem_of_app, list_elem_of_singleton. intuition.
  - apply NoDup_app. split_and!; [done| |apply NoDup_singleton].
    intros c Hcin ->%list_elem_of_singleton. apply Hcycles in Hcin as [_ Hd].
    apply (Hd s); [|done]. rewrite stable_sort_perm, elem_of_hash_iter, Hc. apply mutual_refl.
  - intros u v. rewrite !elem_of_difference. intros [Hu Hnu] Huv. split; [by eapply Hclosed|].
    rewrite Hc in *. eauto using mutual_trans, mutual_sym.
  - intros c. rewrite Hnew. assert (¬ tc (edge adj) s s) by (by rewrite <- Htest). tauto.
  - done.
Qed.

Lemma mutual_dom ws u v :
  u ∈ dom (wait_graph ws) → mutual (edge (wait_graph ws)) u v → v ∈ dom (wait_graph ws).
Proof.
  intros Hu [_ Hvu]. destruct Hvu as [|v x u Hvx _]; [done|].
  apply edge_wait_graph in Hvx. by apply (dom_wait_graph ws v x).
Qed.

(** [wait_cycles] lists every deadlock once. *)
Lemma wait_cycles_spec `{!HashOrder} ws :
  NoDup (wait_cycles ws) ∧
  ∀ c, c ∈ wait_cycles ws ↔ is_cycle (waits_for ws) c.
Proof.
  unfold wait_cycles. apply (loop_invariant _ _ _ (wait_inv (wait_graph ws))
    (λ r, NoDup r ∧ ∀ c, c ∈ r ↔ is_cycle (waits_for ws) c)).
  - split_and!; cbn [fst snd]; [apply mutual_dom| |constructor].
    intros c. split; [set_solver|]. intros [(_ & _ & a & Ha & Hac) Hd]. exfalso.
    apply (Hd a); [apply Hac, mutual_refl|].
    assert (∃ b, edge (wait_graph ws) a b) as [b Hb]
      by (inversion Ha; subst; eauto).
    apply edge_wait_graph in Hb. by apply (dom_wait_graph ws a b).
  - intros st st'. apply wait_inv_step.
  - intros [[n remaining] cycles] r (_ & Hcycles & HN). unfold wait_step. cbn [fst snd] in *.
    destruct (hash_iter n remaining) as [|s l] eqn:E; [|done]. intros [= <-].
    assert (∀ v, v ∉ remaining) as Hempty.
    { intros v. rewrite <- (elem_of_hash_iter n), E. apply not_elem_of_nil. }
    split; [done|]. intros c. rewrite Hcycles. unfold is_cycle, mutual.
    assert (∀ u v, edge (wait_graph ws) u v ↔ waits_for ws u v) as Hedge
      by apply edge_wait_graph.
    pose proof (rtc_ext _ _ Hedge) as Hrtc. pose proof (tc_ext _ _ Hedge) as Htc.
    setoid_rewrite Htc. setoid_rewrite Hrtc. naive_solver.
Qed.

(** Every agent that waits for itself is in a deadlock. *)
Lemma cycle_exists ws i : tc (waits_for ws) i i → ∃ c, is_cycle (waits_for ws) c.
Proof.
  intros Hi. pose proof (λ v, elem_of_component (H:=elements_order) 0 (wait_graph ws) i v) as Hc.
  eexists. apply (sorted_component (H:=elements_order) 0 _ (component_of 0 (wait_graph ws) i) i);
    [|done].
  intros v. rewrite Hc. unfold mutual. by rewrite !(rtc_ext _ _ (edge_wait_graph ws)).
Qed.

(** * The assessment *)

(** ** Grouping and tasks *)

Lemma lookup_group {A} (key : A → TaskId) l t :
  default [] (group key l !! t) = filter (λ x, key x = t) l.
Proof.
  unfold group.
  assert (∀ m : gmap TaskId (list A), default [] (foldl (λ m x, <[key x := default [] (m !! key x) ++ [x]]> m) m l !! t)
    = default [] (m !! t) ++ filter (λ x, key x = t) l) as Hall.
  { induction l as [|x l IH]; intros m; simpl; [by rewrite app_nil_r|].
    rewrite IH, filter_cons. case_decide as Hk; subst.
    - rewrite lookup_insert_eq. simpl. by rewrite <- app_assoc.
    - by rewrite lookup_insert_ne. }
  apply Hall.
Qed.

Lemma dom_group {A} (key : A → TaskId) l t :
  t ∈ dom (group key l) ↔ ∃ x, x ∈ l ∧ key x = t.
Proof.
  unfold group.
  assert (∀ m : gmap TaskId (list A),
    t ∈ dom (foldl (λ m x, <[key x := default [] (m !! key x) ++ [x]]> m) m l) ↔
    t ∈ dom m ∨ ∃ x, x ∈ l ∧ key x = t) as Hall.
  { induction l as [|x l IH]; intros m; simpl; [set_solver|].
    rewrite IH, dom_insert_L. setoid_rewrite elem_of_cons. set_solver. }
  rewrite Hall. set_solver.
Qed.

Definition exhausted (task : Tasks.CoordinationTask) : Prop :=
  Tasks.TaskState.is_terminal (Tasks.state task) = false ∧
  (Tasks.token_budget task ≤ Tasks.consumed_tokens task)%Z.

(** The number of tasks an agent is working on. *)
Definition active_tasks (ts : list Tasks.CoordinationTask) (i : AgentInstanceId) : Z :=
  Z.of_nat (length (filter (λ task, is_active (Tasks.state task) = true ∧
    Tasks.assigned_to task = Some i) ts)).

Lemma active_not_terminal s : is_active s = true → Tasks.TaskState.is_terminal s = false.
Proof. by destruct s. Qed.

Lemma assess_task_findings ts acc :
  (foldl assess_task acc ts).1 =
    acc.1 ++ ((λ task, TokenBudgetExhausted (Tasks.task_id task)) <$>
      filter (λ task, Tasks.TaskState.is_terminal (Tasks.state task) = false ∧
        (Tasks.token_budget task ≤ Tasks.consumed_tokens task)%Z) ts).
Proof.
  revert acc. induction ts as [|task ts IH]; intros acc; simpl; [by rewrite app_nil_r|].
  rewrite IH, filter_cons. unfold assess_task.
  destruct (Tasks.TaskState.is_terminal (Tasks.state task)) eqn:Ht.
  { by rewrite decide_False by naive_solver. }
  destruct (Z.leb_spec (Tasks.token_budget task) (Tasks.consumed_tokens task)) as [Hle|Hlt].
  - rewrite decide_True by done. simpl. by rewrite <- app_assoc.
  - by rewrite decide_False by (intros [_ ?]; lia).
Qed.

Lemma assess_task_active ts acc i :
  default 0%Z ((foldl assess_task acc ts).2 !! i) = (default 0 (acc.2 !! i) + active_tasks ts i)%Z.
Proof.
  unfold active_tasks. revert acc.
  induction ts as [|task ts IH]; intros acc; cbn [foldl]; [by rewrite Z.add_0_r|].
  rewrite IH, filter_cons. unfold assess_task. case_decide as Hd.
  - destruct Hd as [Ha Hi]. rewrite (active_not_terminal _ Ha), Ha, Hi. cbn [snd].
    rewrite lookup_insert_eq. simpl. lia.
  - destruct (Tasks.TaskState.is_terminal (Tasks.state task)); [done|]. cbn [snd].
    destruct (is_active (Tasks.state task)); [|done].
    destruct (Tasks.assigned_to task) as [j|]; [|done].
    rewrite lookup_insert_ne; [done|]. intros ->. by apply Hd.
Qed.

(** The parts of an assessment. *)
Lemma assess_tasks_app `{!HashOrder} policy s acc :
  assess_tasks policy s acc = acc ++ assess_tasks policy s [].
Proof.
  unfold assess_tasks.
  pose proof (assess_task_findings (Tasks.tasks (tasks s)) (acc, ∅)) as H1.
  pose proof (assess_task_findings (Tasks.tasks (tasks s)) ([], ∅)) as H2.
  assert (∀ ts acc acc' m, (foldl assess_task (acc, m) ts).2 = (foldl assess_task (acc', m) ts).2)
    as H3.
  { induction ts as [|task ts IH]; intros; cbn [foldl]; [done|]. unfold assess_task at 2 4.
    destruct (Tasks.TaskState.is_terminal _); apply IH. }
  specialize (H3 (Tasks.tasks (tasks s)) acc [] ∅).
  destruct (foldl assess_task (acc, ∅) _), (foldl assess_task ([], ∅) _). simpl in *. subst.
  by rewrite <- app_assoc.
Qed.

Lemma assess_progress_app `{!HashOrder} policy obs acc :
  assess_progress policy obs acc = acc ++ assess_progress policy obs [].
Proof. unfold assess_progress. case_match; [by rewrite app_nil_r|done]. Qed.

Lemma assess_handoffs_app `{!HashOrder} policy obs acc :
  assess_handoffs policy obs acc = acc ++ assess_handoffs policy obs [].
Proof. unfold assess_handoffs. case_match; [by rewrite app_nil_r|done]. Qed.

Lemma assess_parts `{!HashOrder} fuel policy s a :
  assess fuel policy s = Some a ↔
  ∃ d, ownership_depth fuel (children_of (topology s))
         (Membership.moderator_instance_id (Membership.governance (membership s))) = Some d ∧
    a = {| moderator_instance_id :=
             Membership.moderator_instance_id (Membership.governance (membership s));
           findings := agent_limit policy s ++ fanout_findings policy (children_of (topology s))
             ++ depth_findings policy d ++ assess_tasks policy s []
             ++ (WaitCycle <$> wait_cycles (waits s)) ++ assess_progress policy (progress s) []
             ++ assess_handoffs policy (handoffs s) [] |}.
Proof.
  unfold assess, assess_topology. destruct (ownership_depth _ _ _) as [d|]; simpl.
  - rewrite assess_handoffs_app, assess_progress_app, assess_tasks_app, <- !app_assoc.
    naive_solver.
  - naive_solver.
Qed.

(** ** Independence of the hash order *)

Lemma hash_bind_perm (O1 O2 : HashOrder) n (s : gset string) {A} (f : string → list A) :
  (x ← @hash_iter O1 n s; f x) ≡ₚ (x ← @hash_iter O2 n s; f x).
Proof. apply bind_Permutation. by rewrite (@hash_iter_perm O1), (@hash_iter_perm O2). Qed.

Lemma wait_cycles_perm (O1 O2 : HashOrder) ws : @wait_cycles O1 ws ≡ₚ @wait_cycles O2 ws.
Proof.
  destruct (@wait_cycles_spec O1 ws) as [? H1], (@wait_cycles_spec O2 ws) as [? H2].
  apply NoDup_Permutation; [done..|]. intros c. by rewrite H1, H2.
Qed.

Lemma assess_tasks_perm (O1 O2 : HashOrder) policy s acc :
  @assess_tasks O1 policy s acc ≡ₚ @assess_tasks O2 policy s acc.
Proof. unfold assess_tasks. destruct (foldl _ _ _). apply Permutation_app; [done|]. apply hash_bind_perm. Qed.

Lemma assess_progress_perm (O1 O2 : HashOrder) policy obs acc :
  @assess_progress O1 policy obs acc ≡ₚ @assess_progress O2 policy obs acc.
Proof.
  unfold assess_progress. case_match; [done|]. apply Permutation_app; [done|].
  apply hash_bind_perm.
Qed.

Lemma assess_handoffs_perm (O1 O2 : HashOrder) policy obs acc :
  @assess_handoffs O1 policy obs acc ≡ₚ @assess_handoffs O2 policy obs acc.
Proof.
  unfold assess_handoffs. case_match; [done|]. apply Permutation_app; [done|].
  apply hash_bind_perm.
Qed.

(** Two runs on one snapshot report the same findings, in an order that
    depends on the iteration of the hash maps. *)
Lemma assess_perm (O1 O2 : HashOrder) fuel policy s a :
  @assess O1 fuel policy s = Some a →
  ∃ b, @assess O2 fuel policy s = Some b ∧
    moderator_instance_id b = moderator_instance_id a ∧ findings b ≡ₚ findings a.
Proof.
  rewrite (@assess_parts O1). intros (d & Hd & ->). eexists. split.
  { apply (@assess_parts O2). by exists d. }
  split; [done|]. simpl. repeat apply Permutation_app; try done.
  - apply hash_bind_perm.
  - apply assess_tasks_perm.
  - apply fmap_Permutation, wait_cycles_perm.
  - apply assess_progress_perm.
  - apply assess_handoffs_perm.
Qed.

Lemma hard_stop_perm fs gs :
  fs ≡ₚ gs → existsb (λ f, severity f == HardStop) fs = existsb (λ f, severity f == HardStop) gs.
Proof.
  intros Hp. apply eq_iff_eq_true. rewrite !existsb_exists.
  setoid_rewrite <- list_elem_of_In. by setoid_rewrite Hp.
Qed.

(** ** What stops the session *)

Definition children_count (t : Topology.SessionTopology) (i : AgentInstanceId) : Z :=
  Z.of_nat (length (filter (λ r, Topology.kind r = Topology.ParentOf ∧ Topology.source r = i)
    (Topology.relations t))).

(** The conditions of a hard stop. *)
Inductive overloaded (policy : GovernancePolicy) (s : GovernanceSnapshot) : Prop :=
  | over_agents :
      (max_agents policy < Z.of_nat (length (Membership.participants (membership s))))%Z →
      overloaded policy s
  | over_fanout i :
      (max_children_per_agent policy < children_count (topology s) i)%Z → overloaded policy s
  | over_depth n i :
      nsteps (Topology.owns (topology s)) n
        (Membership.moderator_instance_id (Membership.governance (membership s))) i →
      (max_ownership_depth policy < Z.of_nat n)%Z → overloaded policy s
  | over_tasks i :
      (max_active_tasks_per_agent policy < active_tasks (Tasks.tasks (tasks s)) i)%Z →
      overloaded policy s
  | over_budget task :
      task ∈ Tasks.tasks (tasks s) → exhausted task → overloaded policy s
  | over_cycle i : tc (waits_for (waits s)) i i → overloaded policy s.

(** The limits that are compared with counts are [usize]s. *)
Definition policy_ok (policy : GovernancePolicy) : Prop :=
  (0 ≤ max_children_per_agent policy)%Z ∧ (0 ≤ max_active_tasks_per_agent policy)%Z ∧
  (max_ownership_depth policy < u64_max)%Z.

Lemma existsb_app_or {A} (f : A → bool) l k : existsb f (l ++ k) = existsb f l || existsb f k.
Proof. apply existsb_app. Qed.

Lemma existsb_bind {A B} (f : B → bool) (g : A → list B) l :
  existsb f (x ← l; g x) = existsb (λ x, existsb f (g x)) l.
Proof. induction l as [|x l IH]; [done|]. rewrite bind_cons, existsb_app, IH. done. Qed.

Lemma existsb_elem {A} (f : A → bool) l : existsb f l = true ↔ ∃ x, x ∈ l ∧ f x = true.
Proof. rewrite existsb_exists. by setoid_rewrite list_elem_of_In. Qed.

Notation stops := (existsb (λ f, severity f == HardStop)).

Lemma succs_children_of t i :
  Z.of_nat (length (succs (children_of t) i)) = children_count t i.
Proof.
  rewrite children_of_own_edges, succs_push_edges, succs_empty. simpl. rewrite length_fmap.
  unfold children_count, Topology.own_edges. f_equal.
  induction (Topology.relations t) as [|r rs IH]; simpl; [done|]. rewrite !filter_cons.
  destruct (decide (Topology.kind r = Topology.ParentOf)) as [Hk|Hk]; cbn [fmap list_fmap].
  - rewrite filter_cons. simpl. destruct (decide (Topology.source r = i)) as [Hi|Hi].
    + rewrite decide_True by done. simpl. f_equal. apply IH.
    + rewrite decide_False by naive_solver. apply IH.
  - rewrite decide_False by naive_solver. apply IH.
Qed.

Lemma fanout_stops `{!HashOrder} policy t :
  (0 ≤ max_children_per_agent policy)%Z →
  stops (fanout_findings policy (children_of t)) = true ↔
  ∃ i, (max_children_per_agent policy < children_count t i)%Z.
Proof.
  intros Hpol. unfold fanout_findings. rewrite existsb_bind, existsb_elem.
  setoid_rewrite succs_children_of. setoid_rewrite elem_of_hash_iter. split.
  - intros (i & Hi & Hs). exists i.
    destruct (Z.ltb_spec (max_children_per_agent policy) (children_count t i)); done.
  - intros [i Hi]. exists i. split.
    + apply elem_of_dom. rewrite <- succs_children_of in Hi. unfold succs in Hi.
      destruct (children_of t !! i); [done|]. simpl in Hi. lia.
    + by apply Z.ltb_lt in Hi as ->.
Qed.

Lemma task_stops `{!HashOrder} policy s :
  (0 ≤ max_active_tasks_per_agent policy)%Z →
  stops (assess_tasks policy s []) = true ↔
  (∃ i, (max_active_tasks_per_agent policy < active_tasks (Tasks.tasks (tasks s)) i)%Z) ∨
  ∃ task, task ∈ Tasks.tasks (tasks s) ∧ exhausted task.
Proof.
  intros Hpol. unfold assess_tasks.
  pose proof (assess_task_findings (Tasks.tasks (tasks s)) ([], ∅)) as Hf.
  pose proof (assess_task_active (Tasks.tasks (tasks s)) ([], ∅)) as Ha.
  destruct (foldl assess_task ([], ∅) _) as [fs active]. simpl in Hf, Ha. subst fs.
  assert (∀ i, default 0%Z (active !! i) = active_tasks (Tasks.tasks (tasks s)) i) as Hn
    by (intros i; rewrite Ha; by rewrite lookup_empty).
  rewrite existsb_app, orb_true_iff. unfold concurrency_findings.
  rewrite existsb_bind, !existsb_elem. setoid_rewrite list_elem_of_fmap.
  setoid_rewrite list_elem_of_filter. setoid_rewrite elem_of_hash_iter. split.
  - intros [(f & (task & _ & He & Hin) & _)|(i & Hi & Hs)]; [right; by exists task|].
    left. exists i. rewrite Hn in Hs.
    by destruct (Z.ltb_spec (max_active_tasks_per_agent policy)
      (active_tasks (Tasks.tasks (tasks s)) i)).
  - intros [[i Hi]|(task & Hin & He)].
    + right. exists i. specialize (Hn i). split.
      * apply elem_of_dom. destruct (active !! i); [done|]. simpl in Hn. lia.
      * rewrite Hn. by apply Z.ltb_lt in Hi as ->.
    + left. eexists. split; [by exists task|done].
Qed.

Lemma stops_none fs :
  (∀ f, f ∈ fs → severity f = ModeratorReview) → stops fs = false.
Proof.
  intros Hf. apply not_true_is_false. rewrite existsb_elem. intros (f & Hin & Hs).
  rewrite (Hf f Hin) in Hs. done.
Qed.

(** The findings of a test on the newest [w] entries of each task. *)
Lemma elem_of_windowed `{!HashOrder} {A} (key : A → TaskId) (time : A → Z) (w : Z)
    (test : list A → bool) (mk : TaskId → Z → GovernanceFinding) n (l : list A) f :
  (2 ≤ w)%Z →
  f ∈ (t ← hash_iter n (dom (group key l));
       let window := newest time w (default [] (group key l !! t)) in
       if (Z.of_nat (length window) =? w)%Z && test window
       then [mk t (Z.of_nat (length window))] else []) ↔
  ∃ t, f = mk t w ∧ Z.of_nat (length (newest time w (filter (λ x, key x = t) l))) = w ∧
    test (newest time w (filter (λ x, key x = t) l)) = true.
Proof.
  intros Hw. rewrite list_elem_of_bind. cbv zeta. split.
  - intros (t & Hf & _). exists t. rewrite lookup_group in Hf.
    destruct (Z.eqb_spec (Z.of_nat (length (newest time w (filter (λ x, key x = t) l)))) w)
      as [Hl|]; [|set_solver].
    simpl in Hf. destruct (test _); [|set_solver].
    apply list_elem_of_singleton in Hf. by rewrite Hl in Hf.
  - intros (t & -> & Hl & Hs). exists t. rewrite lookup_group.
    rewrite (proj2 (Z.eqb_eq _ _) Hl), Hs, Hl. simpl.
    split; [left|]. apply elem_of_hash_iter, dom_group.
    destruct (filter (λ x, key x = t) l) as [|x xs] eqn:E.
    + assert (newest time w [] = []) as Hnil by apply take_nil.
      rewrite Hnil in Hl. simpl in Hl. lia.
    + exists x. assert (x ∈ filter (λ x, key x = t) l) as Hx by (rewrite E; left).
      apply list_elem_of_filter in Hx. naive_solver.
Qed.

(** The newest entries of a task, when there are enough of them. *)
Definition full_window {A} (key : A → TaskId) (time : A → Z) (w : Z) (l : list A) (t : TaskId)
    (ws : list A) : Prop :=
  ws = newest time w (filter (λ x, key x = t) l) ∧ Z.of_nat (length ws) = w.

Lemma elem_of_progress `{!HashOrder} policy obs f :
  f ∈ assess_progress policy obs [] ↔
  (2 ≤ stagnation_window policy)%Z ∧ ∃ t ws,
    f = StagnantProgress t (stagnation_window policy) ∧
    full_window p_task_id observed_at (stagnation_window policy) obs t ws ∧
    is_stagnant ws = true.
Proof.
  unfold assess_progress, full_window.
  destruct (Z.ltb_spec (stagnation_window policy) 2) as [Hw|Hw]; [split; [set_solver|lia]|].
  simpl. rewrite elem_of_windowed by done. naive_solver.
Qed.

Lemma elem_of_ping_pong `{!HashOrder} policy obs f :
  f ∈ assess_handoffs policy obs [] ↔
  (2 ≤ handoff_ping_pong_window policy)%Z ∧ ∃ t ws,
    f = HandoffPingPong t (handoff_ping_pong_window policy) ∧
    full_window o_task_id accepted_at (handoff_ping_pong_window policy) obs t ws ∧
    alternates ws = true.
Proof.
  unfold assess_handoffs, full_window.
  destruct (Z.ltb_spec (handoff_ping_pong_window policy) 2) as [Hw|Hw]; [split; [set_solver|lia]|].
  simpl. rewrite elem_of_windowed by done. naive_solver.
Qed.

Lemma depth_stops policy t root d fuel :
  (max_ownership_depth policy < u64_max)%Z →
  ownership_depth fuel (children_of t) root = Some d →
  stops (depth_findings policy d) = true ↔
  ∃ n i, nsteps (Topology.owns t) n root i ∧ (max_ownership_depth policy < Z.of_nat n)%Z.
Proof.
  intros Hpol Hd. apply ownership_depth_spec in Hd as [(a & n & Hn & ->) Hmax].
  assert (∀ n u v, nsteps (edge (children_of t)) n u v ↔ nsteps (Topology.owns t) n u v) as Hst
    by (intros; apply nsteps_ext, edge_children_of).
  unfold depth_findings. split.
  - destruct (Z.ltb_spec (max_ownership_depth policy) (Z.min (Z.of_nat n) u64_max)); [|done].
    intros _. exists n, a. split; [by apply Hst|lia].
  - intros (k & i & Hk & Hlt).
    assert (Z.min (Z.of_nat k) u64_max ≤ Z.min (Z.of_nat n) u64_max)%Z as Hle.
    { apply (Hmax i). exists k. split; [by apply Hst|done]. }
    assert (max_ownership_depth policy < Z.min (Z.of_nat n) u64_max)%Z as ->%Z.ltb_lt by lia.
    done.
Qed.

(** A hard stop is reported exactly when a limit is exceeded, a budget is
    exhausted or agents wait for each other in a cycle. *)
Lemma hard_stop_iff `{!HashOrder} fuel policy s a :
  policy_ok policy → assess fuel policy s = Some a →
  has_hard_stop a = true ↔ overloaded policy s.
Proof.
  intros (Hchildren & Htasks & Hdepth) Ha. apply assess_parts in Ha as (d & Hd & ->).
  unfold has_hard_stop. simpl. rewrite !existsb_app, !orb_true_iff.
  rewrite fanout_stops by done. rewrite (depth_stops _ _ _ _ _ Hdepth Hd).
  rewrite task_stops by done.
  rewrite (stops_none (assess_progress _ _ _))
    by (intros f (_ & t & ws & -> & _)%elem_of_progress; done).
  rewrite (stops_none (assess_handoffs _ _ _))
    by (intros f (_ & t & ws & -> & _)%elem_of_ping_pong; done).
  rewrite (existsb_elem _ (WaitCycle <$> _)). setoid_rewrite list_elem_of_fmap.
  pose proof (proj2 (wait_cycles_spec (waits s))) as Hcyc. unfold agent_limit. split.
  - intros [Hl|[[i ?]|[(n & i & ? & ?)|[[[i ?]|(t & ? & ?)]|[(f & (c & _ & Hc) & _)|[?|?]]]]]].
    + apply over_agents. by destruct (Z.ltb_spec (max_agents policy)
        (Z.of_nat (length (Membership.participants (membership s))))).
    + by eapply over_fanout.
    + by eapply over_depth.
    + by eapply over_tasks.
    + by eapply over_budget.
    + apply Hcyc in Hc as (_ & _ & i & Hi & _). by eapply over_cycle.
    + done.
    + done.
  - intros [Hl|i ?|n i ? ?|i ?|t ? ?|i Hi].
    + left. by apply Z.ltb_lt in Hl as ->.
    + right; left. by exists i.
    + do 2 right; left. by exists n, i.
    + do 3 right; left. left. by exists i.
    + do 3 right; left. right. by exists t.
    + do 4 right; left. destruct (cycle_exists (waits s) i Hi) as [c Hc].
      exists (WaitCycle c). split; [|done].
      exists c. split; [done|]. by apply Hcyc.
Qed.

(** ** What needs a review *)

Lemma max_opt_spec l :
  match max_opt l with
  | None => l = []
  | Some m => m ∈ l ∧ ∀ x, x ∈ l → (x ≤ m)%Z
  end.
Proof.
  induction l as [|x l IH]; simpl; [done|]. destruct (max_opt l) as [m|].
  - destruct IH as [Hm Hmax]. split.
    + destruct (Z.max_spec x m) as [[_ ->]|[_ ->]]; [by right|by left].
    + intros y [->|Hy]%elem_of_cons; [lia|]. specialize (Hmax y Hy). lia.
  - subst. split; [left|]. intros y ->%list_elem_of_singleton. lia.
Qed.

Lemma min_opt_spec l :
  match min_opt l with
  | None => l = []
  | Some m => m ∈ l ∧ ∀ x, x ∈ l → (m ≤ x)%Z
  end.
Proof.
  induction l as [|x l IH]; simpl; [done|]. destruct (min_opt l) as [m|].
  - destruct IH as [Hm Hmin]. split.
    + destruct (Z.min_spec x m) as [[_ ->]|[_ ->]]; [by left|by right].
    + intros y [->|Hy]%elem_of_cons; [lia|]. specialize (Hmin y Hy). lia.
  - subst. split; [left|]. intros y ->%list_elem_of_singleton. lia.
Qed.

(** Tokens were spent although neither the revision nor the evidence moved. *)
Definition no_progress (ws : list ProgressObservation) : Prop :=
  (∀ x y, x ∈ ws → y ∈ ws →
     task_revision x = task_revision y ∧ evidence_digest x = evidence_digest y) ∧
  ∃ x y, x ∈ ws ∧ y ∈ ws ∧ (consumed_tokens x < consumed_tokens y)%Z.

Lemma spread_iff l :
  opt_gt (max_opt l) (min_opt l) = true ↔ ∃ x y, x ∈ l ∧ y ∈ l ∧ (x < y)%Z.
Proof.
  pose proof (max_opt_spec l) as Hmax. pose proof (min_opt_spec l) as Hmin.
  destruct (max_opt l) as [M|], (min_opt l) as [m|]; simpl; subst; try set_solver.
  rewrite Z.ltb_lt. destruct Hmax as [HM Hmax], Hmin as [Hm Hmin]. split.
  - intros. by exists m, M.
  - intros (x & y & Hx & Hy & Hxy). specialize (Hmax y Hy). specialize (Hmin x Hx). lia.
Qed.

Lemma is_stagnant_iff ws : is_stagnant ws = true ↔ no_progress ws.
Proof.
  unfold no_progress. destruct ws as [|x0 ws]; [set_solver|].
  unfold is_stagnant. rewrite !andb_true_iff, !forallb_forall, spread_iff.
  setoid_rewrite <- list_elem_of_In. setoid_rewrite Z.eqb_eq.
  setoid_rewrite bool_decide_eq_true. setoid_rewrite list_elem_of_fmap. split.
  - intros [[Hr He] (? & ? & (x & -> & Hx) & (y & -> & Hy) & Hxy)].
    split; [|by exists x, y]. intros u v Hu Hv.
    rewrite (Hr u Hu), (Hr v Hv), (He u Hu), (He v Hv). done.
  - intros [Hall (x & y & Hx & Hy & Hxy)]. split_and!.
    + intros u Hu. apply Hall; [done|left].
    + intros u Hu. apply Hall; [done|left].
    + exists (consumed_tokens x), (consumed_tokens y). split_and!; [by exists x|by exists y|done].
Qed.

(** Each handoff undoes its neighbour. *)
Definition ping_pong (ws : list HandoffObservation) : Prop :=
  ∀ i a b, ws !! i = Some a → ws !! S i = Some b → from a = to b ∧ to a = from b.

Lemma alternates_iff ws : alternates ws = true ↔ ping_pong ws.
Proof.
  induction ws as [|a [|b ws] IH].
  - split; [|done]. intros _ i x y Hx. done.
  - split; [|done]. intros _ [|i] x y; simpl; [done|]. by rewrite lookup_nil.
  - change (alternates (a :: b :: ws)) with
      ((from a == to b) && (to a == from b) && alternates (b :: ws)).
    rewrite !andb_true_iff, !bool_decide_eq_true, IH. split.
    + intros [[? ?] Hrest] [|i] x y; [by intros [= <-] [= <-]|]. apply (Hrest i).
    + intros Hall. split; [by apply (Hall 0)|]. intros i x y. apply (Hall (S i)).
Qed.

(** Automatic progress is permitted exactly when nothing stops the session,
    no task burns tokens without progress and no task is handed to and fro. *)
Lemma permits_iff `{!HashOrder} fuel policy s a :
  policy_ok policy → assess fuel policy s = Some a →
  permits_automatic_progress a = true ↔
  ¬ overloaded policy s ∧
  ((2 ≤ stagnation_window policy)%Z → ∀ t ws,
     full_window p_task_id observed_at (stagnation_window policy) (progress s) t ws →
     ¬ no_progress ws) ∧
  ((2 ≤ handoff_ping_pong_window policy)%Z → ∀ t ws,
     full_window o_task_id accepted_at (handoff_ping_pong_window policy) (handoffs s) t ws →
     ¬ ping_pong ws).
Proof.
  intros Hpol Ha. rewrite <- (hard_stop_iff fuel policy s a Hpol Ha), not_true_iff_false.
  assert (∀ f, f ∈ findings a → severity f = ModeratorReview →
    f ∈ assess_progress policy (progress s) [] ∨ f ∈ assess_handoffs policy (handoffs s) []) as Hrev.
  { apply assess_parts in Ha as (d & _ & ->). simpl. intros f.
    unfold agent_limit, fanout_findings, depth_findings.
    pose proof (assess_task_findings (Tasks.tasks (tasks s)) ([], ∅)) as Hf.
    unfold assess_tasks, concurrency_findings. destruct (foldl _ _ _) as [fs active].
    simpl in Hf. subst fs. rewrite !elem_of_app, !list_elem_of_bind, !list_elem_of_fmap.
    intros Hin Hs. destruct Hin as [Hin|[(? & Hin & _)|[Hin|[[(? & -> & _)|(? & Hin & _)]|
      [(? & -> & _)|?]]]]]; try done; cbv zeta in Hin; case_match; set_solver. }
  assert (∀ f, f ∈ assess_progress policy (progress s) [] ∨
    f ∈ assess_handoffs policy (handoffs s) [] → f ∈ findings a) as Hin.
  { apply assess_parts in Ha as (d & _ & ->). simpl. set_solver. }
  setoid_rewrite elem_of_progress in Hrev. setoid_rewrite elem_of_ping_pong in Hrev.
  setoid_rewrite elem_of_progress in Hin. setoid_rewrite elem_of_ping_pong in Hin.
  setoid_rewrite <- is_stagnant_iff. setoid_rewrite <- alternates_iff.
  unfold permits_automatic_progress, has_hard_stop. split.
  - destruct (findings a) as [|f fs] eqn:E; [intros _|done]. split; [done|]. split.
    + intros Hw t ws Hfull Hs. apply (not_elem_of_nil (StagnantProgress t (stagnation_window policy))).
      apply Hin. left. split; [done|]. by exists t, ws.
    + intros Hw t ws Hfull Hs.
      apply (not_elem_of_nil (HandoffPingPong t (handoff_ping_pong_window policy))).
      apply Hin. right. split; [done|]. by exists t, ws.
  - intros (Hstop & Hprog & Hping). destruct (findings a) as [|f fs] eqn:E; [done|]. exfalso.
    simpl in Hstop. apply orb_false_iff in Hstop as [Hf _].
    destruct (Hrev f) as [(Hw & t & ws & -> & Hfull & Hs)|(Hw & t & ws & -> & Hfull & Hs)].
    + left.
    + destruct f; [done..|]. done.
    + by apply (Hprog Hw t ws).
    + by apply (Hping Hw t ws).
Qed.
