(* ===== verification/Arbitration.v ===== *)
(** Moderator arbitration: src/sylvander-runtime/src/coordination/arbitration.rs.

    A case records findings under the fenced governance of a session; a
    decision of the moderator closes it with a verdict.  [validate_verdict]
    keeps the [expect]s of the source as panics. *)

From S2P Require Import Prelude Instance.
From S2P Require Membership Tasks Governance.
From stdpp Require Import base tactics gmap strings list.
From Stdlib Require Import ZArith Lia.

Notation GovernanceCaseId := string (only parsing).

Module ArbitrationState.

Inductive ArbitrationState := Open | Decided | Applying | Applied | Expired.

#[global] Instance ArbitrationState_eq_dec : EqDecision ArbitrationState.
Proof. solve_decision. Defined.

End ArbitrationState.
Notation ArbitrationState := ArbitrationState.ArbitrationState.

Record ArbitrationCase := {
  case_id : GovernanceCaseId;
  session_id : SessionId;
  moderator_instance_id : AgentInstanceId;
  membership_revision : Z;
  topology_revision : Z;
  moderator_lease_epoch : Z;
  moderator_fencing_token : Z;
  findings : list Governance.GovernanceFinding;
  state : ArbitrationState;
  revision : Z;
  expires_at : Z;
  created_at : Z;
  updated_at : Z;
}.

#[global] Instance ArbitrationCase_eq_dec : EqDecision ArbitrationCase.
Proof. solve_decision. Defined.

Inductive ModeratorVerdict :=
  | ContinueWithConditions (conditions : list string)
  | Replan (task_ids : list TaskId)
  | Reassign (task_id : TaskId) (to_instance_id : AgentInstanceId)
  | SuspendAgents (agent_instance_ids : list AgentInstanceId)
  | CancelTasks (task_ids : list TaskId).

#[global] Instance ModeratorVerdict_eq_dec : EqDecision ModeratorVerdict.
Proof. solve_decision. Defined.

Record ModeratorDecision := {
  d_case_id : GovernanceCaseId;
  decided_by : AgentInstanceId;
  d_lease_epoch : Z;
  d_fencing_token : Z;
  verdict : ModeratorVerdict;
  rationale : string;
  evidence_refs : list string;
  decided_at : Z;
}.

#[global] Instance ModeratorDecision_eq_dec : EqDecision ModeratorDecision.
Proof. solve_decision. Defined.

Inductive ArbitrationError :=
  | NotNew
  | NoFindings
  | StaleGovernance
  | Expired
  | UnauthorizedModerator
  | MissingReasoning
  | HardStopCannotContinue
  | EmptyRemediation
  | UnknownTask
  | UnknownAgent
  | InapplicableVerdict.

#[global] Instance ArbitrationError_eq_dec : EqDecision ArbitrationError.
Proof. solve_decision. Defined.

Definition is_empty {A} (l : list A) : bool := match l with [] => true | _ => false end.

(** [ArbitrationCase::validate_new] *)
Definition validate_new (c : ArbitrationCase) (membership : Membership.SessionMembership)
    (current_topology_revision now : Z) : res unit ArbitrationError :=
  let g := Membership.governance membership in
  bail (state c != ArbitrationState.Open) || negb (revision c =? 0)%Z with NotNew;;
  bail is_empty (findings c) with NoFindings;;
  bail (session_id c != Membership.m_session_id membership)
       || (moderator_instance_id c != Membership.moderator_instance_id g)
       || negb (membership_revision c =? Membership.membership_revision g)%Z
       || negb (topology_revision c =? current_topology_revision)%Z
       || negb (moderator_lease_epoch c =? Membership.lease_epoch g)%Z
       || negb (moderator_fencing_token c =? Membership.fencing_token g)%Z
    with StaleGovernance;;
  bail (expires_at c <=? now)%Z with Expired;;
  Ok tt.

(** [ArbitrationCase::has_hard_stop] *)
Definition has_hard_stop (c : ArbitrationCase) : bool :=
  existsb (λ f, Governance.severity f == Governance.HardStop) (findings c).

Fixpoint find_task (ts : list Tasks.CoordinationTask) (t : TaskId) :
    option Tasks.CoordinationTask :=
  match ts with
  | [] => None
  | x :: ts => if Tasks.task_id x == t then Some x else find_task ts t
  end.

(** [selected.iter().any(|task_id| ... .expect(...) ...)] *)
Fixpoint any_task (ts : list Tasks.CoordinationTask) (invalid : Tasks.CoordinationTask → bool)
    (selected : list TaskId) : res bool ArbitrationError :=
  match selected with
  | [] => Ok false
  | t :: selected =>
      task <- expect (find_task ts t);;
      if invalid task then Ok true else any_task ts invalid selected
  end.

Definition replannable (task : Tasks.CoordinationTask) : bool :=
  match Tasks.state task with
  | Tasks.TaskState.Ready | Tasks.TaskState.Running | Tasks.TaskState.AwaitingReview => true
  | _ => false
  end.

Definition reassignable (task : Tasks.CoordinationTask) : bool :=
  match Tasks.state task with
  | Tasks.TaskState.Proposed | Tasks.TaskState.Ready | Tasks.TaskState.Blocked => true
  | _ => false
  end.

(** The arm shared by [Replan] and [CancelTasks]. *)
Definition check_selected (ts : list Tasks.CoordinationTask)
    (invalid : Tasks.CoordinationTask → bool) (selected : list TaskId) :
    res unit ArbitrationError :=
  let task_ids : gset TaskId := list_to_set (Tasks.task_id <$> ts) in
  bail is_empty selected || existsb (λ t, bool_decide (t ∉ task_ids)) selected with UnknownTask;;
  invalid_state <- any_task ts invalid selected;;
  bail_if invalid_state InapplicableVerdict.

Definition validate_verdict (v : ModeratorVerdict) (membership : Membership.SessionMembership)
    (tasks : Tasks.SessionTaskGraph) : res unit ArbitrationError :=
  let members := Membership.members membership in
  let task_ids : gset TaskId := list_to_set (Tasks.task_id <$> Tasks.tasks tasks) in
  match v with
  | ContinueWithConditions conditions =>
      bail_if (is_empty conditions || existsb trim_is_empty conditions) EmptyRemediation
  | Replan selected => check_selected (Tasks.tasks tasks) (λ t, negb (replannable t)) selected
  | CancelTasks selected =>
      check_selected (Tasks.tasks tasks) (λ t, Tasks.TaskState.is_terminal (Tasks.state t))
        selected
  | Reassign t to =>
      bail bool_decide (t ∉ task_ids) with UnknownTask;;
      bail bool_decide (to ∉ members) with UnknownAgent;;
      task <- expect (find_task (Tasks.tasks tasks) t);;
      recipient <- expect (Membership.find_participant (Membership.participants membership) to);;
      bail_if (negb (reassignable task) || (Tasks.assigned_to task == Some to)
               || (Tasks.max_handoffs task <=? Tasks.handoff_count task)%Z
               || InstanceState.is_terminal (ai_state recipient)
               || (ai_state recipient == InstanceState.ManualReconciliation))
        InapplicableVerdict
  | SuspendAgents agents =>
      bail is_empty agents || existsb (λ a, bool_decide (a ∉ members)) agents
           || existsb (λ a, a == Membership.moderator_instance_id
                                   (Membership.governance membership)) agents
        with UnknownAgent;;
      bail_if (existsb (λ a,
          match Membership.find_participant (Membership.participants membership) a with
          | None => true
          | Some p => negb (InstanceState.can_transition_to (ai_state p)
                              InstanceState.ManualReconciliation)
          end) agents)
        InapplicableVerdict
  end.

Definition is_continue (v : ModeratorVerdict) : bool :=
  match v with ContinueWithConditions _ => true | _ => false end.

(** [ModeratorDecision::validate] *)
Definition validate (d : ModeratorDecision) (c : ArbitrationCase)
    (membership : Membership.SessionMembership) (tasks : Tasks.SessionTaskGraph)
    (current_topology_revision now : Z) : res unit ArbitrationError :=
  let g := Membership.governance membership in
  bail (state c != ArbitrationState.Open) || (expires_at c <=? now)%Z with Expired;;
  bail (d_case_id d != case_id c) || (decided_by d != moderator_instance_id c)
       || (decided_by d != Membership.moderator_instance_id g) with UnauthorizedModerator;;
  bail negb (d_lease_epoch d =? moderator_lease_epoch c)%Z
       || negb (d_fencing_token d =? moderator_fencing_token c)%Z
       || negb (d_lease_epoch d =? Membership.lease_epoch g)%Z
       || negb (d_fencing_token d =? Membership.fencing_token g)%Z
       || negb (membership_revision c =? Membership.membership_revision g)%Z
       || negb (topology_revision c =? current_topology_revision)%Z
       || negb (Tasks.g_membership_revision tasks =? membership_revision c)%Z
       || (Tasks.g_session_id tasks != session_id c) with StaleGovernance;;
  bail trim_is_empty (rationale d) || existsb trim_is_empty (evidence_refs d)
    with MissingReasoning;;
  bail has_hard_stop c && is_continue (verdict d) with HardStopCannotContinue;;
  validate_verdict (verdict d) membership tasks.

(** * Specification *)

Definition first_task (ts : list Tasks.CoordinationTask) (t : TaskId)
    (P : Tasks.CoordinationTask → Prop) : Prop :=
  ∃ task, find_task ts t = Some task ∧ P task.

(** What each verdict may act on. *)
Definition applicable (v : ModeratorVerdict) (m : Membership.SessionMembership)
    (g : Tasks.SessionTaskGraph) : Prop :=
  match v with
  | ContinueWithConditions conditions =>
      conditions ≠ [] ∧ ∀ c, c ∈ conditions → trim_is_empty c = false
  | Replan selected =>
      selected ≠ [] ∧ ∀ t, t ∈ selected →
        first_task (Tasks.tasks g) t (λ task, replannable task = true)
  | CancelTasks selected =>
      selected ≠ [] ∧ ∀ t, t ∈ selected →
        first_task (Tasks.tasks g) t
          (λ task, Tasks.TaskState.is_terminal (Tasks.state task) = false)
  | Reassign t to =>
      first_task (Tasks.tasks g) t (λ task, reassignable task = true ∧
        Tasks.assigned_to task ≠ Some to ∧
        (Tasks.handoff_count task < Tasks.max_handoffs task)%Z) ∧
      ∃ p, Membership.find_participant (Membership.participants m) to = Some p ∧
        available (ai_state p) = true
  | SuspendAgents agents =>
      agents ≠ [] ∧ ∀ a, a ∈ agents →
        a ≠ Membership.moderator_instance_id (Membership.governance m) ∧
        ∃ p, Membership.find_participant (Membership.participants m) a = Some p ∧
          InstanceState.can_transition_to (ai_state p) InstanceState.ManualReconciliation = true
  end.

Lemma is_empty_false {A} (l : list A) : is_empty l = false ↔ l ≠ [].
Proof. by destruct l. Qed.

Lemma existsb_false {A} (f : A → bool) l : existsb f l = false ↔ ∀ x, x ∈ l → f x = false.
Proof.
  rewrite <- not_true_iff_false, existsb_exists. setoid_rewrite <- list_elem_of_In. split.
  - intros Hno x Hx. destruct (f x) eqn:E; [|done]. destruct Hno. by exists x.
  - intros Hall (x & Hx & E). rewrite (Hall x Hx) in E. done.
Qed.

Lemma find_task_known ts t :
  t ∈ (list_to_set (Tasks.task_id <$> ts) : gset TaskId) ↔ is_Some (find_task ts t).
Proof.
  rewrite elem_of_list_to_set. induction ts as [|x ts IH]; simpl.
  - split; [set_solver|]. intros [? ?]. done.
  - rewrite elem_of_cons, IH. case_bool_decide; subst; [split; eauto|]. naive_solver.
Qed.

Lemma find_participant_known m i :
  i ∈ Membership.members m ↔
    is_Some (Membership.find_participant (Membership.participants m) i).
Proof.
  unfold Membership.members. rewrite elem_of_list_to_set.
  induction (Membership.participants m) as [|x ps IH]; simpl.
  - split; [set_solver|]. intros [? ?]. done.
  - rewrite elem_of_cons, IH. case_bool_decide; subst; [split; eauto|]. naive_solver.
Qed.

Lemma any_task_spec ts invalid selected :
  (∀ t, t ∈ selected → is_Some (find_task ts t)) →
  ∃ b, any_task ts invalid selected = Ok b ∧
    (b = false ↔ ∀ t, t ∈ selected → first_task ts t (λ task, invalid task = false)).
Proof.
  unfold first_task. induction selected as [|t selected IH]; intros Hknown; simpl.
  - exists false. split; [done|]. set_solver.
  - destruct (Hknown t) as [task Ht]; [left|]. rewrite Ht. simpl.
    destruct IH as (b & -> & Hb); [set_solver|].
    setoid_rewrite elem_of_cons. destruct (invalid task) eqn:E.
    + exists true. split; [done|]. split; [done|]. intros Hall.
      destruct (Hall t) as (task' & ? & ?); [by left|]. congruence.
    + exists b. split; [done|]. rewrite Hb. naive_solver.
Qed.

Lemma unknown_guard (ts : list Tasks.CoordinationTask) (selected : list TaskId) :
  existsb (λ t, bool_decide (t ∉ (list_to_set (Tasks.task_id <$> ts) : gset TaskId))) selected
    = false ↔ ∀ t, t ∈ selected → is_Some (find_task ts t).
Proof.
  rewrite existsb_false. setoid_rewrite bool_decide_eq_false.
  setoid_rewrite <- find_task_known.
  split; intros Hall t Ht; [apply dec_stable|intros Hn]; by apply Hall in Ht.
Qed.

Lemma check_selected_ok ts invalid selected :
  check_selected ts invalid selected = Ok tt ↔
  selected ≠ [] ∧ ∀ t, t ∈ selected → first_task ts t (λ task, invalid task = false).
Proof.
  unfold check_selected. rewrite bail_ok, orb_false_iff, is_empty_false, unknown_guard.
  split.
  - intros [[? Hknown] Hok]. split; [done|].
    destruct (any_task_spec ts invalid selected Hknown) as (b & Hb & Hiff).
    rewrite Hb in Hok. simpl in Hok. apply Hiff. by apply bail_if_ok in Hok.
  - intros [? Hall].
    assert (∀ t, t ∈ selected → is_Some (find_task ts t)) as Hknown.
    { intros t Ht. destruct (Hall t Ht) as (task & ? & _). by exists task. }
    destruct (any_task_spec ts invalid selected Hknown) as (b & -> & Hiff).
    split; [done|]. simpl. by apply bail_if_ok, Hiff.
Qed.

Lemma check_selected_returns ts invalid selected : returns (check_selected ts invalid selected).
Proof.
  unfold check_selected. apply returns_bail. rewrite orb_false_iff, unknown_guard.
  intros [_ Hknown]. destruct (any_task_spec ts invalid selected Hknown) as (b & -> & _).
  simpl. auto with res_db.
Qed.

(** No [expect] of the check fails. *)
Lemma validate_verdict_returns v m g : returns (validate_verdict v m g).
Proof.
  destruct v as [cs|sel|t to|ags|sel]; simpl;
    [auto with res_db|apply check_selected_returns| |
     apply returns_bail; auto with res_db|apply check_selected_returns].
  apply returns_bail. intros Ht. apply bool_decide_eq_false, dec_stable, find_task_known in Ht.
  apply returns_bail. intros Hto.
  apply bool_decide_eq_false, dec_stable, find_participant_known in Hto.
  destruct Ht as [task ->], Hto as [p ->]. simpl. auto with res_db.
Qed.

Lemma validate_decision_returns d c m g topology now : returns (validate d c m g topology now).
Proof.
  unfold validate. do 5 (apply returns_bail; intros _). apply validate_verdict_returns.
Qed.

(** A verdict is accepted exactly when it applies to the current members and
    tasks. *)
Lemma validate_verdict_iff v m g : validate_verdict v m g = Ok tt ↔ applicable v m g.
Proof.
  destruct v as [cs|sel|t to|ags|sel]; simpl.
  - rewrite bail_if_ok, orb_false_iff, is_empty_false, existsb_false. done.
  - rewrite check_selected_ok. unfold first_task. by setoid_rewrite negb_false_iff.
  - rewrite !bail_ok, !bool_decide_eq_false, res_bind_ok. unfold first_task, available. split.
    + intros (_ & _ & task & Ht & Hok). apply res_bind_ok in Hok as (p & Hp & Hok).
      apply bail_if_ok in Hok. destruct_guards.
      destruct (find_task _ t); simplify_eq/=. destruct (Membership.find_participant _ to);
        simplify_eq/=. split; [by eexists|]. eexists. split; [done|].
      apply negb_true_iff, orb_false_iff. split; [done|]. by apply bool_decide_eq_false.
    + intros [(task & Ht & Hr & Ha & Hh) (p & Hp & Hav)].
      split; [rewrite find_task_known, Ht; intros []; by eexists|].
      split; [rewrite find_participant_known, Hp; intros []; by eexists|].
      exists task. rewrite Ht, Hp. split; [done|]. simpl. apply bail_if_ok.
      apply negb_true_iff, orb_false_iff in Hav as [Hav1 Hav2].
      rewrite Hr, Hav1, Hav2, !orb_false_r. simpl. rewrite orb_false_iff, Z.leb_gt.
      by rewrite bool_decide_eq_false.
  - rewrite bail_ok, bail_if_ok, !orb_false_iff, is_empty_false, !existsb_false.
    setoid_rewrite bool_decide_eq_false. split.
    + intros ([[Hne Hin] Hmod] & Hs). split; [done|]. intros a Ha. split; [by apply Hmod|].
      specialize (Hs a Ha). destruct (Membership.find_participant _ a) as [p|]; [|done].
      exists p. split; [done|]. by apply negb_false_iff.
    + intros [Hne Hall]. split_and!; [done| | |].
      * intros a Ha Hn. apply Hn, find_participant_known.
        destruct (Hall a Ha) as (_ & p & Hp & _). by exists p.
      * intros a Ha. by apply Hall.
      * intros a Ha. destruct (Hall a Ha) as (_ & p & -> & Hs). by rewrite Hs.
  - rewrite check_selected_ok. done.
Qed.

(** The case is open and its facts, the decision and the current governance
    agree. *)
Record decision_ok (d : ModeratorDecision) (c : ArbitrationCase)
    (m : Membership.SessionMembership) (g : Tasks.SessionTaskGraph) (topology now : Z) : Prop := {
  d_open : state c = ArbitrationState.Open ∧ (now < expires_at c)%Z;
  d_case : d_case_id d = case_id c;
  d_moderator : decided_by d = moderator_instance_id c ∧
    decided_by d = Membership.moderator_instance_id (Membership.governance m);
  d_fence : d_lease_epoch d = moderator_lease_epoch c ∧
    d_fencing_token d = moderator_fencing_token c ∧
    d_lease_epoch d = Membership.lease_epoch (Membership.governance m) ∧
    d_fencing_token d = Membership.fencing_token (Membership.governance m);
  d_revisions : membership_revision c =
      Membership.membership_revision (Membership.governance m) ∧
    topology_revision c = topology ∧ Tasks.g_membership_revision g = membership_revision c ∧
    Tasks.g_session_id g = session_id c;
  d_reasoned : trim_is_empty (rationale d) = false ∧
    ∀ e, e ∈ evidence_refs d → trim_is_empty e = false;
  d_hard_stop : has_hard_stop c = true → is_continue (verdict d) = false;
  d_verdict : applicable (verdict d) m g;
}.

Lemma validate_decision_iff d c m g topology now :
  validate d c m g topology now = Ok tt ↔ decision_ok d c m g topology now.
Proof.
  unfold validate.
  rewrite !bail_ok, !orb_false_iff, !negb_bool_decide_false, !negb_false_iff, !Z.eqb_eq, Z.leb_gt,
    existsb_false, validate_verdict_iff, andb_false_iff.
  split.
  - intros (? & ? & ? & ? & Hstop & ?). destruct_and!. split; try done.
    intros Ht. destruct Hstop; congruence.
  - intros []. destruct_and!. split_and!; try done.
    destruct (has_hard_stop c); [right; auto|by left].
Qed.

(** The facts of a new case agree with the governance it is opened under. *)
Record case_ok (c : ArbitrationCase) (m : Membership.SessionMembership) (topology now : Z) :
    Prop := {
  c_new : state c = ArbitrationState.Open ∧ revision c = 0%Z;
  c_findings : findings c ≠ [];
  c_governance : session_id c = Membership.m_session_id m ∧
    moderator_instance_id c = Membership.moderator_instance_id (Membership.governance m) ∧
    membership_revision c = Membership.membership_revision (Membership.governance m) ∧
    topology_revision c = topology ∧
    moderator_lease_epoch c = Membership.lease_epoch (Membership.governance m) ∧
    moderator_fencing_token c = Membership.fencing_token (Membership.governance m);
  c_live : (now < expires_at c)%Z;
}.

Lemma validate_case_iff c m topology now :
  validate_new c m topology now = Ok tt ↔ case_ok c m topology now.
Proof.
  unfold validate_new.
  rewrite !bail_ok, !orb_false_iff, !negb_bool_decide_false, !negb_false_iff, !Z.eqb_eq, Z.leb_gt,
    is_empty_false.
  split; [intros; destruct_and!; by split|]. intros []. naive_solver.
Qed.
