(* ===== verification/Store.v ===== *)
(** The coordination tables: src/sylvander-runtime/src/storage/coordination.rs
    over the schema of src/sylvander-runtime/src/storage/session/sqlite.rs.

    A table is a finite map from its primary key to its rows; a row is the
    record its loader decodes.  [SqliteSessionStore::run] holds the connection
    lock for a whole operation and every writer is one transaction, so an
    operation is a function from the tables to a value and new tables, and an
    error or a panic leaves the tables as they were ([run]).  The columns are
    64-bit signed: [checked_i64] guards every integer that is written, the
    [CHECK] constraints of the schema keep them non-negative, so the loaders'
    [checked_u64] succeed.  Texts of errors are not modelled. *)

From S2P Require Import Prelude Graph Instance.
From S2P Require Membership Topology Tasks Mailbox Handoff Governance Arbitration.
From stdpp Require Import base tactics gmap strings list sorting.
From Stdlib Require Import ZArith Lia.

Notation GovernanceCaseId := string (only parsing).
Notation CoordinationMessageId := string (only parsing).

(** [SessionStoreError]: the conflicts carry the expected and the actual
    revision. *)
Inductive SessionStoreError :=
  | Store
  | Invalid
  | MembershipConflict (expected actual : option Z)
  | TopologyConflict (expected actual : option Z)
  | TaskConflict (task_id : TaskId) (expected actual : option Z)
  | HandoffConflict (handoff_id : string) (expected actual : option Z)
  | MessageConflict (message_id : CoordinationMessageId) (expected actual : option Z)
  | NotFound (session_id : SessionId)
  | ConfigConflict (expected actual : Z).

#[global] Instance SessionStoreError_eq_dec : EqDecision SessionStoreError.
Proof. solve_decision. Defined.

(** * Rows *)

(** A row of [coordination_messages]: the message and its lease columns. *)
Record message_row := {
  msg : Mailbox.CoordinationMessage;
  lease_owner : option AgentInstanceId;
  row_lease_epoch : Z;
  row_lease_expires_at : option Z;
}.

#[global] Instance message_row_eq_dec : EqDecision message_row.
Proof. solve_decision. Defined.

(** A row of [coordination_waits] next to its key. *)
Record wait_row := { wait_task_revision : Z; wait_topology_revision : Z }.

#[global] Instance wait_row_eq_dec : EqDecision wait_row.
Proof. solve_decision. Defined.

Notation wait_key := (SessionId * TaskId * AgentInstanceId * AgentInstanceId)%type.

Record db := {
  governance : gmap SessionId Membership.SessionGovernance;
  instances : gmap AgentInstanceId AgentInstance;
  topologies : gmap SessionId Topology.SessionTopology;
  tasks : gmap TaskId Tasks.CoordinationTask;
  leases : gmap TaskId Tasks.TaskExecutionLease;
  dependencies : gset (SessionId * TaskId * TaskId);
  handoffs : gmap string Handoff.TaskHandoff;
  messages : gmap CoordinationMessageId message_row;
  turns : gmap CoordinationMessageId Mailbox.AgentMessageTurn;
  waits : gmap wait_key wait_row;
  progress : gmap string (SessionId * Governance.ProgressObservation);
  cases : gmap GovernanceCaseId Arbitration.ArbitrationCase;
  decisions : gmap GovernanceCaseId Arbitration.ModeratorDecision;
}.

Definition set_instances (d : db) x : db :=
  {| governance := governance d; instances := x; topologies := topologies d; tasks := tasks d;
     leases := leases d; dependencies := dependencies d; handoffs := handoffs d;
     messages := messages d; turns := turns d; waits := waits d; progress := progress d;
     cases := cases d; decisions := decisions d |}.
Definition set_topologies (d : db) x : db :=
  {| governance := governance d; instances := instances d; topologies := x; tasks := tasks d;
     leases := leases d; dependencies := dependencies d; handoffs := handoffs d;
     messages := messages d; turns := turns d; waits := waits d; progress := progress d;
     cases := cases d; decisions := decisions d |}.
Definition set_tasks (d : db) x : db :=
  {| governance := governance d; instances := instances d; topologies := topologies d;
     tasks := x; leases := leases d; dependencies := dependencies d; handoffs := handoffs d;
     messages := messages d; turns := turns d; waits := waits d; progress := progress d;
     cases := cases d; decisions := decisions d |}.
Definition set_leases (d : db) x : db :=
  {| governance := governance d; instances := instances d; topologies := topologies d;
     tasks := tasks d; leases := x; dependencies := dependencies d; handoffs := handoffs d;
     messages := messages d; turns := turns d; waits := waits d; progress := progress d;
     cases := cases d; decisions := decisions d |}.
Definition set_dependencies (d : db) x : db :=
  {| governance := governance d; instances := instances d; topologies := topologies d;
     tasks := tasks d; leases := leases d; dependencies := x; handoffs := handoffs d;
     messages := messages d; turns := turns d; waits := waits d; progress := progress d;
     cases := cases d; decisions := decisions d |}.
Definition set_handoffs (d : db) x : db :=
  {| governance := governance d; instances := instances d; topologies := topologies d;
     tasks := tasks d; leases := leases d; dependencies := dependencies d; handoffs := x;
     messages := messages d; turns := turns d; waits := waits d; progress := progress d;
     cases := cases d; decisions := decisions d |}.
Definition set_messages (d : db) x : db :=
  {| governance := governance d; instances := instances d; topologies := topologies d;
     tasks := tasks d; leases := leases d; dependencies := dependencies d;
     handoffs := handoffs d; messages := x; turns := turns d; waits := waits d;
     progress := progress d; cases := cases d; decisions := decisions d |}.
Definition set_turns (d : db) x : db :=
  {| governance := governance d; instances := instances d; topologies := topologies d;
     tasks := tasks d; leases := leases d; dependencies := dependencies d;
     handoffs := handoffs d; messages := messages d; turns := x; waits := waits d;
     progress := progress d; cases := cases d; decisions := decisions d |}.
Definition set_waits (d : db) x : db :=
  {| governance := governance d; instances := instances d; topologies := topologies d;
     tasks := tasks d; leases := leases d; dependencies := dependencies d;
     handoffs := handoffs d; messages := messages d; turns := turns d; waits := x;
     progress := progress d; cases := cases d; decisions := decisions d |}.
Definition set_progress (d : db) x : db :=
  {| governance := governance d; instances := instances d; topologies := topologies d;
     tasks := tasks d; leases := leases d; dependencies := dependencies d;
     handoffs := handoffs d; messages := messages d; turns := turns d; waits := waits d;
     progress := x; cases := cases d; decisions := decisions d |}.
Definition set_cases (d : db) x : db :=
  {| governance := governance d; instances := instances d; topologies := topologies d;
     tasks := tasks d; leases := leases d; dependencies := dependencies d;
     handoffs := handoffs d; messages := messages d; turns := turns d; waits := waits d;
     progress := progress d; cases := x; decisions := decisions d |}.
Definition set_decisions (d : db) x : db :=
  {| governance := governance d; instances := instances d; topologies := topologies d;
     tasks := tasks d; leases := leases d; dependencies := dependencies d;
     handoffs := handoffs d; messages := messages d; turns := turns d; waits := waits d;
     progress := progress d; cases := cases d; decisions := x |}.

(** * Transactions *)

(** The outcome of a transaction. *)
Notation tx A := (res (A * db) SessionStoreError).

(** [SqliteSessionStore::run]: commits on [Ok]; an [Err] drops the
    transaction, a panic becomes a [Store] error of the blocking task. *)
Definition run {D A} (d : D) (c : res (A * D) SessionStoreError) : res A SessionStoreError * D :=
  match c with
  | Ok (a, d') => (Ok a, d')
  | Err e => (Err e, d)
  | Panic => (Err Store, d)
  | Diverge => (Diverge, d)
  end.

(** [checked_i64] *)
Definition checked_i64 (x : Z) : res Z SessionStoreError :=
  if (x <=? i64_max)%Z then Ok x else Err Invalid.
(** [checked_u64], [checked_u32] and [checked_u16] of a column. *)
Definition checked_u64 (x : Z) : res Z SessionStoreError :=
  if (0 <=? x)%Z then Ok x else Err Store.
Definition checked_u32 (x : Z) : res Z SessionStoreError :=
  if (0 <=? x)%Z && (x <=? u32_max)%Z then Ok x else Err Store.
Definition checked_u16 (x : Z) : res Z SessionStoreError :=
  if (0 <=? x)%Z && (x <=? u16_max)%Z then Ok x else Err Store.

(** [revision.checked_add(1).ok_or_else(...)] *)
Definition next_u64 (x : Z) : res Z SessionStoreError :=
  ok_or (checked_add u64_max x 1) Invalid.
Definition next_u32 (x : Z) : res Z SessionStoreError :=
  ok_or (checked_add u32_max x 1) Invalid.

(** [.map_err(|error| SessionStoreError::Invalid(error.to_string()))?] *)
Definition invalid {A E} (c : res A E) : res A SessionStoreError := map_err (λ _, Invalid) c.

(** A foreign key to [session_agent_instances(session_id, instance_id)]. *)
Definition has_instance (d : db) (session : SessionId) (i : AgentInstanceId) : bool :=
  match instances d !! i with
  | Some p => ai_session_id p == session
  | None => false
  end.

Definition membership_revision_of (d : db) (session : SessionId) : option Z :=
  Membership.membership_revision <$> governance d !! session.
Definition topology_revision_of (d : db) (session : SessionId) : option Z :=
  Topology.topology_revision <$> topologies d !! session.

(** * Encodings of the state columns *)

Definition encode_task_state (s : Tasks.CoordinationTaskState) : string :=
  match s with
  | Tasks.TaskState.Proposed => "proposed"
  | Tasks.TaskState.Ready => "ready"
  | Tasks.TaskState.Running => "running"
  | Tasks.TaskState.Blocked => "blocked"
  | Tasks.TaskState.AwaitingReview => "awaiting_review"
  | Tasks.TaskState.Completed => "completed"
  | Tasks.TaskState.Failed => "failed"
  | Tasks.TaskState.Cancelled => "cancelled"
  end.

Definition decode_task_state (s : string) : res Tasks.CoordinationTaskState SessionStoreError :=
  if s == "proposed" then Ok Tasks.TaskState.Proposed
  else if s == "ready" then Ok Tasks.TaskState.Ready
  else if s == "running" then Ok Tasks.TaskState.Running
  else if s == "blocked" then Ok Tasks.TaskState.Blocked
  else if s == "awaiting_review" then Ok Tasks.TaskState.AwaitingReview
  else if s == "completed" then Ok Tasks.TaskState.Completed
  else if s == "failed" then Ok Tasks.TaskState.Failed
  else if s == "cancelled" then Ok Tasks.TaskState.Cancelled
  else Err Store.

Definition encode_message_kind (k : Mailbox.CoordinationMessageKind) : string :=
  match k with
  | Mailbox.Task => "task"
  | Mailbox.Progress => "progress"
  | Mailbox.Evidence => "evidence"
  | Mailbox.Question => "question"
  | Mailbox.Decision => "decision"
  | Mailbox.Control => "control"
  end.

Definition decode_message_kind (s : string) :
    res Mailbox.CoordinationMessageKind SessionStoreError :=
  if s == "task" then Ok Mailbox.Task
  else if s == "progress" then Ok Mailbox.Progress
  else if s == "evidence" then Ok Mailbox.Evidence
  else if s == "question" then Ok Mailbox.Question
  else if s == "decision" then Ok Mailbox.Decision
  else if s == "control" then Ok Mailbox.Control
  else Err Store.

Definition encode_message_state (s : Mailbox.MessageDeliveryState) : string :=
  match s with
  | Mailbox.Delivery.Pending => "pending"
  | Mailbox.Delivery.Claimed => "claimed"
  | Mailbox.Delivery.Delivered => "delivered"
  | Mailbox.Delivery.Acknowledged => "acknowledged"
  | Mailbox.Delivery.Expired => "expired"
  | Mailbox.Delivery.DeadLetter => "dead_letter"
  end.

Definition decode_message_state (s : string) :
    res Mailbox.MessageDeliveryState SessionStoreError :=
  if s == "pending" then Ok Mailbox.Delivery.Pending
  else if s == "claimed" then Ok Mailbox.Delivery.Claimed
  else if s == "delivered" then Ok Mailbox.Delivery.Delivered
  else if s == "acknowledged" then Ok Mailbox.Delivery.Acknowledged
  else if s == "expired" then Ok Mailbox.Delivery.Expired
  else if s == "dead_letter" then Ok Mailbox.Delivery.DeadLetter
  else Err Store.

Definition encode_handoff_state (s : Handoff.HandoffState) : string :=
  match s with
  | Handoff.State.Proposed => "proposed"
  | Handoff.State.AwaitingArbitration => "awaiting_arbitration"
  | Handoff.State.Accepted => "accepted"
  | Handoff.State.Rejected => "rejected"
  | Handoff.State.Expired => "expired"
  | Handoff.State.Cancelled => "cancelled"
  end.

Definition decode_handoff_state (s : string) : res Handoff.HandoffState SessionStoreError :=
  if s == "proposed" then Ok Handoff.State.Proposed
  else if s == "awaiting_arbitration" then Ok Handoff.State.AwaitingArbitration
  else if s == "accepted" then Ok Handoff.State.Accepted
  else if s == "rejected" then Ok Handoff.State.Rejected
  else if s == "expired" then Ok Handoff.State.Expired
  else if s == "cancelled" then Ok Handoff.State.Cancelled
  else Err Store.

Definition encode_relation_kind (k : Topology.AgentRelationKind) : string :=
  match k with
  | Topology.ParentOf => "parent_of"
  | Topology.Peer => "peer"
  | Topology.Reviews => "reviews"
  end.

Definition decode_relation_kind (s : string) :
    res Topology.AgentRelationKind SessionStoreError :=
  if s == "parent_of" then Ok Topology.ParentOf
  else if s == "peer" then Ok Topology.Peer
  else if s == "reviews" then Ok Topology.Reviews
  else Err Store.

Definition decode_arbitration_state (s : string) :
    res Arbitration.ArbitrationState SessionStoreError :=
  if s == "open" then Ok Arbitration.ArbitrationState.Open
  else if s == "decided" then Ok Arbitration.ArbitrationState.Decided
  else if s == "applying" then Ok Arbitration.ArbitrationState.Applying
  else if s == "applied" then Ok Arbitration.ArbitrationState.Applied
  else if s == "expired" then Ok Arbitration.ArbitrationState.Expired
  else Err Store.

(** What is written is read back. *)
Lemma decode_encode_states :
  (∀ s, decode_task_state (encode_task_state s) = Ok s) ∧
  (∀ k, decode_message_kind (encode_message_kind k) = Ok k) ∧
  (∀ s, decode_message_state (encode_message_state s) = Ok s) ∧
  (∀ s, decode_handoff_state (encode_handoff_state s) = Ok s) ∧
  (∀ k, decode_relation_kind (encode_relation_kind k) = Ok k).
Proof. split_and!; intros []; reflexivity. Qed.

Ltac decode_cases H :=
  repeat match type of H with
  | (if ?s == ?lit then _ else _) = Ok _ =>
      destruct (bool_decide_reflect (s = lit)) as [->|?]; [by injection H as <-|]
  end; try discriminate H.

(** What is read was written: no two texts stand for one state. *)
Lemma encode_decode_states s :
  (∀ x, decode_task_state s = Ok x → encode_task_state x = s) ∧
  (∀ x, decode_message_kind s = Ok x → encode_message_kind x = s) ∧
  (∀ x, decode_message_state s = Ok x → encode_message_state x = s) ∧
  (∀ x, decode_handoff_state s = Ok x → encode_handoff_state x = s) ∧
  (∀ x, decode_relation_kind s = Ok x → encode_relation_kind x = s).
Proof.
  unfold decode_task_state, decode_message_kind, decode_message_state, decode_handoff_state,
    decode_relation_kind.
  split_and!; intros x Hx; decode_cases Hx.
Qed.

Lemma checked_i64_ok x y : checked_i64 x = Ok y ↔ y = x ∧ (x ≤ i64_max)%Z.
Proof. unfold checked_i64. destruct (Z.leb_spec x i64_max); naive_solver lia. Qed.

Lemma checked_u64_ok x y : checked_u64 x = Ok y ↔ y = x ∧ (0 ≤ x)%Z.
Proof. unfold checked_u64. destruct (Z.leb_spec 0 x); naive_solver lia. Qed.

Lemma checked_u32_ok x y : checked_u32 x = Ok y ↔ y = x ∧ (0 ≤ x ≤ u32_max)%Z.
Proof.
  unfold checked_u32. destruct (Z.leb_spec 0 x), (Z.leb_spec x u32_max); naive_solver lia.
Qed.

Lemma next_u64_ok x y : next_u64 x = Ok y ↔ y = (x + 1)%Z ∧ (x < u64_max)%Z.
Proof. unfold next_u64. rewrite ok_or_ok, checked_add_some. naive_solver lia. Qed.

Lemma next_u32_ok x y : next_u32 x = Ok y ↔ y = (x + 1)%Z ∧ (x < u32_max)%Z.
Proof. unfold next_u32. rewrite ok_or_ok, checked_add_some. naive_solver lia. Qed.

Lemma invalid_ok {A E} (c : res A E) a : invalid c = Ok a ↔ c = Ok a.
Proof. apply map_err_ok. Qed.

(** A failed operation leaves the tables as they were; a committed one
    returned the new tables. *)
Lemma run_cases {D A} (d : D) (c : res (A * D) SessionStoreError) : (run d c).2 = d ∨ ∃ a, c = Ok (a, (run d c).2).
Proof. destruct c as [[a d']| | |]; simpl; eauto. Qed.

Lemma run_error {D A} (d : D) (c : res (A * D) SessionStoreError) e d' : run d c = (Err e, d') → d' = d.
Proof. destruct c as [[a d1]| | |]; simpl; congruence. Qed.
