(* ===== verification/StoreTasks.v ===== *)
(** Durable tasks and their execution leases: the task operations of
    [CoordinationStore for SqliteSessionStore] in
    src/sylvander-runtime/src/storage/coordination.rs.

    A lease is the right to finish a running task; it is fenced by an epoch
    and a token that [claim_task] draws at random ([fencing_token] here). *)

From S2P Require Import Prelude Graph Instance Store.
From S2P Require Membership Topology Tasks.
From stdpp Require Import base tactics gmap strings list sorting relations.
From Stdlib Require Import ZArith Lia.

Import Tasks.
Import TaskState.

(** The columns an operation may change. *)
Definition put_task (t : CoordinationTask) (assigned : option AgentInstanceId)
    (s : CoordinationTaskState) (consumed handoffs rev now : Z) : CoordinationTask := {|
  task_id := task_id t;
  session_id := session_id t;
  membership_revision := membership_revision t;
  parent_task_id := parent_task_id t;
  created_by := created_by t;
  assigned_to := assigned;
  objective := objective t;
  state := s;
  token_budget := token_budget t;
  consumed_tokens := consumed;
  max_handoffs := max_handoffs t;
  handoff_count := handoffs;
  revision := rev;
  created_at := created_at t;
  updated_at := now;
|}.

Definition load_task (d : db) (id : TaskId) : option CoordinationTask := Store.tasks d !! id.
Definition load_task_lease (d : db) (id : TaskId) : option TaskExecutionLease := leases d !! id.

(** [UPDATE coordination_tasks SET ... WHERE task_id=? AND ...]: the number of
    changed rows and the tables. *)
Definition update_tasks (d : db) (id : TaskId) (guard : CoordinationTask → bool)
    (f : CoordinationTask → CoordinationTask) : Z * db :=
  match Store.tasks d !! id with
  | Some t => if guard t then (1%Z, set_tasks d (<[id := f t]> (Store.tasks d))) else (0%Z, d)
  | None => (0%Z, d)
  end.

(** [create_task] *)
Definition create_task (d : db) (task : CoordinationTask) : tx unit :=
  bail negb (revision task =? 0)%Z || trim_is_empty (objective task)
       || (token_budget task =? 0)%Z || (token_budget task <? consumed_tokens task)%Z
       || (max_handoffs task <? handoff_count task)%Z with Invalid;;
  match load_task d (task_id task) with
  | Some t => Err (TaskConflict (task_id task) None (Some (revision t)))
  | None =>
      bail membership_revision_of d (session_id task) != Some (membership_revision task)
        with Invalid;;
      bail negb (has_instance d (session_id task) (created_by task))
           || negb (has_instance d (session_id task)
                      (default (created_by task) (assigned_to task))) with Invalid;;
      _ <- checked_i64 (membership_revision task);;
      _ <- checked_i64 (token_budget task);;
      _ <- checked_i64 (consumed_tokens task);;
      bail match parent_task_id task with
           | Some parent => bool_decide (Store.tasks d !! parent = None) && (parent != task_id task)
           | None => false
           end with Store;;
      Ok (tt, set_tasks d (<[task_id task := task]> (Store.tasks d)))
  end.

(** The guard of [update_task] on the columns it may not change. *)
Definition update_violation (task current : CoordinationTask) (next_revision : Z) : bool :=
  negb (revision task =? next_revision)%Z
  || (session_id task != session_id current)
  || negb (membership_revision task =? membership_revision current)%Z
  || (parent_task_id task != parent_task_id current)
  || (created_by task != created_by current)
  || (assigned_to task != assigned_to current)
  || (objective task != objective current)
  || negb (token_budget task =? token_budget current)%Z
  || negb (max_handoffs task =? max_handoffs current)%Z
  || negb (handoff_count task =? handoff_count current)%Z
  || negb (created_at task =? created_at current)%Z
  || (updated_at task <? updated_at current)%Z
  || (consumed_tokens task <? consumed_tokens current)%Z
  || (token_budget task <? consumed_tokens task)%Z
  || negb (can_transition_to (state current) (state task)).

(** [update_task] *)
Definition update_task (d : db) (task : CoordinationTask) (expected_revision : Z) : tx unit :=
  let conflict actual := TaskConflict (task_id task) (Some expected_revision) actual in
  current <- ok_or (load_task d (task_id task)) (conflict None);;
  bail negb (revision current =? expected_revision)%Z with conflict (Some (revision current));;
  next_revision <- next_u64 expected_revision;;
  bail update_violation task current next_revision with Invalid;;
  durable <- ok_or (membership_revision_of d (session_id task)) Store;;
  bail negb (durable =? membership_revision task)%Z with Invalid;;
  _ <- checked_i64 (consumed_tokens task);;
  _ <- checked_i64 (revision task);;
  _ <- checked_i64 expected_revision;;
  let '(changed, d') := update_tasks d (task_id task)
    (λ t, (revision t =? expected_revision)%Z)
    (λ t, put_task t (assigned_to t) (state task) (consumed_tokens task) (handoff_count t)
            (revision task) (updated_at task)) in
  bail negb (changed =? 1)%Z with conflict None;;
  Ok (tt, d').

(** [validate_task_lease_seconds] *)
Definition validate_task_lease_seconds (lease_seconds : Z) : res unit SessionStoreError :=
  bail_if (negb ((1 <=? lease_seconds)%Z && (lease_seconds <=? MAX_TASK_LEASE_SECONDS)%Z)) Invalid.

(** [now.checked_add(i64::try_from(lease_seconds)?)] *)
Definition lease_deadline (now lease_seconds : Z) : res Z SessionStoreError :=
  lease_delta <- ok_or (i64_of_u64 lease_seconds) Invalid;;
  ok_or (checked_add_i64 now lease_delta) Invalid.

Definition claimable (task : CoordinationTask) (assignee : AgentInstanceId) : bool :=
  (assigned_to task == Some assignee)
  && match state task with Ready | Running => true | _ => false end.

(** A claim of a ready task makes it running. *)
Definition start_task (d : db) (task : CoordinationTask) (now : Z) : tx CoordinationTask :=
  if state task == Ready then
    next_revision <- next_u64 (revision task);;
    _ <- checked_i64 next_revision;;
    _ <- checked_i64 (revision task);;
    let '(_, d') := update_tasks d (task_id task)
      (λ t, (revision t =? revision task)%Z && (state t == Ready))
      (λ t, put_task t (assigned_to t) Running (consumed_tokens t) (handoff_count t)
              next_revision now) in
    Ok (put_task task (assigned_to task) Running (consumed_tokens task) (handoff_count task)
          next_revision now, d')
  else Ok (task, d).

(** The upsert of the lease. *)
Definition insert_lease (d : db) (lease : TaskExecutionLease) : tx unit :=
  _ <- checked_i64 (l_task_revision lease);;
  _ <- checked_i64 (l_lease_epoch lease);;
  bail negb (has_instance d (l_session_id lease) (l_assignee lease)) with Store;;
  Ok (tt, set_leases d (<[l_task_id lease := lease]> (leases d))).

(** [claim_task]; [fencing_token] is the new UUID. *)
Definition claim_task (fencing_token : string) (d : db) (id : TaskId) (assignee : AgentInstanceId)
    (claim_owner_id : string) (now lease_seconds : Z) : tx TaskExecutionLease :=
  _ <- validate_task_lease_seconds lease_seconds;;
  bail trim_is_empty claim_owner_id with Invalid;;
  task <- ok_or (load_task d id) Invalid;;
  bail negb (claimable task assignee) with Invalid;;
  let current := load_task_lease d id in
  let issue :=
    started <- start_task d task now;;
    let '(task, d) := started in
    lease_epoch <- match current with
      | None => Ok 1%Z
      | Some lease => next_u64 (l_lease_epoch lease)
      end;;
    expires_at <- lease_deadline now lease_seconds;;
    let lease := {|
      l_task_id := task_id task;
      l_session_id := session_id task;
      l_assignee := assignee;
      l_claim_owner_id := claim_owner_id;
      l_task_revision := revision task;
      l_lease_epoch := lease_epoch;
      l_fencing_token := fencing_token;
      l_expires_at := expires_at;
    |} in
    inserted <- insert_lease d lease;;
    Ok (lease, inserted.2) in
  match current with
  | Some lease =>
      if (now <? l_expires_at lease)%Z then
        if (l_assignee lease == assignee) && (l_claim_owner_id lease == claim_owner_id)
           && (l_task_revision lease =? revision task)%Z
        then Ok (lease, d)
        else Err Invalid
      else issue
  | None => issue
  end.

(** [SELECT EXISTS(...)] of [ensure_task_lease] *)
Definition lease_matches (d : db) (lease : TaskExecutionLease) (now : Z) : bool :=
  match leases d !! l_task_id lease, Store.tasks d !! l_task_id lease with
  | Some claim, Some task =>
      (l_session_id claim == l_session_id lease) && (l_assignee claim == l_assignee lease)
      && (l_task_revision claim =? l_task_revision lease)%Z
      && (l_claim_owner_id claim == l_claim_owner_id lease)
      && (l_lease_epoch claim =? l_lease_epoch lease)%Z
      && (l_fencing_token claim == l_fencing_token lease)
      && (now <? l_expires_at claim)%Z
      && (state task == Running)
      && (revision task =? l_task_revision claim)%Z
  | _, _ => false
  end.

Definition ensure_task_lease (d : db) (lease : TaskExecutionLease) (now : Z) :
    res unit SessionStoreError :=
  _ <- checked_i64 (l_task_revision lease);;
  _ <- checked_i64 (l_lease_epoch lease);;
  bail_if (negb (lease_matches d lease now)) Invalid.

Definition same_fence (a b : TaskExecutionLease) : bool :=
  (l_lease_epoch a =? l_lease_epoch b)%Z && (l_fencing_token a == l_fencing_token b).

Definition extend_lease (lease : TaskExecutionLease) (expires_at : Z) : TaskExecutionLease := {|
  l_task_id := l_task_id lease;
  l_session_id := l_session_id lease;
  l_assignee := l_assignee lease;
  l_claim_owner_id := l_claim_owner_id lease;
  l_task_revision := l_task_revision lease;
  l_lease_epoch := l_lease_epoch lease;
  l_fencing_token := l_fencing_token lease;
  l_expires_at := expires_at;
|}.

(** [renew_task_lease] *)
Definition renew_task_lease (d : db) (lease : TaskExecutionLease) (now lease_seconds : Z) :
    tx TaskExecutionLease :=
  _ <- validate_task_lease_seconds lease_seconds;;
  _ <- ensure_task_lease d lease now;;
  expires_at <- lease_deadline now lease_seconds;;
  _ <- checked_i64 (l_lease_epoch lease);;
  let d' := match leases d !! l_task_id lease with
    | Some row =>
        if same_fence row lease
        then set_leases d (<[l_task_id lease := extend_lease row expires_at]> (leases d))
        else d
    | None => d
    end in
  Ok (extend_lease lease expires_at, d').

(** [DELETE FROM coordination_task_leases WHERE task_id=? AND lease_epoch=?
    AND fencing_token=?] *)
Definition delete_lease (d : db) (lease : TaskExecutionLease) : db :=
  match leases d !! l_task_id lease with
  | Some row =>
      if same_fence row lease then set_leases d (delete (l_task_id lease) (leases d)) else d
  | None => d
  end.

(** [finish_task_lease] *)
Definition finish_task_lease (d : db) (lease : TaskExecutionLease)
    (next_state : CoordinationTaskState) (consumed now : Z) : tx CoordinationTask :=
  _ <- ensure_task_lease d lease now;;
  task <- ok_or (load_task d (l_task_id lease)) Invalid;;
  bail (state task != Running) || negb (can_transition_to (state task) next_state)
       || (consumed <? consumed_tokens task)%Z || (token_budget task <? consumed)%Z with Invalid;;
  next_revision <- next_u64 (revision task);;
  _ <- checked_i64 consumed;;
  _ <- checked_i64 next_revision;;
  _ <- checked_i64 (revision task);;
  let '(_, d) := update_tasks d (task_id task)
    (λ t, (revision t =? revision task)%Z && (state t == Running))
    (λ t, put_task t (assigned_to t) next_state consumed (handoff_count t) next_revision now) in
  _ <- checked_i64 (l_lease_epoch lease);;
  Ok (put_task task (assigned_to task) next_state consumed (handoff_count task) next_revision now,
      delete_lease d lease).

(** [cancel_task] *)
Definition cancel_task (d : db) (id : TaskId) (now : Z) : tx CoordinationTask :=
  task <- ok_or (load_task d id) Invalid;;
  if state task == Cancelled then Ok (task, d) else
  bail negb (can_transition_to (state task) Cancelled) with Invalid;;
  next_revision <- next_u64 (revision task);;
  _ <- checked_i64 next_revision;;
  _ <- checked_i64 (revision task);;
  let cancelled t := put_task t (assigned_to t) Cancelled (consumed_tokens t) (handoff_count t)
                       next_revision now in
  let '(changed, d) := update_tasks d (task_id task)
    (λ t, (revision t =? revision task)%Z) cancelled in
  bail negb (changed =? 1)%Z with TaskConflict id (Some (revision task)) None;;
  Ok (cancelled task, set_leases d (delete (task_id task) (leases d))).

(** * The task graph *)

Definition key_le (a b : TaskId * TaskId) : bool :=
  string_lt a.1 b.1 || ((a.1 == b.1) && string_le a.2 b.2).

(** [load_task_graph]: tasks ordered by identity, dependencies by their two
    ends. *)
Definition load_task_graph (d : db) (session : SessionId) : option SessionTaskGraph :=
  match membership_revision_of d session with
  | None => None
  | Some membership_revision => Some {|
      g_session_id := session;
      g_membership_revision := membership_revision;
      tasks := omap (load_task d) (stable_sort string_le
        (filter (λ id, session_id <$> Store.tasks d !! id = Some session)
          (elements (dom (Store.tasks d)))));
      dependencies := (λ k, {| prerequisite := k.1; dependent := k.2 |}) <$> stable_sort key_le
        ((λ k, (k.1.2, k.2)) <$> filter (λ k, k.1.1 = session)
          (elements (Store.dependencies d)));
    |}
  end.

(** [add_task_dependency] *)
Definition add_task_dependency `{!HashOrder} (d : db) (dep : TaskDependency)
    (membership : Membership.SessionMembership) : tx unit :=
  let session := Membership.m_session_id membership in
  graph <- ok_or (load_task_graph d session) Invalid;;
  _ <- invalid (validate graph membership);;
  bail negb (existsb (λ t, task_id t == prerequisite dep) (tasks graph))
       || negb (existsb (λ t, task_id t == dependent dep) (tasks graph)) with Invalid;;
  bail bool_decide ((session, prerequisite dep, dependent dep) ∈ Store.dependencies d)
    with Invalid;;
  bail prerequisite dep == dependent dep with Store;;
  let d' := set_dependencies d
    ({[(session, prerequisite dep, dependent dep)]} ∪ Store.dependencies d) in
  next_graph <- expect (load_task_graph d' session);;
  _ <- invalid (validate next_graph membership);;
  Ok (tt, d').

(** * What an operation does to a task *)

(** The [CHECK] constraints of [coordination_tasks] that the operations can
    reach: the Rust guards keep them, so SQLite never rejects a row. *)
Record row_ok (t : CoordinationTask) : Prop := {
  r_objective : trim_is_empty (objective t) = false;
  r_budget : (0 < token_budget t ≤ i64_max)%Z;
  r_consumed : (0 ≤ consumed_tokens t ≤ token_budget t)%Z;
  r_handoffs : (0 ≤ handoff_count t ≤ max_handoffs t)%Z;
  r_revision : (0 ≤ revision t ≤ i64_max)%Z;
}.

(** Where a committed change takes a task. Its owner moves it along its lifecycle; the
    moderator blocks it for a new plan, or gives one that does not run to another agent,
    which makes it ready; an accepted handoff changes its owner only. *)
Inductive course (t t' : CoordinationTask) : Prop :=
  | course_lifecycle (_ : can_transition_to (state t) (state t') = true)
      (_ : assigned_to t' = assigned_to t ∧ handoff_count t' = handoff_count t)
  | course_replanned (_ : state t = Ready ∨ state t = Running ∨ state t = AwaitingReview)
      (_ : state t' = Blocked ∧ consumed_tokens t' = consumed_tokens t)
      (_ : assigned_to t' = assigned_to t ∧ handoff_count t' = handoff_count t)
  | course_reassigned (_ : state t = Proposed ∨ state t = Ready ∨ state t = Blocked)
      (_ : state t' = Ready ∧ consumed_tokens t' = consumed_tokens t)
      (_ : assigned_to t' ≠ None ∧ handoff_count t' = (handoff_count t + 1)%Z)
  | course_handed (_ : is_terminal (state t) = false)
      (_ : state t' = state t ∧ consumed_tokens t' = consumed_tokens t)
      (_ : assigned_to t' ≠ None ∧ handoff_count t' = (handoff_count t + 1)%Z).

(** One committed change of a task: the facts of its creation stay, it spends
    no token back, gains one revision, takes one of these courses and leaves no
    terminal state. *)
Record evolves (t t' : CoordinationTask) : Prop := {
  ev_identity : task_id t' = task_id t ∧ session_id t' = session_id t ∧
    parent_task_id t' = parent_task_id t ∧ created_by t' = created_by t ∧
    created_at t' = created_at t;
  ev_facts : membership_revision t' = membership_revision t ∧ objective t' = objective t ∧
    token_budget t' = token_budget t ∧ max_handoffs t' = max_handoffs t;
  ev_consumed : (consumed_tokens t ≤ consumed_tokens t' ≤ token_budget t')%Z;
  ev_handoffs : (handoff_count t ≤ handoff_count t' ≤ max_handoffs t')%Z;
  ev_revision : revision t' = (revision t + 1)%Z ∧ (revision t' ≤ i64_max)%Z;
  ev_live : is_terminal (state t) = false;
  ev_course : course t t';
}.

(** A task the lifecycle of its state moved, with its owner unchanged. *)
Definition advances (t t' : CoordinationTask) : Prop :=
  evolves t t' ∧ can_transition_to (state t) (state t') = true ∧
  assigned_to t' = assigned_to t ∧ handoff_count t' = handoff_count t.

Lemma evolves_row_ok t t' : row_ok t → evolves t t' → row_ok t'.
Proof.
  intros [] [_ (_ & Ho & Hb & Hm) Hc Hh [Hr1 Hr2] _ _]. split; rewrite ?Ho; try lia; done.
Qed.

Lemma transition_live s next : can_transition_to s next = true → is_terminal s = false.
Proof. unfold can_transition_to. by destruct (is_terminal s). Qed.

Lemma put_task_advances t s consumed rev now :
  row_ok t → can_transition_to (state t) s = true →
  (consumed_tokens t ≤ consumed ≤ token_budget t)%Z → rev = (revision t + 1)%Z →
  (rev ≤ i64_max)%Z →
  advances t (put_task t (assigned_to t) s consumed (handoff_count t) rev now).
Proof.
  intros [] Hs Hc -> Hr. unfold advances. split_and!; try done.
  split; simpl; split_and?; try done; try lia; [by eapply transition_live|by apply course_lifecycle].
Qed.

(** Every row of [coordination_tasks] is under its own key and passes the
    checks, and leases name the task they are stored under. *)
Definition tasks_ok (d : db) : Prop :=
  (∀ id t, Store.tasks d !! id = Some t → task_id t = id ∧ row_ok t) ∧
  (∀ id l, leases d !! id = Some l → l_task_id l = id).

(** The tasks before and after an operation. *)
Definition tasks_step (d d' : db) (R : relation CoordinationTask) : Prop :=
  ∀ id, match Store.tasks d !! id, Store.tasks d' !! id with
  | None, None => True
  | None, Some t' => revision t' = 0%Z ∧ row_ok t' ∧ task_id t' = id
  | Some _, None => False
  | Some t, Some t' => t' = t ∨ R t t'
  end.

Lemma tasks_step_refl d R : tasks_step d d R.
Proof. intros id. destruct (Store.tasks d !! id); [by left|done]. Qed.

Lemma tasks_step_same d d' R : Store.tasks d' = Store.tasks d → tasks_step d d' R.
Proof. intros Hd id. rewrite Hd. apply (tasks_step_refl d R id). Qed.

Lemma tasks_step_update d d' id t t' (R : relation CoordinationTask) :
  Store.tasks d !! id = Some t → Store.tasks d' = <[id := t']> (Store.tasks d) → R t t' →
  tasks_step d d' R.
Proof.
  intros Ht Hd HR i. rewrite Hd. destruct (decide (i = id)) as [->|Hne].
  - rewrite Ht, lookup_insert_eq. by right.
  - rewrite lookup_insert_ne by done. destruct (Store.tasks d !! i); [by left|done].
Qed.

Lemma tasks_ok_step d d' (R : relation CoordinationTask) :
  tasks_ok d → tasks_step d d' R → (∀ t t', R t t' → evolves t t') →
  (∀ id l, leases d' !! id = Some l → l_task_id l = id) → tasks_ok d'.
Proof.
  intros [Hok _] Hstep HR Hl. split; [|done]. intros id t' Ht'.
  specialize (Hstep id). rewrite Ht' in Hstep.
  destruct (Store.tasks d !! id) as [t|] eqn:Et; [|naive_solver].
  destruct (Hok _ _ Et) as [Hid Hrow]. destruct Hstep as [->|He%HR]; [done|].
  split; [|by eapply evolves_row_ok]. destruct He as [[-> _] _ _ _ _ _ _]. done.
Qed.

Lemma tasks_ok_put d id t t' :
  tasks_ok d → Store.tasks d !! id = Some t → evolves t t' →
  tasks_ok (set_tasks d (<[id := t']> (Store.tasks d))).
Proof.
  intros [Hok Hl] Ht He. split; [|done]. simpl. intros i x. destruct (decide (i = id)) as [->|].
  - rewrite lookup_insert_eq. intros [= <-]. destruct (Hok _ _ Ht) as [Hid Hrow].
    split; [|by eapply evolves_row_ok]. destruct He as [[-> _] _ _ _ _ _ _]. done.
  - rewrite lookup_insert_ne by done. apply Hok.
Qed.

Lemma update_tasks_hit d id guard f t :
  Store.tasks d !! id = Some t → guard t = true →
  update_tasks d id guard f = (1%Z, set_tasks d (<[id := f t]> (Store.tasks d))).
Proof. intros Ht Hg. unfold update_tasks. by rewrite Ht, Hg. Qed.

(** ** The outcome of each operation

    Each lemma says what a committed operation did; [inv_tx] splits the
    computation into its guards. *)

Ltac inv_tx :=
  repeat match goal with
  | H : Ok _ = Ok (_, _) |- _ => injection H as H; subst
  | H : checked_i64 _ = Ok _ |- _ => apply checked_i64_ok in H as [-> ?]
  | H : next_u64 _ = Ok _ |- _ => apply next_u64_ok in H as [-> ?]
  | H : invalid _ = Ok _ |- _ => rewrite invalid_ok in H
  | _ => progress inv_ok
  | _ => progress destruct_guards
  | H : (_ =? _)%Z = true |- _ => apply Z.eqb_eq in H
  | H : (_ =? _)%Z = false |- _ => apply Z.eqb_neq in H
  end.

Lemma create_task_ok d task d' :
  create_task d task = Ok (tt, d') →
  Store.tasks d !! task_id task = None ∧ d' = set_tasks d (<[task_id task := task]> (Store.tasks d)) ∧
  revision task = 0%Z ∧ ((0 ≤ token_budget task)%Z → (0 ≤ consumed_tokens task)%Z →
    (0 ≤ handoff_count task)%Z → row_ok task) ∧
  has_instance d (session_id task) (created_by task) = true ∧
  membership_revision_of d (session_id task) = Some (membership_revision task).
Proof.
  unfold create_task, load_task. intros H. inv_tx.
  destruct (Store.tasks d !! task_id task) eqn:Et; [done|]. inv_tx. split_and!; try done.
  intros. split; try done; try lia.
Qed.

Lemma update_task_ok d task e d' :
  tasks_ok d → update_task d task e = Ok (tt, d') →
  ∃ t t', Store.tasks d !! task_id task = Some t ∧ revision t = e ∧
    d' = set_tasks d (<[task_id task := t']> (Store.tasks d)) ∧ advances t t' ∧
    state t' = state task ∧ consumed_tokens t' = consumed_tokens task.
Proof.
  intros [Hok _] H. unfold update_task, load_task, update_violation in H. inv_tx.
  match goal with Ht : Store.tasks d !! _ = Some ?x |- _ =>
    rename x into t; rename Ht into Hlook end.
  destruct (Hok _ _ Hlook) as [Hid Hrow].
  rewrite (update_tasks_hit d _ _ _ t Hlook) in H by (apply Z.eqb_eq; done). simpl in H.
  injection H as <-. eexists t, _. split_and!; [done|done|done| |done|done].
  apply put_task_advances; try done; lia.
Qed.

(** A new lease: the row the claim stores. *)
Record issued (tok : string) (d : db) (id : TaskId) (assignee : AgentInstanceId) (owner : string)
    (now secs : Z) (t' : CoordinationTask) (l : TaskExecutionLease) : Prop := {
  i_expired : ∀ l0, leases d !! id = Some l0 → (l_expires_at l0 ≤ now)%Z;
  i_task : l_task_id l = id ∧ l_session_id l = session_id t' ∧ l_task_revision l = revision t';
  i_owner : l_assignee l = assignee ∧ l_claim_owner_id l = owner;
  i_token : l_fencing_token l = tok;
  i_epoch : l_lease_epoch l = (default 0 (l_lease_epoch <$> leases d !! id) + 1)%Z;
  i_deadline : l_expires_at l = (now + secs)%Z ∧ (1 ≤ secs ≤ MAX_TASK_LEASE_SECONDS)%Z;
}.

(** A claimed task runs: it was running, or the claim started it. *)
Definition starts (t t' : CoordinationTask) : Prop :=
  state t' = Running ∧ (t' = t ∨ (state t = Ready ∧ advances t t')).

Definition returned (d : db) (id : TaskId) (assignee : AgentInstanceId) (owner : string)
    (now : Z) (t : CoordinationTask) (l : TaskExecutionLease) : Prop :=
  leases d !! id = Some l ∧ (now < l_expires_at l)%Z ∧ l_assignee l = assignee ∧
  l_claim_owner_id l = owner ∧ l_task_revision l = revision t.

Lemma claimable_iff t a :
  claimable t a = true ↔ assigned_to t = Some a ∧ (state t = Ready ∨ state t = Running).
Proof.
  unfold claimable. rewrite andb_true_iff, bool_decide_eq_true. destruct (state t); naive_solver.
Qed.

Lemma set_tasks_id d id t : Store.tasks d !! id = Some t →
  set_tasks d (<[id := t]> (Store.tasks d)) = d.
Proof. intros Ht. rewrite insert_id by done. by destruct d. Qed.

Lemma start_task_ok d t now t' d' :
  tasks_ok d → Store.tasks d !! task_id t = Some t →
  start_task d t now = Ok (t', d') → (state t = Ready ∨ state t = Running) →
  d' = set_tasks d (<[task_id t := t']> (Store.tasks d)) ∧ starts t t' ∧
  task_id t' = task_id t ∧ session_id t' = session_id t.
Proof.
  intros [Hok _] Hlook H Hs. destruct (Hok _ _ Hlook) as [_ Hrow]. unfold start_task in H.
  destruct (bool_decide_reflect (state t = Ready)) as [Hr|Hr].
  - inv_tx. rewrite (update_tasks_hit d _ _ _ t Hlook) in H
      by (rewrite Z.eqb_refl, bool_decide_eq_true_2; done).
    injection H as <- <-. split_and!; try done. split; [done|]. right. split; [done|].
    apply put_task_advances; try done; [by rewrite Hr|]. destruct Hrow. lia.
  - injection H as <- <-. destruct Hs as [?|Hs]; [done|]. rewrite set_tasks_id by done.
    split_and!; try done. split; [done|by left].
Qed.

Lemma deadline_ok now secs x :
  lease_deadline now secs = Ok x → x = (now + secs)%Z.
Proof.
  unfold lease_deadline, i64_of_u64, checked_add_i64. intros H. inv_tx. case_match; [|done].
  simplify_eq. case_match; [|done]. by simplify_eq.
Qed.

(** A claim returns the live lease of its owner or issues a new one. *)
Lemma claim_task_ok tok d id a owner now secs l d' :
  tasks_ok d → claim_task tok d id a owner now secs = Ok (l, d') →
  ∃ t, Store.tasks d !! id = Some t ∧ assigned_to t = Some a ∧
    ((returned d id a owner now t l ∧ d' = d) ∨
     ∃ t', starts t t' ∧ issued tok d id a owner now secs t' l ∧
       d' = set_leases (set_tasks d (<[id := t']> (Store.tasks d))) (<[id := l]> (leases d))).
Proof.
  intros Hok H. unfold claim_task, load_task, load_task_lease, validate_task_lease_seconds
    in H. inv_tx.
  match goal with Hc : claimable _ _ = true |- _ => apply claimable_iff in Hc as [Ha Hs] end.
  match goal with Ht : Store.tasks d !! _ = Some ?x |- _ =>
    rename x into t; rename Ht into Hlook end.
  exists t. split_and!; [done|done|]. destruct (proj1 Hok _ _ Hlook) as [Hid Hrow]. subst id.
  destruct (leases d !! task_id t) as [l0|] eqn:El.
  - destruct (Z.ltb_spec now (l_expires_at l0)) as [Hlive|Hdead].
    + case_match; [|done]. injection H as <- <-. inv_tx. left. done.
    + right. unfold insert_lease in H. inv_tx. destruct a0 as [t' d1]. inv_tx.
      match goal with Hst : start_task _ _ _ = _ |- _ =>
        apply start_task_ok in Hst as (-> & Hst & Hid & Hses); [|done..] end.
      match goal with Hd : lease_deadline _ _ = _ |- _ => apply deadline_ok in Hd as -> end.
      exists t'. split; [done|]. simpl. rewrite Hid. split; [|done].
      split; simpl; rewrite ?El; try done. by intros ? [= <-].
  - right. unfold insert_lease in H. inv_tx. destruct a0 as [t' d1]. inv_tx.
    match goal with Hst : start_task _ _ _ = _ |- _ =>
      apply start_task_ok in Hst as (-> & Hst & Hid & Hses); [|done..] end.
    match goal with Hd : lease_deadline _ _ = _ |- _ => apply deadline_ok in Hd as -> end.
    exists t'. split; [done|]. simpl. rewrite Hid. split; [|done].
    split; simpl; rewrite ?El; done.
Qed.

(** The lease is the stored one, live, and its task still runs at the revision
    of the claim. *)
Record held (d : db) (l : TaskExecutionLease) (now : Z) (claim : TaskExecutionLease)
    (t : CoordinationTask) : Prop := {
  h_claim : leases d !! l_task_id l = Some claim;
  h_task : Store.tasks d !! l_task_id l = Some t;
  h_same : l_session_id claim = l_session_id l ∧ l_assignee claim = l_assignee l ∧
    l_claim_owner_id claim = l_claim_owner_id l ∧ l_task_revision claim = l_task_revision l;
  h_fence : same_fence claim l = true;
  h_live : (now < l_expires_at claim)%Z;
  h_running : state t = Running ∧ revision t = l_task_revision claim;
}.

Lemma lease_matches_iff d l now :
  lease_matches d l now = true ↔ ∃ claim t, held d l now claim t.
Proof.
  unfold lease_matches. split.
  - destruct (leases d !! l_task_id l) as [c|] eqn:Ec; [|done].
    destruct (Store.tasks d !! l_task_id l) as [t|] eqn:Et; [|done].
    intros H. destruct_guards. rewrite !Z.eqb_eq in *. exists c, t.
    split; try done. unfold same_fence. rewrite andb_true_iff, Z.eqb_eq, bool_decide_eq_true. done.
  - intros (c & t & [-> -> Hs Hf Hl Hr]). unfold same_fence in Hf.
    apply andb_true_iff in Hf as [Hf1 Hf2]. rewrite Hf1, Hf2.
    destruct Hr as [-> ->], Hs as (-> & -> & -> & ->). rewrite !bool_decide_eq_true_2, !Z.eqb_refl by done.
    apply Z.ltb_lt in Hl as ->. done.
Qed.

Lemma ensure_ok d l now : ensure_task_lease d l now = Ok tt → ∃ claim t, held d l now claim t.
Proof. unfold ensure_task_lease. intros H. inv_tx. by apply lease_matches_iff. Qed.

Lemma ensure_tt d l now u : ensure_task_lease d l now = Ok u → ∃ claim t, held d l now claim t.
Proof. destruct u. apply ensure_ok. Qed.

(** A renewal moves the deadline of the held lease and nothing else. *)
Lemma renew_ok d l now secs l' d' :
  renew_task_lease d l now secs = Ok (l', d') →
  ∃ claim t, held d l now claim t ∧ l' = extend_lease l (now + secs) ∧
    d' = set_leases d (<[l_task_id l := extend_lease claim (now + secs)]> (leases d)) ∧
    (1 ≤ secs ≤ MAX_TASK_LEASE_SECONDS)%Z.
Proof.
  unfold renew_task_lease, validate_task_lease_seconds. intros H. inv_tx.
  match goal with He : ensure_task_lease _ _ _ = _ |- _ =>
    apply ensure_tt in He as (c & t & Hh) end.
  match goal with Hd : lease_deadline _ _ = _ |- _ => apply deadline_ok in Hd as -> end.
  exists c, t. pose proof Hh as [Hc _ _ Hf _ _]. rewrite Hc, Hf. split_and!; done || lia.
Qed.

(** A finish commits one boundary of the running task and drops the lease. *)
Lemma finish_ok d l next consumed now t' d' :
  tasks_ok d → finish_task_lease d l next consumed now = Ok (t', d') →
  ∃ claim t, held d l now claim t ∧ advances t t' ∧ state t' = next ∧
    consumed_tokens t' = consumed ∧
    d' = set_leases (set_tasks d (<[l_task_id l := t']> (Store.tasks d)))
           (delete (l_task_id l) (leases d)).
Proof.
  intros [Hok _] H. unfold finish_task_lease, load_task in H. inv_tx.
  match goal with He : ensure_task_lease _ _ _ = _ |- _ =>
    apply ensure_tt in He as (c & t & Hh) end.
  pose proof Hh as [Hc Ht _ Hf _ _].
  match goal with Hl : Store.tasks d !! _ = Some ?x |- _ =>
    assert (x = t) as -> by congruence end.
  destruct (Hok _ _ Ht) as [Hid Hrow]. rewrite Hid in H.
  rewrite (update_tasks_hit d _ _ _ t Ht) in H
    by (rewrite Z.eqb_refl, bool_decide_eq_true_2; done).
  inv_tx. exists c, t. split_and!; [done| |done|done|].
  - apply put_task_advances; done || lia.
  - unfold delete_lease. simpl. by rewrite Hc, Hf.
Qed.

(** A cancellation is idempotent; otherwise it ends the task and drops its
    lease. *)
Lemma cancel_ok d id now t' d' :
  tasks_ok d → cancel_task d id now = Ok (t', d') →
  ∃ t, Store.tasks d !! id = Some t ∧ state t' = Cancelled ∧
    ((t' = t ∧ d' = d) ∨
     (advances t t' ∧
      d' = set_leases (set_tasks d (<[id := t']> (Store.tasks d))) (delete id (leases d)))).
Proof.
  intros [Hok _] H. unfold cancel_task, load_task in H. inv_tx.
  match goal with Ht : Store.tasks d !! _ = Some ?x |- _ =>
    rename x into t; rename Ht into Hlook end.
  destruct (Hok _ _ Hlook) as [Hid Hrow]. exists t. split; [done|]. subst id.
  destruct (bool_decide_reflect (state t = Cancelled)); [injection H as <- <-; auto|].
  inv_tx. rewrite (update_tasks_hit d _ _ _ t Hlook) in H by apply Z.eqb_refl.
  inv_tx. split; [done|]. right. split; [|done].
  apply put_task_advances; try done. destruct Hrow. lia.
Qed.

Lemma add_dependency_ok `{!HashOrder} d dep m d' :
  add_task_dependency d dep m = Ok (tt, d') →
  (∃ g, load_task_graph d (Membership.m_session_id m) = Some g ∧ Tasks.graph_ok g m) ∧
  (∃ g, load_task_graph d' (Membership.m_session_id m) = Some g ∧ Tasks.graph_ok g m) ∧
  d' = set_dependencies d
    ({[(Membership.m_session_id m, prerequisite dep, dependent dep)]} ∪ Store.dependencies d).
Proof.
  unfold add_task_dependency. intros Hadd.
  apply res_bind_ok in Hadd as (g & Hg & Hadd). apply ok_or_ok in Hg.
  apply res_bind_ok in Hadd as ([] & Hv & Hadd). apply invalid_ok, validate_graph_iff in Hv.
  do 3 (apply bail_ok in Hadd as [_ Hadd]).
  apply res_bind_ok in Hadd as (g' & Hg' & Hadd). apply expect_ok in Hg'.
  apply res_bind_ok in Hadd as ([] & Hv' & Hadd). apply invalid_ok, validate_graph_iff in Hv'.
  injection Hadd as <-. split_and!; [by exists g|by exists g'|done].
Qed.

(** * Runs

    The connection lock serialises the operations of all callers, so what
    concurrent agents can observe is a sequence of operations. *)

Inductive task_op :=
  | OpCreate (task : CoordinationTask)
  | OpUpdate (task : CoordinationTask) (expected_revision : Z)
  | OpClaim (fencing_token : string) (id : TaskId) (assignee : AgentInstanceId)
      (claim_owner_id : string) (now lease_seconds : Z)
  | OpRenew (lease : TaskExecutionLease) (now lease_seconds : Z)
  | OpFinish (lease : TaskExecutionLease) (next_state : CoordinationTaskState)
      (consumed now : Z)
  | OpCancel (id : TaskId) (now : Z)
  | OpDepend (dep : TaskDependency) (membership : Membership.SessionMembership).

Definition exec `{!HashOrder} (d : db) (op : task_op) : db :=
  match op with
  | OpCreate t => (run d (create_task d t)).2
  | OpUpdate t e => (run d (update_task d t e)).2
  | OpClaim tok id a owner now secs => (run d (claim_task tok d id a owner now secs)).2
  | OpRenew l now secs => (run d (renew_task_lease d l now secs)).2
  | OpFinish l next consumed now => (run d (finish_task_lease d l next consumed now)).2
  | OpCancel id now => (run d (cancel_task d id now)).2
  | OpDepend dep m => (run d (add_task_dependency d dep m)).2
  end.

(** The unsigned fields of a new task are unsigned. *)
Definition op_typed (op : task_op) : Prop :=
  match op with
  | OpCreate t => (0 ≤ token_budget t)%Z ∧ (0 ≤ consumed_tokens t)%Z ∧ (0 ≤ handoff_count t)%Z
  | _ => True
  end.

Lemma starts_step d id t t' :
  Store.tasks d !! id = Some t → starts t t' →
  ∀ d', Store.tasks d' = <[id := t']> (Store.tasks d) → tasks_step d d' advances.
Proof.
  intros Ht [_ [->|[_ Ha]]] d' Hd.
  - rewrite insert_id in Hd by done. intros i. rewrite Hd.
    destruct (Store.tasks d !! i); [by left|done].
  - by eapply tasks_step_update.
Qed.

(** Every operation creates a task, moves one along the lifecycle or leaves
    the tasks alone. *)
Lemma exec_step `{!HashOrder} d op :
  tasks_ok d → op_typed op → tasks_step d (exec d op) advances.
Proof.
  intros Hok Hty. destruct op as [t|t e|tok id a owner now secs|l now secs|l next c now|id now|dep m];
    simpl in *.
  - destruct (run_cases d (create_task d t)) as [->|[[] Hc]]; [apply tasks_step_refl|].
    apply create_task_ok in Hc as (Hn & -> & Hr & Hrow & _). intros i. simpl.
    destruct (decide (i = task_id t)) as [->|Hne].
    + rewrite Hn, lookup_insert_eq. split_and!; [done|apply Hrow; apply Hty|done].
    + rewrite lookup_insert_ne by done. destruct (Store.tasks d !! i); [by left|done].
  - destruct (run_cases d (update_task d t e)) as [->|[[] Hc]]; [apply tasks_step_refl|].
    apply update_task_ok in Hc as (t0 & t' & Hl & _ & -> & Ha & _); [|done].
    by eapply tasks_step_update.
  - destruct (run_cases d (claim_task tok d id a owner now secs)) as [->|[l Hc]];
      [apply tasks_step_refl|].
    apply claim_task_ok in Hc as (t & Hl & _ & [[_ ->]|(t' & Hs & _ & ->)]); [| |done].
    + apply tasks_step_refl.
    + by eapply starts_step.
  - destruct (run_cases d (renew_task_lease d l now secs)) as [->|[l' Hc]];
      [apply tasks_step_refl|].
    apply renew_ok in Hc as (c & t & _ & _ & -> & _). apply (tasks_step_refl d).
  - destruct (run_cases d (finish_task_lease d l next c now)) as [->|[t' Hc]];
      [apply tasks_step_refl|].
    apply finish_ok in Hc as (cl & t & [_ Ht _ _ _ _] & Ha & _ & _ & ->); [|done].
    by eapply tasks_step_update.
  - destruct (run_cases d (cancel_task d id now)) as [->|[t' Hc]]; [apply tasks_step_refl|].
    apply cancel_ok in Hc as (t & Hl & _ & [[_ ->]|[Ha ->]]); [| |done].
    + apply tasks_step_refl.
    + by eapply tasks_step_update.
  - destruct (run_cases d (add_task_dependency d dep m)) as [->|[[] Hc]];
      [apply tasks_step_refl|].
    apply add_dependency_ok in Hc as (_ & _ & ->). apply (tasks_step_refl d).
Qed.

(** Leases stay under their task. *)
Lemma exec_leases `{!HashOrder} d op :
  tasks_ok d → ∀ id l, leases (exec d op) !! id = Some l → l_task_id l = id.
Proof.
  intros Hok. pose proof (proj2 Hok) as Hl.
  destruct op as [t|t e|tok id a owner now secs|l now secs|l next c now|id now|dep m]; simpl.
  - destruct (run_cases d (create_task d t)) as [->|[[] Hc]]; [done|].
    by apply create_task_ok in Hc as (_ & -> & _).
  - destruct (run_cases d (update_task d t e)) as [->|[[] Hc]]; [done|].
    by apply update_task_ok in Hc as (? & ? & _ & _ & -> & _).
  - destruct (run_cases d (claim_task tok d id a owner now secs)) as [->|[l Hc]]; [done|].
    apply claim_task_ok in Hc as (t & _ & _ & [[_ ->]|(t' & _ & Hi & ->)]); [done| |done].
    intros i l0. simpl. destruct Hi as [_ (Hid & _) _ _ _ _].
    destruct (decide (i = id)) as [->|]; [rewrite lookup_insert_eq; congruence|].
    rewrite lookup_insert_ne by done. apply Hl.
  - destruct (run_cases d (renew_task_lease d l now secs)) as [->|[l' Hc]]; [done|].
    apply renew_ok in Hc as (c & t & [Hc _ _ _ _ _] & _ & -> & _). intros i l0. simpl.
    destruct (decide (i = l_task_id l)) as [->|].
    + rewrite lookup_insert_eq. intros [= <-]. simpl. by apply Hl.
    + rewrite lookup_insert_ne by done. apply Hl.
  - destruct (run_cases d (finish_task_lease d l next c now)) as [->|[t' Hc]]; [done|].
    apply finish_ok in Hc as (? & ? & _ & _ & _ & _ & ->); [|done]. intros i l0. simpl.
    rewrite lookup_delete_Some. intros [_ ?]. by apply Hl.
  - destruct (run_cases d (cancel_task d id now)) as [->|[t' Hc]]; [done|].
    apply cancel_ok in Hc as (t & _ & _ & [[_ ->]|[_ ->]]); [done| |done]. intros i l0. simpl.
    rewrite lookup_delete_Some. intros [_ ?]. by apply Hl.
  - destruct (run_cases d (add_task_dependency d dep m)) as [->|[[] Hc]]; [done|].
    by apply add_dependency_ok in Hc as (_ & _ & ->).
Qed.

Lemma exec_ok `{!HashOrder} d op : tasks_ok d → op_typed op → tasks_ok (exec d op).
Proof.
  intros Hok Hty. eapply tasks_ok_step; [done|by apply exec_step|by intros ? ? []|].
  by apply exec_leases.
Qed.

(** ** Any sequence of changes to tasks

    The lemmas below need only that every step [evolves] the tasks, so they
    hold for handoffs and verdicts as well. *)
Definition tasks_run : relation db := rtc (λ d d', tasks_step d d' evolves).

Lemma tasks_step_weaken d d' (R S : relation CoordinationTask) :
  (∀ t t', R t t' → S t t') → tasks_step d d' R → tasks_step d d' S.
Proof.
  intros HRS Hs id. specialize (Hs id).
  destruct (Store.tasks d !! id), (Store.tasks d' !! id); naive_solver.
Qed.

Lemma tasks_run_task d d' id t :
  tasks_run d d' → Store.tasks d !! id = Some t →
  ∃ t', Store.tasks d' !! id = Some t' ∧ rtc evolves t t'.
Proof.
  intros Hrun. revert t. induction Hrun as [d|d d1 d2 Hs _ IH]; intros t Ht.
  - exists t. split; [done|apply rtc_refl].
  - specialize (Hs id). rewrite Ht in Hs. destruct (Store.tasks d1 !! id) as [t1|]; [|done].
    destruct (IH t1 eq_refl) as (t' & Ht' & Hr). exists t'. split; [done|].
    destruct Hs as [->|He]; [done|]. by apply rtc_l with t1.
Qed.

Lemma evolves_run t t' :
  rtc evolves t t' →
  (revision t ≤ revision t')%Z ∧ (consumed_tokens t ≤ consumed_tokens t')%Z ∧
  (handoff_count t ≤ handoff_count t')%Z ∧ token_budget t' = token_budget t ∧
  session_id t' = session_id t ∧ objective t' = objective t ∧
  (is_terminal (state t) = true → t' = t).
Proof.
  induction 1 as [t|t t1 t2 [(_ & Hs & _) (_ & Ho & Hb & _) Hc Hh Hr Hl _] Hrun IH];
    [split_and!; lia || done|].
  destruct IH as (? & ? & ? & ? & ? & ? & _). split_and!; try lia; try congruence.
Qed.

(** A terminal task never changes again. *)
Lemma terminal_frozen d d' id t :
  tasks_run d d' → Store.tasks d !! id = Some t → is_terminal (state t) = true →
  Store.tasks d' !! id = Some t.
Proof.
  intros Hrun Ht Hterm. destruct (tasks_run_task d d' id t Hrun Ht) as (t' & Ht' & Hr).
  apply evolves_run in Hr as (_ & _ & _ & _ & _ & _ & Hf). by rewrite (Hf Hterm) in Ht'.
Qed.

(** ** Fencing *)

(** The task moved past the revision of the lease. *)
Definition superseded (d : db) (l : TaskExecutionLease) : Prop :=
  ∃ t, Store.tasks d !! l_task_id l = Some t ∧ (l_task_revision l < revision t)%Z.

Lemma superseded_stable d d' l : tasks_run d d' → superseded d l → superseded d' l.
Proof.
  intros Hrun (t & Ht & Hlt). destruct (tasks_run_task d d' _ t Hrun Ht) as (t' & Ht' & Hr).
  apply evolves_run in Hr as (? & _). exists t'. split; [done|lia].
Qed.

Lemma superseded_fenced d l now : superseded d l → lease_matches d l now = false.
Proof.
  intros (t & Ht & Hlt). apply not_true_is_false. rewrite lease_matches_iff.
  intros (c & t' & [_ Ht' (_ & _ & _ & Hs) _ _ [_ Hr]]). rewrite Ht in Ht'. simplify_eq. lia.
Qed.

(** A lease that was used to finish its task matches no later state. *)
Lemma finish_once d l next consumed now t' d' d'' later :
  tasks_ok d → finish_task_lease d l next consumed now = Ok (t', d') →
  tasks_run d' d'' → lease_matches d'' l later = false.
Proof.
  intros Hok Hf Hrun. apply superseded_fenced, (superseded_stable d' d'' l Hrun).
  apply finish_ok in Hf as (c & t & [_ Ht (_ & _ & _ & Hs) _ _ [_ Hr]] & [He _] & _ & _ & ->);
    [|done].
  exists t'. simpl. rewrite lookup_insert_eq. split; [done|]. destruct (ev_revision _ _ He). lia.
Qed.

(** Two leases accepted in one state have the same owner and the same fence. *)
Lemma one_holder d l1 l2 n1 n2 :
  lease_matches d l1 n1 = true → lease_matches d l2 n2 = true →
  l_task_id l1 = l_task_id l2 →
  l_fencing_token l1 = l_fencing_token l2 ∧ l_lease_epoch l1 = l_lease_epoch l2 ∧
  l_assignee l1 = l_assignee l2 ∧ l_claim_owner_id l1 = l_claim_owner_id l2.
Proof.
  rewrite !lease_matches_iff.
  intros (c1 & t1 & [H1 _ (_ & Ha1 & Ho1 & _) Hf1 _ _])
    (c2 & t2 & [H2 _ (_ & Ha2 & Ho2 & _) Hf2 _ _]) Heq.
  rewrite Heq in H1. assert (c1 = c2) as -> by congruence. unfold same_fence in *.
  destruct_guards. rewrite !Z.eqb_eq in *. split_and!; congruence.
Qed.

(** While a lease is live nobody else can claim the task. *)
Lemma claim_excluded tok d id a owner now secs l :
  leases d !! id = Some l → (now < l_expires_at l)%Z →
  ¬ (l_assignee l = a ∧ l_claim_owner_id l = owner) →
  ∃ e, claim_task tok d id a owner now secs = Err e.
Proof.
  intros Hl Hlive Hother. unfold claim_task, validate_task_lease_seconds, load_task,
    load_task_lease. rewrite Hl. apply Z.ltb_lt in Hlive as ->. cbv zeta.
  destruct (negb ((1 <=? secs)%Z && (secs <=? MAX_TASK_LEASE_SECONDS)%Z)); [by eexists|].
  destruct (trim_is_empty owner); [by eexists|].
  destruct (Store.tasks d !! id) as [t|]; [|by eexists].
  cbn [bail_if res_bind ok_or]. destruct (claimable t a); [|by eexists].
  cbn [bail_if res_bind negb].
  destruct (bool_decide_reflect (l_assignee l = a)), (bool_decide_reflect (l_claim_owner_id l = owner));
    simpl; try by eexists.
  destruct Hother. done.
Qed.

(** A claim that takes over an expired lease fences the previous holder, its
    token being new. *)
Lemma takeover_fences tok d id a owner now secs l d' old later :
  tasks_ok d → claim_task tok d id a owner now secs = Ok (l, d') →
  leases d !! id = Some old → (l_expires_at old ≤ now)%Z → l_fencing_token old ≠ tok →
  lease_matches d' l now = true ∧ lease_matches d' old later = false ∧
  l_lease_epoch l = (l_lease_epoch old + 1)%Z.
Proof.
  intros Hok Hc Hold Hexp Htok. pose proof (proj2 Hok _ _ Hold) as Hid.
  apply claim_task_ok in Hc as (t & Ht & _ & [[(Hl & ? & _) ->]|(t' & [Hrun _] & Hi & ->)]); [| |done].
  { rewrite Hold in Hl. simplify_eq. lia. }
  destruct Hi as [_ (Hlid & Hses & Hrev) _ Hltok Hep [Hdl Hsecs]]. rewrite Hold in Hep. simpl in Hep.
  split_and!; [| |done].
  - apply lease_matches_iff. exists l, t'. split; simpl; rewrite ?Hlid, ?lookup_insert_eq; try done.
    + unfold same_fence. by rewrite Z.eqb_refl, bool_decide_eq_true_2.
    + lia.
  - apply not_true_is_false. rewrite lease_matches_iff. intros (c & t2 & [H1 _ _ Hf _ _]).
    simpl in H1. rewrite Hid, lookup_insert_eq in H1. simplify_eq. unfold same_fence in Hf.
    destruct_guards. congruence.
Qed.
