(* ===== verification/StoreMessages.v ===== *)
(** The durable mailbox: the message operations of
    [CoordinationStore for SqliteSessionStore] in
    src/sylvander-runtime/src/storage/coordination.rs.

    A message is claimed under a lease that its epoch fences, delivered by
    [finish_message_claim] or, together with the receipt of its one turn, by
    [prepare_message_turn], and acknowledged by its recipient. *)

From S2P Require Import Prelude Graph Instance Store.
From S2P Require Membership Topology Route Mailbox.
From stdpp Require Import base tactics gmap strings list sorting relations.
From Stdlib Require Import ZArith Lia.

Import Mailbox.
Import Delivery.

Definition load_message (d : db) (id : CoordinationMessageId) : option CoordinationMessage :=
  msg <$> messages d !! id.
Definition load_message_turn (d : db) (id : CoordinationMessageId) : option AgentMessageTurn :=
  turns d !! id.

(** The columns an operation may change. *)
Definition put_message (m : CoordinationMessage) (s : MessageDeliveryState) (attempts rev now : Z) :
    CoordinationMessage := {|
  message_id := message_id m;
  session_id := session_id m;
  sender_instance_id := sender_instance_id m;
  recipient_instance_id := recipient_instance_id m;
  task_id := task_id m;
  kind := kind m;
  payload := payload m;
  topology_revision := topology_revision m;
  route := route m;
  max_hops := max_hops m;
  state := s;
  delivery_attempts := attempts;
  revision := rev;
  expires_at := expires_at m;
  created_at := created_at m;
  updated_at := now;
|}.

(** [UPDATE coordination_messages SET ... WHERE message_id=? AND ...] *)
Definition update_messages (d : db) (id : CoordinationMessageId) (guard : message_row → bool)
    (f : message_row → message_row) : Z * db :=
  match messages d !! id with
  | Some r => if guard r then (1%Z, set_messages d (<[id := f r]> (messages d))) else (0%Z, d)
  | None => (0%Z, d)
  end.

(** [enqueue_message] *)
Definition enqueue_message (d : db) (m : CoordinationMessage)
    (membership : Membership.SessionMembership) (topology : Topology.SessionTopology) (now : Z) :
    tx unit :=
  _ <- invalid (validate_new m topology membership now);;
  match load_message d (message_id m) with
  | Some existing => Err (MessageConflict (message_id m) None (Some (revision existing)))
  | None =>
      bail topology_revision_of d (session_id m) != Some (topology_revision m) with Invalid;;
      _ <- checked_i64 (topology_revision m);;
      bail match task_id m with
           | Some t => bool_decide (Store.tasks d !! t = None)
           | None => false
           end with Store;;
      Ok (tt, set_messages d (<[message_id m := {|
        msg := put_message m Pending 0 0 (updated_at m);
        lease_owner := None; row_lease_epoch := 0; row_lease_expires_at := None |}]>
        (messages d)))
  end.

(** [state='pending' OR (state='claimed' AND lease_expires_at<=now)] *)
Definition lease_free (r : message_row) (now : Z) : bool :=
  (state (msg r) == Pending)
  || (state (msg r) == Claimed)
     && match row_lease_expires_at r with Some e => (e <=? now)%Z | None => false end.

Definition deliverable (r : message_row) (recipient : AgentInstanceId) (now : Z) : bool :=
  (recipient_instance_id (msg r) == recipient) && (now <? expires_at (msg r))%Z
  && lease_free r now.

(** [ORDER BY created_at, message_id] *)
Definition older (a b : message_row) : bool :=
  (created_at (msg a) <? created_at (msg b))%Z
  || (created_at (msg a) =? created_at (msg b))%Z
     && string_le (message_id (msg a)) (message_id (msg b)).

Definition ordered_messages (d : db) (select : message_row → bool) : list message_row :=
  stable_sort older (filter (λ r, select r = true) ((map_to_list (messages d)).*2)).

(** [claim_message] *)
Definition claim_message (d : db) (recipient : AgentInstanceId) (now lease_seconds : Z) :
    tx (option MessageClaim) :=
  bail (lease_seconds =? 0)%Z || (MAX_MESSAGE_LEASE_SECONDS <? lease_seconds)%Z with Invalid;;
  match ordered_messages d (λ r, deliverable r recipient now) with
  | [] => Ok (None, d)
  | r :: _ =>
      let id := message_id (msg r) in
      let rev := revision (msg r) in
      epoch <- checked_u64 (row_lease_epoch r);;
      next_epoch <- next_u64 epoch;;
      revision_ <- checked_u64 rev;;
      next_revision <- next_u64 revision_;;
      attempts <- checked_u32 (delivery_attempts (msg r));;
      next_attempts <- next_u32 attempts;;
      lease_delta <- ok_or (i64_of_u64 lease_seconds) Invalid;;
      lease_expires_at <- ok_or (checked_add_i64 now lease_delta) Invalid;;
      _ <- checked_i64 next_epoch;;
      _ <- checked_i64 next_revision;;
      let '(changed, d) := update_messages d id
        (λ r, (revision (msg r) =? rev)%Z && lease_free r now)
        (λ r, {| msg := put_message (msg r) Claimed next_attempts next_revision now;
                 lease_owner := Some recipient; row_lease_epoch := next_epoch;
                 row_lease_expires_at := Some lease_expires_at |}) in
      bail negb (changed =? 1)%Z with MessageConflict id (Some rev) None;;
      message <- ok_or (load_message d id) Store;;
      Ok (Some {| message := put_message message Claimed (delivery_attempts message)
                               (revision message) (updated_at message);
                  lease_epoch := next_epoch; lease_expires_at := lease_expires_at |}, d)
  end.

(** [lease_expires_at > now] *)
Definition lease_live (r : message_row) (now : Z) : bool :=
  match row_lease_expires_at r with Some e => (now <? e)%Z | None => false end.

(** A row after its lease columns are cleared. *)
Definition release (r : message_row) (s : MessageDeliveryState) (rev now : Z) : message_row := {|
  msg := put_message (msg r) s (delivery_attempts (msg r)) rev now;
  lease_owner := None;
  row_lease_epoch := row_lease_epoch r;
  row_lease_expires_at := None;
|}.

(** [finish_message_claim] *)
Definition finish_message_claim (d : db) (id : CoordinationMessageId)
    (recipient : AgentInstanceId) (epoch : Z) (next_state : MessageDeliveryState) (now : Z) :
    tx CoordinationMessage :=
  bail negb (can_transition_to Claimed next_state) with Invalid;;
  let current_revision := revision <$> load_message d id in
  next_revision <- ok_or (rev ← current_revision; checked_add u64_max rev 1)
    (MessageConflict id None None);;
  _ <- checked_i64 next_revision;;
  _ <- checked_i64 epoch;;
  let '(changed, d) := update_messages d id
    (λ r, (state (msg r) == Claimed) && (lease_owner r == Some recipient)
          && (row_lease_epoch r =? epoch)%Z && lease_live r now)
    (λ r, release r next_state next_revision now) in
  bail negb (changed =? 1)%Z with MessageConflict id current_revision current_revision;;
  message <- ok_or (load_message d id) Store;;
  Ok (message, d).

(** The uniqueness constraint and the foreign keys of a new receipt. *)
Definition receipt_rejected (d : db) (session : SessionId) (recipient : AgentInstanceId)
    (turn : string) : bool :=
  bool_decide (Exists (λ t, mt_session_id t = session ∧ turn_id t = turn)
    ((map_to_list (turns d)).*2))
  || negb (has_instance d session recipient).

(** [prepare_message_turn] *)
Definition prepare_message_turn (d : db) (claim : MessageClaim) (turn : string) (now : Z) :
    tx (CoordinationMessage * AgentMessageTurn) :=
  let m := message claim in
  bail trim_is_empty turn || (256 <? String.length turn)%nat with Invalid;;
  match load_message_turn d (message_id m) with
  | Some existing =>
      stored <- ok_or (load_message d (message_id m)) Store;;
      if (mt_session_id existing == session_id m)
         && (mt_recipient_instance_id existing == recipient_instance_id m)
         && (turn_id existing == turn)
         && ((state stored == Delivered) || (state stored == Acknowledged))
      then Ok (stored, existing, d)
      else Err Invalid
  | None =>
      next_revision <- next_u64 (revision m);;
      _ <- checked_i64 next_revision;;
      _ <- checked_i64 (lease_epoch claim);;
      _ <- checked_i64 (revision m);;
      let '(changed, d) := update_messages d (message_id m)
        (λ r, (state (msg r) == Claimed)
              && (recipient_instance_id (msg r) == recipient_instance_id m)
              && (row_lease_epoch r =? lease_epoch claim)%Z
              && (revision (msg r) =? revision m)%Z && lease_live r now)
        (λ r, release r Delivered next_revision now) in
      bail negb (changed =? 1)%Z with MessageConflict (message_id m) (Some (revision m)) None;;
      bail receipt_rejected d (session_id m) (recipient_instance_id m) turn with Store;;
      let receipt := {|
        mt_message_id := message_id m; mt_session_id := session_id m;
        mt_recipient_instance_id := recipient_instance_id m; turn_id := turn;
        mt_created_at := now |} in
      let d := set_turns d (<[message_id m := receipt]> (turns d)) in
      stored <- ok_or (load_message d (message_id m)) Store;;
      loaded <- ok_or (load_message_turn d (message_id m)) Store;;
      Ok (stored, loaded, d)
  end.

(** [acknowledge_message] *)
Definition acknowledge_message (d : db) (id : CoordinationMessageId)
    (recipient : AgentInstanceId) (expected_revision now : Z) : tx CoordinationMessage :=
  current <- ok_or (load_message d id) (MessageConflict id (Some expected_revision) None);;
  bail negb (revision current =? expected_revision)%Z
    with MessageConflict id (Some expected_revision) (Some (revision current));;
  bail (recipient_instance_id current != recipient)
       || negb (can_transition_to (state current) Acknowledged) with Invalid;;
  next_revision <- next_u64 (revision current);;
  _ <- checked_i64 next_revision;;
  _ <- checked_i64 (revision current);;
  let '(changed, d) := update_messages d id
    (λ r, (recipient_instance_id (msg r) == recipient) && (state (msg r) == Delivered)
          && (revision (msg r) =? revision current)%Z)
    (λ r, {| msg := put_message (msg r) Acknowledged (delivery_attempts (msg r))
                      next_revision now;
             lease_owner := lease_owner r; row_lease_epoch := row_lease_epoch r;
             row_lease_expires_at := row_lease_expires_at r |}) in
  bail negb (changed =? 1)%Z with MessageConflict id (Some (revision current)) None;;
  message <- ok_or (load_message d id) Store;;
  Ok (message, d).

(** The delivered messages of a recipient with the receipts of their turns. *)
Fixpoint with_receipts (d : db) (rs : list message_row) :
    res (list (CoordinationMessage * AgentMessageTurn)) SessionStoreError :=
  match rs with
  | [] => Ok []
  | r :: rs =>
      receipt <- ok_or (load_message_turn d (message_id (msg r))) Store;;
      rest <- with_receipts d rs;;
      Ok ((msg r, receipt) :: rest)
  end.

(** [recoverable_message_turns] *)
Definition recoverable_message_turns (d : db) (recipient : AgentInstanceId) :
    res (list (CoordinationMessage * AgentMessageTurn)) SessionStoreError :=
  with_receipts d (ordered_messages d (λ r,
    (recipient_instance_id (msg r) == recipient) && (state (msg r) == Delivered))).

(** [recoverable_message_recipients] *)
Definition recoverable_message_recipients (d : db) (now : Z) : list AgentInstanceId :=
  stable_sort string_le (elements (list_to_set (C := gset string)
    ((λ r, recipient_instance_id (msg r)) <$> filter (λ r,
      (now <? expires_at (msg r))%Z && ((state (msg r) == Delivered) || lease_free r now) = true)
      ((map_to_list (messages d)).*2)))).

(** * Invariant *)

(** A row is under its key, its lease columns are set exactly while it is
    claimed (the [CHECK] of the schema), and its epoch counts its claims. *)
Record row_inv (id : CoordinationMessageId) (r : message_row) : Prop := {
  ri_key : message_id (msg r) = id;
  ri_claimed : state (msg r) = Claimed →
    lease_owner r = Some (recipient_instance_id (msg r)) ∧ is_Some (row_lease_expires_at r);
  ri_released : state (msg r) ≠ Claimed → lease_owner r = None ∧ row_lease_expires_at r = None;
  ri_epoch : (0 ≤ row_lease_epoch r)%Z ∧ row_lease_epoch r = delivery_attempts (msg r);
  ri_revision : (0 ≤ revision (msg r) ≤ i64_max)%Z;
}.

Definition has_turn_state (r : message_row) : Prop :=
  state (msg r) = Delivered ∨ state (msg r) = Acknowledged.

Record messages_ok (d : db) : Prop := {
  mo_rows : ∀ id r, messages d !! id = Some r → row_inv id r;
  mo_turns : ∀ id t, turns d !! id = Some t → mt_message_id t = id ∧
    ∃ r, messages d !! id = Some r ∧ has_turn_state r ∧
      mt_recipient_instance_id t = recipient_instance_id (msg r);
}.

(** One committed change of a message: it keeps its envelope, gains one
    revision, and is claimed again or moves along the lifecycle. *)
Record message_step (r r' : message_row) : Prop := {
  ms_envelope : message_id (msg r') = message_id (msg r) ∧
    session_id (msg r') = session_id (msg r) ∧
    sender_instance_id (msg r') = sender_instance_id (msg r) ∧
    recipient_instance_id (msg r') = recipient_instance_id (msg r) ∧
    task_id (msg r') = task_id (msg r) ∧ payload (msg r') = payload (msg r) ∧
    route (msg r') = route (msg r) ∧ expires_at (msg r') = expires_at (msg r) ∧
    created_at (msg r') = created_at (msg r) ∧ kind (msg r') = kind (msg r) ∧
    topology_revision (msg r') = topology_revision (msg r) ∧
    max_hops (msg r') = max_hops (msg r);
  ms_revision : revision (msg r') = (revision (msg r) + 1)%Z;
  ms_state : can_transition_to (state (msg r)) (state (msg r')) = true ∨
    (state (msg r) = Claimed ∧ state (msg r') = Claimed);
  ms_epoch : row_lease_epoch r' = (row_lease_epoch r
    + if decide (state (msg r') = Claimed) then 1 else 0)%Z;
}.

(** The messages and receipts before and after an operation: rows are added
    or changed by one step, receipts are only added. *)
Record mail_step (d d' : db) : Prop := {
  ml_rows : ∀ id, match messages d !! id, messages d' !! id with
    | None, _ => True
    | Some _, None => False
    | Some r, Some r' => r' = r ∨ message_step r r'
    end;
  ml_turns : turns d ⊆ turns d';
}.

Lemma mail_step_refl d : mail_step d d.
Proof. split; [|done]. intros id. destruct (messages d !! id); [by left|done]. Qed.

Lemma mail_step_update d d' id r r' :
  messages d !! id = Some r → messages d' = <[id := r']> (messages d) → message_step r r' →
  turns d ⊆ turns d' → mail_step d d'.
Proof.
  intros Hr Hd Hs Ht. split; [|done]. intros i. rewrite Hd.
  destruct (decide (i = id)) as [->|Hne].
  - rewrite Hr, lookup_insert_eq. by right.
  - rewrite lookup_insert_ne by done. destruct (messages d !! i); [by left|done].
Qed.

(** An update of a row that is not bound to a turn keeps the invariant. *)
Lemma messages_ok_update d d' id r r' :
  messages_ok d → messages d !! id = Some r → messages d' = <[id := r']> (messages d) →
  turns d' = turns d → row_inv id r' →
  (has_turn_state r → has_turn_state r' ∧
     recipient_instance_id (msg r') = recipient_instance_id (msg r)) →
  messages_ok d'.
Proof.
  intros [Hrows Hturns] Hr Hd Ht Hinv Hkeep. split.
  - intros i x. rewrite Hd. destruct (decide (i = id)) as [->|Hne].
    + rewrite lookup_insert_eq. by intros [= <-].
    + rewrite lookup_insert_ne by done. apply Hrows.
  - intros i t. rewrite Ht, Hd. intros Hi. destruct (Hturns i t Hi) as (Hid & x & Hx & Hst & Hrec).
    split; [done|]. destruct (decide (i = id)) as [->|Hne].
    + rewrite lookup_insert_eq. exists r'. assert (x = r) as -> by congruence.
      destruct (Hkeep Hst) as [? ->]. done.
    + rewrite lookup_insert_ne by done. by exists x.
Qed.

Lemma update_messages_hit d id guard f n d' :
  update_messages d id guard f = (n, d') → n = 1%Z →
  ∃ r, messages d !! id = Some r ∧ guard r = true ∧
    d' = set_messages d (<[id := f r]> (messages d)).
Proof.
  unfold update_messages. destruct (messages d !! id) as [r|]; [|by intros [= <-]].
  destruct (guard r) eqn:Eg; [|by intros [= <-]]. intros [= <- <-] _. by exists r.
Qed.

Ltac inv_mail :=
  repeat match goal with
  | H : checked_i64 _ = Ok _ |- _ => apply checked_i64_ok in H as [-> ?]
  | H : next_u64 _ = Ok _ |- _ => apply next_u64_ok in H as [-> ?]
  | H : next_u32 _ = Ok _ |- _ => apply next_u32_ok in H as [-> ?]
  | H : checked_u64 _ = Ok _ |- _ => apply checked_u64_ok in H as [-> ?]
  | H : checked_u32 _ = Ok _ |- _ => apply checked_u32_ok in H as [-> ?]
  | _ => progress inv_ok
  | _ => progress destruct_guards
  | H : (_ =? _)%Z = true |- _ => apply Z.eqb_eq in H
  | H : (_ =? _)%Z = false |- _ => apply Z.eqb_neq in H
  | H : context [update_messages ?d ?id ?g ?f] |- _ =>
      lazymatch type of H with _ = Ok _ => idtac end;
      let n := fresh "n" in let d' := fresh "d1" in let E := fresh "E" in
      destruct (update_messages d id g f) as [n d'] eqn:E
  end.

Lemma lease_free_iff r now :
  lease_free r now = true ↔
  state (msg r) = Pending ∨
  (state (msg r) = Claimed ∧ ∃ e, row_lease_expires_at r = Some e ∧ (e ≤ now)%Z).
Proof.
  unfold lease_free. rewrite orb_true_iff, andb_true_iff, !bool_decide_eq_true.
  destruct (row_lease_expires_at r) as [e|]; [rewrite Z.leb_le|]; naive_solver.
Qed.

Lemma lease_live_iff r now :
  lease_live r now = true ↔ ∃ e, row_lease_expires_at r = Some e ∧ (now < e)%Z.
Proof.
  unfold lease_live. destruct (row_lease_expires_at r) as [e|]; [rewrite Z.ltb_lt|]; naive_solver.
Qed.

(** ** The outcome of each operation *)

Lemma ordered_in d select r :
  messages_ok d → r ∈ ordered_messages d select →
  select r = true ∧ messages d !! message_id (msg r) = Some r.
Proof.
  intros Hok. unfold ordered_messages. rewrite stable_sort_perm, list_elem_of_filter.
  intros [Hsel Hin]. split; [done|]. apply list_elem_of_fmap in Hin as ([k r0] & -> & Hin).
  apply elem_of_map_to_list in Hin. simpl in *.
  pose proof (mo_rows _ Hok _ _ Hin) as Hinv. by rewrite (ri_key _ _ Hinv).
Qed.

Lemma enqueue_message_ok d m membership topology now d' :
  enqueue_message d m membership topology now = Ok (tt, d') →
  validate_new m topology membership now = Ok tt ∧ messages d !! message_id m = None ∧
  topology_revision_of d (session_id m) = Some (topology_revision m) ∧
  d' = set_messages d (<[message_id m := {|
        msg := put_message m Pending 0 0 (updated_at m);
        lease_owner := None; row_lease_epoch := 0; row_lease_expires_at := None |}]>
        (messages d)).
Proof.
  unfold enqueue_message. intros H. apply res_bind_ok in H as ([] & Hv & H).
  rewrite invalid_ok in Hv. destruct (load_message d (message_id m)) eqn:Em; [done|].
  apply fmap_None in Em. inv_mail. split_and!; done.
Qed.

(** A claim takes the oldest deliverable message. *)
Lemma claim_message_ok d recipient now secs claim d' :
  messages_ok d → claim_message d recipient now secs = Ok (Some claim, d') →
  ∃ r rest, ordered_messages d (λ r, deliverable r recipient now) = r :: rest ∧
    deliverable r recipient now = true ∧
    messages d !! message_id (msg r) = Some r ∧
    let r' := {| msg := put_message (msg r) Claimed (delivery_attempts (msg r) + 1)
                          (revision (msg r) + 1) now;
                 lease_owner := Some recipient; row_lease_epoch := row_lease_epoch r + 1;
                 row_lease_expires_at := Some (now + secs)%Z |} in
    d' = set_messages d (<[message_id (msg r) := r']> (messages d)) ∧
    claim = {| message := msg r'; lease_epoch := row_lease_epoch r + 1;
               lease_expires_at := now + secs |} ∧
    (secs ≠ 0 ∧ secs ≤ MAX_MESSAGE_LEASE_SECONDS)%Z ∧ (revision (msg r) < i64_max)%Z.
Proof.
  intros Hok H. unfold claim_message in H. apply bail_ok in H as [Hsecs H].
  destruct (ordered_messages d _) as [|r rest] eqn:Eo; [done|].
  destruct (ordered_in d (λ r, deliverable r recipient now) r) as [Hdel Hin]; [done|rewrite Eo; left|].
  exists r, rest. split; [done|]. split; [done|]. split; [done|]. cbv zeta in H |- *.
  apply orb_false_iff in Hsecs as [Hs0 Hs1]. inv_mail.
  match goal with E : update_messages _ _ _ _ = _ |- _ =>
    apply update_messages_hit in E as (r1 & Hr1 & _ & ->); [|done] end.
  rewrite Hin in Hr1. injection Hr1 as <-.
  match goal with Hl : load_message _ _ = Some _ |- _ =>
    unfold load_message in Hl; simpl in Hl; rewrite lookup_insert_eq in Hl;
    simpl in Hl; injection Hl as <- end.
  match goal with Hs : i64_of_u64 secs = Some _ |- _ =>
    unfold i64_of_u64 in Hs; case_match; [|done]; injection Hs as <- end.
  match goal with Hs : checked_add_i64 now secs = Some _ |- _ =>
    unfold checked_add_i64 in Hs; case_match; [|done]; injection Hs as <- end.
  split_and!; done || lia.
Qed.

(** No message is claimed exactly when none is deliverable. *)
Lemma claim_message_none d recipient now secs d' :
  claim_message d recipient now secs = Ok (None, d') →
  d' = d ∧ ∀ id r, messages d !! id = Some r → deliverable r recipient now = false.
Proof.
  intros H. unfold claim_message in H. apply bail_ok in H as [_ H].
  destruct (ordered_messages d _) as [|r rest] eqn:Eo.
  - injection H as <-. split; [done|]. intros id r Hr. apply not_true_is_false. intros Hdel.
    apply (not_elem_of_nil r). rewrite <- Eo. unfold ordered_messages.
    rewrite stable_sort_perm. apply list_elem_of_filter. split; [done|].
    apply list_elem_of_fmap. exists (id, r). split; [done|]. by apply elem_of_map_to_list.
  - cbv zeta in H. inv_mail; done.
Qed.

(** [older] is a total preorder, so a claim serves the oldest message. *)
Lemma older_iff a b :
  Is_true (older a b) ↔ (created_at (msg a) < created_at (msg b))%Z ∨
    (created_at (msg a) = created_at (msg b) ∧
     Is_true (string_le (message_id (msg a)) (message_id (msg b)))).
Proof.
  unfold older. rewrite !Is_true_true, orb_true_iff, andb_true_iff, Z.ltb_lt, Z.eqb_eq. done.
Qed.

#[global] Instance older_total : Total (λ a b, Is_true (older a b)).
Proof.
  intros a b. rewrite !older_iff.
  destruct (Z.lt_trichotomy (created_at (msg a)) (created_at (msg b))) as [?|[Heq|?]]; [tauto| |tauto].
  destruct (string_le_total (message_id (msg a)) (message_id (msg b))); [left|right]; right; done.
Qed.

#[global] Instance older_trans : Transitive (λ a b, Is_true (older a b)).
Proof.
  intros a b c. rewrite !older_iff. intros [?|[-> Hab]] [?|[<- Hbc]]; try (left; lia).
  right. split; [done|]. by apply (string_le_trans _ (message_id (msg b))).
Qed.

Lemma ordered_head d select r rest :
  ordered_messages d select = r :: rest →
  ∀ id x, messages d !! id = Some x → select x = true → Is_true (older r x).
Proof.
  intros Ho id x Hx Hsel. pose proof (stable_sort_sorted older
    (filter (λ r, select r = true) ((map_to_list (messages d)).*2))) as Hsorted.
  assert (x ∈ ordered_messages d select) as Hin.
  { unfold ordered_messages. rewrite stable_sort_perm, list_elem_of_filter. split; [done|].
    apply list_elem_of_fmap. exists (id, x). split; [done|]. by apply elem_of_map_to_list. }
  unfold ordered_messages in *. rewrite Ho in *. apply elem_of_cons in Hin as [->|Hin].
  - destruct (older_total r r); done.
  - apply StronglySorted_inv in Hsorted as [_ Hall]. by eapply Forall_forall in Hall.
Qed.

Lemma finish_message_claim_ok d id recipient epoch next now m d' :
  finish_message_claim d id recipient epoch next now = Ok (m, d') →
  ∃ r, messages d !! id = Some r ∧ can_transition_to Claimed next = true ∧
    state (msg r) = Claimed ∧ lease_owner r = Some recipient ∧ row_lease_epoch r = epoch ∧
    lease_live r now = true ∧
    let r' := release r next (revision (msg r) + 1) now in
    d' = set_messages d (<[id := r']> (messages d)) ∧ m = msg r' ∧
    (revision (msg r) < i64_max)%Z.
Proof.
  intros H. unfold finish_message_claim, load_message in H. inv_mail.
  match goal with E : update_messages _ _ _ _ = _ |- _ =>
    apply update_messages_hit in E as (r & Hr & Hg & ->); [|done] end.
  exists r. rewrite Hr in *. simpl in *.
  match goal with E : checked_add _ _ _ = Some _ |- _ => apply checked_add_some in E as [-> ?] end.
  rewrite lookup_insert_eq in *. simpl in *. inv_mail. simplify_eq/=. split_and!; done || lia.
Qed.

(** A preparation returns the receipt that exists or delivers the message and
    creates its receipt. *)
Lemma prepare_message_turn_ok d claim turn now m t d' :
  prepare_message_turn d claim turn now = Ok (m, t, d') →
  turn_id t = turn ∧ mt_recipient_instance_id t = recipient_instance_id (message claim) ∧
  mt_session_id t = session_id (message claim) ∧
  let id := message_id (message claim) in
  (turns d !! id = Some t ∧ d' = d ∧ ∃ r, messages d !! id = Some r ∧ m = msg r ∧
     has_turn_state r) ∨
  (turns d !! id = None ∧ ∃ r, messages d !! id = Some r ∧ state (msg r) = Claimed ∧
     recipient_instance_id (msg r) = recipient_instance_id (message claim) ∧
     row_lease_epoch r = lease_epoch claim ∧ revision (msg r) = revision (message claim) ∧
     lease_live r now = true ∧ (revision (msg r) < i64_max)%Z ∧ mt_message_id t = id ∧
     (∀ i t', turns d !! i = Some t' → mt_session_id t' = mt_session_id t → turn_id t' ≠ turn) ∧
     let r' := release r Delivered (revision (msg r) + 1) now in
     m = msg r' ∧
     d' = set_turns (set_messages d (<[id := r']> (messages d))) (<[id := t]> (turns d))).
Proof.
  intros H. unfold prepare_message_turn, load_message_turn, load_message in H. cbv zeta.
  apply bail_ok in H as [_ H]. destruct (turns d !! message_id (message claim)) as [t0|] eqn:Et.
  - apply res_bind_ok in H as (stored & Hst & H). apply ok_or_ok in Hst.
    destruct (messages d !! message_id (message claim)) as [r|] eqn:Er; [|done].
    injection Hst as <-. case_match eqn:Eg; [|done]. injection H as <- <- <-.
    apply andb_true_iff in Eg as [Eg Hst]. apply orb_true_iff in Hst.
    rewrite !bool_decide_eq_true in Hst. destruct_guards. split_and!; try done. left.
    split_and!; try done. by exists r.
  - inv_mail. match goal with E : update_messages _ _ _ _ = _ |- _ =>
      apply update_messages_hit in E as (r & Hr & Hg & ->); [|done] end.
    simpl in *. inv_mail. simplify_eq/=.
    repeat match goal with
    | Hl : context [<[?k := _]> _ !! ?k] |- _ => rewrite lookup_insert_eq in Hl
    end. simplify_eq/=. split_and!; try done. right. split; [done|].
    match goal with Hrv : revision (msg r) = _ |- _ => rewrite <- Hrv in * end.
    exists r. split_and!; try done; try lia.
    intros i t' Ht' Hs Heq. unfold receipt_rejected in *. destruct_guards.
    match goal with Hno : ¬ Exists _ _ |- _ => apply Hno end. apply Exists_exists.
    exists t'. split; [|done]. apply list_elem_of_fmap. exists (i, t'). split; [done|].
    by apply elem_of_map_to_list.
Qed.

Lemma acknowledge_message_ok d id recipient e now m d' :
  acknowledge_message d id recipient e now = Ok (m, d') →
  ∃ r, messages d !! id = Some r ∧ revision (msg r) = e ∧
    recipient_instance_id (msg r) = recipient ∧ state (msg r) = Delivered ∧
    (revision (msg r) < i64_max)%Z ∧
    let r' := {| msg := put_message (msg r) Acknowledged (delivery_attempts (msg r))
                          (revision (msg r) + 1) now;
                 lease_owner := lease_owner r; row_lease_epoch := row_lease_epoch r;
                 row_lease_expires_at := row_lease_expires_at r |} in
    d' = set_messages d (<[id := r']> (messages d)) ∧ m = msg r'.
Proof.
  intros H. unfold acknowledge_message, load_message in H. inv_mail.
  match goal with E : update_messages _ _ _ _ = _ |- _ =>
    apply update_messages_hit in E as (r & Hr & Hg & ->); [|done] end.
  rewrite Hr in *. simpl in *. rewrite lookup_insert_eq in *. simpl in *. inv_mail. simplify_eq/=.
  exists r. destruct_guards. split_and!; done || lia.
Qed.

(** * Steps and invariants *)

Lemma release_step r s rev now :
  state (msg r) = Claimed → can_transition_to Claimed s = true → rev = (revision (msg r) + 1)%Z →
  message_step r (release r s rev now).
Proof.
  intros Hst Hs ->. split; simpl; [split_and!; done|done|left; by rewrite Hst|].
  case_decide; [|lia]. by subst s.
Qed.

Lemma release_inv id r s rev now :
  row_inv id r → s ≠ Claimed → rev = (revision (msg r) + 1)%Z → (rev ≤ i64_max)%Z →
  row_inv id (release r s rev now).
Proof. intros [] Hs -> Hr. split; simpl; try done; lia. Qed.

Lemma not_claimed_next s : can_transition_to Claimed s = true → s ≠ Claimed.
Proof. by destruct s. Qed.

Inductive mail_op :=
  | OpEnqueue (m : CoordinationMessage) (membership : Membership.SessionMembership)
      (topology : Topology.SessionTopology) (now : Z)
  | OpClaim (recipient : AgentInstanceId) (now lease_seconds : Z)
  | OpFinish (id : CoordinationMessageId) (recipient : AgentInstanceId) (epoch : Z)
      (next_state : MessageDeliveryState) (now : Z)
  | OpPrepare (claim : MessageClaim) (turn : string) (now : Z)
  | OpAcknowledge (id : CoordinationMessageId) (recipient : AgentInstanceId)
      (expected_revision now : Z).

Definition exec (d : db) (op : mail_op) : db :=
  match op with
  | OpEnqueue m membership topology now =>
      (run d (enqueue_message d m membership topology now)).2
  | OpClaim recipient now secs => (run d (claim_message d recipient now secs)).2
  | OpFinish id recipient epoch next now =>
      (run d (finish_message_claim d id recipient epoch next now)).2
  | OpPrepare claim turn now => (run d (prepare_message_turn d claim turn now)).2
  | OpAcknowledge id recipient e now => (run d (acknowledge_message d id recipient e now)).2
  end.

Lemma claim_step d recipient now secs claim d' :
  messages_ok d → claim_message d recipient now secs = Ok (Some claim, d') →
  mail_step d d' ∧ messages_ok d'.
Proof.
  intros Hok H. destruct (claim_message_ok d recipient now secs claim d' Hok H)
    as (r & rest & _ & Hdel & Hr & -> & -> & _ & Hrev).
  pose proof (mo_rows _ Hok _ _ Hr) as [Hk _ _ [He1 He2] Hrev0].
  unfold deliverable in Hdel. apply andb_true_iff in Hdel as [Hdel Hfree].
  apply lease_free_iff in Hfree. destruct_guards. split.
  - eapply mail_step_update; [done|done| |done].
    split; simpl; [split_and!; done|done| |done].
    destruct Hfree as [->|[-> _]]; [by left|by right].
  - eapply messages_ok_update; [done|done|done|done| |].
    + split; simpl; try done; try lia. intros _. split; [congruence|done].
    + intros [Hs|Hs]; rewrite Hs in Hfree; destruct Hfree as [?|[? _]]; done.
Qed.

Lemma finish_step d id recipient epoch next now m d' :
  messages_ok d → finish_message_claim d id recipient epoch next now = Ok (m, d') →
  mail_step d d' ∧ messages_ok d'.
Proof.
  intros Hok H. destruct (finish_message_claim_ok _ _ _ _ _ _ _ _ H)
    as (r & Hr & Hn & Hs & _ & _ & _ & -> & _ & Hrev).
  pose proof (mo_rows _ Hok _ _ Hr) as Hinv. split.
  - eapply mail_step_update; [done|done| |done]. by apply release_step.
  - eapply messages_ok_update; [done|done|done|done| |].
    + apply release_inv; [done|by apply not_claimed_next|done|lia].
    + intros [Hx|Hx]; rewrite Hs in Hx; done.
Qed.

Lemma acknowledge_step d id recipient e now m d' :
  messages_ok d → acknowledge_message d id recipient e now = Ok (m, d') →
  mail_step d d' ∧ messages_ok d'.
Proof.
  intros Hok H. destruct (acknowledge_message_ok _ _ _ _ _ _ _ H)
    as (r & Hr & _ & _ & Hs & Hrev & -> & _).
  pose proof (mo_rows _ Hok _ _ Hr) as [Hk _ Hrel He Hrev0]. split.
  - eapply mail_step_update; [done|done| |done].
    split; simpl; [split_and!; done|done|left; by rewrite Hs|lia].
  - eapply messages_ok_update; [done|done|done|done| |].
    + split; simpl; try done; try lia. intros _. apply Hrel. by rewrite Hs.
    + intros _. split; [by right|done].
Qed.

Lemma prepare_step d claim turn now m t d' :
  messages_ok d → prepare_message_turn d claim turn now = Ok (m, t, d') →
  mail_step d d' ∧ messages_ok d'.
Proof.
  intros Hok H. destruct (prepare_message_turn_ok _ _ _ _ _ _ _ H)
    as (_ & Hrec & _ & [(_ & -> & _)|(Hnone & r & Hr & Hs & Hrec' & _ & _ & _ & Hrev & Hid & _ & _ & Hd)]).
  { split; [apply mail_step_refl|done]. }
  apply (f_equal messages) in Hd as Hm. apply (f_equal turns) in Hd as Ht. simpl in Hm, Ht.
  pose proof (mo_rows _ Hok _ _ Hr) as Hinv. split.
  - eapply mail_step_update; [done|done|by apply release_step|].
    rewrite Ht. by apply insert_subseteq.
  - split.
    + intros i x. rewrite Hm. destruct (decide (i = message_id (message claim))) as [->|Hne].
      * rewrite lookup_insert_eq. intros [= <-]. apply release_inv; [done|done|done|lia].
      * rewrite lookup_insert_ne by done. apply (mo_rows _ Hok).
    + intros i x. rewrite Ht, Hm. destruct (decide (i = message_id (message claim))) as [->|Hne].
      * rewrite !lookup_insert_eq. intros [= <-]. split; [done|]. eexists. split; [done|].
        split; [by left|]. simpl. congruence.
      * rewrite !lookup_insert_ne by done. apply (mo_turns _ Hok).
Qed.

Lemma enqueue_step d m membership topology now d' :
  messages_ok d → enqueue_message d m membership topology now = Ok (tt, d') →
  mail_step d d' ∧ messages_ok d'.
Proof.
  intros Hok H. apply enqueue_message_ok in H as (_ & Hnone & _ & ->). split.
  - split; [|done]. intros i. simpl. destruct (decide (i = message_id m)) as [->|Hne].
    + by rewrite Hnone.
    + rewrite lookup_insert_ne by done. destruct (messages d !! i); [by left|done].
  - split; simpl.
    + intros i x. destruct (decide (i = message_id m)) as [->|Hne].
      * rewrite lookup_insert_eq. intros [= <-]. split; simpl; done || lia.
      * rewrite lookup_insert_ne by done. apply (mo_rows _ Hok).
    + intros i t Ht. destruct (mo_turns _ Hok i t Ht) as (? & r & Hr & ?). split; [done|].
      exists r. split; [|done]. rewrite lookup_insert_ne; [done|]. intros <-. congruence.
Qed.

(** Every operation is a step and keeps the invariant. *)
Lemma mail_exec_step d op : messages_ok d → mail_step d (exec d op) ∧ messages_ok (exec d op).
Proof.
  intros Hok. destruct op as [m mb tp now|rc now secs|id rc ep nx now|cl tn now|id rc e now]; simpl.
  - destruct (run_cases d (enqueue_message d m mb tp now)) as [->|[[] Hc]];
      [split; [apply mail_step_refl|done]|by eapply enqueue_step].
  - destruct (run_cases d (claim_message d rc now secs)) as [->|[[cl|] Hc]];
      [split; [apply mail_step_refl|done]|by eapply claim_step|].
    apply claim_message_none in Hc as [-> _]. split; [apply mail_step_refl|done].
  - destruct (run_cases d (finish_message_claim d id rc ep nx now)) as [->|[m Hc]];
      [split; [apply mail_step_refl|done]|by eapply finish_step].
  - destruct (run_cases d (prepare_message_turn d cl tn now)) as [->|[[m t] Hc]];
      [split; [apply mail_step_refl|done]|by eapply prepare_step].
  - destruct (run_cases d (acknowledge_message d id rc e now)) as [->|[m Hc]];
      [split; [apply mail_step_refl|done]|by eapply acknowledge_step].
Qed.

(** * Runs *)

Definition mail_run : relation db := rtc mail_step.

(** A property of a row that every change of the row keeps. *)
Lemma mail_run_row d d' id r (P : message_row → Prop) :
  (∀ r r', P r → message_step r r' → P r') →
  mail_run d d' → messages d !! id = Some r → P r →
  ∃ r', messages d' !! id = Some r' ∧ P r'.
Proof.
  intros HP Hrun. revert r. induction Hrun as [d|d d1 d2 Hs _ IH]; intros r Hr Hp; [by eauto|].
  pose proof (ml_rows _ _ Hs id) as Hid. rewrite Hr in Hid.
  destruct (messages d1 !! id) as [r1|] eqn:E1; [|done].
  apply (IH r1); [done|]. destruct Hid as [->|Hid]; [done|]. by eapply HP.
Qed.

Lemma mail_run_turn d d' id t : mail_run d d' → turns d !! id = Some t → turns d' !! id = Some t.
Proof.
  intros Hrun Ht. induction Hrun as [|d d1 d2 Hs _ IH]; [done|]. apply IH.
  by apply (lookup_weaken _ _ _ _ Ht), Hs.
Qed.

(** A live lease keeps its message from being claimed again. *)
Lemma claim_exclusive d id r recipient now secs claim d' :
  messages_ok d → messages d !! id = Some r → state (msg r) = Claimed → lease_live r now = true →
  claim_message d recipient now secs = Ok (Some claim, d') → message_id (message claim) ≠ id.
Proof.
  intros Hok Hr Hs Hlive Hc Heq.
  destruct (claim_message_ok _ _ _ _ _ _ Hok Hc) as (r0 & _ & _ & Hdel & Hr0 & _ & -> & _).
  simpl in Heq. rewrite Heq in Hr0. assert (r0 = r) as -> by congruence.
  unfold deliverable in Hdel. apply andb_true_iff in Hdel as [_ Hfree].
  apply lease_free_iff in Hfree as [?|[_ (e & He & ?)]]; [congruence|].
  apply lease_live_iff in Hlive as (e' & He' & ?). rewrite He in He'. simplify_eq. lia.
Qed.

(** The epoch of a claim that was taken over. *)
Definition epoch_passed (d : db) (id : CoordinationMessageId) (epoch : Z) : Prop :=
  ∃ r, messages d !! id = Some r ∧ (epoch < row_lease_epoch r)%Z.

Lemma epoch_passed_stable d d' id epoch :
  mail_run d d' → epoch_passed d id epoch → epoch_passed d' id epoch.
Proof.
  intros Hrun (r & Hr & He). apply (mail_run_row d d' id r (λ r, (epoch < row_lease_epoch r)%Z));
    [|done..].
  intros r1 r2 Hlt [_ _ _ Hep]. destruct (decide (state (msg r2) = Claimed)); lia.
Qed.

(** A superseded claim can neither finish nor prepare its message. *)
Lemma epoch_passed_fenced d id epoch :
  epoch_passed d id epoch →
  (∀ recipient next now m d', finish_message_claim d id recipient epoch next now ≠ Ok (m, d')) ∧
  (∀ claim turn now m t d', message_id (message claim) = id → lease_epoch claim = epoch →
     turns d !! id = None → prepare_message_turn d claim turn now ≠ Ok (m, t, d')).
Proof.
  intros (r & Hr & He). split.
  - intros rc nx now m d' Hf.
    apply finish_message_claim_ok in Hf as (r' & Hr' & _ & _ & _ & Hep & _).
    rewrite Hr in Hr'. simplify_eq. lia.
  - intros claim turn now m t d' <- <- Hnone Hp.
    apply prepare_message_turn_ok in Hp as (_ & _ & _ & [(Hsome & _)|(_ & r' & Hr' & _ & _ & Hep & _)]);
      [congruence|]. rewrite Hr in Hr'. simplify_eq. lia.
Qed.

(** A claim passes every earlier epoch of its message. *)
Lemma claim_passes d recipient now secs claim d' epoch r :
  messages_ok d → claim_message d recipient now secs = Ok (Some claim, d') →
  messages d !! message_id (message claim) = Some r → (epoch ≤ row_lease_epoch r)%Z →
  epoch_passed d' (message_id (message claim)) epoch ∧ lease_epoch claim = (row_lease_epoch r + 1)%Z.
Proof.
  intros Hok Hc Hr Hle.
  destruct (claim_message_ok _ _ _ _ _ _ Hok Hc) as (r0 & _ & _ & _ & Hr0 & -> & -> & _).
  simpl in *. rewrite Hr in Hr0. simplify_eq. split; [|done].
  eexists. simpl. rewrite lookup_insert_eq. split; [done|]. simpl. lia.
Qed.

(** A message is bound to one turn: once it is prepared, every later
    preparation returns the same receipt. *)
Lemma one_turn d claim turn now m t d1 d2 claim' turn' now' m' t' d3 :
  prepare_message_turn d claim turn now = Ok (m, t, d1) → mail_run d1 d2 →
  message_id (message claim') = message_id (message claim) →
  prepare_message_turn d2 claim' turn' now' = Ok (m', t', d3) →
  t' = t ∧ turn' = turn ∧ d3 = d2.
Proof.
  intros Hp Hrun Hid Hp'.
  assert (turns d2 !! message_id (message claim) = Some t) as Ht2.
  { apply (mail_run_turn d1); [done|]. apply prepare_message_turn_ok in Hp
      as (_ & _ & _ & [(Ht & -> & _)|(_ & r & _ & _ & _ & _ & _ & _ & _ & _ & _ & _ & ->)]);
      [done|apply lookup_insert_eq]. }
  apply prepare_message_turn_ok in Hp as (Htid & _).
  apply prepare_message_turn_ok in Hp' as (Htid' & _ & _ & Hcase). rewrite Hid in Hcase.
  destruct Hcase as [(Ht & -> & _)|(Hnone & _)]; [|congruence].
  rewrite Ht in Ht2. simplify_eq. done.
Qed.

(** A message that left its claim is finished by nobody. *)
Definition settled (r : message_row) : Prop := state (msg r) ≠ Pending ∧ state (msg r) ≠ Claimed.

Lemma settled_step r r' : settled r → message_step r r' → settled r'.
Proof.
  intros [Hp Hc] [_ _ Hs _]. destruct Hs as [Hs|[? _]]; [|done].
  split; intros Heq; rewrite Heq in Hs; destruct (state (msg r)); done.
Qed.

Lemma finish_claim_once d id recipient epoch next now m d1 d2 recipient' epoch' next' now' m' d3 :
  finish_message_claim d id recipient epoch next now = Ok (m, d1) → mail_run d1 d2 →
  finish_message_claim d2 id recipient' epoch' next' now' ≠ Ok (m', d3).
Proof.
  intros Hf Hrun Hf'.
  apply finish_message_claim_ok in Hf as (r & Hr & Hn & _ & _ & _ & _ & -> & _).
  apply finish_message_claim_ok in Hf' as (r' & Hr' & _ & Hs' & _).
  destruct (mail_run_row _ d2 id (release r next (revision (msg r) + 1) now) settled
    settled_step Hrun) as (x & Hx & [_ Hx']).
  - simpl. apply lookup_insert_eq.
  - split; simpl; [by destruct next|by apply not_claimed_next].
  - rewrite Hx in Hr'. simplify_eq.
Qed.

(** The recovery listing returns the delivered messages with their receipts
    when all of them have one, and fails as soon as one has none. *)
Lemma with_receipts_ok d rs l :
  with_receipts d rs = Ok l ↔
  Forall2 (λ r x, x.1 = msg r ∧ turns d !! message_id (msg r) = Some x.2) rs l.
Proof.
  revert l. induction rs as [|r rs IH]; intros l; simpl.
  - split; [by intros [= <-]|]. by intros ->%Forall2_nil_inv_l.
  - split.
    + intros H. apply res_bind_ok in H as (t & Ht & H). apply ok_or_ok in Ht.
      apply res_bind_ok in H as (rest & Hrest & [= <-]). constructor; [done|by apply IH].
    + intros H. apply Forall2_cons_inv_l in H as ([m t] & rest & [Hm Ht] & Hrest & ->).
      simpl in Hm, Ht. subst m. unfold load_message_turn. rewrite Ht. simpl.
      by rewrite (proj2 (IH rest) Hrest).
Qed.

Lemma recoverable_fails d recipient id r :
  messages_ok d → messages d !! id = Some r → recipient_instance_id (msg r) = recipient →
  state (msg r) = Delivered → turns d !! id = None →
  recoverable_message_turns d recipient = Err Store.
Proof.
  intros Hok Hr Hrec Hs Hnone. unfold recoverable_message_turns.
  assert (r ∈ ordered_messages d (λ r,
    (recipient_instance_id (msg r) == recipient) && (state (msg r) == Delivered))) as Hin.
  { unfold ordered_messages. rewrite stable_sort_perm, list_elem_of_filter.
    rewrite andb_true_iff, !bool_decide_eq_true. split; [done|].
    apply list_elem_of_fmap. exists (id, r). split; [done|]. by apply elem_of_map_to_list. }
  revert Hin. generalize (ordered_messages d (λ r,
    (recipient_instance_id (msg r) == recipient) && (state (msg r) == Delivered))).
  pose proof (ri_key _ _ (mo_rows _ Hok _ _ Hr)) as Hk. clear Hok.
  induction l as [|x l IH]; [by intros ?%not_elem_of_nil|]. simpl. unfold load_message_turn.
  intros [->|Hin]%elem_of_cons; [by rewrite Hk, Hnone|].
  destruct (turns d !! message_id (msg x)); [|done]. simpl. by rewrite IH.
Qed.

Lemma recoverable_succeeds d recipient :
  messages_ok d →
  (∀ id r, messages d !! id = Some r → recipient_instance_id (msg r) = recipient →
     state (msg r) = Delivered → is_Some (turns d !! id)) →
  ∃ l, recoverable_message_turns d recipient = Ok l.
Proof.
  intros Hok Hall. unfold recoverable_message_turns.
  assert (∀ r, r ∈ ordered_messages d (λ r, (recipient_instance_id (msg r) == recipient)
    && (state (msg r) == Delivered)) → is_Some (turns d !! message_id (msg r))) as Hin.
  { intros r Hr. apply ordered_in in Hr as [Hsel Hr]; [|done]. destruct_guards. by eapply Hall. }
  revert Hin. generalize (ordered_messages d (λ r,
    (recipient_instance_id (msg r) == recipient) && (state (msg r) == Delivered))).
  intros rs Hin. induction rs as [|r rs IH]; [by exists []|].
  destruct (Hin r) as [t Ht]; [left|]. destruct IH as [l Hl]; [intros; apply Hin; by right|].
  exists ((msg r, t) :: l). simpl. unfold load_message_turn. by rewrite Ht, Hl.
Qed.
