(* ===== verification/StoreHandoffs.v ===== *)
(** Durable handoffs: the handoff operations of
    [CoordinationStore for SqliteSessionStore] in
    src/sylvander-runtime/src/storage/coordination.rs.

    An accepted handoff moves its task to the new assignee in the same
    transaction that decides it. *)

From S2P Require Import Prelude Graph Instance Store StoreTasks.
From S2P Require Membership Topology Tasks Handoff.
From stdpp Require Import base tactics gmap strings list relations.
From Stdlib Require Import ZArith Lia.

Import Handoff.

Definition load_handoff (d : db) (id : HandoffId) : option TaskHandoff := handoffs d !! id.

Definition put_handoff (h : TaskHandoff) (s : HandoffState) (rev now : Z) : TaskHandoff := {|
  handoff_id := handoff_id h; session_id := session_id h; task_id := task_id h;
  from_instance_id := from_instance_id h; to_instance_id := to_instance_id h;
  requested_by := requested_by h; arbitrator_instance_id := arbitrator_instance_id h;
  task_revision := task_revision h; topology_revision := topology_revision h;
  reason := reason h; state := s; revision := rev; expires_at := expires_at h;
  created_at := created_at h; updated_at := now;
|}.

(** [create_handoff] *)
Definition create_handoff (d : db) (h : TaskHandoff) (membership : Membership.SessionMembership)
    (topology : Topology.SessionTopology) (now : Z) : tx unit :=
  match load_handoff d (handoff_id h) with
  | Some existing => Err (HandoffConflict (handoff_id h) None (Some (revision existing)))
  | None =>
      task <- ok_or (load_task d (task_id h)) Invalid;;
      _ <- invalid (validate_proposal h task topology membership now);;
      durable_membership <- ok_or (membership_revision_of d (session_id h)) Invalid;;
      durable_topology <- ok_or (topology_revision_of d (session_id h)) Invalid;;
      bail negb (durable_membership
                 =? Membership.membership_revision (Membership.governance membership))%Z
           || negb (durable_topology =? topology_revision h)%Z with Invalid;;
      _ <- checked_i64 (task_revision h);;
      _ <- checked_i64 (topology_revision h);;
      Ok (tt, set_handoffs d (<[handoff_id h := put_handoff h (state h) 0 (updated_at h)]>
                                (handoffs d)))
  end.

Definition authorized (h : TaskHandoff) (next : HandoffState) (actor : AgentInstanceId) : bool :=
  match state h, next with
  | State.Proposed, State.AwaitingArbitration => actor == requested_by h
  | State.AwaitingArbitration, (State.Accepted | State.Rejected) =>
      actor == arbitrator_instance_id h
  | _, State.Expired => actor == arbitrator_instance_id h
  | _, State.Cancelled => (actor == requested_by h) || (actor == arbitrator_instance_id h)
  | _, _ => false
  end.

(** The task side of an acceptance. *)
Definition transfer_task (d : db) (h : TaskHandoff) (now : Z) : tx unit :=
  task <- ok_or (load_task d (task_id h)) Invalid;;
  bail negb (Tasks.revision task =? task_revision h)%Z
       || (Tasks.assigned_to task != Some (from_instance_id h))
       || Tasks.TaskState.is_terminal (Tasks.state task)
       || (Tasks.max_handoffs task <=? Tasks.handoff_count task)%Z
    with TaskConflict (Tasks.task_id task) (Some (task_revision h)) (Some (Tasks.revision task));;
  next_task_revision <- next_u64 (Tasks.revision task);;
  next_handoff_count <- next_u32 (Tasks.handoff_count task);;
  _ <- checked_i64 next_task_revision;;
  _ <- checked_i64 (Tasks.revision task);;
  let '(changed, d) := update_tasks d (task_id h)
    (λ t, (Tasks.revision t =? Tasks.revision task)%Z)
    (λ t, put_task t (Some (to_instance_id h)) (Tasks.state t) (Tasks.consumed_tokens t)
            next_handoff_count next_task_revision now) in
  bail negb (changed =? 1)%Z
    with TaskConflict (Tasks.task_id task) (Some (Tasks.revision task)) None;;
  Ok (tt, d).

(** [transition_handoff] *)
Definition transition_handoff (d : db) (id : HandoffId) (actor : AgentInstanceId)
    (next_state : HandoffState) (expected_revision now : Z) : tx TaskHandoff :=
  h <- ok_or (load_handoff d id) (HandoffConflict id (Some expected_revision) None);;
  bail negb (revision h =? expected_revision)%Z
    with HandoffConflict id (Some expected_revision) (Some (revision h));;
  bail negb (State.can_transition_to (state h) next_state) with Invalid;;
  bail negb (authorized h next_state actor) with Invalid;;
  bail (expires_at h <=? now)%Z && (next_state != State.Expired) with Invalid;;
  transferred <- (if next_state == State.Accepted then transfer_task d h now else Ok (tt, d));;
  let d := transferred.2 in
  next_revision <- next_u64 (revision h);;
  _ <- checked_i64 next_revision;;
  _ <- checked_i64 (revision h);;
  let decided := put_handoff h next_state next_revision now in
  let changed := match handoffs d !! handoff_id h with
    | Some row => (revision row =? revision h)%Z
    | None => false
    end in
  bail negb changed with HandoffConflict (handoff_id h) (Some (revision h)) None;;
  Ok (decided, set_handoffs d (<[handoff_id h := decided]> (handoffs d))).

(** What becomes of a handoff: its proposal stays, and once it is closed so does
    the rest. *)
Definition kept (h h' : TaskHandoff) : Prop :=
  (∃ s r u, h' = put_handoff h s r u) ∧ (State.is_terminal (state h) = true → h' = h).

Lemma kept_refl h : kept h h.
Proof. split; [|done]. exists (state h), (revision h), (updated_at h). by destruct h. Qed.

Lemma kept_trans h1 h2 h3 : kept h1 h2 → kept h2 h3 → kept h1 h3.
Proof.
  intros [(s & r & u & ->) H1] [(s' & r' & u' & ->) H2]. split; [by exists s', r', u'|].
  intros Ht. specialize (H1 Ht). rewrite H1 in H2 |- *. by apply H2.
Qed.

Definition handoffs_kept (d d' : db) : Prop :=
  ∀ id h, handoffs d !! id = Some h → ∃ h', handoffs d' !! id = Some h' ∧ kept h h'.

Lemma handoffs_kept_same d d' : handoffs d' = handoffs d → handoffs_kept d d'.
Proof. intros Hd id h Hh. exists h. rewrite Hd. split; [done|apply kept_refl]. Qed.

Lemma handoffs_kept_put d d' id h h' :
  handoffs d !! id = Some h → kept h h' → handoffs d' = <[id := h']> (handoffs d) → handoffs_kept d d'.
Proof.
  intros Hh Hk Hd i x Hx. rewrite Hd. destruct (decide (i = id)) as [->|].
  - rewrite lookup_insert_eq. exists h'. split; [done|]. by assert (x = h) as -> by congruence.
  - rewrite lookup_insert_ne by done. exists x. split; [done|apply kept_refl].
Qed.

Lemma handoffs_kept_trans d1 d2 d3 : handoffs_kept d1 d2 → handoffs_kept d2 d3 → handoffs_kept d1 d3.
Proof.
  intros H1 H2 id h Hh. destruct (H1 id h Hh) as (h' & Hh' & Hk).
  destruct (H2 id h' Hh') as (h'' & Hh'' & Hk'). exists h''. split; [done|by eapply kept_trans].
Qed.

(** * What the operations do *)

Definition handoffs_ok (d : db) : Prop :=
  ∀ id h, handoffs d !! id = Some h → handoff_id h = id.

Lemma create_handoff_ok d h m topology now d' :
  create_handoff d h m topology now = Ok (tt, d') →
  handoffs d !! handoff_id h = None ∧
  (∃ task, Store.tasks d !! task_id h = Some task ∧ proposal_ok h task topology m now) ∧
  membership_revision_of d (session_id h) =
    Some (Membership.membership_revision (Membership.governance m)) ∧
  topology_revision_of d (session_id h) = Some (topology_revision h) ∧
  d' = set_handoffs d (<[handoff_id h := put_handoff h (state h) 0 (updated_at h)]> (handoffs d)).
Proof.
  unfold create_handoff, load_handoff, load_task. intros H.
  destruct (handoffs d !! handoff_id h) eqn:Eh; [done|].
  apply res_bind_ok in H as (task & Ht & H). apply ok_or_ok in Ht.
  apply res_bind_ok in H as ([] & Hv & H). rewrite invalid_ok in Hv.
  apply validate_proposal_iff in Hv. inv_tx.
  split_and!; try done; [by exists task|congruence|congruence].
Qed.

Lemma transfer_task_ok d h now d' :
  tasks_ok d → transfer_task d h now = Ok (tt, d') →
  ∃ t t', Store.tasks d !! task_id h = Some t ∧ evolves t t' ∧
    d' = set_tasks d (<[task_id h := t']> (Store.tasks d)) ∧
    Tasks.revision t = task_revision h ∧ Tasks.assigned_to t = Some (from_instance_id h) ∧
    Tasks.assigned_to t' = Some (to_instance_id h) ∧ Tasks.state t' = Tasks.state t ∧
    Tasks.handoff_count t' = (Tasks.handoff_count t + 1)%Z.
Proof.
  intros [Hok _] H. unfold transfer_task, load_task in H. inv_tx.
  match goal with Ht : Store.tasks d !! _ = Some ?x |- _ =>
    rename x into t; rename Ht into Hlook end.
  repeat match goal with Hx : next_u32 _ = Ok _ |- _ => apply next_u32_ok in Hx as [-> ?] end.
  destruct (Hok _ _ Hlook) as [Hid []].
  rewrite (update_tasks_hit d _ _ _ t Hlook) in H by apply Z.eqb_refl. inv_tx.
  exists t. eexists. split_and!; try done.
  split; simpl; split_and?; try done; try lia. by apply course_handed.
Qed.

(** One transition: authorised, fenced by the revision, in time, along the
    lifecycle; an acceptance transfers the task. *)
Lemma transition_handoff_ok d id actor next e now h' d' :
  tasks_ok d → handoffs_ok d →
  transition_handoff d id actor next e now = Ok (h', d') →
  ∃ h, handoffs d !! id = Some h ∧ revision h = e ∧
    State.can_transition_to (state h) next = true ∧ authorized h next actor = true ∧
    ((now < expires_at h)%Z ∨ next = State.Expired) ∧
    h' = put_handoff h next (revision h + 1) now ∧
    d' = set_handoffs (set_tasks d (Store.tasks d')) (<[id := h']> (handoffs d)) ∧
    if decide (next = State.Accepted) then
      ∃ t t', Store.tasks d !! task_id h = Some t ∧ evolves t t' ∧
        Store.tasks d' = <[task_id h := t']> (Store.tasks d) ∧
        Tasks.revision t = task_revision h ∧ Tasks.assigned_to t = Some (from_instance_id h) ∧
        Tasks.assigned_to t' = Some (to_instance_id h)
    else Store.tasks d' = Store.tasks d.
Proof.
  intros Htok Hhok H. unfold transition_handoff, load_handoff in H.
  apply res_bind_ok in H as (h & Hh & H). apply ok_or_ok in Hh.
  pose proof (Hhok _ _ Hh) as Hid. exists h.
  apply bail_ok in H as [Hrev H]. apply bail_ok in H as [Hcan H]. apply bail_ok in H as [Haut H].
  apply bail_ok in H as [Hexp H]. apply res_bind_ok in H as ([[] d1] & Htr & H).
  rewrite negb_false_iff in Hrev, Hcan, Haut. apply Z.eqb_eq in Hrev.
  simpl in H. inv_tx. simpl.
  assert ((now < expires_at h)%Z ∨ next = State.Expired) as Hlive.
  { apply andb_false_iff in Hexp as [Hexp|Hexp]; [left; by apply Z.leb_gt|right].
    by apply negb_bool_decide_false in Hexp. }
  destruct (decide (next = State.Accepted)) as [->|Hne].
  - rewrite bool_decide_eq_true_2 in Htr by done.
    apply transfer_task_ok in Htr as (t & t' & Ht & He & -> & Hr & Ha & Ha' & _); [|done].
    split_and!; try done. by exists t, t'.
  - rewrite bool_decide_eq_false_2 in Htr by done. injection Htr as <-. done.
Qed.

Lemma transition_handoff_step d id actor next e now h' d' :
  tasks_ok d → handoffs_ok d → transition_handoff d id actor next e now = Ok (h', d') →
  tasks_step d d' evolves ∧ handoffs_ok d'.
Proof.
  intros Htok Hhok H.
  destruct (transition_handoff_ok _ _ _ _ _ _ _ _ Htok Hhok H)
    as (h & Hh & _ & _ & _ & _ & -> & Heq & Htasks).
  apply (f_equal handoffs) in Heq as Hd. simpl in Hd.
  split.
  - destruct (decide (next = State.Accepted)) as [->|Hne].
    + destruct Htasks as (t & t' & Ht & He & Hd' & _). by eapply tasks_step_update.
    + by apply tasks_step_same.
  - intros i x. rewrite Hd. destruct (decide (i = id)) as [->|].
    + rewrite lookup_insert_eq. intros [= <-]. simpl. by apply Hhok.
    + rewrite lookup_insert_ne by done. apply Hhok.
Qed.

(** An acceptance fences the lease of the previous assignee for ever. *)
Lemma acceptance_fences d id actor e now h' d' d'' l later :
  tasks_ok d → handoffs_ok d →
  transition_handoff d id actor State.Accepted e now = Ok (h', d') →
  l.(Tasks.l_task_id) = task_id h' → (Tasks.l_task_revision l ≤ task_revision h')%Z →
  tasks_run d' d'' → lease_matches d'' l later = false.
Proof.
  intros Htok Hhok H Hl Hrev Hrun.
  destruct (transition_handoff_ok _ _ _ _ _ _ _ _ Htok Hhok H)
    as (h & _ & _ & _ & _ & _ & -> & _ & Htasks).
  simpl in *. destruct Htasks as (t & t' & Ht & He & Hd' & Hr & _).
  apply superseded_fenced, (superseded_stable d' d'' l Hrun). exists t'.
  rewrite Hd', Hl, lookup_insert_eq. split; [done|]. destruct (ev_revision _ _ He). lia.
Qed.

(** Only the recorded arbitrator accepts or rejects, and nobody accepts once
    the handoff has expired. *)
Lemma decision_authority d id actor next e now h' d' :
  tasks_ok d → handoffs_ok d → transition_handoff d id actor next e now = Ok (h', d') →
  next = State.Accepted ∨ next = State.Rejected →
  actor = arbitrator_instance_id h' ∧ (now < expires_at h')%Z.
Proof.
  intros Htok Hhok H Hn.
  destruct (transition_handoff_ok _ _ _ _ _ _ _ _ Htok Hhok H)
    as (h & _ & _ & Hcan & Haut & Hlive & -> & _).
  simpl. split.
  - unfold authorized in Haut. destruct Hn as [Hn|Hn]; rewrite Hn in Haut; destruct (state h); try done;
      by apply bool_decide_eq_true in Haut.
  - destruct Hlive as [?|Heq]; [done|]. destruct Hn; congruence.
Qed.
