(* ===== verification/StoreArbitration.v ===== *)
(** Durable arbitration: the case and decision operations of
    [CoordinationStore for SqliteSessionStore] in
    src/sylvander-runtime/src/storage/coordination.rs.

    [decide_arbitration] validates a decision, checks it against the durable
    governance, applies its verdict and closes the case in one transaction. *)

From S2P Require Import Prelude Graph Instance Store StoreTasks.
From S2P Require Membership Topology Tasks Governance Arbitration.
From stdpp Require Import base tactics gmap strings list sorting relations.
From Stdlib Require Import ZArith Lia.

Import Arbitration.

Definition load_arbitration_case (d : db) (id : GovernanceCaseId) : option ArbitrationCase :=
  cases d !! id.
Definition load_moderator_decision (d : db) (id : GovernanceCaseId) :
    option ModeratorDecision := decisions d !! id.

Definition put_case (c : ArbitrationCase) (s : ArbitrationState) (rev now : Z) :
    ArbitrationCase := {|
  case_id := case_id c; session_id := session_id c;
  moderator_instance_id := moderator_instance_id c;
  membership_revision := membership_revision c; topology_revision := topology_revision c;
  moderator_lease_epoch := moderator_lease_epoch c;
  moderator_fencing_token := moderator_fencing_token c; findings := findings c;
  state := s; revision := rev; expires_at := expires_at c; created_at := created_at c;
  updated_at := now;
|}.

(** The durable governance agrees with the facts of the case. *)
Definition governance_matches (d : db) (c : ArbitrationCase) : bool :=
  match governance d !! session_id c with
  | Some g =>
      (Membership.moderator_instance_id g == moderator_instance_id c)
      && (Membership.membership_revision g =? membership_revision c)%Z
      && (Membership.lease_epoch g =? moderator_lease_epoch c)%Z
      && (Membership.fencing_token g =? moderator_fencing_token c)%Z
  | None => false
  end.

(** [create_arbitration_case] *)
Definition create_arbitration_case `{!HashOrder} (d : db) (c : ArbitrationCase)
    (membership : Membership.SessionMembership) (topology : Topology.SessionTopology) (now : Z) :
    tx unit :=
  _ <- invalid (validate_new c membership (Topology.topology_revision topology) now);;
  _ <- invalid (Topology.validate topology membership);;
  match load_arbitration_case d (case_id c) with
  | Some _ => Err Invalid
  | None =>
      bail negb (governance_matches d c
                 && (topology_revision_of d (session_id c) == Some (topology_revision c)))
        with Invalid;;
      _ <- checked_i64 (membership_revision c);;
      _ <- checked_i64 (topology_revision c);;
      _ <- checked_i64 (moderator_lease_epoch c);;
      _ <- checked_i64 (moderator_fencing_token c);;
      bail negb (has_instance d (session_id c) (moderator_instance_id c)) with Store;;
      Ok (tt, set_cases d (<[case_id c := put_case c ArbitrationState.Open 0 (updated_at c)]>
                             (cases d)))
  end.

Definition case_active (c : ArbitrationCase) : bool :=
  match state c with
  | ArbitrationState.Open | ArbitrationState.Decided | ArbitrationState.Applying => true
  | _ => false
  end.

Definition case_le (a b : ArbitrationCase) : bool :=
  (created_at a <? created_at b)%Z
  || (created_at a =? created_at b)%Z && string_le (case_id a) (case_id b).

(** [active_arbitration_cases] *)
Definition active_arbitration_cases (d : db) (session : SessionId) : list ArbitrationCase :=
  stable_sort case_le (filter (λ c, session_id c = session ∧ case_active c = true)
    ((map_to_list (cases d)).*2)).

(** [UPDATE governance_cases SET state=..., revision=... WHERE case_id=? AND
    state='open' AND revision=?] *)
Definition close_case (d : db) (c : ArbitrationCase) (guard : ArbitrationCase → bool)
    (f : ArbitrationCase → ArbitrationCase) : tx unit :=
  bail negb match cases d !! case_id c with
       | Some row => (state row == ArbitrationState.Open) && (revision row =? revision c)%Z
                     && guard row
       | None => false
       end with Invalid;;
  Ok (tt, set_cases d (alter f (case_id c) (cases d))).

(** [expire_arbitration] *)
Definition expire_arbitration (d : db) (id : GovernanceCaseId) (expected_revision now : Z) :
    tx ArbitrationCase :=
  c <- ok_or (load_arbitration_case d id) Invalid;;
  if state c == ArbitrationState.Expired then Ok (c, d) else
  bail (state c != ArbitrationState.Open) || negb (revision c =? expected_revision)%Z
       || (now <? expires_at c)%Z with Invalid;;
  next_revision <- next_u64 (revision c);;
  _ <- checked_i64 next_revision;;
  _ <- checked_i64 (revision c);;
  let expired c := put_case c ArbitrationState.Expired next_revision now in
  closed <- close_case d c (λ row, (expires_at row <=? now)%Z) expired;;
  Ok (expired c, closed.2).

(** ** Verdicts *)

(** [require_arbitration_effect] *)
Definition require_arbitration_effect (changed : Z) : res unit SessionStoreError :=
  bail_if (negb (changed =? 1)%Z) Invalid.

(** One update of a task named by the verdict, which must be unchanged since
    the graph was read; [change] gives the new row from the task of the
    graph, the stored row and the next revision. *)
Definition retarget (d : db) (graph : Tasks.SessionTaskGraph) (id : TaskId)
    (change : Tasks.CoordinationTask →
              res (Tasks.CoordinationTask → Z → Tasks.CoordinationTask) SessionStoreError) :
    res db SessionStoreError :=
  task <- expect (find_task (Tasks.tasks graph) id);;
  next_revision <- next_u64 (Tasks.revision task);;
  f <- change task;;
  _ <- checked_i64 next_revision;;
  _ <- checked_i64 (Tasks.revision task);;
  let '(changed, d) := update_tasks d (Tasks.task_id task)
    (λ row, (Tasks.revision row =? Tasks.revision task)%Z && (Tasks.state row == Tasks.state task))
    (λ row, f row next_revision) in
  _ <- require_arbitration_effect changed;;
  Ok d.

Definition retarget_state (s : Tasks.CoordinationTaskState) (now : Z)
    (task : Tasks.CoordinationTask) :
    res (Tasks.CoordinationTask → Z → Tasks.CoordinationTask) SessionStoreError :=
  Ok (λ row rev, put_task row (Tasks.assigned_to row) s (Tasks.consumed_tokens row)
                   (Tasks.handoff_count row) rev now).

Definition retarget_assignee (to : AgentInstanceId) (now : Z) (task : Tasks.CoordinationTask) :
    res (Tasks.CoordinationTask → Z → Tasks.CoordinationTask) SessionStoreError :=
  next_handoff_count <- next_u32 (Tasks.handoff_count task);;
  Ok (λ row rev, put_task row (Some to) Tasks.TaskState.Ready (Tasks.consumed_tokens row)
                   next_handoff_count rev now).

Fixpoint retarget_all (d : db) (graph : Tasks.SessionTaskGraph) (ids : list TaskId) (now : Z)
    (s : Tasks.CoordinationTaskState) : res db SessionStoreError :=
  match ids with
  | [] => Ok d
  | id :: ids =>
      d <- retarget d graph id (retarget_state s now);;
      retarget_all d graph ids now s
  end.

Definition put_instance_state (p : AgentInstance) (s : AgentInstanceState) (rev now : Z) :
    AgentInstance := {|
  instance_id := instance_id p; ai_session_id := ai_session_id p; definition := definition p;
  origin := origin p; role := role p; history_view := history_view p;
  approval_route := approval_route p; ai_state := s; lifecycle_revision := rev;
  capability_revision := capability_revision p; ai_created_at := ai_created_at p;
  ai_updated_at := now;
|}.

Definition suspend (d : db) (membership : Membership.SessionMembership) (id : AgentInstanceId)
    (now : Z) : res db SessionStoreError :=
  p <- expect (Membership.find_participant (Membership.participants membership) id);;
  next_revision <- next_u64 (lifecycle_revision p);;
  _ <- checked_i64 next_revision;;
  _ <- checked_i64 (lifecycle_revision p);;
  match instances d !! instance_id p with
  | Some row =>
      bail negb ((ai_session_id row == ai_session_id p)
                 && (lifecycle_revision row =? lifecycle_revision p)%Z
                 && (ai_state row == ai_state p)) with Invalid;;
      Ok (set_instances d (<[instance_id p :=
            put_instance_state row InstanceState.ManualReconciliation next_revision now]>
            (instances d)))
  | None => Err Invalid
  end.

Fixpoint suspend_all (d : db) (membership : Membership.SessionMembership)
    (ids : list AgentInstanceId) (now : Z) : res db SessionStoreError :=
  match ids with
  | [] => Ok d
  | id :: ids =>
      d <- suspend d membership id now;;
      suspend_all d membership ids now
  end.

(** [apply_moderator_verdict] *)
Definition apply_moderator_verdict (d : db) (decision : ModeratorDecision)
    (membership : Membership.SessionMembership) (graph : Tasks.SessionTaskGraph) :
    res db SessionStoreError :=
  let now := decided_at decision in
  match verdict decision with
  | ContinueWithConditions _ => Ok d
  | Replan ids => retarget_all d graph ids now Tasks.TaskState.Blocked
  | Reassign id to => retarget d graph id (retarget_assignee to now)
  | SuspendAgents ids => suspend_all d membership ids now
  | CancelTasks ids => retarget_all d graph ids now Tasks.TaskState.Cancelled
  end.

(** [decide_arbitration] *)
Definition decide_arbitration (d : db) (decision : ModeratorDecision)
    (membership : Membership.SessionMembership) (graph : Tasks.SessionTaskGraph)
    (current_topology_revision now : Z) : tx ArbitrationCase :=
  c <- ok_or (load_arbitration_case d (d_case_id decision)) Invalid;;
  _ <- invalid (validate decision c membership graph current_topology_revision now);;
  durable_topology <- ok_or (topology_revision_of d (session_id c)) Store;;
  _ <- ok_or (governance d !! session_id c) Store;;
  bail negb (governance_matches d c) || negb (durable_topology =? topology_revision c)%Z
    with Invalid;;
  _ <- checked_i64 (d_lease_epoch decision);;
  _ <- checked_i64 (d_fencing_token decision);;
  bail match decisions d !! d_case_id decision with Some _ => true | None => false end with Store;;
  let d := set_decisions d (<[d_case_id decision := decision]> (decisions d)) in
  d <- apply_moderator_verdict d decision membership graph;;
  _ <- checked_i64 (revision c);;
  let at_ := decided_at decision in
  closed <- close_case d c (λ _, true)
    (λ row, put_case row ArbitrationState.Applied (revision row + 1) at_);;
  next_revision <- next_u64 (revision c);;
  Ok (put_case c ArbitrationState.Applied next_revision at_, closed.2).

(** * What the operations do *)

(** A task under another revision of the membership. *)
Definition rebased (t : Tasks.CoordinationTask) (membership_revision : Z) :
    Tasks.CoordinationTask := {|
  Tasks.task_id := Tasks.task_id t; Tasks.session_id := Tasks.session_id t;
  Tasks.membership_revision := membership_revision;
  Tasks.parent_task_id := Tasks.parent_task_id t; Tasks.created_by := Tasks.created_by t;
  Tasks.assigned_to := Tasks.assigned_to t; Tasks.objective := Tasks.objective t;
  Tasks.state := Tasks.state t; Tasks.token_budget := Tasks.token_budget t;
  Tasks.consumed_tokens := Tasks.consumed_tokens t; Tasks.max_handoffs := Tasks.max_handoffs t;
  Tasks.handoff_count := Tasks.handoff_count t; Tasks.revision := Tasks.revision t;
  Tasks.created_at := Tasks.created_at t; Tasks.updated_at := Tasks.updated_at t;
|}.

(** The graph a decision was validated against is a reading of the store: a
    task of the same revision is the same task, but for the revision of the
    membership it is stored under. *)
Definition snapshot (d : db) (graph : Tasks.SessionTaskGraph) : Prop :=
  ∀ t row, t ∈ Tasks.tasks graph → Store.tasks d !! Tasks.task_id t = Some row →
    Tasks.revision row = Tasks.revision t → ∃ revision, row = rebased t revision.

Lemma find_task_in ts id t : find_task ts id = Some t → t ∈ ts ∧ Tasks.task_id t = id.
Proof.
  induction ts as [|x ts IH]; simpl; [done|]. case_bool_decide as Hx.
  - intros [= <-]. split; [left|done].
  - intros Ht%IH. destruct Ht. split; [by right|done].
Qed.

(** What a read of the graph returns is a snapshot. *)
Lemma load_graph_snapshot d session g :
  tasks_ok d → load_task_graph d session = Some g → snapshot d g.
Proof.
  intros [Hok _] Hg t row Ht Hrow _. unfold load_task_graph in Hg.
  destruct (membership_revision_of d session); [|done]. injection Hg as <-. simpl in Ht.
  apply list_elem_of_omap in Ht as (id & _ & Hid). unfold load_task in Hid.
  destruct (Hok _ _ Hid) as [<- _]. exists (Tasks.membership_revision t).
  assert (row = t) as -> by congruence. by destruct t.
Qed.

(** It stays one while tasks only evolve. *)
Lemma snapshot_step d d' g :
  tasks_step d d' evolves → snapshot d g →
  (∀ t, t ∈ Tasks.tasks g → ∃ row, Store.tasks d !! Tasks.task_id t = Some row ∧
     (Tasks.revision t ≤ Tasks.revision row)%Z) →
  snapshot d' g ∧ ∀ t, t ∈ Tasks.tasks g → ∃ row, Store.tasks d' !! Tasks.task_id t = Some row ∧
     (Tasks.revision t ≤ Tasks.revision row)%Z.
Proof.
  intros Hs Hsnap Hin. split.
  - intros t row' Ht Hrow' Hrev. specialize (Hs (Tasks.task_id t)). rewrite Hrow' in Hs.
    destruct (Hin t Ht) as (row & Hrow & Hle). rewrite Hrow in Hs.
    destruct Hs as [->|He]; [by apply Hsnap|]. destruct (ev_revision _ _ He). lia.
  - intros t Ht. destruct (Hin t Ht) as (row & Hrow & Hle). specialize (Hs (Tasks.task_id t)).
    rewrite Hrow in Hs. destruct (Store.tasks d' !! Tasks.task_id t) as [row'|]; [|done].
    exists row'. split; [done|]. destruct Hs as [->|He]; [done|].
    destruct (ev_revision _ _ He). lia.
Qed.

Lemma retarget_ok d g id change d' :
  tasks_ok d → retarget d g id change = Ok d' →
  ∃ t row f, find_task (Tasks.tasks g) id = Some t ∧ Store.tasks d !! id = Some row ∧
    Tasks.revision row = Tasks.revision t ∧ Tasks.state row = Tasks.state t ∧
    change t = Ok f ∧ (Tasks.revision row + 1 ≤ i64_max)%Z ∧
    d' = set_tasks d (<[id := f row (Tasks.revision row + 1)%Z]> (Store.tasks d)).
Proof.
  intros [Hok _] H. unfold retarget in H.
  apply res_bind_ok in H as (t & Ht & H). apply expect_ok in Ht.
  destruct (find_task_in _ _ _ Ht) as [Hin Hid].
  apply res_bind_ok in H as (nr & Hnr & H). apply next_u64_ok in Hnr as [-> _].
  apply res_bind_ok in H as (f & Hf & H).
  apply res_bind_ok in H as (? & Hi & H). apply checked_i64_ok in Hi as [_ Hi].
  apply res_bind_ok in H as (? & _ & H). rewrite Hid in H. unfold update_tasks in H.
  destruct (Store.tasks d !! id) as [row|] eqn:Er; [|done].
  destruct (_ && _) eqn:Eg; [|done]. simpl in H. injection H as <-.
  destruct_guards. rewrite Z.eqb_eq in *. exists t, row, f.
  match goal with Hr : Tasks.revision row = _ |- _ => rewrite Hr in * end.
  split_and!; done.
Qed.

(** The moves of a moderator that keep the owner. *)
Definition retargets (s next : Tasks.CoordinationTaskState) : Prop :=
  Tasks.TaskState.can_transition_to s next = true ∨
  next = Tasks.TaskState.Blocked ∧
  (s = Tasks.TaskState.Ready ∨ s = Tasks.TaskState.Running ∨ s = Tasks.TaskState.AwaitingReview).

Lemma retarget_state_evolves row s rev now :
  row_ok row → retargets (Tasks.state row) s → rev = (Tasks.revision row + 1)%Z → (rev ≤ i64_max)%Z →
  evolves row (put_task row (Tasks.assigned_to row) s (Tasks.consumed_tokens row)
                 (Tasks.handoff_count row) rev now).
Proof.
  intros [] Hs -> Hr. split; simpl; split_and?; try done; try lia.
  - destruct Hs as [Hs|[_ [Hs|[Hs|Hs]]]]; [by eapply transition_live|by rewrite Hs..].
  - destruct Hs as [Hs|[-> Hs]]; [by apply course_lifecycle|by apply course_replanned].
Qed.

(** Each named task was live and is in the new state. *)
Lemma retarget_all_ok d g ids now s d' :
  tasks_ok d → (∀ id t, id ∈ ids → find_task (Tasks.tasks g) id = Some t →
    retargets (Tasks.state t) s) →
  retarget_all d g ids now s = Ok d' →
  tasks_run d d' ∧ tasks_ok d' ∧ cases d' = cases d ∧ decisions d' = decisions d ∧
  leases d' = leases d.
Proof.
  revert d. induction ids as [|id ids IH]; intros d Hok Hlive H; simpl in H.
  { injection H as <-. split_and!; done || apply rtc_refl. }
  apply res_bind_ok in H as (d1 & H1 & H).
  apply retarget_ok in H1 as (t & row & f & Ht & Hr & _ & Hs & Hf & Hi & ->); [|done].
  injection Hf as <-. destruct (proj1 Hok _ _ Hr) as [Hid Hrow].
  assert (evolves row (put_task row (Tasks.assigned_to row) s (Tasks.consumed_tokens row)
    (Tasks.handoff_count row) (Tasks.revision row + 1) now)) as He.
  { apply retarget_state_evolves; try done. rewrite Hs. apply (Hlive id); [left|done]. }
  assert (tasks_ok (set_tasks d (<[id := put_task row (Tasks.assigned_to row) s
    (Tasks.consumed_tokens row) (Tasks.handoff_count row) (Tasks.revision row + 1) now]>
    (Store.tasks d)))) as Hok1.
  { by eapply tasks_ok_put. }
  assert (∀ i x, i ∈ ids → find_task (Tasks.tasks g) i = Some x →
    retargets (Tasks.state x) s) as Hlive'.
  { intros i x Hi'. apply Hlive. by right. }
  destruct (IH _ Hok1 Hlive' H) as (Hrun & Hok2 & Hc & Hde & Hle).
  split_and!; try done. eapply rtc_l; [|done]. by eapply tasks_step_update.
Qed.

Lemma retarget_instances d g id change d' :
  retarget d g id change = Ok d' → instances d' = instances d.
Proof.
  unfold retarget, update_tasks. intros H. apply res_bind_ok in H as (t & _ & H).
  apply res_bind_ok in H as (? & _ & H). apply res_bind_ok in H as (f & _ & H).
  apply res_bind_ok in H as (? & _ & H). apply res_bind_ok in H as (? & _ & H).
  repeat case_match; simplify_eq/=; done.
Qed.

Lemma suspend_all_ok d m ids now d' :
  suspend_all d m ids now = Ok d' →
  Store.tasks d' = Store.tasks d ∧ leases d' = leases d ∧ cases d' = cases d ∧
  decisions d' = decisions d.
Proof.
  revert d. induction ids as [|id ids IH]; intros d H; simpl in H; [by injection H as <-|].
  apply res_bind_ok in H as (d1 & H1 & H). apply IH in H as (-> & -> & -> & ->).
  unfold suspend in H1. apply res_bind_ok in H1 as (p & _ & H1). inv_tx.
  destruct (instances d !! instance_id p); [|done]. by inv_tx.
Qed.

(** A suspended agent makes one transition. *)
Lemma suspend_step d m id now d' :
  (∃ p, Membership.find_participant (Membership.participants m) id = Some p ∧
     InstanceState.can_transition_to (ai_state p) InstanceState.ManualReconciliation = true) →
  suspend d m id now = Ok d' →
  ∃ p row row', Membership.find_participant (Membership.participants m) id = Some p ∧
    instances d !! id = Some row ∧ instance_step row row' ∧ ai_session_id row = ai_session_id p ∧
    instances d' = <[id := row']> (instances d).
Proof.
  intros (p & Hp & Hs) H. unfold suspend in H. rewrite Hp in H.
  apply res_bind_ok in H as (? & [= <-] & H). apply res_bind_ok in H as (next & Hn & H).
  apply next_u64_ok in Hn as [-> _]. do 2 (apply res_bind_ok in H as (? & _ & H)).
  destruct (Membership.find_participant_some _ _ _ Hp) as [_ Hid]. rewrite Hid in H.
  destruct (instances d !! id) as [row|] eqn:Er; [|done]. apply bail_ok in H as [Hg [= <-]].
  destruct_guards. rewrite Z.eqb_eq in *. eexists p, row, _. split_and!; try done.
  split; simpl; [by split_and!|unfold lifecycle_step; congruence|lia].
Qed.

Lemma suspend_all_step d m ids now d' :
  (∀ a, a ∈ ids → ∃ p, Membership.find_participant (Membership.participants m) a = Some p ∧
     InstanceState.can_transition_to (ai_state p) InstanceState.ManualReconciliation = true) →
  suspend_all d m ids now = Ok d' →
  ∀ i, lineage (instances d !! i) (instances d' !! i) ∧
    (instances d' !! i = instances d !! i ∨ i ∈ ids ∧ ∃ p row,
       Membership.find_participant (Membership.participants m) i = Some p ∧
       instances d !! i = Some row ∧ ai_session_id row = ai_session_id p).
Proof.
  revert d. induction ids as [|id ids IH]; intros d Hids H i; simpl in H.
  - injection H as <-. split; [apply lineage_refl|by left].
  - apply res_bind_ok in H as (d1 & H1 & H).
    apply suspend_step in H1 as (p & row & row' & Hp & Hr & Hst & Hs & Hd1); [|by apply Hids; left].
    destruct (IH d1 (λ a Ha, Hids a ltac:(by right)) H i) as [Hl Hi]. rewrite Hd1 in Hl, Hi.
    destruct (decide (i = id)) as [->|Hne].
    + rewrite lookup_insert_eq in Hl. split.
      * rewrite Hr. destruct (instances d' !! id); [|done]. by eapply rtc_l.
      * right. split; [by left|]. by exists p, row.
    + rewrite lookup_insert_ne in Hl, Hi by done. split; [done|].
      destruct Hi as [?|[? ?]]; [by left|right]. split; [by right|done].
Qed.

(** A verdict moves agents along their lifecycle, and never the moderator. *)
Lemma verdict_agents d decision m g d' :
  applicable (verdict decision) m g → apply_moderator_verdict d decision m g = Ok d' →
  ∀ i, lineage (instances d !! i) (instances d' !! i) ∧
    (instances d' !! i = instances d !! i ∨
     i ≠ Membership.moderator_instance_id (Membership.governance m) ∧ ∃ p row,
       Membership.find_participant (Membership.participants m) i = Some p ∧
       instances d !! i = Some row ∧ ai_session_id row = ai_session_id p).
Proof.
  assert (∀ ids s now d d', retarget_all d g ids now s = Ok d' → instances d' = instances d) as Hall.
  { intros ids s now. induction ids as [|id ids IH]; intros d0 d1 H; simpl in H; [by injection H as <-|].
    apply res_bind_ok in H as (d2 & H2 & H). rewrite (IH _ _ H).
    by apply retarget_instances in H2. }
  intros Ha H i. unfold apply_moderator_verdict in H.
  destruct (verdict decision) as [cs|ids|id to|ids|ids]; simpl in Ha;
    try (assert (instances d' = instances d) as ->;
      [by injection H as <- || by apply Hall in H || by apply retarget_instances in H|];
      split; [apply lineage_refl|by left]).
  destruct Ha as [_ Ha]. destruct (suspend_all_step d m ids (decided_at decision) d') with (i := i)
    as [Hl Hi]; [by intros a ?; apply Ha|done|].
  split; [done|]. destruct Hi as [?|[Hin ?]]; [by left|right]. split; [by apply Ha|done].
Qed.

(** The tasks after a verdict evolved from the tasks before it. *)
Lemma verdict_run d decision m g d' :
  tasks_ok d → snapshot d g → applicable (verdict decision) m g →
  apply_moderator_verdict d decision m g = Ok d' →
  tasks_run d d' ∧ tasks_ok d' ∧ cases d' = cases d ∧ decisions d' = decisions d.
Proof.
  intros Hok Hsnap Happ H. unfold apply_moderator_verdict in H.
  destruct (verdict decision) as [cs|ids|id to|ids|ids]; simpl in Happ.
  - injection H as <-. split_and!; done || apply rtc_refl.
  - apply retarget_all_ok in H as (? & ? & ? & ? & _); [done|done|].
    intros i t Hi Ht. destruct (proj2 Happ i Hi) as (t' & Ht' & Hr).
    assert (t' = t) as -> by congruence. unfold replannable in Hr. right. split; [done|].
    destruct (Tasks.state t); (discriminate || tauto).
  - apply retarget_ok in H as (t & row & f & Ht & Hrow & Hrev & Hs & Hf & Hi & ->); [|done].
    destruct Happ as [(t' & Ht' & Hre & _ & Hh) _]. assert (t' = t) as -> by congruence.
    destruct (find_task_in _ _ _ Ht) as [Hin Hid].
    destruct (Hsnap t row) as [mr Hmr]; [done|congruence|done|].
    unfold retarget_assignee in Hf. apply res_bind_ok in Hf as (nh & Hnh & [= <-]).
    apply next_u32_ok in Hnh as [-> _].
    destruct (proj1 Hok _ _ Hrow) as [_ Hrok].
    assert (evolves row (put_task row (Some to) Tasks.TaskState.Ready (Tasks.consumed_tokens row)
      (Tasks.handoff_count t + 1) (Tasks.revision row + 1) (decided_at decision))) as He.
    { rewrite Hmr in Hrok |- *. destruct Hrok. split; simpl in *; split_and?; try done; try lia.
      - unfold reassignable in Hre. by destruct (Tasks.state t).
      - apply course_reassigned; simpl; [|done..]. unfold reassignable in Hre.
        destruct (Tasks.state t); (discriminate || tauto). }
    split_and!; try done; [|by eapply tasks_ok_put].
    apply rtc_once. by eapply tasks_step_update.
  - apply suspend_all_ok in H as (Ht & Hl & Hc & Hd). split_and!; try done.
    + by apply rtc_once, tasks_step_same.
    + unfold tasks_ok. by rewrite Ht, Hl.
  - apply retarget_all_ok in H as (? & ? & ? & ? & _); [done|done|].
    intros i t Hi Ht. destruct (proj2 Happ i Hi) as (t' & Ht' & Hr). left.
    assert (t' = t) as -> by congruence. by destruct (Tasks.state t).
Qed.

Lemma close_case_ok d c guard f d' :
  close_case d c guard f = Ok (tt, d') →
  ∃ row, cases d !! case_id c = Some row ∧ state row = ArbitrationState.Open ∧
    revision row = revision c ∧ guard row = true ∧
    d' = set_cases d (<[case_id c := f row]> (cases d)).
Proof.
  unfold close_case. intros H. apply bail_ok in H as [Hg H]. injection H as <-.
  apply negb_false_iff in Hg. destruct (cases d !! case_id c) as [row|] eqn:Er; [|done].
  destruct_guards. rewrite Z.eqb_eq in *. exists row. split_and!; try done.
  f_equal. by apply alter_alt_Some.
Qed.

Definition cases_ok (d : db) : Prop := ∀ id c, cases d !! id = Some c → case_id c = id ∧
  (state c = ArbitrationState.Open ∨ state c = ArbitrationState.Applied ∨ state c = ArbitrationState.Expired).

Lemma governance_matches_iff d c :
  governance_matches d c = true ↔ ∃ g, governance d !! session_id c = Some g ∧
    Membership.moderator_instance_id g = moderator_instance_id c ∧
    Membership.membership_revision g = membership_revision c ∧
    Membership.lease_epoch g = moderator_lease_epoch c ∧
    Membership.fencing_token g = moderator_fencing_token c.
Proof.
  unfold governance_matches. destruct (governance d !! session_id c) as [g|]; [|naive_solver].
  rewrite !andb_true_iff, !Z.eqb_eq, bool_decide_eq_true. naive_solver.
Qed.

(** A decision closes an open case, once, under the durable governance of its
    session, and the tasks evolve by its verdict. *)
Lemma decide_arbitration_ok d decision m g topology now c' d' :
  tasks_ok d → cases_ok d → snapshot d g →
  decide_arbitration d decision m g topology now = Ok (c', d') →
  ∃ c, cases d !! d_case_id decision = Some c ∧ decision_ok decision c m g topology now ∧
    (∃ gov, governance d !! session_id c = Some gov ∧
       Membership.moderator_instance_id gov = decided_by decision ∧
       Membership.lease_epoch gov = d_lease_epoch decision ∧
       Membership.fencing_token gov = d_fencing_token decision) ∧
    topology_revision_of d (session_id c) = Some topology ∧
    decisions d !! d_case_id decision = None ∧
    decisions d' = <[d_case_id decision := decision]> (decisions d) ∧
    c' = put_case c ArbitrationState.Applied (revision c + 1) (decided_at decision) ∧
    cases d' = <[d_case_id decision := c']> (cases d) ∧
    tasks_run d d' ∧ tasks_ok d'.
Proof.
  intros Htok Hcok Hsnap H. unfold decide_arbitration, load_arbitration_case in H.
  apply res_bind_ok in H as (c & Hc & H). apply ok_or_ok in Hc.
  apply res_bind_ok in H as ([] & Hv & H). rewrite invalid_ok in Hv.
  apply validate_decision_iff in Hv.
  apply res_bind_ok in H as (dt & Hdt & H). apply ok_or_ok in Hdt.
  apply res_bind_ok in H as (gov & _ & H). apply bail_ok in H as [Hg H].
  apply res_bind_ok in H as (? & _ & H). apply res_bind_ok in H as (? & _ & H).
  apply bail_ok in H as [Hdec H]. apply res_bind_ok in H as (d1 & Hap & H).
  apply res_bind_ok in H as (? & _ & H). apply res_bind_ok in H as ([[] d2] & Hcl & H).
  apply res_bind_ok in H as (nr & Hnr & H). apply next_u64_ok in Hnr as [-> _].
  injection H as <- <-. apply orb_false_iff in Hg as [Hg Ht].
  apply negb_false_iff in Hg, Ht. apply Z.eqb_eq in Ht. apply governance_matches_iff in Hg.
  destruct (decisions d !! d_case_id decision) eqn:Ed; [done|].
  apply verdict_run in Hap as (Hrun & Hok1 & Hcs & Hds); [|done|done|apply (d_verdict _ _ _ _ _ _ Hv)].
  apply close_case_ok in Hcl as (row & Hrow & _ & Hrev & _ & ->).
  destruct (Hcok _ _ Hc) as [Hid _]. rewrite Hcs, Hid in Hrow. simpl in *.
  assert (row = c) as -> by congruence. exists c. pose proof Hv as Hv2. destruct Hv2 as [? ? [Hm ?] [? [? _]] [? [? _]] ? ? ?].
  split_and!; try done.
  - destruct Hg as (gv & ? & ? & ? & ? & ?). exists gv. split_and!; congruence.
  - congruence.
  - by rewrite Hcs, Hid.
  - apply rtc_l with (set_decisions d (<[d_case_id decision := decision]> (decisions d)));
      [by apply tasks_step_same|]. eapply rtc_r; [done|]. by apply tasks_step_same.
Qed.

(** A decision moves agents along their lifecycle, and never the moderator. *)
Lemma decide_agents d decision m g topology now c' d' :
  decide_arbitration d decision m g topology now = Ok (c', d') →
  ∀ i, lineage (instances d !! i) (instances d' !! i) ∧
    (instances d' !! i = instances d !! i ∨
     i ≠ Membership.moderator_instance_id (Membership.governance m) ∧ ∃ p row,
       Membership.find_participant (Membership.participants m) i = Some p ∧
       instances d !! i = Some row ∧ ai_session_id row = ai_session_id p).
Proof.
  intros H. unfold decide_arbitration, load_arbitration_case in H.
  apply res_bind_ok in H as (c & _ & H). apply res_bind_ok in H as ([] & Hv & H).
  rewrite invalid_ok in Hv. apply validate_decision_iff in Hv.
  do 2 (apply res_bind_ok in H as (? & _ & H)). apply bail_ok in H as [_ H].
  do 2 (apply res_bind_ok in H as (? & _ & H)). apply bail_ok in H as [_ H].
  apply res_bind_ok in H as (d1 & Hap & H). apply res_bind_ok in H as (? & _ & H).
  apply res_bind_ok in H as ([[] d2] & Hcl & H). apply res_bind_ok in H as (? & _ & H).
  injection H as _ <-. apply close_case_ok in Hcl as (row & _ & _ & _ & _ & ->).
  exact (verdict_agents _ _ _ _ _ (d_verdict _ _ _ _ _ _ Hv) Hap).
Qed.

Lemma expire_arbitration_ok d id e now c' d' :
  cases_ok d → expire_arbitration d id e now = Ok (c', d') →
  ∃ c, cases d !! id = Some c ∧ state c' = ArbitrationState.Expired ∧
    ((c' = c ∧ d' = d) ∨
     (state c = ArbitrationState.Open ∧ revision c = e ∧ (expires_at c ≤ now)%Z ∧
      d' = set_cases d (<[id := c']> (cases d)) ∧ case_id c' = id)).
Proof.
  intros Hok H. unfold expire_arbitration, load_arbitration_case in H.
  apply res_bind_ok in H as (c & Hc & H). apply ok_or_ok in Hc. destruct (Hok _ _ Hc) as [Hid _].
  exists c. split; [done|].
  destruct (bool_decide_reflect (state c = ArbitrationState.Expired)); [injection H as <- <-; auto|].
  apply bail_ok in H as [Hg H]. apply res_bind_ok in H as (nr & _ & H).
  apply res_bind_ok in H as (? & _ & H). apply res_bind_ok in H as (? & _ & H).
  apply res_bind_ok in H as ([[] d2] & Hcl & H). injection H as <- <-.
  apply close_case_ok in Hcl as (row & Hrow & _ & _ & _ & ->). rewrite Hid in Hrow |- *.
  assert (row = c) as -> by congruence. destruct_guards. rewrite Z.eqb_eq in *.
  split; [done|]. right. split_and!; done.
Qed.

Lemma create_case_ok `{!HashOrder} d c m topology now d' :
  create_arbitration_case d c m topology now = Ok (tt, d') →
  case_ok c m (Topology.topology_revision topology) now ∧
  Topology.validate topology m = Ok tt ∧ cases d !! case_id c = None ∧
  governance_matches d c = true ∧
  topology_revision_of d (session_id c) = Some (topology_revision c) ∧
  d' = set_cases d (<[case_id c := put_case c ArbitrationState.Open 0 (updated_at c)]> (cases d)).
Proof.
  intros Hx. unfold create_arbitration_case in Hx. rename Hx into Hr.
  apply res_bind_ok in Hr as ([] & Hv & Hr). rewrite invalid_ok in Hv.
  apply validate_case_iff in Hv. apply res_bind_ok in Hr as ([] & Ht & Hr).
  rewrite invalid_ok in Ht. unfold load_arbitration_case in Hr.
  destruct (cases d !! case_id c) eqn:Ec; [done|]. apply bail_ok in Hr as [Hg Hr].
  do 4 (apply res_bind_ok in Hr as (? & _ & Hr)). apply bail_ok in Hr as [_ Hr].
  injection Hr as <-. apply negb_false_iff, andb_true_iff in Hg as [Hg1 Hg2].
  apply bool_decide_eq_true in Hg2. done.
Qed.

(** ** Runs of cases *)

Inductive case_op :=
  | OpOpen (c : ArbitrationCase) (m : Membership.SessionMembership)
      (topology : Topology.SessionTopology) (now : Z)
  | OpExpire (id : GovernanceCaseId) (expected_revision now : Z)
  | OpDecide (decision : ModeratorDecision) (m : Membership.SessionMembership)
      (graph : Tasks.SessionTaskGraph) (topology now : Z).

Definition exec `{!HashOrder} (d : db) (op : case_op) : db :=
  match op with
  | OpOpen c m topology now => (run d (create_arbitration_case d c m topology now)).2
  | OpExpire id e now => (run d (expire_arbitration d id e now)).2
  | OpDecide decision m graph topology now =>
      (run d (decide_arbitration d decision m graph topology now)).2
  end.

(** A case that is no longer open. *)
Definition closed (d : db) (id : GovernanceCaseId) : Prop :=
  ∃ c, cases d !! id = Some c ∧ state c ≠ ArbitrationState.Open.

(** A closed case accepts no decision. *)
Lemma closed_undecidable d id decision m g topology now r :
  closed d id → d_case_id decision = id →
  decide_arbitration d decision m g topology now ≠ Ok r.
Proof.
  intros (c & Hc & Hs) Hid H. unfold decide_arbitration, load_arbitration_case in H.
  rewrite Hid, Hc in H. simpl in H. apply res_bind_ok in H as ([] & Hv & _).
  rewrite invalid_ok in Hv. apply validate_decision_iff in Hv. by destruct (d_open _ _ _ _ _ _ Hv).
Qed.

(** A verdict writes tasks and instances only. *)
Definition writes_agents (d d' : db) : Prop :=
  d' = set_instances (set_tasks d (Store.tasks d')) (instances d').

#[global] Instance writes_agents_preorder : PreOrder writes_agents.
Proof.
  split.
  - intros []. reflexivity.
  - intros d d1 d2 H1 H2. unfold writes_agents in *. rewrite H2, H1. reflexivity.
Qed.

Lemma retarget_writes d g id change d' : retarget d g id change = Ok d' → writes_agents d d'.
Proof.
  unfold retarget, update_tasks. intros H.
  apply res_bind_ok in H as (t & _ & H). apply res_bind_ok in H as (? & _ & H).
  apply res_bind_ok in H as (f & _ & H). apply res_bind_ok in H as (? & _ & H).
  apply res_bind_ok in H as (? & _ & H). repeat case_match; simplify_eq/=; done.
Qed.

Lemma suspend_writes d m id now d' : suspend d m id now = Ok d' → writes_agents d d'.
Proof.
  unfold suspend. intros H. apply res_bind_ok in H as (p & _ & H).
  do 3 (apply res_bind_ok in H as (? & _ & H)). destruct (instances d !! instance_id p); [|done].
  apply bail_ok in H as [_ H]. by injection H as <-.
Qed.

Lemma verdict_writes d decision m g d' :
  apply_moderator_verdict d decision m g = Ok d' → writes_agents d d'.
Proof.
  assert (∀ ids s now, ∀ d, retarget_all d g ids now s = Ok d' → writes_agents d d') as Hall.
  { intros ids s now. induction ids as [|id ids IH]; intros d0 H; simpl in H;
      [by injection H as <-|].
    apply res_bind_ok in H as (d1 & H1 & H). etrans; [by eapply retarget_writes|by apply IH]. }
  assert (∀ ids now, ∀ d, suspend_all d m ids now = Ok d' → writes_agents d d') as Hsus.
  { intros ids now. induction ids as [|id ids IH]; intros d0 H; simpl in H;
      [by injection H as <-|].
    apply res_bind_ok in H as (d1 & H1 & H). etrans; [by eapply suspend_writes|by apply IH]. }
  unfold apply_moderator_verdict. destruct (verdict decision); intros H;
    [injection H as <-; reflexivity|by eapply Hall|by eapply retarget_writes|by eapply Hsus|
     by eapply Hall].
Qed.

Lemma verdict_cases d decision m g d' :
  apply_moderator_verdict d decision m g = Ok d' → cases d' = cases d.
Proof. intros Hw%verdict_writes. unfold writes_agents in Hw. by rewrite Hw. Qed.

(** What [decide_arbitration] does to the cases, whatever graph it is given. *)
Lemma decide_cases d decision m g topology now c' d' :
  cases_ok d → decide_arbitration d decision m g topology now = Ok (c', d') →
  ∃ c, cases d !! d_case_id decision = Some c ∧ state c = ArbitrationState.Open ∧
    ∃ c2, cases d' = <[d_case_id decision := c2]> (cases d) ∧
      state c2 = ArbitrationState.Applied ∧ case_id c2 = d_case_id decision.
Proof.
  intros Hcok H. unfold decide_arbitration, load_arbitration_case in H.
  apply res_bind_ok in H as (c & Hc & H). apply ok_or_ok in Hc. destruct (Hcok _ _ Hc) as [Hid _].
  apply res_bind_ok in H as ([] & Hv & H). rewrite invalid_ok in Hv.
  apply validate_decision_iff in Hv. do 2 (apply res_bind_ok in H as (? & _ & H)).
  apply bail_ok in H as [_ H]. do 2 (apply res_bind_ok in H as (? & _ & H)).
  apply bail_ok in H as [_ H]. apply res_bind_ok in H as (d1 & Hap & H).
  apply verdict_cases in Hap. simpl in Hap.
  apply res_bind_ok in H as (? & _ & H). apply res_bind_ok in H as ([[] d2] & Hcl & H).
  apply res_bind_ok in H as (? & _ & H). injection H as <- <-.
  apply close_case_ok in Hcl as (row & Hrow & _ & _ & _ & ->). rewrite Hid, Hap in *.
  exists c. split; [done|]. split; [apply (d_open _ _ _ _ _ _ Hv)|].
  eexists. split; [simpl; by rewrite ?Hap|]. split; [done|]. simpl. by apply Hcok.
Qed.

(** [decide_arbitration] writes the case, its decision, tasks and instances. *)
Lemma decide_writes d decision m g topology now c' d' :
  decide_arbitration d decision m g topology now = Ok (c', d') →
  decisions d !! d_case_id decision = None ∧
  d' = set_cases (set_decisions (set_instances (set_tasks d (Store.tasks d')) (instances d'))
         (<[d_case_id decision := decision]> (decisions d))) (cases d').
Proof.
  intros H. unfold decide_arbitration in H. apply res_bind_ok in H as (c & _ & H).
  do 3 (apply res_bind_ok in H as (? & _ & H)). apply bail_ok in H as [_ H].
  do 2 (apply res_bind_ok in H as (? & _ & H)). apply bail_ok in H as [Hnew H].
  apply res_bind_ok in H as (d1 & Hap & H). apply verdict_writes in Hap.
  apply res_bind_ok in H as (? & _ & H). apply res_bind_ok in H as ([[] d2] & Hcl & H).
  apply res_bind_ok in H as (? & _ & H). injection H as _ <-.
  split; [by destruct (decisions d !! d_case_id decision)|].
  apply close_case_ok in Hcl as (row & _ & _ & _ & _ & ->).
  unfold writes_agents in Hap. simpl. rewrite Hap. reflexivity.
Qed.

(** A case that is no longer open stays as it is. *)
Definition settled (d d' : db) : Prop :=
  ∀ id c, cases d !! id = Some c → state c ≠ ArbitrationState.Open → cases d' !! id = Some c.

Lemma settled_put d d' k c :
  cases d' = <[k := c]> (cases d) →
  (∀ x, cases d !! k = Some x → state x = ArbitrationState.Open ∨ x = c) → settled d d'.
Proof.
  intros Hd Hk id x Hx Hs. rewrite Hd. destruct (decide (id = k)) as [->|].
  - rewrite lookup_insert_eq. by destruct (Hk x Hx) as [?| ->].
  - by rewrite lookup_insert_ne.
Qed.

Lemma cases_ok_put d d' k c :
  cases d' = <[k := c]> (cases d) → case_id c = k →
  state c = ArbitrationState.Open ∨ state c = ArbitrationState.Applied ∨ state c = ArbitrationState.Expired →
  cases_ok d → cases_ok d'.
Proof.
  intros Hd Hk Hs Hok i x. rewrite Hd. destruct (decide (i = k)) as [->|].
  - rewrite lookup_insert_eq. by intros [= <-].
  - rewrite lookup_insert_ne by done. apply Hok.
Qed.

Lemma exec_cases `{!HashOrder} d op :
  cases_ok d → cases_ok (exec d op) ∧ settled d (exec d op).
Proof.
  intros Hok. assert (settled d d) as Hid by by intros id c.
  destruct op as [c m tp now|id e now|dec m g tp now]; simpl.
  - destruct (run_cases d (create_arbitration_case d c m tp now)) as [->|[[] Hc]]; [done|].
    apply create_case_ok in Hc as (_ & _ & Hn & _ & _ & ->).
    split; [eapply (cases_ok_put d); [done|done|by left|done]|]. eapply settled_put; [done|]. congruence.
  - destruct (run_cases d (expire_arbitration d id e now)) as [->|[c' Hc]]; [done|].
    apply expire_arbitration_ok in Hc as (c & Hc & Hs & [[_ ->]|(? & _ & _ & -> & ?)]); [done| |done].
    split; [eapply (cases_ok_put d); [done|done|tauto|done]|]. eapply settled_put; [done|]. intros x Hx. left. congruence.
  - destruct (run_cases d (decide_arbitration d dec m g tp now)) as [->|[c' Hc]]; [done|].
    apply decide_cases in Hc as (c & Hc & Ho & c2 & Hd & ? & ?); [|done].
    split; [eapply (cases_ok_put d); [done|done|tauto|done]|]. eapply settled_put; [done|]. intros x Hx. left. congruence.
Qed.
