(* ===== verification/StoreFacts.v ===== *)
(** Durable facts of a session: the topology, wait, progress and observation
    operations of [CoordinationStore for SqliteSessionStore] in
    src/sylvander-runtime/src/storage/coordination.rs. *)

From S2P Require Import Prelude Graph Instance Store StoreTasks.
From S2P Require Membership Topology Tasks Handoff Governance.
From stdpp Require Import base tactics gmap strings list sorting relations.
From Stdlib Require Import ZArith Lia.

(** * Topology *)

(** [save_topology] *)
Definition save_topology `{!HashOrder} (d : db) (t : Topology.SessionTopology)
    (membership : Membership.SessionMembership) (expected_revision : option Z) : tx unit :=
  let session := Topology.session_id t in
  _ <- invalid (Topology.validate t membership);;
  actual_membership <- ok_or (membership_revision_of d session) Invalid;;
  bail negb (actual_membership =? Topology.membership_revision t)%Z
    with MembershipConflict (Some (Topology.membership_revision t)) (Some actual_membership);;
  let actual_revision := topology_revision_of d session in
  let replaces_empty_initial_topology :=
    bool_decide (expected_revision = None) && (actual_revision == Some 0%Z)
    && (Topology.topology_revision t =? 0)%Z
    && match topologies d !! session with
       | Some old => (length (Topology.relations old) =? 0)%nat
       | None => true
       end in
  bail (actual_revision != expected_revision) && negb replaces_empty_initial_topology
    with TopologyConflict expected_revision actual_revision;;
  next_revision <- match expected_revision with
    | None => Ok 0%Z
    | Some revision => next_u64 revision
    end;;
  bail negb (Topology.topology_revision t =? next_revision)%Z with Invalid;;
  _ <- checked_i64 (Topology.membership_revision t);;
  _ <- checked_i64 (Topology.topology_revision t);;
  bail existsb (λ r, negb (has_instance d session (Topology.source r))
                     || negb (has_instance d session (Topology.target r)))
         (Topology.relations t) with Store;;
  Ok (tt, set_topologies d (<[session := t]> (topologies d))).

(** * Waits *)

(** [record_wait] *)
Definition record_wait (d : db) (session : SessionId) (w : Governance.WaitDependency)
    (task_revision topology_revision : Z) : tx unit :=
  bail Governance.waiter w == Governance.awaited w with Invalid;;
  task <- ok_or (load_task d (Governance.w_task_id w)) Invalid;;
  bail (Tasks.session_id task != session) || negb (Tasks.revision task =? task_revision)%Z
       || (Tasks.assigned_to task != Some (Governance.waiter w))
       || Tasks.TaskState.is_terminal (Tasks.state task)
       || (topology_revision_of d session != Some topology_revision) with Invalid;;
  _ <- checked_i64 task_revision;;
  _ <- checked_i64 topology_revision;;
  bail negb (has_instance d session (Governance.waiter w))
       || negb (has_instance d session (Governance.awaited w)) with Store;;
  Ok (tt, set_waits d
    (<[(session, Governance.w_task_id w, Governance.waiter w, Governance.awaited w) :=
       {| wait_task_revision := task_revision; wait_topology_revision := topology_revision |}]>
       (waits d))).

(** [clear_wait] *)
Definition clear_wait (d : db) (session : SessionId) (w : Governance.WaitDependency) : tx unit :=
  Ok (tt, set_waits d
    (delete (session, Governance.w_task_id w, Governance.waiter w, Governance.awaited w)
       (waits d))).

(** * Progress *)

#[global] Instance ProgressObservation_eq_dec : EqDecision Governance.ProgressObservation.
Proof. solve_decision. Defined.

(** [record_progress] *)
Definition record_progress (d : db) (session : SessionId)
    (o : Governance.ProgressObservation) : tx unit :=
  bail trim_is_empty (Governance.observation_id o)
       || (256 <? String.length (Governance.observation_id o))%nat
       || match Governance.evidence_digest o with
          | Some digest => trim_is_empty digest || (256 <? String.length digest)%nat
          | None => false
          end with Invalid;;
  match progress d !! Governance.observation_id o with
  | Some existing => if existing == (session, o) then Ok (tt, d) else Err Invalid
  | None =>
      task <- ok_or (load_task d (Governance.p_task_id o)) Invalid;;
      bail (Tasks.session_id task != session)
           || negb (Tasks.revision task =? Governance.task_revision o)%Z
           || (Tasks.assigned_to task != Some (Governance.p_agent_instance_id o))
           || Tasks.TaskState.is_terminal (Tasks.state task)
           || (Governance.consumed_tokens o <? Tasks.consumed_tokens task)%Z
           || (Tasks.token_budget task <? Governance.consumed_tokens o)%Z with Invalid;;
      _ <- checked_i64 (Governance.task_revision o);;
      _ <- checked_i64 (Governance.consumed_tokens o);;
      bail negb (has_instance d session (Governance.p_agent_instance_id o)) with Store;;
      Ok (tt, set_progress d (<[Governance.observation_id o := (session, o)]> (progress d)))
  end.

(** * Observations *)

Record GovernanceObservations := {
  ob_waits : list Governance.WaitDependency;
  ob_progress : list Governance.ProgressObservation;
  ob_handoffs : list Governance.HandoffObservation;
}.

(** Lexicographic comparison of text columns. *)
Fixpoint text_le (a b : list string) : bool :=
  match a, b with
  | [], _ => true
  | _ :: _, [] => false
  | x :: a, y :: b => string_lt x y || (x == y) && text_le a b
  end.

Definition current_wait (d : db) (session : SessionId) (kv : wait_key * wait_row) : bool :=
  let '(s, t, _, _) := kv.1 in
  (s == session)
  && match Store.tasks d !! t with
     | Some task => (wait_task_revision kv.2 =? Tasks.revision task)%Z
                    && negb (Tasks.TaskState.is_terminal (Tasks.state task))
     | None => false
     end
  && (topology_revision_of d s == Some (wait_topology_revision kv.2)).

Definition current_waits (d : db) (session : SessionId) : list Governance.WaitDependency :=
  let key (kv : wait_key * wait_row) :=
    let '(_, t, u, v) := kv.1 in [t; u; v] in
  (λ kv : wait_key * wait_row, let '(_, t, u, v) := kv.1 in
     {| Governance.w_task_id := t; Governance.waiter := u; Governance.awaited := v |}) <$>
    stable_sort (λ x y, text_le (key x) (key y))
      (filter (λ kv, current_wait d session kv = true) (map_to_list (waits d))).

(** [ROW_NUMBER() OVER (PARTITION BY task ORDER BY time DESC, id DESC) <= limit]:
    fewer than [limit] rows of the task are newer. *)
Definition newer (a b : TaskId * Z * string) : bool :=
  let '(ta, na, ia) := a in
  let '(tb, nb, ib) := b in
  (ta == tb) && ((nb <? na)%Z || (na =? nb)%Z && string_lt ib ia).

Definition within {A} (key : A → TaskId * Z * string) (limit : Z) (l : list A) : list A :=
  filter (λ x, (Z.of_nat (length (filter (λ y, newer (key y) (key x) = true) l)) < limit)%Z) l.

(** [ORDER BY task, time, id] *)
Definition by_task_time (a b : TaskId * Z * string) : bool :=
  let '(ta, na, ia) := a in
  let '(tb, nb, ib) := b in
  string_lt ta tb
  || (ta == tb) && ((na <? nb)%Z || (na =? nb)%Z && string_le ia ib).

Definition progress_key (o : Governance.ProgressObservation) : TaskId * Z * string :=
  (Governance.p_task_id o, Governance.observed_at o, Governance.observation_id o).

Definition current_progress (d : db) (session : SessionId)
    (row : SessionId * Governance.ProgressObservation) : bool :=
  (row.1 == session)
  && match Store.tasks d !! Governance.p_task_id row.2 with
     | Some task => (Governance.task_revision row.2 =? Tasks.revision task)%Z
                    && negb (Tasks.TaskState.is_terminal (Tasks.state task))
     | None => false
     end.

Definition recent_progress (d : db) (session : SessionId) (limit : Z) :
    list Governance.ProgressObservation :=
  stable_sort (λ x y, by_task_time (progress_key x) (progress_key y))
    (within progress_key limit
      (filter (λ row, current_progress d session row = true) ((map_to_list (progress d)).*2)).*2).

Definition handoff_key (h : Handoff.TaskHandoff) : TaskId * Z * string :=
  (Handoff.task_id h, Handoff.updated_at h, Handoff.handoff_id h).

Definition recent_handoffs (d : db) (session : SessionId) (limit : Z) :
    list Governance.HandoffObservation :=
  (λ h, {| Governance.o_task_id := Handoff.task_id h;
           Governance.from := Handoff.from_instance_id h;
           Governance.to := Handoff.to_instance_id h;
           Governance.accepted_at := Handoff.updated_at h |}) <$>
  stable_sort (λ x y, by_task_time (handoff_key x) (handoff_key y))
    (within handoff_key limit
      (filter (λ h, Handoff.session_id h = session ∧ Handoff.state h = Handoff.State.Accepted)
        ((map_to_list (handoffs d)).*2))).

(** [governance_observations] *)
Definition governance_observations (d : db) (session : SessionId) (samples_per_task : Z) :
    res GovernanceObservations SessionStoreError :=
  bail (samples_per_task =? 0)%Z || (64 <? samples_per_task)%Z with Invalid;;
  Ok {| ob_waits := current_waits d session;
        ob_progress := recent_progress d session samples_per_task;
        ob_handoffs := recent_handoffs d session samples_per_task |}.

(** * What the operations do *)

(** A stored topology was validated against a membership whose revision was
    the durable one; revisions are sequential. *)
Lemma save_topology_stored `{!HashOrder} d t m expected d' :
  save_topology d t m expected = Ok (tt, d') →
  Topology.validate t m = Ok tt ∧
  membership_revision_of d (Topology.session_id t) = Some (Topology.membership_revision t) ∧
  match topology_revision_of d (Topology.session_id t) with
  | None => expected = None ∧ Topology.topology_revision t = 0%Z
  | Some old => Topology.topology_revision t = (old + 1)%Z ∨
      (expected = None ∧ old = 0%Z ∧ Topology.topology_revision t = 0%Z)
  end ∧
  (expected ≠ None → topology_revision_of d (Topology.session_id t) = expected) ∧
  d' = set_topologies d (<[Topology.session_id t := t]> (topologies d)).
Proof.
  intros Hs. unfold save_topology in Hs. cbv zeta in Hs.
  apply res_bind_ok in Hs as ([] & Hv & Hs). rewrite invalid_ok in Hv.
  apply res_bind_ok in Hs as (am & Ham & Hs). apply ok_or_ok in Ham.
  apply bail_ok in Hs as [Hmr Hs]. apply negb_false_iff, Z.eqb_eq in Hmr. subst am.
  apply bail_ok in Hs as [Hconf Hs]. apply res_bind_ok in Hs as (nr & Hnr & Hs).
  apply bail_ok in Hs as [Hseq Hs]. apply negb_false_iff, Z.eqb_eq in Hseq.
  do 2 (apply res_bind_ok in Hs as (? & _ & Hs)). apply bail_ok in Hs as [_ Hs].
  injection Hs as <-. split_and!; try done.
  - apply andb_false_iff in Hconf as [Hc|Hc].
    + apply negb_bool_decide_false in Hc. rewrite Hc. destruct expected as [e|].
      * apply next_u64_ok in Hnr as [-> _]. by left.
      * by injection Hnr as <-.
    + apply negb_false_iff in Hc. destruct_guards. rewrite !Z.eqb_eq in *. subst.
      match goal with Hx : topology_revision_of _ _ = Some _ |- _ => rewrite Hx end. by right.
  - intros Hne. apply andb_false_iff in Hconf as [Hc|Hc].
    + by apply negb_bool_decide_false in Hc.
    + apply negb_false_iff in Hc. by destruct_guards.
Qed.

(** No agent is recorded as waiting for itself. *)
Definition waits_ok (d : db) : Prop :=
  ∀ s t u v row, waits d !! (s, t, u, v) = Some row → u ≠ v.

Lemma record_wait_ok d session w tr pr d' :
  record_wait d session w tr pr = Ok (tt, d') →
  Governance.waiter w ≠ Governance.awaited w ∧
  (∃ task, Store.tasks d !! Governance.w_task_id w = Some task ∧ Tasks.revision task = tr ∧
     Tasks.assigned_to task = Some (Governance.waiter w) ∧ Tasks.session_id task = session ∧
     Tasks.TaskState.is_terminal (Tasks.state task) = false) ∧
  topology_revision_of d session = Some pr ∧
  d' = set_waits d
    (<[(session, Governance.w_task_id w, Governance.waiter w, Governance.awaited w) :=
       {| wait_task_revision := tr; wait_topology_revision := pr |}]> (waits d)).
Proof.
  unfold record_wait, load_task. intros H. inv_tx. split_and!; try done. eexists. split_and!; done.
Qed.

Lemma record_wait_waits_ok d session w tr pr d' :
  waits_ok d → record_wait d session w tr pr = Ok (tt, d') → waits_ok d'.
Proof.
  intros Hok H. apply record_wait_ok in H as (Hne & _ & _ & ->). intros s t u v row. simpl.
  destruct (decide ((s, t, u, v) =
    (session, Governance.w_task_id w, Governance.waiter w, Governance.awaited w))) as [Heq|Hk].
  - by injection Heq as -> -> -> ->.
  - rewrite lookup_insert_ne by done. apply Hok.
Qed.

(** A new wait is current: the next observation reports it. *)
Lemma record_wait_observed d session w tr pr d' :
  record_wait d session w tr pr = Ok (tt, d') → w ∈ current_waits d' session.
Proof.
  intros H. apply record_wait_ok in H as (_ & (task & Ht & Hr & _ & _ & Hl) & Hp & ->).
  unfold current_waits. apply list_elem_of_fmap. eexists (_, _). split.
  2:{ rewrite stable_sort_perm, list_elem_of_filter. split;
        [|apply elem_of_map_to_list; simpl; apply lookup_insert_eq].
      unfold current_wait. simpl. rewrite Ht, Hr, Hl, Z.eqb_refl. simpl.
      unfold topology_revision_of in *. simpl. rewrite Hp.
      by rewrite !bool_decide_eq_true_2. }
  by destruct w.
Qed.

(** Progress is bound to the running revision of its task, and repeating an
    observation changes nothing. *)
Lemma record_progress_ok d session o d' :
  record_progress d session o = Ok (tt, d') →
  progress d' !! Governance.observation_id o = Some (session, o) ∧
  (progress d !! Governance.observation_id o = Some (session, o) ∧ d' = d ∨
   progress d !! Governance.observation_id o = None ∧
   d' = set_progress d (<[Governance.observation_id o := (session, o)]> (progress d)) ∧
   ∃ task, Store.tasks d !! Governance.p_task_id o = Some task ∧
     Tasks.revision task = Governance.task_revision o ∧
     Tasks.assigned_to task = Some (Governance.p_agent_instance_id o) ∧
     (Tasks.consumed_tokens task ≤ Governance.consumed_tokens o ≤ Tasks.token_budget task)%Z).
Proof.
  unfold record_progress, load_task. intros H. apply bail_ok in H as [_ H].
  destruct (progress d !! Governance.observation_id o) as [x|] eqn:Ex.
  - case_bool_decide as Hx; [|done]. injection H as <-. subst x. split; [done|by left].
  - inv_tx. simpl. split; [apply lookup_insert_eq|]. right. split_and!; try done.
    eexists. split_and!; done.
Qed.

Lemma record_progress_again d session o d' :
  record_progress d session o = Ok (tt, d') → record_progress d' session o = Ok (tt, d').
Proof.
  intros H. pose proof (record_progress_ok _ _ _ _ H) as [Hp _].
  unfold record_progress in H |- *. apply bail_ok in H as [-> _]. simpl.
  by rewrite Hp, bool_decide_eq_true_2.
Qed.
