(* ===== verification/StoreRun.v ===== *)
(** Runs of the coordination store: every family of operations of
    src/sylvander-runtime/src/storage/coordination.rs behind one interface.

    A [StoreFamily] promises that an operation takes a well-formed store to a
    well-formed store by a [store_step].  The families of the other files are
    its instances, a sum of families is a family, and the guarantees of a run
    are proved once, for every interleaving of the operations of all families
    ([coordination_op]). *)

From S2P Require Import Prelude Graph Instance Store.
From S2P Require Membership Topology Tasks Handoff Mailbox Governance Arbitration.
From S2P Require StoreTasks StoreHandoffs StoreMessages StoreArbitration StoreFacts.
From stdpp Require Import base tactics gmap strings list relations.
From Stdlib Require Import ZArith Lia.

(** * The interface *)

Record store_ok (d : db) : Prop := {
  so_tasks : StoreTasks.tasks_ok d;
  so_handoffs : StoreHandoffs.handoffs_ok d;
  so_messages : StoreMessages.messages_ok d;
  so_cases : StoreArbitration.cases_ok d;
  so_waits : StoreFacts.waits_ok d;
}.

(** What a committed operation may do to a store. *)
Record store_step (d d' : db) : Prop := {
  st_tasks : StoreTasks.tasks_run d d';
  st_mail : StoreMessages.mail_run d d';
  st_settled : StoreArbitration.settled d d';
  st_handoffs : StoreHandoffs.handoffs_kept d d';
  st_decisions : decisions d ⊆ decisions d';
  st_progress : progress d ⊆ progress d';
  st_governance : governance d' = governance d;
  st_instances : ∀ i, lineage (instances d !! i) (instances d' !! i);
  st_topology : ∀ s r, topology_revision_of d s = Some r →
    ∃ r', topology_revision_of d' s = Some r' ∧ (r ≤ r')%Z;
}.

#[global] Instance store_step_preorder : PreOrder store_step.
Proof.
  split.
  - intros d. split; try done; try apply rtc_refl.
    + by intros id c.
    + by apply StoreHandoffs.handoffs_kept_same.
    + intros; apply lineage_refl.
    + intros s r Hr. by exists r.
  - intros d d1 d2 [] []. split.
    + by etrans.
    + by etrans.
    + intros id c Hc Hs. by apply st_settled1, Hs; apply st_settled0.
    + by eapply StoreHandoffs.handoffs_kept_trans.
    + by etrans.
    + by etrans.
    + by etrans.
    + intros i. by eapply lineage_trans.
    + intros s r Hr. destruct (st_topology0 s r Hr) as (r1 & Hr1 & ?).
      destruct (st_topology1 s r1 Hr1) as (r2 & Hr2 & ?). exists r2. split; [done|lia].
Qed.

Class StoreFamily (Op : Type) : Type := {
  legal : db → Op → Prop;
  commit : db → Op → db;
  commit_ok : ∀ d op, store_ok d → legal d op →
    store_step d (commit d op) ∧ store_ok (commit d op);
}.

(** ** Tables an operation does not write *)

Lemma mail_run_same d d' :
  messages d' = messages d → turns d' = turns d → StoreMessages.mail_run d d'.
Proof.
  intros Hm Ht. apply rtc_once. split; [|by rewrite Ht]. intros id. rewrite Hm.
  destruct (messages d !! id); [by left|done].
Qed.

Lemma messages_ok_same d d' :
  messages d' = messages d → turns d' = turns d →
  StoreMessages.messages_ok d → StoreMessages.messages_ok d'.
Proof. intros Hm Ht [Hr Hu]. split; rewrite ?Hm, ?Ht; done. Qed.

Lemma tasks_run_same d d' : tasks d' = tasks d → StoreTasks.tasks_run d d'.
Proof. intros Hd. by apply rtc_once, StoreTasks.tasks_step_same. Qed.

Lemma topology_same d d' s r :
  topologies d' = topologies d → topology_revision_of d s = Some r →
  ∃ r', topology_revision_of d' s = Some r' ∧ (r ≤ r')%Z.
Proof. unfold topology_revision_of. intros ->. by exists r. Qed.

(** Closes the parts of [store_step] and [store_ok] about unwritten tables. *)
Ltac unwritten :=
  first [ assumption | reflexivity | by auto
        | by apply mail_run_same | by eapply messages_ok_same; [..|eassumption] | by apply tasks_run_same
        | by intros ? ? Hrow ? | by apply StoreHandoffs.handoffs_kept_same | by intros ?; apply lineage_refl | by intros ??; apply topology_same ].

(** The cases of a committed operation [c] with a result [x], and of a failed
    one, which leaves the store as it was. *)
Ltac committed x Hc :=
  match goal with |- context [run ?d ?c] =>
    let d' := fresh "d'" in
    destruct (run_cases d c) as [->|[x Hc]];
      [by split|revert Hc; generalize (run d c).2; intros d' Hc] end.

(** * Tasks *)

(** Only tasks, leases and dependencies are written. *)
Lemma task_exec_shape `{!HashOrder} d op :
  StoreTasks.tasks_ok d →
  let d' := StoreTasks.exec d op in
  d' = set_dependencies (set_leases (set_tasks d (tasks d')) (leases d')) (dependencies d').
Proof.
  intros Hok.
  assert (d = set_dependencies (set_leases (set_tasks d (tasks d)) (leases d)) (dependencies d))
    as Hid by (destruct d; reflexivity).
  destruct op as [t|t e|tok id a owner now secs|l now secs|l next c now|id now|dep m]; simpl;
    match goal with |- context [run d ?c] =>
      destruct (run_cases d c) as [->|[x Hc]];
        [done|revert Hc; generalize (run d c).2; intros d' Hc] end.
  - destruct x. by apply StoreTasks.create_task_ok in Hc as (_ & -> & _).
  - destruct x. by apply StoreTasks.update_task_ok in Hc as (? & ? & _ & _ & -> & _).
  - by apply StoreTasks.claim_task_ok in Hc as (t & _ & _ & [[_ ->]|(t' & _ & _ & ->)]).
  - by apply StoreTasks.renew_ok in Hc as (? & ? & _ & _ & -> & _).
  - by apply StoreTasks.finish_ok in Hc as (? & ? & _ & _ & _ & _ & ->).
  - by apply StoreTasks.cancel_ok in Hc as (t & _ & _ & [[_ ->]|[_ ->]]).
  - destruct x. by apply StoreTasks.add_dependency_ok in Hc as (_ & _ & ->).
Qed.

#[global, program] Instance task_family `{!HashOrder} : StoreFamily StoreTasks.task_op := {|
  legal _ op := StoreTasks.op_typed op;
  commit := StoreTasks.exec;
|}.
Next Obligation.
  intros ho d op [Htok ? ? ? ?] Hty.
  pose proof (StoreTasks.exec_step d op Htok Hty) as Hs.
  pose proof (StoreTasks.exec_ok d op Htok Hty) as Hok'.
  pose proof (task_exec_shape d op Htok) as Hd. cbv zeta in Hd.
  assert (StoreTasks.tasks_run d (StoreTasks.exec d op)) as Hrun.
  { apply rtc_once. eapply StoreTasks.tasks_step_weaken; [|done]. by intros ? ? [? _]. }
  revert Hrun Hok' Hd. clear Hs. generalize (StoreTasks.exec d op). intros d' Hrun Hok' Hd.
  split; split; try done; rewrite Hd; unwritten.
Qed.

(** * Handoffs *)

Inductive handoff_op :=
  | OpPropose (h : Handoff.TaskHandoff) (membership : Membership.SessionMembership)
      (topology : Topology.SessionTopology) (now : Z)
  | OpTransition (id : Handoff.HandoffId) (actor : AgentInstanceId)
      (next_state : Handoff.HandoffState) (expected_revision now : Z).

Definition exec_handoff (d : db) (op : handoff_op) : db :=
  match op with
  | OpPropose h m topology now => (run d (StoreHandoffs.create_handoff d h m topology now)).2
  | OpTransition id actor next e now =>
      (run d (StoreHandoffs.transition_handoff d id actor next e now)).2
  end.

#[global, program] Instance handoff_family : StoreFamily handoff_op := {|
  legal _ _ := True;
  commit := exec_handoff;
|}.
Next Obligation.
  intros d op Hok _. pose proof Hok as [Htok Hhok Hmok Hcok Hwok].
  destruct op as [h m tp now|id actor next e now]; simpl; committed x Hc.
  - destruct x. apply StoreHandoffs.create_handoff_ok in Hc as (Hn & _ & _ & _ & ->).
    split; split; try unwritten; intros i x; simpl;
      (destruct (decide (i = Handoff.handoff_id h)) as [->|];
       [rewrite lookup_insert_eq|rewrite lookup_insert_ne by done; eauto using StoreHandoffs.kept_refl]).
    + congruence.
    + by intros [= <-].
  - pose proof (StoreHandoffs.transition_handoff_step _ _ _ _ _ _ _ _ Htok Hhok Hc) as [Hs Hh'].
    pose proof (StoreHandoffs.transition_handoff_ok _ _ _ _ _ _ _ _ Htok Hhok Hc)
      as (h & Hh & _ & Hcan & _ & _ & Hput & Hd & _).
    assert (StoreTasks.tasks_ok d') as Htok'.
    { eapply StoreTasks.tasks_ok_step; [done|done|done|]. rewrite Hd. apply Htok. }
    assert (StoreTasks.tasks_run d d') as Hrun by by apply rtc_once.
    assert (StoreHandoffs.handoffs_kept d d') as Hkeep.
    { eapply StoreHandoffs.handoffs_kept_put; [exact Hh| |by rewrite Hd].
      split; [by rewrite Hput; eexists _, _, _|]. intros Ht. unfold Handoff.State.can_transition_to in Hcan.
      by rewrite Ht in Hcan. }
    split; split; try done; rewrite Hd; unwritten.
Qed.

(** * Messages *)

#[global, program] Instance mail_family : StoreFamily StoreMessages.mail_op := {|
  legal _ _ := True;
  commit := StoreMessages.exec;
|}.
Next Obligation.
  intros d op [Htok Hhok Hmok Hcok Hwok] _.
  destruct (StoreMessages.mail_exec_step d op Hmok) as [Hs Hok'].
  assert (StoreMessages.exec d op = set_turns (set_messages d (messages (StoreMessages.exec d op)))
    (turns (StoreMessages.exec d op))) as Hd.
  { assert (d = set_turns (set_messages d (messages d)) (turns d))
      as Hid by (destruct d; reflexivity). clear Hs Hok'.
    destruct op as [m mb tp now|rc now secs|id rc ep nx now|cl tn now|id rc e now]; simpl;
    match goal with |- context [run d ?c] =>
      destruct (run_cases d c) as [->|[x Hc]];
        [done|revert Hc; generalize (run d c).2; intros d' Hc] end.
    - destruct x. by apply StoreMessages.enqueue_message_ok in Hc as (_ & _ & _ & ->).
    - destruct x as [x|]; [|by apply StoreMessages.claim_message_none in Hc as [-> _]].
      by apply StoreMessages.claim_message_ok in Hc as (? & ? & _ & _ & _ & -> & _).
    - by apply StoreMessages.finish_message_claim_ok in Hc as (? & _ & _ & _ & _ & _ & _ & -> & _).
    - destruct x as [m t]. by apply StoreMessages.prepare_message_turn_ok in Hc
        as (_ & _ & _ & [(_ & -> & _)|(_ & r & _ & _ & _ & _ & _ & _ & _ & _ & _ & _ & ->)]).
    - by apply StoreMessages.acknowledge_message_ok in Hc as (? & _ & _ & _ & _ & _ & -> & _). }
  assert (StoreMessages.mail_run d (StoreMessages.exec d op)) as Hrun by by apply rtc_once.
  revert Hrun Hok' Hd. clear Hs. generalize (StoreMessages.exec d op). intros d' Hrun Hok' Hd.
  split; split; try done; rewrite Hd; unwritten.
Qed.

(** * Arbitration *)

(** The graph of a decision is a reading of the store. *)
Definition legal_case (d : db) (op : StoreArbitration.case_op) : Prop :=
  match op with
  | StoreArbitration.OpDecide _ _ graph _ _ => StoreArbitration.snapshot d graph
  | _ => True
  end.

#[global, program] Instance case_family `{!HashOrder} :
    StoreFamily StoreArbitration.case_op := {|
  legal := legal_case;
  commit := StoreArbitration.exec;
|}.
Next Obligation.
  intros ho d op Hok Hlegal. pose proof Hok as [Htok Hhok Hmok Hcok Hwok].
  destruct (StoreArbitration.exec_cases d op Hcok) as [Hcok' Hcl].
  destruct op as [c m tp now|id e now|dec m g tp now]; simpl in *;
    revert Hcok' Hcl; committed x Hc; intros Hcok' Hcl.
  - destruct x. pose proof (StoreArbitration.create_case_ok _ _ _ _ _ _ Hc)
      as (_ & _ & _ & _ & _ & ->). split; split; unwritten.
  - pose proof (StoreArbitration.expire_arbitration_ok _ _ _ _ _ _ Hcok Hc)
      as (c & _ & _ & [[_ ->]|(_ & _ & _ & -> & _)]); [by split|]. split; split; unwritten.
  - destruct (StoreArbitration.decide_arbitration_ok _ _ _ _ _ _ _ _ Htok Hcok Hlegal Hc)
      as (c & _ & _ & _ & _ & _ & _ & _ & _ & Hrun & Htok').
    pose proof (StoreArbitration.decide_agents _ _ _ _ _ _ _ _ Hc) as Hag.
    destruct (StoreArbitration.decide_writes _ _ _ _ _ _ _ _ Hc) as [Hnew Hd].
    split; split; try done; try (by intros i; apply Hag); rewrite Hd; try unwritten.
    by apply insert_subseteq.
Qed.

(** * Facts *)

Inductive fact_op :=
  | OpTopology (t : Topology.SessionTopology) (membership : Membership.SessionMembership)
      (expected_revision : option Z)
  | OpWait (session : SessionId) (w : Governance.WaitDependency)
      (task_revision topology_revision : Z)
  | OpClearWait (session : SessionId) (w : Governance.WaitDependency)
  | OpProgress (session : SessionId) (o : Governance.ProgressObservation).

Definition exec_fact `{!HashOrder} (d : db) (op : fact_op) : db :=
  match op with
  | OpTopology t m e => (run d (StoreFacts.save_topology d t m e)).2
  | OpWait session w tr pr => (run d (StoreFacts.record_wait d session w tr pr)).2
  | OpClearWait session w => (run d (StoreFacts.clear_wait d session w)).2
  | OpProgress session o => (run d (StoreFacts.record_progress d session o)).2
  end.

#[global, program] Instance fact_family `{!HashOrder} : StoreFamily fact_op := {|
  legal _ _ := True;
  commit := exec_fact;
|}.
Next Obligation.
  intros ho d op Hok _. pose proof Hok as [Htok Hhok Hmok Hcok Hwok].
  destruct op as [t m e|session w tr pr|session w|session o]; simpl.
  - committed x Hc. destruct x.
    apply StoreFacts.save_topology_stored in Hc as (_ & _ & Hrev & _ & ->).
    split; split; try unwritten. intros s r. unfold topology_revision_of in *. simpl.
    destruct (decide (s = Topology.session_id t)) as [->|].
    + rewrite lookup_insert_eq. simpl. intros Hr. rewrite Hr in Hrev. eexists. split; [done|].
      destruct Hrev; lia.
    + rewrite lookup_insert_ne by done. intros Hr. by exists r.
  - committed x Hc. destruct x.
    pose proof (StoreFacts.record_wait_waits_ok _ _ _ _ _ _ Hwok Hc) as Hwok'.
    apply StoreFacts.record_wait_ok in Hc as (_ & _ & _ & ->). split; split; unwritten.
  - split; split; try unwritten. intros s t u v row. simpl. rewrite lookup_delete_Some.
    intros [_ ?]. by eapply Hwok.
  - committed x Hc. destruct x.
    apply StoreFacts.record_progress_ok in Hc as (_ & [(_ & ->)|(Hn & -> & _)]); [by split|].
    split; split; try unwritten. by apply insert_subseteq.
Qed.

(** * Every family together *)

#[global, program] Instance sum_family {A B : Type} `{!StoreFamily A, !StoreFamily B} :
    StoreFamily (A + B) := {|
  legal d op := match op with inl a => legal d a | inr b => legal d b end;
  commit d op := match op with inl a => commit d a | inr b => commit d b end;
|}.
Next Obligation. intros A B fa fb d [a|b]; apply commit_ok. Qed.

Section runs.
Context {Op : Type} `{!StoreFamily Op}.

(** Operations committed one after the other, each legal when it runs. *)
Definition commits (d : db) (ops : list Op) : db := foldl commit d ops.

Fixpoint legal_run (d : db) (ops : list Op) : Prop :=
  match ops with
  | [] => True
  | op :: ops => legal d op ∧ legal_run (commit d op) ops
  end.

Lemma commits_ok d ops :
  store_ok d → legal_run d ops → store_step d (commits d ops) ∧ store_ok (commits d ops).
Proof.
  revert d. induction ops as [|op ops IH]; intros d Hok Hl; [by split|].
  destruct Hl as [Hop Hl]. destruct (commit_ok d op Hok Hop) as [Hs Hok'].
  destruct (IH _ Hok' Hl) as [Hr ?]. split; [by etrans|done].
Qed.
End runs.

(** Any operation of the store. *)
Notation coordination_op :=
  (StoreTasks.task_op + handoff_op + StoreMessages.mail_op + StoreArbitration.case_op + fact_op)%type.
