(* ===== verification/WorkspaceStore.v ===== *)
(** The workspace store: src/sylvander-runtime/src/storage/workspace_coordination.rs.

    The tables [agent_workspace_views] and [workspace_integrations] next to the
    coordination tables, whose governance and topology the operations read.  An
    operation is one transaction, as in [Store].  [workspace_ok] is the invariant
    of the two tables; with it the two partial unique indices of the schema never
    reject an update, so the updates do not check them. *)

From S2P Require Import Prelude Graph Instance Workspace.
From S2P Require Import Store.
From S2P Require Membership Topology.
From stdpp Require Import base tactics gmap strings list sorting relations.
From Stdlib Require Import ZArith Lia.

Record wdb := {
  core : db;
  views : gmap WorkspaceViewId AgentWorkspaceView;
  integrations : gmap WorkspaceIntegrationId WorkspaceIntegration;
}.

Notation wtx A := (res (A * wdb) SessionStoreError).

Definition set_core (d : wdb) x : wdb :=
  {| core := x; views := views d; integrations := integrations d |}.
Definition set_views (d : wdb) x : wdb :=
  {| core := core d; views := x; integrations := integrations d |}.
Definition set_integrations (d : wdb) x : wdb :=
  {| core := core d; views := views d; integrations := x |}.

(** * Encodings *)

Definition encode_access (a : WorkspaceAccess) : string :=
  match a with ReadOnly => "read_only" | ReadWrite => "read_write" end.

Definition decode_access (s : string) : res WorkspaceAccess SessionStoreError :=
  if s == "read_only" then Ok ReadOnly
  else if s == "read_write" then Ok ReadWrite
  else Err Store.

Definition encode_isolation (i : WorkspaceIsolation) : string :=
  match i with Shared => "shared" | IsolatedWorktree => "isolated_worktree" end.

Definition decode_isolation (s : string) : res WorkspaceIsolation SessionStoreError :=
  if s == "shared" then Ok Shared
  else if s == "isolated_worktree" then Ok IsolatedWorktree
  else Err Store.

Definition encode_state (s : WorkspaceViewState) : string :=
  match s with
  | ViewState.Provisioning => "provisioning"
  | ViewState.Active => "active"
  | ViewState.Integrating => "integrating"
  | ViewState.Integrated => "integrated"
  | ViewState.Conflicted => "conflicted"
  | ViewState.Released => "released"
  | ViewState.ManualReconciliation => "manual_reconciliation"
  end.

Definition decode_state (s : string) : res WorkspaceViewState SessionStoreError :=
  if s == "provisioning" then Ok ViewState.Provisioning
  else if s == "active" then Ok ViewState.Active
  else if s == "integrating" then Ok ViewState.Integrating
  else if s == "integrated" then Ok ViewState.Integrated
  else if s == "conflicted" then Ok ViewState.Conflicted
  else if s == "released" then Ok ViewState.Released
  else if s == "manual_reconciliation" then Ok ViewState.ManualReconciliation
  else Err Store.

Definition encode_integration_state (s : WorkspaceIntegrationState) : string :=
  match s with
  | IntegrationState.Approved => "approved"
  | IntegrationState.Applying => "applying"
  | IntegrationState.Applied => "applied"
  | IntegrationState.Conflicted => "conflicted"
  | IntegrationState.ManualReconciliation => "manual_reconciliation"
  end.

Definition decode_integration_state (s : string) :
    res WorkspaceIntegrationState SessionStoreError :=
  if s == "approved" then Ok IntegrationState.Approved
  else if s == "applying" then Ok IntegrationState.Applying
  else if s == "applied" then Ok IntegrationState.Applied
  else if s == "conflicted" then Ok IntegrationState.Conflicted
  else if s == "manual_reconciliation" then Ok IntegrationState.ManualReconciliation
  else Err Store.

(** * Operations *)

Definition load_view (d : wdb) (id : WorkspaceViewId) : option AgentWorkspaceView :=
  views d !! id.
Definition load_integration (d : wdb) (id : WorkspaceIntegrationId) :
    option WorkspaceIntegration := integrations d !! id.

(** [state IN ('provisioning','active','integrating','conflicted',
    'manual_reconciliation')] *)
Definition view_active (v : AgentWorkspaceView) : bool :=
  match state v with
  | ViewState.Provisioning | ViewState.Active | ViewState.Integrating | ViewState.Conflicted
  | ViewState.ManualReconciliation => true
  | ViewState.Integrated | ViewState.Released => false
  end.

(** [state IN ('approved','applying','manual_reconciliation')] *)
Definition integration_active (i : WorkspaceIntegration) : bool :=
  match i_state i with
  | IntegrationState.Approved | IntegrationState.Applying
  | IntegrationState.ManualReconciliation => true
  | IntegrationState.Applied | IntegrationState.Conflicted => false
  end.

Definition has_active_view (d : wdb) (session : SessionId) (agent : AgentInstanceId) : bool :=
  existsb (λ v, (session_id v == session) && (agent_instance_id v == agent) && view_active v)
    (map_to_list (views d)).*2.

Definition has_active_integration (d : wdb) (id : WorkspaceViewId) : bool :=
  existsb (λ i, (a_view_id (approval i) == id) && integration_active i)
    (map_to_list (integrations d)).*2.

(** [create_workspace_view]; the inserted row has the state and the revision of
    a new view. *)
Definition create_workspace_view (d : wdb) (view : AgentWorkspaceView)
    (membership : Membership.SessionMembership) : wtx unit :=
  _ <- invalid (validate_new view membership);;
  bail membership_revision_of (core d) (session_id view) != Some (membership_revision view)
    with Invalid;;
  bail is_some (load_view d (view_id view)) with Invalid;;
  bail has_active_view d (session_id view) (agent_instance_id view) with Invalid;;
  bail negb (is_utf8 (source_workspace view)) with Invalid;;
  bail negb (is_utf8 (effective_workspace view)) with Invalid;;
  _ <- checked_i64 (membership_revision view);;
  _ <- checked_i64 (lease_epoch view);;
  _ <- checked_i64 (fencing_token view);;
  bail negb (has_instance (core d) (session_id view) (agent_instance_id view)) with Store;;
  let row := {|
    view_id := view_id view; session_id := session_id view;
    agent_instance_id := agent_instance_id view;
    membership_revision := membership_revision view; access := access view;
    isolation := isolation view; source_workspace := source_workspace view;
    effective_workspace := effective_workspace view; target_id := target_id view;
    branch := branch view; base_revision := base_revision view;
    state := ViewState.Provisioning; lease_epoch := lease_epoch view;
    fencing_token := fencing_token view; revision := 0; created_at := created_at view;
    updated_at := updated_at view |} in
  Ok (tt, set_views d (<[view_id view := row]> (views d))).

(** [ORDER BY created_at, view_id] *)
Definition view_le (a b : AgentWorkspaceView) : bool :=
  (created_at a <? created_at b)%Z
  || (created_at a =? created_at b)%Z && string_le (view_id a) (view_id b).

(** [active_workspace_views] *)
Definition active_workspace_views (d : wdb) (session : SessionId) : list AgentWorkspaceView :=
  stable_sort view_le (filter (λ v, session_id v = session ∧ view_active v = true)
    (map_to_list (views d)).*2).

(** [UPDATE agent_workspace_views SET state, revision, updated_at WHERE view_id
    AND revision AND lease_epoch AND fencing_token], with the number of changed
    rows. *)
Definition update_view (d : wdb) (view : AgentWorkspaceView) (expected epoch token : Z) :
    Z * wdb :=
  match views d !! view_id view with
  | Some row =>
      if (revision row =? expected)%Z && (lease_epoch row =? epoch)%Z
         && (fencing_token row =? token)%Z
      then (1%Z, set_views d
        (<[view_id view := advance row (revision view) (state view) (updated_at view)]> (views d)))
      else (0%Z, d)
  | None => (0%Z, d)
  end.

(** A method that mutates its receiver and may reject the call. *)
Definition moved {A E} (c : A * res unit E) : res A SessionStoreError :=
  _ <- invalid c.2;; Ok c.1.

(** [transition_workspace_view] *)
Definition transition_workspace_view (d : wdb) (id : WorkspaceViewId)
    (expected epoch token : Z) (next : WorkspaceViewState) (now : Z) : wtx AgentWorkspaceView :=
  view <- ok_or (load_view d id) Invalid;;
  view <- moved (transition view expected epoch token next now);;
  _ <- checked_i64 (revision view);;
  _ <- checked_i64 expected;;
  _ <- checked_i64 epoch;;
  _ <- checked_i64 token;;
  let '(changed, d') := update_view d view expected epoch token in
  bail negb (changed =? 1)%Z with Invalid;;
  Ok (view, d').

(** [AgentWorkspaceView::eq]: paths are equal up to their components. *)
Definition view_eq (v w : AgentWorkspaceView) : bool :=
  (view_id v == view_id w) && (session_id v == session_id w)
  && (agent_instance_id v == agent_instance_id w)
  && (membership_revision v =? membership_revision w)%Z && (access v == access w)
  && (isolation v == isolation w) && path_eq (source_workspace v) (source_workspace w)
  && path_eq (effective_workspace v) (effective_workspace w) && (target_id v == target_id w)
  && (branch v == branch w) && (base_revision v == base_revision w) && (state v == state w)
  && (lease_epoch v =? lease_epoch w)%Z && (fencing_token v =? fencing_token w)%Z
  && (revision v =? revision w)%Z && (created_at v =? created_at w)%Z
  && (updated_at v =? updated_at w)%Z.

#[global] Instance WorkspaceIntegrationApproval_eq_dec : EqDecision WorkspaceIntegrationApproval.
Proof. solve_decision. Defined.
#[global] Instance WorkspaceIntegration_eq_dec : EqDecision WorkspaceIntegration.
Proof. solve_decision. Defined.

(** [create_workspace_integration] *)
Definition create_workspace_integration (d : wdb) (integration : WorkspaceIntegration)
    (view : AgentWorkspaceView) (membership : Membership.SessionMembership)
    (current_topology_revision : Z) : wtx unit :=
  let a := approval integration in
  expected <- invalid (new a view membership current_topology_revision);;
  bail integration != expected with Invalid;;
  durable_view <- ok_or (load_view d (view_id view)) Invalid;;
  bail negb (view_eq durable_view view) with Invalid;;
  bail topology_revision_of (core d) (session_id view) != Some (topology_revision a) with Invalid;;
  bail is_some (load_integration d (integration_id a)) with Invalid;;
  bail has_active_integration d (view_id view) with Invalid;;
  _ <- checked_i64 (a_membership_revision a);;
  _ <- checked_i64 (topology_revision a);;
  _ <- checked_i64 (view_revision a);;
  _ <- checked_i64 (a_lease_epoch a);;
  _ <- checked_i64 (a_fencing_token a);;
  let row := {| approval := a; i_state := IntegrationState.Approved; merge_revision := None;
                i_revision := 0; i_updated_at := i_updated_at integration |} in
  Ok (tt, set_integrations d (<[integration_id a := row]> (integrations d))).

(** [UPDATE workspace_integrations SET state, revision, updated_at WHERE
    integration_id AND revision]; [receipt] is the [merge_revision] column when
    the statement writes it. *)
Definition update_integration (d : wdb) (i : WorkspaceIntegration)
    (receipt : option (option string)) (expected : Z) : Z * wdb :=
  match integrations d !! integration_id (approval i) with
  | Some row =>
      if (i_revision row =? expected)%Z
      then (1%Z, set_integrations d (<[integration_id (approval i) :=
             {| approval := approval row; i_state := i_state i;
                merge_revision := default (merge_revision row) receipt;
                i_revision := i_revision i; i_updated_at := i_updated_at i |}]>
             (integrations d)))
      else (0%Z, d)
  | None => (0%Z, d)
  end.

(** [transition_workspace_integration] *)
Definition transition_workspace_integration (d : wdb) (id : WorkspaceIntegrationId)
    (expected : Z) (next : WorkspaceIntegrationState) (now : Z) : wtx WorkspaceIntegration :=
  i <- ok_or (load_integration d id) Invalid;;
  i <- moved (transition_integration i expected next now);;
  _ <- checked_i64 (i_revision i);;
  _ <- checked_i64 expected;;
  let '(changed, d') := update_integration d i None expected in
  bail negb (changed =? 1)%Z with Invalid;;
  Ok (i, d').

(** [advance_workspace_integration] *)
Definition advance_workspace_integration (d : wdb) (id : WorkspaceIntegrationId)
    (expected_integration expected_view epoch token : Z)
    (next_integration : WorkspaceIntegrationState) (next_view : WorkspaceViewState)
    (receipt : option string) (now : Z) : wtx (WorkspaceIntegration * AgentWorkspaceView) :=
  i <- ok_or (load_integration d id) Invalid;;
  view <- ok_or (load_view d (a_view_id (approval i))) Invalid;;
  i <- moved (transition_with_receipt i expected_integration next_integration receipt now);;
  view <- moved (transition view expected_view epoch token next_view now);;
  _ <- checked_i64 (i_revision i);;
  _ <- checked_i64 expected_integration;;
  let '(integration_changed, d1) :=
    update_integration d i (Some (merge_revision i)) expected_integration in
  _ <- checked_i64 (revision view);;
  _ <- checked_i64 expected_view;;
  _ <- checked_i64 epoch;;
  _ <- checked_i64 token;;
  let '(view_changed, d2) := update_view d1 view expected_view epoch token in
  bail negb (integration_changed =? 1)%Z || negb (view_changed =? 1)%Z with Invalid;;
  Ok ((i, view), d2).

(** * What the operations do *)

Lemma elem_of_values {A} (m : gmap string A) x : x ∈ (map_to_list m).*2 ↔ ∃ k, m !! k = Some x.
Proof.
  rewrite list_elem_of_fmap. split.
  - intros ([k y] & -> & Hy%elem_of_map_to_list). by exists k.
  - intros [k Hk]. exists (k, x). split; [done|]. by apply elem_of_map_to_list.
Qed.

Lemma has_active_view_false d s a :
  has_active_view d s a = false ↔
  ∀ id v, views d !! id = Some v → session_id v = s → agent_instance_id v = a →
    view_active v = false.
Proof.
  unfold has_active_view. rewrite existsb_false_elem. split.
  - intros H id v Hv <- <-. specialize (H v). rewrite !bool_decide_eq_true_2 in H by done.
    apply H. rewrite elem_of_values. by exists id.
  - intros H v [id Hv]%elem_of_values. destruct (decide (session_id v = s)) as [Hs|];
      [|by rewrite bool_decide_eq_false_2].
    destruct (decide (agent_instance_id v = a)) as [Ha|];
      [|by rewrite andb_false_iff; left; rewrite andb_false_iff; right; apply bool_decide_eq_false_2].
    rewrite (H id v) by done. by rewrite andb_false_r.
Qed.

Lemma has_active_integration_false d id :
  has_active_integration d id = false ↔
  ∀ k i, integrations d !! k = Some i → a_view_id (approval i) = id → integration_active i = false.
Proof.
  unfold has_active_integration. rewrite existsb_false_elem. split.
  - intros H k i Hi <-. specialize (H i). rewrite bool_decide_eq_true_2 in H by done.
    apply H. rewrite elem_of_values. by exists k.
  - intros H i [k Hi]%elem_of_values. destruct (decide (a_view_id (approval i) = id)) as [Ha|];
      [|by rewrite bool_decide_eq_false_2]. rewrite (H k i) by done. by rewrite andb_false_r.
Qed.

Lemma view_row v rev s :
  state v = s → revision v = rev →
  {| view_id := view_id v; session_id := session_id v; agent_instance_id := agent_instance_id v;
     membership_revision := membership_revision v; access := access v; isolation := isolation v;
     source_workspace := source_workspace v; effective_workspace := effective_workspace v;
     target_id := target_id v; branch := branch v; base_revision := base_revision v; state := s;
     lease_epoch := lease_epoch v; fencing_token := fencing_token v; revision := rev;
     created_at := created_at v; updated_at := updated_at v |} = v.
Proof. intros <- <-. by destruct v. Qed.

Lemma create_view_ok d v m d' :
  create_workspace_view d v m = Ok (tt, d') →
  view_ok v m ∧ views d !! view_id v = None ∧
  has_active_view d (session_id v) (agent_instance_id v) = false ∧
  membership_revision_of (core d) (session_id v) = Some (membership_revision v) ∧
  has_instance (core d) (session_id v) (agent_instance_id v) = true ∧
  d' = set_views d (<[view_id v := v]> (views d)).
Proof.
  unfold create_workspace_view. rewrite res_bind_ok. setoid_rewrite invalid_ok.
  intros ([] & Hv & H). apply validate_view_iff in Hv. destruct (v_new _ _ Hv) as [Hs Hr].
  rewrite !bail_ok in H. destruct H as (Hm & Hid & Ha & _ & _ & H).
  apply res_bind_ok in H as (? & _ & H). apply res_bind_ok in H as (? & _ & H).
  apply res_bind_ok in H as (? & _ & H). apply bail_ok in H as [Hi [= <-]].
  apply negb_bool_decide_false in Hm. apply is_some_false in Hid. apply negb_false_iff in Hi.
  split_and!; try done. by rewrite view_row.
Qed.

(** A view that [transition] moved from [v]. *)
Definition moved_view (v v' : AgentWorkspaceView) (next : WorkspaceViewState) (now : Z) : Prop :=
  v' = advance v (revision v + 1) next now ∧ ViewState.can_transition_to (state v) next = true ∧
  (revision v < u64_max)%Z.

Lemma moved_ok {A E} (c : A * res unit E) a : moved c = Ok a ↔ c = (a, Ok tt).
Proof.
  unfold moved. rewrite res_bind_ok. setoid_rewrite invalid_ok. destruct c as [x r]. simpl. split.
  - intros ([] & -> & [= ->]). done.
  - intros [= -> ->]. by exists tt.
Qed.

Lemma update_view_ok d v' v expected epoch token changed d' :
  views d !! view_id v' = Some v → expected = revision v → epoch = lease_epoch v →
  token = fencing_token v → update_view d v' expected epoch token = (changed, d') →
  changed = 1%Z ∧ d' = set_views d
    (<[view_id v' := advance v (revision v') (state v') (updated_at v')]> (views d)).
Proof.
  intros Hv -> -> ->. unfold update_view. rewrite Hv, !Z.eqb_refl. simpl. by intros [= <- <-].
Qed.

Lemma transition_view_ok d id expected epoch token next now v' d' :
  (∀ id v, views d !! id = Some v → view_id v = id) →
  transition_workspace_view d id expected epoch token next now = Ok (v', d') →
  ∃ v, views d !! id = Some v ∧ moved_view v v' next now ∧ expected = revision v ∧
    epoch = lease_epoch v ∧ token = fencing_token v ∧
    d' = set_views d (<[id := v']> (views d)).
Proof.
  intros Hkeys. unfold transition_workspace_view. rewrite res_bind_ok. setoid_rewrite ok_or_ok.
  intros (v & Hv & H). apply res_bind_ok in H as (w & Hw & H).
  apply moved_ok, transition_ok in Hw as (-> & -> & -> & -> & Hs & Hr).
  do 4 (apply res_bind_ok in H as (? & _ & H)).
  destruct (update_view d _ _ _ _) as [changed d1] eqn:Hu. apply bail_ok in H as [_ [= <- <-]].
  assert (view_id v = id) as <- by by apply Hkeys.
  eapply update_view_ok in Hu as [_ ->]; [|exact Hv|done..]. exists v. done.
Qed.

Lemma create_integration_ok d i v m topology d' :
  create_workspace_integration d i v m topology = Ok (tt, d') →
  approval_ok (approval i) v m topology ∧
  (∃ w, views d !! view_id v = Some w ∧ view_eq w v = true) ∧
  topology_revision_of (core d) (session_id v) = Some (topology_revision (approval i)) ∧
  integrations d !! integration_id (approval i) = None ∧
  has_active_integration d (view_id v) = false ∧
  i = {| approval := approval i; i_state := IntegrationState.Approved; merge_revision := None;
         i_revision := 0; i_updated_at := approved_at (approval i) |} ∧
  d' = set_integrations d (<[integration_id (approval i) := i]> (integrations d)).
Proof.
  unfold create_workspace_integration. rewrite res_bind_ok. setoid_rewrite invalid_ok.
  intros (e & He & H). apply new_ok in He as [Ha ->]. apply bail_ok in H as [Hi H].
  apply negb_bool_decide_false in Hi. apply res_bind_ok in H as (w & Hw & H).
  apply ok_or_ok in Hw. rewrite !bail_ok in H. destruct H as (Heq & Ht & Hid & Hact & H).
  do 5 (apply res_bind_ok in H as (? & _ & H)). injection H as <-.
  apply negb_false_iff in Heq. apply negb_bool_decide_false in Ht. apply is_some_false in Hid.
  split_and!; try done; [by exists w|]. do 2 f_equal. rewrite Hi. simpl. done.
Qed.

Lemma update_integration_ok d i' i receipt expected changed d' :
  integrations d !! integration_id (approval i') = Some i → expected = i_revision i →
  update_integration d i' receipt expected = (changed, d') →
  changed = 1%Z ∧ d' = set_integrations d (<[integration_id (approval i') :=
    {| approval := approval i; i_state := i_state i';
       merge_revision := default (merge_revision i) receipt; i_revision := i_revision i';
       i_updated_at := i_updated_at i' |}]> (integrations d)).
Proof. intros Hi ->. unfold update_integration. rewrite Hi, Z.eqb_refl. by intros [= <- <-]. Qed.

Lemma integration_row i' a r :
  approval i' = a → merge_revision i' = r →
  {| approval := a; i_state := i_state i'; merge_revision := r; i_revision := i_revision i';
     i_updated_at := i_updated_at i' |} = i'.
Proof. intros <- <-. by destruct i'. Qed.

Lemma transition_integration_ok d id expected next now i' d' :
  (∀ id i, integrations d !! id = Some i → integration_id (approval i) = id ∧ receipt_ok i) →
  transition_workspace_integration d id expected next now = Ok (i', d') →
  ∃ i, integrations d !! id = Some i ∧ integration_step i i' ∧ receipt_ok i' ∧
    expected = i_revision i ∧ d' = set_integrations d (<[id := i']> (integrations d)).
Proof.
  intros Hkeys. unfold transition_workspace_integration. rewrite res_bind_ok.
  setoid_rewrite ok_or_ok. intros (i & Hi & H). apply res_bind_ok in H as (w & Hw & H).
  apply moved_ok in Hw. unfold transition_integration in Hw.
  set (c := {| ic_expected := expected; ic_next := next; ic_receipt := None; ic_now := now |}).
  assert (integrate i c = (w, Ok tt)) as Hc by exact Hw.
  pose proof (integrate_spec _ _ _ _ Hc) as [[_ [? ?]]|(_ & Ha & _ & He & _ & Hs & Hr)]; [done|].
  simpl in He. subst expected. do 2 (apply res_bind_ok in H as (? & _ & H)).
  destruct (update_integration d w None _) as [changed d1] eqn:Hu.
  apply bail_ok in H as [_ [= <- <-]]. destruct (Hkeys _ _ Hi) as [<- Hri].
  eapply update_integration_ok in Hu as [_ ->]; [|by rewrite Ha|done].
  exists i. split_and!; try done; [by exists c|]. rewrite Ha. do 2 f_equal. simpl.
  apply integration_row; [done|]. unfold receipt_ok in Hri, Hr.
  assert (i_state i ≠ IntegrationState.Applied) as Hna by (intros Hx; rewrite Hx in Hs; by destruct (i_state w)).

  destruct (merge_revision i); [by destruct Hri|].
  unfold transition_with_receipt in Hw. repeat case_match; simplify_eq/=. done.
Qed.

Lemma advance_ok d id ei ev epoch token ni nv receipt now i' v' d' :
  (∀ id v, views d !! id = Some v → view_id v = id) →
  (∀ id i, integrations d !! id = Some i → integration_id (approval i) = id) →
  advance_workspace_integration d id ei ev epoch token ni nv receipt now = Ok ((i', v'), d') →
  ∃ i v, integrations d !! id = Some i ∧ views d !! a_view_id (approval i) = Some v ∧
    integration_step i i' ∧ receipt_ok i' ∧ moved_view v v' nv now ∧
    ei = i_revision i ∧ ev = revision v ∧ epoch = lease_epoch v ∧ token = fencing_token v ∧
    d' = set_views (set_integrations d (<[id := i']> (integrations d)))
           (<[a_view_id (approval i) := v']> (views d)).
Proof.
  intros Hvk Hik. unfold advance_workspace_integration. rewrite res_bind_ok.
  setoid_rewrite ok_or_ok. intros (i & Hi & H). apply res_bind_ok in H as (v & Hv & H).
  apply ok_or_ok in Hv. apply res_bind_ok in H as (i1 & Hw & H). apply moved_ok in Hw.
  apply res_bind_ok in H as (v1 & Hv1 & H).
  apply moved_ok, transition_ok in Hv1 as (-> & -> & -> & -> & Hs & Hr).
  set (c := {| ic_expected := ei; ic_next := ni; ic_receipt := receipt; ic_now := now |}).
  assert (integrate i c = (i1, Ok tt)) as Hc by exact Hw.
  pose proof (integrate_spec _ _ _ _ Hc) as [[_ [? ?]]|(_ & Ha & _ & He & _ & _ & Hri)]; [done|].
  simpl in He. subst ei. do 2 (apply res_bind_ok in H as (? & _ & H)).
  destruct (update_integration d i1 _ _) as [ic d1] eqn:Hu.
  do 4 (apply res_bind_ok in H as (? & _ & H)).
  destruct (update_view d1 _ _ _ _) as [vc d2] eqn:Hu2. apply bail_ok in H as [_ [= <- <- <-]].
  eapply update_integration_ok in Hu as [_ Hd1]; [|by rewrite Ha, (Hik _ _ Hi)|done]. subst d1.
  eapply update_view_ok in Hu2 as [_ ->];
    [|simpl; rewrite (Hvk _ _ Hv); exact Hv|done..].
  exists i, v. split_and!; try done; [by exists c|]. simpl.
  rewrite Ha, (Hik _ _ Hi), (Hvk _ _ Hv). f_equal. f_equal. rewrite <- Ha.
  by rewrite integration_row.
Qed.

(** * The invariant *)

Definition same_agent (v w : AgentWorkspaceView) : Prop :=
  session_id v = session_id w ∧ agent_instance_id v = agent_instance_id w.

(** What an approval was given for: the view under the lease it still has, at a
    revision it has reached. *)
Record bound (a : WorkspaceIntegrationApproval) (v : AgentWorkspaceView) : Prop := {
  b_session : a_session_id a = session_id v;
  b_agent : a_agent_instance_id a = agent_instance_id v;
  b_lease : a_lease_epoch a = lease_epoch v ∧ a_fencing_token a = fencing_token v;
  b_revision : (view_revision a ≤ revision v)%Z;
}.

Record workspace_ok (d : wdb) : Prop := {
  wo_view : ∀ id v, views d !! id = Some v → view_id v = id ∧ mode_ok v ∧ location_ok v;
  wo_one_view : ∀ i j v w, views d !! i = Some v → views d !! j = Some w → same_agent v w →
    view_active v = true → view_active w = true → i = j;
  wo_integration : ∀ id i, integrations d !! id = Some i →
    integration_id (approval i) = id ∧ receipt_ok i ∧
    ∃ v, views d !! a_view_id (approval i) = Some v ∧ bound (approval i) v;
  wo_one_integration : ∀ j k a b, integrations d !! j = Some a → integrations d !! k = Some b →
    a_view_id (approval a) = a_view_id (approval b) →
    integration_active a = true → integration_active b = true → j = k;
}.

Lemma view_inactive_final v next :
  ViewState.can_transition_to (state v) next = true → view_active v = true.
Proof. unfold view_active. by destruct (state v), next; vm_compute. Qed.

Lemma integration_step_active i j : integration_step i j → integration_active i = true.
Proof.
  intros [c Hc]. apply integrate_spec in Hc as [[_ [? ?]]|(_ & _ & _ & _ & _ & Hs & _)]; [done|].
  unfold integration_active. destruct (i_state i), (i_state j); try done; by vm_compute in Hs.
Qed.

Lemma integration_step_approval i j : integration_step i j → approval j = approval i.
Proof.
  intros [c Hc]. by apply integrate_spec in Hc as [[_ [? ?]]|(_ & ? & _)].
Qed.

(** Writing a moved view. *)
Lemma workspace_ok_view d id v v' next now :
  workspace_ok d → views d !! id = Some v → moved_view v v' next now →
  workspace_ok (set_views d (<[id := v']> (views d))).
Proof.
  intros [H1 H2 H3 H4] Hv (-> & Hs & _). pose proof (view_inactive_final _ _ Hs) as Hact.
  split; simpl.
  - intros j w. rewrite lookup_insert_Some. intros [[<- <-]|[_ Hw]]; [|by apply H1].
    destruct (H1 _ _ Hv) as (? & ? & ?). done.
  - intros i j x y Hx Hy. apply lookup_insert_Some in Hx as [[<- <-]|[Hi Hx]];
      apply lookup_insert_Some in Hy as [[<- <-]|[Hj Hy]]; try done.
    + intros ? _ ?. by eapply (H2 id j v y).
    + intros ? ? _. by eapply (H2 i id x v).
    + by apply H2.
  - intros j i Hi. destruct (H3 _ _ Hi) as (? & ? & w & Hw & Hb). split_and!; [done..|].
    destruct (decide (id = a_view_id (approval i))) as [->|].
    + rewrite lookup_insert_eq. eexists. split; [done|]. rewrite Hv in Hw. injection Hw as <-.
      destruct Hb as [? ? ? ?]. split; simpl; try done. lia.
    + rewrite lookup_insert_ne by done. by exists w.
  - done.
Qed.

(** Writing an integration that made a step. *)
Lemma workspace_ok_integration d id i i' :
  workspace_ok d → integrations d !! id = Some i → integration_step i i' → receipt_ok i' →
  workspace_ok (set_integrations d (<[id := i']> (integrations d))).
Proof.
  intros [H1 H2 H3 H4] Hi Hs Hr. pose proof (integration_step_active _ _ Hs) as Hact.
  pose proof (integration_step_approval _ _ Hs) as Ha. split; simpl; [done|done| |].
  - intros j x. rewrite lookup_insert_Some. intros [[<- <-]|[_ Hx]]; [|by apply H3].
    destruct (H3 _ _ Hi) as (? & _ & Hv). by rewrite Ha.
  - intros j k a b Hj Hk. apply lookup_insert_Some in Hj as [[<- <-]|[Hj' Hj]];
      apply lookup_insert_Some in Hk as [[<- <-]|[Hk' Hk]]; rewrite ?Ha; try done.
    + intros ? _ ?. by eapply (H4 id k i b).
    + intros ? ? _. by eapply (H4 j id a i).
    + by apply H4.
Qed.

Lemma view_eq_spec v w :
  view_eq v w = true →
  view_id v = view_id w ∧ session_id v = session_id w ∧
  agent_instance_id v = agent_instance_id w ∧ lease_epoch v = lease_epoch w ∧
  fencing_token v = fencing_token w ∧ revision v = revision w ∧ state v = state w ∧
  membership_revision v = membership_revision w.
Proof.
  unfold view_eq. rewrite !andb_true_iff, !bool_decide_eq_true, !Z.eqb_eq. naive_solver.
Qed.

(** * Runs

    The operations of the workspace store, interleaved with any change of the
    coordination tables. *)

Inductive workspace_op :=
  | OpCreateView (view : AgentWorkspaceView) (membership : Membership.SessionMembership)
  | OpTransitionView (id : WorkspaceViewId) (expected epoch token : Z)
      (next : WorkspaceViewState) (now : Z)
  | OpCreateIntegration (i : WorkspaceIntegration) (view : AgentWorkspaceView)
      (membership : Membership.SessionMembership) (topology_revision : Z)
  | OpTransitionIntegration (id : WorkspaceIntegrationId) (expected : Z)
      (next : WorkspaceIntegrationState) (now : Z)
  | OpAdvance (id : WorkspaceIntegrationId) (expected_integration expected_view epoch token : Z)
      (next_integration : WorkspaceIntegrationState) (next_view : WorkspaceViewState)
      (receipt : option string) (now : Z)
  | OpElsewhere (d : db).

Definition exec (d : wdb) (op : workspace_op) : wdb :=
  match op with
  | OpCreateView v m => (run d (create_workspace_view d v m)).2
  | OpTransitionView id e ep tk nx now =>
      (run d (transition_workspace_view d id e ep tk nx now)).2
  | OpCreateIntegration i v m t => (run d (create_workspace_integration d i v m t)).2
  | OpTransitionIntegration id e nx now =>
      (run d (transition_workspace_integration d id e nx now)).2
  | OpAdvance id ei ev ep tk ni nv r now =>
      (run d (advance_workspace_integration d id ei ev ep tk ni nv r now)).2
  | OpElsewhere x => set_core d x
  end.

(** What one operation may do to a view and to an integration. *)
Definition view_step (v v' : AgentWorkspaceView) : Prop := ∃ next now, moved_view v v' next now.

Definition row_step {A} (R : relation A) (fresh : A → Prop) (o o' : option A) : Prop :=
  match o, o' with
  | Some a, Some a' => rtc R a a'
  | None, Some a' => fresh a'
  | Some _, None => False
  | None, None => True
  end.

Definition fresh_view (v : AgentWorkspaceView) : Prop :=
  state v = ViewState.Provisioning ∧ revision v = 0%Z ∧ mode_ok v ∧ location_ok v.

(** A new integration was approved by the moderator of a membership, for the
    stored view and the stored topology. *)
Definition fresh_integration (d : wdb) (i : WorkspaceIntegration) : Prop :=
  i_state i = IntegrationState.Approved ∧ i_revision i = 0%Z ∧ merge_revision i = None ∧
  ∃ v m topology, approval_ok (approval i) v m topology ∧
    (∃ w, views d !! view_id v = Some w ∧ view_eq w v = true) ∧
    topology_revision_of (core d) (session_id v) = Some (topology_revision (approval i)).

Definition workspace_step (d d' : wdb) : Prop :=
  (∀ id, row_step view_step fresh_view (views d !! id) (views d' !! id)) ∧
  (∀ id, row_step integration_step (fresh_integration d) (integrations d !! id)
           (integrations d' !! id)).

Lemma row_step_refl {A} (R : relation A) fresh o : row_step R fresh o o.
Proof. by destruct o; simpl. Qed.

Lemma row_step_insert {A} (R : relation A) fresh (m : gmap string A) id id' a :
  row_step R fresh (m !! id) (Some a) → row_step R fresh (m !! id') (<[id := a]> m !! id').
Proof.
  intros H. destruct (decide (id = id')) as [<-|]; [by rewrite lookup_insert_eq|].
  rewrite lookup_insert_ne by done. apply row_step_refl.
Qed.

Lemma workspace_step_refl d : workspace_step d d.
Proof. split; intros; apply row_step_refl. Qed.

Lemma moved_view_step d id v v' next now :
  views d !! id = Some v → moved_view v v' next now →
  row_step view_step fresh_view (views d !! id) (Some v').
Proof. intros -> Hm. simpl. apply rtc_once. by exists next, now. Qed.

Lemma create_view_keeps d v m :
  workspace_ok d → view_ok v m → views d !! view_id v = None →
  has_active_view d (session_id v) (agent_instance_id v) = false →
  workspace_ok (set_views d (<[view_id v := v]> (views d))).
Proof.
  intros [H1 H2 H3 H4] Hv Hid Hact. rewrite has_active_view_false in Hact. split; simpl.
  - intros j w. rewrite lookup_insert_Some. intros [[<- <-]|[_ Hw]]; [|by apply H1].
    by destruct Hv.
  - intros i j x y Hx Hy. apply lookup_insert_Some in Hx as [[<- <-]|[Hi Hx]];
      apply lookup_insert_Some in Hy as [[<- <-]|[Hj Hy]]; try done; [| |by apply H2].
    + intros [Hs Ha] _ Hy'. rewrite (Hact j y) in Hy' by done. done.
    + intros [Hs Ha] Hx'. rewrite (Hact i x) in Hx' by done. done.
  - intros j i Hi. destruct (H3 _ _ Hi) as (? & ? & w & Hw & Hb). split_and!; [done..|].
    exists w. split; [|done]. rewrite lookup_insert_ne; [done|]. intros Heq. congruence.
  - done.
Qed.

Lemma create_integration_keeps d i v m topology w :
  workspace_ok d → approval_ok (approval i) v m topology →
  views d !! view_id v = Some w → view_eq w v = true →
  integrations d !! integration_id (approval i) = None →
  has_active_integration d (view_id v) = false → receipt_ok i →
  workspace_ok (set_integrations d (<[integration_id (approval i) := i]> (integrations d))).
Proof.
  intros [H1 H2 H3 H4] Ha Hw Heq Hid Hact Hr. rewrite has_active_integration_false in Hact.
  destruct Ha as [(Hv & Hs & Hg) _ _ _ (Hrev & He & Ht) _ _ _].
  apply view_eq_spec in Heq as (_ & ? & ? & ? & ? & ? & _). split; simpl; [done|done| |].
  - intros j x. rewrite lookup_insert_Some. intros [[<- <-]|[_ Hx]]; [|by apply H3].
    split_and!; [done|done|]. exists w. rewrite Hv. split; [done|].
    split; [congruence|congruence|split; congruence|]. rewrite Hrev. lia.
  - intros j k a b Hj Hk. apply lookup_insert_Some in Hj as [[<- <-]|[Hj' Hj]];
      apply lookup_insert_Some in Hk as [[<- <-]|[Hk' Hk]]; try done; [| |by apply H4].
    + intros Hv' _ Hb. rewrite (Hact k b Hk) in Hb; [done|congruence].
    + intros Hv' Ha'. rewrite (Hact j a Hj) in Ha'; [done|congruence].
Qed.

Lemma workspace_exec_ok d op : workspace_ok d → workspace_ok (exec d op) ∧ workspace_step d (exec d op).
Proof.
  intros Hok. pose proof Hok as [H1 _ H3 _].
  assert (∀ id v, views d !! id = Some v → view_id v = id) as Hvk by naive_solver.
  assert (∀ id i, integrations d !! id = Some i → integration_id (approval i) = id ∧ receipt_ok i)
    as Hik by naive_solver.
  destruct op as [v m|id e ep tk nx now|i v m t|id e nx now|id ei ev ep tk ni nv r now|x]; simpl;
    try match goal with |- context [run ?d ?c] =>
      destruct (run_cases d c) as [->|[y Hc]];
        [split; [done|apply workspace_step_refl]|revert Hc; generalize (run d c).2; intros d' Hc]
    end.
  - destruct y. apply create_view_ok in Hc as (Hv & Hid & Hact & _ & _ & ->).
    split; [by eapply create_view_keeps|]. split; [|intros; apply row_step_refl].
    intros j. apply row_step_insert. rewrite Hid. simpl. by destruct Hv as [[? ?] ? ? ? ? ? ?].
  - apply transition_view_ok in Hc as (v & Hv & Hm & _ & _ & _ & ->); [|done].
    split; [by eapply workspace_ok_view|]. split; [|intros; apply row_step_refl].
    intros j. apply row_step_insert. by eapply moved_view_step.
  - destruct y. apply create_integration_ok in Hc as (Ha & (w & Hw & Heq) & Ht & Hid & Hact & Hi & ->).
    assert (receipt_ok i) as Hr by (rewrite Hi; done).
    split; [by eapply create_integration_keeps|]. split; [intros; apply row_step_refl|].
    intros j. apply row_step_insert. rewrite Hid. simpl.
    split_and!; [by rewrite Hi..|]. exists v, m, t. split_and!; try done. by exists w.
  - apply transition_integration_ok in Hc as (i & Hi & Hs & Hr & _ & ->); [|done].
    split; [by eapply workspace_ok_integration|]. split; [intros; apply row_step_refl|].
    intros j. apply row_step_insert. rewrite Hi. by apply rtc_once.
  - destruct y as [i' v']. apply advance_ok in Hc as (i & v & Hi & Hv & Hs & Hr & Hm & _ & _ & _ & _ & ->);
      [|done|naive_solver].
    pose proof (workspace_ok_integration _ _ _ _ Hok Hi Hs Hr) as Hok'.
    split; [by eapply (workspace_ok_view (set_integrations d _))|]. split; intros j; simpl; apply row_step_insert.
    + by eapply moved_view_step.
    + rewrite Hi. by apply rtc_once.
  - split; [by destruct Hok; split|split; intros; apply row_step_refl].
Qed.

Definition execs (d : wdb) (ops : list workspace_op) : wdb := foldl exec d ops.

Lemma view_step_keeps v v' : view_step v v' →
  view_id v' = view_id v ∧ same_agent v v' ∧ lease_epoch v' = lease_epoch v ∧
  fencing_token v' = fencing_token v ∧ (revision v ≤ revision v')%Z ∧
  ViewState.can_transition_to (state v) (state v') = true.
Proof. intros (next & now & -> & Hs & _). split_and!; try done. simpl. lia. Qed.

(** What any number of steps keeps of a view. *)
Record view_kept (v v' : AgentWorkspaceView) : Prop := {
  vk_identity : view_id v' = view_id v ∧ same_agent v v';
  vk_lease : lease_epoch v' = lease_epoch v ∧ fencing_token v' = fencing_token v;
  vk_revision : (revision v ≤ revision v')%Z;
  vk_state : rtc (λ a b, ViewState.can_transition_to a b = true) (state v) (state v');
  vk_final : ViewState.is_terminal (state v) = true → v' = v;
}.

Lemma view_steps_kept v v' : rtc view_step v v' → view_kept v v'.
Proof.
  induction 1 as [v|v w v' Hs _ [[? [? ?]] [? ?] ? ? Hf]]; [by split|].
  pose proof (view_step_keeps _ _ Hs) as (? & [? ?] & ? & ? & ? & Hst).
  split; [split; [congruence|split; congruence]|split; congruence|lia|by eapply rtc_l|].
  intros Ht. unfold ViewState.can_transition_to in Hst. rewrite Ht, orb_true_r in Hst. done.
Qed.

(** What any number of steps keeps of an integration. *)
Record integration_kept (i i' : WorkspaceIntegration) : Prop := {
  ik_approval : approval i' = approval i;
  ik_rank : integration_rank (i_state i) ≤ integration_rank (i_state i');
  ik_final : IntegrationState.is_final (i_state i) = true → i' = i;
}.

Lemma integration_steps_kept i i' : rtc integration_step i i' → integration_kept i i'.
Proof.
  induction 1 as [i|i j i' Hs _ [? ? Hf]]; [by split|].
  pose proof (integration_step_approval _ _ Hs). pose proof (integration_step_rank _ _ Hs).
  split; [congruence|lia|]. intros Ht. destruct Hs as [c Hc].
  apply integrate_spec in Hc as [[_ [? ?]]|(_ & _ & _ & _ & _ & Hst & _)]; [done|].
  unfold IntegrationState.can_transition_to in Hst. rewrite Ht, orb_true_r in Hst. done.
Qed.

Lemma row_steps {A} (R : relation A) fresh o o' a :
  row_step R fresh o o' → o = Some a → ∃ a', o' = Some a' ∧ rtc R a a'.
Proof. intros H ->. destruct o' as [a'|]; [|done]. by exists a'. Qed.

Lemma execs_ok d ops : workspace_ok d → workspace_ok (execs d ops).
Proof.
  revert d. induction ops as [|op ops IH]; intros d Hok; [done|]. simpl.
  apply IH. by apply workspace_exec_ok.
Qed.

Lemma execs_views d ops id v :
  workspace_ok d → views d !! id = Some v →
  ∃ v', views (execs d ops) !! id = Some v' ∧ rtc view_step v v'.
Proof.
  revert d v. induction ops as [|op ops IH]; intros d v Hok Hv; simpl.
  { exists v. split; [done|apply rtc_refl]. }
  destruct (workspace_exec_ok d op Hok) as [Hok' [Hs _]].
  destruct (row_steps _ _ _ _ v (Hs id) Hv) as (w & Hw & Hvw).
  destruct (IH _ _ Hok' Hw) as (v' & Hv' & ?). exists v'. split; [done|by etrans].
Qed.

Lemma execs_integrations d ops id i :
  workspace_ok d → integrations d !! id = Some i →
  ∃ i', integrations (execs d ops) !! id = Some i' ∧ rtc integration_step i i'.
Proof.
  revert d i. induction ops as [|op ops IH]; intros d i Hok Hi; simpl.
  { exists i. split; [done|apply rtc_refl]. }
  destruct (workspace_exec_ok d op Hok) as [Hok' [_ Hs]].
  destruct (row_steps _ _ _ _ i (Hs id) Hi) as (j & Hj & Hij).
  destruct (IH _ _ Hok' Hj) as (i' & Hi' & ?). exists i'. split; [done|by etrans].
Qed.

(** A stored integration was there from the start or was approved on the way. *)
Lemma execs_approved d ops id i' :
  workspace_ok d → integrations (execs d ops) !! id = Some i' → integrations d !! id = None →
  ∃ before after i, ops = before ++ after ∧ fresh_integration (execs d before) i ∧
    approval i' = approval i.
Proof.
  revert d. induction ops as [|op ops IH]; intros d Hok Hi' Hid; simpl in *; [congruence|].
  destruct (workspace_exec_ok d op Hok) as [Hok' [_ Hs]].
  destruct (integrations (exec d op) !! id) as [i|] eqn:Hi.
  - destruct (execs_integrations _ ops id i Hok' Hi) as (j & Hj & Hij).
    assert (j = i') as -> by congruence. specialize (Hs id). rewrite Hid, Hi in Hs.
    exists [], (op :: ops), i. split_and!; [done|done|].
    apply (ik_approval _ _ (integration_steps_kept _ _ Hij)).
  - destruct (IH _ Hok' Hi' Hi) as (before & after & i & -> & Hf & Ha).
    by exists (op :: before), after, i.
Qed.

(** What is written of the states is read back, and nothing else. *)
Lemma decode_encode_workspace :
  (∀ a, decode_access (encode_access a) = Ok a) ∧
  (∀ i, decode_isolation (encode_isolation i) = Ok i) ∧
  (∀ s, decode_state (encode_state s) = Ok s) ∧
  (∀ s, decode_integration_state (encode_integration_state s) = Ok s).
Proof. split_and!; intros []; reflexivity. Qed.

Lemma encode_decode_workspace s :
  (∀ x, decode_access s = Ok x → encode_access x = s) ∧
  (∀ x, decode_isolation s = Ok x → encode_isolation x = s) ∧
  (∀ x, decode_state s = Ok x → encode_state x = s) ∧
  (∀ x, decode_integration_state s = Ok x → encode_integration_state x = s).
Proof.
  unfold decode_access, decode_isolation, decode_state, decode_integration_state.
  split_and!; intros x Hx; decode_cases Hx.
Qed.
