(* ===== verification/InstanceStore.v ===== *)
(** The store of agent instances: src/sylvander-runtime/src/storage/agent_instance.rs,
    with [materialize_fork_history] of
    src/sylvander-runtime/src/storage/session/sqlite.rs.

    The session tables that membership is made of, around the tables of
    [WorkspaceStore]: the [membership_ordinal] column that orders participants,
    configurations, the lines of the shared history and the receipts of forks.
    A [DELETE] removes the rows that reference the deleted ones where the schema
    says [ON DELETE CASCADE], and fails where it does not. *)

From S2P Require Import Prelude Graph Instance Store.
From S2P Require Membership Topology Tasks Mailbox Governance Arbitration Workspace.
From S2P Require Import WorkspaceStore.
From stdpp Require Import base tactics gmap strings list sorting.
From Stdlib Require Import ZArith Lia.

(** * Data *)

(** [SessionEffectiveConfig]: the definition it configures; the settings that this
    store only copies and compares are one text. *)
Record SessionEffectiveConfig := {
  ec_agent_id : AgentId;
  ec_agent_revision : Z;
  ec_settings : string;
}.

#[global] Instance SessionEffectiveConfig_eq_dec : EqDecision SessionEffectiveConfig.
Proof. solve_decision. Defined.

Record AgentInstanceConfig := {
  cfg_session_id : SessionId;
  cfg_instance_id : AgentInstanceId;
  config_revision : Z;
  effective : SessionEffectiveConfig;
  cfg_updated_at : Z;
}.

#[global] Instance AgentInstanceConfig_eq_dec : EqDecision AgentInstanceConfig.
Proof. solve_decision. Defined.

Inductive AgentInstanceConfigSeed :=
  | Exact (config : AgentInstanceConfig)
  | InheritFrom (parent_instance_id : AgentInstanceId).

(** The columns of [sessions] that are read here. *)
Record session_row := {
  is_archived : bool;
  s_config_revision : Z;
  s_effective_config : option SessionEffectiveConfig;
  s_user_id : string;
  s_updated_at : Z;
}.

(** The columns of [session_messages] that a fork copies. *)
Record line_content := {
  l_role : string;
  content_json : string;
  user_id : string;
  l_agent_id : string;
  trace_id : option string;
  priority : option string;
  model_id : option string;
  tool_name : option string;
  l_created_at : Z;
}.

(** A row of [session_messages] next to its session and [seq]. *)
Record line := {
  l_agent_instance_id : option AgentInstanceId;
  is_summarized : bool;
  l_content : line_content;
}.

(** A row of [agent_history_fork_receipts] next to the child. *)
Record fork_receipt := {
  fr_session_id : SessionId;
  fr_parent_instance_id : AgentInstanceId;
  base_sequence : Z;
  copied_messages : Z;
  materialized_at : Z;
}.

Record sdb := {
  wk : wdb;
  sessions : gmap SessionId session_row;
  ordinals : gmap AgentInstanceId Z;
  session_agents : gset (SessionId * AgentId);
  configs : gmap (SessionId * AgentInstanceId) AgentInstanceConfig;
  lines : gmap (SessionId * Z) line;
  fork_receipts : gmap AgentInstanceId fork_receipt;
}.

Notation stx A := (res (A * sdb) SessionStoreError).

Definition base (d : sdb) : db := core (wk d).

Definition set_wk (d : sdb) x : sdb :=
  {| wk := x; sessions := sessions d; ordinals := ordinals d; session_agents := session_agents d;
     configs := configs d; lines := lines d; fork_receipts := fork_receipts d |}.
Definition set_base (d : sdb) x : sdb := set_wk d (set_core (wk d) x).
Definition set_ordinals (d : sdb) x : sdb :=
  {| wk := wk d; sessions := sessions d; ordinals := x; session_agents := session_agents d;
     configs := configs d; lines := lines d; fork_receipts := fork_receipts d |}.
Definition set_session_agents (d : sdb) x : sdb :=
  {| wk := wk d; sessions := sessions d; ordinals := ordinals d; session_agents := x;
     configs := configs d; lines := lines d; fork_receipts := fork_receipts d |}.
Definition set_configs (d : sdb) x : sdb :=
  {| wk := wk d; sessions := sessions d; ordinals := ordinals d;
     session_agents := session_agents d; configs := x; lines := lines d;
     fork_receipts := fork_receipts d |}.
Definition set_sessions (d : sdb) x : sdb :=
  {| wk := wk d; sessions := x; ordinals := ordinals d; session_agents := session_agents d;
     configs := configs d; lines := lines d; fork_receipts := fork_receipts d |}.
Definition set_lines (d : sdb) x : sdb :=
  {| wk := wk d; sessions := sessions d; ordinals := ordinals d;
     session_agents := session_agents d; configs := configs d; lines := x;
     fork_receipts := fork_receipts d |}.
Definition set_fork_receipts (d : sdb) x : sdb :=
  {| wk := wk d; sessions := sessions d; ordinals := ordinals d;
     session_agents := session_agents d; configs := configs d; lines := lines d;
     fork_receipts := x |}.

Definition set_governance (d : db) x : db :=
  {| governance := x; instances := instances d; topologies := topologies d; tasks := tasks d;
     leases := leases d; dependencies := dependencies d; handoffs := handoffs d;
     messages := messages d; turns := turns d; waits := waits d; progress := progress d;
     cases := cases d; decisions := decisions d |}.

(** * Reading *)

Definition load_agent_instance (d : sdb) (session : SessionId) (i : AgentInstanceId) :
    option AgentInstance :=
  match instances (base d) !! i with
  | Some p => if ai_session_id p == session then Some p else None
  | None => None
  end.

Definition load_agent_instance_config (d : sdb) (session : SessionId) (i : AgentInstanceId) :
    option AgentInstanceConfig := configs d !! (session, i).

Definition ordinal (d : sdb) (p : AgentInstance) : Z := default 0%Z (ordinals d !! instance_id p).

(** [SELECT ... WHERE session_id ORDER BY membership_ordinal] *)
Definition stored_participants (d : sdb) (session : SessionId) : list AgentInstance :=
  stable_sort (λ a b, (ordinal d a <=? ordinal d b)%Z)
    (filter (λ p, ai_session_id p = session) (map_to_list (instances (base d))).*2).

(** [session_membership] *)
Definition session_membership (d : sdb) (session : SessionId) :
    res (option Membership.SessionMembership) SessionStoreError :=
  match governance (base d) !! session with
  | None => Ok None
  | Some g =>
      m <- map_err (λ _, Store) (Membership.new session (stored_participants d session) g);;
      Ok (Some m)
  end.

(** * Writing rows *)

(** [insert_agent_instance]: the primary key, [UNIQUE(session_id,
    membership_ordinal)], [idx_one_session_moderator] and the session of the row. *)
Definition insert_agent_instance (d : sdb) (p : AgentInstance) (n : Z) :
    res sdb SessionStoreError :=
  _ <- checked_i64 n;;
  _ <- checked_i64 (definition_revision (definition p));;
  _ <- checked_i64 (lifecycle_revision p);;
  bail bool_decide (is_Some (instances (base d) !! instance_id p))
       || bool_decide (sessions d !! ai_session_id p = None)
       || existsb (λ q, (ai_session_id q == ai_session_id p) &&
                         ((ordinal d q =? n)%Z
                          || (is_root_moderator (role q) && is_root_moderator (role p))))
            (map_to_list (instances (base d))).*2 with Store;;
  Ok (set_ordinals (set_base d (set_instances (base d) (<[instance_id p := p]> (instances (base d)))))
        (<[instance_id p := n]> (ordinals d))).

(** [insert_agent_instance_config] *)
Definition insert_agent_instance_config (d : sdb) (c : AgentInstanceConfig) :
    res sdb SessionStoreError :=
  p <- ok_or (load_agent_instance d (cfg_session_id c) (cfg_instance_id c)) Invalid;;
  bail (agent_id (definition p) != ec_agent_id (effective c))
       || negb (definition_revision (definition p) =? ec_agent_revision (effective c))%Z
    with Invalid;;
  _ <- checked_i64 (config_revision c);;
  bail bool_decide (is_Some (configs d !! (cfg_session_id c, cfg_instance_id c))) with Store;;
  Ok (set_configs d (<[(cfg_session_id c, cfg_instance_id c) := c]> (configs d))).

Fixpoint insert_all {A} (f : sdb → A → res sdb SessionStoreError) (d : sdb) (l : list A) :
    res sdb SessionStoreError :=
  match l with
  | [] => Ok d
  | a :: l => d <- f d a;; insert_all f d l
  end.

(** * Configurations *)

Definition required_revision (expected : option Z) : res Z SessionStoreError :=
  match expected with None => Ok 0%Z | Some revision => next_u64 revision end.

(** [save_agent_instance_config] *)
Definition save_agent_instance_config (d : sdb) (c : AgentInstanceConfig) (expected : option Z) :
    stx unit :=
  required <- required_revision expected;;
  bail negb (config_revision c =? required)%Z with Invalid;;
  let key := (cfg_session_id c, cfg_instance_id c) in
  let actual := config_revision <$> configs d !! key in
  bail actual != expected with ConfigConflict (default 0%Z expected) (default 0%Z actual);;
  d <- insert_agent_instance_config (set_configs d (delete key (configs d))) c;;
  Ok (tt, d).

(** * Membership *)

(** The three deletes of instances, governance and topology, and of the agents
    of the session. *)
Definition delete_membership (d : sdb) (session : SessionId) : res sdb SessionStoreError :=
  let b := base d in
  let gone (i : AgentInstanceId) := has_instance b session i in
  bail existsb (λ c, Arbitration.session_id c == session) (map_to_list (cases b)).*2
       || existsb (λ v, Workspace.session_id v == session) (map_to_list (views (wk d))).*2
    with Store;;
  let b' := {|
    governance := delete session (governance b);
    instances := filter (λ kp, ai_session_id kp.2 ≠ session) (instances b);
    topologies := delete session (topologies b); tasks := tasks b;
    leases := filter (λ kl, Tasks.l_session_id kl.2 ≠ session ∨
                        gone (Tasks.l_assignee kl.2) = false) (leases b);
    dependencies := dependencies b; handoffs := handoffs b; messages := messages b;
    turns := filter (λ kt, Mailbox.mt_session_id kt.2 ≠ session ∨
                       gone (Mailbox.mt_recipient_instance_id kt.2) = false) (turns b);
    waits := filter (λ kw, kw.1.1.1.1 ≠ session ∨
                       gone kw.1.1.2 = false ∧ gone kw.1.2 = false) (waits b);
    progress := filter (λ kp, kp.2.1 ≠ session ∨
                          gone (Governance.p_agent_instance_id kp.2.2) = false) (progress b);
    cases := cases b; decisions := decisions b |} in
  Ok {|
    wk := set_core (wk d) b'; sessions := sessions d;
    ordinals := filter (λ kn, gone kn.1 = false) (ordinals d);
    session_agents := filter (λ k, k.1 ≠ session) (session_agents d);
    configs := filter (λ kc, kc.1.1 ≠ session ∨ gone kc.1.2 = false) (configs d);
    lines := filter (λ kl, kl.1.1 ≠ session ∨
               match l_agent_instance_id kl.2 with Some i => gone i | None => false end = false)
               (lines d);
    fork_receipts := filter (λ kr, fr_session_id kr.2 ≠ session ∨
               gone kr.1 = false ∧ gone (fr_parent_instance_id kr.2) = false) (fork_receipts d) |}.

(** The moderator of a session without its own configuration gets the one of the
    session. *)
Definition moderator_config (d : sdb) (session : SessionId) (moderator : AgentInstanceId) :
    option AgentInstanceConfig :=
  match sessions d !! session with
  | Some row =>
      (λ e, {| cfg_session_id := session; cfg_instance_id := moderator;
               config_revision := s_config_revision row; effective := e;
               cfg_updated_at := s_updated_at row |}) <$> s_effective_config row
  | None => None
  end.

(** [save_session_membership] *)
Definition save_session_membership (d : sdb) (m : Membership.SessionMembership)
    (expected : option Z) : stx unit :=
  let session := Membership.m_session_id m in
  let g := Membership.governance m in
  let ps := Membership.participants m in
  _ <- invalid (Membership.validate m);;
  bail match sessions d !! session with Some row => is_archived row | None => true end
    with NotFound session;;
  let actual := membership_revision_of (base d) session in
  bail actual != expected with MembershipConflict expected actual;;
  required <- required_revision expected;;
  bail negb (Membership.membership_revision g =? required)%Z with Invalid;;
  let retained := filter (λ c, cfg_session_id c = session ∧
                           existsb (λ p, instance_id p == cfg_instance_id c) ps = true)
                    (map_to_list (configs d)).*2 in
  d <- delete_membership d session;;
  d <- insert_all (λ d np, insert_agent_instance d np.2 (Z.of_nat np.1)) d (imap pair ps);;
  d <- insert_all insert_agent_instance_config d retained;;
  let moderator := Membership.moderator_instance_id g in
  d <- (if existsb (λ c, cfg_instance_id c == moderator) retained then Ok d
        else match moderator_config d session moderator with
             | Some c => insert_agent_instance_config d c
             | None => Ok d
             end);;
  let d := set_session_agents d
    (list_to_set ((λ p, (session, agent_id (definition p))) <$> ps) ∪ session_agents d) in
  _ <- checked_i64 (Membership.membership_revision g);;
  _ <- checked_i64 (Membership.lease_epoch g);;
  _ <- checked_i64 (Membership.fencing_token g);;
  let b := set_governance (base d) (<[session := g]> (governance (base d))) in
  let b := match expected with
    | None => set_topologies b (<[session := {|
        Topology.session_id := session;
        Topology.membership_revision := Membership.membership_revision g;
        Topology.topology_revision := 0; Topology.relations := [];
        Topology.updated_at := Membership.g_updated_at g |}]> (topologies b))
    | Some _ => b
    end in
  Ok (tt, set_base d b).

(** ** A new participant *)

(** The parent whose history and configuration a fork takes. *)
Definition fork_parent (p : AgentInstance) : res (option AgentInstanceId) SessionStoreError :=
  match origin p, history_view p with
  | Forked parent _, ForkSnapshot _ _ => Ok (Some parent)
  | Forked _ _, _ => Err Invalid
  | _, _ => Ok None
  end.

Definition participant_config (d : sdb) (p : AgentInstance) (parent : option AgentInstanceId)
    (seed : AgentInstanceConfigSeed) : res AgentInstanceConfig SessionStoreError :=
  match seed with
  | InheritFrom inherited =>
      bail parent != Some inherited with Invalid;;
      ok_or (load_agent_instance_config d (ai_session_id p) inherited) Invalid
  | Exact config =>
      bail Workspace.is_some parent || (cfg_session_id config != ai_session_id p)
           || (cfg_instance_id config != instance_id p)
           || negb (config_revision config =? 0)%Z with Invalid;;
      Ok config
  end.

(** The lines of one participant that are not summarized, in the order of [seq]. *)
Definition open_lines (d : sdb) (session : SessionId) (i : AgentInstanceId) :
    list (Z * line_content) :=
  (λ kl, (kl.1.2, l_content kl.2)) <$>
  stable_sort (λ a b, (a.1.2 <=? b.1.2)%Z)
    (filter (λ kl, kl.1.1 = session ∧ l_agent_instance_id kl.2 = Some i ∧
                   is_summarized kl.2 = false) (map_to_list (lines d))).

(** [COALESCE(MAX(seq) + 1, start)]: an integer that overflows is a real, which
    the column type refuses. *)
Definition next_sequence (seqs : list Z) (start : Z) : res Z SessionStoreError :=
  match seqs with
  | [] => Ok start
  | seq :: seqs =>
      let next := (foldr Z.max seq seqs + 1)%Z in
      bail (i64_max <? next)%Z with Store;;
      Ok next
  end.

Definition session_sequences (d : sdb) (session : SessionId) : list Z :=
  (snd <$> filter (λ k, k.1 = session) (map_to_list (lines d)).*1).

(** The loop that copies the lines. *)
Fixpoint copy_lines (ls : gmap (SessionId * Z) line) (session : SessionId)
    (child : AgentInstanceId) (next : Z) (rows : list (Z * line_content)) :
    res (gmap (SessionId * Z) line) SessionStoreError :=
  match rows with
  | [] => Ok ls
  | (_, content) :: rows =>
      let ls := <[(session, next) := {| l_agent_instance_id := Some child;
                                        is_summarized := false; l_content := content |}]> ls in
      next <- ok_or (checked_add i64_max next 1) Invalid;;
      copy_lines ls session child next rows
  end.

(** [materialize_fork_history] *)
Definition materialize_fork_history (d : sdb) (session : SessionId)
    (parent child : AgentInstanceId) (base_sequence now : Z) : res (Z * sdb) SessionStoreError :=
  match fork_receipts d !! child with
  | Some existing =>
      bail (fr_session_id existing != session) || (fr_parent_instance_id existing != parent)
           || negb (InstanceStore.base_sequence existing =? base_sequence)%Z with Invalid;;
      Ok (copied_messages existing, d)
  | None =>
      bail existsb (λ kl, (kl.1.1 == session) && (l_agent_instance_id kl.2 == Some child))
             (map_to_list (lines d)) with Invalid;;
      bail negb (has_instance (base d) session parent) with Invalid;;
      _ <- checked_i64 base_sequence;;
      let rows := filter (λ r, r.1 < base_sequence)%Z (open_lines d session parent) in
      next <- next_sequence (session_sequences d session) 0;;
      bail negb (has_instance (base d) session child) with Store;;
      ls <- copy_lines (lines d) session child next rows;;
      bail parent == child with Store;;
      let count := Z.of_nat (length rows) in
      Ok (count, set_fork_receipts (set_lines d ls) (<[child := {|
        fr_session_id := session; fr_parent_instance_id := parent;
        InstanceStore.base_sequence := base_sequence; copied_messages := count;
        materialized_at := now |}]> (fork_receipts d)))
  end.

(** [materialize_agent_fork_history] *)
Definition materialize_agent_fork_history (d : sdb) (session : SessionId)
    (parent child : AgentInstanceId) (base_sequence now : Z) : stx Z :=
  bail parent == child with Invalid;;
  materialize_fork_history d session parent child base_sequence now.

(** The fork takes the parent's history up to here. *)
Definition snapshot_history (d : sdb) (session : SessionId) (parent : AgentInstanceId)
    (p : AgentInstance) : res AgentInstance SessionStoreError :=
  match history_view p with
  | ForkSnapshot _ branch =>
      next <- next_sequence (open_lines d session parent).*1 0;;
      cursor <- checked_u64 next;;
      Ok {| instance_id := instance_id p; ai_session_id := ai_session_id p;
            definition := definition p; origin := origin p; role := role p;
            history_view := ForkSnapshot cursor branch; approval_route := approval_route p;
            ai_state := ai_state p; lifecycle_revision := lifecycle_revision p;
            capability_revision := capability_revision p; ai_created_at := ai_created_at p;
            ai_updated_at := ai_updated_at p |}
  | _ => Panic
  end.

(** [UPDATE session_governance SET membership_revision, updated_at] *)
Definition advance_governance (b : db) (session : SessionId) (next expected updated_at : Z) : db :=
  match governance b !! session with
  | Some g =>
      if (Membership.membership_revision g =? expected)%Z
      then set_governance b (<[session := {|
             Membership.g_session_id := Membership.g_session_id g;
             Membership.moderator_instance_id := Membership.moderator_instance_id g;
             Membership.governance_revision := Membership.governance_revision g;
             Membership.membership_revision := next;
             Membership.lease_epoch := Membership.lease_epoch g;
             Membership.fencing_token := Membership.fencing_token g;
             Membership.g_updated_at := updated_at |}]> (governance b))
      else b
  | None => b
  end.

(** [UPDATE coordination_tasks SET membership_revision] *)
Definition advance_task (session : SessionId) (next expected : Z) (t : Tasks.CoordinationTask) :
    Tasks.CoordinationTask :=
  if (Tasks.session_id t == session) && (Tasks.membership_revision t =? expected)%Z then {|
    Tasks.task_id := Tasks.task_id t; Tasks.session_id := Tasks.session_id t;
    Tasks.membership_revision := next; Tasks.parent_task_id := Tasks.parent_task_id t;
    Tasks.created_by := Tasks.created_by t; Tasks.assigned_to := Tasks.assigned_to t;
    Tasks.objective := Tasks.objective t; Tasks.state := Tasks.state t;
    Tasks.token_budget := Tasks.token_budget t; Tasks.consumed_tokens := Tasks.consumed_tokens t;
    Tasks.max_handoffs := Tasks.max_handoffs t; Tasks.handoff_count := Tasks.handoff_count t;
    Tasks.revision := Tasks.revision t; Tasks.created_at := Tasks.created_at t;
    Tasks.updated_at := Tasks.updated_at t |}
  else t.

(** [UPDATE agent_workspace_views SET membership_revision, updated_at WHERE ...
    AND state IN ('provisioning','active')] *)
Definition advance_view (session : SessionId) (next expected now : Z)
    (v : Workspace.AgentWorkspaceView) : Workspace.AgentWorkspaceView :=
  if (Workspace.session_id v == session) && (Workspace.membership_revision v =? expected)%Z
     && ((Workspace.state v == Workspace.ViewState.Provisioning)
         || (Workspace.state v == Workspace.ViewState.Active)) then {|
    Workspace.view_id := Workspace.view_id v; Workspace.session_id := Workspace.session_id v;
    Workspace.agent_instance_id := Workspace.agent_instance_id v;
    Workspace.membership_revision := next; Workspace.access := Workspace.access v;
    Workspace.isolation := Workspace.isolation v;
    Workspace.source_workspace := Workspace.source_workspace v;
    Workspace.effective_workspace := Workspace.effective_workspace v;
    Workspace.target_id := Workspace.target_id v; Workspace.branch := Workspace.branch v;
    Workspace.base_revision := Workspace.base_revision v; Workspace.state := Workspace.state v;
    Workspace.lease_epoch := Workspace.lease_epoch v;
    Workspace.fencing_token := Workspace.fencing_token v;
    Workspace.revision := Workspace.revision v; Workspace.created_at := Workspace.created_at v;
    Workspace.updated_at := now |}
  else v.

(** The statements of [add_session_participant] that follow its checks: [p] with
    its configuration, and the facts that name the revision of the membership. *)
Definition append_participant (d : sdb) (p : AgentInstance) (c : AgentInstanceConfig)
    (n next expected updated_at : Z) (t : Topology.SessionTopology) :
    res sdb SessionStoreError :=
  let session := ai_session_id p in
  d <- insert_agent_instance d p n;;
  d <- insert_agent_instance_config d {|
    cfg_session_id := session; cfg_instance_id := instance_id p;
    config_revision := config_revision c; effective := effective c;
    cfg_updated_at := ai_created_at p |};;
  let d := set_session_agents d ({[(session, agent_id (definition p))]} ∪ session_agents d) in
  _ <- checked_i64 next;;
  _ <- checked_i64 expected;;
  let b := advance_governance (base d) session next expected updated_at in
  let b := set_tasks b (advance_task session next expected <$> tasks b) in
  let w := set_views (set_core (wk d) b)
             (advance_view session next expected updated_at <$> views (wk d)) in
  _ <- checked_i64 (Topology.membership_revision t);;
  _ <- checked_i64 (Topology.topology_revision t);;
  bail existsb (λ r, negb (has_instance b (Topology.session_id t) (Topology.source r))
                     || negb (has_instance b (Topology.session_id t) (Topology.target r)))
         (Topology.relations t) with Store;;
  Ok (set_wk d (set_core w (set_topologies b (<[Topology.session_id t := t]> (topologies b))))).

(** [add_session_participant] *)
Definition add_session_participant `{!HashOrder} (d : sdb) (p : AgentInstance)
    (seed : AgentInstanceConfigSeed) (m : Membership.SessionMembership)
    (t : Topology.SessionTopology) (expected_membership expected_topology : Z) :
    stx AgentInstance :=
  let session := Membership.m_session_id m in
  let g := Membership.governance m in
  _ <- invalid (Membership.validate m);;
  _ <- invalid (Topology.validate t m);;
  required_membership <- next_u64 expected_membership;;
  required_topology <- next_u64 expected_topology;;
  bail (ai_session_id p != session) || (last (Membership.participants m) != Some p)
       || negb (Membership.membership_revision g =? required_membership)%Z
       || negb (Topology.membership_revision t =? Membership.membership_revision g)%Z
       || negb (Topology.topology_revision t =? required_topology)%Z with Invalid;;
  parent <- fork_parent p;;
  c <- participant_config d p parent seed;;
  p <- match parent with
       | Some i => snapshot_history d session i p
       | None => Ok p
       end;;
  current <- ok_or (governance (base d) !! session)
    (MembershipConflict (Some expected_membership) None);;
  let actual_membership := Membership.membership_revision current in
  let actual_topology := topology_revision_of (base d) session in
  bail negb (actual_membership =? expected_membership)%Z
    with MembershipConflict (Some expected_membership) (Some actual_membership);;
  bail actual_topology != Some expected_topology
    with TopologyConflict (Some expected_topology) actual_topology;;
  bail (Membership.moderator_instance_id current != Membership.moderator_instance_id g)
       || (Membership.governance_revision current != Membership.governance_revision g)
       || negb (Membership.lease_epoch current =? Membership.lease_epoch g)%Z
       || negb (Membership.fencing_token current =? Membership.fencing_token g)%Z with Invalid;;
  let n := length (Membership.participants m) in
  bail negb (S (length (stored_participants d session)) =? n)%nat with Invalid;;
  d <- append_participant d p c (Z.of_nat (n - 1)) (Membership.membership_revision g)
         expected_membership (Membership.g_updated_at g) t;;
  d <- match parent, history_view p with
       | Some i, ForkSnapshot sequence _ =>
           copied <- materialize_fork_history d session i (instance_id p) sequence
                       (ai_created_at p);;
           Ok copied.2
       | Some _, _ => Panic
       | None, _ => Ok d
       end;;
  Ok (p, d).

(** * Lifecycle *)

(** [transition_agent_instance] *)
Definition transition_agent_instance (d : sdb) (session : SessionId) (i : AgentInstanceId)
    (expected : Z) (next : AgentInstanceState) (now : Z) : stx AgentInstance :=
  current <- ok_or (load_agent_instance d session i) Invalid;;
  bail negb (lifecycle_revision current =? expected)%Z with Invalid;;
  bail negb (InstanceState.can_transition_to (ai_state current) next) with Invalid;;
  revision <- next_u64 expected;;
  _ <- checked_i64 revision;;
  _ <- checked_i64 expected;;
  let updated := {|
    instance_id := instance_id current; ai_session_id := ai_session_id current;
    definition := definition current; origin := origin current; role := role current;
    history_view := history_view current; approval_route := approval_route current;
    ai_state := next; lifecycle_revision := revision;
    capability_revision := capability_revision current; ai_created_at := ai_created_at current;
    ai_updated_at := now |} in
  Ok (updated, set_base d (set_instances (base d) (<[i := updated]> (instances (base d))))).

(** * Encodings *)

Definition encode_role (r : SessionAgentRole) : string * option string :=
  match r with
  | Moderator => ("moderator", None)
  | Coordinator swarm => ("coordinator", Some swarm)
  | Worker => ("worker", None)
  | Reviewer => ("reviewer", None)
  | Specialist => ("specialist", None)
  | Observer => ("observer", None)
  end.

Definition decode_role (r : string) (swarm : option string) :
    res SessionAgentRole SessionStoreError :=
  match swarm with
  | None =>
      if r == "moderator" then Ok Moderator
      else if r == "worker" then Ok Worker
      else if r == "reviewer" then Ok Reviewer
      else if r == "specialist" then Ok Specialist
      else if r == "observer" then Ok Observer
      else Err Store
  | Some id => if r == "coordinator" then Ok (Coordinator id) else Err Store
  end.

Definition encode_instance_state (s : AgentInstanceState) : string :=
  match s with
  | InstanceState.Created => "created"
  | InstanceState.Ready => "ready"
  | InstanceState.Running => "running"
  | InstanceState.WaitingMessage => "waiting_message"
  | InstanceState.WaitingApproval => "waiting_approval"
  | InstanceState.Completed => "completed"
  | InstanceState.Failed => "failed"
  | InstanceState.Cancelled => "cancelled"
  | InstanceState.ManualReconciliation => "manual_reconciliation"
  end.

Definition decode_instance_state (s : string) : res AgentInstanceState SessionStoreError :=
  if s == "created" then Ok InstanceState.Created
  else if s == "ready" then Ok InstanceState.Ready
  else if s == "running" then Ok InstanceState.Running
  else if s == "waiting_message" then Ok InstanceState.WaitingMessage
  else if s == "waiting_approval" then Ok InstanceState.WaitingApproval
  else if s == "completed" then Ok InstanceState.Completed
  else if s == "failed" then Ok InstanceState.Failed
  else if s == "cancelled" then Ok InstanceState.Cancelled
  else if s == "manual_reconciliation" then Ok InstanceState.ManualReconciliation
  else Err Store.
