(* ===== verification/InstanceStoreFacts.v ===== *)
(** What the operations of [InstanceStore] keep: every stored membership is
    well formed but for the availability of its moderator, participants are only
    appended, an instance moves along its lifecycle, and a fork starts with the
    open history of its parent. *)

From S2P Require Import Prelude Graph Instance Store.
From S2P Require Membership Topology Tasks Mailbox Governance Arbitration Workspace.
From S2P Require Import WorkspaceStore InstanceStore.
From stdpp Require Import base tactics gmap strings list sorting relations.
From Stdlib Require Import ZArith Lia.

(** * Memberships as they are stored *)

(** The rows of the participants of a session, in the order of their ordinals. *)
Record listed (d : sdb) (session : SessionId) (ps : list AgentInstance) : Prop := {
  li_rows : ∀ p, p ∈ ps ↔
    instances (base d) !! instance_id p = Some p ∧ ai_session_id p = session;
  li_ids : NoDup (instance_id <$> ps);
  li_ordinals : ∀ n p, ps !! n = Some p → ordinals d !! instance_id p = Some (Z.of_nat n);
}.

Definition keyed (d : sdb) : Prop :=
  ∀ i p, instances (base d) !! i = Some p → instance_id p = i.

Definition membership_of (session : SessionId) (ps : list AgentInstance)
    (g : Membership.SessionGovernance) : Membership.SessionMembership :=
  {| Membership.m_session_id := session; Membership.participants := ps;
     Membership.governance := g |}.

(** [Membership.well_formed] without the availability of the moderator. *)
Record sound (m : Membership.SessionMembership) : Prop := {
  sn_session : Membership.g_session_id (Membership.governance m) = Membership.m_session_id m;
  sn_revision : trim_is_empty (Membership.governance_revision (Membership.governance m)) = false;
  sn_epoch : Membership.lease_epoch (Membership.governance m) ≠ 0%Z;
  sn_token : Membership.fencing_token (Membership.governance m) ≠ 0%Z;
  sn_participants : Forall (Membership.participant_ok m) (Membership.participants m);
  sn_ids : NoDup (instance_id <$> Membership.participants m);
  sn_moderator : ∃ p, Membership.roots (Membership.participants m) = [p] ∧
    instance_id p = Membership.moderator_instance_id (Membership.governance m);
}.

Definition moderator_available (m : Membership.SessionMembership) : Prop :=
  ∀ p, p ∈ Membership.participants m →
    instance_id p = Membership.moderator_instance_id (Membership.governance m) →
    available (ai_state p) = true.

Lemma well_formed_sound m : Membership.well_formed m ↔ sound m ∧ moderator_available m.
Proof.
  split.
  - intros Hwf. pose proof Hwf as [? ? ? ? Hps Hids (p & Hr & Hid & Hav)].
    split; [split; eauto|]. intros q Hq Hqid.
    assert (p ∈ Membership.roots (Membership.participants m)) as [_ Hp]%Membership.elem_of_roots
      by (rewrite Hr; by left).
    pose proof (Membership.find_participant_unique _ _ Hids Hp) as Hfp.
    pose proof (Membership.find_participant_unique _ _ Hids Hq) as Hfq.
    assert (p = q) as <- by congruence. done.
  - intros [[? ? ? ? ? ? (p & Hr & Hid)] Hav]. split; try done. exists p. split_and!; try done.
    apply Hav; [|done].
    assert (p ∈ Membership.roots (Membership.participants m)) as [_ Hp]%Membership.elem_of_roots
      by (rewrite Hr; by left). done.
Qed.

Lemma listed_sorted d session ps :
  listed d session ps → StronglySorted (λ a b, (ordinal d a < ordinal d b)%Z) ps.
Proof.
  intros [_ _ Hord]. assert (∀ n p, ps !! n = Some p → ordinal d p = Z.of_nat (0 + n)) as Ho.
  { intros n p Hn. unfold ordinal. by rewrite (Hord n p Hn). }
  clear Hord. revert Ho. generalize 0. induction ps as [|p ps IH]; intros k Ho; constructor.
  - apply (IH (S k)). intros n q Hn. rewrite (Ho (S n) q Hn). lia.
  - apply Forall_forall. intros q Hq. apply list_elem_of_lookup in Hq as [n Hn].
    rewrite (Ho 0 p eq_refl), (Ho (S n) q Hn). lia.
Qed.

Lemma elem_of_instances d p :
  keyed d → p ∈ (map_to_list (instances (base d))).*2 ↔
    instances (base d) !! instance_id p = Some p.
Proof.
  intros Hk. rewrite elem_of_values. split; [|by eauto].
  intros [i Hi]. by rewrite (Hk _ _ Hi).
Qed.

Lemma NoDup_values d : keyed d → NoDup (map_to_list (instances (base d))).*2.
Proof.
  intros Hk. apply (NoDup_fmap_1 instance_id).
  assert (instance_id <$> (map_to_list (instances (base d))).*2 =
          (map_to_list (instances (base d))).*1) as ->; [|apply NoDup_fst_map_to_list].
  rewrite <- list_fmap_compose. apply list_fmap_ext. intros n [i p] Hn. simpl.
  apply Hk, elem_of_map_to_list. by eapply list_elem_of_lookup_2.
Qed.

Lemma listed_stored d session ps :
  keyed d → listed d session ps → stored_participants d session = ps.
Proof.
  intros Hk Hl. unfold stored_participants.
  apply stable_sort_key; [by eapply listed_sorted|]. apply NoDup_Permutation.
  - apply NoDup_filter. by apply NoDup_values.
  - apply (NoDup_fmap_1 instance_id). by destruct Hl.
  - intros p. rewrite list_elem_of_filter, elem_of_instances, (li_rows _ _ _ Hl) by done.
    naive_solver.
Qed.

(** * The invariant *)

Record config_ok (d : sdb) (k : SessionId * AgentInstanceId) (c : AgentInstanceConfig) : Prop := {
  co_key : k = (cfg_session_id c, cfg_instance_id c);
  co_instance : ∃ p, instances (base d) !! cfg_instance_id c = Some p ∧
    ai_session_id p = cfg_session_id c ∧
    agent_id (definition p) = ec_agent_id (effective c) ∧
    definition_revision (definition p) = ec_agent_revision (effective c);
}.

Record sessions_ok (d : sdb) : Prop := {
  ss_keys : keyed d;
  ss_listed : ∀ s, ∃ ps, listed d s ps ∧
    match governance (base d) !! s with
    | None => ps = []
    | Some g => sound (membership_of s ps g)
    end;
  ss_configs : ∀ k c, configs d !! k = Some c → config_ok d k c;
  ss_receipts : ∀ i r, fork_receipts d !! i = Some r →
    ∃ p, instances (base d) !! i = Some p ∧ ai_session_id p = fr_session_id r;
}.

(** [session_membership] reads the stored membership exactly when its moderator
    is available. *)
Lemma session_membership_spec d s :
  sessions_ok d →
  match governance (base d) !! s with
  | None => session_membership d s = Ok None
  | Some g =>
      let m := membership_of s (stored_participants d s) g in
      listed d s (Membership.participants m) ∧ sound m ∧
      ((moderator_available m ∧ session_membership d s = Ok (Some m)) ∨
       (¬ moderator_available m ∧ session_membership d s = Err Store))
  end.
Proof.
  intros Hok. destruct (ss_listed _ Hok s) as (ps & Hl & Hg).
  rewrite (listed_stored _ _ _ (ss_keys _ Hok) Hl).
  unfold session_membership. rewrite (listed_stored _ _ _ (ss_keys _ Hok) Hl).
  destruct (governance (base d) !! s) as [g|]; [|done]. simpl. split; [done|]. split; [done|].
  unfold Membership.new. change {| Membership.m_session_id := s;
    Membership.participants := ps; Membership.governance := g |} with (membership_of s ps g).
  pose proof (Membership.validate_membership_returns (membership_of s ps g)) as Hret.
  pose proof (Membership.validate_well_formed (membership_of s ps g)) as Hwf.
  rewrite well_formed_sound in Hwf.
  destruct (Membership.validate (membership_of s ps g)) as [[]|e| |]; simpl in *; try done.
  - left. split; [by apply Hwf|done].
  - right. split; [|done]. intros Hav. assert (Err e = Ok tt) by by apply Hwf. done.
Qed.

(** * What the operations write *)

Lemma insert_instance_ok d p n d' :
  insert_agent_instance d p n = Ok d' →
  instances (base d) !! instance_id p = None ∧
  d' = set_ordinals (set_base d (set_instances (base d) (<[instance_id p := p]> (instances (base d)))))
         (<[instance_id p := n]> (ordinals d)).
Proof.
  unfold insert_agent_instance. intros H. inv_ok. destruct_guards.
  split; [|congruence]. by apply eq_None_not_Some.
Qed.

Lemma insert_config_ok d c d' :
  insert_agent_instance_config d c = Ok d' →
  configs d !! (cfg_session_id c, cfg_instance_id c) = None ∧
  (∃ p, instances (base d) !! cfg_instance_id c = Some p ∧ ai_session_id p = cfg_session_id c ∧
    agent_id (definition p) = ec_agent_id (effective c) ∧
    definition_revision (definition p) = ec_agent_revision (effective c)) ∧
  d' = set_configs d (<[(cfg_session_id c, cfg_instance_id c) := c]> (configs d)).
Proof.
  unfold insert_agent_instance_config, load_agent_instance. intros H. inv_ok. destruct_guards.
  split; [by apply eq_None_not_Some|]. split; [|congruence].
  destruct (instances (base d) !! cfg_instance_id c) as [q|]; [|done].
  case_bool_decide; [|done]. simplify_eq. exists a. rewrite Z.eqb_eq in *. done.
Qed.

(** The row of the governance after an append. *)
Definition advanced (g : Membership.SessionGovernance) (next updated_at : Z) :
    Membership.SessionGovernance := {|
  Membership.g_session_id := Membership.g_session_id g;
  Membership.moderator_instance_id := Membership.moderator_instance_id g;
  Membership.governance_revision := Membership.governance_revision g;
  Membership.membership_revision := next;
  Membership.lease_epoch := Membership.lease_epoch g;
  Membership.fencing_token := Membership.fencing_token g;
  Membership.g_updated_at := updated_at |}.

Lemma advance_governance_ok b s next expected now g :
  governance b !! s = Some g → Membership.membership_revision g = expected →
  advance_governance b s next expected now =
  set_governance b (<[s := advanced g next now]> (governance b)).
Proof. unfold advance_governance. intros -> ->. by rewrite Z.eqb_refl. Qed.

(** What the statements of an append leave. *)
Record appended (d : sdb) (p : AgentInstance) (c : AgentInstanceConfig)
    (n next expected now : Z) (t : Topology.SessionTopology) (g : Membership.SessionGovernance)
    (d' : sdb) : Prop := {
  ap_fresh : instances (base d) !! instance_id p = None;
  ap_instances : instances (base d') = <[instance_id p := p]> (instances (base d));
  ap_ordinals : ordinals d' = <[instance_id p := n]> (ordinals d);
  ap_governance : governance (base d') =
    <[ai_session_id p := advanced g next now]> (governance (base d));
  ap_topologies : topologies (base d') = <[Topology.session_id t := t]> (topologies (base d));
  ap_tasks : tasks (base d') = advance_task (ai_session_id p) next expected <$> tasks (base d);
  ap_views : views (wk d') = advance_view (ai_session_id p) next expected now <$> views (wk d);
  ap_config : ∃ c', c' = {| cfg_session_id := ai_session_id p; cfg_instance_id := instance_id p;
      config_revision := config_revision c; effective := effective c;
      cfg_updated_at := ai_created_at p |} ∧
    configs d !! (ai_session_id p, instance_id p) = None ∧
    configs d' = <[(ai_session_id p, instance_id p) := c']> (configs d) ∧
    agent_id (definition p) = ec_agent_id (effective c) ∧
    definition_revision (definition p) = ec_agent_revision (effective c);
  ap_rest : lines d' = lines d ∧ fork_receipts d' = fork_receipts d ∧ sessions d' = sessions d ∧
    integrations (wk d') = integrations (wk d) ∧ leases (base d') = leases (base d) ∧
    dependencies (base d') = dependencies (base d) ∧ handoffs (base d') = handoffs (base d) ∧
    messages (base d') = messages (base d) ∧ turns (base d') = turns (base d) ∧
    waits (base d') = waits (base d) ∧ progress (base d') = progress (base d) ∧
    cases (base d') = cases (base d) ∧ decisions (base d') = decisions (base d);
}.

Lemma append_ok d p c n next expected now t g d' :
  governance (base d) !! ai_session_id p = Some g →
  Membership.membership_revision g = expected →
  append_participant d p c n next expected now t = Ok d' →
  appended d p c n next expected now t g d'.
Proof.
  intros Hg He H. unfold append_participant in H.
  apply res_bind_ok in H as (d1 & [Hf ->]%insert_instance_ok & H).
  apply res_bind_ok in H as (d2 & [Hc [Hp ->]]%insert_config_ok & H). simpl in Hc, Hp.
  rewrite (advance_governance_ok _ _ _ _ _ g) in H by done.
  inv_ok. destruct Hp as (q & Hq & _ & Hd1 & Hd2). rewrite lookup_insert_eq in Hq.
  injection Hq as <-.
  split; try done. by eexists.
Qed.

(** * The history of a fork *)

Definition child_line (child : AgentInstanceId) (content : line_content) : line :=
  {| l_agent_instance_id := Some child; is_summarized := false; l_content := content |}.

(** [open_lines], as the rows in their order. *)
Definition open_rows (d : sdb) (session : SessionId) (i : AgentInstanceId) :
    list (SessionId * Z * line) :=
  filter (λ kl, kl.1.1 = session ∧ l_agent_instance_id kl.2 = Some i ∧ is_summarized kl.2 = false)
    (map_to_list (lines d)).

Definition row_of (kl : SessionId * Z * line) : Z * line_content := (kl.1.2, l_content kl.2).

Lemma elem_of_open_rows d s i kl :
  kl ∈ open_rows d s i ↔ lines d !! kl.1 = Some kl.2 ∧ kl.1.1 = s ∧
    l_agent_instance_id kl.2 = Some i ∧ is_summarized kl.2 = false.
Proof.
  unfold open_rows. rewrite list_elem_of_filter. destruct kl as [k l].
  rewrite elem_of_map_to_list. naive_solver.
Qed.

Lemma NoDup_open_rows d s i : NoDup (open_rows d s i).
Proof. apply NoDup_filter, NoDup_map_to_list. Qed.

(** Two states with the same open rows have the same open lines. *)
Lemma open_lines_same d d' s i :
  (∀ kl, kl ∈ open_rows d s i ↔ kl ∈ open_rows d' s i) → open_lines d s i = open_lines d' s i.
Proof.
  intros Hrows. unfold open_lines. fold (open_rows d s i) (open_rows d' s i). f_equal.
  assert (open_rows d s i ≡ₚ open_rows d' s i) as Hp
    by (apply NoDup_Permutation; [apply NoDup_open_rows..|done]).
  set (le := λ a b : SessionId * Z * line, (a.1.2 <=? b.1.2)%Z).
  apply (stable_sort_key (λ kl, kl.1.2)); [|by rewrite Hp, stable_sort_perm].
  assert (StronglySorted (λ a b, Is_true (le a b)) (stable_sort le (open_rows d' s i))) as Hs.
  { apply stable_sort_sorted.
    - intros a b. unfold le. rewrite !Is_true_true, !Z.leb_le. lia.
    - intros a b c. unfold le. rewrite !Is_true_true, !Z.leb_le. lia. }
  assert (NoDup (stable_sort le (open_rows d' s i))) as Hn
    by (rewrite stable_sort_perm; apply NoDup_open_rows).
  assert (Forall (λ kl, kl.1.1 = s ∧ lines d' !! kl.1 = Some kl.2)
            (stable_sort le (open_rows d' s i))) as Hf.
  { apply Forall_forall. intros kl. rewrite stable_sort_perm.
    by intros (? & ? & _)%elem_of_open_rows. }
  revert Hs Hn Hf. generalize (stable_sort le (open_rows d' s i)).
  intros l. induction l as [|a l IH]; intros Hs Hn Hf; constructor.
  - apply StronglySorted_inv in Hs as [? _]. apply NoDup_cons in Hn as [_ ?].
    apply Forall_cons in Hf as [_ ?]. by apply IH.
  - apply StronglySorted_inv in Hs as [_ Hs]. apply NoDup_cons in Hn as [Hna _].
    apply Forall_cons in Hf as [[Ha Hal] Hf]. rewrite Forall_forall in Hs, Hf.
    apply Forall_forall. intros b Hb. specialize (Hs b Hb). destruct (Hf b Hb) as [Hbs Hbl].
    unfold le in Hs. rewrite Is_true_true, Z.leb_le in Hs.
    destruct (decide (a.1.2 = b.1.2)) as [He|]; [|lia]. destruct Hna.
    destruct a as [[sa na] la], b as [[sb nb] lb]. simpl in *. subst. congruence.
Qed.

Lemma copy_lines_ok ls s child next rows ls' :
  copy_lines ls s child next rows = Ok ls' →
  (∀ n r, rows !! n = Some r → ls' !! (s, next + Z.of_nat n)%Z = Some (child_line child r.2)) ∧
  (∀ k, k.1 ≠ s ∨ (k.2 < next)%Z ∨ (next + Z.of_nat (length rows) ≤ k.2)%Z → ls' !! k = ls !! k).
Proof.
  revert ls next. induction rows as [|[seq content] rows IH]; intros ls next H; simpl in H.
  - injection H as <-. split; [intros n r Hn; by rewrite lookup_nil in Hn|done].
  - apply res_bind_ok in H as (next' & Hn & H). rewrite ok_or_ok, checked_add_some in Hn.
    destruct Hn as [-> _]. apply IH in H as [Hrows Hrest]. split.
    + intros [|n] r Hr.
      * injection Hr as <-. rewrite Hrest by (simpl; lia).
        replace (next + Z.of_nat 0)%Z with next by lia. by rewrite lookup_insert_eq.
      * simpl in Hr. rewrite <- (Hrows n r Hr). f_equal. f_equal. lia.
    + intros k Hk. simpl in Hk. rewrite Hrest by (destruct Hk as [?|Hk]; [by left|right; lia]).
      apply lookup_insert_ne. intros <-. simpl in Hk. destruct Hk as [?|Hk]; [done|lia].
Qed.

Lemma foldr_max_ge (x : Z) l y : y ∈ x :: l → (y ≤ foldr Z.max x l)%Z.
Proof.
  revert y. induction l as [|a l IH]; intros y; simpl.
  - by intros ->%list_elem_of_singleton.
  - rewrite !elem_of_cons. specialize (IH x ltac:(by left)) as Hx.
    intros [->|[->|Hy]]; [lia|lia|]. specialize (IH y ltac:(by right)). lia.
Qed.

Lemma next_sequence_ok seqs start n :
  next_sequence seqs start = Ok n → ∀ x, x ∈ seqs → (x < n)%Z.
Proof.
  unfold next_sequence. destruct seqs as [|y seqs]; [by intros _ x ?%not_elem_of_nil|].
  intros H x Hx. inv_ok. pose proof (foldr_max_ge y seqs x Hx). lia.
Qed.

(** What a fork leaves: every old line, and the copied ones for the child. *)
Record forked (d : sdb) (s : SessionId) (parent child : AgentInstanceId) (base now : Z)
    (rows : list (Z * line_content)) (d' : sdb) : Prop := {
  fk_rows : rows = filter (λ r, r.1 < base)%Z (open_lines d s parent);
  fk_lines : lines d ⊆ lines d';
  fk_child : (open_lines d' s child).*2 = rows.*2;
  fk_others : ∀ s' i, (s', i) ≠ (s, child) → open_lines d' s' i = open_lines d s' i;
  fk_receipts : fork_receipts d' = <[child := {|
    fr_session_id := s; fr_parent_instance_id := parent; base_sequence := base;
    copied_messages := Z.of_nat (length rows); materialized_at := now |}]> (fork_receipts d);
  fk_rest : wk d' = wk d ∧ sessions d' = sessions d ∧ ordinals d' = ordinals d ∧
    configs d' = configs d;
}.

Lemma session_sequences_above d s next k l :
  (∀ x, x ∈ session_sequences d s → (x < next)%Z) → lines d !! (s, k) = Some l → (k < next)%Z.
Proof.
  intros H Hl. apply H. unfold session_sequences. apply list_elem_of_fmap.
  exists (s, k). split; [done|]. rewrite list_elem_of_filter. split; [done|].
  apply list_elem_of_fmap. exists ((s, k), l). split; [done|]. by apply elem_of_map_to_list.
Qed.

Section copied.
Context (d d' : sdb) (s : SessionId) (child : AgentInstanceId) (next : Z)
  (rows : list (Z * line_content)).
Context (Hcopy : ∀ n r, rows !! n = Some r →
    lines d' !! (s, next + Z.of_nat n)%Z = Some (child_line child r.2))
  (Hkeep : ∀ k, k.1 ≠ s ∨ (k.2 < next)%Z ∨ (next + Z.of_nat (length rows) ≤ k.2)%Z →
    lines d' !! k = lines d !! k)
  (Hnone : ∀ k l, lines d !! (s, k) = Some l → l_agent_instance_id l ≠ Some child)
  (Hnext : ∀ x, x ∈ session_sequences d s → (x < next)%Z).

Lemma copied_index k :
  (next ≤ k < next + Z.of_nat (length rows))%Z →
  ∃ n r, k = (next + Z.of_nat n)%Z ∧ rows !! n = Some r.
Proof using.
  intros Hk. destruct (lookup_lt_is_Some_2 rows (Z.to_nat (k - next))) as [r Hr]; [lia|].
  exists (Z.to_nat (k - next)), r. split; [lia|done].
Qed.

Lemma copied_child : (open_lines d' s child).*2 = rows.*2.
Proof using All.
  unfold open_lines. fold (open_rows d' s child).
  rewrite (stable_sort_key (λ kl : SessionId * Z * line, kl.1.2) _
    (imap (λ n r, ((s, next + Z.of_nat n)%Z, child_line child r.2)) rows)).
  - rewrite <- !list_fmap_compose, fmap_imap. apply list_eq. intros n.
    rewrite list_lookup_imap, list_lookup_fmap. by destruct (rows !! n).
  - clear. revert next. induction rows as [|r l IH]; intros next; simpl; constructor.
    + specialize (IH (next + 1)%Z). erewrite imap_ext; [exact IH|]. intros n x _. simpl.
      by replace (next + Z.of_nat (S n))%Z with (next + 1 + Z.of_nat n)%Z by lia.
    + apply Forall_forall. intros kl Hkl. apply list_elem_of_lookup in Hkl as [n Hn].
      rewrite list_lookup_imap in Hn. apply fmap_Some in Hn as (x & _ & ->). simpl. lia.
  - apply NoDup_Permutation; [apply NoDup_open_rows| |].
    + apply (NoDup_fmap_1 (λ kl : SessionId * Z * line, kl.1.2)), NoDup_alt. intros i j x.
      rewrite !list_lookup_fmap, !list_lookup_imap. intros Hi Hj.
      destruct (rows !! i), (rows !! j); simpl in *; simplify_eq; lia.
    + intros [[s' k] l]. rewrite elem_of_open_rows. simpl. split.
      * intros (Hl & -> & Hi & _).
        destruct (decide (next ≤ k < next + Z.of_nat (length rows))%Z) as [Hk|Hk].
        -- destruct (copied_index k Hk) as (n & r & -> & Hn). rewrite (Hcopy n r Hn) in Hl.
           injection Hl as <-. apply list_elem_of_lookup. exists n.
           by rewrite list_lookup_imap, Hn.
        -- rewrite Hkeep in Hl by (right; simpl; lia). by destruct (Hnone k l Hl).
      * intros Hin. apply list_elem_of_lookup in Hin as [n Hn]. rewrite list_lookup_imap in Hn.
        apply fmap_Some in Hn as (r & Hr & [= -> -> ->]). split; [by apply Hcopy|done].
Qed.

Lemma copied_others s' i : (s', i) ≠ (s, child) → open_lines d' s' i = open_lines d s' i.
Proof using All.
  intros Hi. apply open_lines_same. intros [[t k] l]. rewrite !elem_of_open_rows. simpl.
  destruct (decide (t = s)) as [->|Ht]; [|by rewrite Hkeep by by left].
  destruct (decide (next ≤ k < next + Z.of_nat (length rows))%Z) as [Hk|Hk];
    [|by rewrite Hkeep by (right; simpl; lia)].
  destruct (copied_index k Hk) as (n & r & -> & Hn). rewrite (Hcopy n r Hn). split.
  - intros ([= <-] & -> & [= ->] & _). done.
  - intros (Hl & _). pose proof (session_sequences_above _ _ _ _ _ Hnext Hl). lia.
Qed.
End copied.

Lemma materialize_ok d s parent child base now n d' :
  fork_receipts d !! child = None →
  materialize_fork_history d s parent child base now = Ok (n, d') →
  ∃ rows, n = Z.of_nat (length rows) ∧ forked d s parent child base now rows d' ∧
    has_instance (InstanceStore.base d) s parent = true ∧
    has_instance (InstanceStore.base d) s child = true ∧ parent ≠ child.
Proof.
  intros Hr H. unfold materialize_fork_history in H. rewrite Hr in H.
  apply bail_ok in H as [Hchild H]. apply bail_ok in H as [Hparent H].
  apply res_bind_ok in H as (? & _ & H). apply res_bind_ok in H as (next & Hn & H).
  apply bail_ok in H as [Hhas H]. apply res_bind_ok in H as (ls & [Hc Ho]%copy_lines_ok & H).
  apply bail_ok in H as [Hne [= <- <-]]. destruct_guards. eexists. split; [done|].
  pose proof (λ x, next_sequence_ok _ _ _ Hn x) as Hnext.
  assert (∀ k l, lines d !! (s, k) = Some l → l_agent_instance_id l ≠ Some child) as Hnone.
  { intros k l Hl He. rewrite existsb_false_elem in Hchild. specialize (Hchild ((s, k), l)).
    rewrite elem_of_map_to_list in Hchild. specialize (Hchild Hl). simpl in Hchild.
    by rewrite !bool_decide_eq_true_2 in Hchild by done. }
  split; [split; try done|by split_and!]; simpl.
  - apply map_subseteq_spec. intros [s' k] l Hl. rewrite Ho; [done|]. simpl.
    destruct (decide (s' = s)) as [->|]; [|by left].
    right; left. by eapply session_sequences_above.
  - by eapply copied_child.
  - intros s' i Hi. by eapply copied_others.
Qed.

(** * What is written of agents is read back *)

Lemma instance_codecs :
  (∀ r, decode_role (encode_role r).1 (encode_role r).2 = Ok r) ∧
  (∀ s, decode_instance_state (encode_instance_state s) = Ok s) ∧
  (∀ r swarm x, decode_role r swarm = Ok x → encode_role x = (r, swarm)) ∧
  (∀ s x, decode_instance_state s = Ok x → encode_instance_state x = s).
Proof.
  split_and!; [by intros []|by intros []| |].
  - intros r [swarm|] x Hx; unfold decode_role in Hx; decode_cases Hx.
  - intros s x Hx. unfold decode_instance_state in Hx. decode_cases Hx.
Qed.
