(* ===== verification/InstanceStoreRun.v ===== *)
(** The operations of [InstanceStore] one by one, and their runs: the invariant
    [sessions_ok], the lifecycle of an instance, and what an append leaves alone. *)

From S2P Require Import Prelude Graph Instance Store.
From S2P Require Membership Topology Tasks Workspace StoreTasks StoreHandoffs StoreMessages.
From S2P Require Import WorkspaceStore InstanceStore InstanceStoreFacts.
From stdpp Require Import base tactics gmap strings list sorting relations.
From Stdlib Require Import ZArith Lia.

(** * Appending a participant *)

(** A participant next to the history it was given. *)
Definition with_history (p : AgentInstance) (h : HistoryView) : AgentInstance := {|
  instance_id := instance_id p; ai_session_id := ai_session_id p; definition := definition p;
  origin := origin p; role := role p; history_view := h; approval_route := approval_route p;
  ai_state := ai_state p; lifecycle_revision := lifecycle_revision p;
  capability_revision := capability_revision p; ai_created_at := ai_created_at p;
  ai_updated_at := ai_updated_at p |}.

Lemma fork_parent_ok p parent :
  fork_parent p = Ok parent →
  match parent with
  | Some i => (∃ k, origin p = Forked i k) ∧ ∃ k branch, history_view p = ForkSnapshot k branch
  | None => ∀ i k, origin p ≠ Forked i k
  end.
Proof.
  unfold fork_parent. destruct (origin p) as [|i k| |], (history_view p) as [|k' br];
    intros [= <-]; naive_solver.
Qed.

Lemma snapshot_history_ok d s parent p p' :
  snapshot_history d s parent p = Ok p' →
  ∃ old branch cursor, history_view p = ForkSnapshot old branch ∧
    p' = with_history p (ForkSnapshot cursor branch) ∧
    (∀ r, r ∈ open_lines d s parent → (r.1 < cursor)%Z).
Proof.
  unfold snapshot_history. destruct (history_view p) as [|old branch]; [done|]. intros H.
  apply res_bind_ok in H as (next & Hn & H). apply res_bind_ok in H as (cursor & Hc & [= <-]).
  apply checked_u64_ok in Hc as [-> _]. exists old, branch, next. split_and!; [done..|].
  intros r Hr. eapply next_sequence_ok; [done|]. apply list_elem_of_fmap. by exists r.
Qed.

(** What the checks of an append establish. *)
Record append_checked `{!HashOrder} (d : sdb) (p : AgentInstance) (m : Membership.SessionMembership)
    (t : Topology.SessionTopology) (em et : Z) (g : Membership.SessionGovernance) : Prop := {
  ac_well_formed : Membership.well_formed m;
  ac_session : ai_session_id p = Membership.m_session_id m;
  ac_last : last (Membership.participants m) = Some p;
  ac_governance : governance (base d) !! ai_session_id p = Some g;
  ac_membership : Membership.membership_revision g = em ∧
    Membership.membership_revision (Membership.governance m) = (em + 1)%Z;
  ac_topology : topology_revision_of (base d) (ai_session_id p) = Some et ∧
    Topology.topology_revision t = (et + 1)%Z ∧ Topology.membership_revision t = (em + 1)%Z;
  ac_valid_topology : Topology.validate t m = Ok tt;
  ac_moderator : Membership.moderator_instance_id g =
      Membership.moderator_instance_id (Membership.governance m) ∧
    Membership.governance_revision g =
      Membership.governance_revision (Membership.governance m) ∧
    Membership.lease_epoch g = Membership.lease_epoch (Membership.governance m) ∧
    Membership.fencing_token g = Membership.fencing_token (Membership.governance m);
  ac_count : length (Membership.participants m) =
    S (length (stored_participants d (ai_session_id p)));
}.

(** How the history of a new participant starts. *)
Definition starts (d d1 d' : sdb) (p p' : AgentInstance) (seed : AgentInstanceConfigSeed)
    (c : AgentInstanceConfig) : Prop :=
  let s := ai_session_id p in
  (p' = p ∧ d' = d1 ∧ (∀ i k, origin p ≠ Forked i k) ∧ seed = Exact c) ∨
  ∃ parent k old branch cursor rows, origin p = Forked parent k ∧ seed = InheritFrom parent ∧
    history_view p = ForkSnapshot old branch ∧
    p' = with_history p (ForkSnapshot cursor branch) ∧
    (∀ r, r ∈ open_lines d s parent → (r.1 < cursor)%Z) ∧
    configs d !! (s, parent) = Some c ∧
    forked d1 s parent (instance_id p) cursor (ai_created_at p) rows d'.

Lemma participant_config_ok d p parent seed c :
  participant_config d p parent seed = Ok c →
  match parent with
  | Some i => seed = InheritFrom i ∧ configs d !! (ai_session_id p, i) = Some c
  | None => seed = Exact c
  end.
Proof.
  unfold participant_config, load_agent_instance_config. destruct seed as [config|i]; intros H;
    apply bail_ok in H as [Hg H]; destruct_guards.
  - injection H as <-. by destruct parent.
  - rewrite ok_or_ok in H. destruct parent; simplify_eq. done.
Qed.

Lemma add_ok `{Hhash : !HashOrder} d p seed m t em et p' d' :
  (∀ i r, fork_receipts d !! i = Some r → is_Some (instances (base d) !! i)) →
  add_session_participant d p seed m t em et = Ok (p', d') →
  ∃ g c d1, append_checked d p m t em et g ∧
    appended d p' c (Z.of_nat (length (stored_participants d (ai_session_id p)))) (em + 1) em
      (Membership.g_updated_at (Membership.governance m)) t g d1 ∧
    starts d d1 d' p p' seed c.
Proof.
  intros Hreceipts H. unfold add_session_participant in H.
  apply res_bind_ok in H as ([] & Hm & H). rewrite invalid_ok in Hm.
  apply res_bind_ok in H as ([] & Ht & H). rewrite invalid_ok in Ht.
  apply res_bind_ok in H as (rm & [-> Hrm]%next_u64_ok & H).
  apply res_bind_ok in H as (rt & [-> Hrt]%next_u64_ok & H).
  apply bail_ok in H as [Hseq H].
  apply res_bind_ok in H as (parent & Hparent & H).
  apply res_bind_ok in H as (c & Hc & H).
  apply res_bind_ok in H as (q & Hq & H).
  apply res_bind_ok in H as (g & Hg & H). rewrite ok_or_ok in Hg.
  apply bail_ok in H as [Hrev H]. apply bail_ok in H as [Htop H].
  apply bail_ok in H as [Hmod H]. apply bail_ok in H as [Hcount H].
  apply res_bind_ok in H as (d1 & Hd1 & H). apply res_bind_ok in H as (d2 & Hd2 & [= <- <-]).
  destruct_guards. rewrite Z.eqb_eq, Nat.eqb_eq in *.
  match goal with Hs : ai_session_id p = _ |- _ => rename Hs into Hsession end.
  rewrite <- Hsession in *.
  assert (append_checked d p m t em et g) as Hac.
  { split; try done; [by apply Membership.validate_well_formed|]. split_and!; try done; lia. }
  assert (∃ h, q = with_history p h) as [h Hqp].
  { destruct parent as [i|].
    - apply snapshot_history_ok in Hq as (? & ? & ? & _ & -> & _). eauto.
    - injection Hq as <-. exists (history_view p). by destruct p. }
  exists g, c, d1. split; [done|].
  assert (ai_session_id q = ai_session_id p ∧ instance_id q = instance_id p) as [Hs Hi]
    by by rewrite Hqp.
  assert (appended d q c (Z.of_nat (length (stored_participants d (ai_session_id p)))) (em + 1) em
      (Membership.g_updated_at (Membership.governance m)) t g d1) as Happ.
  { apply append_ok; [by rewrite Hs|by destruct Hac as [_ _ _ _ [? _]]|].
    rewrite <- Hd1. f_equal; [|by destruct Hac as [_ _ _ _ [_ ->]]]. rewrite <- Hcount. f_equal. lia. }
  split; [done|].
  pose proof (participant_config_ok _ _ _ _ _ Hc) as Hseed.
  pose proof (fork_parent_ok _ _ Hparent) as Hfork.
  destruct parent as [i|].
  - right. destruct Hseed as [Hseed Hci]. destruct Hfork as [[k Hk] _].
    pose proof (snapshot_history_ok _ _ _ _ _ Hq) as (old & branch & cursor & Ho & -> & Hcur).
    simpl in Hd2. apply res_bind_ok in Hd2 as ([n d3] & Hd2 & [= <-]).
    assert (fork_receipts d1 !! instance_id p = None) as Hnone.
    { destruct (ap_rest _ _ _ _ _ _ _ _ _ _ Happ) as (_ & -> & _).
      destruct (fork_receipts d !! instance_id p) as [r|] eqn:Hr; [|done].
      apply Hreceipts in Hr. pose proof (ap_fresh _ _ _ _ _ _ _ _ _ _ Happ) as Hf. simpl in Hf.
      rewrite Hf in Hr. by destruct Hr. }
    pose proof (materialize_ok _ _ _ _ _ _ _ _ Hnone Hd2) as (rows & _ & Hf & _).
    by exists i, k, old, branch, cursor, rows.
  - left. injection Hq as <-. injection Hd2 as <-. done.
Qed.

(** ** The invariant *)

Lemma listed_insert d d1 p ps s :
  keyed d → instances (base d) !! instance_id p = None →
  instances (base d1) = <[instance_id p := p]> (instances (base d)) →
  ordinals d1 = <[instance_id p := Z.of_nat (length ps)]> (ordinals d) →
  listed d s ps → ai_session_id p = s → listed d1 s (ps ++ [p]).
Proof.
  intros Hk Hf Hi Ho [Hrows Hids Hord] Hs.
  assert (∀ q, q ∈ ps → instance_id q ≠ instance_id p) as Hne
    by (intros q [Hq _]%Hrows He; congruence).
  split.
  - intros q. rewrite elem_of_app, list_elem_of_singleton, Hrows, Hi, lookup_insert_Some.
    split; [|naive_solver]. intros [[Hq Hqs]| ->]; [|naive_solver].
    split; [|done]. right. split; [|done]. intros He. congruence.
  - rewrite fmap_app. apply NoDup_app. split_and!; [done| |apply NoDup_singleton].
    intros i (q & -> & Hq)%list_elem_of_fmap ?%list_elem_of_singleton. by destruct (Hne q Hq).
  - intros n q [Hn|[Hn Hq]]%lookup_app_Some; rewrite Ho.
    + rewrite lookup_insert_ne; [by apply Hord|].
      intros He. by destruct (Hne q); [eapply list_elem_of_lookup_2|].
    + apply list_lookup_singleton_Some in Hq as [Hn' <-]. rewrite lookup_insert_eq. f_equal. lia.
Qed.

Lemma listed_other d d1 p n ps s :
  instances (base d) !! instance_id p = None →
  instances (base d1) = <[instance_id p := p]> (instances (base d)) →
  ordinals d1 = <[instance_id p := n]> (ordinals d) →
  listed d s ps → ai_session_id p ≠ s → listed d1 s ps.
Proof.
  intros Hf Hi Ho [Hrows Hids Hord] Hs. split; [|done|].
  - intros q. rewrite Hrows, Hi, lookup_insert_Some. split; [|naive_solver].
    intros [Hq Hqs]. split; [|done]. right. split; [|done]. intros He. congruence.
  - intros k q Hq. rewrite Ho, lookup_insert_ne; [by apply Hord|].
    intros He. assert (q ∈ ps) as [Hq' _]%Hrows by by eapply list_elem_of_lookup_2. congruence.
Qed.

(** An append keeps a membership sound: the proposal it was checked against
    has its moderator elsewhere. *)
Lemma sound_append `{!HashOrder} d p m t em et g ps h next now :
  append_checked d p m t em et g → listed d (ai_session_id p) ps →
  instances (base d) !! instance_id p = None →
  sound (membership_of (ai_session_id p) ps g) →
  sound (membership_of (ai_session_id p) (ps ++ [with_history p h]) (advanced g next now)).
Proof.
  intros Hac Hl Hf [H1 H2 H3 H4 H5 H6 (q & Hq & Hqid)]. simpl in *.
  destruct Hac as [[_ _ _ _ Hps _ (r & Hr & Hrid & _)] Hs Hlast _ _ _ _ [Hmod _] _].
  assert (p ∈ Membership.participants m) as Hp by by apply last_Some_elem_of.
  assert (q ∈ Membership.roots ps) as [_ Hqps]%Membership.elem_of_roots by (rewrite Hq; by left).
  apply (li_rows _ _ _ Hl) in Hqps as [Hqi _].
  assert (is_root_moderator (role p) = false) as Hrole.
  { destruct (is_root_moderator (role p)) eqn:Hrole; [|done].
    assert (p ∈ Membership.roots (Membership.participants m)) as Hpr
      by by apply Membership.elem_of_roots.
    rewrite Hr in Hpr. apply list_elem_of_singleton in Hpr as <-. congruence. }
  split; simpl; try done.
  - apply Forall_app. split; [by eapply Forall_impl; [exact H5|]; intros x []; split|].
    apply Forall_singleton. rewrite Forall_forall in Hps. by destruct (Hps p Hp) as [_ ? ?].
  - rewrite fmap_app. apply NoDup_app. split_and!; [done| |apply NoDup_singleton].
    intros i (x & -> & Hx)%list_elem_of_fmap He%list_elem_of_singleton.
    apply (li_rows _ _ _ Hl) in Hx as [Hx _]. simpl in He. congruence.
  - exists q. split; [|done]. unfold Membership.roots in *. rewrite filter_app, Hq.
    rewrite filter_cons_False by (simpl; congruence). done.
Qed.

Lemma config_ok_insert d d1 p k c :
  instances (base d) !! instance_id p = None →
  instances (base d1) = <[instance_id p := p]> (instances (base d)) →
  config_ok d k c → config_ok d1 k c.
Proof.
  intros Hf Hi [Hk (q & Hq & Hrest)]. split; [done|]. exists q. split; [|done].
  rewrite Hi, lookup_insert_ne; [done|]. intros He. congruence.
Qed.

Lemma keyed_insert d d1 p :
  instances (base d1) = <[instance_id p := p]> (instances (base d)) → keyed d → keyed d1.
Proof. intros Hi Hk i q. rewrite Hi, lookup_insert_Some. intros [[<- <-]|[_ Hq]]; [done|by apply Hk]. Qed.

Lemma sessions_ok_receipts d : sessions_ok d →
  ∀ i r, fork_receipts d !! i = Some r → is_Some (instances (base d) !! i).
Proof. intros Hok i r Hr. destruct (ss_receipts _ Hok i r Hr) as (p & Hp & _). by exists p. Qed.

(** The participants of the session and the new one after them. *)
Record grown (d d' : sdb) (p : AgentInstance) (g' : Membership.SessionGovernance) : Prop := {
  gr_participants : stored_participants d' (ai_session_id p) =
    stored_participants d (ai_session_id p) ++ [p];
  gr_governance : governance (base d') !! ai_session_id p = Some g';
  gr_others : ∀ s, s ≠ ai_session_id p →
    stored_participants d' s = stored_participants d s ∧
    governance (base d') !! s = governance (base d) !! s;
}.

Lemma sessions_ok_append `{!HashOrder} d p m t em et g c h now d1 :
  sessions_ok d → append_checked d p m t em et g →
  appended d (with_history p h) c (Z.of_nat (length (stored_participants d (ai_session_id p))))
    (em + 1) em now t g d1 →
  sessions_ok d1 ∧ grown d d1 (with_history p h) (advanced g (em + 1) now).
Proof.
  intros Hok Hac [Hf Hi Ho Hg _ _ _ (c' & -> & _ & Hc & Hd1 & Hd2) (_ & Hfr & _)].
  simpl in *.
  pose proof (keyed_insert d d1 _ Hi (ss_keys _ Hok)) as Hk1.
  assert (listed d1 (ai_session_id p) (stored_participants d (ai_session_id p) ++ [with_history p h])
    ∧ sound (membership_of (ai_session_id p)
        (stored_participants d (ai_session_id p) ++ [with_history p h]) (advanced g (em + 1) now)))
    as [Hl1 Hs1].
  { pose proof (session_membership_spec d (ai_session_id p) Hok) as Hspec.
    rewrite (ac_governance _ _ _ _ _ _ _ Hac) in Hspec. destruct Hspec as (Hl & Hs & _).
    split; [eapply (listed_insert d _ (with_history p h))|eapply sound_append]; try done.
    by apply ss_keys. }
  assert (∀ s, s ≠ ai_session_id p → listed d1 s (stored_participants d s) ∧
    governance (base d1) !! s = governance (base d) !! s) as Hothers.
  { intros s Hs. destruct (ss_listed _ Hok s) as (ps & Hl & _).
    rewrite (listed_stored _ _ _ (ss_keys _ Hok) Hl). split.
    - eapply (listed_other d d1 (with_history p h)); [done..|exact Hl|]. simpl. congruence.
    - rewrite Hg. by rewrite lookup_insert_ne by congruence. }
  split; [split|split]; try done.
  - intros s. destruct (decide (s = ai_session_id p)) as [->|Hs].
    + eexists. split; [exact Hl1|]. by rewrite Hg, lookup_insert_eq.
    + destruct (Hothers s Hs) as [Hl ->]. eexists. split; [exact Hl|].
      destruct (ss_listed _ Hok s) as (ps & Hl' & Hps).
      by rewrite (listed_stored _ _ _ (ss_keys _ Hok) Hl').
  - intros k c0. rewrite Hc, lookup_insert_Some. intros [[<- <-]|[_ Hk]].
    + split; [done|]. simpl. exists (with_history p h). rewrite Hi, lookup_insert_eq. done.
    + apply (config_ok_insert d d1 (with_history p h)); [done..|]. by apply ss_configs.
  - intros i r. rewrite Hfr. intros Hr. destruct (ss_receipts _ Hok i r Hr) as (q & Hq & Hqs).
    exists q. split; [|done]. rewrite Hi, lookup_insert_ne; [done|]. intros He. simpl in He. congruence.
  - simpl. by apply listed_stored.
  - by rewrite Hg, lookup_insert_eq.
  - intros s Hs. simpl in *. destruct (Hothers s Hs) as [Hl ->]. split; [|done]. by apply listed_stored.
Qed.

(** A fork adds lines and its receipt. *)
Lemma sessions_ok_forked d s parent child cursor now rows d' :
  sessions_ok d → forked d s parent child cursor now rows d' →
  (∃ p, instances (base d) !! child = Some p ∧ ai_session_id p = s) → sessions_ok d'.
Proof.
  intros [H1 H2 H3 H4] [_ _ _ _ Hr (Hwk & _ & Ho & Hc)] Hp.
  assert (base d' = base d) as Hb by (unfold base; by rewrite Hwk).
  split.
  - unfold keyed. by rewrite Hb.
  - intros s'. rewrite Hb. destruct (H2 s') as (ps & [Hrows Hids Hord] & Hps). exists ps.
    split; [|done]. split; rewrite ?Hb, ?Ho; done.
  - intros k c. rewrite Hc. intros Hk. destruct (H3 k c Hk) as [? ?]. split; by rewrite ?Hb.
  - intros i r. rewrite Hr, Hb, lookup_insert_Some. intros [[<- <-]|[_ Hi]]; [done|by apply H4].
Qed.

Lemma grown_same d d' d'' p g :
  sessions_ok d' → sessions_ok d'' → base d'' = base d' → ordinals d'' = ordinals d' →
  grown d d' p g → grown d d'' p g.
Proof.
  intros Hok' Hok'' Hb Ho [Hp Hg Hothers].
  assert (∀ s, stored_participants d'' s = stored_participants d' s) as Hsame.
  { intros s. destruct (ss_listed _ Hok' s) as (ps & Hl & _).
    rewrite (listed_stored _ _ _ (ss_keys _ Hok') Hl).
    apply listed_stored; [by apply ss_keys|]. destruct Hl as [? ? ?]. split; rewrite ?Hb, ?Ho; done. }
  split; [by rewrite Hsame|by rewrite Hb|]. intros s Hs. by rewrite Hsame, Hb; apply Hothers.
Qed.

(** What [add_session_participant] promises. *)
Record participant_added (d d' : sdb) (p p' : AgentInstance) (seed : AgentInstanceConfigSeed)
    (m : Membership.SessionMembership) (t : Topology.SessionTopology) (em et : Z) : Prop := {
  pa_participant : ∃ h, p' = with_history p h;
  pa_checked : ∃ g, governance (base d) !! ai_session_id p = Some g ∧
    Membership.membership_revision g = em ∧
    grown d d' p' (advanced g (em + 1) (Membership.g_updated_at (Membership.governance m)));
  pa_topology : topology_revision_of (base d) (ai_session_id p) = Some et ∧
    topology_revision_of (base d') (ai_session_id p) = Some (et + 1)%Z;
  pa_history : match seed with
    | Exact c => p' = p ∧ lines d' = lines d
    | InheritFrom parent => (∃ k, origin p = Forked parent k) ∧ lines d ⊆ lines d' ∧
        (open_lines d' (ai_session_id p) (instance_id p)).*2 =
          (open_lines d (ai_session_id p) parent).*2 ∧
        ∀ s i, (s, i) ≠ (ai_session_id p, instance_id p) → open_lines d' s i = open_lines d s i
    end;
  pa_config : ∃ c, config_ok d' (ai_session_id p, instance_id p) c ∧
    configs d' !! (ai_session_id p, instance_id p) = Some c ∧
    match seed with
    | Exact e => effective c = effective e ∧ config_revision c = config_revision e
    | InheritFrom parent => ∃ e, configs d !! (ai_session_id p, parent) = Some e ∧
        effective c = effective e ∧ config_revision c = config_revision e
    end;
}.

Lemma filter_all {A} (P : A → Prop) `{∀ x, Decision (P x)} (l : list A) :
  (∀ x, x ∈ l → P x) → filter P l = l.
Proof.
  induction l as [|x l IH]; intros Hl; [done|].
  rewrite filter_cons_True by (apply Hl; by left). f_equal. apply IH. intros y Hy. apply Hl. by right.
Qed.

(** A fork copies the whole open history of its parent. *)
Lemma forked_history d d1 s parent child cursor now rows d' :
  lines d1 = lines d → (∀ r, r ∈ open_lines d s parent → (r.1 < cursor)%Z) →
  forked d1 s parent child cursor now rows d' →
  lines d ⊆ lines d' ∧ (open_lines d' s child).*2 = (open_lines d s parent).*2 ∧
  ∀ s' i, (s', i) ≠ (s, child) → open_lines d' s' i = open_lines d s' i.
Proof.
  intros Hl Hcur [Hrows Hsub Hchild Hothers _ _].
  assert (∀ s' i, open_lines d1 s' i = open_lines d s' i) as Hsame
    by (intros; unfold open_lines; by rewrite Hl).
  split_and!; [by rewrite <- Hl| |].
  - rewrite Hchild, Hrows, Hsame, filter_all; [done|]. exact Hcur.
  - intros s' i Hi. by rewrite Hothers, Hsame.
Qed.

Lemma config_ok_same d d' k c :
  instances (base d') = instances (base d) → config_ok d k c → config_ok d' k c.
Proof. intros Hi [? ?]. split; by rewrite ?Hi. Qed.

Lemma appended_config d p c n next expected now t g d1 :
  appended d p c n next expected now t g d1 →
  ∃ c', config_ok d1 (ai_session_id p, instance_id p) c' ∧
    configs d1 !! (ai_session_id p, instance_id p) = Some c' ∧
    effective c' = effective c ∧ config_revision c' = config_revision c.
Proof.
  intros [_ Hi _ _ _ _ _ (c' & -> & _ & Hc & Ha & Hr) _]. eexists.
  rewrite Hc, lookup_insert_eq. split_and!; [|done..]. split; [done|]. simpl. exists p.
  by rewrite Hi, lookup_insert_eq.
Qed.

Lemma add_keeps `{!HashOrder} d p seed m t em et p' d' :
  sessions_ok d → add_session_participant d p seed m t em et = Ok (p', d') →
  sessions_ok d' ∧ participant_added d d' p p' seed m t em et.
Proof.
  intros Hok Ha. apply add_ok in Ha as (g & c & d1 & Hac & Happ & Hst);
    [|by apply sessions_ok_receipts].
  assert (∃ h, p' = with_history p h) as [h Hh].
  { destruct Hst as [(-> & _)|(? & ? & ? & ? & ? & ? & _ & _ & _ & -> & _)]; [|by eexists].
    exists (history_view p). by destruct p. }
  rewrite Hh in Happ. pose proof (sessions_ok_append _ _ _ _ _ _ _ _ _ _ _ Hok Hac Happ) as [Hok1 Hgr].
  pose proof (appended_config _ _ _ _ _ _ _ _ _ _ Happ) as (c' & Hc' & Hcs & He & Hr).
  rewrite <- Hh in Hgr.
  pose proof (ap_topologies _ _ _ _ _ _ _ _ _ _ Happ) as Htop.
  pose proof (proj1 (ap_rest _ _ _ _ _ _ _ _ _ _ Happ)) as Hlines. simpl in *.
  assert (Topology.session_id t = ai_session_id p) as Hts.
  { rewrite (ac_session _ _ _ _ _ _ _ Hac).
    pose proof (ac_valid_topology _ _ _ _ _ _ _ Hac) as Hv.
    apply Topology.validate_governed_iff in Hv; [by destruct Hv|]. apply Membership.moderator_in_members, Hac. }
  assert (sessions_ok d' ∧ base d' = base d1 ∧ ordinals d' = ordinals d1 ∧ configs d' = configs d1)
    as (Hok' & Hb & Ho & Hcf).
  { destruct Hst as [(_ & -> & _)|(i & k & old & br & cur & rows & _ & _ & _ & -> & _ & _ & Hf)]; [done|].
    split; [eapply sessions_ok_forked; [exact Hok1|exact Hf|]|].
    - exists (with_history p h). rewrite (ap_instances _ _ _ _ _ _ _ _ _ _ Happ).
      simpl. by rewrite lookup_insert_eq.
    - destruct (fk_rest _ _ _ _ _ _ _ _ Hf) as (Hw & _ & ? & ?). unfold base. by rewrite Hw. }
  split; [done|]. split.
  - by exists h.
  - exists g. split_and!; [by apply Hac|by apply Hac|]. by apply (grown_same d d1 d').
  - split; [by apply Hac|]. rewrite Hb. unfold topology_revision_of.
    rewrite Htop, Hts, lookup_insert_eq. simpl. f_equal. by apply Hac.
  - destruct Hst as [(-> & -> & _ & ->)|(i & k & old & br & cur & rows & Hor & -> & _ & _ & Hcur & _ & Hf)];
      [done|]. split; [by exists k|]. by eapply forked_history.
  - exists c'. rewrite Hcf. split_and!; [by eapply config_ok_same; [by rewrite Hb|]|done|].
    destruct Hst as [(_ & _ & _ & ->)|(i & k & old & br & cur & rows & Hor & -> & _ & _ & Hcur & Hci & Hf)];
      [done|]. by exists c.
Qed.

(** * Lifecycle *)

(** A transition is fenced by the revision and follows the lifecycle. *)
Lemma agent_transition_ok d s i expected next now p' d' :
  keyed d → transition_agent_instance d s i expected next now = Ok (p', d') →
  ∃ p, instances (base d) !! i = Some p ∧ ai_session_id p = s ∧
    lifecycle_revision p = expected ∧ instance_step p p' ∧ ai_state p' = next ∧
    (lifecycle_revision p' ≤ i64_max)%Z ∧
    d' = set_base d (set_instances (base d) (<[i := p']> (instances (base d)))).
Proof.
  intros Hk H. unfold transition_agent_instance, load_agent_instance in H.
  apply res_bind_ok in H as (p & Hp & H). rewrite ok_or_ok in Hp.
  destruct (instances (base d) !! i) as [q|] eqn:Hq; [|done].
  case_bool_decide as Hs; [|done]. injection Hp as ->.
  apply bail_ok in H as [Hr H]. apply bail_ok in H as [Hl H]. destruct_guards. apply Z.eqb_eq in Hr.
  apply res_bind_ok in H as (rev & [-> _]%next_u64_ok & H).
  apply res_bind_ok in H as (? & [_ Hmax]%checked_i64_ok & H).
  apply res_bind_ok in H as (? & _ & [= <- <-]).
  exists p. split_and!; try done. split; simpl; [by split_and!|done|lia].
Qed.

(** A call with another revision, or to a state the lifecycle does not lead to,
    is refused. *)
Lemma transition_refused d s i expected next now p :
  load_agent_instance d s i = Some p →
  lifecycle_revision p ≠ expected ∨ InstanceState.can_transition_to (ai_state p) next = false →
  transition_agent_instance d s i expected next now = Err Invalid.
Proof.
  intros Hp Hno. unfold transition_agent_instance. rewrite Hp. simpl.
  destruct (Z.eqb_spec (lifecycle_revision p) expected); simpl; [|done].
  by destruct Hno as [?| ->].
Qed.

(** ** Rows that move in place *)

Lemma roots_fmap f (ps : list AgentInstance) :
  (∀ p, p ∈ ps → role (f p) = role p) → Membership.roots (f <$> ps) = f <$> Membership.roots ps.
Proof.
  unfold Membership.roots. induction ps as [|p ps IH]; intros Hf; [done|].
  rewrite fmap_cons, !filter_cons, (Hf p) by by left. rewrite IH by (intros q ?; apply Hf; by right).
  by case_decide.
Qed.

Lemma ids_fmap (f : AgentInstance → AgentInstance) (ps : list AgentInstance) :
  (∀ p, p ∈ ps → instance_id (f p) = instance_id p) →
  instance_id <$> (f <$> ps) = instance_id <$> ps.
Proof.
  intros Hf. rewrite <- list_fmap_compose. apply list_fmap_ext. intros n p Hn.
  apply Hf. by eapply list_elem_of_lookup_2.
Qed.

Section moved.
Context (d d' : sdb) (Hok : sessions_ok d)
  (Hl : ∀ i, lineage (instances (base d) !! i) (instances (base d') !! i))
  (Ho : ordinals d' = ordinals d).

Lemma moved_forth i p :
  instances (base d) !! i = Some p →
  ∃ p', instances (base d') !! i = Some p' ∧ rtc instance_step p p'.
Proof using Hl.
  intros Hp. specialize (Hl i). rewrite Hp in Hl. destruct (instances (base d') !! i); [|done].
  by eexists.
Qed.

Lemma moved_back i p' :
  instances (base d') !! i = Some p' →
  ∃ p, instances (base d) !! i = Some p ∧ rtc instance_step p p'.
Proof using Hl.
  intros Hp. specialize (Hl i). rewrite Hp in Hl. destruct (instances (base d) !! i); [|done].
  by eexists.
Qed.

(** The row of a participant afterwards. *)
Definition moved_row (p : AgentInstance) : AgentInstance :=
  default p (instances (base d') !! instance_id p).

Lemma moved_row_run s ps p :
  listed d s ps → p ∈ ps →
  instances (base d') !! instance_id p = Some (moved_row p) ∧ rtc instance_step p (moved_row p).
Proof using Hl.
  intros Hps [Hp _]%(li_rows _ _ _ Hps). destruct (moved_forth _ _ Hp) as (p' & Hp' & Hrun).
  unfold moved_row. by rewrite Hp'.
Qed.

Lemma listed_moved s ps : listed d s ps → listed d' s (moved_row <$> ps).
Proof using Hl Ho.
  intros Hps. split.
  - intros p'. rewrite list_elem_of_fmap. split.
    + intros (p & -> & Hp). destruct (moved_row_run s ps p Hps Hp) as [Hp' Hrun].
      apply instance_run_identity in Hrun as (-> & -> & _). split; [done|].
      by apply (li_rows _ _ _ Hps).
    + intros [Hp' Hs']. destruct (moved_back _ _ Hp') as (p & Hp & Hrun).
      apply instance_run_identity in Hrun as (Hid & Hs & _). exists p. rewrite Hid in Hp, Hp'.
      split; [unfold moved_row; by rewrite Hp'|]. apply (li_rows _ _ _ Hps). split; [done|congruence].
  - rewrite ids_fmap; [apply Hps|]. intros p Hp.
    by destruct (moved_row_run s ps p Hps Hp) as [_ (? & _)%instance_run_identity].
  - intros n p'. rewrite list_lookup_fmap. intros (p & Hn & ->)%fmap_Some.
    destruct (moved_row_run s ps p Hps) as [_ (-> & _)%instance_run_identity];
      [by eapply list_elem_of_lookup_2|]. rewrite Ho. by apply (li_ordinals _ _ _ Hps).
Qed.

Lemma sound_moved s ps g :
  listed d s ps → sound (membership_of s ps g) → sound (membership_of s (moved_row <$> ps) g).
Proof using Hl.
  intros Hps [? ? ? ? Hpart Hnd (m & Hm & Hmid)]. simpl in *.
  assert (∀ p, p ∈ ps → rtc instance_step p (moved_row p)) as Hrun
    by (intros p Hp; by eapply moved_row_run).
  split; simpl; try done.
  - rewrite Forall_forall in Hpart |- *. intros p' (p & -> & Hp)%list_elem_of_fmap.
    destruct (Hpart p Hp) as [? ? ?].
    destruct (instance_run_identity _ _ (Hrun p Hp)) as (? & ? & Hd & ? & ? & ? & _).
    split; simpl in *; congruence.
  - rewrite ids_fmap; [done|]. intros p Hp. by apply instance_run_identity, Hrun.
  - exists (moved_row m). assert (m ∈ Membership.roots ps) as [_ Hmp]%Membership.elem_of_roots
      by (rewrite Hm; by left).
    destruct (instance_run_identity _ _ (Hrun m Hmp)) as (-> & _). split; [|done].
    rewrite roots_fmap; [by rewrite Hm|]. intros p Hp. by apply instance_run_identity, Hrun.
Qed.

Context (Hg : governance (base d') = governance (base d))
  (Hc : ∀ k c, configs d' !! k = Some c → configs d !! k = Some c ∨ config_ok d' k c)
  (Hr : fork_receipts d' = fork_receipts d).

Lemma sessions_ok_moved : sessions_ok d'.
Proof using All.
  split.
  - intros i p' Hp'. destruct (moved_back i p' Hp') as (p & Hp & (-> & _)%instance_run_identity).
    by apply (ss_keys _ Hok).
  - intros s. rewrite Hg. destruct (ss_listed _ Hok s) as (ps & Hps & Hsound).
    exists (moved_row <$> ps). split; [by apply listed_moved|].
    destruct (governance (base d) !! s) as [g|]; [by apply sound_moved|by rewrite Hsound].
  - intros k c Hk. destruct (Hc k c Hk) as [Hold|?]; [|done].
    destruct (ss_configs _ Hok k c Hold) as [Hkey (p & Hp & Hs & Ha & Hrv)]. split; [done|].
    destruct (moved_forth _ _ Hp) as (p' & Hp' & Hrun). exists p'.
    apply instance_run_identity in Hrun as (? & ? & Hd & _). rewrite Hd. split_and!; congruence.
  - intros i r. rewrite Hr. intros Hi. destruct (ss_receipts _ Hok i r Hi) as (p & Hp & Hs).
    destruct (moved_forth _ _ Hp) as (p' & Hp' & Hrun). exists p'.
    apply instance_run_identity in Hrun as (? & ? & _). split; [done|congruence].
Qed.
End moved.
