(* ===== verification/InstanceStoreSave.v ===== *)
(** Saving configurations and whole memberships: the rest of the operations of
    [InstanceStore], and the runs of all of them ([session_exec]). *)

From S2P Require Import Prelude Graph Instance Store.
From S2P Require Membership Topology Tasks Mailbox Governance Arbitration Workspace.
From S2P Require Import WorkspaceStore InstanceStore InstanceStoreFacts InstanceStoreRun.
From stdpp Require Import base tactics gmap strings list sorting relations.
From Stdlib Require Import ZArith Lia.

(** * Configurations *)

Lemma save_config_ok d c expected d' :
  save_agent_instance_config d c expected = Ok (tt, d') →
  config_revision <$> configs d !! (cfg_session_id c, cfg_instance_id c) = expected ∧
  config_revision c = match expected with Some r => (r + 1)%Z | None => 0%Z end ∧
  config_ok d' (cfg_session_id c, cfg_instance_id c) c ∧
  d' = set_configs d (<[(cfg_session_id c, cfg_instance_id c) := c]> (configs d)).
Proof.
  unfold save_agent_instance_config, required_revision. intros H.
  apply res_bind_ok in H as (required & Hreq & H). apply bail_ok in H as [Hr H].
  apply bail_ok in H as [Ha H].
  apply res_bind_ok in H as (d1 & (_ & (p & Hp & Hrest) & ->)%insert_config_ok & [= <-]).
  destruct_guards. apply Z.eqb_eq in Hr. simpl. rewrite insert_delete_eq. split_and!; try done.
  - rewrite Hr. destruct expected; [|congruence]. by apply next_u64_ok in Hreq as [-> _].
  - split; [done|]. by exists p.
Qed.

Lemma sessions_ok_save_config d c expected d' :
  sessions_ok d → save_agent_instance_config d c expected = Ok (tt, d') → sessions_ok d'.
Proof.
  intros Hok (_ & _ & Hc & ->)%save_config_ok.
  eapply (sessions_ok_moved d); try done; [intros; apply lineage_refl|].
  intros k c'. simpl. rewrite lookup_insert_Some. intros [[<- <-]|[_ ?]]; [by right|by left].
Qed.

Lemma sessions_ok_transition d s i expected next now p' d' :
  sessions_ok d → transition_agent_instance d s i expected next now = Ok (p', d') → sessions_ok d'.
Proof.
  intros Hok H. apply agent_transition_ok in H as (p & Hp & _ & _ & Hst & _ & _ & ->); [|by apply ss_keys].
  eapply (sessions_ok_moved d); try done; [|by left].
  intros j. simpl. destruct (decide (i = j)) as [<-|].
  - rewrite Hp, lookup_insert_eq. by apply rtc_once.
  - rewrite lookup_insert_ne by done. apply lineage_refl.
Qed.

Lemma sessions_ok_materialize d s parent child cursor now n d' :
  sessions_ok d → materialize_agent_fork_history d s parent child cursor now = Ok (n, d') →
  sessions_ok d'.
Proof.
  intros Hok H. unfold materialize_agent_fork_history in H. apply bail_ok in H as [_ H].
  destruct (fork_receipts d !! child) as [r|] eqn:Hr.
  - unfold materialize_fork_history in H. rewrite Hr in H. apply bail_ok in H as [_ [= _ <-]]. done.
  - apply materialize_ok in H as (rows & _ & Hf & _ & Hc & _); [|done].
    eapply sessions_ok_forked; [exact Hok|exact Hf|]. unfold has_instance in Hc.
    destruct (instances (base d) !! child) as [p|]; [|done]. exists p. split; [done|].
    by apply bool_decide_eq_true in Hc.
Qed.

(** * Memberships *)

Lemma listed_same d d' s ps :
  instances (base d') = instances (base d) → ordinals d' = ordinals d →
  listed d s ps → listed d' s ps.
Proof. intros Hi Ho []. split; rewrite ?Hi, ?Ho; done. Qed.

(** The rows while a membership of [s] is written: [ps] are in place. *)
Record rewriting (d0 d : sdb) (s : SessionId) (ps : list AgentInstance) : Prop := {
  rw_keys : keyed d;
  rw_listed : listed d s ps;
  rw_others : ∀ s' ps', s' ≠ s → listed d0 s' ps' → listed d s' ps';
  rw_configs : ∀ k c, configs d !! k = Some c → config_ok d k c;
  rw_receipts : ∀ i r, fork_receipts d !! i = Some r →
    ∃ p, instances (base d) !! i = Some p ∧ ai_session_id p = fr_session_id r;
}.

Lemma rewriting_done d0 d s ps :
  sessions_ok d0 → rewriting d0 d s ps →
  (∀ s', s' ≠ s → governance (base d) !! s' = governance (base d0) !! s') →
  (∃ g, governance (base d) !! s = Some g ∧ sound (membership_of s ps g)) → sessions_ok d.
Proof.
  intros Hok [Hk Hl Ho Hc Hr] Hg (g & Hgs & Hsound). split; try done. intros s'.
  destruct (decide (s' = s)) as [->|Hs]; [exists ps; by rewrite Hgs|].
  destruct (ss_listed _ Hok s') as (ps' & Hl' & Hm). exists ps'. rewrite Hg by done.
  split; [by apply Ho|done].
Qed.

Lemma rewriting_insert d0 d s ps p d' :
  ai_session_id p = s → rewriting d0 d s ps →
  insert_agent_instance d p (Z.of_nat (length ps)) = Ok d' →
  rewriting d0 d' s (ps ++ [p]) ∧ governance (base d') = governance (base d).
Proof.
  intros Hs [Hk Hl Ho Hc Hr] [Hf ->]%insert_instance_ok. split; [|done]. split.
  - by eapply keyed_insert.
  - by eapply (listed_insert d _ p).
  - intros s' ps' Hne Hl'. eapply (listed_other d _ p); [done..|by apply Ho|congruence].
  - intros k c Hkc. eapply (config_ok_insert d _ p); [done..|]. by apply Hc.
  - intros i r Hir. simpl. destruct (Hr i r Hir) as (q & Hq & ?). exists q. split; [|done].
    rewrite lookup_insert_ne; [done|]. intros <-. congruence.
Qed.

Lemma rewriting_insert_all d0 d s ps qs d' :
  (∀ q, q ∈ qs → ai_session_id q = s) → rewriting d0 d s ps →
  insert_all (λ d np, insert_agent_instance d np.2 (Z.of_nat np.1)) d
    (imap (λ n q, (length ps + n, q)) qs) = Ok d' →
  rewriting d0 d' s (ps ++ qs) ∧ governance (base d') = governance (base d).
Proof.
  revert d ps. induction qs as [|q qs IH]; intros d ps Hqs Hrw H; simpl in H.
  - injection H as <-. by rewrite app_nil_r.
  - apply res_bind_ok in H as (d1 & H1 & H). rewrite Nat.add_0_r in H1.
    apply (rewriting_insert d0 d s ps) in H1 as [H1 Hg1]; [|apply Hqs; by left|done].
    destruct (IH d1 (ps ++ [q])) as [Hd Hg]; [intros ? ?; apply Hqs; by right|done| |].
    + rewrite <- H. f_equal. apply imap_ext. intros n x _. simpl. f_equal. rewrite length_app. simpl. lia.
    + rewrite <- app_assoc in Hd. split; [done|congruence].
Qed.

Lemma rewriting_config d0 d s ps c d' :
  rewriting d0 d s ps → insert_agent_instance_config d c = Ok d' →
  rewriting d0 d' s ps ∧ governance (base d') = governance (base d).
Proof.
  intros [Hk Hl Ho Hc Hr] (_ & Hp & ->)%insert_config_ok. split; [|done]. split.
  - exact Hk.
  - by apply (listed_same d).
  - intros s' ps' Hne Hl'. apply (listed_same d); [done..|]. by apply Ho.
  - intros k c'. simpl. rewrite lookup_insert_Some. intros [[<- <-]|[_ Hk']]; [by split|].
    apply (config_ok_same d); [done|]. by apply Hc.
  - exact Hr.
Qed.

Lemma rewriting_configs d0 d s ps cs d' :
  rewriting d0 d s ps → insert_all insert_agent_instance_config d cs = Ok d' →
  rewriting d0 d' s ps ∧ governance (base d') = governance (base d).
Proof.
  revert d. induction cs as [|c cs IH]; intros d Hrw H; simpl in H; [by injection H as <-|].
  apply res_bind_ok in H as (d1 & H1 & H).
  apply (rewriting_config d0 _ s ps) in H1 as [H1 Hg1]; [|done].
  destruct (IH d1 H1 H) as [? Hg]. split; [done|congruence].
Qed.

Lemma has_instance_true d s i :
  has_instance d s i = true ↔ ∃ p, instances d !! i = Some p ∧ ai_session_id p = s.
Proof.
  unfold has_instance. destruct (instances d !! i) as [p|]; [|naive_solver].
  rewrite bool_decide_eq_true. naive_solver.
Qed.

Lemma delete_rewriting d s d' :
  sessions_ok d → delete_membership d s = Ok d' →
  rewriting d d' s [] ∧ governance (base d') = delete s (governance (base d)) ∧
  sessions d' = sessions d ∧ configs d' ⊆ configs d ∧
  (∀ k c, configs d' !! k = Some c → k.1 ≠ s).
Proof.
  intros Hok H. unfold delete_membership in H. apply bail_ok in H as [_ [= <-]].
  assert (∀ i p, instances (base d) !! i = Some p → ai_session_id p ≠ s →
    has_instance (base d) s i = false) as Hkeep.
  { intros i p Hp Hs. apply not_true_is_false. rewrite has_instance_true. naive_solver. }
  assert (∀ i p, filter (λ kp, ai_session_id kp.2 ≠ s) (instances (base d)) !! i = Some p ↔
    instances (base d) !! i = Some p ∧ ai_session_id p ≠ s) as Hf
    by (intros; by rewrite map_lookup_filter_Some).
  assert (∀ k c, configs d !! k = Some c → k.1 ≠ s ∨ has_instance (base d) s k.2 = false →
    k.1 ≠ s) as Hcs.
  { intros k c Hk [?|Hn]; [done|]. intros <-.
    destruct (ss_configs _ Hok k c Hk) as [-> (p & Hp & Hs & _)]. simpl in *.
    assert (has_instance (base d) (cfg_session_id c) (cfg_instance_id c) = true); [|congruence].
    apply has_instance_true. by exists p. }
  split; [split|split_and!]; try done; simpl.
  - intros i p. simpl. rewrite Hf. intros [Hp _]. by apply (ss_keys _ Hok).
  - split; [|constructor|by intros n p Hn; rewrite lookup_nil in Hn]. intros p. simpl. rewrite Hf.
    split; [by intros ?%not_elem_of_nil|naive_solver].
  - intros s' ps' Hne Hl. pose proof Hl as [Hrows Hids Hord]. split; [|done|].
    + intros p. simpl. rewrite Hf, Hrows. naive_solver.
    + intros n p Hn. simpl. apply map_lookup_filter_Some. split; [by apply Hord|]. simpl.
      assert (p ∈ ps') as [Hp Hps]%Hrows by by eapply list_elem_of_lookup_2.
      apply (Hkeep _ p); [done|congruence].
  - intros k c. simpl. rewrite map_lookup_filter_Some. intros [Hk Hg].
    pose proof (Hcs k c Hk Hg) as Hne. destruct (ss_configs _ Hok k c Hk) as [-> (p & Hp & Hs & ?)].
    split; [done|]. exists p. simpl in *. rewrite Hf. by rewrite Hs.
  - intros i r. simpl. rewrite map_lookup_filter_Some. intros [Hr Hg].
    destruct (ss_receipts _ Hok i r Hr) as (p & Hp & Hs). exists p. rewrite Hf. split_and!; try done.
    simpl in Hg. destruct Hg as [Hg|[Hg _]]; [congruence|]. intros Hps.
    assert (has_instance (base d) s i = true); [|congruence]. apply has_instance_true. by exists p.
  - apply map_filter_subseteq.
  - intros k c. rewrite map_lookup_filter_Some. intros [Hk Hg]. by eapply Hcs.
Qed.

Lemma rewriting_same d0 d d' s ps :
  instances (base d') = instances (base d) → ordinals d' = ordinals d →
  configs d' = configs d → fork_receipts d' = fork_receipts d →
  rewriting d0 d s ps → rewriting d0 d' s ps.
Proof.
  intros Hi Ho Hc Hr [H1 H2 H3 H4 H5]. split.
  - intros i p. rewrite Hi. apply H1.
  - by eapply listed_same.
  - intros s' ps' Hne Hl. eapply listed_same; [done..|]. by apply H3.
  - intros k c. rewrite Hc. intros Hk. eapply config_ok_same; [done|]. by apply H4.
  - intros i r. rewrite Hr, Hi. apply H5.
Qed.

(** What [save_session_membership] promises: the session has that membership,
    and the others what they had. *)
Lemma save_membership_ok d m expected d' :
  let s := Membership.m_session_id m in
  sessions_ok d → save_session_membership d m expected = Ok (tt, d') →
  sessions_ok d' ∧ Membership.well_formed m ∧
  membership_revision_of (base d) s = expected ∧
  Membership.membership_revision (Membership.governance m) =
    match expected with Some r => (r + 1)%Z | None => 0%Z end ∧
  governance (base d') = <[s := Membership.governance m]> (governance (base d)) ∧
  stored_participants d' s = Membership.participants m ∧
  (∀ s', s' ≠ s → stored_participants d' s' = stored_participants d s').
Proof.
  intros s Hok H. unfold save_session_membership in H. fold s in H.
  apply res_bind_ok in H as ([] & Hm & H). rewrite invalid_ok in Hm.
  apply Membership.validate_well_formed in Hm.
  apply bail_ok in H as [_ H]. apply bail_ok in H as [Ha H].
  apply res_bind_ok in H as (required & Hreq & H). apply bail_ok in H as [Hr H].
  apply res_bind_ok in H as (d1 & H1 & H). apply delete_rewriting in H1 as (H1 & Hg1 & _); [|done].
  apply res_bind_ok in H as (d2 & H2 & H).
  apply (rewriting_insert_all d d1 s []) in H2 as [H2 Hg2];
    [|intros q Hq; destruct Hm as [_ _ _ _ Hps _ _]; rewrite Forall_forall in Hps; by destruct (Hps q Hq)|done].
  apply res_bind_ok in H as (d3 & H3 & H).
  apply (rewriting_configs d d2 s (Membership.participants m)) in H3 as [H3 Hg3]; [|done].
  apply res_bind_ok in H as (d4 & H4 & H).
  assert (rewriting d d4 s (Membership.participants m) ∧ governance (base d4) = governance (base d3))
    as [H5 Hg4].
  { destruct (existsb _ _); [by injection H4 as <-|]. destruct (moderator_config _ _ _) as [c|];
      [by eapply rewriting_config|by injection H4 as <-]. }
  do 3 (apply res_bind_ok in H as (? & _ & H)). injection H as <-. destruct_guards.
  apply Z.eqb_eq in Hr.
  match goal with |- sessions_ok ?x ∧ _ => set (d' := x) end.
  assert (governance (base d') = <[s := Membership.governance m]> (governance (base d))) as Hg.
  { subst d'. rewrite Hg3, Hg2, Hg1 in Hg4. unfold base in *.
    destruct expected; simpl; by rewrite Hg4, insert_delete_eq. }
  assert (rewriting d d' s (Membership.participants m)) as Hrw
    by (eapply (rewriting_same _ d4); [..|done]; subst d'; by destruct expected).
  assert (sessions_ok d') as Hok'.
  { eapply rewriting_done; [exact Hok|exact Hrw| |].
    - intros s' Hs. by rewrite Hg, lookup_insert_ne.
    - exists (Membership.governance m). rewrite Hg, lookup_insert_eq. split; [done|].
      apply well_formed_sound in Hm as [Hsn _]. by destruct m. }
  split_and!; try done.
  - rewrite Hr. unfold required_revision in Hreq.
    destruct expected; [by apply next_u64_ok in Hreq as [-> _]|congruence].
  - apply listed_stored; [by apply ss_keys|]. by apply rw_listed in Hrw.
  - intros s' Hne. apply listed_stored; [by apply ss_keys|].
    apply (rw_others _ _ _ _ Hrw); [done|]. destruct (ss_listed _ Hok s') as (ps & Hl & _).
    by rewrite (listed_stored _ _ _ (ss_keys _ Hok) Hl).
Qed.
