(* ===== verification/StoreSystem.v ===== *)
(** The session database as one system: the coordination, workspace and instance
    stores over one set of tables.

    [durable_ok] joins the invariants of the three stores.  An operation of one
    store is seen by the others as a change of the tables it shares with them, and
    [durable_exec_ok] shows that every such change keeps the whole invariant. *)

From S2P Require Import Prelude Graph Instance Store StoreRun.
From S2P Require Membership Topology Tasks Mailbox Handoff Governance Arbitration Workspace.
From S2P Require StoreTasks StoreMessages StoreHandoffs StoreArbitration StoreFacts.
From S2P Require Import WorkspaceStore InstanceStore InstanceStoreFacts InstanceStoreRun InstanceStoreSave.
From stdpp Require Import base tactics gmap strings list sorting relations.
From Stdlib Require Import ZArith Lia.

Record durable_ok (d : sdb) : Prop := {
  du_store : store_ok (base d);
  du_workspace : workspace_ok (wk d);
  du_sessions : sessions_ok d;
}.

(** An operation of the stores; [OpSessionRows] stands for the writers of the
    session rows and of the shared history. *)
Inductive durable_op :=
  | OpCoordination (op : coordination_op)
  | OpWorkspace (op : workspace_op)
  | OpSaveMembership (m : Membership.SessionMembership) (expected : option Z)
  | OpAddParticipant (p : AgentInstance) (seed : AgentInstanceConfigSeed)
      (m : Membership.SessionMembership) (t : Topology.SessionTopology) (em et : Z)
  | OpTransitionInstance (s : SessionId) (i : AgentInstanceId) (expected : Z)
      (next : AgentInstanceState) (now : Z)
  | OpSaveConfig (c : AgentInstanceConfig) (expected : option Z)
  | OpForkHistory (s : SessionId) (parent child : AgentInstanceId) (cursor now : Z)
  | OpSessionRows (rows : gmap SessionId session_row) (ls : gmap (SessionId * Z) line).

Section system.
Context `{Hhash : !HashOrder}.

Definition durable_exec (d : sdb) (op : durable_op) : sdb :=
  match op with
  | OpCoordination op => set_base d (commit (base d) op)
  | OpWorkspace op => set_wk d (exec (wk d) op)
  | OpSaveMembership m e => (run d (save_session_membership d m e)).2
  | OpAddParticipant p seed m t em et => (run d (add_session_participant d p seed m t em et)).2
  | OpTransitionInstance s i e next now => (run d (transition_agent_instance d s i e next now)).2
  | OpSaveConfig c e => (run d (save_agent_instance_config d c e)).2
  | OpForkHistory s parent child cursor now =>
      (run d (materialize_agent_fork_history d s parent child cursor now)).2
  | OpSessionRows rows ls => set_lines (set_sessions d rows) ls
  end.

Definition durable_legal (d : sdb) (op : durable_op) : Prop :=
  match op with
  | OpCoordination op => legal (base d) op
  | OpWorkspace (OpElsewhere _) => False
  | _ => True
  end.

Definition durable_run (d : sdb) (ops : list durable_op) : sdb := foldl durable_exec d ops.

Fixpoint durable_legal_run (d : sdb) (ops : list durable_op) : Prop :=
  match ops with
  | [] => True
  | op :: ops => durable_legal d op ∧ durable_legal_run (durable_exec d op) ops
  end.

(** ** Tables of the other stores *)

Lemma workspace_ok_same (d d' : wdb) :
  views d' = views d → integrations d' = integrations d → workspace_ok d → workspace_ok d'.
Proof. intros Hv Hi []. split; rewrite ?Hv, ?Hi; done. Qed.

(** What a change of membership may do to the tables of the coordination store. *)
Record shrunk (b b' : db) : Prop := {
  sk_tasks : tasks b' = tasks b;
  sk_leases : leases b' ⊆ leases b;
  sk_handoffs : handoffs b' = handoffs b;
  sk_messages : messages b' = messages b;
  sk_turns : turns b' ⊆ turns b;
  sk_cases : cases b' = cases b;
  sk_waits : waits b' ⊆ waits b;
  sk_decisions : decisions b' = decisions b;
}.

#[global] Instance shrunk_preorder : PreOrder shrunk.
Proof.
  split; [by intros b; split|]. intros b1 b2 b3 [? ? ? ? ? ? ? ?] [? ? ? ? ? ? ? ?].
  split; try congruence; by etrans.
Qed.

Lemma store_ok_shrunk b b' : shrunk b b' → store_ok b → store_ok b'.
Proof.
  intros [Ht Hl Hh Hm Hu Hc Hw _] [[Htr Htl] Hhok [Hmr Hmt] Hcok Hwok]. split.
  - split; [by rewrite Ht|]. intros id l Hid. apply Htl. by eapply lookup_weaken.
  - intros id h. rewrite Hh. apply Hhok.
  - split; [by rewrite Hm|]. intros id t Hid. rewrite Hm. apply Hmt. by eapply lookup_weaken.
  - intros id c. rewrite Hc. apply Hcok.
  - intros s t u v row Hrow. eapply Hwok. by eapply lookup_weaken.
Qed.

Lemma insert_all_shrunk {A} (f : sdb → A → res sdb SessionStoreError) l d d' :
  (∀ d a d', f d a = Ok d' → shrunk (base d) (base d') ∧ views (wk d') = views (wk d) ∧
     integrations (wk d') = integrations (wk d)) →
  insert_all f d l = Ok d' →
  shrunk (base d) (base d') ∧ views (wk d') = views (wk d) ∧
    integrations (wk d') = integrations (wk d).
Proof using.
  intros Hf. revert d. induction l as [|a l IH]; intros d H; simpl in H; [by injection H as <-|].
  apply res_bind_ok in H as (d1 & (Hs1 & Hv1 & Hi1)%Hf & H).
  destruct (IH d1 H) as (? & ? & ?). split_and!; [by etrans|congruence..].
Qed.

Lemma save_shrunk d m expected d' :
  save_session_membership d m expected = Ok (tt, d') →
  shrunk (base d) (base d') ∧ views (wk d') = views (wk d) ∧
    integrations (wk d') = integrations (wk d).
Proof using.
  unfold save_session_membership. intros H.
  apply res_bind_ok in H as ([] & _ & H). apply bail_ok in H as [_ H]. apply bail_ok in H as [_ H].
  apply res_bind_ok in H as (? & _ & H). apply bail_ok in H as [_ H].
  apply res_bind_ok in H as (d1 & H1 & H). apply res_bind_ok in H as (d2 & H2 & H).
  apply res_bind_ok in H as (d3 & H3 & H). apply res_bind_ok in H as (d4 & H4 & H).
  do 3 (apply res_bind_ok in H as (? & _ & H)). injection H as <-.
  assert (shrunk (base d) (base d1) ∧ views (wk d1) = views (wk d) ∧
    integrations (wk d1) = integrations (wk d)) as (Hs1 & Hv1 & Hi1).
  { unfold delete_membership in H1. apply bail_ok in H1 as [_ [= <-]].
    split_and!; [|done..]. split; simpl; try done; apply map_filter_subseteq. }
  apply insert_all_shrunk in H2 as (Hs2 & Hv2 & Hi2);
    [|by intros ? ? ? [_ ->]%insert_instance_ok; split_and!; [split|..]].
  assert (∀ d c d', insert_agent_instance_config d c = Ok d' →
    shrunk (base d) (base d') ∧ views (wk d') = views (wk d) ∧
    integrations (wk d') = integrations (wk d)) as Hcfg
    by (by intros ? ? ? (_ & _ & ->)%insert_config_ok).
  apply insert_all_shrunk in H3 as (Hs3 & Hv3 & Hi3); [|done].
  assert (shrunk (base d3) (base d4) ∧ views (wk d4) = views (wk d3) ∧
    integrations (wk d4) = integrations (wk d3)) as (Hs4 & Hv4 & Hi4).
  { destruct (existsb _ _); [by injection H4 as <-|].
    destruct (moderator_config _ _ _); [by eapply Hcfg|by injection H4 as <-]. }
  split_and!; [|simpl; congruence..]. etrans; [exact Hs1|]. etrans; [exact Hs2|].
  etrans; [exact Hs3|]. etrans; [exact Hs4|]. destruct expected; by split.
Qed.

(** ** The revision of the membership in other tables *)

Lemma advance_task_ok s next expected t :
  StoreTasks.row_ok t → StoreTasks.row_ok (advance_task s next expected t) ∧
  Tasks.task_id (advance_task s next expected t) = Tasks.task_id t ∧
  Tasks.state (advance_task s next expected t) = Tasks.state t.
Proof using. unfold advance_task. destruct (_ && _); [|done]. intros []. done. Qed.

Lemma advance_view_same s next expected now v :
  let w := advance_view s next expected now v in
  Workspace.view_id w = Workspace.view_id v ∧ same_agent v w ∧
  view_active w = view_active v ∧ (Workspace.mode_ok v → Workspace.mode_ok w) ∧
  (Workspace.location_ok v → Workspace.location_ok w) ∧
  ∀ a, bound a v → bound a w.
Proof using.
  unfold advance_view. destruct (_ && _ && _); simpl; [|by split_and!].
  split_and!; try done. intros a []. by split.
Qed.

Lemma store_ok_appended d p c n next expected now t g d' :
  appended d p c n next expected now t g d' → store_ok (base d) → store_ok (base d').
Proof using.
  intros [_ _ _ _ _ Ht _ _ (_ & _ & _ & _ & Hl & _ & Hh & Hm & Hu & Hw & _ & Hc & _)]
    [[Htr Htl] Hhok [Hmr Hmt] Hcok Hwok].
  split.
  - split; [|by rewrite Hl]. intros id t'. rewrite Ht, lookup_fmap.
    intros (t0 & Ht0 & ->)%fmap_Some. destruct (Htr id t0 Ht0) as [<- Hrow].
    by destruct (advance_task_ok (ai_session_id p) next expected t0 Hrow) as (? & ? & _).
  - intros id h. rewrite Hh. apply Hhok.
  - split; [by rewrite Hm|]. by rewrite Hu, Hm.
  - intros id x. rewrite Hc. apply Hcok.
  - intros s x u v row. rewrite Hw. apply Hwok.
Qed.

Lemma workspace_ok_appended d p c n next expected now t g d' :
  appended d p c n next expected now t g d' → workspace_ok (wk d) → workspace_ok (wk d').
Proof using.
  intros [_ _ _ _ _ _ Hv _ (_ & _ & _ & Hi & _)] [H1 H2 H3 H4]. set (s := ai_session_id p) in *.
  split; rewrite ?Hv, ?Hi.
  - intros id v. rewrite lookup_fmap. intros (w & Hw & ->)%fmap_Some.
    destruct (H1 id w Hw) as (<- & ? & ?), (advance_view_same s next expected now w)
      as (? & _ & _ & ? & ? & _). auto.
  - intros i j v w. rewrite !lookup_fmap. intros (v0 & Hv0 & ->)%fmap_Some (w0 & Hw0 & ->)%fmap_Some.
    destruct (advance_view_same s next expected now v0) as (_ & [Hs1 Ha1] & -> & _).
    destruct (advance_view_same s next expected now w0) as (_ & [Hs2 Ha2] & -> & _).
    intros [Hs Ha]. apply (H2 i j v0 w0); [done|done|]. split; congruence.
  - intros id i Hid. destruct (H3 id i Hid) as (? & ? & v & Hv0 & Hb). split_and!; [done..|].
    exists (advance_view s next expected now v). rewrite lookup_fmap, Hv0. split; [done|].
    destruct (advance_view_same s next expected now v) as (_ & _ & _ & _ & _ & Hbw). by apply Hbw.
  - done.
Qed.

Lemma add_tables d p seed m t em et p' d' :
  sessions_ok d → add_session_participant d p seed m t em et = Ok (p', d') →
  (store_ok (base d) → store_ok (base d')) ∧ (workspace_ok (wk d) → workspace_ok (wk d')).
Proof using.
  intros Hok Ha. apply add_ok in Ha as (g & c & d1 & _ & Happ & Hst);
    [|by apply sessions_ok_receipts].
  assert (wk d' = wk d1) as Hwk.
  { destruct Hst as [(_ & -> & _)|(? & ? & ? & ? & ? & ? & _ & _ & _ & _ & _ & _ & Hf)]; [done|].
    by destruct (fk_rest _ _ _ _ _ _ _ _ Hf). }
  unfold base. rewrite Hwk. split; [by eapply store_ok_appended|by eapply workspace_ok_appended].
Qed.

Lemma workspace_exec_core d op :
  workspace_ok d → (∀ x, op ≠ OpElsewhere x) → core (exec d op) = core d.
Proof using.
  intros Hok Hne. pose proof Hok as [H1 _ H3 _].
  assert (∀ id v, views d !! id = Some v → Workspace.view_id v = id) as Hvk by naive_solver.
  assert (∀ id i, integrations d !! id = Some i →
    Workspace.integration_id (Workspace.approval i) = id ∧ Workspace.receipt_ok i) as Hik by naive_solver.
  destruct op as [v m|id e ep tk nx now|i v m t|id e nx now|id ei ev ep tk ni nv r now|x]; simpl;
    try match goal with |- context [run ?d ?c] =>
      destruct (run_cases d c) as [->|[y Hc]]; [done|revert Hc; generalize (run d c).2; intros d' Hc]
    end.
  - destruct y. by apply create_view_ok in Hc as (_ & _ & _ & _ & _ & ->).
  - by apply transition_view_ok in Hc as (? & _ & _ & _ & _ & _ & ->).
  - destruct y. by apply create_integration_ok in Hc as (_ & _ & _ & _ & _ & _ & ->).
  - by apply transition_integration_ok in Hc as (? & _ & _ & _ & _ & ->).
  - destruct y. apply advance_ok in Hc as (? & ? & _ & _ & _ & _ & _ & _ & _ & _ & _ & ->);
      [done|done|naive_solver].
  - by destruct (Hne x).
Qed.

(** A change of the coordination and workspace tables, as the instance store
    sees it. *)
Lemma sessions_ok_coordination d d' :
  sessions_ok d → (∀ i, lineage (instances (base d) !! i) (instances (base d') !! i)) →
  governance (base d') = governance (base d) → ordinals d' = ordinals d →
  configs d' = configs d → fork_receipts d' = fork_receipts d → sessions_ok d'.
Proof using.
  intros Hok Hl Hg Ho Hc Hr. apply (sessions_ok_moved d); try done.
  intros k c. rewrite Hc. by left.
Qed.

Lemma materialize_tables d s parent child cursor now n d' :
  materialize_agent_fork_history d s parent child cursor now = Ok (n, d') →
  wk d' = wk d ∧ ordinals d' = ordinals d.
Proof using.
  intros H. unfold materialize_agent_fork_history in H. apply bail_ok in H as [_ H].
  unfold materialize_fork_history in H. destruct (fork_receipts d !! child).
  - by apply bail_ok in H as [_ [= _ <-]].
  - repeat first [apply bail_ok in H as [_ H]|apply res_bind_ok in H as (? & _ & H)].
    by injection H as _ <-.
Qed.

Lemma durable_exec_ok d op : durable_ok d → durable_legal d op → durable_ok (durable_exec d op).
Proof.
  intros Hd Hop. pose proof Hd as [Hs Hw Hi].
  destruct op as [op|op|m e|p seed m t em et|s i e next now|c e|s parent child cursor now|rows ls];
    cbn [durable_legal durable_exec] in *; try match goal with |- context [run ?d ?c] =>
      destruct (run_cases d c) as [->|[y Hc]]; [done|revert Hc; generalize (run d c).2; intros d' Hc]
    end.
  - destruct (commit_ok (base d) op Hs Hop) as [[] Hs']. split; [done|by apply (workspace_ok_same (wk d))|].
    by apply (sessions_ok_coordination d).
  - assert (core (exec (wk d) op) = core (wk d)) as Hcore
      by (apply workspace_exec_core; [done|by intros x ->]).
    split; [unfold base; simpl; by rewrite Hcore|by apply workspace_exec_ok|].
    apply (sessions_ok_coordination d); unfold base; simpl; rewrite ?Hcore; try done.
    intros; apply lineage_refl.
  - destruct y. destruct (save_shrunk _ _ _ _ Hc) as (Hsk & Hv & Hii).
    split; [by eapply store_ok_shrunk|by apply (workspace_ok_same (wk d))|].
    by apply save_membership_ok in Hc as [? _].
  - destruct (add_tables _ _ _ _ _ _ _ _ _ Hi Hc) as [H1 H2].
    split; [by apply H1|by apply H2|by eapply add_keeps].
  - pose proof (sessions_ok_transition _ _ _ _ _ _ _ _ Hi Hc) as Hok.
    apply agent_transition_ok in Hc as (q & _ & _ & _ & _ & _ & _ & ->); [|by apply ss_keys].
    split; [|by apply (workspace_ok_same (wk d))|done]. by apply (store_ok_shrunk (base d)).
  - destruct y. pose proof (sessions_ok_save_config _ _ _ _ Hi Hc) as Hok.
    by apply save_config_ok in Hc as (_ & _ & _ & ->).
  - pose proof (sessions_ok_materialize _ _ _ _ _ _ _ _ Hi Hc) as Hok.
    destruct (materialize_tables _ _ _ _ _ _ _ _ Hc) as [Hwk _].
    split; [unfold base|..]; by rewrite ?Hwk.
  - split; [done|done|]. apply (sessions_ok_coordination d); try done. intros; apply lineage_refl.
Qed.

Lemma durable_run_ok d ops :
  durable_ok d → durable_legal_run d ops → durable_ok (durable_run d ops).
Proof.
  revert d. induction ops as [|op ops IH]; intros d Hok; [done|]. intros [Hop Hops].
  apply IH; [by apply durable_exec_ok|done].
Qed.

(** ** Participants over a run *)

(** The participants of before, each moved along its lifecycle, then new ones. *)
Definition extends (ps qs : list AgentInstance) : Prop :=
  ∃ moved new, qs = moved ++ new ∧ Forall2 (rtc instance_step) ps moved.

Lemma extends_app ps new : extends ps (ps ++ new).
Proof using.
  exists ps, new. split; [done|]. induction ps; constructor; [apply rtc_refl|done].
Qed.

Lemma extends_refl ps : extends ps ps.
Proof using. rewrite <- (app_nil_r ps) at 2. apply extends_app. Qed.

Lemma extends_trans ps qs rs : extends ps qs → extends qs rs → extends ps rs.
Proof using.
  intros (ms & ns & -> & Hm) (ms' & ns' & -> & Hm').
  apply Forall2_app_inv_l in Hm' as (ms1 & ms2 & H1 & H2 & ->).
  exists ms1, (ms2 ++ ns'). rewrite <- app_assoc. split; [done|].
  clear H2. revert ms1 H1. induction Hm; intros ms1 H1; inversion H1; subst; constructor.
  - by etrans.
  - by apply IHHm.
Qed.

Lemma extends_moved d d' s :
  sessions_ok d → sessions_ok d' →
  (∀ i, lineage (instances (base d) !! i) (instances (base d') !! i)) →
  ordinals d' = ordinals d → extends (stored_participants d s) (stored_participants d' s).
Proof using.
  intros Hok Hok' Hl Ho. destruct (ss_listed _ Hok s) as (ps & Hps & _).
  rewrite (listed_stored _ _ _ (ss_keys _ Hok) Hps).
  rewrite (listed_stored _ _ _ (ss_keys _ Hok') (listed_moved d d' Hl Ho s ps Hps)).
  exists (moved_row d' <$> ps), []. rewrite app_nil_r. split; [done|].
  apply Forall2_fmap_r, Forall_Forall2_diag, Forall_forall. intros p Hp. by eapply moved_row_run.
Qed.

(** An operation that replaces a membership as a whole. *)
Definition replaces (op : durable_op) : bool :=
  match op with OpSaveMembership _ (Some _) => true | _ => false end.

Lemma durable_exec_extends d op s :
  durable_ok d → durable_legal d op → replaces op = false →
  extends (stored_participants d s) (stored_participants (durable_exec d op) s).
Proof.
  intros Hd Hop Hrep. pose proof (durable_exec_ok d op Hd Hop) as [_ _ Hok'].
  pose proof Hd as [Hs Hw Hi]. revert Hok'.
  destruct op as [op|op|m e|p seed m t em et|s' i e next now|c e|s' parent child cursor now|rows ls];
    cbn [durable_legal durable_exec replaces] in *; try match goal with |- context [run ?d ?c] =>
      destruct (run_cases d c) as [->|[y Hc]]; [intros; apply extends_refl
      |revert Hc; generalize (run d c).2; intros d' Hc]
    end; intros Hok'.
  - destruct (commit_ok (base d) op Hs Hop) as [[] _]. by apply extends_moved.
  - assert (core (exec (wk d) op) = core (wk d)) as Hcore
      by (apply workspace_exec_core; [done|by intros x ->]).
    apply extends_moved; try done. unfold base. simpl. rewrite Hcore. intros; apply lineage_refl.
  - destruct y, e; [done|]. apply save_membership_ok in Hc as (_ & _ & Hrev & _ & _ & Hst & Hne); [|done].
    destruct (decide (s = Membership.m_session_id m)) as [->|Hs']; [|rewrite Hne by done; apply extends_refl].
    destruct (ss_listed _ Hi (Membership.m_session_id m)) as (ps & Hl & Hg).
    unfold membership_revision_of in Hrev. apply fmap_None in Hrev. rewrite Hrev in Hg. subst ps.
    rewrite (listed_stored _ _ _ (ss_keys _ Hi) Hl), Hst. by exists [], (Membership.participants m).
  - apply add_keeps in Hc as [_ Hadd]; [|done].
    destruct (pa_checked _ _ _ _ _ _ _ _ _ Hadd) as (g & _ & _ & [Hp _ Hothers]).
    destruct (pa_participant _ _ _ _ _ _ _ _ _ Hadd) as [h ->]. simpl in *.
    destruct (decide (s = ai_session_id p)) as [->|Hne].
    + rewrite Hp. apply extends_app.
    + destruct (Hothers s Hne) as [-> _]. apply extends_refl.
  - apply agent_transition_ok in Hc as (q & Hq & _ & _ & Hst & _ & _ & ->); [|by apply ss_keys].
    apply extends_moved; try done. intros j. simpl. destruct (decide (i = j)) as [<-|].
    + rewrite Hq, lookup_insert_eq. by apply rtc_once.
    + rewrite lookup_insert_ne by done. apply lineage_refl.
  - destruct y. apply save_config_ok in Hc as (_ & _ & _ & ->).
    apply extends_moved; try done. intros; apply lineage_refl.
  - destruct (materialize_tables _ _ _ _ _ _ _ _ Hc) as [Hwk Ho].
    apply extends_moved; try done. unfold base. rewrite Hwk. intros; apply lineage_refl.
  - apply extends_moved; try done. intros; apply lineage_refl.
Qed.

Lemma durable_run_extends d ops s :
  durable_ok d → durable_legal_run d ops → Forall (λ op, replaces op = false) ops →
  extends (stored_participants d s) (stored_participants (durable_run d ops) s).
Proof.
  revert d. induction ops as [|op ops IH]; intros d Hok Hl Hr; [apply extends_refl|].
  destruct Hl as [Hop Hl]. apply Forall_cons in Hr as [Hrop Hr].
  eapply extends_trans; [by apply durable_exec_extends|].
  apply IH; [by apply durable_exec_ok|done|done].
Qed.
End system.
