(* ===== verification/StoreHistory.v ===== *)
(** The history of the session database: what legal operations lead to, and what
    they never undo.

    [reaches d d'] holds when legal operations of any callers lead from [d] to [d'].
    [remembers d d'] collects what such a history keeps: tasks age, decided and
    expired cases, decisions and finished handoffs stay as they are, and messages
    keep their envelope. *)

From S2P Require Import Prelude Graph Instance Store StoreRun WorkspaceStore InstanceStore.
From S2P Require Import InstanceStoreFacts InstanceStoreRun InstanceStoreSave StoreSystem.
From S2P Require Membership.
From S2P Require Topology.
From S2P Require Tasks.
From S2P Require Mailbox.
From S2P Require Handoff.
From S2P Require Governance.
From S2P Require Arbitration.
From S2P Require StoreTasks.
From S2P Require StoreMessages.
From S2P Require StoreHandoffs.
From S2P Require StoreArbitration.
From S2P Require StoreFacts.
From S2P Require Route.
From stdpp Require Import base tactics gmap strings list relations.
From Stdlib Require Import ZArith Lia.

Section history.
Context `{Hhash : !HashOrder}.

(** ** Databases reached by legal operations *)

Definition reaches (d d' : sdb) : Prop :=
  ∃ ops, durable_legal_run d ops ∧ d' = durable_run d ops.

Lemma durable_legal_app d ops ops' :
  durable_legal_run d (ops ++ ops') ↔
  durable_legal_run d ops ∧ durable_legal_run (durable_run d ops) ops'.
Proof using.
  revert d. induction ops as [|op ops IH]; intros d; simpl; [naive_solver|].
  rewrite IH. naive_solver.
Qed.

#[global] Instance reaches_preorder : PreOrder reaches.
Proof using.
  split; [by intros d; exists []|]. intros d1 d2 d3 (ops & Hl & ->) (ops' & Hl' & ->).
  exists (ops ++ ops'). split; [by apply durable_legal_app|].
  unfold durable_run. by rewrite foldl_app.
Qed.

Lemma reaches_op d op : durable_legal d op → reaches d (durable_exec d op).
Proof using. intros Hl. by exists [op]. Qed.

Lemma reaches_ok d d' : durable_ok d → reaches d d' → durable_ok d'.
Proof using. intros Hok (ops & Hl & ->). by apply durable_run_ok. Qed.

(** The database after a successful operation of the coordination store. *)
Lemma reaches_commit d (op : coordination_op) {A} (c : tx A) a b :
  legal (base d) op → commit (base d) op = (run (base d) c).2 → c = Ok (a, b) →
  reaches d (set_base d b).
Proof using.
  intros Hl Hc ->. simpl in Hc. rewrite <- Hc. by apply (reaches_op d (OpCoordination op)).
Qed.

(** A fact that later operations do not undo. *)
Definition stable (P : sdb → Prop) : Prop :=
  ∀ d d', durable_ok d → reaches d d' → P d → P d'.

Lemma stable_true φ : stable (λ _, φ).
Proof using. by intros ? ?. Qed.
Lemma stable_and P Q : stable P → stable Q → stable (λ d, P d ∧ Q d).
Proof using. intros HP HQ d d' ? ? []. split; eauto. Qed.
Lemma stable_exists {X} (P : X → sdb → Prop) : (∀ x, stable (P x)) → stable (λ d, ∃ x, P x d).
Proof using. intros HP d d' ? ? [x Hx]. exists x. by eapply HP. Qed.

(** [φ] held at some database between [start] and [d]. *)
Definition during (start : sdb) (φ : sdb → Prop) (d : sdb) : Prop :=
  ∃ d1, reaches start d1 ∧ durable_ok d1 ∧ φ d1 ∧ reaches d1 d.

Lemma stable_during start φ : stable (during start φ).
Proof using. intros d d' _ Hr (d1 & ? & ? & ? & ?). exists d1. split_and!; try done. by etrans. Qed.

Lemma during_now start (φ : sdb → Prop) d : reaches start d → durable_ok d → φ d → during start φ d.
Proof using. by exists d. Qed.

Lemma during_impl start (φ ψ : sdb → Prop) d :
  during start φ d → (∀ d1, durable_ok d1 → φ d1 → ψ d1) → during start ψ d.
Proof using. intros (d1 & ? & ? & ? & ?) Himp. exists d1. split_and!; auto. Qed.

(** ** Readings of the task graph *)

(** A task that changed has a later revision, but for the revision of the
    membership it is stored under. *)
Definition ages (t t' : Tasks.CoordinationTask) : Prop :=
  Tasks.task_id t' = Tasks.task_id t ∧
  ((Tasks.revision t < Tasks.revision t')%Z ∨ ∃ r, t' = StoreArbitration.rebased t r).

Lemma ages_refl t : ages t t.
Proof using. split; [done|right]. exists (Tasks.membership_revision t). by destruct t. Qed.

Lemma ages_trans t1 t2 t3 : ages t1 t2 → ages t2 t3 → ages t1 t3.
Proof using.
  intros [Hi H12] [Hi' H23]. split; [congruence|].
  destruct H12 as [?|[r ->]], H23 as [?|[r' ->]]; simpl in *; [left; lia|by left|by left|].
  right. by exists r'.
Qed.

Lemma tasks_run_ages b b' id t :
  StoreTasks.tasks_run b b' → tasks b !! id = Some t → ∃ t', tasks b' !! id = Some t' ∧ ages t t'.
Proof using.
  intros Hrun. revert t. induction Hrun as [b|b b1 b' Hs _ IH]; intros t Ht.
  { exists t. split; [done|apply ages_refl]. }
  specialize (Hs id). rewrite Ht in Hs. destruct (tasks b1 !! id) as [t1|]; [|done].
  destruct (IH t1 eq_refl) as (t' & Ht' & Ha). exists t'. split; [done|].
  eapply ages_trans; [|exact Ha]. destruct Hs as [->|[(? & _) _ _ _ [? _] _]]; [apply ages_refl|].
  split; [done|left; lia].
Qed.

(** What every later database still knows. *)
Record remembers (d d' : sdb) : Prop := {
  rm_tasks : ∀ id t, tasks (base d) !! id = Some t → ∃ t', tasks (base d') !! id = Some t' ∧ ages t t';
  rm_cases : StoreArbitration.settled (base d) (base d');
  rm_decisions : decisions (base d) ⊆ decisions (base d');
  rm_handoffs : StoreHandoffs.handoffs_kept (base d) (base d');
  rm_messages : ∀ id r, messages (base d) !! id = Some r →
    ∃ r', messages (base d') !! id = Some r' ∧ rtc StoreMessages.message_step r r';
}.

Lemma remembers_same d d' :
  (∀ id t, tasks (base d) !! id = Some t → ∃ t', tasks (base d') !! id = Some t' ∧ ages t t') →
  cases (base d') = cases (base d) → decisions (base d') = decisions (base d) →
  handoffs (base d') = handoffs (base d) → messages (base d') = messages (base d) → remembers d d'.
Proof using.
  intros Ht Hc Hd Hh Hm.
  split; unfold StoreArbitration.settled; rewrite ?Hc, ?Hd, ?Hm; eauto using StoreHandoffs.handoffs_kept_same.
  intros id r Hr. exists r. split; [done|apply rtc_refl].
Qed.

Lemma remembers_base d d' : base d' = base d → remembers d d'.
Proof using.
  intros Hb. apply remembers_same; rewrite Hb; try done. eauto using ages_refl.
Qed.

#[global] Instance remembers_preorder : PreOrder remembers.
Proof using.
  split; [by intros d; apply remembers_base|].
  intros d1 d2 d3 [Ht Hc Hd Hh Hm] [Ht' Hc' Hd' Hh' Hm']. split.
  - intros id t Hid. destruct (Ht id t Hid) as (t1 & Hid1 & Ha).
    destruct (Ht' id t1 Hid1) as (t2 & Hid2 & Ha'). eauto using ages_trans.
  - intros id c Hid Hs. by apply Hc', Hs; apply Hc.
  - by etrans.
  - by eapply StoreHandoffs.handoffs_kept_trans.
  - intros id r Hid. destruct (Hm id r Hid) as (r1 & Hid1 & Hr).
    destruct (Hm' id r1 Hid1) as (r2 & Hid2 & Hr'). exists r2. split; [done|by etrans].
Qed.

Lemma durable_exec_remembers d op :
  durable_ok d → durable_legal d op → remembers d (durable_exec d op).
Proof using.
  intros [Hs Hw Hi] Hop.
  destruct op as [op|op|m e|p seed m tp em et|s i e next now|c e|s parent child cursor now|rows ls];
    cbn [durable_legal durable_exec] in *; try match goal with |- context [run ?d ?c] =>
      destruct (run_cases d c) as [->|[y Hc]];
        [done|revert Hc; generalize (run d c).2; intros d' Hc]
    end.
  - destruct (commit_ok (base d) op Hs Hop) as [[Hrun Hmail Hset Hh Hdec _ _ _ _] _]. split; try done.
    + intros id t Ht. by eapply tasks_run_ages.
    + intros id r Hr. apply (StoreMessages.mail_run_row (base d) _ id r); [|done|done|done].
      intros x y ? ?. by eapply rtc_r.
  - apply remembers_base. unfold base. simpl. apply workspace_exec_core; [done|by intros x ->].
  - destruct y. destruct (save_shrunk _ _ _ _ Hc) as ([] & _). apply remembers_same; try done.
    replace (tasks (base d')) with (tasks (base d)) by done. eauto using ages_refl.
  - apply add_ok in Hc as (g & c & d1 & _ & [_ _ _ _ _ Htk _ _ (_ & _ & _ & _ & _ & _ & Hh & Hm & _ & _ & _ & Hcs & Hd)] & Hst);
      [|by apply sessions_ok_receipts].
    assert (base d' = base d1) as Hb.
    { unfold base. destruct Hst as [(_ & -> & _)|(? & ? & ? & ? & ? & ? & _ & _ & _ & _ & _ & _ & Hf)];
        [done|]. by destruct (fk_rest _ _ _ _ _ _ _ _ Hf) as [-> _]. }
    apply remembers_same; rewrite Hb; try done. intros id t Ht.
    rewrite Htk, lookup_fmap, Ht. eexists. split; [done|]. unfold advance_task.
    destruct (_ && _); [|apply ages_refl]. split; [done|right]. by eexists.
  - apply agent_transition_ok in Hc as (q & _ & _ & _ & _ & _ & _ & ->); [|by apply ss_keys].
    apply remembers_same; try done. eauto using ages_refl.
  - destruct y. apply save_config_ok in Hc as (_ & _ & _ & ->). by apply remembers_base.
  - destruct (materialize_tables _ _ _ _ _ _ _ _ Hc) as [Hwk _]. apply remembers_base.
    unfold base. by rewrite Hwk.
  - by apply remembers_base.
Qed.

Lemma reaches_remembers d d' : durable_ok d → reaches d d' → remembers d d'.
Proof using.
  intros Hok (ops & Hl & ->). revert d Hok Hl. induction ops as [|op ops IH]; intros d Hok Hl; [done|].
  destruct Hl as [Hop Hl]. etrans; [by apply durable_exec_remembers|].
  apply IH; [by apply durable_exec_ok|done].
Qed.

(** The graph was read: each of its tasks is stored, as it was or later. *)
Definition reading (g : Tasks.SessionTaskGraph) (d : sdb) : Prop :=
  ∀ t, t ∈ Tasks.tasks g → ∃ row, tasks (base d) !! Tasks.task_id t = Some row ∧ ages t row.

Lemma reading_stable g : stable (reading g).
Proof using.
  intros d d' Hok Hr Hg t Ht. destruct (Hg t Ht) as (row & Hrow & Ha).
  destruct (rm_tasks _ _ (reaches_remembers d d' Hok Hr) _ _ Hrow) as (row' & Hrow' & Ha').
  exists row'. split; [done|by eapply ages_trans].
Qed.

Lemma reading_snapshot g d : reading g d → StoreArbitration.snapshot (base d) g.
Proof using.
  intros Hg t row Ht Hrow Hrev. destruct (Hg t Ht) as (row' & Hrow' & _ & [?|Hr]).
  - assert (row' = row) as -> by congruence. lia.
  - by assert (row' = row) as -> by congruence.
Qed.

Lemma load_graph_reading d session g :
  durable_ok d → StoreTasks.load_task_graph (base d) session = Some g → reading g d.
Proof using.
  intros [[[Hok _] _ _ _ _] _ _] Hg t Ht. unfold StoreTasks.load_task_graph in Hg.
  destruct (membership_revision_of _ _); [|done]. injection Hg as <-. simpl in Ht.
  apply list_elem_of_omap in Ht as (id & _ & Hid). unfold StoreTasks.load_task in Hid.
  destruct (Hok _ _ Hid) as [<- _]. exists t. split; [done|apply ages_refl].
Qed.

End history.

Definition ends {A E} (c : res A E) : Prop := match c with Diverge => False | _ => True end.

Lemma ends_returns {A E} (c : res A E) : returns c → ends c.
Proof. by destruct c. Qed.

Lemma ends_bind {A B E} (c : res A E) (k : A → res B E) :
  ends c → (∀ a, c = Ok a → ends (k a)) → ends (res_bind c k).
Proof. destruct c; simpl; naive_solver. Qed.

Lemma ends_bail {B E} (b : bool) (e : E) (k : res B E) :
  (b = false → ends k) → ends (bail b with e;; k).
Proof. destruct b; simpl; naive_solver. Qed.

Lemma ends_map_err {A E F} (f : E → F) (c : res A E) : ends c → ends (map_err f c).
Proof. by destruct c. Qed.

Create HintDb ends_db.
#[export] Hint Extern 1 (ends _) => apply ends_returns; solve [eauto with res_db] : ends_db.
#[export] Hint Extern 0 (ends (Ok _)) => exact I : ends_db.
#[export] Hint Extern 0 (ends (Err _)) => exact I : ends_db.
#[export] Hint Extern 0 (ends Panic) => exact I : ends_db.

Ltac head_of t := match t with ?f _ => head_of f | ?f => f end.

Ltac ends_steps :=
  repeat first
    [ solve [eauto with ends_db]
    | progress cbv zeta
    | apply ends_bail; intros ?
    | apply ends_bind; [|intros ? ?]
    | apply ends_map_err
    | case_match
    | match goal with |- ends ?c => let f := head_of c in unfold f end ].

Lemma ends_checked_i64 x : ends (checked_i64 x).
Proof. unfold checked_i64. by case_match. Qed.
Lemma ends_checked_u64 x : ends (checked_u64 x).
Proof. unfold checked_u64. by case_match. Qed.
Lemma ends_checked_u32 x : ends (checked_u32 x).
Proof. unfold checked_u32. by case_match. Qed.
Lemma ends_checked_u16 x : ends (checked_u16 x).
Proof. unfold checked_u16. by case_match. Qed.
Lemma ends_ok_or {A E} (o : option A) (e : E) : ends (ok_or o e).
Proof. by destruct o. Qed.
Lemma ends_expect {A E} (o : option A) : ends (@expect A E o).
Proof. by destruct o. Qed.
#[export] Hint Resolve ends_checked_i64 ends_checked_u64 ends_checked_u32 ends_checked_u16 ends_ok_or
  ends_expect : ends_db.

(** Validations of the model that the stores call. *)
#[export] Hint Resolve Membership.validate_membership_returns Mailbox.validate_message_returns
  Arbitration.validate_decision_returns : res_db.

Lemma ends_topology `{!HashOrder} t m : ends (Topology.validate t m).
Proof.
  unfold Topology.validate. do 2 (apply ends_bail; intros _).
  apply ends_bind; [apply ends_returns, Topology.scan_relations_returns|]. intros. ends_steps.
Qed.
#[export] Hint Resolve ends_topology : ends_db.

Lemma ends_store_tasks :
  (∀ d t, ends (StoreTasks.create_task d t)) ∧ (∀ d t e, ends (StoreTasks.update_task d t e)) ∧
  (∀ tok d id a o now secs, ends (StoreTasks.claim_task tok d id a o now secs)) ∧
  (∀ d l nx c now, ends (StoreTasks.finish_task_lease d l nx c now)) ∧
  (∀ d id now, ends (StoreTasks.cancel_task d id now)).
Proof.
  split_and!; intros.
  - unfold StoreTasks.create_task. ends_steps.
  - unfold StoreTasks.update_task. ends_steps.
  - unfold StoreTasks.claim_task. ends_steps.
  - unfold StoreTasks.finish_task_lease. ends_steps.
  - unfold StoreTasks.cancel_task. ends_steps.
Qed.

Lemma ends_store_mail :
  (∀ d m ms t now, ends (StoreMessages.enqueue_message d m ms t now)) ∧
  (∀ d rc now secs, ends (StoreMessages.claim_message d rc now secs)) ∧
  (∀ d id rc ep nx now, ends (StoreMessages.finish_message_claim d id rc ep nx now)) ∧
  (∀ d cl tn now, ends (StoreMessages.prepare_message_turn d cl tn now)) ∧
  (∀ d id rc e now, ends (StoreMessages.acknowledge_message d id rc e now)).
Proof.
  split_and!; intros.
  - unfold StoreMessages.enqueue_message. ends_steps.
  - unfold StoreMessages.claim_message. ends_steps.
  - unfold StoreMessages.finish_message_claim. ends_steps.
  - unfold StoreMessages.prepare_message_turn. ends_steps.
  - unfold StoreMessages.acknowledge_message. ends_steps.
Qed.

Lemma ends_retarget_all d g ids now s : ends (StoreArbitration.retarget_all d g ids now s).
Proof.
  revert d. induction ids as [|id ids IH]; intros d; simpl; [done|].
  apply ends_bind; [unfold StoreArbitration.retarget; ends_steps|]. intros; apply IH.
Qed.

Lemma ends_suspend_all d m ids now : ends (StoreArbitration.suspend_all d m ids now).
Proof.
  revert d. induction ids as [|id ids IH]; intros d; simpl; [done|].
  apply ends_bind; [unfold StoreArbitration.suspend; ends_steps|]. intros; apply IH.
Qed.
#[export] Hint Resolve ends_retarget_all ends_suspend_all : ends_db.

Lemma ends_store_cases `{!HashOrder} :
  (∀ d c m t now, ends (StoreArbitration.create_arbitration_case d c m t now)) ∧
  (∀ d id e now, ends (StoreArbitration.expire_arbitration d id e now)) ∧
  (∀ d decision m g t now, ends (StoreArbitration.decide_arbitration d decision m g t now)).
Proof.
  split_and!; intros.
  - unfold StoreArbitration.create_arbitration_case. ends_steps.
  - unfold StoreArbitration.expire_arbitration. ends_steps.
  - unfold StoreArbitration.decide_arbitration. ends_steps.
Qed.

Lemma ends_store_handoffs :
  (∀ d h m t now, Topology.governed t m → ends (StoreHandoffs.create_handoff d h m t now)) ∧
  (∀ d id a nx e now, ends (StoreHandoffs.transition_handoff d id a nx e now)).
Proof.
  split_and!; intros.
  - pose proof (λ task, Handoff.validate_proposal_returns h task t m now) as Hv.
    unfold StoreHandoffs.create_handoff. ends_steps.
  - unfold StoreHandoffs.transition_handoff. ends_steps.
Qed.

Lemma ends_store_facts `{!HashOrder} :
  (∀ d s w tr pr, ends (StoreFacts.record_wait d s w tr pr)) ∧
  (∀ d s w, ends (StoreFacts.clear_wait d s w)) ∧
  (∀ d s o, ends (StoreFacts.record_progress d s o)) ∧
  (∀ d t m e, ends (StoreFacts.save_topology d t m e)) ∧
  (∀ d s n, ends (StoreFacts.governance_observations d s n)).
Proof.
  split_and!; intros.
  - unfold StoreFacts.record_wait. ends_steps.
  - unfold StoreFacts.clear_wait. ends_steps.
  - unfold StoreFacts.record_progress. ends_steps.
  - unfold StoreFacts.save_topology. ends_steps.
  - unfold StoreFacts.governance_observations. ends_steps.
Qed.

Lemma ends_copy_lines ls s child next rows : ends (copy_lines ls s child next rows).
Proof.
  revert ls next. induction rows as [|[n l] rows IH]; intros ls next; simpl; [done|]. ends_steps.
Qed.

Lemma ends_next_sequence l n : ends (next_sequence l n).
Proof. unfold next_sequence. ends_steps. Qed.
#[export] Hint Resolve ends_copy_lines ends_next_sequence : ends_db.

Lemma ends_instances `{!HashOrder} :
  (∀ d s, ends (session_membership d s)) ∧
  (∀ d p seed m t em et, ends (add_session_participant d p seed m t em et)) ∧
  (∀ d s i e nx now, ends (transition_agent_instance d s i e nx now)).
Proof.
  split_and!; intros.
  - unfold session_membership. ends_steps.
  - unfold add_session_participant. ends_steps.
  - unfold transition_agent_instance. ends_steps.
Qed.
