(* ===== verification/Ledger.v ===== *)
(** The execution ledger: the positions of turns, model iterations and tool calls,
    and what recovery decides from them (src/sylvander-runtime/src/storage/session/
    execution_ledger.rs, model_ledger.rs, recovery_action.rs, the states of mod.rs
    and their texts in sqlite.rs). *)

From S2P Require Import Prelude Store ToolContract.
From stdpp Require Import base tactics strings.
From Stdlib Require Import ZArith.

Local Ltac solve_codec decode :=
  split; [by intros []|]; intros s x Hx; unfold decode in Hx; decode_cases Hx.

(** * States *)

(** The state of a durable turn (mod.rs). *)
Module TurnStates.

Inductive TurnState :=
  | Running | Completed | Failed | Interrupted.

#[global] Instance TurnState_eq_dec : EqDecision TurnState.
Proof. solve_decision. Defined.

Definition encode (x : TurnState) : string :=
  match x with
  | Running => "running"
  | Completed => "completed"
  | Failed => "failed"
  | Interrupted => "interrupted"
  end.

Definition decode (s : string) : res TurnState SessionStoreError :=
  if s == "running" then Ok Running
  else if s == "completed" then Ok Completed
  else if s == "failed" then Ok Failed
  else if s == "interrupted" then Ok Interrupted
  else Err Store.

Lemma TurnState_codec :
  (∀ x, decode (encode x) = Ok x) ∧ (∀ s x, decode s = Ok x → encode x = s).
Proof. solve_codec decode. Qed.

End TurnStates.
Notation TurnState := TurnStates.TurnState (only parsing).

(** Why a turn failed (mod.rs). *)
Module TurnFailures.

Inductive TurnFailureKind :=
  | UnknownSession | Authentication | AgentLoop | Configuration | Persistence.

#[global] Instance TurnFailureKind_eq_dec : EqDecision TurnFailureKind.
Proof. solve_decision. Defined.

Definition encode (x : TurnFailureKind) : string :=
  match x with
  | UnknownSession => "unknown_session"
  | Authentication => "authentication"
  | AgentLoop => "agent_loop"
  | Configuration => "configuration"
  | Persistence => "persistence"
  end.

Definition decode (s : string) : res TurnFailureKind SessionStoreError :=
  if s == "unknown_session" then Ok UnknownSession
  else if s == "authentication" then Ok Authentication
  else if s == "agent_loop" then Ok AgentLoop
  else if s == "configuration" then Ok Configuration
  else if s == "persistence" then Ok Persistence
  else Err Store.

Lemma TurnFailureKind_codec :
  (∀ x, decode (encode x) = Ok x) ∧ (∀ s x, decode s = Ok x → encode x = s).
Proof. solve_codec decode. Qed.

End TurnFailures.
Notation TurnFailureKind := TurnFailures.TurnFailureKind (only parsing).

(** The state of a tool call (mod.rs). *)
Module CallStates.

Inductive ToolCallState :=
  | Running | Succeeded | Failed | Rejected | Abandoned.

#[global] Instance ToolCallState_eq_dec : EqDecision ToolCallState.
Proof. solve_decision. Defined.

Definition encode (x : ToolCallState) : string :=
  match x with
  | Running => "running"
  | Succeeded => "succeeded"
  | Failed => "failed"
  | Rejected => "rejected"
  | Abandoned => "abandoned"
  end.

Definition decode (s : string) : res ToolCallState SessionStoreError :=
  if s == "running" then Ok Running
  else if s == "succeeded" then Ok Succeeded
  else if s == "failed" then Ok Failed
  else if s == "rejected" then Ok Rejected
  else if s == "abandoned" then Ok Abandoned
  else Err Store.

Lemma ToolCallState_codec :
  (∀ x, decode (encode x) = Ok x) ∧ (∀ s x, decode s = Ok x → encode x = s).
Proof. solve_codec decode. Qed.

End CallStates.
Notation ToolCallState := CallStates.ToolCallState (only parsing).

(** What an adapter reports of a failed call (mod.rs). *)
Module CallFailures.

Inductive ToolCallFailureKind :=
  | FilesystemBoundaryPolicyViolation.

#[global] Instance ToolCallFailureKind_eq_dec : EqDecision ToolCallFailureKind.
Proof. solve_decision. Defined.

Definition encode (x : ToolCallFailureKind) : string :=
  match x with
  | FilesystemBoundaryPolicyViolation => "filesystem_boundary_policy_violation"
  end.

Definition decode (s : string) : res ToolCallFailureKind SessionStoreError :=
  if s == "filesystem_boundary_policy_violation" then Ok FilesystemBoundaryPolicyViolation
  else Err Store.

Lemma ToolCallFailureKind_codec :
  (∀ x, decode (encode x) = Ok x) ∧ (∀ s x, decode s = Ok x → encode x = s).
Proof. split; [by intros []|]. intros s [] Hx. unfold decode in Hx. by case_match; [case_bool_decide|]. Qed.

End CallFailures.
Notation ToolCallFailureKind := CallFailures.ToolCallFailureKind (only parsing).

(** Who a message of the history is from (mod.rs); the texts are those of [append_message] and [row_to_message]. *)
Module MessageRoles.

Inductive MessageRole :=
  | User | Assistant | Tool.

#[global] Instance MessageRole_eq_dec : EqDecision MessageRole.
Proof. solve_decision. Defined.

Definition encode (x : MessageRole) : string :=
  match x with
  | User => "user"
  | Assistant => "assistant"
  | Tool => "tool"
  end.

Definition decode (s : string) : res MessageRole SessionStoreError :=
  if s == "user" then Ok User
  else if s == "assistant" then Ok Assistant
  else if s == "tool" then Ok Tool
  else Err Store.

Lemma MessageRole_codec :
  (∀ x, decode (encode x) = Ok x) ∧ (∀ s x, decode s = Ok x → encode x = s).
Proof. solve_codec decode. Qed.

End MessageRoles.
Notation MessageRole := MessageRoles.MessageRole (only parsing).

(** The priority of a request. *)
Module Priorities.

Inductive Priority :=
  | Low | Normal | High | Urgent.

#[global] Instance Priority_eq_dec : EqDecision Priority.
Proof. solve_decision. Defined.

Definition encode (x : Priority) : string :=
  match x with
  | Low => "low"
  | Normal => "normal"
  | High => "high"
  | Urgent => "urgent"
  end.

Definition decode (s : string) : res Priority SessionStoreError :=
  if s == "low" then Ok Low
  else if s == "normal" then Ok Normal
  else if s == "high" then Ok High
  else if s == "urgent" then Ok Urgent
  else Err Store.

Lemma Priority_codec :
  (∀ x, decode (encode x) = Ok x) ∧ (∀ s x, decode s = Ok x → encode x = s).
Proof. solve_codec decode. Qed.

End Priorities.
Notation Priority := Priorities.Priority (only parsing).

(** * Tool calls (execution_ledger.rs) *)

(** The last effect boundary that was crossed. *)
Module ToolPositions.

Inductive ToolExecutionPosition :=
  | Prepared | Authorized | EffectStarted | EffectCommitted | ResultPersisted.

#[global] Instance ToolExecutionPosition_eq_dec : EqDecision ToolExecutionPosition.
Proof. solve_decision. Defined.

(** A compare-and-swap moves between adjacent boundaries only. *)
Definition can_advance_to (p next : ToolExecutionPosition) : bool :=
  match p, next with
  | Prepared, Authorized | Authorized, EffectStarted
  | EffectStarted, EffectCommitted | EffectCommitted, ResultPersisted => true
  | _, _ => false
  end.

Definition encode (x : ToolExecutionPosition) : string :=
  match x with
  | Prepared => "prepared"
  | Authorized => "authorized"
  | EffectStarted => "effect_started"
  | EffectCommitted => "effect_committed"
  | ResultPersisted => "result_persisted"
  end.

Definition decode (s : string) : res ToolExecutionPosition SessionStoreError :=
  if s == "prepared" then Ok Prepared
  else if s == "authorized" then Ok Authorized
  else if s == "effect_started" then Ok EffectStarted
  else if s == "effect_committed" then Ok EffectCommitted
  else if s == "result_persisted" then Ok ResultPersisted
  else Err Store.

Lemma ToolExecutionPosition_codec :
  (∀ x, decode (encode x) = Ok x) ∧ (∀ s x, decode s = Ok x → encode x = s).
Proof. solve_codec decode. Qed.

End ToolPositions.
Notation ToolExecutionPosition := ToolPositions.ToolExecutionPosition (only parsing).

(** What recovery does with an interrupted call. *)
Module ToolDecisions.

Inductive ToolRecoveryDecision :=
  | ResumeAuthorization | StartEffect | RetrySameInvocation | Reconcile | RecoverResult
  | ContinueTurn | ManualReconciliation | OperatorAbandoned.

#[global] Instance ToolRecoveryDecision_eq_dec : EqDecision ToolRecoveryDecision.
Proof. solve_decision. Defined.

Definition encode (x : ToolRecoveryDecision) : string :=
  match x with
  | ResumeAuthorization => "resume_authorization"
  | StartEffect => "start_effect"
  | RetrySameInvocation => "retry_same_invocation"
  | Reconcile => "reconcile"
  | RecoverResult => "recover_result"
  | ContinueTurn => "continue_turn"
  | ManualReconciliation => "manual_reconciliation"
  | OperatorAbandoned => "operator_abandoned"
  end.

Definition decode (s : string) : res ToolRecoveryDecision SessionStoreError :=
  if s == "resume_authorization" then Ok ResumeAuthorization
  else if s == "start_effect" then Ok StartEffect
  else if s == "retry_same_invocation" then Ok RetrySameInvocation
  else if s == "reconcile" then Ok Reconcile
  else if s == "recover_result" then Ok RecoverResult
  else if s == "continue_turn" then Ok ContinueTurn
  else if s == "manual_reconciliation" then Ok ManualReconciliation
  else if s == "operator_abandoned" then Ok OperatorAbandoned
  else Err Store.

Lemma ToolRecoveryDecision_codec :
  (∀ x, decode (encode x) = Ok x) ∧ (∀ s x, decode s = Ok x → encode x = s).
Proof. solve_codec decode. Qed.

End ToolDecisions.
Notation ToolRecoveryDecision := ToolDecisions.ToolRecoveryDecision (only parsing).

(** Why. *)
Module ToolReasons.

Inductive ToolRecoveryReason :=
  | EffectNotStarted | SameIdentityReplayAllowed | ReconciliationRequired
  | ReconciliationConfirmedNoEffect | ReconciliationConfirmedRollback | ReconciliationUncertain
  | ReplayForbiddenAfterEffectStart | EffectAlreadyCommitted | ResultAlreadyPersisted
  | OperatorConfirmedNoEffect | OperatorAbandoned.

#[global] Instance ToolRecoveryReason_eq_dec : EqDecision ToolRecoveryReason.
Proof. solve_decision. Defined.

Definition encode (x : ToolRecoveryReason) : string :=
  match x with
  | EffectNotStarted => "effect_not_started"
  | SameIdentityReplayAllowed => "same_identity_replay_allowed"
  | ReconciliationRequired => "reconciliation_required"
  | ReconciliationConfirmedNoEffect => "reconciliation_confirmed_no_effect"
  | ReconciliationConfirmedRollback => "reconciliation_confirmed_rollback"
  | ReconciliationUncertain => "reconciliation_uncertain"
  | ReplayForbiddenAfterEffectStart => "replay_forbidden_after_effect_start"
  | EffectAlreadyCommitted => "effect_already_committed"
  | ResultAlreadyPersisted => "result_already_persisted"
  | OperatorConfirmedNoEffect => "operator_confirmed_no_effect"
  | OperatorAbandoned => "operator_abandoned"
  end.

Definition decode (s : string) : res ToolRecoveryReason SessionStoreError :=
  if s == "effect_not_started" then Ok EffectNotStarted
  else if s == "same_identity_replay_allowed" then Ok SameIdentityReplayAllowed
  else if s == "reconciliation_required" then Ok ReconciliationRequired
  else if s == "reconciliation_confirmed_no_effect" then Ok ReconciliationConfirmedNoEffect
  else if s == "reconciliation_confirmed_rollback" then Ok ReconciliationConfirmedRollback
  else if s == "reconciliation_uncertain" then Ok ReconciliationUncertain
  else if s == "replay_forbidden_after_effect_start" then Ok ReplayForbiddenAfterEffectStart
  else if s == "effect_already_committed" then Ok EffectAlreadyCommitted
  else if s == "result_already_persisted" then Ok ResultAlreadyPersisted
  else if s == "operator_confirmed_no_effect" then Ok OperatorConfirmedNoEffect
  else if s == "operator_abandoned" then Ok OperatorAbandoned
  else Err Store.

Lemma ToolRecoveryReason_codec :
  (∀ x, decode (encode x) = Ok x) ∧ (∀ s x, decode s = Ok x → encode x = s).
Proof. solve_codec decode. Qed.

End ToolReasons.
Notation ToolRecoveryReason := ToolReasons.ToolRecoveryReason (only parsing).

Record RecoveryClassification := {
  t_decision : ToolRecoveryDecision;
  t_reason : ToolRecoveryReason;
  t_operator_action_required : bool;
}.

(** [RecoveryClassification::reconciled] *)
Definition reconciled (decision : ToolRecoveryDecision) (reason : ToolRecoveryReason)
    (operator_action_required : bool) : RecoveryClassification := {|
  t_decision := decision; t_reason := reason;
  t_operator_action_required := operator_action_required |}.

(** [RecoveryClassification::for_interrupted] *)
Definition tool_recovery (position : ToolExecutionPosition) (policy : ToolRecoveryPolicy) :
    RecoveryClassification :=
  match position with
  | ToolPositions.Prepared =>
      reconciled ToolDecisions.ResumeAuthorization ToolReasons.EffectNotStarted false
  | ToolPositions.Authorized =>
      reconciled ToolDecisions.StartEffect ToolReasons.EffectNotStarted false
  | ToolPositions.EffectStarted =>
      match policy with
      | NeverReplay => reconciled ToolDecisions.ManualReconciliation
          ToolReasons.ReplayForbiddenAfterEffectStart true
      | RetryWithSameInvocation => reconciled ToolDecisions.RetrySameInvocation
          ToolReasons.SameIdentityReplayAllowed false
      | ReconcileBeforeRetry => reconciled ToolDecisions.Reconcile
          ToolReasons.ReconciliationRequired false
      end
  | ToolPositions.EffectCommitted =>
      reconciled ToolDecisions.ManualReconciliation ToolReasons.EffectAlreadyCommitted true
  | ToolPositions.ResultPersisted =>
      reconciled ToolDecisions.ContinueTurn ToolReasons.ResultAlreadyPersisted false
  end.

(** [recovery_policy_allows]: an effective policy may only be stricter. *)
Definition recovery_policy_allows (declared effective : ToolRecoveryPolicy) : bool :=
  (effective == NeverReplay) || (declared == effective).

(** The texts of [ToolInvocationClass] and [ToolRecoveryPolicy]. *)
Definition tool_invocation_class_str (c : ToolInvocationClass) : string :=
  match c with
  | InvocationClass.Read => "read"
  | InvocationClass.FilesystemMutation => "filesystem_mutation"
  | InvocationClass.Terminal => "terminal"
  | InvocationClass.Browser => "browser"
  | InvocationClass.HostControl => "host_control"
  | InvocationClass.ArbitraryMcp => "arbitrary_mcp"
  | InvocationClass.MemoryCandidate => "memory_candidate"
  | InvocationClass.Control => "control"
  | InvocationClass.Extension => "extension"
  end.

Definition decode_tool_invocation_class (s : string) : res ToolInvocationClass SessionStoreError :=
  if s == "read" then Ok InvocationClass.Read
  else if s == "filesystem_mutation" then Ok InvocationClass.FilesystemMutation
  else if s == "terminal" then Ok InvocationClass.Terminal
  else if s == "browser" then Ok InvocationClass.Browser
  else if s == "host_control" then Ok InvocationClass.HostControl
  else if s == "arbitrary_mcp" then Ok InvocationClass.ArbitraryMcp
  else if s == "memory_candidate" then Ok InvocationClass.MemoryCandidate
  else if s == "control" then Ok InvocationClass.Control
  else if s == "extension" then Ok InvocationClass.Extension
  else Err Store.

Definition tool_recovery_policy_str (p : ToolRecoveryPolicy) : string :=
  match p with
  | NeverReplay => "never_replay"
  | RetryWithSameInvocation => "retry_with_same_invocation"
  | ReconcileBeforeRetry => "reconcile_before_retry"
  end.

Definition decode_tool_recovery_policy (s : string) : res ToolRecoveryPolicy SessionStoreError :=
  if s == "never_replay" then Ok NeverReplay
  else if s == "retry_with_same_invocation" then Ok RetryWithSameInvocation
  else if s == "reconcile_before_retry" then Ok ReconcileBeforeRetry
  else Err Store.

Lemma invocation_class_codec :
  (∀ x, decode_tool_invocation_class (tool_invocation_class_str x) = Ok x) ∧
  (∀ s x, decode_tool_invocation_class s = Ok x → tool_invocation_class_str x = s).
Proof. solve_codec decode_tool_invocation_class. Qed.

Lemma recovery_policy_codec :
  (∀ x, decode_tool_recovery_policy (tool_recovery_policy_str x) = Ok x) ∧
  (∀ s x, decode_tool_recovery_policy s = Ok x → tool_recovery_policy_str x = s).
Proof. solve_codec decode_tool_recovery_policy. Qed.

(** * Model iterations (model_ledger.rs) *)

(** The last boundary that an iteration crossed. *)
Module ModelPositions.

Inductive ModelExecutionPosition :=
  | ModelStarted | ResponsePersisted | ToolsResolved.

#[global] Instance ModelExecutionPosition_eq_dec : EqDecision ModelExecutionPosition.
Proof. solve_decision. Defined.

Definition can_advance_to (p next : ModelExecutionPosition) : bool :=
  match p, next with
  | ModelStarted, ResponsePersisted | ResponsePersisted, ToolsResolved => true
  | _, _ => false
  end.

Definition encode (x : ModelExecutionPosition) : string :=
  match x with
  | ModelStarted => "model_started"
  | ResponsePersisted => "response_persisted"
  | ToolsResolved => "tools_resolved"
  end.

Definition decode (s : string) : res ModelExecutionPosition SessionStoreError :=
  if s == "model_started" then Ok ModelStarted
  else if s == "response_persisted" then Ok ResponsePersisted
  else if s == "tools_resolved" then Ok ToolsResolved
  else Err Store.

Lemma ModelExecutionPosition_codec :
  (∀ x, decode (encode x) = Ok x) ∧ (∀ s x, decode s = Ok x → encode x = s).
Proof. solve_codec decode. Qed.

End ModelPositions.
Notation ModelExecutionPosition := ModelPositions.ModelExecutionPosition (only parsing).

(** What recovery does with the last iteration of an interrupted turn. *)
Module ModelDecisions.

Inductive ModelRecoveryDecision :=
  | ManualReconciliation | RecoverTools | CompleteTurn | ContinueTurn | OperatorAbandoned.

#[global] Instance ModelRecoveryDecision_eq_dec : EqDecision ModelRecoveryDecision.
Proof. solve_decision. Defined.

Definition encode (x : ModelRecoveryDecision) : string :=
  match x with
  | ManualReconciliation => "manual_reconciliation"
  | RecoverTools => "recover_tools"
  | CompleteTurn => "complete_turn"
  | ContinueTurn => "continue_turn"
  | OperatorAbandoned => "operator_abandoned"
  end.

Definition decode (s : string) : res ModelRecoveryDecision SessionStoreError :=
  if s == "manual_reconciliation" then Ok ManualReconciliation
  else if s == "recover_tools" then Ok RecoverTools
  else if s == "complete_turn" then Ok CompleteTurn
  else if s == "continue_turn" then Ok ContinueTurn
  else if s == "operator_abandoned" then Ok OperatorAbandoned
  else Err Store.

Lemma ModelRecoveryDecision_codec :
  (∀ x, decode (encode x) = Ok x) ∧ (∀ s x, decode s = Ok x → encode x = s).
Proof. solve_codec decode. Qed.

End ModelDecisions.
Notation ModelRecoveryDecision := ModelDecisions.ModelRecoveryDecision (only parsing).

(** Why. *)
Module ModelReasons.

Inductive ModelRecoveryReason :=
  | ProviderOutcomeUnknown | DurableToolResponse | DurableTerminalResponse
  | ToolsAlreadyResolved | IncompleteDurableFacts | OperatorAbandoned.

#[global] Instance ModelRecoveryReason_eq_dec : EqDecision ModelRecoveryReason.
Proof. solve_decision. Defined.

Definition encode (x : ModelRecoveryReason) : string :=
  match x with
  | ProviderOutcomeUnknown => "provider_outcome_unknown"
  | DurableToolResponse => "durable_tool_response"
  | DurableTerminalResponse => "durable_terminal_response"
  | ToolsAlreadyResolved => "tools_already_resolved"
  | IncompleteDurableFacts => "incomplete_durable_facts"
  | OperatorAbandoned => "operator_abandoned"
  end.

Definition decode (s : string) : res ModelRecoveryReason SessionStoreError :=
  if s == "provider_outcome_unknown" then Ok ProviderOutcomeUnknown
  else if s == "durable_tool_response" then Ok DurableToolResponse
  else if s == "durable_terminal_response" then Ok DurableTerminalResponse
  else if s == "tools_already_resolved" then Ok ToolsAlreadyResolved
  else if s == "incomplete_durable_facts" then Ok IncompleteDurableFacts
  else if s == "operator_abandoned" then Ok OperatorAbandoned
  else Err Store.

Lemma ModelRecoveryReason_codec :
  (∀ x, decode (encode x) = Ok x) ∧ (∀ s x, decode s = Ok x → encode x = s).
Proof. solve_codec decode. Qed.

End ModelReasons.
Notation ModelRecoveryReason := ModelReasons.ModelRecoveryReason (only parsing).

Record ModelRecoveryClassification := {
  m_decision : ModelRecoveryDecision;
  m_reason : ModelRecoveryReason;
  m_operator_action_required : bool;
}.

(** [ModelRecoveryClassification::for_interrupted]: missing or contradictory facts
    need an operator. *)
Definition model_recovery (position : ModelExecutionPosition) (response_message_id : option Z)
    (response_terminal : option bool) : ModelRecoveryClassification :=
  match position, response_message_id, response_terminal with
  | ModelPositions.ModelStarted, None, None => {|
      m_decision := ModelDecisions.ManualReconciliation;
      m_reason := ModelReasons.ProviderOutcomeUnknown; m_operator_action_required := true |}
  | ModelPositions.ResponsePersisted, Some _, Some false => {|
      m_decision := ModelDecisions.RecoverTools;
      m_reason := ModelReasons.DurableToolResponse; m_operator_action_required := false |}
  | ModelPositions.ResponsePersisted, Some _, Some true => {|
      m_decision := ModelDecisions.CompleteTurn;
      m_reason := ModelReasons.DurableTerminalResponse; m_operator_action_required := false |}
  | ModelPositions.ToolsResolved, Some _, Some _ => {|
      m_decision := ModelDecisions.ContinueTurn;
      m_reason := ModelReasons.ToolsAlreadyResolved; m_operator_action_required := false |}
  | _, _, _ => {|
      m_decision := ModelDecisions.ManualReconciliation;
      m_reason := ModelReasons.IncompleteDurableFacts; m_operator_action_required := true |}
  end.

(** * Decisions of the moderator (recovery_action.rs) *)

(** What a moderator can decide about an uncertain effect. *)
Module Actions.

Inductive ExecutionRecoveryAction :=
  | AbandonTurn | ConfirmNoEffectAndRetry.

#[global] Instance ExecutionRecoveryAction_eq_dec : EqDecision ExecutionRecoveryAction.
Proof. solve_decision. Defined.

Definition encode (x : ExecutionRecoveryAction) : string :=
  match x with
  | AbandonTurn => "abandon_turn"
  | ConfirmNoEffectAndRetry => "confirm_no_effect_and_retry"
  end.

Definition decode (s : string) : res ExecutionRecoveryAction SessionStoreError :=
  if s == "abandon_turn" then Ok AbandonTurn
  else if s == "confirm_no_effect_and_retry" then Ok ConfirmNoEffectAndRetry
  else Err Store.

Lemma ExecutionRecoveryAction_codec :
  (∀ x, decode (encode x) = Ok x) ∧ (∀ s x, decode s = Ok x → encode x = s).
Proof. solve_codec decode. Qed.

End Actions.
Notation ExecutionRecoveryAction := Actions.ExecutionRecoveryAction (only parsing).

Inductive ExecutionRecoveryActionTarget :=
  | TargetModel (invocation_id : string)
  | TargetTool (invocation_id : string).

#[global] Instance ExecutionRecoveryActionTarget_eq_dec : EqDecision ExecutionRecoveryActionTarget.
Proof. solve_decision. Defined.

(** [ExecutionRecoveryActionTarget::invocation_id] and [::kind] *)
Definition target_invocation (t : ExecutionRecoveryActionTarget) : string :=
  match t with TargetModel i | TargetTool i => i end.
Definition target_kind (t : ExecutionRecoveryActionTarget) : string :=
  match t with TargetModel _ => "model" | TargetTool _ => "tool" end.

(** The target that [load_execution_recovery_action] reads from the two columns. *)
Definition decode_target (kind invocation_id : string) :
    res ExecutionRecoveryActionTarget SessionStoreError :=
  if kind == "model" then Ok (TargetModel invocation_id)
  else if kind == "tool" then Ok (TargetTool invocation_id)
  else Err Store.
