(* ===== verification/SessionTables.v ===== *)
(** The tables of the session store: src/sylvander-runtime/src/storage/session/mod.rs
    and the schema of src/sylvander-runtime/src/storage/session/sqlite.rs.

    Around the tables of [InstanceStore]: the columns of [sessions] and of
    [session_messages] that it does not read, and the ledgers of turns, model
    iterations and tool calls.  A row is its decoded snapshot; the texts of its
    states are in [Ledger].  Contents are JSON texts. *)

From S2P Require Import Prelude Instance Store Ledger ToolContract ToolInvocation.
From S2P Require Import WorkspaceStore InstanceStore.
From stdpp Require Import base tactics gmap strings list sorting.
From Stdlib Require Import ZArith Lia.

(** * Callers and messages *)

(** [SessionContext]: the identity and the request columns that are stored. *)
Record SessionContext := {
  ctx_user_id : string;
  ctx_agent_id : AgentId;
  ctx_agent_instance_id : option AgentInstanceId;
  ctx_trace_id : option string;
  ctx_priority : Priority;
}.

Record StoredMessage := {
  sm_id : Z;
  sm_session_id : SessionId;
  sm_user_id : string;
  sm_agent_id : AgentId;
  sm_agent_instance_id : option AgentInstanceId;
  sm_trace_id : option string;
  sm_priority : option Priority;
  sm_seq : Z;
  sm_role : MessageRole;
  sm_content : string;
  sm_model_id : option string;
  sm_tool_name : option string;
  sm_parent_msg_id : option Z;
  sm_is_summarized : bool;
  sm_created_at : Z;
}.

(** * Turns *)

Record TurnSnapshot := {
  tn_session_id : SessionId;
  tn_turn_id : string;
  tn_agent_instance_id : AgentInstanceId;
  tn_config_revision : Z;
  tn_effective_config : SessionEffectiveConfig;
  tn_created_at : Z;
  tn_state : TurnState;
  tn_ended_at : option Z;
  tn_failure_kind : option TurnFailureKind;
}.

Record TurnStart := {
  ts_session_id : SessionId;
  ts_turn_id : string;
  ts_agent_instance_id : AgentInstanceId;
  ts_config_revision : Z;
  ts_effective_config : SessionEffectiveConfig;
  ts_user_content : string;
  ts_model_id : string;
}.

Record TurnCompletion := {
  tc_session_id : SessionId;
  tc_turn_id : string;
  tc_assistant_content : string;
  tc_model_id : string;
}.

Record PersistedTurnCompletion := {
  pc_invocation_id : string;
  pc_expected_revision : Z;
}.

(** * Model iterations *)

Record ModelIterationStart := {
  mi_session_id : SessionId;
  mi_turn_id : string;
  mi_iteration : Z;
  mi_invocation_id : string;
  mi_model_id : string;
  mi_capability_revision : string;
  mi_request_digest : string;
}.

Record ModelIterationAdvance := {
  ma_invocation_id : string;
  ma_expected_revision : Z;
  ma_expected_position : ModelExecutionPosition;
  ma_next_position : ModelExecutionPosition;
}.

Record ModelResponsePersistence := {
  mp_invocation_id : string;
  mp_expected_revision : Z;
  mp_assistant_content : string;
  mp_model_id : string;
  mp_terminal : bool;
}.

Record ModelResponseCommit := {
  mc_message : StoredMessage;
  mc_ledger_revision : Z;
}.

Record ModelIterationSnapshot := {
  it_session_id : SessionId;
  it_turn_id : string;
  it_iteration : Z;
  it_invocation_id : string;
  it_model_id : string;
  it_capability_revision : string;
  it_request_digest : string;
  it_position : ModelExecutionPosition;
  it_ledger_revision : Z;
  it_response_message_id : option Z;
  it_response_terminal : option bool;
  it_started_at : Z;
  it_updated_at : Z;
  it_recovery_decision : option ModelRecoveryDecision;
  it_recovery_reason : option ModelRecoveryReason;
  it_operator_action_required : bool;
  it_recovery_attempts : Z;
  it_recovery_owner : option string;
  it_recovery_lease_expires_at : option Z;
  it_first_interrupted_at : option Z;
}.

Record ModelRecoveryWrite := {
  mw_invocation_id : string;
  mw_expected_revision : Z;
  mw_recovery_owner : string;
  mw_observed_at : Z;
  mw_lease_expires_at : Z;
  mw_classification : ModelRecoveryClassification;
}.

(** * Tool calls *)

Record ToolCallStart := {
  cs_session_id : SessionId;
  cs_turn_id : string;
  cs_call_id : string;
  cs_invocation_id : string;
  cs_tool_name : string;
  cs_invocation_class : option ToolInvocationClass;
  cs_declared_recovery_policy : ToolRecoveryPolicy;
  cs_effective_recovery_policy : ToolRecoveryPolicy;
  cs_capability_revision : string;
  cs_input_digest : string;
}.

Record ToolCallAdvance := {
  ca_session_id : SessionId;
  ca_turn_id : string;
  ca_call_id : string;
  ca_expected_revision : Z;
  ca_expected_position : ToolExecutionPosition;
  ca_next_position : ToolExecutionPosition;
}.

Record ToolCallCompletion := {
  cc_session_id : SessionId;
  cc_turn_id : string;
  cc_call_id : string;
  cc_state : ToolCallState;
  cc_failure_kind : option ToolCallFailureKind;
}.

Record ToolCallSnapshot := {
  tl_session_id : SessionId;
  tl_turn_id : string;
  tl_call_id : string;
  tl_invocation_id : string;
  tl_tool_name : string;
  tl_invocation_class : option ToolInvocationClass;
  tl_declared_recovery_policy : ToolRecoveryPolicy;
  tl_effective_recovery_policy : ToolRecoveryPolicy;
  tl_capability_revision : string;
  tl_input_digest : string;
  tl_position : ToolExecutionPosition;
  tl_ledger_revision : Z;
  tl_started_at : Z;
  tl_updated_at : Z;
  tl_state : ToolCallState;
  tl_ended_at : option Z;
  tl_failure_kind : option ToolCallFailureKind;
  tl_recovery_decision : option ToolRecoveryDecision;
  tl_recovery_reason : option ToolRecoveryReason;
  tl_operator_action_required : bool;
  tl_recovery_attempts : Z;
  tl_recovery_owner : option string;
  tl_recovery_lease_expires_at : option Z;
  tl_first_interrupted_at : option Z;
}.

Record ToolRecoveryWrite := {
  tw_invocation_id : string;
  tw_expected_revision : Z;
  tw_recovery_owner : string;
  tw_observed_at : Z;
  tw_lease_expires_at : Z;
  tw_classification : RecoveryClassification;
}.

Record ToolResultPersistence := {
  tr_session_id : SessionId;
  tr_turn_id : string;
  tr_call_id : string;
  tr_expected_revision : Z;
  tr_expected_position : ToolExecutionPosition;
  tr_content : string;
  tr_tool_name : string;
  tr_terminal_state : ToolCallState;
  tr_failure_kind : option ToolCallFailureKind;
}.

(** * Recovery actions (recovery_action.rs) *)

Record ExecutionRecoveryActionWrite := {
  aw_action_id : string;
  aw_session_id : SessionId;
  aw_turn_id : string;
  aw_target : ExecutionRecoveryActionTarget;
  aw_expected_ledger_revision : Z;
  aw_action : ExecutionRecoveryAction;
  aw_resolved_by : AgentInstanceId;
  aw_rationale_digest : string;
  aw_observed_at : Z;
  aw_lease_expires_at : Z;
}.

Record ExecutionRecoveryActionReceipt := {
  ar_action_id : string;
  ar_session_id : SessionId;
  ar_turn_id : string;
  ar_target : ExecutionRecoveryActionTarget;
  ar_action : ExecutionRecoveryAction;
  ar_resolved_by : AgentInstanceId;
  ar_expected_ledger_revision : Z;
  ar_outcome_ledger_revision : Z;
  ar_rationale_digest : string;
  ar_recorded_at : Z;
}.

(** * The database *)

Notation TurnKey := (SessionId * string)%type (only parsing).

(** The columns [id] and [parent_msg_id] of a row of [lines]. *)
Record line_key := { row_id : Z; parent_msg_id : option Z }.

(** [session_usage] *)
Record usage_row := {
  u_iterations : Z;
  u_input_tokens : Z;
  u_output_tokens : Z;
  u_cost_nano_usd : Z;
  u_cost_complete : Z;
}.

Record tdb := {
  sd : sdb;
  row_keys : gmap (SessionId * Z) line_key;
  last_row_id : Z;
  session_turns : gmap TurnKey TurnSnapshot;
  iterations : gmap (TurnKey * Z) ModelIterationSnapshot;
  tool_calls : gmap (TurnKey * string) ToolCallSnapshot;
  recovery_actions : gmap string ExecutionRecoveryActionReceipt;
  usages : gmap SessionId usage_row;
}.

Notation ttx A := (res (A * tdb) SessionStoreError).

Definition set_sd (d : tdb) x : tdb :=
  {| sd := x; row_keys := row_keys d; last_row_id := last_row_id d;
     session_turns := session_turns d; iterations := iterations d; tool_calls := tool_calls d;
     recovery_actions := recovery_actions d; usages := usages d |}.
Definition set_row_keys (d : tdb) x last : tdb :=
  {| sd := sd d; row_keys := x; last_row_id := last;
     session_turns := session_turns d; iterations := iterations d; tool_calls := tool_calls d;
     recovery_actions := recovery_actions d; usages := usages d |}.
Definition set_session_turns (d : tdb) x : tdb :=
  {| sd := sd d; row_keys := row_keys d; last_row_id := last_row_id d;
     session_turns := x; iterations := iterations d; tool_calls := tool_calls d;
     recovery_actions := recovery_actions d; usages := usages d |}.
Definition set_iterations (d : tdb) x : tdb :=
  {| sd := sd d; row_keys := row_keys d; last_row_id := last_row_id d;
     session_turns := session_turns d; iterations := x; tool_calls := tool_calls d;
     recovery_actions := recovery_actions d; usages := usages d |}.
Definition set_tool_calls (d : tdb) x : tdb :=
  {| sd := sd d; row_keys := row_keys d; last_row_id := last_row_id d;
     session_turns := session_turns d; iterations := iterations d; tool_calls := x;
     recovery_actions := recovery_actions d; usages := usages d |}.
Definition set_recovery_actions (d : tdb) x : tdb :=
  {| sd := sd d; row_keys := row_keys d; last_row_id := last_row_id d;
     session_turns := session_turns d; iterations := iterations d; tool_calls := tool_calls d;
     recovery_actions := x; usages := usages d |}.
Definition set_usages (d : tdb) x : tdb :=
  {| sd := sd d; row_keys := row_keys d; last_row_id := last_row_id d;
     session_turns := session_turns d; iterations := iterations d; tool_calls := tool_calls d;
     recovery_actions := recovery_actions d; usages := x |}.

(** * Messages of the history *)

(** [row_to_message] *)
Definition row_to_message (session : SessionId) (seq : Z) (k : line_key) (l : line) :
    res StoredMessage SessionStoreError :=
  let c := l_content l in
  role <- MessageRoles.decode (l_role c);;
  prio <- match priority c with
          | Some p => x <- Priorities.decode p;; Ok (Some x)
          | None => Ok None
          end;;
  Ok {| sm_id := row_id k; sm_session_id := session; sm_user_id := user_id c;
        sm_agent_id := l_agent_id c; sm_agent_instance_id := l_agent_instance_id l;
        sm_trace_id := trace_id c; sm_priority := prio;
        sm_seq := if (0 <=? seq)%Z && (seq <=? u32_max)%Z then seq else u32_max;
        sm_role := role; sm_content := content_json c; sm_model_id := model_id c;
        sm_tool_name := tool_name c; sm_parent_msg_id := parent_msg_id k;
        sm_is_summarized := is_summarized l; sm_created_at := l_created_at c |}.

(** The columns of a message that is written for a caller. *)
Definition written_line (ctx : SessionContext) (role : MessageRole) (content : string)
    (model tool : option string) (now : Z) : line := {|
  l_agent_instance_id := ctx_agent_instance_id ctx; is_summarized := false;
  l_content := {|
    l_role := MessageRoles.encode role; content_json := content; user_id := ctx_user_id ctx;
    l_agent_id := ctx_agent_id ctx; trace_id := ctx_trace_id ctx;
    priority := Some (Priorities.encode (ctx_priority ctx)); model_id := model;
    tool_name := tool; l_created_at := now |} |}.

(** [INSERT INTO session_messages]: the key, the three foreign keys and the row id
    of [AUTOINCREMENT]. *)
Definition insert_message (d : tdb) (session : SessionId) (seq : Z) (l : line)
    (parent : option Z) : ttx Z :=
  let s := sd d in
  bail Workspace.is_some (lines s !! (session, seq)) with Store;;
  bail negb (Workspace.is_some (sessions s !! session)) with Store;;
  bail match l_agent_instance_id l with
       | Some i => negb (has_instance (base s) session i)
       | None => false
       end with Store;;
  bail match parent with
       | Some p => negb (existsb (λ k, (row_id k =? p)%Z) (map_to_list (row_keys d)).*2)
       | None => false
       end with Store;;
  id <- ok_or (checked_add i64_max (last_row_id d) 1) Store;;
  Ok (id, set_row_keys (set_sd d (set_lines s (<[(session, seq) := l]> (lines s))))
            (<[(session, seq) := {| row_id := id; parent_msg_id := parent |}]> (row_keys d)) id).

(** [SELECT COALESCE(MAX(seq), -1) + 1] *)
Definition next_seq (d : tdb) (session : SessionId) : res Z SessionStoreError :=
  next_sequence (session_sequences (sd d) session) 0.

(** [UPDATE sessions SET updated_at] *)
Definition touch_session (d : tdb) (session : SessionId) (now : Z) : tdb :=
  set_sd d (set_sessions (sd d) (alter (λ r, {|
    is_archived := is_archived r; s_config_revision := s_config_revision r;
    s_effective_config := s_effective_config r; s_user_id := s_user_id r; s_updated_at := now |}) session
    (sessions (sd d)))).

(** The message that a caller gets for the row it has written; the sequence has
    to fit 32 bits, which is checked after the commit. *)
Definition stored_message (ctx : SessionContext) (id : Z) (session : SessionId) (seq : Z)
    (role : MessageRole) (content : string) (model : option string) (now : Z) :
    res StoredMessage SessionStoreError :=
  bail negb ((0 <=? seq)%Z && (seq <=? u32_max)%Z) with Store;;
  Ok {| sm_id := id; sm_session_id := session; sm_user_id := ctx_user_id ctx;
        sm_agent_id := ctx_agent_id ctx; sm_agent_instance_id := ctx_agent_instance_id ctx;
        sm_trace_id := ctx_trace_id ctx; sm_priority := Some (ctx_priority ctx); sm_seq := seq;
        sm_role := role; sm_content := content; sm_model_id := model; sm_tool_name := None;
        sm_parent_msg_id := None; sm_is_summarized := false; sm_created_at := now |}.
