(* ===== verification/TurnStore.v ===== *)
(** The store of turns: [begin_turn] to [classify_model_recovery] of
    [impl SessionStore for SqliteSessionStore],
    src/sylvander-runtime/src/storage/session/sqlite.rs.

    An operation is one transaction over [tdb], with the clock it reads as [now].
    A result that is made after the commit and can fail is a [res] of its own. *)

From S2P Require Import Prelude Graph Instance Store Ledger ToolContract ToolInvocation.
From S2P Require Import WorkspaceStore InstanceStore SessionTables.
From stdpp Require Import base tactics gmap strings list sorting.
From Stdlib Require Import ZArith Lia.

Definition is_digest (s : string) : bool := String.prefix "sha256:" s.

(** * Turns *)

(** The states of an instance that can start no turn. *)
Definition unavailable (s : AgentInstanceState) : bool :=
  match s with
  | InstanceState.Completed | InstanceState.Failed | InstanceState.Cancelled
  | InstanceState.ManualReconciliation => true
  | _ => false
  end.

(** [c.state='running'] *)
Definition call_running (c : ToolCallSnapshot) : bool := tl_state c == CallStates.Running.

(** A running call of a turn. *)
Definition has_running_call (d : tdb) (session : SessionId) (turn : string) : bool :=
  existsb (λ kc, (kc.1.1 == (session, turn)) && call_running kc.2) (map_to_list (tool_calls d)).

(** A running call of any turn of an instance. *)
Definition unresolved_effect (d : tdb) (session : SessionId) (i : AgentInstanceId) : bool :=
  existsb (λ kc, (kc.1.1.1 == session) && call_running kc.2 &&
    match session_turns d !! kc.1.1 with
    | Some t => tn_agent_instance_id t == i
    | None => false
    end) (map_to_list (tool_calls d)).

Definition turn_running (t : TurnSnapshot) : bool := tn_state t == TurnStates.Running.

(** A running turn of an instance, which the index
    [idx_running_turn_per_agent_instance] admits once. *)
Definition instance_runs (d : tdb) (session : SessionId) (i : AgentInstanceId) : bool :=
  existsb (λ kt, (kt.1.1 == session) && turn_running kt.2 && (tn_agent_instance_id kt.2 == i))
    (map_to_list (session_turns d)).

(** The configuration that a turn has to be started with. *)
Definition turn_config (d : tdb) (session : SessionId) (i : AgentInstanceId) :
    option AgentInstanceConfig :=
  match sessions (sd d) !! session with
  | Some row => if is_archived row then None else configs (sd d) !! (session, i)
  | None => None
  end.

(** [begin_turn] *)
Definition begin_turn (d : tdb) (ctx : SessionContext) (start : TurnStart) (now : Z) :
    ttx (res StoredMessage SessionStoreError) :=
  let session := ts_session_id start in
  let i := ts_agent_instance_id start in
  bail trim_is_empty (ts_turn_id start) with Invalid;;
  _ <- checked_i64 (ts_config_revision start);;
  bail (ctx_agent_instance_id ctx != Some i)
       || (ctx_agent_id ctx != ec_agent_id (ts_effective_config start)) with Invalid;;
  stored <- ok_or (turn_config d session i) Invalid;;
  bail negb (config_revision stored =? ts_config_revision start)%Z
    with ConfigConflict (ts_config_revision start) (config_revision stored);;
  bail effective stored != ts_effective_config start with Invalid;;
  instance <- ok_or (load_agent_instance (sd d) session i) Invalid;;
  bail (agent_id (definition instance) != ec_agent_id (ts_effective_config start))
       || unavailable (ai_state instance) with Invalid;;
  bail unresolved_effect d session i with Invalid;;
  bail Workspace.is_some (session_turns d !! (session, ts_turn_id start))
       || instance_runs d session i with Store;;
  let d := set_session_turns d (<[(session, ts_turn_id start) := {|
    tn_session_id := session; tn_turn_id := ts_turn_id start; tn_agent_instance_id := i;
    tn_config_revision := ts_config_revision start;
    tn_effective_config := ts_effective_config start; tn_created_at := now;
    tn_state := TurnStates.Running; tn_ended_at := None; tn_failure_kind := None |}]>
    (session_turns d)) in
  seq <- next_seq d session;;
  inserted <- insert_message d session seq
    (written_line ctx MessageRoles.User (ts_user_content start) (Some (ts_model_id start)) None now)
    None;;
  let '(id, d) := inserted in
  Ok (stored_message ctx id session seq MessageRoles.User (ts_user_content start)
        (Some (ts_model_id start)) now, touch_session d session now).

(** [turn] *)
Definition turn (d : tdb) (session : SessionId) (id : string) : option TurnSnapshot :=
  session_turns d !! (session, id).

(** [UPDATE session_turns SET state, ended_at, failure_kind] *)
Definition end_turn (state : TurnState) (kind : option TurnFailureKind) (now : Z)
    (t : TurnSnapshot) : TurnSnapshot := {|
  tn_session_id := tn_session_id t; tn_turn_id := tn_turn_id t;
  tn_agent_instance_id := tn_agent_instance_id t; tn_config_revision := tn_config_revision t;
  tn_effective_config := tn_effective_config t; tn_created_at := tn_created_at t;
  tn_state := state; tn_ended_at := Some now; tn_failure_kind := kind |}.

(** [complete_turn] *)
Definition complete_turn (d : tdb) (ctx : SessionContext) (c : TurnCompletion) (now : Z) :
    ttx (res StoredMessage SessionStoreError) :=
  let session := tc_session_id c in
  t <- ok_or (turn d session (tc_turn_id c)) Invalid;;
  bail negb (turn_running t) with Invalid;;
  bail ctx_agent_instance_id ctx != Some (tn_agent_instance_id t) with Invalid;;
  bail has_running_call d session (tc_turn_id c) with Invalid;;
  seq <- next_seq d session;;
  inserted <- insert_message d session seq
    (written_line ctx MessageRoles.Assistant (tc_assistant_content c) (Some (tc_model_id c)) None now)
    None;;
  let '(id, d) := inserted in
  let d := set_session_turns d (<[(session, tc_turn_id c) :=
    end_turn TurnStates.Completed (tn_failure_kind t) now t]> (session_turns d)) in
  Ok (stored_message ctx id session seq MessageRoles.Assistant (tc_assistant_content c)
        (Some (tc_model_id c)) now, touch_session d session now).

(** [state = 'abandoned', ended_at] *)
Definition abandon_call (now : Z) (c : ToolCallSnapshot) : ToolCallSnapshot := {|
  tl_session_id := tl_session_id c; tl_turn_id := tl_turn_id c; tl_call_id := tl_call_id c;
  tl_invocation_id := tl_invocation_id c; tl_tool_name := tl_tool_name c;
  tl_invocation_class := tl_invocation_class c;
  tl_declared_recovery_policy := tl_declared_recovery_policy c;
  tl_effective_recovery_policy := tl_effective_recovery_policy c;
  tl_capability_revision := tl_capability_revision c; tl_input_digest := tl_input_digest c;
  tl_position := tl_position c; tl_ledger_revision := tl_ledger_revision c;
  tl_started_at := tl_started_at c; tl_updated_at := tl_updated_at c;
  tl_state := CallStates.Abandoned; tl_ended_at := Some now;
  tl_failure_kind := tl_failure_kind c; tl_recovery_decision := tl_recovery_decision c;
  tl_recovery_reason := tl_recovery_reason c;
  tl_operator_action_required := tl_operator_action_required c;
  tl_recovery_attempts := tl_recovery_attempts c; tl_recovery_owner := tl_recovery_owner c;
  tl_recovery_lease_expires_at := tl_recovery_lease_expires_at c;
  tl_first_interrupted_at := tl_first_interrupted_at c |}.

(** [position IN ('prepared','authorized')] *)
Definition before_effect (c : ToolCallSnapshot) : bool :=
  (tl_position c == ToolPositions.Prepared) || (tl_position c == ToolPositions.Authorized).

Definition abandon_idle_calls (session : SessionId) (turn : string) (now : Z)
    (calls : gmap (TurnKey * string) ToolCallSnapshot) : gmap (TurnKey * string) ToolCallSnapshot :=
  map_imap (λ k c, Some (if (k.1 == (session, turn)) && call_running c && before_effect c
                         then abandon_call now c else c)) calls.

(** [finish_turn] *)
Definition finish_turn (d : tdb) (session : SessionId) (id : string) (state : TurnState)
    (kind : option TurnFailureKind) (now : Z) : ttx unit :=
  bail negb match state, kind with
            | TurnStates.Failed, Some _ | TurnStates.Interrupted, None => true
            | _, _ => false
            end with Invalid;;
  t <- ok_or (turn d session id) Invalid;;
  bail negb (turn_running t) with Invalid;;
  let d := set_session_turns d (<[(session, id) := end_turn state kind now t]> (session_turns d)) in
  Ok (tt, set_tool_calls d (abandon_idle_calls session id now (tool_calls d))).

(** * Model iterations *)

(** The row with an invocation id, of which the schema admits one. *)
Definition find_iteration (d : tdb) (invocation : string) :
    option (TurnKey * Z * ModelIterationSnapshot) :=
  list_find (λ kr, it_invocation_id kr.2 = invocation) (map_to_list (iterations d)) ≫= λ x, Some x.2.

(** [ORDER BY iteration DESC LIMIT 1] *)
Definition turn_iterations (d : tdb) (key : TurnKey) : list ModelIterationSnapshot :=
  (filter (λ kr, kr.1.1 = key) (map_to_list (iterations d))).*2.

Definition later (r r' : ModelIterationSnapshot) : ModelIterationSnapshot :=
  if (it_iteration r' <? it_iteration r)%Z then r else r'.

Definition last_iteration (d : tdb) (key : TurnKey) : option ModelIterationSnapshot :=
  match turn_iterations d key with
  | [] => None
  | r :: rs => Some (foldr later r rs)
  end.

(** [begin_model_iteration] *)
Definition begin_model_iteration (d : tdb) (s : ModelIterationStart) (now : Z) : ttx unit :=
  bail trim_is_empty (mi_turn_id s) || (mi_iteration s =? 0)%Z || trim_is_empty (mi_model_id s)
       || negb (is_digest (mi_capability_revision s)) || negb (is_digest (mi_request_digest s))
    with Invalid;;
  let key := (mi_session_id s, mi_turn_id s) in
  bail match session_turns d !! key with Some t => negb (turn_running t) | None => true end
    with Invalid;;
  let previous := last_iteration d key in
  bail negb (mi_iteration s =? match previous with
                               | Some r => it_iteration r + 1
                               | None => 1
                               end)%Z
       || match previous with
          | Some r => it_position r != ModelPositions.ToolsResolved
          | None => false
          end with Invalid;;
  bail Workspace.is_some (find_iteration d (mi_invocation_id s)) with Invalid;;
  Ok (tt, set_iterations d (<[(key, mi_iteration s) := {|
    it_session_id := mi_session_id s; it_turn_id := mi_turn_id s; it_iteration := mi_iteration s;
    it_invocation_id := mi_invocation_id s; it_model_id := mi_model_id s;
    it_capability_revision := mi_capability_revision s; it_request_digest := mi_request_digest s;
    it_position := ModelPositions.ModelStarted; it_ledger_revision := 0;
    it_response_message_id := None; it_response_terminal := None; it_started_at := now;
    it_updated_at := now; it_recovery_decision := None; it_recovery_reason := None;
    it_operator_action_required := false; it_recovery_attempts := 0; it_recovery_owner := None;
    it_recovery_lease_expires_at := None; it_first_interrupted_at := None |}]> (iterations d))).

(** [UPDATE session_turn_iterations SET position, ledger_revision, response, updated_at] *)
Definition put_iteration (r : ModelIterationSnapshot) (position : ModelExecutionPosition)
    (revision : Z) (message : option Z) (terminal : option bool) (now : Z) :
    ModelIterationSnapshot := {|
  it_session_id := it_session_id r; it_turn_id := it_turn_id r; it_iteration := it_iteration r;
  it_invocation_id := it_invocation_id r; it_model_id := it_model_id r;
  it_capability_revision := it_capability_revision r; it_request_digest := it_request_digest r;
  it_position := position; it_ledger_revision := revision; it_response_message_id := message;
  it_response_terminal := terminal; it_started_at := it_started_at r; it_updated_at := now;
  it_recovery_decision := it_recovery_decision r; it_recovery_reason := it_recovery_reason r;
  it_operator_action_required := it_operator_action_required r;
  it_recovery_attempts := it_recovery_attempts r; it_recovery_owner := it_recovery_owner r;
  it_recovery_lease_expires_at := it_recovery_lease_expires_at r;
  it_first_interrupted_at := it_first_interrupted_at r |}.

(** The turn of an invocation, if it runs. *)
Definition running_turn_of (d : tdb) (r : ModelIterationSnapshot) : option TurnSnapshot :=
  match session_turns d !! (it_session_id r, it_turn_id r) with
  | Some t => if turn_running t then Some t else None
  | None => None
  end.

(** [persist_model_response] *)
Definition persist_model_response (d : tdb) (ctx : SessionContext) (p : ModelResponsePersistence)
    (now : Z) : ttx (res ModelResponseCommit SessionStoreError) :=
  found <- ok_or (find_iteration d (mp_invocation_id p)) Invalid;;
  let '(key, r) := found in
  t <- ok_or (running_turn_of d r) Invalid;;
  let session := it_session_id r in
  seq <- next_seq d session;;
  bail ctx_agent_instance_id ctx != Some (tn_agent_instance_id t) with Invalid;;
  bail mp_model_id p != it_model_id r with Invalid;;
  _ <- checked_i64 (mp_expected_revision p);;
  bail negb (it_ledger_revision r =? mp_expected_revision p)%Z
       || (it_position r != ModelPositions.ModelStarted) with Invalid;;
  inserted <- insert_message d session seq
    (written_line ctx MessageRoles.Assistant (mp_assistant_content p) (Some (mp_model_id p)) None now)
    None;;
  let '(id, d) := inserted in
  let d := set_iterations d (<[key := put_iteration r ModelPositions.ResponsePersisted
    (it_ledger_revision r + 1) (Some id) (Some (mp_terminal p)) now]> (iterations d)) in
  Ok (m <- stored_message ctx id session seq MessageRoles.Assistant (mp_assistant_content p)
             (Some (mp_model_id p)) now;;
      Ok {| mc_message := m; mc_ledger_revision := mp_expected_revision p + 1 |}, d).

(** [advance_model_iteration]; a position past [ModelStarted] has a response. *)
Definition advance_model_iteration (d : tdb) (a : ModelIterationAdvance) (now : Z) : ttx Z :=
  bail negb (ModelPositions.can_advance_to (ma_expected_position a) (ma_next_position a))
    with Invalid;;
  _ <- checked_i64 (ma_expected_revision a);;
  next <- next_u64 (ma_expected_revision a);;
  found <- ok_or (find_iteration d (ma_invocation_id a)) Invalid;;
  let '(key, r) := found in
  bail (it_position r != ma_expected_position a)
       || negb (it_ledger_revision r =? ma_expected_revision a)%Z
       || has_running_call d (it_session_id r) (it_turn_id r) with Invalid;;
  bail negb (Workspace.is_some (it_response_message_id r))
       || negb (Workspace.is_some (it_response_terminal r)) with Store;;
  Ok (next, set_iterations d (<[key := put_iteration r (ma_next_position a)
    (it_ledger_revision r + 1) (it_response_message_id r) (it_response_terminal r) now]>
    (iterations d))).

(** The row of a message with its key. *)
Definition find_message (d : tdb) (id : Z) : option (SessionId * Z * line_key * line) :=
  match list_find (λ kv, row_id kv.2 = id) (map_to_list (row_keys d)) with
  | Some (_, (key, k)) => (λ l, (key, k, l)) <$> lines (sd d) !! key
  | None => None
  end.

(** [complete_persisted_turn] *)
Definition complete_persisted_turn (d : tdb) (c : PersistedTurnCompletion) (now : Z) :
    ttx StoredMessage :=
  _ <- checked_i64 (pc_expected_revision c);;
  found <- ok_or (find_iteration d (pc_invocation_id c)) Invalid;;
  let '(key, r) := found in
  bail (it_position r != ModelPositions.ResponsePersisted)
       || negb (it_ledger_revision r =? pc_expected_revision c)%Z
       || (it_response_terminal r != Some true)
       || negb (Workspace.is_some (running_turn_of d r))
       || has_running_call d (it_session_id r) (it_turn_id r) with Invalid;;
  row <- ok_or (it_response_message_id r ≫= find_message d) Invalid;;
  let '(k, lk, l) := row in
  message <- row_to_message k.1 k.2 lk l;;
  let d := set_iterations d (<[key := put_iteration r ModelPositions.ToolsResolved
    (it_ledger_revision r + 1) (it_response_message_id r) (it_response_terminal r) now]>
    (iterations d)) in
  t <- ok_or (turn d (sm_session_id message) (it_turn_id r)) Invalid;;
  bail negb (turn_running t) with Invalid;;
  let d := set_session_turns d (<[(sm_session_id message, it_turn_id r) :=
    end_turn TurnStates.Completed (tn_failure_kind t) now t]> (session_turns d)) in
  Ok (message, touch_session d (sm_session_id message) now).

(** [classify_model_recovery] *)
Definition classify_model_recovery (d : tdb) (w : ModelRecoveryWrite) : ttx Z :=
  bail trim_is_empty (mw_recovery_owner w) || (mw_lease_expires_at w <=? mw_observed_at w)%Z
    with Invalid;;
  _ <- checked_i64 (mw_expected_revision w);;
  next <- next_u64 (mw_expected_revision w);;
  found <- ok_or (find_iteration d (mw_invocation_id w)) Invalid;;
  let '(key, r) := found in
  bail negb (it_ledger_revision r =? mw_expected_revision w)%Z
       || negb (match it_recovery_lease_expires_at r with
                | Some expires => (expires <=? mw_observed_at w)%Z
                | None => true
                end || (it_recovery_owner r == Some (mw_recovery_owner w))) with Invalid;;
  Ok (next, set_iterations d (<[key := {|
    it_session_id := it_session_id r; it_turn_id := it_turn_id r; it_iteration := it_iteration r;
    it_invocation_id := it_invocation_id r; it_model_id := it_model_id r;
    it_capability_revision := it_capability_revision r; it_request_digest := it_request_digest r;
    it_position := it_position r; it_ledger_revision := it_ledger_revision r + 1;
    it_response_message_id := it_response_message_id r;
    it_response_terminal := it_response_terminal r; it_started_at := it_started_at r;
    it_updated_at := mw_observed_at w;
    it_recovery_decision := Some (m_decision (mw_classification w));
    it_recovery_reason := Some (m_reason (mw_classification w));
    it_operator_action_required := m_operator_action_required (mw_classification w);
    it_recovery_attempts := it_recovery_attempts r + 1;
    it_recovery_owner := Some (mw_recovery_owner w);
    it_recovery_lease_expires_at := Some (mw_lease_expires_at w);
    it_first_interrupted_at := Some (default (mw_observed_at w) (it_first_interrupted_at r)) |}]>
    (iterations d))).

(** ** Reading the iterations *)

Section reading.
Context `{Crates}.

(** [decode_model_iteration_row] after the join with the message of the response *)
Definition read_iteration (d : tdb) (r : ModelIterationSnapshot) :
    res ModelIterationSnapshot SessionStoreError :=
  bail negb (uuid_parses (it_invocation_id r)) with Store;;
  _ <- checked_u32 (it_iteration r);;
  bail (i64_max <? it_ledger_revision r)%Z with Store;;
  _ <- checked_u32 (it_recovery_attempts r);;
  let joined := match it_response_message_id r ≫= find_message d with
                | Some (k, lk, l) =>
                    if (k.1 == it_session_id r) && (l_role (l_content l) == "assistant")
                    then Some (row_id lk) else None
                | None => None
                end in
  Ok {| it_session_id := it_session_id r; it_turn_id := it_turn_id r;
        it_iteration := it_iteration r; it_invocation_id := it_invocation_id r;
        it_model_id := it_model_id r; it_capability_revision := it_capability_revision r;
        it_request_digest := it_request_digest r; it_position := it_position r;
        it_ledger_revision := it_ledger_revision r; it_response_message_id := joined;
        it_response_terminal := it_response_terminal r; it_started_at := it_started_at r;
        it_updated_at := it_updated_at r; it_recovery_decision := it_recovery_decision r;
        it_recovery_reason := it_recovery_reason r;
        it_operator_action_required := it_operator_action_required r;
        it_recovery_attempts := it_recovery_attempts r; it_recovery_owner := it_recovery_owner r;
        it_recovery_lease_expires_at := it_recovery_lease_expires_at r;
        it_first_interrupted_at := it_first_interrupted_at r |}.

(** The rows of a query, all of which have to decode. *)
Fixpoint read_all {A B} (f : A → res B SessionStoreError) (l : list A) :
    res (list B) SessionStoreError :=
  match l with
  | [] => Ok []
  | a :: l => b <- f a;; bs <- read_all f l;; Ok (b :: bs)
  end.

(** [model_iterations] *)
Definition model_iterations (d : tdb) (session : SessionId) (turn : string) :
    res (list ModelIterationSnapshot) SessionStoreError :=
  read_all (read_iteration d) (stable_sort (λ a b, (it_iteration a <=? it_iteration b)%Z)
    (turn_iterations d (session, turn))).

(** The last iteration of a running turn. *)
Definition interrupted (d : tdb) (r : ModelIterationSnapshot) : bool :=
  Workspace.is_some (running_turn_of d r) &&
  negb (existsb (λ r', (it_iteration r <? it_iteration r')%Z)
          (turn_iterations d (it_session_id r, it_turn_id r))).

(** [interrupted_model_iterations] *)
Definition interrupted_model_iterations (d : tdb) :
    res (list ModelIterationSnapshot) SessionStoreError :=
  read_all (read_iteration d) (stable_sort (λ a b,
    (it_updated_at a <? it_updated_at b)%Z
    || (it_updated_at a =? it_updated_at b)%Z
       && string_le (it_invocation_id a) (it_invocation_id b))
    (filter (λ r, interrupted d r = true) (map_to_list (iterations d)).*2)).
End reading.
