(* ===== verification/ToolStore.v ===== *)
(** The store of tool calls, of the moderator's decisions about them and of the usage
    of a session: [begin_tool_call] to [classify_tool_recovery],
    [resolve_execution_recovery], [record_usage] and [usage] of
    [impl SessionStore for SqliteSessionStore],
    src/sylvander-runtime/src/storage/session/sqlite.rs. *)

From S2P Require Import Prelude Graph Instance Store Ledger ToolContract ToolInvocation.
From S2P Require Import WorkspaceStore InstanceStore SessionTables TurnStore.
From S2P Require Membership.
From stdpp Require Import base tactics gmap strings list sorting.
From Stdlib Require Import ZArith Lia.

(** * Tool calls *)

Definition call_key (session : SessionId) (turn call : string) : TurnKey * string :=
  ((session, turn), call).

(** The row with an invocation id, of which the schema admits one. *)
Definition find_call (d : tdb) (invocation : string) :
    option (TurnKey * string * ToolCallSnapshot) :=
  list_find (λ kc, tl_invocation_id kc.2 = invocation) (map_to_list (tool_calls d)) ≫= λ x, Some x.2.

(** The stored fingerprint is the one of the request. *)
Definition same_call (c : ToolCallSnapshot) (s : ToolCallStart) : bool :=
  (tl_invocation_id c == cs_invocation_id s) && (tl_tool_name c == cs_tool_name s)
  && (tl_invocation_class c == cs_invocation_class s)
  && (tl_declared_recovery_policy c == cs_declared_recovery_policy s)
  && (tl_effective_recovery_policy c == cs_effective_recovery_policy s)
  && (tl_capability_revision c == cs_capability_revision s)
  && (tl_input_digest c == cs_input_digest s).

(** [begin_tool_call] *)
Definition begin_tool_call (d : tdb) (s : ToolCallStart) (now : Z) : ttx unit :=
  bail trim_is_empty (cs_turn_id s) || trim_is_empty (cs_call_id s)
       || trim_is_empty (cs_tool_name s) || negb (is_digest (cs_capability_revision s))
       || negb (is_digest (cs_input_digest s))
       || negb (recovery_policy_allows (cs_declared_recovery_policy s)
                  (cs_effective_recovery_policy s)) with Invalid;;
  bail match turn d (cs_session_id s) (cs_turn_id s) with
       | Some t => negb (turn_running t)
       | None => true
       end with Invalid;;
  let key := call_key (cs_session_id s) (cs_turn_id s) (cs_call_id s) in
  match tool_calls d !! key with
  | Some existing =>
      bail negb (same_call existing s) with Invalid;;
      Ok (tt, d)
  | None =>
      bail Workspace.is_some (find_call d (cs_invocation_id s)) with Invalid;;
      Ok (tt, set_tool_calls d (<[key := {|
        tl_session_id := cs_session_id s; tl_turn_id := cs_turn_id s; tl_call_id := cs_call_id s;
        tl_invocation_id := cs_invocation_id s; tl_tool_name := cs_tool_name s;
        tl_invocation_class := cs_invocation_class s;
        tl_declared_recovery_policy := cs_declared_recovery_policy s;
        tl_effective_recovery_policy := cs_effective_recovery_policy s;
        tl_capability_revision := cs_capability_revision s; tl_input_digest := cs_input_digest s;
        tl_position := ToolPositions.Prepared; tl_ledger_revision := 0; tl_started_at := now;
        tl_updated_at := now; tl_state := CallStates.Running; tl_ended_at := None;
        tl_failure_kind := None; tl_recovery_decision := None; tl_recovery_reason := None;
        tl_operator_action_required := false; tl_recovery_attempts := 0;
        tl_recovery_owner := None; tl_recovery_lease_expires_at := None;
        tl_first_interrupted_at := None |}]> (tool_calls d)))
  end.

(** [UPDATE session_tool_calls] of the execution columns *)
Definition put_call (c : ToolCallSnapshot) (position : ToolExecutionPosition) (revision : Z)
    (updated_at : Z) (state : ToolCallState) (ended_at : option Z)
    (kind : option ToolCallFailureKind) : ToolCallSnapshot := {|
  tl_session_id := tl_session_id c; tl_turn_id := tl_turn_id c; tl_call_id := tl_call_id c;
  tl_invocation_id := tl_invocation_id c; tl_tool_name := tl_tool_name c;
  tl_invocation_class := tl_invocation_class c;
  tl_declared_recovery_policy := tl_declared_recovery_policy c;
  tl_effective_recovery_policy := tl_effective_recovery_policy c;
  tl_capability_revision := tl_capability_revision c; tl_input_digest := tl_input_digest c;
  tl_position := position; tl_ledger_revision := revision; tl_started_at := tl_started_at c;
  tl_updated_at := updated_at; tl_state := state; tl_ended_at := ended_at;
  tl_failure_kind := kind; tl_recovery_decision := tl_recovery_decision c;
  tl_recovery_reason := tl_recovery_reason c;
  tl_operator_action_required := tl_operator_action_required c;
  tl_recovery_attempts := tl_recovery_attempts c; tl_recovery_owner := tl_recovery_owner c;
  tl_recovery_lease_expires_at := tl_recovery_lease_expires_at c;
  tl_first_interrupted_at := tl_first_interrupted_at c |}.

(** The guard of the compare-and-swap. *)
Definition call_at (c : ToolCallSnapshot) (position : ToolExecutionPosition) (revision : Z) : bool :=
  (tl_ledger_revision c =? revision)%Z && (tl_position c == position) && call_running c.

(** [advance_tool_call]; a repeated request finds its own result. *)
Definition advance_tool_call (d : tdb) (a : ToolCallAdvance) (now : Z) : ttx Z :=
  bail negb (ToolPositions.can_advance_to (ca_expected_position a) (ca_next_position a))
    with Invalid;;
  next <- next_u64 (ca_expected_revision a);;
  _ <- checked_i64 (ca_expected_revision a);;
  _ <- checked_i64 next;;
  let key := call_key (ca_session_id a) (ca_turn_id a) (ca_call_id a) in
  c <- ok_or (tool_calls d !! key) Invalid;;
  if call_at c (ca_expected_position a) (ca_expected_revision a) then
    Ok (next, set_tool_calls d (<[key := put_call c (ca_next_position a) next now (tl_state c)
                                   (tl_ended_at c) (tl_failure_kind c)]> (tool_calls d)))
  else
    bail negb ((tl_position c == ca_next_position a) && (tl_ledger_revision c =? next)%Z)
      with Invalid;;
    Ok (next, d).

(** The terminal states that a result can have. *)
Definition result_state (state : ToolCallState) (kind : option ToolCallFailureKind) : bool :=
  match state, kind with
  | CallStates.Succeeded, None | CallStates.Failed, _ => true
  | _, _ => false
  end.

(** [persist_tool_result] *)
Definition persist_tool_result (d : tdb) (ctx : SessionContext) (r : ToolResultPersistence)
    (now : Z) : ttx Z :=
  bail negb (result_state (tr_terminal_state r) (tr_failure_kind r)) with Invalid;;
  bail trim_is_empty (tr_tool_name r)
       || negb ((tr_expected_position r == ToolPositions.EffectStarted)
                || (tr_expected_position r == ToolPositions.EffectCommitted)) with Invalid;;
  _ <- checked_i64 (tr_expected_revision r);;
  next <- ok_or (checked_add i64_max (tr_expected_revision r) 1) Invalid;;
  let running := match turn d (tr_session_id r) (tr_turn_id r) with
                 | Some t => if turn_running t then Some (tn_agent_instance_id t) else None
                 | None => None
                 end in
  bail ctx_agent_instance_id ctx != running with Invalid;;
  let key := call_key (tr_session_id r) (tr_turn_id r) (tr_call_id r) in
  c <- ok_or (tool_calls d !! key) Invalid;;
  bail negb (call_at c (tr_expected_position r) (tr_expected_revision r)) with Invalid;;
  let d := set_tool_calls d (<[key := put_call c ToolPositions.ResultPersisted next now
    (tr_terminal_state r) (Some now) (tr_failure_kind r)]> (tool_calls d)) in
  seq <- next_seq d (tr_session_id r);;
  inserted <- insert_message d (tr_session_id r) seq
    (written_line ctx MessageRoles.Tool (tr_content r) None (Some (tr_tool_name r)) now) None;;
  Ok (next, inserted.2).

(** The terminal states of [finish_tool_call]. *)
Definition final_state (state : ToolCallState) (kind : option ToolCallFailureKind) : bool :=
  match state, kind with
  | CallStates.Succeeded, None | CallStates.Failed, _ | CallStates.Rejected, None => true
  | _, _ => false
  end.

(** [finish_tool_call] *)
Definition finish_tool_call (d : tdb) (c : ToolCallCompletion) (now : Z) : ttx unit :=
  bail negb (final_state (cc_state c) (cc_failure_kind c)) with Invalid;;
  let key := call_key (cc_session_id c) (cc_turn_id c) (cc_call_id c) in
  row <- ok_or (tool_calls d !! key) Invalid;;
  bail negb (call_running row) with Invalid;;
  Ok (tt, set_tool_calls d (<[key := put_call row (tl_position row) (tl_ledger_revision row)
    (tl_updated_at row) (cc_state c) (Some now) (cc_failure_kind c)]> (tool_calls d))).

(** [UPDATE session_tool_calls] of the recovery columns *)
Definition put_recovery (c : ToolCallSnapshot) (revision : Z) (decision : ToolRecoveryDecision)
    (reason : ToolRecoveryReason) (operator : bool) (attempts : Z) (owner : string)
    (lease : option Z) (interrupted_at : option Z) (updated_at : Z) : ToolCallSnapshot := {|
  tl_session_id := tl_session_id c; tl_turn_id := tl_turn_id c; tl_call_id := tl_call_id c;
  tl_invocation_id := tl_invocation_id c; tl_tool_name := tl_tool_name c;
  tl_invocation_class := tl_invocation_class c;
  tl_declared_recovery_policy := tl_declared_recovery_policy c;
  tl_effective_recovery_policy := tl_effective_recovery_policy c;
  tl_capability_revision := tl_capability_revision c; tl_input_digest := tl_input_digest c;
  tl_position := tl_position c; tl_ledger_revision := revision;
  tl_started_at := tl_started_at c; tl_updated_at := updated_at; tl_state := tl_state c;
  tl_ended_at := tl_ended_at c; tl_failure_kind := tl_failure_kind c;
  tl_recovery_decision := Some decision; tl_recovery_reason := Some reason;
  tl_operator_action_required := operator; tl_recovery_attempts := attempts;
  tl_recovery_owner := Some owner; tl_recovery_lease_expires_at := lease;
  tl_first_interrupted_at := interrupted_at |}.

(** [recovery_owner IS NULL OR recovery_owner = ?6 OR recovery_lease_expires_at <= ?8] *)
Definition may_recover (c : ToolCallSnapshot) (owner : string) (observed_at : Z) : bool :=
  match tl_recovery_owner c with None => true | Some o => o == owner end
  || match tl_recovery_lease_expires_at c with
     | Some expires => (expires <=? observed_at)%Z
     | None => false
     end.

(** [classify_tool_recovery] *)
Definition classify_tool_recovery (d : tdb) (w : ToolRecoveryWrite) : ttx Z :=
  bail trim_is_empty (tw_recovery_owner w) || (tw_lease_expires_at w <=? tw_observed_at w)%Z
    with Invalid;;
  _ <- checked_i64 (tw_expected_revision w);;
  next <- ok_or (checked_add i64_max (tw_expected_revision w) 1) Invalid;;
  found <- ok_or (find_call d (tw_invocation_id w)) Invalid;;
  let '(key, c) := found in
  bail negb (tl_ledger_revision c =? tw_expected_revision w)%Z || negb (call_running c)
       || negb (may_recover c (tw_recovery_owner w) (tw_observed_at w)) with Invalid;;
  let k := tw_classification w in
  Ok (next, set_tool_calls d (<[key := put_recovery c next (t_decision k) (t_reason k)
    (t_operator_action_required k) (tl_recovery_attempts c + 1) (tw_recovery_owner w)
    (Some (tw_lease_expires_at w))
    (Some (default (tw_observed_at w) (tl_first_interrupted_at c))) (tw_observed_at w)]>
    (tool_calls d))).

(** * Decisions of the moderator *)

(** The call waits for an operator: [operator_action_required=1 AND
    recovery_decision='manual_reconciliation'] *)
Definition awaits_operator (c : ToolCallSnapshot) : bool :=
  tl_operator_action_required c
  && (tl_recovery_decision c == Some ToolDecisions.ManualReconciliation).

Definition iteration_awaits_operator (r : ModelIterationSnapshot) : bool :=
  it_operator_action_required r
  && (it_recovery_decision r == Some ModelDecisions.ManualReconciliation).

(** [UPDATE session_turn_iterations] of an abandoned iteration *)
Definition abandon_iteration (r : ModelIterationSnapshot) (w : ExecutionRecoveryActionWrite)
    (revision : Z) : ModelIterationSnapshot := {|
  it_session_id := it_session_id r; it_turn_id := it_turn_id r; it_iteration := it_iteration r;
  it_invocation_id := it_invocation_id r; it_model_id := it_model_id r;
  it_capability_revision := it_capability_revision r; it_request_digest := it_request_digest r;
  it_position := it_position r; it_ledger_revision := revision;
  it_response_message_id := it_response_message_id r;
  it_response_terminal := it_response_terminal r; it_started_at := it_started_at r;
  it_updated_at := aw_observed_at w;
  it_recovery_decision := Some ModelDecisions.OperatorAbandoned;
  it_recovery_reason := Some ModelReasons.OperatorAbandoned;
  it_operator_action_required := false; it_recovery_attempts := it_recovery_attempts r;
  it_recovery_owner := Some (aw_action_id w); it_recovery_lease_expires_at := None;
  it_first_interrupted_at := it_first_interrupted_at r |}.

(** The update of the target of an action: the row has to wait for an operator at
    the revision that the moderator saw. *)
Definition resolve_target (d : tdb) (w : ExecutionRecoveryActionWrite) (next : Z) :
    res tdb SessionStoreError :=
  match aw_target w, aw_action w with
  | TargetModel invocation, Actions.AbandonTurn =>
      found <- ok_or (find_iteration d invocation) Invalid;;
      let '(key, r) := found in
      bail (it_session_id r != aw_session_id w) || (it_turn_id r != aw_turn_id w)
           || negb (it_ledger_revision r =? aw_expected_ledger_revision w)%Z
           || negb (iteration_awaits_operator r) with Invalid;;
      Ok (set_iterations d (<[key := abandon_iteration r w next]> (iterations d)))
  | TargetTool invocation, Actions.AbandonTurn =>
      found <- ok_or (find_call d invocation) Invalid;;
      let '(key, c) := found in
      bail (tl_session_id c != aw_session_id w) || (tl_turn_id c != aw_turn_id w)
           || negb (tl_ledger_revision c =? aw_expected_ledger_revision w)%Z
           || negb (call_running c) || negb (awaits_operator c) with Invalid;;
      Ok (set_tool_calls d (<[key := put_recovery
        (put_call c (tl_position c) next (aw_observed_at w) CallStates.Abandoned
           (Some (aw_observed_at w)) (tl_failure_kind c))
        next ToolDecisions.OperatorAbandoned ToolReasons.OperatorAbandoned false
        (tl_recovery_attempts c) (aw_action_id w) None (tl_first_interrupted_at c)
        (aw_observed_at w)]> (tool_calls d)))
  | TargetTool invocation, Actions.ConfirmNoEffectAndRetry =>
      found <- ok_or (find_call d invocation) Invalid;;
      let '(key, c) := found in
      bail (tl_session_id c != aw_session_id w) || (tl_turn_id c != aw_turn_id w)
           || negb (tl_ledger_revision c =? aw_expected_ledger_revision w)%Z
           || negb (call_running c) || (tl_position c != ToolPositions.EffectStarted)
           || negb (awaits_operator c)
           || match turn d (aw_session_id w) (aw_turn_id w) with
              | Some t => negb (turn_running t)
              | None => true
              end with Invalid;;
      Ok (set_tool_calls d (<[key := put_recovery c next ToolDecisions.RetrySameInvocation
        ToolReasons.OperatorConfirmedNoEffect false (tl_recovery_attempts c + 1)
        (aw_action_id w) (Some (aw_lease_expires_at w)) (tl_first_interrupted_at c)
        (aw_observed_at w)]> (tool_calls d)))
  | TargetModel _, _ => Err Invalid
  end.

(** The running calls of an abandoned turn. *)
Definition drop_call (now : Z) (c : ToolCallSnapshot) : ToolCallSnapshot := {|
  tl_session_id := tl_session_id c; tl_turn_id := tl_turn_id c; tl_call_id := tl_call_id c;
  tl_invocation_id := tl_invocation_id c; tl_tool_name := tl_tool_name c;
  tl_invocation_class := tl_invocation_class c;
  tl_declared_recovery_policy := tl_declared_recovery_policy c;
  tl_effective_recovery_policy := tl_effective_recovery_policy c;
  tl_capability_revision := tl_capability_revision c; tl_input_digest := tl_input_digest c;
  tl_position := tl_position c; tl_ledger_revision := tl_ledger_revision c;
  tl_started_at := tl_started_at c; tl_updated_at := now; tl_state := CallStates.Abandoned;
  tl_ended_at := Some now; tl_failure_kind := tl_failure_kind c;
  tl_recovery_decision := tl_recovery_decision c; tl_recovery_reason := tl_recovery_reason c;
  tl_operator_action_required := false; tl_recovery_attempts := tl_recovery_attempts c;
  tl_recovery_owner := tl_recovery_owner c;
  tl_recovery_lease_expires_at := tl_recovery_lease_expires_at c;
  tl_first_interrupted_at := tl_first_interrupted_at c |}.

Definition abandon_turn (d : tdb) (session : SessionId) (id : string) (now : Z) : tdb :=
  let d := set_session_turns d (alter (λ t, if turn_running t
    then end_turn TurnStates.Interrupted None now t else t) (session, id) (session_turns d)) in
  set_tool_calls d (map_imap (λ k c, Some (if (k.1 == (session, id)) && call_running c
    then drop_call now c else c)) (tool_calls d)).

Definition action_receipt (w : ExecutionRecoveryActionWrite) (next : Z) :
    ExecutionRecoveryActionReceipt := {|
  ar_action_id := aw_action_id w; ar_session_id := aw_session_id w; ar_turn_id := aw_turn_id w;
  ar_target := aw_target w; ar_action := aw_action w; ar_resolved_by := aw_resolved_by w;
  ar_expected_ledger_revision := aw_expected_ledger_revision w;
  ar_outcome_ledger_revision := next; ar_rationale_digest := aw_rationale_digest w;
  ar_recorded_at := aw_observed_at w |}.

(** A recorded action answers the request that made it. *)
Definition same_action (a : ExecutionRecoveryActionReceipt) (w : ExecutionRecoveryActionWrite) :
    bool :=
  (ar_session_id a == aw_session_id w) && (ar_turn_id a == aw_turn_id w)
  && (ar_target a == aw_target w) && (ar_action a == aw_action w)
  && (ar_resolved_by a == aw_resolved_by w)
  && (ar_expected_ledger_revision a =? aw_expected_ledger_revision w)%Z
  && (ar_rationale_digest a == aw_rationale_digest w).

(** [UNIQUE(target_kind, invocation_id)] *)
Definition target_resolved (d : tdb) (t : ExecutionRecoveryActionTarget) : bool :=
  existsb (λ a, ar_target a == t) (map_to_list (recovery_actions d)).*2.

Section reading.
Context `{Crates}.

(** [load_execution_recovery_action] *)
Definition load_execution_recovery_action (d : tdb) (id : string) :
    res (option ExecutionRecoveryActionReceipt) SessionStoreError :=
  match recovery_actions d !! id with
  | None => Ok None
  | Some a =>
      bail negb (uuid_parses (target_invocation (ar_target a))) with Store;;
      _ <- checked_u64 (ar_expected_ledger_revision a);;
      _ <- checked_u64 (ar_outcome_ledger_revision a);;
      Ok (Some a)
  end.

(** [resolve_execution_recovery] *)
Definition resolve_execution_recovery (d : tdb) (w : ExecutionRecoveryActionWrite) :
    ttx ExecutionRecoveryActionReceipt :=
  bail trim_is_empty (aw_turn_id w) || negb (is_digest (aw_rationale_digest w))
       || negb (String.length (aw_rationale_digest w) =? 71)%nat
       || (aw_lease_expires_at w <=? aw_observed_at w)%Z with Invalid;;
  _ <- checked_i64 (aw_expected_ledger_revision w);;
  bail (Membership.moderator_instance_id <$> governance (base (sd d)) !! aw_session_id w)
       != Some (aw_resolved_by w) with Invalid;;
  existing <- load_execution_recovery_action d (aw_action_id w);;
  match existing with
  | Some a =>
      bail negb (same_action a w) with Invalid;;
      Ok (a, d)
  | None =>
      next <- next_u64 (aw_expected_ledger_revision w);;
      _ <- checked_i64 next;;
      d <- resolve_target d w next;;
      let d := if aw_action w == Actions.AbandonTurn
               then abandon_turn d (aw_session_id w) (aw_turn_id w) (aw_observed_at w) else d in
      bail target_resolved d (aw_target w) with Store;;
      bail negb (has_instance (base (sd d)) (aw_session_id w) (aw_resolved_by w)) with Store;;
      Ok (action_receipt w next, set_recovery_actions d
            (<[aw_action_id w := action_receipt w next]> (recovery_actions d)))
  end.

(** [decode_tool_call_row] *)
Definition read_call (c : ToolCallSnapshot) : res ToolCallSnapshot SessionStoreError :=
  bail negb (uuid_parses (tl_invocation_id c)) with Store;;
  _ <- checked_u64 (tl_ledger_revision c);;
  _ <- checked_u32 (tl_recovery_attempts c);;
  Ok c.

(** [tool_calls] *)
Definition calls_of_turn (d : tdb) (session : SessionId) (turn : string) :
    res (list ToolCallSnapshot) SessionStoreError :=
  read_all read_call (stable_sort (λ a b, (tl_started_at a <? tl_started_at b)%Z
      || (tl_started_at a =? tl_started_at b)%Z && string_le (tl_call_id a) (tl_call_id b))
    (filter (λ kc, kc.1.1 = (session, turn)) (map_to_list (tool_calls d))).*2).

(** [interrupted_tool_calls] *)
Definition interrupted_tool_calls (d : tdb) : res (list ToolCallSnapshot) SessionStoreError :=
  read_all read_call (stable_sort (λ a b, (tl_started_at a <? tl_started_at b)%Z
      || (tl_started_at a =? tl_started_at b)%Z
         && string_le (tl_invocation_id a) (tl_invocation_id b))
    (filter (λ kc, Workspace.is_some (session_turns d !! kc.1.1) && call_running kc.2 = true)
       (map_to_list (tool_calls d))).*2).
End reading.

(** * Usage *)

Record SessionUsage := {
  su_iterations : Z;
  su_input_tokens : Z;
  su_output_tokens : Z;
  su_cost_nano_usd : option Z;
}.

(** [read_usage]: an integer column that overflowed is a real and cannot be read. *)
Definition read_usage (d : tdb) (session : SessionId) : res SessionUsage SessionStoreError :=
  match usages d !! session with
  | None => Ok {| su_iterations := 0; su_input_tokens := 0; su_output_tokens := 0;
                  su_cost_nano_usd := None |}
  | Some u =>
      _ <- checked_u32 (u_iterations u);;
      bail (i64_max <? u_input_tokens u)%Z with Store;;
      bail (i64_max <? u_output_tokens u)%Z with Store;;
      cost <- (if (u_cost_complete u =? 0)%Z then Ok None
               else bail (i64_max <? u_cost_nano_usd u)%Z with Store;;
                    Ok (Some (u_cost_nano_usd u)));;
      Ok {| su_iterations := u_iterations u; su_input_tokens := u_input_tokens u;
            su_output_tokens := u_output_tokens u; su_cost_nano_usd := cost |}
  end.

(** [usage] *)
Definition usage (d : tdb) (session : SessionId) : res SessionUsage SessionStoreError :=
  read_usage d session.

(** [record_usage]; the statement commits on its own before the row is read. *)
Definition record_usage (d : tdb) (session : SessionId) (input output : Z) (cost : option Z) :
    ttx (res SessionUsage SessionStoreError) :=
  bail (i64_max <? default 0%Z cost)%Z with Store;;
  bail negb (Workspace.is_some (sessions (sd d) !! session)) with Store;;
  let complete := match cost with Some _ => 1 | None => 0 end%Z in
  let row := match usages d !! session with
    | None => {| u_iterations := 1; u_input_tokens := input; u_output_tokens := output;
                 u_cost_nano_usd := default 0%Z cost; u_cost_complete := complete |}
    | Some u => {| u_iterations := u_iterations u + 1;
                   u_input_tokens := u_input_tokens u + input;
                   u_output_tokens := u_output_tokens u + output;
                   u_cost_nano_usd := u_cost_nano_usd u + default 0%Z cost;
                   u_cost_complete := u_cost_complete u * complete |}
    end in
  let d := set_usages d (<[session := row]> (usages d)) in
  Ok (read_usage d session, d).
