(* ===== verification/HistoryStore.v ===== *)
(** The message history of a session: [append_message] to [count_active_messages],
    [archive] and [restore] of [impl SessionStore for SqliteSessionStore],
    src/sylvander-runtime/src/storage/session/sqlite.rs. *)

From S2P Require Import Prelude Graph Instance Store Ledger.
From S2P Require Import WorkspaceStore InstanceStore SessionTables TurnStore.
From stdpp Require Import base tactics gmap strings list sorting.
From Stdlib Require Import ZArith Lia.

(** * Who may read and write *)

(** [EXISTS (SELECT 1 FROM session_agent_instances a WHERE a.session_id = … AND
    a.instance_id = … AND a.agent_id = …)], which a caller without instance needs not. *)
Definition plays_agent (d : tdb) (session : SessionId) (ctx : SessionContext) : bool :=
  match ctx_agent_instance_id ctx with
  | None => true
  | Some i =>
      match instances (base (sd d)) !! i with
      | Some p => (ai_session_id p == session) && (agent_id (definition p) == ctx_agent_id ctx)
      | None => false
      end
  end.

(** The session is open and belongs to the user of the caller. *)
Definition may_write (d : tdb) (session : SessionId) (ctx : SessionContext) : bool :=
  match sessions (sd d) !! session with
  | Some row => negb (is_archived row) && (s_user_id row == ctx_user_id ctx)
                && plays_agent d session ctx
  | None => false
  end.

(** A row of the history of the caller. *)
Definition own_line (session : SessionId) (ctx : SessionContext) (kl : SessionId * Z * line) : bool :=
  (kl.1.1 == session) && (user_id (l_content kl.2) == ctx_user_id ctx)
  && (l_agent_instance_id kl.2 == ctx_agent_instance_id ctx).

Definition visible_line (d : tdb) (session : SessionId) (ctx : SessionContext)
    (kl : SessionId * Z * line) : bool :=
  own_line session ctx kl && plays_agent d session ctx.

(** * Operations *)

(** [append_message], which is no transaction: what it wrote stays when the message is
    not read back, as a [seq] that is no [u32] is not. *)
Definition append_message (d : tdb) (ctx : SessionContext) (session : SessionId)
    (role : MessageRole) (content : string) (model tool : option string)
    (parent_msg_id : option Z) (now : Z) : ttx (res StoredMessage SessionStoreError) :=
  bail negb (may_write d session ctx) with NotFound session;;
  seq <- next_seq d session;;
  let l := written_line ctx role content model tool now in
  inserted <- insert_message d session seq l parent_msg_id;;
  let '(id, d) := inserted in
  Ok (row_to_message session seq
        {| row_id := id; SessionTables.parent_msg_id := parent_msg_id |} l,
      touch_session d session now).

(** The rows of a history by [seq]. *)
Definition history_rows (d : tdb) (session : SessionId) (ctx : SessionContext)
    (include_summarized : bool) : list (SessionId * Z * line) :=
  stable_sort (λ a b, (a.1.2 <=? b.1.2)%Z)
    (filter (λ kl, visible_line d session ctx kl &&
                   (include_summarized || negb (is_summarized kl.2)) = true)
       (map_to_list (lines (sd d)))).

(** A row with its columns of [row_keys]. *)
Definition read_line (d : tdb) (kl : SessionId * Z * line) : res StoredMessage SessionStoreError :=
  k <- ok_or (row_keys d !! kl.1) Store;;
  row_to_message kl.1.1 kl.1.2 k kl.2.

(** [read_history]; [LIMIT] takes the first rows in the order of the query. *)
Definition read_history (d : tdb) (ctx : SessionContext) (session : SessionId)
    (include_summarized : bool) (limit : option nat) : res (list StoredMessage) SessionStoreError :=
  let rows := history_rows d session ctx include_summarized in
  read_all (read_line d) match limit with Some n => take n rows | None => rows end.

Definition summarize (l : line) : line :=
  {| l_agent_instance_id := l_agent_instance_id l; is_summarized := true; l_content := l_content l |}.

Definition summarize_where (f : SessionId * Z * line → bool) (d : tdb) : tdb :=
  set_sd d (set_lines (sd d) (map_imap (λ k l, Some (if f (k, l) then summarize l else l))
    (lines (sd d)))).

(** [mark_summarized] *)
Definition mark_summarized (d : tdb) (ctx : SessionContext) (session : SessionId)
    (start stop : Z) : ttx unit :=
  Ok (tt, summarize_where (λ kl, visible_line d session ctx kl && (start <=? kl.1.2)%Z
                                 && (kl.1.2 <? stop)%Z) d).

Record ReplacementMessage := {
  rm_role : MessageRole;
  rm_content : string;
  rm_tool_name : option string;
}.

(** [for (seq, message) in (next_seq..).zip(messages)]: the range is advanced before
    the messages, also past the last one, and its overflow panics. *)
Fixpoint insert_messages (d : tdb) (ctx : SessionContext) (session : SessionId) (seq now : Z)
    (messages : list ReplacementMessage) : res tdb SessionStoreError :=
  if (i64_max <=? seq)%Z then Panic else
  match messages with
  | [] => Ok d
  | m :: messages =>
      inserted <- insert_message d session seq
        (written_line ctx (rm_role m) (rm_content m) None (rm_tool_name m) now) None;;
      insert_messages inserted.2 ctx session (seq + 1) now messages
  end.

(** [replace_active_history] *)
Definition replace_active_history (d : tdb) (ctx : SessionContext) (session : SessionId)
    (messages : list ReplacementMessage) (now : Z) : ttx unit :=
  bail match messages with [] => true | _ => false end with Invalid;;
  bail negb (may_write d session ctx) with NotFound session;;
  let d := summarize_where (λ kl, own_line session ctx kl && negb (is_summarized kl.2)) d in
  seq <- next_seq d session;;
  d <- insert_messages d ctx session seq now messages;;
  Ok (tt, touch_session d session now).

(** [count_active_messages] *)
Definition count_active_messages (d : tdb) (ctx : SessionContext) (session : SessionId) : nat :=
  length (history_rows d session ctx false).

(** * The session row *)

Definition set_archived (b : bool) (at_ : option Z) (r : session_row) : session_row := {|
  is_archived := b; s_config_revision := s_config_revision r;
  s_effective_config := s_effective_config r; s_user_id := s_user_id r;
  s_updated_at := default (s_updated_at r) at_ |}.

(** [archive] *)
Definition archive (d : tdb) (session : SessionId) : ttx unit :=
  row <- ok_or (sessions (sd d) !! session) (NotFound session);;
  Ok (tt, set_sd d (set_sessions (sd d)
    (<[session := set_archived true None row]> (sessions (sd d))))).

(** [restore] *)
Definition restore (d : tdb) (session : SessionId) (now : Z) : ttx unit :=
  row <- ok_or (sessions (sd d) !! session) (NotFound session);;
  bail negb (is_archived row) with NotFound session;;
  Ok (tt, set_sd d (set_sessions (sd d)
    (<[session := set_archived false (Some now) row]> (sessions (sd d))))).
