(* ===== verification/Inference.v ===== *)
(** The ledgers of inferences inside a turn: the data of
    src/sylvander-runtime/src/storage/session/cognition_ledger.rs and
    perception_ledger.rs, with the texts that src/sylvander-runtime/src/storage/session/sqlite.rs
    stores for them. *)

From S2P Require Import Prelude ToolInvocation Instance Store WorkspaceStore InstanceStore.
From S2P Require Import Ledger SessionTables.
From stdpp Require Import base tactics strings list gmap.
From Stdlib Require Import ZArith Ascii.

Local Ltac solve_codec decode :=
  split; [by intros []|]; intros s x Hx; unfold decode in Hx; decode_cases Hx.

(** [CognitiveRole] (agent/cognition.rs) *)
Module Roles.

Inductive CognitiveRole :=
  | FastDraft | Deliberation | Critic | Vision | Audio | Document.

#[global] Instance CognitiveRole_eq_dec : EqDecision CognitiveRole.
Proof. solve_decision. Defined.

Definition encode (x : CognitiveRole) : string :=
  match x with
  | FastDraft => "fast_draft"
  | Deliberation => "deliberation"
  | Critic => "critic"
  | Vision => "vision"
  | Audio => "audio"
  | Document => "document"
  end.

Definition decode (s : string) : res CognitiveRole SessionStoreError :=
  if s == "fast_draft" then Ok FastDraft
  else if s == "deliberation" then Ok Deliberation
  else if s == "critic" then Ok Critic
  else if s == "vision" then Ok Vision
  else if s == "audio" then Ok Audio
  else if s == "document" then Ok Document
  else Err Store.

Lemma CognitiveRole_codec :
  (∀ x, decode (encode x) = Ok x) ∧ (∀ s x, decode s = Ok x → encode x = s).
Proof. solve_codec decode. Qed.

End Roles.
Notation CognitiveRole := Roles.CognitiveRole (only parsing).

(** [PerceptionModality] (agent/perception.rs) *)
Module Modalities.

Inductive PerceptionModality :=
  | Image | Audio | Document.

#[global] Instance PerceptionModality_eq_dec : EqDecision PerceptionModality.
Proof. solve_decision. Defined.

Definition encode (x : PerceptionModality) : string :=
  match x with
  | Image => "image"
  | Audio => "audio"
  | Document => "document"
  end.

Definition decode (s : string) : res PerceptionModality SessionStoreError :=
  if s == "image" then Ok Image
  else if s == "audio" then Ok Audio
  else if s == "document" then Ok Document
  else Err Store.

Lemma PerceptionModality_codec :
  (∀ x, decode (encode x) = Ok x) ∧ (∀ s x, decode s = Ok x → encode x = s).
Proof. solve_codec decode. Qed.

End Modalities.
Notation PerceptionModality := Modalities.PerceptionModality (only parsing).

(** * Cognition *)

(** How far a cognition got. *)
Module CognitionPositions.

Inductive CognitionExecutionPosition :=
  | Prepared | PromptPersisted | InferenceStarted | InferenceCompleted | ArtifactPersisted
  | ResultPersisted | Failed.

#[global] Instance CognitionExecutionPosition_eq_dec : EqDecision CognitionExecutionPosition.
Proof. solve_decision. Defined.

Definition can_advance_to (x next : CognitionExecutionPosition) : bool :=
  match x, next with
  | Prepared, PromptPersisted
  | PromptPersisted, InferenceStarted
  | InferenceStarted, InferenceCompleted
  | InferenceCompleted, ArtifactPersisted
  | ArtifactPersisted, ResultPersisted => true
  | _, _ => false
  end.

Definition is_terminal (x : CognitionExecutionPosition) : bool :=
  match x with ResultPersisted | Failed => true | _ => false end.

(** The place of a position in the CHECK of the table. *)
Definition stage (x : CognitionExecutionPosition) : nat :=
  match x with
  | Prepared => 0
  | PromptPersisted => 1
  | InferenceStarted => 2
  | InferenceCompleted => 3
  | ArtifactPersisted => 4
  | ResultPersisted => 5
  | Failed => 6
  end.

Definition encode (x : CognitionExecutionPosition) : string :=
  match x with
  | Prepared => "prepared"
  | PromptPersisted => "prompt_persisted"
  | InferenceStarted => "inference_started"
  | InferenceCompleted => "inference_completed"
  | ArtifactPersisted => "artifact_persisted"
  | ResultPersisted => "result_persisted"
  | Failed => "failed"
  end.

Definition decode (s : string) : res CognitionExecutionPosition SessionStoreError :=
  if s == "prepared" then Ok Prepared
  else if s == "prompt_persisted" then Ok PromptPersisted
  else if s == "inference_started" then Ok InferenceStarted
  else if s == "inference_completed" then Ok InferenceCompleted
  else if s == "artifact_persisted" then Ok ArtifactPersisted
  else if s == "result_persisted" then Ok ResultPersisted
  else if s == "failed" then Ok Failed
  else Err Store.

Lemma CognitionExecutionPosition_codec :
  (∀ x, decode (encode x) = Ok x) ∧ (∀ s x, decode s = Ok x → encode x = s).
Proof. solve_codec decode. Qed.

End CognitionPositions.
Notation CognitionExecutionPosition := CognitionPositions.CognitionExecutionPosition (only parsing).

(** The one policy of a cognition. *)
Module CognitionPolicies.

Inductive CognitionRecoveryPolicy :=
  | RecoverFromReceipt.

#[global] Instance CognitionRecoveryPolicy_eq_dec : EqDecision CognitionRecoveryPolicy.
Proof. solve_decision. Defined.

Definition encode (x : CognitionRecoveryPolicy) : string :=
  match x with
  | RecoverFromReceipt => "recover_from_receipt"
  end.

Definition decode (s : string) : res CognitionRecoveryPolicy SessionStoreError :=
  if s == "recover_from_receipt" then Ok RecoverFromReceipt
  else Err Store.

Lemma CognitionRecoveryPolicy_codec :
  (∀ x, decode (encode x) = Ok x) ∧ (∀ s x, decode s = Ok x → encode x = s).
Proof. split; [by intros []|]. intros s [] Hx. unfold decode in Hx. by case_match; [case_bool_decide|]. Qed.

End CognitionPolicies.
Notation CognitionRecoveryPolicy := CognitionPolicies.CognitionRecoveryPolicy (only parsing).

(** Why an inference failed. *)
Module CognitionFailures.

Inductive CognitionFailureKind :=
  | Provider | TimedOut | InvalidResponse.

#[global] Instance CognitionFailureKind_eq_dec : EqDecision CognitionFailureKind.
Proof. solve_decision. Defined.

Definition encode (x : CognitionFailureKind) : string :=
  match x with
  | Provider => "provider"
  | TimedOut => "timed_out"
  | InvalidResponse => "invalid_response"
  end.

Definition decode (s : string) : res CognitionFailureKind SessionStoreError :=
  if s == "provider" then Ok Provider
  else if s == "timed_out" then Ok TimedOut
  else if s == "invalid_response" then Ok InvalidResponse
  else Err Store.

Lemma CognitionFailureKind_codec :
  (∀ x, decode (encode x) = Ok x) ∧ (∀ s x, decode s = Ok x → encode x = s).
Proof. solve_codec decode. Qed.

End CognitionFailures.
Notation CognitionFailureKind := CognitionFailures.CognitionFailureKind (only parsing).

(** What recovery does next. *)
Module CognitionDecisions.

Inductive CognitionRecoveryDecision :=
  | PersistPrompt | StartInference | RecoverReceipt | PersistArtifact | ContinueTurn.

#[global] Instance CognitionRecoveryDecision_eq_dec : EqDecision CognitionRecoveryDecision.
Proof. solve_decision. Defined.

Definition encode (x : CognitionRecoveryDecision) : string :=
  match x with
  | PersistPrompt => "persist_prompt"
  | StartInference => "start_inference"
  | RecoverReceipt => "recover_receipt"
  | PersistArtifact => "persist_artifact"
  | ContinueTurn => "continue_turn"
  end.

Definition decode (s : string) : res CognitionRecoveryDecision SessionStoreError :=
  if s == "persist_prompt" then Ok PersistPrompt
  else if s == "start_inference" then Ok StartInference
  else if s == "recover_receipt" then Ok RecoverReceipt
  else if s == "persist_artifact" then Ok PersistArtifact
  else if s == "continue_turn" then Ok ContinueTurn
  else Err Store.

Lemma CognitionRecoveryDecision_codec :
  (∀ x, decode (encode x) = Ok x) ∧ (∀ s x, decode s = Ok x → encode x = s).
Proof. solve_codec decode. Qed.

End CognitionDecisions.
Notation CognitionRecoveryDecision := CognitionDecisions.CognitionRecoveryDecision (only parsing).

(** Why. *)
Module CognitionReasons.

Inductive CognitionRecoveryReason :=
  | EffectNotStarted | ReceiptRequired | ReceiptAlreadyPersisted | ArtifactAlreadyPersisted
  | ResultAlreadyPersisted | TerminalFailurePersisted.

#[global] Instance CognitionRecoveryReason_eq_dec : EqDecision CognitionRecoveryReason.
Proof. solve_decision. Defined.

Definition encode (x : CognitionRecoveryReason) : string :=
  match x with
  | EffectNotStarted => "effect_not_started"
  | ReceiptRequired => "receipt_required"
  | ReceiptAlreadyPersisted => "receipt_already_persisted"
  | ArtifactAlreadyPersisted => "artifact_already_persisted"
  | ResultAlreadyPersisted => "result_already_persisted"
  | TerminalFailurePersisted => "terminal_failure_persisted"
  end.

Definition decode (s : string) : res CognitionRecoveryReason SessionStoreError :=
  if s == "effect_not_started" then Ok EffectNotStarted
  else if s == "receipt_required" then Ok ReceiptRequired
  else if s == "receipt_already_persisted" then Ok ReceiptAlreadyPersisted
  else if s == "artifact_already_persisted" then Ok ArtifactAlreadyPersisted
  else if s == "result_already_persisted" then Ok ResultAlreadyPersisted
  else if s == "terminal_failure_persisted" then Ok TerminalFailurePersisted
  else Err Store.

Lemma CognitionRecoveryReason_codec :
  (∀ x, decode (encode x) = Ok x) ∧ (∀ s x, decode s = Ok x → encode x = s).
Proof. solve_codec decode. Qed.

End CognitionReasons.
Notation CognitionRecoveryReason := CognitionReasons.CognitionRecoveryReason (only parsing).

Record CognitionRecoveryClassification := {
  n_decision : CognitionRecoveryDecision;
  n_reason : CognitionRecoveryReason;
  n_operator_action_required : bool;
}.

(** [CognitionRecoveryClassification::for_interrupted] *)
Definition cognition_recovery (position : CognitionExecutionPosition) :
    CognitionRecoveryClassification :=
  let '(decision, reason) :=
    match position with
    | CognitionPositions.Prepared =>
        (CognitionDecisions.PersistPrompt, CognitionReasons.EffectNotStarted)
    | CognitionPositions.PromptPersisted =>
        (CognitionDecisions.StartInference, CognitionReasons.EffectNotStarted)
    | CognitionPositions.InferenceStarted =>
        (CognitionDecisions.RecoverReceipt, CognitionReasons.ReceiptRequired)
    | CognitionPositions.InferenceCompleted =>
        (CognitionDecisions.PersistArtifact, CognitionReasons.ReceiptAlreadyPersisted)
    | CognitionPositions.ArtifactPersisted =>
        (CognitionDecisions.ContinueTurn, CognitionReasons.ArtifactAlreadyPersisted)
    | CognitionPositions.ResultPersisted =>
        (CognitionDecisions.ContinueTurn, CognitionReasons.ResultAlreadyPersisted)
    | CognitionPositions.Failed =>
        (CognitionDecisions.ContinueTurn, CognitionReasons.TerminalFailurePersisted)
    end in
  {| n_decision := decision; n_reason := reason; n_operator_action_required := false |}.

(** * Perception *)

(** How far a perception got. *)
Module PerceptionPositions.

Inductive PerceptionExecutionPosition :=
  | Prepared | MediaPersisted | InferenceStarted | InferenceCompleted | ArtifactPersisted
  | ResultPersisted | Failed.

#[global] Instance PerceptionExecutionPosition_eq_dec : EqDecision PerceptionExecutionPosition.
Proof. solve_decision. Defined.

Definition can_advance_to (x next : PerceptionExecutionPosition) : bool :=
  match x, next with
  | Prepared, MediaPersisted
  | MediaPersisted, InferenceStarted
  | InferenceStarted, InferenceCompleted
  | InferenceCompleted, ArtifactPersisted
  | ArtifactPersisted, ResultPersisted => true
  | _, _ => false
  end.

Definition stage (x : PerceptionExecutionPosition) : nat :=
  match x with
  | Prepared => 0
  | MediaPersisted => 1
  | InferenceStarted => 2
  | InferenceCompleted => 3
  | ArtifactPersisted => 4
  | ResultPersisted => 5
  | Failed => 6
  end.

Definition encode (x : PerceptionExecutionPosition) : string :=
  match x with
  | Prepared => "prepared"
  | MediaPersisted => "media_persisted"
  | InferenceStarted => "inference_started"
  | InferenceCompleted => "inference_completed"
  | ArtifactPersisted => "artifact_persisted"
  | ResultPersisted => "result_persisted"
  | Failed => "failed"
  end.

Definition decode (s : string) : res PerceptionExecutionPosition SessionStoreError :=
  if s == "prepared" then Ok Prepared
  else if s == "media_persisted" then Ok MediaPersisted
  else if s == "inference_started" then Ok InferenceStarted
  else if s == "inference_completed" then Ok InferenceCompleted
  else if s == "artifact_persisted" then Ok ArtifactPersisted
  else if s == "result_persisted" then Ok ResultPersisted
  else if s == "failed" then Ok Failed
  else Err Store.

Lemma PerceptionExecutionPosition_codec :
  (∀ x, decode (encode x) = Ok x) ∧ (∀ s x, decode s = Ok x → encode x = s).
Proof. solve_codec decode. Qed.

End PerceptionPositions.
Notation PerceptionExecutionPosition := PerceptionPositions.PerceptionExecutionPosition (only parsing).

(** What may be done about an inference whose outcome is not known. *)
Module PerceptionPolicies.

Inductive PerceptionRecoveryPolicy :=
  | NeverReplay | RetryWithSameInvocation | RecoverFromReceipt.

#[global] Instance PerceptionRecoveryPolicy_eq_dec : EqDecision PerceptionRecoveryPolicy.
Proof. solve_decision. Defined.

Definition encode (x : PerceptionRecoveryPolicy) : string :=
  match x with
  | NeverReplay => "never_replay"
  | RetryWithSameInvocation => "retry_with_same_invocation"
  | RecoverFromReceipt => "recover_from_receipt"
  end.

Definition decode (s : string) : res PerceptionRecoveryPolicy SessionStoreError :=
  if s == "never_replay" then Ok NeverReplay
  else if s == "retry_with_same_invocation" then Ok RetryWithSameInvocation
  else if s == "recover_from_receipt" then Ok RecoverFromReceipt
  else Err Store.

Lemma PerceptionRecoveryPolicy_codec :
  (∀ x, decode (encode x) = Ok x) ∧ (∀ s x, decode s = Ok x → encode x = s).
Proof. solve_codec decode. Qed.

End PerceptionPolicies.
Notation PerceptionRecoveryPolicy := PerceptionPolicies.PerceptionRecoveryPolicy (only parsing).

(** What recovery does next. *)
Module PerceptionDecisions.

Inductive PerceptionRecoveryDecision :=
  | PersistMedia | StartInference | RetrySameInvocation | RecoverReceipt | PersistArtifact
  | ContinueTurn | ManualReconciliation.

#[global] Instance PerceptionRecoveryDecision_eq_dec : EqDecision PerceptionRecoveryDecision.
Proof. solve_decision. Defined.

Definition encode (x : PerceptionRecoveryDecision) : string :=
  match x with
  | PersistMedia => "persist_media"
  | StartInference => "start_inference"
  | RetrySameInvocation => "retry_same_invocation"
  | RecoverReceipt => "recover_receipt"
  | PersistArtifact => "persist_artifact"
  | ContinueTurn => "continue_turn"
  | ManualReconciliation => "manual_reconciliation"
  end.

Definition decode (s : string) : res PerceptionRecoveryDecision SessionStoreError :=
  if s == "persist_media" then Ok PersistMedia
  else if s == "start_inference" then Ok StartInference
  else if s == "retry_same_invocation" then Ok RetrySameInvocation
  else if s == "recover_receipt" then Ok RecoverReceipt
  else if s == "persist_artifact" then Ok PersistArtifact
  else if s == "continue_turn" then Ok ContinueTurn
  else if s == "manual_reconciliation" then Ok ManualReconciliation
  else Err Store.

Lemma PerceptionRecoveryDecision_codec :
  (∀ x, decode (encode x) = Ok x) ∧ (∀ s x, decode s = Ok x → encode x = s).
Proof. solve_codec decode. Qed.

End PerceptionDecisions.
Notation PerceptionRecoveryDecision := PerceptionDecisions.PerceptionRecoveryDecision (only parsing).

(** Why. *)
Module PerceptionReasons.

Inductive PerceptionRecoveryReason :=
  | EffectNotStarted | SameIdentityReplayAllowed | ReceiptRequired | InferenceOutcomeUncertain
  | ReceiptAlreadyPersisted | ArtifactAlreadyPersisted | ResultAlreadyPersisted
  | TerminalFailurePersisted.

#[global] Instance PerceptionRecoveryReason_eq_dec : EqDecision PerceptionRecoveryReason.
Proof. solve_decision. Defined.

Definition encode (x : PerceptionRecoveryReason) : string :=
  match x with
  | EffectNotStarted => "effect_not_started"
  | SameIdentityReplayAllowed => "same_identity_replay_allowed"
  | ReceiptRequired => "receipt_required"
  | InferenceOutcomeUncertain => "inference_outcome_uncertain"
  | ReceiptAlreadyPersisted => "receipt_already_persisted"
  | ArtifactAlreadyPersisted => "artifact_already_persisted"
  | ResultAlreadyPersisted => "result_already_persisted"
  | TerminalFailurePersisted => "terminal_failure_persisted"
  end.

Definition decode (s : string) : res PerceptionRecoveryReason SessionStoreError :=
  if s == "effect_not_started" then Ok EffectNotStarted
  else if s == "same_identity_replay_allowed" then Ok SameIdentityReplayAllowed
  else if s == "receipt_required" then Ok ReceiptRequired
  else if s == "inference_outcome_uncertain" then Ok InferenceOutcomeUncertain
  else if s == "receipt_already_persisted" then Ok ReceiptAlreadyPersisted
  else if s == "artifact_already_persisted" then Ok ArtifactAlreadyPersisted
  else if s == "result_already_persisted" then Ok ResultAlreadyPersisted
  else if s == "terminal_failure_persisted" then Ok TerminalFailurePersisted
  else Err Store.

Lemma PerceptionRecoveryReason_codec :
  (∀ x, decode (encode x) = Ok x) ∧ (∀ s x, decode s = Ok x → encode x = s).
Proof. solve_codec decode. Qed.

End PerceptionReasons.
Notation PerceptionRecoveryReason := PerceptionReasons.PerceptionRecoveryReason (only parsing).

(** Why an inference failed. *)
Module PerceptionFailures.

Inductive PerceptionFailureKind :=
  | Provider | TimedOut | InvalidResponse.

#[global] Instance PerceptionFailureKind_eq_dec : EqDecision PerceptionFailureKind.
Proof. solve_decision. Defined.

Definition encode (x : PerceptionFailureKind) : string :=
  match x with
  | Provider => "provider"
  | TimedOut => "timed_out"
  | InvalidResponse => "invalid_response"
  end.

Definition decode (s : string) : res PerceptionFailureKind SessionStoreError :=
  if s == "provider" then Ok Provider
  else if s == "timed_out" then Ok TimedOut
  else if s == "invalid_response" then Ok InvalidResponse
  else Err Store.

Lemma PerceptionFailureKind_codec :
  (∀ x, decode (encode x) = Ok x) ∧ (∀ s x, decode s = Ok x → encode x = s).
Proof. solve_codec decode. Qed.

End PerceptionFailures.
Notation PerceptionFailureKind := PerceptionFailures.PerceptionFailureKind (only parsing).

Record PerceptionRecoveryClassification := {
  p_decision : PerceptionRecoveryDecision;
  p_reason : PerceptionRecoveryReason;
  p_operator_action_required : bool;
}.

(** [PerceptionRecoveryClassification::for_interrupted] *)
Definition perception_recovery (position : PerceptionExecutionPosition)
    (policy : PerceptionRecoveryPolicy) : PerceptionRecoveryClassification :=
  let '(decision, reason, operator) :=
    match position with
    | PerceptionPositions.Prepared =>
        (PerceptionDecisions.PersistMedia, PerceptionReasons.EffectNotStarted, false)
    | PerceptionPositions.MediaPersisted =>
        (PerceptionDecisions.StartInference, PerceptionReasons.EffectNotStarted, false)
    | PerceptionPositions.InferenceStarted =>
        match policy with
        | PerceptionPolicies.NeverReplay =>
            (PerceptionDecisions.ManualReconciliation,
             PerceptionReasons.InferenceOutcomeUncertain, true)
        | PerceptionPolicies.RetryWithSameInvocation =>
            (PerceptionDecisions.RetrySameInvocation,
             PerceptionReasons.SameIdentityReplayAllowed, false)
        | PerceptionPolicies.RecoverFromReceipt =>
            (PerceptionDecisions.RecoverReceipt, PerceptionReasons.ReceiptRequired, false)
        end
    | PerceptionPositions.InferenceCompleted =>
        (PerceptionDecisions.PersistArtifact, PerceptionReasons.ReceiptAlreadyPersisted, false)
    | PerceptionPositions.ArtifactPersisted =>
        (PerceptionDecisions.ContinueTurn, PerceptionReasons.ArtifactAlreadyPersisted, false)
    | PerceptionPositions.ResultPersisted =>
        (PerceptionDecisions.ContinueTurn, PerceptionReasons.ResultAlreadyPersisted, false)
    | PerceptionPositions.Failed =>
        (PerceptionDecisions.ContinueTurn, PerceptionReasons.TerminalFailurePersisted, false)
    end in
  {| p_decision := decision; p_reason := reason; p_operator_action_required := operator |}.

(** * Checks *)

Definition is_ascii_hexdigit (c : ascii) : bool :=
  let n := nat_of_ascii c in
  (48 <=? n)%nat && (n <=? 57)%nat || (65 <=? n)%nat && (n <=? 70)%nat
  || (97 <=? n)%nat && (n <=? 102)%nat.

Fixpoint all_chars (f : ascii → bool) (s : string) : bool :=
  match s with EmptyString => true | String c s => f c && all_chars f s end.

Fixpoint skip (n : nat) (s : string) : string :=
  match n, s with
  | S n, String _ s => skip n s
  | _, _ => s
  end.

(** [valid_digest] *)
Definition valid_digest (s : string) : bool :=
  (String.length s =? 71)%nat && String.prefix "sha256:" s && all_chars is_ascii_hexdigit (skip 7 s).

(** [valid_artifact_locator] *)
Definition valid_artifact_locator `{Crates} (s : string) : bool :=
  String.prefix "artifact:" s && uuid_parses (skip 9 s).

(** The columns of an invocation that a CHECK ties to its position: the prompt or the
    media, the receipt, the output and its digest, and the failure. *)
Record facts := {
  f_input : option string;
  f_receipt : option string;
  f_output : option string;
  f_digest : option string;
  f_failed : bool;
}.

Definition is_some {A} (o : option A) : bool := match o with Some _ => true | None => false end.

(** The two CHECKs, by the place of the position. *)
Definition facts_match (stage : nat) (f : facts) : bool :=
  match stage with
  | 0 => negb (is_some (f_input f)) && negb (is_some (f_receipt f))
         && negb (is_some (f_output f)) && negb (is_some (f_digest f))
  | 1 | 2 => is_some (f_input f) && negb (is_some (f_receipt f))
             && negb (is_some (f_output f)) && negb (is_some (f_digest f))
  | 3 => is_some (f_input f) && is_some (f_receipt f)
         && negb (is_some (f_output f)) && negb (is_some (f_digest f))
  | 4 | 5 => is_some (f_input f) && is_some (f_receipt f)
             && is_some (f_output f) && is_some (f_digest f)
  | _ => is_some (f_input f) && negb (is_some (f_receipt f))
         && negb (is_some (f_output f)) && negb (is_some (f_digest f)) && f_failed f
  end && Bool.eqb (stage =? 6)%nat (f_failed f).

(** * Cognition *)

Record CognitionInvocationStart := {
  ci_session_id : SessionId;
  ci_turn_id : string;
  ci_agent_instance_id : AgentInstanceId;
  ci_invocation_id : string;
  ci_role : CognitiveRole;
  ci_provider_id : string;
  ci_model_id : string;
  ci_recovery_policy : CognitionRecoveryPolicy;
  ci_capability_revision : string;
  ci_input_digest : string;
  ci_input_bytes : Z;
  ci_max_turn_calls : Z;
}.

Record CognitionAdvance := {
  gv_invocation_id : string;
  gv_expected_revision : Z;
  gv_expected_position : CognitionExecutionPosition;
  gv_next_position : CognitionExecutionPosition;
}.

Record CognitionPromptPersistence := {
  gp_invocation_id : string;
  gp_expected_revision : Z;
  gp_artifact_locator : string;
}.

Record CognitionReceiptPersistence := {
  gr_invocation_id : string;
  gr_expected_revision : Z;
  gr_artifact_locator : string;
}.

Record CognitionOutputPersistence := {
  go_invocation_id : string;
  go_expected_revision : Z;
  go_artifact_locator : string;
  go_output_digest : string;
}.

Record CognitionFailurePersistence := {
  gf_invocation_id : string;
  gf_expected_revision : Z;
  gf_failure_kind : CognitionFailureKind;
}.

Record CognitionInvocationSnapshot := {
  cg_session_id : SessionId;
  cg_turn_id : string;
  cg_agent_instance_id : AgentInstanceId;
  cg_invocation_id : string;
  cg_role : CognitiveRole;
  cg_provider_id : string;
  cg_model_id : string;
  cg_recovery_policy : CognitionRecoveryPolicy;
  cg_capability_revision : string;
  cg_input_digest : string;
  cg_input_bytes : Z;
  cg_position : CognitionExecutionPosition;
  cg_ledger_revision : Z;
  cg_prompt_artifact_locator : option string;
  cg_receipt_locator : option string;
  cg_output_artifact_locator : option string;
  cg_output_digest : option string;
  cg_failure_kind : option CognitionFailureKind;
  cg_recovery_decision : option CognitionRecoveryDecision;
  cg_recovery_reason : option CognitionRecoveryReason;
  cg_operator_action_required : bool;
  cg_recovery_owner : option string;
  cg_recovery_lease_expires_at : option Z;
  cg_started_at : Z;
  cg_updated_at : Z;
}.

Record CognitionRecoveryWrite := {
  gw_invocation_id : string;
  gw_expected_revision : Z;
  gw_recovery_owner : string;
  gw_observed_at : Z;
  gw_lease_expires_at : Z;
  gw_classification : CognitionRecoveryClassification;
}.

(** * Perception *)

Record PerceptionInvocationStart := {
  qi_session_id : SessionId;
  qi_turn_id : string;
  qi_agent_instance_id : AgentInstanceId;
  qi_invocation_id : string;
  qi_modality : PerceptionModality;
  qi_role : CognitiveRole;
  qi_provider_id : string;
  qi_model_id : string;
  qi_recovery_policy : PerceptionRecoveryPolicy;
  qi_capability_revision : string;
  qi_input_digest : string;
  qi_input_bytes : Z;
}.

Record PerceptionAdvance := {
  qv_invocation_id : string;
  qv_expected_revision : Z;
  qv_expected_position : PerceptionExecutionPosition;
  qv_next_position : PerceptionExecutionPosition;
}.

Record PerceptionMediaPersistence := {
  qm_invocation_id : string;
  qm_expected_revision : Z;
  qm_artifact_locator : string;
}.

Record PerceptionReceiptPersistence := {
  qr_invocation_id : string;
  qr_expected_revision : Z;
  qr_receipt_locator : string;
}.

Record PerceptionArtifactPersistence := {
  qa_invocation_id : string;
  qa_expected_revision : Z;
  qa_artifact_locator : string;
  qa_output_digest : string;
}.

Record PerceptionFailurePersistence := {
  qf_invocation_id : string;
  qf_expected_revision : Z;
  qf_failure_kind : PerceptionFailureKind;
}.

Record PerceptionInvocationSnapshot := {
  pg_session_id : SessionId;
  pg_turn_id : string;
  pg_agent_instance_id : AgentInstanceId;
  pg_invocation_id : string;
  pg_modality : PerceptionModality;
  pg_role : CognitiveRole;
  pg_provider_id : string;
  pg_model_id : string;
  pg_recovery_policy : PerceptionRecoveryPolicy;
  pg_capability_revision : string;
  pg_input_digest : string;
  pg_input_bytes : Z;
  pg_position : PerceptionExecutionPosition;
  pg_ledger_revision : Z;
  pg_media_artifact_locator : option string;
  pg_receipt_locator : option string;
  pg_output_artifact_locator : option string;
  pg_output_digest : option string;
  pg_failure_kind : option PerceptionFailureKind;
  pg_recovery_decision : option PerceptionRecoveryDecision;
  pg_recovery_reason : option PerceptionRecoveryReason;
  pg_operator_action_required : bool;
  pg_recovery_owner : option string;
  pg_recovery_lease_expires_at : option Z;
  pg_started_at : Z;
  pg_updated_at : Z;
}.

Record PerceptionSessionSummary := {
  sum_invocations : Z;
  sum_completed : Z;
  sum_interrupted : Z;
  sum_operator_action_required : Z;
}.

Record PerceptionRecoveryWrite := {
  qw_invocation_id : string;
  qw_expected_revision : Z;
  qw_recovery_owner : string;
  qw_observed_at : Z;
  qw_lease_expires_at : Z;
  qw_classification : PerceptionRecoveryClassification;
}.

(** * The database *)

(** A row of either ledger: its snapshot, and the columns that count its recoveries. *)
Record recoverable (A : Type) := {
  snapshot : A;
  attempts : Z;
  interrupted_since : option Z;
}.
Arguments snapshot {A}.
Arguments attempts {A}.
Arguments interrupted_since {A}.

Notation cognition_row := (recoverable CognitionInvocationSnapshot).
Notation perception_row := (recoverable PerceptionInvocationSnapshot).

(** The session store with the ledgers of its inferences. *)
Record idb := {
  tables : tdb;
  cognitions : gmap (TurnKey * string) cognition_row;
  perceptions : gmap (TurnKey * string) perception_row;
}.

Notation itx A := (res (A * idb) SessionStoreError).

Definition set_tables (d : idb) x : idb :=
  {| tables := x; cognitions := cognitions d; perceptions := perceptions d |}.
Definition set_cognitions (d : idb) x : idb :=
  {| tables := tables d; cognitions := x; perceptions := perceptions d |}.
Definition set_perceptions (d : idb) x : idb :=
  {| tables := tables d; cognitions := cognitions d; perceptions := x |}.

(** * Shared by both ledgers *)

(** [COALESCE] *)
Definition coalesce {A} (x y : option A) : option A :=
  match x with Some _ => x | None => y end.

(** The roles of each ledger. *)
Definition text_role (r : CognitiveRole) : bool :=
  match r with Roles.FastDraft | Roles.Deliberation | Roles.Critic => true | _ => false end.

Definition media_role (r : CognitiveRole) : bool :=
  match r with Roles.Vision | Roles.Audio | Roles.Document => true | _ => false end.

(** [EXISTS (SELECT 1 FROM session_turns t WHERE … AND t.state='running')] *)
Definition turn_runs (d : idb) (key : TurnKey) : bool :=
  match session_turns (tables d) !! key with
  | Some t => tn_state t == TurnStates.Running
  | None => false
  end.

(** The same for the turns of one instance. *)
Definition running_for (d : idb) (key : TurnKey) (i : AgentInstanceId) : bool :=
  match session_turns (tables d) !! key with
  | Some t => (tn_state t == TurnStates.Running) && (tn_agent_instance_id t == i)
  | None => false
  end.
