(* ===== verification/InferenceStore.v ===== *)
(** The store of inferences: [begin_cognition] to [classify_perception_recovery] of
    [impl SessionStore for SqliteSessionStore],
    src/sylvander-runtime/src/storage/session/sqlite.rs, with the listings of both
    ledgers.

    A cognition is one call of a text specialist inside a turn, a perception one
    inference over its media. An operation is one transaction over the ledger, with the
    clock it reads as [now]. *)

From S2P Require Import Prelude ToolInvocation Instance Store WorkspaceStore InstanceStore.
From S2P Require Import Ledger SessionTables TurnStore Inference.
From stdpp Require Import base tactics gmap strings list sorting.
From Stdlib Require Import ZArith.

Section store.
Context `{Crates}.

(** The row with an invocation id, of which the schema admits one. *)
Definition find_cognition (d : idb) (invocation : string) : option (TurnKey * string * cognition_row) :=
  list_find (λ kr, cg_invocation_id (snapshot kr.2) = invocation) (map_to_list (cognitions d))
    ≫= λ x, Some x.2.

Definition cognition_facts (r : CognitionInvocationSnapshot) : facts := {|
  f_input := cg_prompt_artifact_locator r; f_receipt := cg_receipt_locator r;
  f_output := cg_output_artifact_locator r; f_digest := cg_output_digest r;
  f_failed := is_some (cg_failure_kind r) |}.

(** The calls of an instance in a turn. *)
Definition cognition_calls (d : idb) (session : SessionId) (turn : string) (i : AgentInstanceId) : Z :=
  Z.of_nat (length (filter (λ kr, kr.1.1 = (session, turn) ∧ cg_agent_instance_id (snapshot kr.2) = i)
    (map_to_list (cognitions d)))).

(** [begin_cognition] *)
Definition begin_cognition (d : idb) (s : CognitionInvocationStart) (now : Z) : itx unit :=
  bail (ci_input_bytes s =? 0)%Z || (ci_max_turn_calls s =? 0)%Z
       || trim_is_empty (ci_turn_id s) || trim_is_empty (ci_provider_id s)
       || trim_is_empty (ci_model_id s)
       || negb (text_role (ci_role s)) || negb (valid_digest (ci_capability_revision s))
       || negb (valid_digest (ci_input_digest s)) with Invalid;;
  input_bytes <- checked_i64 (ci_input_bytes s);;
  let key := (ci_session_id s, ci_turn_id s) in
  bail (ci_max_turn_calls s <=?
        cognition_calls d (ci_session_id s) (ci_turn_id s) (ci_agent_instance_id s))%Z with Invalid;;
  bail negb (running_for d key (ci_agent_instance_id s)) with Invalid;;
  bail is_some (find_cognition d (ci_invocation_id s))
       || negb (has_instance (base (sd (tables d))) (ci_session_id s) (ci_agent_instance_id s))
    with Invalid;;
  Ok (tt, set_cognitions d (<[(key, ci_invocation_id s) := {| attempts := 0; interrupted_since := None;
    snapshot := {|
      cg_session_id := ci_session_id s;
      cg_turn_id := ci_turn_id s;
      cg_agent_instance_id := ci_agent_instance_id s;
      cg_invocation_id := ci_invocation_id s;
      cg_role := ci_role s;
      cg_provider_id := ci_provider_id s;
      cg_model_id := ci_model_id s;
      cg_recovery_policy := ci_recovery_policy s;
      cg_capability_revision := ci_capability_revision s;
      cg_input_digest := ci_input_digest s;
      cg_input_bytes := input_bytes;
      cg_position := CognitionPositions.Prepared; cg_ledger_revision := 0;
      cg_prompt_artifact_locator := None; cg_receipt_locator := None;
      cg_output_artifact_locator := None; cg_output_digest := None; cg_failure_kind := None;
      cg_recovery_decision := None; cg_recovery_reason := None;
      cg_operator_action_required := false; cg_recovery_owner := None;
      cg_recovery_lease_expires_at := None; cg_started_at := now; cg_updated_at := now |} |}]>
    (cognitions d))).

(** The columns that an update of the position writes. *)
Definition moved_cognition (r : CognitionInvocationSnapshot) (position : CognitionExecutionPosition)
    (prompt receipt output digest : option string) (failure : option CognitionFailureKind) (now : Z) :
    CognitionInvocationSnapshot := {|
  cg_session_id := cg_session_id r;
  cg_turn_id := cg_turn_id r;
  cg_agent_instance_id := cg_agent_instance_id r;
  cg_invocation_id := cg_invocation_id r;
  cg_role := cg_role r;
  cg_provider_id := cg_provider_id r;
  cg_model_id := cg_model_id r;
  cg_recovery_policy := cg_recovery_policy r;
  cg_capability_revision := cg_capability_revision r;
  cg_input_digest := cg_input_digest r;
  cg_input_bytes := cg_input_bytes r;
  cg_position := position; cg_ledger_revision := cg_ledger_revision r + 1;
  cg_prompt_artifact_locator := coalesce prompt (cg_prompt_artifact_locator r);
  cg_receipt_locator := coalesce receipt (cg_receipt_locator r);
  cg_output_artifact_locator := coalesce output (cg_output_artifact_locator r);
  cg_output_digest := coalesce digest (cg_output_digest r);
  cg_failure_kind := coalesce failure (cg_failure_kind r);
  cg_recovery_decision := cg_recovery_decision r;
  cg_recovery_reason := cg_recovery_reason r;
  cg_operator_action_required := cg_operator_action_required r;
  cg_recovery_owner := cg_recovery_owner r;
  cg_recovery_lease_expires_at := cg_recovery_lease_expires_at r;
  cg_started_at := cg_started_at r; cg_updated_at := now |}.

(** [UPDATE] of a row, with the CHECKs of its table. *)
Definition put_cognition (d : idb) (key : TurnKey * string) (row : cognition_row)
    (r : CognitionInvocationSnapshot) : res idb SessionStoreError :=
  bail negb (facts_match (CognitionPositions.stage (cg_position r)) (cognition_facts r)) with Store;;
  Ok (set_cognitions d (<[key := {| snapshot := r; attempts := attempts row;
    interrupted_since := interrupted_since row |}]> (cognitions d))).

(** [cognition_update] *)
Definition cognition_update (d : idb) (invocation : string) (expected_revision : Z)
    (expected_position next_position : CognitionExecutionPosition)
    (prompt receipt output digest : option string) (now : Z) : itx Z :=
  bail negb (CognitionPositions.can_advance_to expected_position next_position) with Invalid;;
  expected <- checked_i64 expected_revision;;
  next <- next_u64 expected_revision;;
  found <- ok_or (find_cognition d invocation) Invalid;;
  let '(key, row) := found in
  let r := snapshot row in
  bail (cg_position r != expected_position) || negb (cg_ledger_revision r =? expected)%Z
       || negb (turn_runs d (cg_session_id r, cg_turn_id r)) with Invalid;;
  d <- put_cognition d key row (moved_cognition r next_position prompt receipt output digest None now);;
  Ok (next, d).

(** [persist_cognition_prompt] *)
Definition persist_cognition_prompt (d : idb) (w : CognitionPromptPersistence) (now : Z) : itx Z :=
  bail negb (valid_artifact_locator (gp_artifact_locator w)) with Invalid;;
  cognition_update d (gp_invocation_id w) (gp_expected_revision w)
    CognitionPositions.Prepared CognitionPositions.PromptPersisted (Some (gp_artifact_locator w)) None None None now.

(** [advance_cognition] *)
Definition advance_cognition (d : idb) (a : CognitionAdvance) (now : Z) : itx Z :=
  cognition_update d (gv_invocation_id a) (gv_expected_revision a)
    (gv_expected_position a) (gv_next_position a) None None None None now.

(** [persist_cognition_receipt] *)
Definition persist_cognition_receipt (d : idb) (w : CognitionReceiptPersistence) (now : Z) : itx Z :=
  bail negb (valid_artifact_locator (gr_artifact_locator w)) with Invalid;;
  cognition_update d (gr_invocation_id w) (gr_expected_revision w)
    CognitionPositions.InferenceStarted CognitionPositions.InferenceCompleted None (Some (gr_artifact_locator w)) None None now.

(** [persist_cognition_output] *)
Definition persist_cognition_output (d : idb) (w : CognitionOutputPersistence) (now : Z) : itx Z :=
  bail negb (valid_artifact_locator (go_artifact_locator w))
       || negb (valid_digest (go_output_digest w)) with Invalid;;
  cognition_update d (go_invocation_id w) (go_expected_revision w)
    CognitionPositions.InferenceCompleted CognitionPositions.ArtifactPersisted None None (Some (go_artifact_locator w))
    (Some (go_output_digest w)) now.

(** [complete_cognition] *)
Definition complete_cognition (d : idb) (invocation : string) (expected_revision : Z) (now : Z) : itx Z :=
  cognition_update d invocation expected_revision CognitionPositions.ArtifactPersisted
    CognitionPositions.ResultPersisted None None None None now.

(** [fail_cognition] and [cognition_fail] *)
Definition fail_cognition (d : idb) (w : CognitionFailurePersistence) (now : Z) : itx Z :=
  expected <- checked_i64 (gf_expected_revision w);;
  next <- next_u64 (gf_expected_revision w);;
  found <- ok_or (find_cognition d (gf_invocation_id w)) Invalid;;
  let '(key, row) := found in
  let r := snapshot row in
  bail (cg_position r != CognitionPositions.InferenceStarted)
       || negb (cg_ledger_revision r =? expected)%Z
       || negb (turn_runs d (cg_session_id r, cg_turn_id r)) with Invalid;;
  d <- put_cognition d key row (moved_cognition r CognitionPositions.Failed None None None None
         (Some (gf_failure_kind w)) now);;
  Ok (next, d).

(** [position NOT IN ('result_persisted','failed')] *)
Definition cognition_open (r : CognitionInvocationSnapshot) : bool :=
  (cg_position r != CognitionPositions.ResultPersisted) && (cg_position r != CognitionPositions.Failed).

(** [classify_cognition_recovery] *)
Definition classify_cognition_recovery (d : idb) (w : CognitionRecoveryWrite) : itx Z :=
  bail trim_is_empty (gw_recovery_owner w) || (gw_lease_expires_at w <=? gw_observed_at w)%Z
    with Invalid;;
  expected <- checked_i64 (gw_expected_revision w);;
  next <- next_u64 (gw_expected_revision w);;
  found <- ok_or (find_cognition d (gw_invocation_id w)) Invalid;;
  let '(key, row) := found in
  let r := snapshot row in
  bail negb (cg_ledger_revision r =? expected)%Z || negb (cognition_open r)
       || negb (match cg_recovery_lease_expires_at r with
                | Some expires => (expires <=? gw_observed_at w)%Z
                | None => true
                end || (cg_recovery_owner r == Some (gw_recovery_owner w))) with Invalid;;
  Ok (next, set_cognitions d (<[key := {|
    attempts := attempts row + 1;
    interrupted_since := Some (default (gw_observed_at w) (interrupted_since row));
    snapshot := {|
      cg_session_id := cg_session_id r;
      cg_turn_id := cg_turn_id r;
      cg_agent_instance_id := cg_agent_instance_id r;
      cg_invocation_id := cg_invocation_id r;
      cg_role := cg_role r;
      cg_provider_id := cg_provider_id r;
      cg_model_id := cg_model_id r;
      cg_recovery_policy := cg_recovery_policy r;
      cg_capability_revision := cg_capability_revision r;
      cg_input_digest := cg_input_digest r;
      cg_input_bytes := cg_input_bytes r;
      cg_position := cg_position r; cg_ledger_revision := cg_ledger_revision r + 1;
      cg_prompt_artifact_locator := cg_prompt_artifact_locator r;
      cg_receipt_locator := cg_receipt_locator r;
      cg_output_artifact_locator := cg_output_artifact_locator r;
      cg_output_digest := cg_output_digest r; cg_failure_kind := cg_failure_kind r;
      cg_recovery_decision := Some (n_decision (gw_classification w));
      cg_recovery_reason := Some (n_reason (gw_classification w));
      cg_operator_action_required := n_operator_action_required (gw_classification w);
      cg_recovery_owner := Some (gw_recovery_owner w);
      cg_recovery_lease_expires_at := Some (gw_lease_expires_at w);
      cg_started_at := cg_started_at r; cg_updated_at := gw_observed_at w |} |}]>
    (cognitions d))).

(** ** Reading *)

(** A row decodes when its id is a uuid and its revision is still an integer. *)
Definition read_cognition (r : cognition_row) : res CognitionInvocationSnapshot SessionStoreError :=
  bail negb (uuid_parses (cg_invocation_id (snapshot r))) with Store;;
  bail (i64_max <? cg_ledger_revision (snapshot r))%Z with Store;;
  Ok (snapshot r).

(** [ORDER BY time, invocation_id] *)
Definition cognition_before (time : CognitionInvocationSnapshot → Z) (a b : cognition_row) : bool :=
  let a := snapshot a in let b := snapshot b in
  (time a <? time b)%Z
  || (time a =? time b)%Z && string_le (cg_invocation_id a) (cg_invocation_id b).

(** [cognition_invocations] *)
Definition cognition_invocations (d : idb) (session : SessionId) (turn : string) :
    res (list CognitionInvocationSnapshot) SessionStoreError :=
  read_all read_cognition (stable_sort (cognition_before cg_started_at)
    (filter (λ kr, kr.1.1 = (session, turn)) (map_to_list (cognitions d))).*2).

(** A row of a running turn that has not ended. *)
Definition cognition_interrupted (d : idb) (row : cognition_row) : bool :=
  let r := snapshot row in turn_runs d (cg_session_id r, cg_turn_id r) && cognition_open r.

(** [interrupted_cognition_invocations] *)
Definition interrupted_cognition_invocations (d : idb) :
    res (list CognitionInvocationSnapshot) SessionStoreError :=
  read_all read_cognition (stable_sort (cognition_before cg_updated_at)
    (filter (λ row, cognition_interrupted d row = true) (map_to_list (cognitions d)).*2)).
End store.

Section store.
Context `{Crates}.

(** The row with an invocation id, of which the schema admits one. *)
Definition find_perception (d : idb) (invocation : string) : option (TurnKey * string * perception_row) :=
  list_find (λ kr, pg_invocation_id (snapshot kr.2) = invocation) (map_to_list (perceptions d))
    ≫= λ x, Some x.2.

Definition perception_facts (r : PerceptionInvocationSnapshot) : facts := {|
  f_input := pg_media_artifact_locator r; f_receipt := pg_receipt_locator r;
  f_output := pg_output_artifact_locator r; f_digest := pg_output_digest r;
  f_failed := is_some (pg_failure_kind r) |}.

(** [begin_perception] *)
Definition begin_perception (d : idb) (s : PerceptionInvocationStart) (now : Z) : itx unit :=
  bail (qi_input_bytes s =? 0)%Z with Invalid;;
  bail trim_is_empty (qi_turn_id s) || trim_is_empty (qi_provider_id s)
       || trim_is_empty (qi_model_id s)
       || negb (media_role (qi_role s)) || negb (valid_digest (qi_capability_revision s))
       || negb (valid_digest (qi_input_digest s)) with Invalid;;
  input_bytes <- checked_i64 (qi_input_bytes s);;
  let key := (qi_session_id s, qi_turn_id s) in
  bail negb (running_for d key (qi_agent_instance_id s)) with Invalid;;
  bail is_some (find_perception d (qi_invocation_id s))
       || negb (has_instance (base (sd (tables d))) (qi_session_id s) (qi_agent_instance_id s))
    with Invalid;;
  Ok (tt, set_perceptions d (<[(key, qi_invocation_id s) := {| attempts := 0; interrupted_since := None;
    snapshot := {|
      pg_session_id := qi_session_id s;
      pg_turn_id := qi_turn_id s;
      pg_agent_instance_id := qi_agent_instance_id s;
      pg_invocation_id := qi_invocation_id s;
      pg_modality := qi_modality s;
      pg_role := qi_role s;
      pg_provider_id := qi_provider_id s;
      pg_model_id := qi_model_id s;
      pg_recovery_policy := qi_recovery_policy s;
      pg_capability_revision := qi_capability_revision s;
      pg_input_digest := qi_input_digest s;
      pg_input_bytes := input_bytes;
      pg_position := PerceptionPositions.Prepared; pg_ledger_revision := 0;
      pg_media_artifact_locator := None; pg_receipt_locator := None;
      pg_output_artifact_locator := None; pg_output_digest := None; pg_failure_kind := None;
      pg_recovery_decision := None; pg_recovery_reason := None;
      pg_operator_action_required := false; pg_recovery_owner := None;
      pg_recovery_lease_expires_at := None; pg_started_at := now; pg_updated_at := now |} |}]>
    (perceptions d))).

(** The columns that an update of the position writes. *)
Definition moved_perception (r : PerceptionInvocationSnapshot) (position : PerceptionExecutionPosition)
    (media receipt output digest : option string) (failure : option PerceptionFailureKind) (now : Z) :
    PerceptionInvocationSnapshot := {|
  pg_session_id := pg_session_id r;
  pg_turn_id := pg_turn_id r;
  pg_agent_instance_id := pg_agent_instance_id r;
  pg_invocation_id := pg_invocation_id r;
  pg_modality := pg_modality r;
  pg_role := pg_role r;
  pg_provider_id := pg_provider_id r;
  pg_model_id := pg_model_id r;
  pg_recovery_policy := pg_recovery_policy r;
  pg_capability_revision := pg_capability_revision r;
  pg_input_digest := pg_input_digest r;
  pg_input_bytes := pg_input_bytes r;
  pg_position := position; pg_ledger_revision := pg_ledger_revision r + 1;
  pg_media_artifact_locator := coalesce media (pg_media_artifact_locator r);
  pg_receipt_locator := coalesce receipt (pg_receipt_locator r);
  pg_output_artifact_locator := coalesce output (pg_output_artifact_locator r);
  pg_output_digest := coalesce digest (pg_output_digest r);
  pg_failure_kind := coalesce failure (pg_failure_kind r);
  pg_recovery_decision := pg_recovery_decision r;
  pg_recovery_reason := pg_recovery_reason r;
  pg_operator_action_required := pg_operator_action_required r;
  pg_recovery_owner := pg_recovery_owner r;
  pg_recovery_lease_expires_at := pg_recovery_lease_expires_at r;
  pg_started_at := pg_started_at r; pg_updated_at := now |}.

(** [UPDATE] of a row, with the CHECKs of its table. *)
Definition put_perception (d : idb) (key : TurnKey * string) (row : perception_row)
    (r : PerceptionInvocationSnapshot) : res idb SessionStoreError :=
  bail negb (facts_match (PerceptionPositions.stage (pg_position r)) (perception_facts r)) with Store;;
  Ok (set_perceptions d (<[key := {| snapshot := r; attempts := attempts row;
    interrupted_since := interrupted_since row |}]> (perceptions d))).

(** [perception_update] *)
Definition perception_update (d : idb) (invocation : string) (expected_revision : Z)
    (expected_position next_position : PerceptionExecutionPosition)
    (media receipt output digest : option string) (now : Z) : itx Z :=
  bail negb (PerceptionPositions.can_advance_to expected_position next_position) with Invalid;;
  expected <- checked_i64 expected_revision;;
  next <- next_u64 expected_revision;;
  found <- ok_or (find_perception d invocation) Invalid;;
  let '(key, row) := found in
  let r := snapshot row in
  bail (pg_position r != expected_position) || negb (pg_ledger_revision r =? expected)%Z
       || negb (turn_runs d (pg_session_id r, pg_turn_id r)) with Invalid;;
  d <- put_perception d key row (moved_perception r next_position media receipt output digest None now);;
  Ok (next, d).

(** [persist_perception_media] *)
Definition persist_perception_media (d : idb) (w : PerceptionMediaPersistence) (now : Z) : itx Z :=
  bail negb (valid_artifact_locator (qm_artifact_locator w)) with Invalid;;
  perception_update d (qm_invocation_id w) (qm_expected_revision w)
    PerceptionPositions.Prepared PerceptionPositions.MediaPersisted (Some (qm_artifact_locator w)) None None None now.

(** [advance_perception] *)
Definition advance_perception (d : idb) (a : PerceptionAdvance) (now : Z) : itx Z :=
  bail (qv_expected_position a != PerceptionPositions.MediaPersisted)
       || (qv_next_position a != PerceptionPositions.InferenceStarted) with Invalid;;
  perception_update d (qv_invocation_id a) (qv_expected_revision a)
    (qv_expected_position a) (qv_next_position a) None None None None now.

(** [persist_perception_receipt] *)
Definition persist_perception_receipt (d : idb) (w : PerceptionReceiptPersistence) (now : Z) : itx Z :=
  bail negb (valid_artifact_locator (qr_receipt_locator w)) with Invalid;;
  perception_update d (qr_invocation_id w) (qr_expected_revision w)
    PerceptionPositions.InferenceStarted PerceptionPositions.InferenceCompleted None (Some (qr_receipt_locator w)) None None now.

(** [persist_perception_artifact] *)
Definition persist_perception_artifact (d : idb) (w : PerceptionArtifactPersistence) (now : Z) : itx Z :=
  bail negb (valid_artifact_locator (qa_artifact_locator w))
       || negb (valid_digest (qa_output_digest w)) with Invalid;;
  perception_update d (qa_invocation_id w) (qa_expected_revision w)
    PerceptionPositions.InferenceCompleted PerceptionPositions.ArtifactPersisted None None (Some (qa_artifact_locator w))
    (Some (qa_output_digest w)) now.

(** [complete_perception] *)
Definition complete_perception (d : idb) (invocation : string) (expected_revision : Z) (now : Z) : itx Z :=
  perception_update d invocation expected_revision PerceptionPositions.ArtifactPersisted
    PerceptionPositions.ResultPersisted None None None None now.

(** [fail_perception] *)
Definition fail_perception (d : idb) (w : PerceptionFailurePersistence) (now : Z) : itx Z :=
  expected <- checked_i64 (qf_expected_revision w);;
  next <- next_u64 (qf_expected_revision w);;
  found <- ok_or (find_perception d (qf_invocation_id w)) Invalid;;
  let '(key, row) := found in
  let r := snapshot row in
  bail (pg_position r != PerceptionPositions.InferenceStarted)
       || negb (pg_ledger_revision r =? expected)%Z
       || negb (turn_runs d (pg_session_id r, pg_turn_id r)) with Invalid;;
  d <- put_perception d key row (moved_perception r PerceptionPositions.Failed None None None None
         (Some (qf_failure_kind w)) now);;
  Ok (next, d).

(** [position NOT IN ('result_persisted','failed')] *)
Definition perception_open (r : PerceptionInvocationSnapshot) : bool :=
  (pg_position r != PerceptionPositions.ResultPersisted) && (pg_position r != PerceptionPositions.Failed).

(** [classify_perception_recovery] *)
Definition classify_perception_recovery (d : idb) (w : PerceptionRecoveryWrite) : itx Z :=
  bail trim_is_empty (qw_recovery_owner w) || (qw_lease_expires_at w <=? qw_observed_at w)%Z
    with Invalid;;
  expected <- checked_i64 (qw_expected_revision w);;
  next <- next_u64 (qw_expected_revision w);;
  found <- ok_or (find_perception d (qw_invocation_id w)) Invalid;;
  let '(key, row) := found in
  let r := snapshot row in
  bail negb (pg_ledger_revision r =? expected)%Z || negb (perception_open r)
       || negb (match pg_recovery_lease_expires_at r with
                | Some expires => (expires <=? qw_observed_at w)%Z
                | None => true
                end || (pg_recovery_owner r == Some (qw_recovery_owner w))) with Invalid;;
  Ok (next, set_perceptions d (<[key := {|
    attempts := attempts row + 1;
    interrupted_since := Some (default (qw_observed_at w) (interrupted_since row));
    snapshot := {|
      pg_session_id := pg_session_id r;
      pg_turn_id := pg_turn_id r;
      pg_agent_instance_id := pg_agent_instance_id r;
      pg_invocation_id := pg_invocation_id r;
      pg_modality := pg_modality r;
      pg_role := pg_role r;
      pg_provider_id := pg_provider_id r;
      pg_model_id := pg_model_id r;
      pg_recovery_policy := pg_recovery_policy r;
      pg_capability_revision := pg_capability_revision r;
      pg_input_digest := pg_input_digest r;
      pg_input_bytes := pg_input_bytes r;
      pg_position := pg_position r; pg_ledger_revision := pg_ledger_revision r + 1;
      pg_media_artifact_locator := pg_media_artifact_locator r;
      pg_receipt_locator := pg_receipt_locator r;
      pg_output_artifact_locator := pg_output_artifact_locator r;
      pg_output_digest := pg_output_digest r; pg_failure_kind := pg_failure_kind r;
      pg_recovery_decision := Some (p_decision (qw_classification w));
      pg_recovery_reason := Some (p_reason (qw_classification w));
      pg_operator_action_required := p_operator_action_required (qw_classification w);
      pg_recovery_owner := Some (qw_recovery_owner w);
      pg_recovery_lease_expires_at := Some (qw_lease_expires_at w);
      pg_started_at := pg_started_at r; pg_updated_at := qw_observed_at w |} |}]>
    (perceptions d))).

(** ** Reading *)

(** A row decodes when its id is a uuid and its revision is still an integer. *)
Definition read_perception (r : perception_row) : res PerceptionInvocationSnapshot SessionStoreError :=
  bail negb (uuid_parses (pg_invocation_id (snapshot r))) with Store;;
  bail (i64_max <? pg_ledger_revision (snapshot r))%Z with Store;;
  Ok (snapshot r).

(** [ORDER BY time, invocation_id] *)
Definition perception_before (time : PerceptionInvocationSnapshot → Z) (a b : perception_row) : bool :=
  let a := snapshot a in let b := snapshot b in
  (time a <? time b)%Z
  || (time a =? time b)%Z && string_le (pg_invocation_id a) (pg_invocation_id b).

(** [perception_invocations] *)
Definition perception_invocations (d : idb) (session : SessionId) (turn : string) :
    res (list PerceptionInvocationSnapshot) SessionStoreError :=
  read_all read_perception (stable_sort (perception_before pg_started_at)
    (filter (λ kr, kr.1.1 = (session, turn)) (map_to_list (perceptions d))).*2).

(** A row of a running turn that has not ended. *)
Definition perception_interrupted (d : idb) (row : perception_row) : bool :=
  let r := snapshot row in turn_runs d (pg_session_id r, pg_turn_id r) && perception_open r.

(** [interrupted_perception_invocations] *)
Definition interrupted_perception_invocations (d : idb) :
    res (list PerceptionInvocationSnapshot) SessionStoreError :=
  read_all read_perception (stable_sort (perception_before pg_updated_at)
    (filter (λ row, perception_interrupted d row = true) (map_to_list (perceptions d)).*2)).

(** [perception_session_summary] *)
Definition perception_session_summary (d : idb) (session : SessionId) : PerceptionSessionSummary :=
  let rows := snapshot <$> (filter (λ kr, kr.1.1.1 = session) (map_to_list (perceptions d))).*2 in
  let count f := Z.of_nat (length (filter (λ r, f r = true) rows)) in {|
    sum_invocations := Z.of_nat (length rows);
    sum_completed := count (λ r, negb (perception_open r));
    sum_interrupted := count perception_open;
    sum_operator_action_required := count pg_operator_action_required |}.
End store.
