(* ===== verification/TurnFacts.v ===== *)
(** The ledgers of the session store: their invariant [turns_ok], and the relation
    [turns_step] between the rows before and after an operation.

    An operation is built from a few changes of the tables; each change keeps the
    invariant under the conditions that the guards of the operations give. *)

From S2P Require Import Prelude Graph Instance Store Ledger ToolContract ToolInvocation.
From S2P Require Import WorkspaceStore InstanceStore SessionTables TurnStore ToolStore.
From S2P Require InstanceStoreFacts.
From stdpp Require Import base tactics gmap strings list sorting relations.
From Stdlib Require Import ZArith Lia.

(** * Lookups *)

Lemma list_find_some_elem {A} (P : A → Prop) `{!∀ x, Decision (P x)} l n x :
  list_find P l = Some (n, x) → x ∈ l ∧ P x.
Proof.
  intros (Hl & HP & _)%list_find_Some. split; [|done]. by eapply list_elem_of_lookup_2.
Qed.

Lemma find_iteration_some d id k r :
  find_iteration d id = Some (k, r) → iterations d !! k = Some r ∧ it_invocation_id r = id.
Proof.
  unfold find_iteration. destruct (list_find _ _) as [[n [k' r']]|] eqn:Hf; [|done].
  intros [= -> ->]. apply list_find_some_elem in Hf as [Hin Hid].
  by apply elem_of_map_to_list in Hin.
Qed.

Lemma find_iteration_none d id k r :
  find_iteration d id = None → iterations d !! k = Some r → it_invocation_id r ≠ id.
Proof.
  unfold find_iteration. destruct (list_find _ _) eqn:Hf; [done|]. intros _ Hr He.
  rewrite list_find_None, Forall_forall in Hf.
  destruct (Hf (k, r)); [by apply elem_of_map_to_list|done].
Qed.

Lemma find_call_some d id k c :
  find_call d id = Some (k, c) → tool_calls d !! k = Some c ∧ tl_invocation_id c = id.
Proof.
  unfold find_call. destruct (list_find _ _) as [[n [k' r']]|] eqn:Hf; [|done].
  intros [= -> ->]. apply list_find_some_elem in Hf as [Hin Hid].
  by apply elem_of_map_to_list in Hin.
Qed.

Lemma find_call_none d id k c :
  find_call d id = None → tool_calls d !! k = Some c → tl_invocation_id c ≠ id.
Proof.
  unfold find_call. destruct (list_find _ _) eqn:Hf; [done|]. intros _ Hr He.
  rewrite list_find_None, Forall_forall in Hf.
  destruct (Hf (k, c)); [by apply elem_of_map_to_list|done].
Qed.

Lemma find_message_some d id k lk l :
  find_message d id = Some (k, lk, l) →
  row_keys d !! k = Some lk ∧ lines (sd d) !! k = Some l ∧ row_id lk = id.
Proof.
  unfold find_message. destruct (list_find _ _) as [[n [k' r']]|] eqn:Hf; [|done].
  intros (l' & Hl & [= -> -> ->])%fmap_Some. apply list_find_some_elem in Hf as [Hin Hid].
  by apply elem_of_map_to_list in Hin.
Qed.

Lemma has_running_call_false d s t :
  has_running_call d s t = false ↔
  ∀ call c, tool_calls d !! call_key s t call = Some c → call_running c = false.
Proof.
  unfold has_running_call. rewrite existsb_false_elem. split.
  - intros H call c Hc. specialize (H (call_key s t call, c)).
    rewrite elem_of_map_to_list in H. specialize (H Hc). simpl in H.
    by rewrite bool_decide_eq_true_2 in H.
  - intros H [[k call] c]. rewrite elem_of_map_to_list. simpl. intros Hc.
    destruct (bool_decide_reflect (k = (s, t))) as [->|]; [|done]. simpl. by eapply H.
Qed.

Lemma instance_runs_false d s i :
  instance_runs d s i = false ↔
  ∀ k t, session_turns d !! k = Some t → k.1 = s → tn_state t = TurnStates.Running →
    tn_agent_instance_id t ≠ i.
Proof.
  unfold instance_runs, turn_running. rewrite existsb_false_elem. split.
  - intros H k t Ht Hs Hr Hi. specialize (H (k, t)). rewrite elem_of_map_to_list in H.
    specialize (H Ht). simpl in H. by rewrite Hs, Hr, Hi, !bool_decide_eq_true_2 in H.
  - intros H [k t]. rewrite elem_of_map_to_list. simpl. intros Ht.
    destruct (bool_decide_reflect (k.1 = s)), (bool_decide_reflect (tn_state t = TurnStates.Running)),
      (bool_decide_reflect (tn_agent_instance_id t = i)); try done. by destruct (H k t).
Qed.

(** The rows of one turn, and the last of them. *)
Lemma elem_of_turn_iterations d key r :
  r ∈ turn_iterations d key ↔ ∃ n, iterations d !! (key, n) = Some r.
Proof.
  unfold turn_iterations. rewrite list_elem_of_fmap. split.
  - intros ([[k n] r'] & -> & Hin). rewrite list_elem_of_filter, elem_of_map_to_list in Hin.
    destruct Hin as [Hk Hin]. simpl in *. subst. by exists n.
  - intros [n Hn]. exists ((key, n), r). split; [done|].
    rewrite list_elem_of_filter. split; [done|]. by apply elem_of_map_to_list.
Qed.

Lemma foldr_later r rs :
  let x := foldr later r rs in
  x ∈ r :: rs ∧ ∀ y, y ∈ r :: rs → (it_iteration y ≤ it_iteration x)%Z.
Proof.
  induction rs as [|a rs [Hin Hmax]]; simpl in *.
  - split; [by left|]. by intros y ->%list_elem_of_singleton.
  - unfold later at 1 3. destruct (Z.ltb_spec (it_iteration (foldr later r rs)) (it_iteration a));
      (split; [set_solver|]); intros y Hy; rewrite !elem_of_cons in Hy;
      destruct Hy as [->|[->|Hy]]; try lia.
    + specialize (Hmax r ltac:(by left)). lia.
    + specialize (Hmax y ltac:(by right)). lia.
    + apply Hmax. by left.
    + apply Hmax. by right.
Qed.

Lemma last_iteration_spec d key :
  match last_iteration d key with
  | None => ∀ n, iterations d !! (key, n) = None
  | Some x => (∃ n, iterations d !! (key, n) = Some x) ∧
      ∀ n r, iterations d !! (key, n) = Some r → (it_iteration r ≤ it_iteration x)%Z
  end.
Proof.
  unfold last_iteration. pose proof (elem_of_turn_iterations d key) as Hin.
  destruct (turn_iterations d key) as [|r rs].
  - intros n. destruct (iterations d !! (key, n)) as [r|] eqn:Hr; [|done].
    destruct (not_elem_of_nil r). apply Hin. by exists n.
  - destruct (foldr_later r rs) as [Hx Hmax]. split; [by apply Hin|].
    intros n y Hy. apply Hmax, Hin. by exists n.
Qed.

(** * The invariant *)

Definition turn_row_ok (k : TurnKey) (t : TurnSnapshot) : Prop :=
  k = (tn_session_id t, tn_turn_id t) ∧ (tn_state t = TurnStates.Running ↔ tn_ended_at t = None) ∧
  (tn_failure_kind t ≠ None → tn_state t = TurnStates.Failed).

(** The response of an iteration is a message of the assistant, of the instance
    that the turn belongs to. *)
Definition response_ok (d : tdb) (r : ModelIterationSnapshot) (id : Z) : Prop :=
  ∃ seq lk l t, row_keys d !! (it_session_id r, seq) = Some lk ∧ row_id lk = id ∧
    lines (sd d) !! (it_session_id r, seq) = Some l ∧
    l_role (l_content l) = MessageRoles.encode MessageRoles.Assistant ∧
    (∃ p, priority (l_content l) = Some (Priorities.encode p)) ∧
    model_id (l_content l) = Some (it_model_id r) ∧
    session_turns d !! (it_session_id r, it_turn_id r) = Some t ∧
    l_agent_instance_id l = Some (tn_agent_instance_id t).

Definition iteration_row_ok (d : tdb) (k : TurnKey * Z) (r : ModelIterationSnapshot) : Prop :=
  k = ((it_session_id r, it_turn_id r), it_iteration r) ∧ (1 ≤ it_iteration r)%Z ∧
  (0 ≤ it_ledger_revision r)%Z ∧ is_Some (session_turns d !! k.1) ∧
  match it_response_message_id r, it_response_terminal r with
  | None, None => it_position r = ModelPositions.ModelStarted
  | Some id, Some _ => it_position r ≠ ModelPositions.ModelStarted ∧ response_ok d r id
  | _, _ => False
  end.

Definition call_row_ok (d : tdb) (k : TurnKey * string) (c : ToolCallSnapshot) : Prop :=
  k = call_key (tl_session_id c) (tl_turn_id c) (tl_call_id c) ∧
  (0 ≤ tl_ledger_revision c)%Z ∧ is_Some (session_turns d !! k.1) ∧
  recovery_policy_allows (tl_declared_recovery_policy c) (tl_effective_recovery_policy c) = true ∧
  (tl_state c = CallStates.Running ↔ tl_ended_at c = None) ∧
  (tl_failure_kind c ≠ None → tl_state c = CallStates.Failed).

(** How the state of a turn bounds its running calls: a completed turn has none, and
    those of another ended turn have crossed the boundary of their effect. *)
Definition bounded_call (t : TurnSnapshot) (c : ToolCallSnapshot) : Prop :=
  call_running c = true →
  tn_state t ≠ TurnStates.Completed ∧
  (tn_state t ≠ TurnStates.Running → before_effect c = false).

Record turns_ok (d : tdb) : Prop := {
  to_turns : map_Forall turn_row_ok (session_turns d);
  to_iterations : map_Forall (iteration_row_ok d) (iterations d);
  to_calls : map_Forall (call_row_ok d) (tool_calls d);
  to_iteration_unique : ∀ k k' r r', iterations d !! k = Some r → iterations d !! k' = Some r' →
    it_invocation_id r = it_invocation_id r' → k = k';
  to_call_unique : ∀ k k' c c', tool_calls d !! k = Some c → tool_calls d !! k' = Some c' →
    tl_invocation_id c = tl_invocation_id c' → k = k';
  (** the iterations of a turn are numbered, and only the last can be open *)
  to_sequence : ∀ key n r m, iterations d !! (key, n) = Some r → (1 ≤ m < n)%Z →
    ∃ r', iterations d !! (key, m) = Some r' ∧ it_position r' = ModelPositions.ToolsResolved;
  to_bounded : ∀ key call t c, session_turns d !! key = Some t →
    tool_calls d !! (key, call) = Some c → bounded_call t c;
  (** an instance runs one turn at a time *)
  to_one_running : ∀ k k' t t', session_turns d !! k = Some t → session_turns d !! k' = Some t' →
    tn_state t = TurnStates.Running → tn_state t' = TurnStates.Running → k.1 = k'.1 →
    tn_agent_instance_id t = tn_agent_instance_id t' → k = k';
  to_rows : ∀ k, is_Some (row_keys d !! k) ↔ is_Some (lines (sd d) !! k);
  to_row_ids : ∀ k lk, row_keys d !! k = Some lk → (row_id lk ≤ last_row_id d)%Z ∧
    ∀ k' lk', row_keys d !! k' = Some lk' → row_id lk = row_id lk' → k = k';
  to_actions : ∀ id a, recovery_actions d !! id = Some a → ar_action_id a = id ∧
    ∀ id' a', recovery_actions d !! id' = Some a' → ar_target a = ar_target a' → id = id';
}.

(** * How rows change *)

Definition same_turn (t t' : TurnSnapshot) : Prop :=
  tn_session_id t' = tn_session_id t ∧ tn_turn_id t' = tn_turn_id t ∧
  tn_agent_instance_id t' = tn_agent_instance_id t ∧
  tn_config_revision t' = tn_config_revision t ∧
  tn_effective_config t' = tn_effective_config t ∧ tn_created_at t' = tn_created_at t.

(** A turn ends once. *)
Definition turn_step (t t' : TurnSnapshot) : Prop :=
  t' = t ∨ (same_turn t t' ∧ tn_state t = TurnStates.Running ∧ tn_state t' ≠ TurnStates.Running).

Definition model_rank (p : ModelExecutionPosition) : Z :=
  match p with
  | ModelPositions.ModelStarted => 0
  | ModelPositions.ResponsePersisted => 1
  | ModelPositions.ToolsResolved => 2
  end.

Definition same_iteration (r r' : ModelIterationSnapshot) : Prop :=
  it_session_id r' = it_session_id r ∧ it_turn_id r' = it_turn_id r ∧
  it_iteration r' = it_iteration r ∧ it_invocation_id r' = it_invocation_id r ∧
  it_model_id r' = it_model_id r ∧ it_capability_revision r' = it_capability_revision r ∧
  it_request_digest r' = it_request_digest r ∧ it_started_at r' = it_started_at r.

(** An iteration moves on with its revision; its response is written once. *)
Definition iteration_step (r r' : ModelIterationSnapshot) : Prop :=
  r' = r ∨ (same_iteration r r' ∧ (it_ledger_revision r < it_ledger_revision r')%Z ∧
    (model_rank (it_position r) ≤ model_rank (it_position r'))%Z ∧
    (it_response_message_id r ≠ None → it_response_message_id r' = it_response_message_id r ∧
       it_response_terminal r' = it_response_terminal r)).

Definition tool_rank (p : ToolExecutionPosition) : Z :=
  match p with
  | ToolPositions.Prepared => 0
  | ToolPositions.Authorized => 1
  | ToolPositions.EffectStarted => 2
  | ToolPositions.EffectCommitted => 3
  | ToolPositions.ResultPersisted => 4
  end.

Definition same_identity (c c' : ToolCallSnapshot) : Prop :=
  tl_session_id c' = tl_session_id c ∧ tl_turn_id c' = tl_turn_id c ∧
  tl_call_id c' = tl_call_id c ∧ tl_invocation_id c' = tl_invocation_id c ∧
  tl_tool_name c' = tl_tool_name c ∧ tl_invocation_class c' = tl_invocation_class c ∧
  tl_declared_recovery_policy c' = tl_declared_recovery_policy c ∧
  tl_effective_recovery_policy c' = tl_effective_recovery_policy c ∧
  tl_capability_revision c' = tl_capability_revision c ∧
  tl_input_digest c' = tl_input_digest c ∧ tl_started_at c' = tl_started_at c.

(** A call that ended does not change; one that runs on has a new revision. *)
Definition call_step (c c' : ToolCallSnapshot) : Prop :=
  c' = c ∨ (same_identity c c' ∧ tl_state c = CallStates.Running ∧
    (tl_ledger_revision c ≤ tl_ledger_revision c')%Z ∧
    (tool_rank (tl_position c) ≤ tool_rank (tl_position c'))%Z ∧
    (tl_state c' = CallStates.Running → tl_ledger_revision c < tl_ledger_revision c')%Z).

#[global] Instance turn_step_preorder : PreOrder turn_step.
Proof.
  split; [by left|]. unfold turn_step, same_turn. intros a b c [->|Hab] [->|Hbc]; auto.
  right. destruct Hab as (? & ? & ?), Hbc as (? & ? & ?). done.
Qed.

#[global] Instance iteration_step_preorder : PreOrder iteration_step.
Proof.
  split; [by left|]. unfold iteration_step, same_iteration. intros a b c [->|Hab] [->|Hbc]; auto.
  right. destruct Hab as ((? & ? & ? & ? & ? & ? & ? & ?) & ? & ? & Ha),
    Hbc as ((? & ? & ? & ? & ? & ? & ? & ?) & ? & ? & Hb).
  split; [split_and!; congruence|]. split; [lia|]. split; [lia|]. intros Hn.
  destruct (Ha Hn) as [Ha1 Ha2], Hb as [Hb1 Hb2]; [by rewrite Ha1|]. by rewrite Hb1, Hb2.
Qed.

#[global] Instance call_step_preorder : PreOrder call_step.
Proof.
  split; [by left|]. unfold call_step, same_identity. intros a b c [->|Hab] [->|Hbc]; auto.
  right. destruct Hab as ((? & ? & ? & ? & ? & ? & ? & ? & ? & ? & ?) & ? & ? & ? & Ha),
    Hbc as ((? & ? & ? & ? & ? & ? & ? & ? & ? & ? & ?) & ? & ? & ? & Hb).
  split; [split_and!; congruence|]. split; [done|]. split; [lia|]. split; [lia|].
  intros Hc. specialize (Hb Hc). lia.
Qed.

Lemma call_step_invocation c c' : call_step c c' → tl_invocation_id c' = tl_invocation_id c.
Proof. by intros [->|[(_ & _ & _ & ? & _) _]]. Qed.

Lemma iteration_step_invocation r r' :
  iteration_step r r' → it_invocation_id r' = it_invocation_id r.
Proof. by intros [->|[(_ & _ & _ & ? & _) _]]. Qed.

(** A message of the history keeps all but its mark of being summarized. *)
Definition line_step (l l' : line) : Prop :=
  l_agent_instance_id l' = l_agent_instance_id l ∧ l_content l' = l_content l ∧
  (is_summarized l = true → is_summarized l' = true).

#[global] Instance line_step_preorder : PreOrder line_step.
Proof.
  split; [done|]. unfold line_step. intros a b c (? & ? & ?) (? & ? & ?).
  split_and!; [congruence|congruence|auto].
Qed.

(** Each row of the first table has its successor in the second. *)
Definition rows_step {K V} `{Countable K} (R : V → V → Prop) (m m' : gmap K V) : Prop :=
  ∀ k v, m !! k = Some v → ∃ v', m' !! k = Some v' ∧ R v v'.

#[global] Instance rows_step_preorder {K V} `{Countable K} (R : V → V → Prop) `{!PreOrder R} :
  PreOrder (@rows_step K V _ _ R).
Proof.
  split; [by intros m k v Hv; exists v|]. intros m1 m2 m3 H1 H2 k v Hv.
  destruct (H1 k v Hv) as (v' & Hv' & ?), (H2 k v' Hv') as (v'' & Hv'' & ?).
  exists v''. split; [done|]. by etrans.
Qed.

Lemma rows_step_insert {K V} `{Countable K} (R : V → V → Prop) `{!Reflexive R} (m : gmap K V) k v :
  (∀ w, m !! k = Some w → R w v) → rows_step R m (<[k := v]> m).
Proof.
  intros Hv k' w Hw. destruct (decide (k' = k)) as [->|Hne].
  - exists v. by rewrite lookup_insert_eq; auto.
  - exists w. by rewrite lookup_insert_ne.
Qed.

(** What the tables below keep; the ledgers only write sessions and lines. *)
Definition below_kept (s s' : sdb) : Prop :=
  wk s' = wk s ∧ ordinals s' = ordinals s ∧ session_agents s' = session_agents s ∧
  configs s' = configs s ∧ fork_receipts s' = fork_receipts s.

#[global] Instance below_kept_preorder : PreOrder below_kept.
Proof.
  split; [done|]. unfold below_kept. intros a b c (? & ? & ? & ? & ?) (? & ? & ? & ? & ?).
  split_and!; congruence.
Qed.

Record turns_step (d d' : tdb) : Prop := {
  tp_turns : rows_step turn_step (session_turns d) (session_turns d');
  tp_iterations : rows_step iteration_step (iterations d) (iterations d');
  tp_calls : rows_step call_step (tool_calls d) (tool_calls d');
  tp_actions : recovery_actions d ⊆ recovery_actions d';
  tp_lines : rows_step line_step (lines (sd d)) (lines (sd d'));
  tp_keys : row_keys d ⊆ row_keys d';
}.

#[global] Instance turns_step_preorder : PreOrder turns_step.
Proof.
  split; [intros d; split; done|]. intros a b c [] []. split; by etrans.
Qed.

(** * The changes of the tables *)

Definition kept (d d' : tdb) : Prop :=
  turns_ok d' ∧ turns_step d d' ∧ below_kept (sd d) (sd d').

Lemma ledger_kept_trans d1 d2 d3 : kept d1 d2 → (turns_ok d2 → kept d2 d3) → kept d1 d3.
Proof.
  intros (Ho & Hs & Hb) H. destruct (H Ho) as (? & ? & ?). split; [done|]. by split; etrans.
Qed.

Lemma response_ok_mono d d' r id :
  turns_step d d' → response_ok d r id → response_ok d' r id.
Proof.
  intros [Ht _ _ _ Hl Hk] (seq & lk & l & t & H1 & H2 & H3 & H4 & H5 & Hmo & H6 & H7).
  destruct (Hl _ _ H3) as (l' & Hl' & Hi & Hc & _), (Ht _ _ H6) as (t' & Ht' & Hst).
  exists seq, lk, l', t'. split_and!; try done; [by eapply lookup_weaken|by rewrite Hc..|].
  rewrite Hi, H7. destruct Hst as [->|[(_ & _ & -> & _) _]]; done.
Qed.

Lemma rows_step_some {K V} `{Countable K} (R : V → V → Prop) (m m' : gmap K V) k :
  rows_step R m m' → is_Some (m !! k) → is_Some (m' !! k).
Proof. intros Hs [v Hv]. destruct (Hs k v Hv) as (v' & ? & _). by exists v'. Qed.

Lemma iteration_row_ok_mono d d' k r :
  turns_step d d' → iteration_row_ok d k r → iteration_row_ok d' k r.
Proof.
  intros Hs (Hk & H1 & H2 & H3 & H4). split_and!; try done.
  - eapply rows_step_some; [apply Hs|done].
  - destruct (it_response_message_id r), (it_response_terminal r); try done.
    destruct H4. split; [done|]. by eapply response_ok_mono.
Qed.

Lemma call_row_ok_mono d d' k c : turns_step d d' → call_row_ok d k c → call_row_ok d' k c.
Proof.
  intros Hs (? & ? & Ht & ?). split; [done|]. split; [done|]. split; [|done].
  eapply rows_step_some; [apply Hs|done].
Qed.

(** A change that touches no ledger row of [d]. *)
Lemma kept_same d d' :
  turns_ok d → session_turns d' = session_turns d → iterations d' = iterations d →
  tool_calls d' = tool_calls d → recovery_actions d' = recovery_actions d →
  row_keys d' = row_keys d → last_row_id d' = last_row_id d →
  (∀ k, is_Some (lines (sd d') !! k) ↔ is_Some (lines (sd d) !! k)) →
  rows_step line_step (lines (sd d)) (lines (sd d')) → below_kept (sd d) (sd d') →
  kept d d'.
Proof.
  intros [] Ht Hi Hc Ha Hk Hr Hdom Hl Hb.
  assert (turns_step d d') as Hs by (split; rewrite ?Ht, ?Hi, ?Hc, ?Ha, ?Hk; done).
  split; [|done]. split; rewrite ?Ht, ?Hi, ?Hc, ?Ha, ?Hk, ?Hr; try done.
  - intros k r Hkr. eapply iteration_row_ok_mono; [done|]. by apply to_iterations0.
  - intros k r Hkr. eapply call_row_ok_mono; [done|]. by apply to_calls0.
  - intros k. by rewrite Hdom.
Qed.

Lemma kept_touch d s now : turns_ok d → kept d (touch_session d s now).
Proof. intros Hok. by apply kept_same. Qed.

Lemma kept_usages d x : turns_ok d → kept d (set_usages d x).
Proof. intros Hok. by apply kept_same. Qed.

Lemma next_seq_fresh d s seq l : next_seq d s = Ok seq → lines (sd d) !! (s, seq) = Some l → False.
Proof.
  intros Hn Hl. assert (seq < seq)%Z; [|lia].
  eapply (InstanceStoreFacts.next_sequence_ok _ _ _ Hn). unfold session_sequences.
  apply list_elem_of_fmap. exists (s, seq). split; [done|].
  rewrite list_elem_of_filter. split; [done|]. apply list_elem_of_fmap.
  exists ((s, seq), l). split; [done|]. by apply elem_of_map_to_list.
Qed.

(** A message is added under a new key and a new id. *)
Lemma insert_message_ok d s seq l parent id d' :
  turns_ok d → insert_message d s seq l parent = Ok (id, d') →
  kept d d' ∧ row_keys d' = <[(s, seq) := {| row_id := id; parent_msg_id := parent |}]> (row_keys d) ∧
  lines (sd d') = <[(s, seq) := l]> (lines (sd d)) ∧ lines (sd d) !! (s, seq) = None ∧
  session_turns d' = session_turns d ∧ iterations d' = iterations d ∧
  tool_calls d' = tool_calls d ∧ recovery_actions d' = recovery_actions d ∧ usages d' = usages d ∧
  sessions (sd d') = sessions (sd d) ∧ id = (last_row_id d + 1)%Z.
Proof.
  intros Hok H. unfold insert_message in H.
  apply bail_ok in H as [Hfresh H]. do 3 (apply bail_ok in H as [_ H]).
  apply res_bind_ok in H as (x & Hx & H). rewrite ok_or_ok, checked_add_some in Hx.
  destruct Hx as [-> _]. injection H as <- <-. simpl.
  assert (lines (sd d) !! (s, seq) = None) as Hl by (by destruct (lines (sd d) !! (s, seq))).
  assert (row_keys d !! (s, seq) = None) as Hk.
  { destruct (row_keys d !! (s, seq)) eqn:Hk; [|done].
    destruct (proj1 (to_rows _ Hok (s, seq)) (mk_is_Some _ _ Hk)) as [? ?]. congruence. }
  split; [|by split_and!].
  match goal with |- kept _ ?x => set (d' := x) end.
  assert (turns_step d d') as Hs.
  { split; try done; simpl; [|by apply insert_subseteq].
    apply rows_step_insert; [apply _|]. intros w Hw. congruence. }
  destruct Hok. split; [|done]. split; simpl; try done.
  - intros k r Hkr. eapply iteration_row_ok_mono; [done|]. by apply to_iterations0.
  - intros k. destruct (decide (k = (s, seq))) as [->|Hne].
    + rewrite !lookup_insert_eq. naive_solver.
    + rewrite !lookup_insert_ne by done. apply to_rows0.
  - assert (∀ k lk, row_keys d !! k = Some lk → (row_id lk ≤ last_row_id d)%Z) as Hmax
      by (intros; by eapply to_row_ids0).
    intros k lk Hlk. rewrite lookup_insert_Some in Hlk.
    destruct Hlk as [[<- <-]|[Hne Hlk]]; simpl.
    + split; [lia|]. intros k' lk' Hlk' He. rewrite lookup_insert_Some in Hlk'.
      destruct Hlk' as [[<- _]|[_ Hlk']]; [done|]. apply Hmax in Hlk'. lia.
    + pose proof (Hmax _ _ Hlk). split; [lia|]. intros k' lk' Hlk' He.
      rewrite lookup_insert_Some in Hlk'. destruct Hlk' as [[<- <-]|[_ Hlk']].
      * simpl in He. lia.
      * by eapply to_row_ids0.
Qed.

(** A turn starts under a key that no ledger row has yet. *)
Lemma kept_new_turn d k t :
  turns_ok d → session_turns d !! k = None → turn_row_ok k t → tn_state t = TurnStates.Running →
  instance_runs d k.1 (tn_agent_instance_id t) = false →
  kept d (set_session_turns d (<[k := t]> (session_turns d))).
Proof.
  intros Hok Hk Ht Hrun Hone. match goal with |- kept _ ?x => set (d' := x) end.
  assert (turns_step d d') as Hs.
  { split; try done; simpl. apply rows_step_insert; [apply _|]. intros w Hw. congruence. }
  rewrite instance_runs_false in Hone.
  destruct Hok. split; [|done]. split; simpl; try done.
  - by apply map_Forall_insert_2.
  - intros k' r Hkr. eapply iteration_row_ok_mono; [done|]. by apply to_iterations0.
  - intros k' r Hkr. eapply call_row_ok_mono; [done|]. by apply to_calls0.
  - intros key call t' c Ht' Hc. rewrite lookup_insert_Some in Ht'.
    destruct Ht' as [[<- <-]|[_ Ht']]; [|by eapply to_bounded0].
    intros _. split; [by rewrite Hrun|]. intros []. done.
  - intros k1 k2 t1 t2 H1 H2 R1 R2 He Hi. rewrite lookup_insert_Some in H1, H2.
    destruct H1 as [[<- <-]|[? H1]], H2 as [[<- <-]|[? H2]]; [done|..|by eapply to_one_running0].
    + by destruct (Hone k2 t2 H2).
    + by destruct (Hone k1 t1 H1).
Qed.

(** A turn ends, and calls of it with it. *)
Lemma kept_end_turn d k t t' (f : TurnKey * string → ToolCallSnapshot → ToolCallSnapshot) :
  turns_ok d → session_turns d !! k = Some t → turn_row_ok k t' → turn_step t t' →
  (∀ k' c, tool_calls d !! k' = Some c →
     call_row_ok d k' (f k' c) ∧ call_step c (f k' c) ∧
     (k'.1 ≠ k → f k' c = c) ∧ (k'.1 = k → bounded_call t' (f k' c))) →
  kept d (set_tool_calls (set_session_turns d (<[k := t']> (session_turns d)))
            (map_imap (λ k c, Some (f k c)) (tool_calls d))).
Proof.
  intros Hok Hk Ht' Hst Hf. match goal with |- kept _ ?x => set (d' := x) end.
  assert (∀ k' c', tool_calls d' !! k' = Some c' ↔
            ∃ c, tool_calls d !! k' = Some c ∧ c' = f k' c) as Hcalls.
  { intros k' c'. simpl. rewrite map_lookup_imap. destruct (tool_calls d !! k'); naive_solver. }
  assert (turns_step d d') as Hs.
  { split; try done; simpl.
    - apply rows_step_insert; [apply _|]. intros w Hw. by simplify_eq.
    - intros k' c Hc. exists (f k' c). split; [by apply Hcalls; exists c|]. by apply Hf. }
  split; [|done]. destruct Hok. split; try done.
  - by apply map_Forall_insert_2.
  - intros k' r Hkr. eapply iteration_row_ok_mono; [done|]. by apply to_iterations0.
  - intros k' c' (c & Hc & ->)%Hcalls. eapply call_row_ok_mono; [done|]. by apply Hf.
  - intros k1 k2 c1 c2 (b1 & H1 & ->)%Hcalls (b2 & H2 & ->)%Hcalls He.
    apply (to_call_unique0 _ _ _ _ H1 H2).
    destruct (Hf _ _ H1) as (_ & Hs1%call_step_invocation & _),
      (Hf _ _ H2) as (_ & Hs2%call_step_invocation & _). congruence.
  - intros key call t'' c' Ht'' (c & Hc & ->)%Hcalls. simpl in Ht''.
    rewrite lookup_insert_Some in Ht''. destruct (Hf _ _ Hc) as (_ & _ & Hother & Hown).
    destruct Ht'' as [[<- <-]|[Hne Ht'']]; [by apply Hown|].
    rewrite Hother by done. by eapply to_bounded0.
  - assert (∀ k1 t1, session_turns d' !! k1 = Some t1 → tn_state t1 = TurnStates.Running →
      ∃ t0, session_turns d !! k1 = Some t0 ∧ tn_state t0 = TurnStates.Running ∧
        tn_agent_instance_id t0 = tn_agent_instance_id t1) as Hold.
    { intros k1 t1 H1 R1. simpl in H1. rewrite lookup_insert_Some in H1.
      destruct H1 as [[<- <-]|[_ H1]]; [|by exists t1]. exists t.
      by destruct Hst as [->|(_ & _ & ?)]. }
    intros k1 k2 t1 t2 H1 H2 R1 R2 He Hi.
    destruct (Hold _ _ H1 R1) as (u1 & U1 & ? & ?), (Hold _ _ H2 R2) as (u2 & U2 & ? & ?).
    eapply to_one_running0; [exact U1|exact U2|done..|congruence].
Qed.

(** A row of a call is replaced by its successor. *)
Lemma kept_call d k c c' :
  turns_ok d → tool_calls d !! k = Some c → call_row_ok d k c' → call_step c c' →
  kept d (set_tool_calls d (<[k := c']> (tool_calls d))).
Proof.
  intros Hok Hk Hc' Hst. match goal with |- kept _ ?x => set (d' := x) end.
  assert (turns_step d d') as Hs.
  { split; try done; simpl. apply rows_step_insert; [apply _|]. intros w Hw. by simplify_eq. }
  pose proof (call_step_invocation _ _ Hst) as Hid.
  destruct Hok. split; [|done]. split; simpl; try done.
  - apply map_Forall_insert_2; [done|]. intros k' x Hx.
    eapply call_row_ok_mono; [done|]. by apply to_calls0.
  - intros k1 k2 c1 c2 H1 H2 He. rewrite lookup_insert_Some in H1, H2.
    destruct H1 as [[<- <-]|[? H1]], H2 as [[<- <-]|[? H2]]; try done; rewrite ?Hid in He;
      by eapply to_call_unique0.
  - intros key call t x Ht Hx. rewrite lookup_insert_Some in Hx.
    destruct Hx as [[-> <-]|[_ Hx]]; [|by eapply to_bounded0].
    pose proof (to_bounded0 _ _ _ _ Ht Hk) as Hb. destruct Hst as [->|(_ & Hrun & _ & Hrank & _)];
      [done|].
    intros Hr. destruct Hb as [Hb1 Hb2]; [unfold call_running; by rewrite Hrun, bool_decide_eq_true_2|].
    split; [done|]. intros Hne. specialize (Hb2 Hne). unfold before_effect in *.
    destruct (tl_position c), (tl_position c'); simpl in *; try done; lia.
Qed.

(** A call is begun in a running turn, under new names. *)
Lemma kept_new_call d k c t :
  turns_ok d → tool_calls d !! k = None → find_call d (tl_invocation_id c) = None →
  session_turns d !! k.1 = Some t → tn_state t = TurnStates.Running → call_row_ok d k c →
  kept d (set_tool_calls d (<[k := c]> (tool_calls d))).
Proof.
  intros Hok Hk Hnew Ht Hrun Hc. match goal with |- kept _ ?x => set (d' := x) end.
  assert (turns_step d d') as Hs.
  { split; try done; simpl. apply rows_step_insert; [apply _|]. intros w Hw. congruence. }
  destruct Hok. split; [|done]. split; simpl; try done.
  - apply map_Forall_insert_2; [done|]. intros k' x Hx.
    eapply call_row_ok_mono; [done|]. by apply to_calls0.
  - intros k1 k2 c1 c2 H1 H2 He. rewrite lookup_insert_Some in H1, H2.
    destruct H1 as [[<- <-]|[? H1]], H2 as [[<- <-]|[? H2]]; [done|..|by eapply to_call_unique0].
    + by destruct (find_call_none _ _ _ _ Hnew H2).
    + by destruct (find_call_none _ _ _ _ Hnew H1).
  - intros key call t' x Ht' Hx. rewrite lookup_insert_Some in Hx.
    destruct Hx as [[-> <-]|[_ Hx]]; [|by eapply to_bounded0]. simpl in Ht. simplify_eq.
    intros _. split; [by rewrite Hrun|]. intros []. done.
Qed.

(** A row of an iteration is replaced by its successor. *)
Lemma kept_iteration d k r r' :
  turns_ok d → iterations d !! k = Some r → iteration_row_ok d k r' → iteration_step r r' →
  kept d (set_iterations d (<[k := r']> (iterations d))).
Proof.
  intros Hok Hk Hr' Hst. match goal with |- kept _ ?x => set (d' := x) end.
  assert (turns_step d d') as Hs.
  { split; try done; simpl. apply rows_step_insert; [apply _|]. intros w Hw. by simplify_eq. }
  pose proof (iteration_step_invocation _ _ Hst) as Hid.
  destruct Hok. split; [|done]. split; simpl; try done.
  - apply map_Forall_insert_2; [by eapply iteration_row_ok_mono|]. intros k' x Hx.
    eapply iteration_row_ok_mono; [done|]. by apply to_iterations0.
  - intros k1 k2 c1 c2 H1 H2 He. rewrite lookup_insert_Some in H1, H2.
    destruct H1 as [[<- <-]|[? H1]], H2 as [[<- <-]|[? H2]]; try done; rewrite ?Hid in He;
      by eapply to_iteration_unique0.
  - intros key n x m Hx Hm. rewrite lookup_insert_Some in Hx.
    assert (∃ y, iterations d !! (key, m) = Some y ∧ it_position y = ModelPositions.ToolsResolved)
      as (y & Hy & Hp).
    { destruct Hx as [[-> <-]|[_ Hx]]; by eapply to_sequence0. }
    destruct (decide (k = (key, m))) as [->|Hne]; [|exists y; by rewrite lookup_insert_ne].
    exists r'. rewrite lookup_insert_eq. split; [done|]. simplify_eq.
    destruct Hst as [->|(_ & _ & Hrank & _)]; [done|]. rewrite Hp in Hrank.
    destruct (it_position r'); simpl in Hrank; try done; lia.
Qed.

(** An iteration follows the last one of its turn, which is resolved. *)
Lemma kept_new_iteration d key r :
  turns_ok d → find_iteration d (it_invocation_id r) = None →
  iteration_row_ok d (key, it_iteration r) r →
  match last_iteration d key with
  | Some x => it_iteration r = (it_iteration x + 1)%Z ∧ it_position x = ModelPositions.ToolsResolved
  | None => it_iteration r = 1%Z
  end →
  kept d (set_iterations d (<[(key, it_iteration r) := r]> (iterations d))).
Proof.
  intros Hok Hnew Hr Hlast. match goal with |- kept _ ?x => set (d' := x) end.
  pose proof (last_iteration_spec d key) as Hspec.
  assert (∀ n y, iterations d !! (key, n) = Some y → it_iteration y = n) as Hnum.
  { intros n y Hy. apply (to_iterations _ Hok) in Hy as ([= -> ->] & _). done. }
  assert (∀ n y, iterations d !! (key, n) = Some y → (n < it_iteration r)%Z) as Hmax.
  { intros n y Hy. destruct (last_iteration d key) as [x|]; [|by rewrite Hspec in Hy].
    destruct Hspec as [_ Hspec], Hlast as [Hlast _]. specialize (Hspec n y Hy).
    rewrite (Hnum n y Hy) in Hspec. lia. }
  assert (iterations d !! (key, it_iteration r) = None) as Hk.
  { destruct (iterations d !! (key, it_iteration r)) eqn:Hk; [|done]. apply Hmax in Hk. lia. }
  assert (turns_step d d') as Hs.
  { split; try done; simpl. apply rows_step_insert; [apply _|]. intros w Hw. congruence. }
  destruct Hok. split; [|done]. split; simpl; try done.
  - apply map_Forall_insert_2; [by eapply iteration_row_ok_mono|]. intros k' x Hx.
    eapply iteration_row_ok_mono; [done|]. by apply to_iterations0.
  - intros k1 k2 c1 c2 H1 H2 He. rewrite lookup_insert_Some in H1, H2.
    destruct H1 as [[<- <-]|[? H1]], H2 as [[<- <-]|[? H2]]; [done|..|by eapply to_iteration_unique0].
    + by destruct (find_iteration_none _ _ _ _ Hnew H2).
    + by destruct (find_iteration_none _ _ _ _ Hnew H1).
  - intros key' n x m Hx Hm. rewrite lookup_insert_Some in Hx.
    assert (∃ y, iterations d !! (key', m) = Some y ∧ it_position y = ModelPositions.ToolsResolved)
      as (y & Hy & Hp).
    { destruct Hx as [[[= <- <-] <-]|[_ Hx]]; [|by eapply to_sequence0].
      destruct (last_iteration d key) as [z|]; [|lia]. destruct Hspec as [[k Hz] _], Hlast as [He Hres].
      pose proof (Hnum _ _ Hz) as <-.
      destruct (decide (m = it_iteration z)) as [->|]; [by exists z|].
      eapply to_sequence0; [exact Hz|]. lia. }
    exists y. split; [|done]. rewrite lookup_insert_ne; [done|]. intros [= -> He]. congruence.
Qed.

(** An action is recorded once for its target. *)
Lemma kept_action d id a :
  turns_ok d → recovery_actions d !! id = None → ar_action_id a = id →
  target_resolved d (ar_target a) = false →
  kept d (set_recovery_actions d (<[id := a]> (recovery_actions d))).
Proof.
  intros Hok Hid Ha Hnew. match goal with |- kept _ ?x => set (d' := x) end.
  assert (∀ k b, recovery_actions d !! k = Some b → ar_target b ≠ ar_target a) as Hother.
  { intros k b Hb He. unfold target_resolved in Hnew. rewrite existsb_false_elem in Hnew.
    specialize (Hnew b). rewrite bool_decide_eq_false in Hnew. apply Hnew; [|done].
    apply list_elem_of_fmap. exists (k, b). split; [done|]. by apply elem_of_map_to_list. }
  assert (turns_step d d') as Hs by (split; try done; simpl; by apply insert_subseteq).
  destruct Hok. split; [|done]. split; simpl; try done.
  - intros k b Hb. rewrite lookup_insert_Some in Hb. destruct Hb as [[<- <-]|[Hne Hb]].
    + split; [done|]. intros k' b' Hb' He. rewrite lookup_insert_Some in Hb'.
      destruct Hb' as [[<- _]|[_ Hb']]; [done|]. by destruct (Hother _ _ Hb').
    + destruct (to_actions0 _ _ Hb) as [? Huniq]. split; [done|]. intros k' b' Hb' He.
      rewrite lookup_insert_Some in Hb'. destruct Hb' as [[<- <-]|[_ Hb']]; [|by eapply Huniq].
      by destruct (Hother _ _ Hb).
Qed.
