(* ===== verification/Scheduler.v ===== *)
(** The mailbox scheduler: [run_scheduler] of
    src/sylvander-runtime/src/runtime/mailbox_scheduler.rs.

    The loop is a machine whose events are what [tokio::select!] can pick: the result
    of a scan of the store, a wake-up or the end of its channel, and a drain that
    joins.  The set of running drains is the list [active], in the order in which
    they started. *)

From S2P Require Import Prelude Instance.
From stdpp Require Import base tactics gmap strings list relations.
From Stdlib Require Import Lia.

Definition MAX_CONCURRENT_RECIPIENTS : nat := 16.

Record scheduler := {
  queued : list AgentInstanceId;
  known : gset AgentInstanceId;
  rerun : gset AgentInstanceId;
  active : list AgentInstanceId;
  receiver_open : bool;
}.

Definition set_queued (s : scheduler) x : scheduler :=
  {| queued := x; known := known s; rerun := rerun s; active := active s;
     receiver_open := receiver_open s |}.
Definition set_known (s : scheduler) x : scheduler :=
  {| queued := queued s; known := x; rerun := rerun s; active := active s;
     receiver_open := receiver_open s |}.
Definition set_rerun (s : scheduler) x : scheduler :=
  {| queued := queued s; known := known s; rerun := x; active := active s;
     receiver_open := receiver_open s |}.
Definition set_active (s : scheduler) x : scheduler :=
  {| queued := queued s; known := known s; rerun := rerun s; active := x;
     receiver_open := receiver_open s |}.
Definition close (s : scheduler) : scheduler :=
  {| queued := queued s; known := known s; rerun := rerun s; active := active s;
     receiver_open := false |}.

(** The state before the loop. *)
Definition idle : scheduler :=
  {| queued := []; known := ∅; rerun := ∅; active := []; receiver_open := true |}.

(** What the [select!] of an iteration yields.  A drain that panics joins as an error
    that does not say whose it was. *)
Inductive event :=
  | Scanned (recipients : option (list AgentInstanceId))
  | Woken (recipient : AgentInstanceId)
  | Closed
  | Drained (recipient : AgentInstanceId) (wake : option AgentInstanceId)
  | Panicked (recipient : AgentInstanceId).

(** The branch that an event belongs to is enabled. *)
Definition enabled (s : scheduler) (e : event) : bool :=
  match e with
  | Scanned _ => true
  | Woken _ | Closed => receiver_open s
  | Drained r _ | Panicked r => bool_decide (r ∈ active s)
  end.

(** [if known.insert(r.clone()) { queued.push_back(r) } else { rerun.insert(r) }] *)
Definition wake (s : scheduler) (r : AgentInstanceId) : scheduler :=
  if bool_decide (r ∈ known s) then set_rerun s ({[ r ]} ∪ rerun s)
  else set_queued (set_known s ({[ r ]} ∪ known s)) (queued s ++ [r]).

(** [if rerun.remove(&r) { queued.push_back(r) } else { known.remove(&r) }] *)
Definition drained (s : scheduler) (r : AgentInstanceId) : scheduler :=
  if bool_decide (r ∈ rerun s)
  then set_queued (set_rerun s (rerun s ∖ {[ r ]})) (queued s ++ [r])
  else set_known s (known s ∖ {[ r ]}).

Fixpoint remove_first (r : AgentInstanceId) (l : list AgentInstanceId) : list AgentInstanceId :=
  match l with
  | [] => []
  | x :: l => if x == r then l else x :: remove_first r l
  end.

Definition joined (s : scheduler) (r : AgentInstanceId) : scheduler :=
  set_active s (remove_first r (active s)).

(** The body of the selected branch. *)
Definition handle (s : scheduler) (e : event) : scheduler :=
  match e with
  | Scanned (Some recipients) => foldl wake s recipients
  | Scanned None => s
  | Woken r => wake s r
  | Closed => close s
  | Drained r w =>
      let s := drained (joined s r) r in
      match w with Some w => wake s w | None => s end
  | Panicked r => joined s r
  end.

(** The [while] at the head of the loop: drains start from the front of the queue
    until [slots] more of them run. *)
Fixpoint start_drains (slots : nat) (q a : list AgentInstanceId) :
    list AgentInstanceId * list AgentInstanceId :=
  match slots, q with
  | S slots, r :: q => start_drains slots q (a ++ [r])
  | _, _ => (q, a)
  end.

Definition fill (s : scheduler) : scheduler :=
  let '(q, a) := start_drains (MAX_CONCURRENT_RECIPIENTS - length (active s)) (queued s) (active s) in
  set_active (set_queued s q) a.

(** The drains that [fill] starts, in their order. *)
Definition started (s : scheduler) : list AgentInstanceId :=
  take (MAX_CONCURRENT_RECIPIENTS - length (active s)) (queued s).

(** The end of an iteration. *)
Definition finished (s : scheduler) : bool :=
  negb (receiver_open s) && match active s with [] => true | _ => false end
  && match queued s with [] => true | _ => false end.

(** One iteration: the state in front of the next one, or [None] after the [break]. *)
Definition iteration (s : scheduler) (e : event) : option scheduler :=
  let s := handle (fill s) e in
  if finished s then None else Some s.

(** The loop over the events that were selected. *)
Fixpoint run_scheduler (s : scheduler) (es : list event) : option scheduler :=
  match es with
  | [] => Some s
  | e :: es => match iteration s e with Some s => run_scheduler s es | None => None end
  end.

(** Every event was enabled when it was selected. *)
Fixpoint selects (s : scheduler) (es : list event) : Prop :=
  match es with
  | [] => True
  | e :: es => enabled (fill s) e = true ∧
      match iteration s e with Some s => selects s es | None => es = [] end
  end.
