(* ===== verification/SchedulerSpec.v ===== *)
(** What the mailbox scheduler guarantees: no recipient is drained twice at a time, at
    most [MAX_CONCURRENT_RECIPIENTS] drains run, no wake-up is lost, and the queue is
    served in order.

    Each theorem is followed by its instance on a run of two recipients. *)

From S2P Require Import Prelude Instance Scheduler.
From stdpp Require Import base tactics gmap strings list relations.
From Stdlib Require Import Lia.

(** * The invariant *)

Record scheduler_ok (s : scheduler) : Prop := {
  so_nodup : NoDup (queued s ++ active s);
  so_known : ∀ r, r ∈ queued s ++ active s → r ∈ known s;
  so_rerun : rerun s ⊆ known s;
  so_bounded : length (active s) ≤ MAX_CONCURRENT_RECIPIENTS;
}.

Lemma start_drains_spec slots q a :
  start_drains slots q a = (drop slots q, a ++ take slots q).
Proof.
  revert q a. induction slots as [|slots IH]; intros [|r q] a; simpl; rewrite ?app_nil_r; try done.
  rewrite IH, <- app_assoc. done.
Qed.

Lemma fill_queued s :
  queued (fill s) = drop (MAX_CONCURRENT_RECIPIENTS - length (active s)) (queued s).
Proof. unfold fill. by rewrite start_drains_spec. Qed.

Lemma fill_active s : active (fill s) = active s ++ started s.
Proof. unfold fill. by rewrite start_drains_spec. Qed.

Lemma fill_perm s : queued (fill s) ++ active (fill s) ≡ₚ queued s ++ active s.
Proof.
  rewrite fill_queued, fill_active. unfold started.
  rewrite <- (take_drop (MAX_CONCURRENT_RECIPIENTS - length (active s)) (queued s)) at 3.
  set (t := take _ _). set (r := drop _ _). clearbody t r.
  rewrite (Permutation_app_comm (active s)). rewrite !app_assoc.
  apply Permutation_app_tail, Permutation_app_comm.
Qed.

Lemma fill_known s : known (fill s) = known s.
Proof. unfold fill. by rewrite start_drains_spec. Qed.

Lemma fill_rerun s : rerun (fill s) = rerun s.
Proof. unfold fill. by rewrite start_drains_spec. Qed.

Lemma fill_receiver s : receiver_open (fill s) = receiver_open s.
Proof. unfold fill. by rewrite start_drains_spec. Qed.

Lemma fill_ok s : scheduler_ok s → scheduler_ok (fill s).
Proof.
  intros [H1 H2 H3 H4]. split.
  - by rewrite fill_perm.
  - intros r. rewrite fill_perm, fill_known. apply H2.
  - by rewrite fill_rerun, fill_known.
  - rewrite fill_active, length_app. unfold started. rewrite length_take. lia.
Qed.

Lemma wake_ok s r : scheduler_ok s → scheduler_ok (wake s r).
Proof.
  intros [H1 H2 H3 H4]. unfold wake. destruct (bool_decide_reflect (r ∈ known s)) as [Hk|Hk].
  - split; try done. simpl. set_solver.
  - split; simpl; [|set_solver..|done].
    rewrite <- app_assoc. apply NoDup_app in H1 as (Hq & Hd & Ha). apply NoDup_app.
    split_and!; [done| |].
    + intros x Hx [->|Hx']%elem_of_cons; [|by eapply Hd]. apply Hk, H2, elem_of_app. by left.
    + constructor; [|done]. intros Hx. apply Hk, H2, elem_of_app. by right.
Qed.

Lemma wakes_ok rs s : scheduler_ok s → scheduler_ok (foldl wake s rs).
Proof. revert s. induction rs as [|r rs IH]; intros s Hs; [done|]. simpl. by apply IH, wake_ok. Qed.

Lemma remove_first_perm r l : r ∈ l → l ≡ₚ r :: remove_first r l.
Proof.
  induction l as [|x l IH]; [by intros ?%not_elem_of_nil|]. simpl.
  intros [->|H]%elem_of_cons; [by rewrite bool_decide_eq_true_2|].
  destruct (bool_decide_reflect (x = r)) as [->|]; [done|].
  rewrite (IH H) at 1. apply Permutation_swap.
Qed.

(** After a join the drain is neither queued nor running. *)
Lemma joined_ok s r :
  scheduler_ok s → r ∈ active s →
  scheduler_ok (joined s r) ∧ r ∉ queued (joined s r) ++ active (joined s r) ∧
  S (length (active (joined s r))) = length (active s) ∧ r ∈ known s.
Proof.
  intros [H1 H2 H3 H4] Hr. pose proof (remove_first_perm r _ Hr) as Hp. unfold joined. simpl.
  assert (queued s ++ active s ≡ₚ r :: queued s ++ remove_first r (active s)) as Hq
    by (rewrite Hp at 1; by rewrite Permutation_middle).
  rewrite Hq in H1. apply NoDup_cons in H1 as [Hn H1].
  assert (length (active s) = S (length (remove_first r (active s)))) as Hlen
    by (rewrite Hp at 1; done).
  split; [split; simpl; try done|].
  - intros x Hx. apply H2. rewrite Hq. by right.
  - lia.
  - split_and!; [done|done|]. apply H2. rewrite Hq. by left.
Qed.

Lemma drained_ok s r :
  scheduler_ok s → r ∉ queued s ++ active s → r ∈ known s → scheduler_ok (drained s r).
Proof.
  intros [H1 H2 H3 H4] Hn Hk. unfold drained. destruct (bool_decide_reflect (r ∈ rerun s)) as [Hr|Hr].
  - split; simpl; [|set_solver..|done].
    rewrite <- app_assoc. simpl. rewrite <- Permutation_middle. by constructor.
  - split; simpl; [done| |set_solver|done].
    intros x Hx. apply elem_of_difference. split; [by apply H2|]. set_solver.
Qed.

Lemma handle_ok s e : scheduler_ok s → enabled s e = true → scheduler_ok (handle s e).
Proof.
  intros Hs He. destruct e as [[rs|]|r| |r w|r]; simpl in *; try done.
  - by apply wakes_ok.
  - by apply wake_ok.
  - by destruct Hs.
  - apply bool_decide_eq_true in He. destruct (joined_ok s r Hs He) as (Hj & Hn & _ & Hk).
    assert (scheduler_ok (drained (joined s r) r)) by by apply drained_ok.
    destruct w; [by apply wake_ok|done].
  - apply bool_decide_eq_true in He. by apply joined_ok.
Qed.

Lemma iteration_ok s e s' :
  scheduler_ok s → enabled (fill s) e = true → iteration s e = Some s' → scheduler_ok s'.
Proof.
  unfold iteration. intros Hs He Hi. destruct (finished _); [done|]. injection Hi as <-.
  apply handle_ok; [by apply fill_ok|done].
Qed.

Lemma run_ok s es s' :
  scheduler_ok s → selects s es → run_scheduler s es = Some s' → scheduler_ok s'.
Proof.
  revert s. induction es as [|e es IH]; intros s Hs Hsel Hrun; simpl in *; [by injection Hrun as <-|].
  destruct Hsel as [He Hsel]. destruct (iteration s e) as [s1|] eqn:Hi; [|done].
  apply (IH s1); [by eapply iteration_ok|done|done].
Qed.

Lemma idle_ok : scheduler_ok idle.
Proof. split; simpl; [constructor|by intros r ?%not_elem_of_nil|done|lia]. Qed.

(** C20: In every run of the loop no recipient is drained twice at a time, none is both
    queued and drained, and at most [MAX_CONCURRENT_RECIPIENTS] drains run, also while
    an event is awaited. *)
Theorem drains_are_exclusive_and_bounded es s
    (Hsel : selects idle es) (Hrun : run_scheduler idle es = Some s) :
  NoDup (queued s ++ active s) ∧ NoDup (active (fill s)) ∧
  length (active (fill s)) ≤ MAX_CONCURRENT_RECIPIENTS.
Proof.
  pose proof (run_ok _ _ _ idle_ok Hsel Hrun) as Hs. pose proof (fill_ok _ Hs) as [Hf _ _ Hb].
  split_and!; [apply Hs|by apply NoDup_app in Hf as (_ & _ & ?)|done].
Qed.

(** Two recipients: the first is woken again while it is drained. *)
Definition woken : list event :=
  [Scanned (Some ["a"]); Woken "b"; Woken "a"; Drained "a" None; Drained "b" (Some "a")].

Lemma woken_selects : selects idle woken.
Proof. vm_compute. repeat split. Qed.

Example woken_state : ∃ s, run_scheduler idle woken = Some s ∧ active (fill s) = ["a"] ∧
  rerun s = {["a"]}.
Proof. eexists. split; [reflexivity|]. by vm_compute. Qed.

Lemma drains_are_exclusive_and_bounded_witness :
  ∃ s, run_scheduler idle woken = Some s ∧ NoDup (active (fill s)).
Proof.
  destruct (run_scheduler idle woken) as [s|] eqn:Hs; [|discriminate].
  exists s. split; [reflexivity|].
  destruct (drains_are_exclusive_and_bounded woken s woken_selects Hs) as (_ & H & _). exact H.
Defined.

(** * Wake-ups *)

(** Who an event wakes. *)
Definition wakes (e : event) : list AgentInstanceId :=
  match e with
  | Scanned (Some rs) => rs
  | Woken r | Drained _ (Some r) => [r]
  | _ => []
  end.

(** The wake-ups that no drain has answered: a wake-up is answered when a drain of its
    recipient starts after it. *)
Fixpoint owed (s : scheduler) (o : gset AgentInstanceId) (es : list event) : gset AgentInstanceId :=
  match es with
  | [] => o
  | e :: es =>
      let o := (o ∖ list_to_set (started s)) ∪ list_to_set (wakes e) in
      match iteration s e with Some s => owed s o es | None => o end
  end.

(** A wake-up that is owed is queued, or the drain that runs will be repeated. *)
Definition pending (s : scheduler) (r : AgentInstanceId) : Prop :=
  r ∈ queued s ∨ (r ∈ active s ∧ r ∈ rerun s).

(** No drain panics, so that [known] is exactly what is queued or drained. *)
Definition sound (s : scheduler) : Prop :=
  scheduler_ok s ∧ ∀ r, r ∈ known s → r ∈ queued s ++ active s.

Definition unhurt (e : event) : Prop := match e with Panicked _ => False | _ => True end.

Lemma wake_queued s r x : x ∈ queued s → x ∈ queued (wake s r).
Proof. unfold wake. case_bool_decide; simpl; [done|]. set_solver. Qed.

Lemma wake_pending s r x : pending s x → pending (wake s r) x.
Proof.
  intros [Hx|[Ha Hr]]; [left; by apply wake_queued|right]. unfold wake. case_bool_decide; simpl; set_solver.
Qed.

Lemma wake_pends s r : sound s → pending (wake s r) r.
Proof.
  intros [Hs Hk]. unfold wake, pending. case_bool_decide as Hr; simpl; [|set_solver].
  apply Hk, elem_of_app in Hr. set_solver.
Qed.

Lemma wake_sound s r : sound s → sound (wake s r).
Proof.
  intros [Hs Hk]. split; [by apply wake_ok|]. intros x. unfold wake. case_bool_decide; simpl; [by apply Hk|].
  rewrite elem_of_union, elem_of_singleton. intros [->|Hx]; [set_solver|].
  apply Hk, elem_of_app in Hx. set_solver.
Qed.

Lemma wakes_sound rs s :
  sound s → sound (foldl wake s rs) ∧ (∀ x, pending s x → pending (foldl wake s rs) x) ∧
  ∀ r, r ∈ rs → pending (foldl wake s rs) r.
Proof.
  revert s. induction rs as [|r rs IH]; intros s Hs; simpl.
  - split_and!; [done|done|]. by intros r ?%not_elem_of_nil.
  - destruct (IH (wake s r)) as (H1 & H2 & H3); [by apply wake_sound|].
    split_and!; [done| |].
    + intros x Hx. by apply H2, wake_pending.
    + intros x [->|Hx]%elem_of_cons; [by apply H2, wake_pends|by apply H3].
Qed.

Lemma fill_sound s : sound s → sound (fill s).
Proof.
  intros [Hs Hk]. split; [by apply fill_ok|]. intros r. rewrite fill_known, fill_perm. apply Hk.
Qed.

Lemma fill_pending s r : pending s r → r ∉ started s → pending (fill s) r.
Proof.
  unfold pending. rewrite fill_queued, fill_active, fill_rerun. intros [Hr|[Ha Hr]] Hn.
  - left. rewrite <- (take_drop (MAX_CONCURRENT_RECIPIENTS - length (active s)) (queued s)) in Hr.
    apply elem_of_app in Hr as [Hr|Hr]; [by destruct Hn|done].
  - right. split; [|done]. apply elem_of_app. by left.
Qed.

Lemma drained_sound s r :
  sound s → r ∈ active s →
  let s' := drained (joined s r) r in sound s' ∧ ∀ x, pending s x → pending s' x.
Proof.
  intros [Hs Hk] Hr. destruct (joined_ok s r Hs Hr) as (Hj & Hn & _ & Hkn).
  pose proof (remove_first_perm r _ Hr) as Hp. simpl. unfold joined in Hn. simpl in Hn.
  split; [split; [by apply drained_ok|]|].
  - intros x. unfold drained, joined. simpl. case_bool_decide as Hrr; simpl; intros Hx.
    + apply Hk in Hx. rewrite Hp in Hx. set_solver.
    + apply elem_of_difference in Hx as [Hx Hne]. apply Hk in Hx. rewrite Hp in Hx. set_solver.
  - intros x. unfold pending, drained, joined. simpl. case_bool_decide as Hrr; simpl.
    + intros [Hx|[Ha Hx]]; [set_solver|]. destruct (decide (x = r)) as [->|]; [set_solver|].
      rewrite Hp in Ha. set_solver.
    + intros [Hx|[Ha Hx]]; [by left|]. destruct (decide (x = r)) as [->|]; [done|].
      rewrite Hp in Ha. set_solver.
Qed.

Lemma handle_sound s e :
  sound s → enabled s e = true → unhurt e →
  sound (handle s e) ∧ (∀ x, pending s x → pending (handle s e) x) ∧
  ∀ r, r ∈ wakes e → pending (handle s e) r.
Proof.
  intros Hs He Hu. destruct e as [[rs|]|r| |r w|r]; simpl in *; try done.
  - by apply wakes_sound.
  - split_and!; [done|done|]. by intros r ?%not_elem_of_nil.
  - split_and!; [by apply wake_sound|intros x; apply wake_pending|].
    intros x ->%list_elem_of_singleton. by apply wake_pends.
  - split_and!; [|done|by intros r ?%not_elem_of_nil]. destruct Hs as [Hs Hk]. split; [|done]. by destruct Hs.
  - apply bool_decide_eq_true in He. destruct (drained_sound s r Hs He) as [Hd Hp].
    destruct w as [w|]; [|by split_and!; [| |intros x ?%not_elem_of_nil]].
    split_and!; [by apply wake_sound|intros x Hx; by apply wake_pending, Hp|].
    intros x ->%list_elem_of_singleton. by apply wake_pends.
Qed.

Lemma owed_pending s o es :
  sound s → (∀ r, r ∈ o → pending s r) → selects s es → Forall unhurt es →
  match run_scheduler s es with
  | Some s' => sound s' ∧ ∀ r, r ∈ owed s o es → pending s' r
  | None => owed s o es = ∅
  end.
Proof.
  revert s o. induction es as [|e es IH]; intros s o Hs Ho Hsel Hu; simpl; [done|].
  destruct Hsel as [He Hsel]. apply Forall_cons in Hu as [Hu Hus].
  destruct (handle_sound (fill s) e (fill_sound s Hs) He Hu) as (Hs1 & Hp1 & Hw1).
  assert (∀ r, r ∈ (o ∖ list_to_set (started s)) ∪ list_to_set (wakes e) →
    pending (handle (fill s) e) r) as Ho1.
  { intros r [[Hr Hn]%elem_of_difference|Hr]%elem_of_union.
    - apply Hp1, fill_pending; [by apply Ho|]. intros Hin. apply Hn.
      by apply elem_of_list_to_set.
    - apply Hw1. by rewrite elem_of_list_to_set in Hr. }
  unfold iteration in *. destruct (finished (handle (fill s) e)) eqn:Hf.
  - apply set_eq. intros r. split; [|set_solver]. intros Hr. apply Ho1 in Hr.
    unfold finished in Hf. unfold pending in Hr.
    destruct (active (handle (fill s) e)); [|by rewrite andb_false_r in Hf].
    destruct (queued (handle (fill s) e)); [|by rewrite andb_false_r in Hf]. set_solver.
  - by apply IH.
Qed.

(** C14: No wake-up is lost: as long as no drain panics, every wake-up that no later drain
    has answered yet, from a scan, from the channel or from another drain, has its
    recipient in the queue or in a drain that will be repeated; and when the loop ends,
    none is left. *)
Theorem no_wakeup_is_lost es
    (Hsel : selects idle es) (Hpanics : Forall unhurt es) :
  match run_scheduler idle es with
  | Some s => ∀ r, r ∈ owed idle ∅ es → r ∈ queued s ∨ (r ∈ active s ∧ r ∈ rerun s)
  | None => owed idle ∅ es = ∅
  end.
Proof.
  assert (sound idle) as Hidle by (split; [apply idle_ok|set_solver]).
  pose proof (owed_pending idle ∅ es Hidle) as H. 
  destruct (run_scheduler idle es); [|apply H; set_solver].
  apply H; set_solver.
Qed.

Lemma no_wakeup_is_lost_witness :
  ∃ s, run_scheduler idle woken = Some s ∧ owed idle ∅ woken = {["a"]} ∧
    ("a" ∈ queued s ∨ "a" ∈ active s ∧ "a" ∈ rerun s).
Proof.
  destruct (run_scheduler idle woken) as [s|] eqn:Hs; [|discriminate].
  pose proof (no_wakeup_is_lost woken woken_selects) as H. rewrite Hs in H.
  assert (owed idle ∅ woken = {["a"]}) as Ho by (vm_compute; reflexivity).
  exists s. split; [reflexivity|]. split; [exact Ho|]. apply H; [repeat constructor|]. rewrite Ho. by apply elem_of_singleton.
Defined.

(** * Service *)

(** The drains that start in front of each event, and after the last. *)
Fixpoint starts (s : scheduler) (es : list event) : list AgentInstanceId :=
  started s ++
  match es with
  | [] => []
  | e :: es => match iteration s e with Some s => starts s es | None => [] end
  end.

Definition completes (e : event) : nat :=
  match e with Drained _ _ | Panicked _ => 1 | _ => 0 end.

Definition completions (es : list event) : nat := sum_list_with completes es.

(** Whatever happens, the queue is only added to at its end. *)
Lemma wake_extends s r : ∃ l, queued (wake s r) = queued s ++ l.
Proof. unfold wake. case_bool_decide; simpl; [by exists []; rewrite app_nil_r|by exists [r]]. Qed.

Lemma wake_active s r : active (wake s r) = active s.
Proof. unfold wake. by case_bool_decide. Qed.

Lemma wakes_extend rs s :
  (∃ l, queued (foldl wake s rs) = queued s ++ l) ∧ active (foldl wake s rs) = active s.
Proof.
  revert s. induction rs as [|r rs IH]; intros s; simpl; [by split; [exists []; rewrite app_nil_r|]|].
  destruct (IH (wake s r)) as [[l Hl] Ha], (wake_extends s r) as [l' Hl'].
  split; [|by rewrite Ha, wake_active]. exists (l' ++ l). by rewrite Hl, Hl', app_assoc.
Qed.

Lemma drained_extends s r : ∃ l, queued (drained s r) = queued s ++ l.
Proof. unfold drained. case_bool_decide; simpl; [by exists [r]|by exists []; rewrite app_nil_r]. Qed.

Lemma drained_active s r : active (drained s r) = active s.
Proof. unfold drained. by case_bool_decide. Qed.

Lemma handle_extends s e :
  scheduler_ok s → enabled s e = true →
  (∃ l, queued (handle s e) = queued s ++ l) ∧
  length (active (handle s e)) + completes e = length (active s).
Proof.
  intros Hs He. destruct e as [[rs|]|r| |r w|r]; simpl in *.
  - destruct (wakes_extend rs s) as [? ->]. split; [done|lia].
  - split; [by exists []; rewrite app_nil_r|lia].
  - rewrite wake_active. split; [apply wake_extends|lia].
  - split; [by exists []; rewrite app_nil_r|lia].
  - apply bool_decide_eq_true in He. destruct (joined_ok s r Hs He) as (_ & _ & Hlen & _).
    destruct (drained_extends (joined s r) r) as [l Hl].
    destruct w as [w|]; rewrite ?wake_active, drained_active; (split; [|lia]).
    + destruct (wake_extends (drained (joined s r) r) w) as [l' Hl']. exists (l ++ l').
      by rewrite Hl', Hl, app_assoc.
    + by exists l.
  - apply bool_decide_eq_true in He. destruct (joined_ok s r Hs He) as (_ & _ & Hlen & _).
    simpl in Hlen. split; [by exists []; rewrite app_nil_r|lia].
Qed.

Lemma started_at s i r :
  queued s !! i = Some r →
  r ∈ started s ∨ (MAX_CONCURRENT_RECIPIENTS - length (active s) ≤ i ∧
    queued (fill s) !! (i - (MAX_CONCURRENT_RECIPIENTS - length (active s))) = Some r ∧
    MAX_CONCURRENT_RECIPIENTS ≤ length (active (fill s))).
Proof.
  intros Hi. rewrite fill_queued, fill_active. unfold started.
  set (n := MAX_CONCURRENT_RECIPIENTS - length (active s)).
  destruct (decide (i < n)) as [Hlt|Hge].
  - left. eapply list_elem_of_lookup_2. by rewrite lookup_take, decide_True.
  - right. split; [lia|]. split; [rewrite lookup_drop; by replace (n + (i - n)) with i by lia|].
    apply lookup_lt_Some in Hi. rewrite length_app, length_take. lia.
Qed.

Lemma served s es s' i r :
  scheduler_ok s → selects s es → run_scheduler s es = Some s' → queued s !! i = Some r →
  i < completions es + (MAX_CONCURRENT_RECIPIENTS - length (active s)) → r ∈ starts s es.
Proof.
  revert s i. induction es as [|e es IH]; intros s i Hs Hsel Hrun Hi Hc; simpl in *.
  - rewrite app_nil_r. unfold completions in Hc. simpl in Hc.
    destruct (started_at s i r Hi) as [?|(? & _)]; [done|lia].
  - destruct Hsel as [He Hsel].
    destruct (started_at s i r Hi) as [Hin|(Hge & Hj & Hfull)]; [apply elem_of_app; by left|].
    destruct (iteration s e) as [s1|] eqn:Hit; [|done].
    pose proof (iteration_ok _ _ _ Hs He Hit) as Hs1.
    unfold iteration in Hit. destruct (finished _); [done|]. injection Hit as Hit.
    destruct (handle_extends (fill s) e (fill_ok s Hs) He) as [[l Hl] Hlen].
    rewrite Hit in Hl, Hlen. apply elem_of_app. right.
    eapply IH; [done|done|done| |].
    + rewrite Hl. by apply lookup_app_l_Some.
    + unfold completions in *. simpl in Hc. unfold completions.
      pose proof (so_bounded _ (fill_ok s Hs)). lia.
Qed.

(** C19: The queue is served in order, whatever is woken meanwhile: a recipient is drained as
    soon as more drains have ended, counting the slots that are free, than there are
    others in front of it. *)
Theorem queue_is_served_in_order es0 s es s' i r
    (Hsel0 : selects idle es0) (Hrun0 : run_scheduler idle es0 = Some s)
    (Hsel : selects s es) (Hrun : run_scheduler s es = Some s')
    (Hi : queued s !! i = Some r)
    (Hc : i < completions es + (MAX_CONCURRENT_RECIPIENTS - length (active s))) :
  r ∈ starts s es.
Proof.
  eapply served; [|done|done|done|done]. by eapply run_ok; [apply idle_ok| |].
Qed.

(** Seventeen recipients: the last one waits for the first drain that ends. *)
Definition crowd : list AgentInstanceId :=
  ["0"; "1"; "2"; "3"; "4"; "5"; "6"; "7"; "8"; "9"; "10"; "11"; "12"; "13"; "14"; "15"; "16"].

Definition crowded : scheduler := default idle (run_scheduler idle [Scanned (Some crowd); Closed]).

Definition relieved : scheduler := default idle (run_scheduler crowded [Drained "3" None]).

Lemma queue_is_served_in_order_witness : "16" ∈ starts crowded [Drained "3" None].
Proof.
  apply (queue_is_served_in_order [Scanned (Some crowd); Closed] crowded [Drained "3" None]
    relieved 0 "16").
  - vm_compute. repeat split.
  - vm_compute. reflexivity.
  - vm_compute. repeat split.
  - vm_compute. reflexivity.
  - vm_compute. reflexivity.
  - vm_compute. repeat constructor.
Defined.

(** ** A drain that panics *)

Definition stuck (s : scheduler) (r : AgentInstanceId) : Prop :=
  r ∈ known s ∧ r ∉ queued s ++ active s.

Lemma wake_stuck s r x : stuck s r → stuck (wake s x) r.
Proof.
  intros [Hk Hn]. unfold stuck, wake. case_bool_decide as Hx; simpl; [done|].
  assert (x ≠ r) by by intros ->. split; set_solver.
Qed.

Lemma wakes_stuck s r xs : stuck s r → stuck (foldl wake s xs) r.
Proof. revert s. induction xs as [|x xs IH]; intros s H; [done|]. simpl. by apply IH, wake_stuck. Qed.

Lemma handle_stuck s r e :
  scheduler_ok s → stuck s r → enabled s e = true → stuck (handle s e) r.
Proof.
  intros Hs Hst He. destruct e as [[rs|]|x| |x w|x]; simpl in *; try done.
  - by apply wakes_stuck.
  - by apply wake_stuck.
  - apply bool_decide_eq_true in He. destruct Hst as [Hk Hn].
    assert (x ≠ r) by (intros ->; set_solver).
    pose proof (remove_first_perm x _ He) as Hp. rewrite Hp in Hn.
    assert (stuck (drained (joined s x) x) r) as Hd.
    { unfold stuck, drained, joined. simpl. case_bool_decide; simpl; set_solver. }
    destruct w; [by apply wake_stuck|done].
  - apply bool_decide_eq_true in He. destruct Hst as [Hk Hn]. split; [done|].
    rewrite (remove_first_perm x _ He) in Hn. simpl. set_solver.
Qed.

Lemma fill_stuck s r : stuck s r → stuck (fill s) r.
Proof. unfold stuck. rewrite fill_known. by rewrite fill_perm. Qed.

Lemma stuck_starts s r es : scheduler_ok s → stuck s r → selects s es → r ∉ starts s es.
Proof.
  revert s. induction es as [|e es IH]; intros s Hs Hst Hsel; simpl;
    intros [Hr|Hr]%elem_of_app; try (by apply not_elem_of_nil in Hr);
    try by (destruct Hst as [_ Hn]; apply Hn, elem_of_app; left; unfold started in Hr;
            apply elem_of_take in Hr as (n & Hn' & _); eapply list_elem_of_lookup_2).
  destruct Hsel as [He Hsel]. destruct (iteration s e) as [s1|] eqn:Hi;
    [|by apply not_elem_of_nil in Hr].
  revert Hr. apply IH; [by eapply iteration_ok| |done].
  unfold iteration in Hi. destruct (finished _); [done|]. injection Hi as <-.
  apply handle_stuck; [by apply fill_ok|by apply fill_stuck|done].
Qed.

(** A recipient whose drain panicked is never drained again by this loop, however often
    it is woken: it stays in [known], so that its wake-ups only mark it for a repetition
    that no join will find. *)
Theorem panicked_recipient_is_never_drained es0 s r s1 es
    (Hsel0 : selects idle es0) (Hrun0 : run_scheduler idle es0 = Some s)
    (Hr : r ∈ active (fill s)) (Hi : iteration s (Panicked r) = Some s1) (Hsel : selects s1 es) :
  r ∉ starts s1 es.
Proof.
  pose proof (run_ok _ _ _ idle_ok Hsel0 Hrun0) as Hs.
  destruct (joined_ok (fill s) r (fill_ok s Hs) Hr) as (Hj & Hn & _ & Hk).
  unfold iteration in Hi. simpl in Hi. destruct (finished _); [done|]. injection Hi as <-.
  apply stuck_starts; [done|by split|done].
Qed.

Definition hurt : scheduler := default idle (run_scheduler idle [Woken "a"; Panicked "a"]).

Lemma panicked_recipient_is_never_drained_witness :
  "a" ∉ starts hurt [Woken "a"; Scanned (Some ["a"])].
Proof.
  apply (panicked_recipient_is_never_drained [Woken "a"] (wake idle "a") "a").
  - by repeat split.
  - reflexivity.
  - vm_compute. by apply list_elem_of_here.
  - vm_compute. reflexivity.
  - vm_compute. repeat split.
Defined.
