(* ===== verification/HistoryFacts.v ===== *)
(** Facts about the message history: which rows a caller reads, and what an operation
    leaves of them. *)

From S2P Require Import Prelude Graph Instance Store Ledger ToolInvocation.
From S2P Require Import WorkspaceStore InstanceStore.
From S2P Require Import SessionTables TurnStore HistoryStore TurnFacts.
From stdpp Require Import base tactics gmap strings list sorting.
From Stdlib Require Import ZArith Lia.

(** * Reading rows *)

Lemma read_all_ok {A B} (f : A → res B SessionStoreError) (l : list A) (g : A → B) :
  (∀ a, a ∈ l → f a = Ok (g a)) → read_all f l = Ok (g <$> l).
Proof.
  induction l as [|a l IH]; intros H; [done|]. simpl. rewrite (H a) by by left. simpl.
  by rewrite IH by (intros b Hb; apply H; by right).
Qed.

Lemma read_all_ext {A B} (f g : A → res B SessionStoreError) (l : list A) :
  (∀ a, a ∈ l → f a = g a) → read_all f l = read_all g l.
Proof.
  induction l as [|a l IH]; intros H; [done|]. simpl. rewrite (H a) by by left.
  by rewrite IH by (intros b Hb; apply H; by right).
Qed.

Lemma read_all_take {A B} (f : A → res B SessionStoreError) (l : list A) out n :
  read_all f l = Ok out → read_all f (take n l) = Ok (take n out).
Proof.
  revert out n. induction l as [|a l IH]; intros out n H.
  - injection H as <-. by destruct n.
  - simpl in H. apply res_bind_ok in H as (b & Hb & H). apply res_bind_ok in H as (bs & Hbs & H).
    injection H as <-. destruct n as [|n]; [done|]. simpl. rewrite Hb. simpl.
    by rewrite (IH bs n Hbs).
Qed.

(** ** The order of a history *)

Lemma sorted_key_strict {A} (key : A → Z) (l : list A) :
  NoDup (key <$> l) → StronglySorted (λ a b, Is_true (key a <=? key b)%Z) l →
  StronglySorted (λ a b, (key a < key b)%Z) l.
Proof.
  intros Hn Hs. induction Hs as [|a l Hs IH Ha]; [constructor|].
  apply NoDup_cons in Hn as [Ha' Hn]. constructor; [by apply IH|].
  rewrite Forall_forall in Ha |- *. intros b Hb. specialize (Ha b Hb).
  rewrite Is_true_true, Z.leb_le in Ha. assert (key a ≠ key b); [|lia].
  intros He. apply Ha'. rewrite He. apply list_elem_of_fmap. by exists b.
Qed.

Lemma stable_sort_key_perm {A} (key : A → Z) (l k : list A) :
  NoDup (key <$> k) → l ≡ₚ k →
  stable_sort (λ a b, (key a <=? key b)%Z) l = stable_sort (λ a b, (key a <=? key b)%Z) k.
Proof.
  intros Hn Hlk. apply stable_sort_key; [|by rewrite stable_sort_perm].
  apply sorted_key_strict; [by rewrite stable_sort_perm|]. apply stable_sort_sorted.
  - intros a b. rewrite !Is_true_true, !Z.leb_le. lia.
  - intros a b c. rewrite !Is_true_true, !Z.leb_le. lia.
Qed.

(** The sequence numbers of the rows of one session differ. *)
Lemma NoDup_session_rows (m : gmap (SessionId * Z) line) (P : SessionId * Z * line → Prop)
    `{!∀ x, Decision (P x)} s :
  (∀ kl, P kl → kl.1.1 = s) → NoDup ((λ kl, kl.1.2) <$> filter P (map_to_list m)).
Proof.
  intros HP. apply NoDup_fmap_2_strong.
  - intros [[s1 n1] l1] [[s2 n2] l2]. rewrite !list_elem_of_filter, !elem_of_map_to_list.
    intros [H1%HP Hl1] [H2%HP Hl2]. simpl in *. congruence.
  - apply NoDup_filter, NoDup_map_to_list.
Qed.

Definition active (d : tdb) (s : SessionId) (ctx : SessionContext) (all : bool)
    (kl : SessionId * Z * line) : Prop :=
  visible_line d s ctx kl && (all || negb (is_summarized kl.2)) = true.

#[global] Instance active_dec d s ctx all kl : Decision (active d s ctx all kl).
Proof. unfold active. apply _. Defined.

Lemma active_session d s ctx all kl : active d s ctx all kl → kl.1.1 = s.
Proof.
  unfold active, visible_line, own_line. rewrite !andb_true_iff.
  intros [[[[Hs _] _] _] _]. by apply bool_decide_eq_true in Hs.
Qed.

(** The history is the one list of the visible rows in the order of [seq]. *)
Lemma history_rows_perm d s ctx all l :
  l ≡ₚ filter (active d s ctx all) (map_to_list (lines (sd d))) →
  StronglySorted (λ a b, (a.1.2 < b.1.2)%Z) l → history_rows d s ctx all = l.
Proof. intros Hp Hs. apply (stable_sort_key (λ kl, kl.1.2)); [done|by symmetry]. Qed.

Lemma history_rows_eq d d' s ctx all :
  filter (active d' s ctx all) (map_to_list (lines (sd d'))) ≡ₚ
    filter (active d s ctx all) (map_to_list (lines (sd d))) →
  history_rows d' s ctx all = history_rows d s ctx all.
Proof.
  intros Hp. apply (stable_sort_key_perm (λ kl, kl.1.2)); [|done].
  apply (NoDup_session_rows _ _ s). apply active_session.
Qed.

Lemma elem_of_history d s ctx all kl :
  kl ∈ history_rows d s ctx all ↔ active d s ctx all kl ∧ lines (sd d) !! kl.1 = Some kl.2.
Proof.
  unfold history_rows. rewrite stable_sort_perm, list_elem_of_filter.
  destruct kl as [k l]. by rewrite elem_of_map_to_list.
Qed.

(** * Replacing the active history *)

Fixpoint replacement_rows (ctx : SessionContext) (s : SessionId) (seq now : Z)
    (ms : list ReplacementMessage) : list (SessionId * Z * line) :=
  match ms with
  | [] => []
  | m :: ms =>
      ((s, seq), written_line ctx (rm_role m) (rm_content m) None (rm_tool_name m) now)
      :: replacement_rows ctx s (seq + 1) now ms
  end.

Lemma elem_of_replacement ctx s seq now ms kl :
  kl ∈ replacement_rows ctx s seq now ms →
  (seq ≤ kl.1.2)%Z ∧ kl.1.1 = s ∧
  ∃ m, kl.2 = written_line ctx (rm_role m) (rm_content m) None (rm_tool_name m) now.
Proof.
  revert seq. induction ms as [|m ms IH]; intros seq; simpl; [by intros ?%not_elem_of_nil|].
  intros [->|H]%elem_of_cons; [simpl; split_and!; [lia|done|by exists m]|].
  apply IH in H as (? & ? & ?). split_and!; [lia|done..].
Qed.

Lemma replacement_sorted ctx s seq now ms :
  StronglySorted (λ a b, (a.1.2 < b.1.2)%Z) (replacement_rows ctx s seq now ms).
Proof.
  revert seq. induction ms as [|m ms IH]; intros seq; simpl; [constructor|].
  constructor; [apply IH|]. apply Forall_forall. intros kl Hkl.
  apply elem_of_replacement in Hkl as [? _]. simpl. lia.
Qed.

Lemma insert_messages_ok d ctx s seq now ms d' :
  turns_ok d → insert_messages d ctx s seq now ms = Ok d' →
  kept d d' ∧ map_to_list (lines (sd d')) ≡ₚ
    replacement_rows ctx s seq now ms ++ map_to_list (lines (sd d)).
Proof.
  revert d seq. induction ms as [|m ms IH]; intros d seq Hok H; simpl in H;
    destruct (i64_max <=? seq)%Z; try done; [by injection H as <-|].
  apply res_bind_ok in H as ([id d1] & Hi & H).
  eapply insert_message_ok in Hi as (Hk & _ & Hl & Hnone & _); [|done].
  destruct (IH _ _ (proj1 Hk) H) as [Hk2 Hp]. split; [by eapply ledger_kept_trans|].
  rewrite Hp, Hl, map_to_list_insert by done. simpl. by rewrite Permutation_middle.
Qed.

(** The row that a caller writes is its own. *)
Lemma own_written s ctx role content model tool now seq :
  own_line s ctx ((s, seq), written_line ctx role content model tool now) = true.
Proof. unfold own_line. simpl. by rewrite !bool_decide_eq_true_2. Qed.

Lemma row_written s seq k ctx role content model tool now :
  row_to_message s seq k (written_line ctx role content model tool now) =
    Ok {| sm_id := row_id k; sm_session_id := s; sm_user_id := ctx_user_id ctx;
          sm_agent_id := ctx_agent_id ctx; sm_agent_instance_id := ctx_agent_instance_id ctx;
          sm_trace_id := ctx_trace_id ctx; sm_priority := Some (ctx_priority ctx);
          sm_seq := if (0 <=? seq)%Z && (seq <=? u32_max)%Z then seq else u32_max;
          sm_role := role; sm_content := content; sm_model_id := model; sm_tool_name := tool;
          sm_parent_msg_id := parent_msg_id k; sm_is_summarized := false;
          sm_created_at := now |}.
Proof.
  unfold row_to_message. simpl.
  rewrite (proj1 MessageRoles.MessageRole_codec), (proj1 Priorities.Priority_codec). done.
Qed.

Lemma kept_summarize f d : turns_ok d → kept d (summarize_where f d).
Proof.
  intros Hok. apply kept_same; try done; simpl.
  - intros k. rewrite map_lookup_imap. by destruct (lines (sd d) !! k).
  - intros k l Hl. rewrite map_lookup_imap, Hl. simpl. eexists. split; [done|].
    by destruct (f (k, l)).
Qed.

(** What [summarize_where] leaves of a row. *)
Lemma summarized_lookup f d k l :
  lines (sd (summarize_where f d)) !! k = Some l ↔
  ∃ l0, lines (sd d) !! k = Some l0 ∧ l = if f (k, l0) then summarize l0 else l0.
Proof. simpl. rewrite map_lookup_imap. destruct (lines (sd d) !! k); naive_solver. Qed.

Lemma filter_forall {A} (P : A → Prop) `{!∀ x, Decision (P x)} (l : list A) :
  (∀ x, x ∈ l → P x) → filter P l = l.
Proof.
  induction l as [|x l IH]; intros Hl; [done|].
  rewrite filter_cons_True by (apply Hl; by left). f_equal. apply IH. intros y Hy. apply Hl. by right.
Qed.

Lemma filter_none {A} (P : A → Prop) `{!∀ x, Decision (P x)} (l : list A) :
  (∀ x, x ∈ l → ¬ P x) → filter P l = [].
Proof.
  induction l as [|x l IH]; intros Hl; [done|].
  rewrite filter_cons_False by (apply Hl; by left). apply IH. intros y Hy. apply Hl. by right.
Qed.

(** Rows that two databases agree on, as far as a caller sees them. *)
Lemma filter_lines_perm (m m' : gmap (SessionId * Z) line) (P : SessionId * Z * line → Prop)
    `{!∀ x, Decision (P x)} :
  (∀ k l, P (k, l) → m !! k = Some l ↔ m' !! k = Some l) →
  filter P (map_to_list m) ≡ₚ filter P (map_to_list m').
Proof.
  intros Hm. apply NoDup_Permutation; [apply NoDup_filter, NoDup_map_to_list..|].
  intros [k l]. rewrite !list_elem_of_filter, !elem_of_map_to_list. naive_solver.
Qed.

Lemma active_base d d' s ctx all kl :
  base (sd d') = base (sd d) → active d' s ctx all kl ↔ active d s ctx all kl.
Proof. intros Hb. unfold active, visible_line, plays_agent. by rewrite Hb. Qed.

(** Two histories that share no row. *)
Definition apart (s : SessionId) (ctx : SessionContext) (s' : SessionId) (ctx' : SessionContext) : Prop :=
  s' ≠ s ∨ ctx_user_id ctx' ≠ ctx_user_id ctx ∨ ctx_agent_instance_id ctx' ≠ ctx_agent_instance_id ctx.

Lemma apart_own s ctx s' ctx' kl :
  apart s ctx s' ctx' → own_line s' ctx' kl = true → own_line s ctx kl = true → False.
Proof.
  unfold own_line. rewrite !andb_true_iff, !bool_decide_eq_true. unfold apart. naive_solver congruence.
Qed.

Lemma replaced_rows d ctx s ms now d' :
  turns_ok d → replace_active_history d ctx s ms now = Ok (tt, d') →
  kept d d' ∧ (∃ seq, history_rows d' s ctx false = replacement_rows ctx s seq now ms) ∧
  ∀ s' ctx' all, apart s ctx s' ctx' → history_rows d' s' ctx' all = history_rows d s' ctx' all.
Proof.
  intros Hok H. unfold replace_active_history in H. apply bail_ok in H as [_ H].
  apply bail_ok in H as [Hmay%negb_false_iff H]. apply res_bind_ok in H as (seq & _ & H).
  apply res_bind_ok in H as (d2 & Hi & H). injection H as <-.
  match type of Hi with insert_messages (summarize_where ?f _) _ _ _ _ _ = _ =>
    set (retire := f) in Hi end.
  assert (kept d (summarize_where retire d)) as Hk1 by by apply kept_summarize.
  destruct (insert_messages_ok _ _ _ _ _ _ _ (proj1 Hk1) Hi) as [Hk2 Hp].
  assert (kept d d2) as Hk by by eapply ledger_kept_trans.
  destruct Hk as (Hok2 & Hs2 & Hb2). assert (base (sd d2) = base (sd d)) as Hbase.
  { unfold base. by destruct Hb2 as [-> _]. }
  set (d' := touch_session d2 s now). split; [|split].
  - apply (ledger_kept_trans d d2); [by split_and!|]. intros ?. by apply kept_touch.
  - exists seq. apply history_rows_perm; [|apply replacement_sorted].
    change (lines (sd d')) with (lines (sd d2)). rewrite Hp, filter_app.
    assert (plays_agent d' s ctx = true) as Hplays.
    { unfold may_write in Hmay. destruct (sessions (sd d) !! s); [|done].
      apply andb_true_iff in Hmay as [_ Hmay]. revert Hmay. unfold plays_agent. change (base (sd d')) with (base (sd d2)).
      by rewrite Hbase. }
    rewrite (filter_forall _ (replacement_rows _ _ _ _ _)), filter_none; [by rewrite app_nil_r|..].
    + intros [k l] Hl%elem_of_map_to_list. apply summarized_lookup in Hl as (l0 & _ & ->).
      unfold active, visible_line, retire. rewrite !andb_true_iff. intros [[Hown _] Hact].
      destruct (own_line s ctx (k, l0) && negb (is_summarized (k, l0).2)) eqn:Hr; [done|].
      simpl in Hown, Hact, Hr. by rewrite Hown, Hact in Hr.
    + intros [[s1 n] l] Hl. apply elem_of_replacement in Hl as (_ & Hs1 & m & Hm).
      simpl in Hs1, Hm. subst. unfold active, visible_line. by rewrite own_written, Hplays.
  - intros s' ctx' all Hapart. apply history_rows_eq.
    change (lines (sd d')) with (lines (sd d2)). rewrite Hp, filter_app.
    rewrite filter_none.
    + rewrite app_nil_l, (list_filter_iff _ (active d s' ctx' all)) by
        (intros kl; by apply active_base).
      apply filter_lines_perm. intros k l Hact.
      assert (own_line s' ctx' (k, l) = true) as Hown.
      { revert Hact. unfold active, visible_line. rewrite !andb_true_iff. tauto. }
      assert (∀ l0, own_line s ctx (k, l0) = own_line s ctx (k, summarize l0)) as Hsum by done.
      rewrite summarized_lookup. split.
      * intros (l0 & Hl0 & ->). destruct (retire (k, l0)) eqn:Hr; [|done].
        unfold retire in Hr. apply andb_true_iff in Hr as [Hr _]. rewrite Hsum in Hr.
        by destruct (apart_own _ _ _ _ _ Hapart Hown Hr).
      * intros Hl. exists l. split; [done|]. destruct (retire (k, l)) eqn:Hr; [|done].
        unfold retire in Hr. apply andb_true_iff in Hr as [Hr _].
        by destruct (apart_own _ _ _ _ _ Hapart Hown Hr).
    + intros [[s1 n] l] Hl Hact. apply elem_of_replacement in Hl as (_ & Hs1 & m & Hm).
      simpl in Hs1, Hm. subst.
      apply (apart_own s ctx s' ctx' ((s, n), written_line ctx (rm_role m) (rm_content m) None
        (rm_tool_name m) now) Hapart); [|apply own_written].
      revert Hact. unfold active, visible_line. rewrite !andb_true_iff. tauto.
Qed.

(** The columns of a replacement message that its caller chose. *)
Lemma read_replacement d ctx s seq now ms :
  (∀ kl, kl ∈ replacement_rows ctx s seq now ms → is_Some (row_keys d !! kl.1)) →
  ∃ out, read_all (read_line d) (replacement_rows ctx s seq now ms) = Ok out ∧
    (λ m, (sm_role m, sm_content m, sm_tool_name m)) <$> out =
      (λ m, (rm_role m, rm_content m, rm_tool_name m)) <$> ms.
Proof.
  revert seq. induction ms as [|m ms IH]; intros seq Hkeys; simpl in *; [by exists []|].
  destruct (IH (seq + 1)%Z) as (out & -> & Hout); [intros kl Hkl; apply Hkeys; by right|].
  destruct (Hkeys ((s, seq), written_line ctx (rm_role m) (rm_content m) None (rm_tool_name m) now))
    as [k Hk]; [by left|].
  simpl in Hk. unfold read_line. simpl. rewrite Hk. cbn [ok_or res_bind]. rewrite row_written.
  eexists. split; [done|]. rewrite !fmap_cons. simpl. by f_equal.
Qed.

Lemma history_has_keys d s ctx all kl :
  turns_ok d → kl ∈ history_rows d s ctx all → is_Some (row_keys d !! kl.1).
Proof. intros Hok [_ Hl]%elem_of_history. apply (to_rows _ Hok). by exists kl.2. Qed.

(** A history whose rows stayed is read as before. *)
Lemma read_history_same d d' ctx s all limit :
  turns_ok d → row_keys d ⊆ row_keys d' → history_rows d' s ctx all = history_rows d s ctx all →
  read_history d' ctx s all limit = read_history d ctx s all limit.
Proof.
  intros Hok Hsub Hrows. unfold read_history. rewrite Hrows.
  apply read_all_ext. intros kl Hkl.
  assert (kl ∈ history_rows d s ctx all) as Hin.
  { destruct limit; [by eapply elem_of_take in Hkl as (? & ?%list_elem_of_lookup_2 & _)|done]. }
  destruct (history_has_keys _ _ _ _ _ Hok Hin) as [k Hk].
  unfold read_line. by rewrite Hk, (lookup_weaken _ _ _ _ Hk Hsub).
Qed.
