(* ===== verification/TurnRun.v ===== *)
(** Every operation of the ledgers keeps their invariant and changes rows only by
    their steps; runs of any operations, and how the rest of the session database
    sees them. *)

From S2P Require Import Prelude Graph Instance Store Ledger ToolContract ToolInvocation.
From S2P Require Membership.
From S2P Require Import WorkspaceStore InstanceStore StoreSystem StoreHistory.
From S2P Require Import SessionTables TurnStore ToolStore TurnFacts.
From stdpp Require Import base tactics gmap strings list sorting relations.
From Stdlib Require Import ZArith Lia.

(** * Guards *)

Lemma running_iff t : turn_running t = true ↔ tn_state t = TurnStates.Running.
Proof. apply bool_decide_eq_true. Qed.

Lemma call_running_iff c : call_running c = true ↔ tl_state c = CallStates.Running.
Proof. apply bool_decide_eq_true. Qed.

Lemma neq_eq {A} `{EqDecision A} (x y : A) : (x != y) = false → x = y.
Proof. intros H. apply negb_false_iff, bool_decide_eq_true in H. done. Qed.

Lemma negb_eqb x y : negb (x =? y)%Z = false → x = y.
Proof. intros H. by apply negb_false_iff, Z.eqb_eq in H. Qed.

(** * Turns *)

Lemma turn_row_ended k t state kind now :
  turn_row_ok k t → state ≠ TurnStates.Running →
  (kind ≠ None → state = TurnStates.Failed) → turn_row_ok k (end_turn state kind now t).
Proof. intros (-> & _) Hs Hk. split_and!; simpl; done. Qed.

Lemma turn_step_ended t state kind now :
  tn_state t = TurnStates.Running → state ≠ TurnStates.Running →
  turn_step t (end_turn state kind now t).
Proof. intros. right. split_and!; done. Qed.

(** A turn without running calls completes. *)
Lemma kept_complete_turn d k t kind now :
  turns_ok d → session_turns d !! k = Some t → turn_running t = true →
  tn_failure_kind t = kind → has_running_call d k.1 k.2 = false →
  kept d (set_session_turns d (<[k := end_turn TurnStates.Completed kind now t]> (session_turns d))).
Proof.
  intros Hok Hk Hrun%running_iff <- Hidle.
  assert (turn_row_ok k t) as Hrow by by apply Hok.
  pose proof (kept_end_turn d k t (end_turn TurnStates.Completed (tn_failure_kind t) now t)
    (λ _ c, c) Hok Hk) as H. rewrite map_imap_Some in H. apply H; clear H.
  - apply turn_row_ended; [done|done|]. intros Hf. destruct Hrow as (_ & _ & Hf'). rewrite Hf' in Hrun; done.
  - by apply turn_step_ended.
  - intros [k' call] c Hc. split; [by apply Hok|]. split; [done|]. split; [done|]. simpl. intros ->.
    rewrite has_running_call_false in Hidle. intros Hr. destruct k.
    rewrite (Hidle call c Hc) in Hr. done.
Qed.

Lemma begin_turn_kept d ctx s now out d' :
  turns_ok d → begin_turn d ctx s now = Ok (out, d') → kept d d'.
Proof.
  intros Hok H. unfold begin_turn in H.
  apply bail_ok in H as [_ H]. apply res_bind_ok in H as (? & _ & H).
  apply bail_ok in H as [_ H]. apply res_bind_ok in H as (stored & _ & H).
  do 2 (apply bail_ok in H as [_ H]). apply res_bind_ok in H as (i & _ & H).
  do 2 (apply bail_ok in H as [_ H]). apply bail_ok in H as [[Hnew Hone]%orb_false_iff H].
  apply res_bind_ok in H as (seq & _ & H). apply res_bind_ok in H as ([id d2] & Hi & H).
  injection H as _ <-.
  eapply ledger_kept_trans; [|intros Hok1; eapply ledger_kept_trans;
    [by eapply insert_message_ok|intros Hok2; by apply kept_touch]].
  apply kept_new_turn; [done| |by split_and!|done|done].
  by destruct (session_turns d !! _).
Qed.

Lemma complete_turn_kept d ctx c now out d' :
  turns_ok d → complete_turn d ctx c now = Ok (out, d') → kept d d'.
Proof.
  intros Hok H. unfold complete_turn in H.
  apply res_bind_ok in H as (t & Ht & H). rewrite ok_or_ok in Ht.
  apply bail_ok in H as [Hrun%negb_false_iff H]. apply bail_ok in H as [_ H].
  apply bail_ok in H as [Hidle H].
  apply res_bind_ok in H as (seq & _ & H). apply res_bind_ok in H as ([id d2] & Hi & H).
  injection H as _ <-.
  eapply insert_message_ok in Hi as (Hk & _ & _ & _ & Hturns & _ & Hcalls & _); [|done].
  eapply ledger_kept_trans; [exact Hk|]. intros Hok1.
  eapply ledger_kept_trans; [|intros Hok2; by apply kept_touch].
  apply kept_complete_turn; [done|by rewrite Hturns|done|done|].
  simpl. unfold has_running_call in *. by rewrite Hcalls.
Qed.

Lemma abandon_call_step c now :
  call_running c = true → call_step c (abandon_call now c).
Proof.
  intros Hr%call_running_iff. right. split; [by split_and!|]. split; [done|]. simpl.
  split; [lia|]. split; [lia|done].
Qed.

Lemma finish_turn_kept d s id state kind now d' :
  turns_ok d → finish_turn d s id state kind now = Ok (tt, d') → kept d d'.
Proof.
  intros Hok H. unfold finish_turn in H.
  apply bail_ok in H as [Hst%negb_false_iff H].
  apply res_bind_ok in H as (t & Ht & H). rewrite ok_or_ok in Ht.
  apply bail_ok in H as [Hrun%negb_false_iff H]. injection H as <-.
  assert (state ≠ TurnStates.Running ∧ state ≠ TurnStates.Completed ∧
    (kind ≠ None → state = TurnStates.Failed)) as (Hs1 & Hs2 & Hs3) by by destruct state, kind.
  assert (turn_row_ok (s, id) t) as Hrow by by apply (to_turns _ Hok).
  apply (kept_end_turn d (s, id) t (end_turn state kind now t)); [done|done|..].
  - by apply turn_row_ended.
  - apply turn_step_ended; [by apply running_iff|done].
  - intros k' c Hc. pose proof (to_calls _ Hok _ _ Hc) as Hcall.
    destruct ((k'.1 == (s, id)) && call_running c && before_effect c) eqn:Hcond.
    + destruct_guards. split_and!.
      * destruct Hcall as (? & ? & ? & ? & _ & Hf). unfold call_row_ok; simpl. split_and!; try done.
        intros Hkind. specialize (Hf Hkind). by rewrite call_running_iff, Hf in *.
      * by apply abandon_call_step.
      * by intros [].
      * by intros _ Hr%call_running_iff.
    + split; [done|]. split; [done|]. split; [done|]. intros Hk Hr. split; [done|]. intros _.
      rewrite Hk, bool_decide_eq_true_2, Hr in Hcond by done. done.
Qed.

(** * Model iterations *)

Lemma begin_iteration_kept d s now d' :
  turns_ok d → begin_model_iteration d s now = Ok (tt, d') → kept d d'.
Proof.
  intros Hok H. unfold begin_model_iteration in H.
  apply bail_ok in H as [Hargs H]. apply bail_ok in H as [Hrun H].
  apply bail_ok in H as [Hnext H]. apply bail_ok in H as [Hnew H]. injection H as <-.
  destruct (session_turns d !! (mi_session_id s, mi_turn_id s)) as [t|] eqn:Ht; [|done].
  apply orb_false_iff in Hnext as [Hnum%negb_eqb Hres].
  pose proof (last_iteration_spec d (mi_session_id s, mi_turn_id s)) as Hspec.
  match goal with |- kept _ (set_iterations _ (<[(_, mi_iteration s) := ?r]> _)) =>
    apply (kept_new_iteration d (mi_session_id s, mi_turn_id s) r) end; simpl; try done.
  - by destruct (find_iteration d _).
  - split; [done|]. simpl. split; [|by split_and!].
    destruct (last_iteration d _) as [x|]; [|lia]. destruct Hspec as [[n Hx] _].
    apply (to_iterations _ Hok) in Hx as (_ & Hx & _). lia.
  - destruct (last_iteration d _) as [x|]; [|done]. split; [done|by apply neq_eq].
Qed.

Lemma running_turn_some d r t :
  running_turn_of d r = Some t →
  session_turns d !! (it_session_id r, it_turn_id r) = Some t ∧ tn_state t = TurnStates.Running.
Proof.
  unfold running_turn_of. destruct (session_turns d !! _) as [t'|]; [|done].
  destruct (turn_running t') eqn:Hr; [|done]. intros [= ->]. by rewrite running_iff in Hr.
Qed.

(** An iteration takes its next position; a response it has stays. *)
Lemma kept_put_iteration d k r position message terminal now :
  turns_ok d → iterations d !! k = Some r →
  (model_rank (it_position r) ≤ model_rank position)%Z →
  match message, terminal with
  | None, None => position = ModelPositions.ModelStarted
  | Some id, Some _ => position ≠ ModelPositions.ModelStarted ∧ response_ok d r id
  | _, _ => False
  end →
  (it_response_message_id r ≠ None →
     message = it_response_message_id r ∧ terminal = it_response_terminal r) →
  kept d (set_iterations d (<[k := put_iteration r position (it_ledger_revision r + 1) message
    terminal now]> (iterations d))).
Proof.
  intros Hok Hk Hrank Hresp Hsame.
  destruct (to_iterations _ Hok _ _ Hk) as (Hkey & H1 & H0 & Ht & _).
  eapply kept_iteration; [done|done| |].
  - unfold iteration_row_ok. simpl. split_and!; [done|done|lia|done|].
    destruct message, terminal; done.
  - right. split; [by split_and!|]. simpl. split; [lia|]. split; done.
Qed.

Lemma persist_response_kept d ctx p now out d' :
  turns_ok d → persist_model_response d ctx p now = Ok (out, d') → kept d d'.
Proof.
  intros Hok H. unfold persist_model_response in H.
  apply res_bind_ok in H as ([k r] & Hf & H). rewrite ok_or_ok in Hf.
  apply find_iteration_some in Hf as [Hr _].
  apply res_bind_ok in H as (t & Ht & H). rewrite ok_or_ok in Ht.
  apply running_turn_some in Ht as [Ht Hrun].
  apply res_bind_ok in H as (seq & _ & H). apply bail_ok in H as [Hown%neq_eq H].
  apply bail_ok in H as [Hmodel%neq_eq H]. apply res_bind_ok in H as (? & _ & H).
  apply bail_ok in H as [[_ Hpos%neq_eq]%orb_false_iff H].
  apply res_bind_ok in H as ([id d2] & Hi & H). injection H as _ <-.
  eapply insert_message_ok in Hi as (Hk & Hkeys & Hlines & _ & Hturns & Hits & _); [|done].
  eapply ledger_kept_trans; [exact Hk|]. intros Hok1.
  destruct (to_iterations _ Hok _ _ Hr) as (_ & _ & _ & _ & Hresp).
  apply kept_put_iteration; [done|by rewrite Hits|by rewrite Hpos| |].
  - split; [done|]. exists seq, {| row_id := id; parent_msg_id := None |}. eexists _, t.
    rewrite Hkeys, Hlines, !lookup_insert_eq, Hturns. simpl.
    split_and!; try done; [by eexists|by rewrite Hmodel].
  - destruct (it_response_message_id r) eqn:Hm; [|done]. rewrite Hpos in Hresp.
    destruct (it_response_terminal r); [|done]. by destruct Hresp.
Qed.

(** An iteration with a response moves to [ResponsePersisted] or beyond. *)
Lemma kept_advance_iteration d k r position now :
  turns_ok d → iterations d !! k = Some r → position ≠ ModelPositions.ModelStarted →
  (model_rank (it_position r) ≤ model_rank position)%Z → it_response_message_id r ≠ None →
  kept d (set_iterations d (<[k := put_iteration r position (it_ledger_revision r + 1)
    (it_response_message_id r) (it_response_terminal r) now]> (iterations d))).
Proof.
  intros Hok Hr Hne Hrank Hm. apply kept_put_iteration; [done..| |done].
  destruct (to_iterations _ Hok _ _ Hr) as (_ & _ & _ & _ & Hresp).
  destruct (it_response_message_id r), (it_response_terminal r); try done. by destruct Hresp.
Qed.

Lemma advance_iteration_kept d a now n d' :
  turns_ok d → advance_model_iteration d a now = Ok (n, d') → kept d d'.
Proof.
  intros Hok H. unfold advance_model_iteration in H.
  apply bail_ok in H as [Hadv%negb_false_iff H]. do 2 (apply res_bind_ok in H as (? & _ & H)).
  apply res_bind_ok in H as ([k r] & Hf & H). rewrite ok_or_ok in Hf.
  apply find_iteration_some in Hf as [Hr _].
  apply bail_ok in H as [[[Hpos%neq_eq _]%orb_false_iff _]%orb_false_iff H].
  apply bail_ok in H as [[Hm _]%orb_false_iff H]. injection H as _ <-.
  apply kept_advance_iteration; [done|done|..].
  - by destruct (ma_expected_position a), (ma_next_position a).
  - rewrite Hpos. by destruct (ma_expected_position a), (ma_next_position a).
  - by destruct (it_response_message_id r).
Qed.

Lemma complete_persisted_kept d c now m d' :
  turns_ok d → complete_persisted_turn d c now = Ok (m, d') → kept d d'.
Proof.
  intros Hok H. unfold complete_persisted_turn in H.
  apply res_bind_ok in H as (? & _ & H). apply res_bind_ok in H as ([k r] & Hf & H).
  rewrite ok_or_ok in Hf. apply find_iteration_some in Hf as [Hr _].
  apply bail_ok in H as [Hg H]. apply orb_false_iff in Hg as [Hg Hidle].
  apply orb_false_iff in Hg as [Hg Hrun]. apply orb_false_iff in Hg as [Hg _].
  apply orb_false_iff in Hg as [Hpos%neq_eq _].
  apply res_bind_ok in H as ([[mk lk] l] & Hmsg & H). rewrite ok_or_ok in Hmsg.
  apply res_bind_ok in H as (msg & Hread & H).
  apply res_bind_ok in H as (t & Ht & H). rewrite ok_or_ok in Ht.
  apply bail_ok in H as [Htr%negb_false_iff H]. injection H as _ <-.
  destruct (it_response_message_id r) as [id|] eqn:Hid; [|done]. simpl in Hmsg.
  apply find_message_some in Hmsg as (Hlk & _ & Hrow).
  destruct (to_iterations _ Hok _ _ Hr) as (_ & _ & _ & _ & Hresp). rewrite Hid in Hresp.
  destruct (it_response_terminal r) as [b|] eqn:Hb; [|done].
  destruct Hresp as [_ (seq & lk' & l' & t' & Hlk' & Hrow' & _)].
  assert (mk = (it_session_id r, seq)) as ->.
  { destruct (to_row_ids _ Hok _ _ Hlk) as [_ Huniq]. apply (Huniq _ _ Hlk'). congruence. }
  assert (sm_session_id msg = it_session_id r) as Hs.
  { unfold row_to_message in Hread. inv_ok. done. }
  rewrite Hs in *. eapply ledger_kept_trans;
    [apply (kept_advance_iteration d k r ModelPositions.ToolsResolved now); [done|done|done| |];
     [by rewrite Hpos|by rewrite Hid]|].
  rewrite Hid, Hb. intros Hok1. eapply ledger_kept_trans; [|intros Hok2; by apply kept_touch].
  exact (kept_complete_turn _ (it_session_id r, it_turn_id r) t _ now Hok1 Ht Htr eq_refl Hidle).
Qed.

Lemma classify_model_kept d w n d' :
  turns_ok d → classify_model_recovery d w = Ok (n, d') → kept d d'.
Proof.
  intros Hok H. unfold classify_model_recovery in H.
  apply bail_ok in H as [_ H]. do 2 (apply res_bind_ok in H as (? & _ & H)).
  apply res_bind_ok in H as ([k r] & Hf & H). rewrite ok_or_ok in Hf.
  apply find_iteration_some in Hf as [Hr _]. apply bail_ok in H as [_ H]. injection H as _ <-.
  destruct (to_iterations _ Hok _ _ Hr) as (Hk & H1 & H0 & Ht & Hresp).
  eapply kept_iteration; [done|done| |].
  - unfold iteration_row_ok. simpl. split_and!; [done|done|lia|done|].
    by destruct (it_response_message_id r), (it_response_terminal r).
  - right. split; [by split_and!|]. simpl. split; [lia|]. split; done.
Qed.

(** * Tool calls *)

Lemma begin_call_kept d s now d' :
  turns_ok d → begin_tool_call d s now = Ok (tt, d') → kept d d'.
Proof.
  intros Hok H. unfold begin_tool_call in H. apply bail_ok in H as [Hargs H].
  apply bail_ok in H as [Hrun H].
  destruct (turn d (cs_session_id s) (cs_turn_id s)) as [t|] eqn:Ht; [|done].
  apply negb_false_iff, running_iff in Hrun.
  destruct (tool_calls d !! _) as [c|] eqn:Hc.
  - apply bail_ok in H as [_ [= <-]]. by split.
  - apply bail_ok in H as [Hnew [= <-]]. destruct_guards.
    eapply kept_new_call; [done|done| |exact Ht|done|].
    + simpl. by destruct (find_call d _).
    + split_and!; done.
Qed.

(** The row of a running call moves on. *)
Lemma kept_put_call d k c position revision updated_at state ended_at kind :
  turns_ok d → tool_calls d !! k = Some c → call_running c = true →
  (tl_ledger_revision c ≤ revision)%Z →
  (tool_rank (tl_position c) ≤ tool_rank position)%Z →
  (state = CallStates.Running ↔ ended_at = None) →
  (state = CallStates.Running → tl_ledger_revision c < revision)%Z →
  (kind ≠ None → state = CallStates.Failed) →
  kept d (set_tool_calls d (<[k := put_call c position revision updated_at state ended_at kind]>
    (tool_calls d))).
Proof.
  intros Hok Hk Hrun%call_running_iff Hrev Hrank He Hlt Hkind.
  destruct (to_calls _ Hok _ _ Hk) as (Hkey & H0 & Ht & Hpol & _).
  eapply kept_call; [done|done| |].
  - unfold call_row_ok; simpl. split_and!; try done; [lia|by apply He..].
  - right. split; [by split_and!|]. by split_and!.
Qed.

Lemma call_at_ok c position revision :
  call_at c position revision = true →
  tl_ledger_revision c = revision ∧ tl_position c = position ∧ call_running c = true.
Proof.
  unfold call_at. intros H. apply andb_true_iff in H as [H Hr]. apply andb_true_iff in H as [Hv Hp].
  by apply Z.eqb_eq in Hv; apply bool_decide_eq_true in Hp.
Qed.

Lemma next_u64_succ x n : next_u64 x = Ok n → n = (x + 1)%Z.
Proof. by intros [-> _]%next_u64_ok. Qed.

Lemma advance_call_kept d a now n d' :
  turns_ok d → advance_tool_call d a now = Ok (n, d') → kept d d'.
Proof.
  intros Hok H. unfold advance_tool_call in H. apply bail_ok in H as [Hadv%negb_false_iff H].
  apply res_bind_ok in H as (next & Hn%next_u64_succ & H).
  do 2 (apply res_bind_ok in H as (? & _ & H)).
  apply res_bind_ok in H as (c & Hc & H). rewrite ok_or_ok in Hc.
  destruct (call_at _ _ _) eqn:Hat.
  - injection H as _ <-. apply call_at_ok in Hat as (Hv & Hp & Hr).
    destruct (to_calls _ Hok _ _ Hc) as (_ & _ & _ & _ & He & Hk).
    apply kept_put_call; try done; [lia| |lia].
    rewrite Hp. by destruct (ca_expected_position a), (ca_next_position a).
  - apply bail_ok in H as [_ [= _ <-]]. by split.
Qed.

Lemma persist_result_kept d ctx r now n d' :
  turns_ok d → persist_tool_result d ctx r now = Ok (n, d') → kept d d'.
Proof.
  intros Hok H. unfold persist_tool_result in H.
  apply bail_ok in H as [Hst%negb_false_iff H]. apply bail_ok in H as [Hpos H].
  apply res_bind_ok in H as (? & _ & H). apply res_bind_ok in H as (next & Hn & H).
  rewrite ok_or_ok, checked_add_some in Hn. destruct Hn as [-> _].
  apply bail_ok in H as [_ H]. apply res_bind_ok in H as (c & Hc & H). rewrite ok_or_ok in Hc.
  apply bail_ok in H as [Hat%negb_false_iff H]. apply call_at_ok in Hat as (Hv & Hp & Hr).
  apply res_bind_ok in H as (seq & _ & H). apply res_bind_ok in H as ([id d2] & Hi & H).
  injection H as _ <-. simpl.
  eapply ledger_kept_trans; [|intros Hok1; by eapply insert_message_ok].
  apply kept_put_call; try done; [lia|..].
  - by destruct (tl_position c).
  - by destruct (tr_terminal_state r).
  - by destruct (tr_terminal_state r).
  - by destruct (tr_terminal_state r), (tr_failure_kind r).
Qed.

Lemma finish_call_kept d c now d' :
  turns_ok d → finish_tool_call d c now = Ok (tt, d') → kept d d'.
Proof.
  intros Hok H. unfold finish_tool_call in H. apply bail_ok in H as [Hst%negb_false_iff H].
  apply res_bind_ok in H as (row & Hr & H). rewrite ok_or_ok in Hr.
  apply bail_ok in H as [Hrun%negb_false_iff H]. injection H as <-.
  apply kept_put_call; try done.
  - by destruct (cc_state c).
  - by destruct (cc_state c).
  - by destruct (cc_state c), (cc_failure_kind c).
Qed.

(** Recovery writes its columns at a new revision. *)
Lemma kept_put_recovery d k c decision reason operator attempts owner lease interrupted_at now :
  turns_ok d → tool_calls d !! k = Some c → call_running c = true →
  kept d (set_tool_calls d (<[k := put_recovery c (tl_ledger_revision c + 1) decision reason
    operator attempts owner lease interrupted_at now]> (tool_calls d))).
Proof.
  intros Hok Hk Hrun%call_running_iff.
  destruct (to_calls _ Hok _ _ Hk) as (Hkey & H0 & Ht & Hpol & Hend & Hfail).
  eapply kept_call; [done|done| |].
  - unfold call_row_ok; simpl. split_and!; try done; [lia|by apply Hend..].
  - right. split; [by split_and!|]. simpl. split_and!; try done; lia.
Qed.

Lemma classify_call_kept d w n d' :
  turns_ok d → classify_tool_recovery d w = Ok (n, d') → kept d d'.
Proof.
  intros Hok H. unfold classify_tool_recovery in H. apply bail_ok in H as [_ H].
  apply res_bind_ok in H as (? & _ & H). apply res_bind_ok in H as (next & Hn & H).
  rewrite ok_or_ok, checked_add_some in Hn. destruct Hn as [-> _].
  apply res_bind_ok in H as ([k c] & Hf & H). rewrite ok_or_ok in Hf.
  apply find_call_some in Hf as [Hc _]. apply bail_ok in H as [Hg H]. injection H as _ <-.
  apply orb_false_iff in Hg as [Hg _]. apply orb_false_iff in Hg as [Hv%negb_eqb Hr%negb_false_iff].
  rewrite <- Hv. by apply kept_put_recovery.
Qed.

(** ** Leases *)

(** A row found by its invocation id stays the one that is found. *)
Lemma find_call_unique d k c :
  turns_ok d → tool_calls d !! k = Some c → find_call d (tl_invocation_id c) = Some (k, c).
Proof.
  intros Hok Hk. destruct (find_call d (tl_invocation_id c)) as [[k' c']|] eqn:Hf.
  - apply find_call_some in Hf as [Hk' Hid].
    assert (k' = k) as -> by by eapply (to_call_unique _ Hok). congruence.
  - by destruct (find_call_none _ _ _ _ Hf Hk).
Qed.

Lemma find_iteration_unique d k r :
  turns_ok d → iterations d !! k = Some r → find_iteration d (it_invocation_id r) = Some (k, r).
Proof.
  intros Hok Hk. destruct (find_iteration d (it_invocation_id r)) as [[k' r']|] eqn:Hf.
  - apply find_iteration_some in Hf as [Hk' Hid].
    assert (k' = k) as -> by by eapply (to_iteration_unique _ Hok). congruence.
  - by destruct (find_iteration_none _ _ _ _ Hf Hk).
Qed.

Lemma classify_tool_free d w n d' :
  classify_tool_recovery d w = Ok (n, d') →
  ∃ k c, find_call d (tw_invocation_id w) = Some (k, c) ∧
    may_recover c (tw_recovery_owner w) (tw_observed_at w) = true.
Proof.
  intros H. unfold classify_tool_recovery in H. apply bail_ok in H as [_ H].
  do 2 (apply res_bind_ok in H as (? & _ & H)).
  apply res_bind_ok in H as ([k c] & Hf & H). rewrite ok_or_ok in Hf.
  apply bail_ok in H as [Hg _]. apply orb_false_iff in Hg as [_ Hg%negb_false_iff].
  by exists k, c.
Qed.

Lemma classify_tool_lease d w n d' :
  turns_ok d → classify_tool_recovery d w = Ok (n, d') →
  ∃ k c, find_call d' (tw_invocation_id w) = Some (k, c) ∧
    tl_recovery_owner c = Some (tw_recovery_owner w) ∧
    tl_recovery_lease_expires_at c = Some (tw_lease_expires_at w).
Proof.
  intros Hok H. destruct (classify_call_kept _ _ _ _ Hok H) as [Hok' _].
  unfold classify_tool_recovery in H. apply bail_ok in H as [_ H].
  do 2 (apply res_bind_ok in H as (? & _ & H)).
  apply res_bind_ok in H as ([k c] & Hf & H). rewrite ok_or_ok in Hf.
  apply find_call_some in Hf as [_ <-]. apply bail_ok in H as [_ H]. injection H as _ <-.
  match type of Hok' with turns_ok (set_tool_calls _ (<[_ := ?c']> _)) => exists k, c';
    split; [apply (find_call_unique _ k c' Hok'), lookup_insert_eq|done] end.
Qed.

Lemma classify_model_free d w n d' :
  classify_model_recovery d w = Ok (n, d') →
  ∃ k r, find_iteration d (mw_invocation_id w) = Some (k, r) ∧
    match it_recovery_lease_expires_at r with
    | Some expires => (expires <=? mw_observed_at w)%Z
    | None => true
    end || (it_recovery_owner r == Some (mw_recovery_owner w)) = true.
Proof.
  intros H. unfold classify_model_recovery in H. apply bail_ok in H as [_ H].
  do 2 (apply res_bind_ok in H as (? & _ & H)).
  apply res_bind_ok in H as ([k r] & Hf & H). rewrite ok_or_ok in Hf.
  apply bail_ok in H as [Hg _]. apply orb_false_iff in Hg as [_ Hg%negb_false_iff].
  by exists k, r.
Qed.

Lemma classify_model_lease d w n d' :
  turns_ok d → classify_model_recovery d w = Ok (n, d') →
  ∃ k r, find_iteration d' (mw_invocation_id w) = Some (k, r) ∧
    it_recovery_owner r = Some (mw_recovery_owner w) ∧
    it_recovery_lease_expires_at r = Some (mw_lease_expires_at w).
Proof.
  intros Hok H. destruct (classify_model_kept _ _ _ _ Hok H) as [Hok' _].
  unfold classify_model_recovery in H. apply bail_ok in H as [_ H].
  do 2 (apply res_bind_ok in H as (? & _ & H)).
  apply res_bind_ok in H as ([k r] & Hf & H). rewrite ok_or_ok in Hf.
  apply find_iteration_some in Hf as [_ <-]. apply bail_ok in H as [_ H]. injection H as _ <-.
  match type of Hok' with turns_ok (set_iterations _ (<[_ := ?r']> _)) => exists k, r';
    split; [apply (find_iteration_unique _ k r' Hok'), lookup_insert_eq|done] end.
Qed.

(** * Decisions of the moderator and usage *)

Lemma kept_abandon_turn d s id now : turns_ok d → kept d (abandon_turn d s id now).
Proof.
  intros Hok. unfold abandon_turn.
  destruct (session_turns d !! (s, id)) as [t|] eqn:Ht.
  - replace (alter _ (s, id) (session_turns d)) with
      (<[(s, id) := if turn_running t then end_turn TurnStates.Interrupted None now t else t]>
         (session_turns d)) by
      (apply map_eq; intros k; destruct (decide (k = (s, id))) as [->|];
       [by rewrite lookup_insert_eq, lookup_alter_eq, Ht|by rewrite lookup_insert_ne, lookup_alter_ne]).
    pose proof (to_turns _ Hok _ _ Ht) as Hrow.
    apply (kept_end_turn d (s, id) t _ (λ k c, if (k.1 == (s, id)) && call_running c
      then drop_call now c else c)); [done|done|..].
    + destruct (turn_running t); [|done]. by apply turn_row_ended.
    + destruct (turn_running t) eqn:Hr; [|done]. apply turn_step_ended; [by apply running_iff|done].
    + intros k' c Hc. pose proof (to_calls _ Hok _ _ Hc) as Hcall.
      destruct ((k'.1 == (s, id)) && call_running c) eqn:Hcond.
      * apply andb_true_iff in Hcond as [Hkey Hrun%call_running_iff].
        apply bool_decide_eq_true in Hkey.
        destruct Hcall as (Hk & H0 & Hturn & Hpol & _ & Hfail).
        split_and!; [| |done|by intros _ Hr%call_running_iff].
        -- unfold call_row_ok; simpl. split_and!; try done. intros Hf. by rewrite Hfail in Hrun.
        -- right. split; [by split_and!|]. simpl. split_and!; try done; lia.
      * split; [done|]. split; [done|]. split; [done|]. intros Hk Hr.
        by rewrite Hk, bool_decide_eq_true_2, Hr in Hcond.
  - rewrite alter_id by (intros x Hx; congruence).
    assert (map_imap (λ k c, Some (if (k.1 == (s, id)) && call_running c then drop_call now c else c))
      (tool_calls d) = tool_calls d) as Hcalls.
    { apply map_eq. intros k. rewrite map_lookup_imap.
      destruct (tool_calls d !! k) as [c|] eqn:Hc; [|done]. simpl.
      destruct (bool_decide_reflect (k.1 = (s, id))) as [He|]; [|done].
      destruct (to_calls _ Hok _ _ Hc) as (_ & _ & [t' Ht'] & _). congruence. }
    by apply kept_same; simpl.
Qed.

Lemma kept_abandon_iteration d k r w :
  turns_ok d → iterations d !! k = Some r →
  kept d (set_iterations d (<[k := abandon_iteration r w (it_ledger_revision r + 1)]> (iterations d))).
Proof.
  intros Hok Hr. destruct (to_iterations _ Hok _ _ Hr) as (Hk & H1 & H0 & Ht & Hresp).
  eapply kept_iteration; [done|done| |].
  - unfold iteration_row_ok. simpl. split_and!; [done|done|lia|done|].
    by destruct (it_response_message_id r), (it_response_terminal r).
  - right. split; [by split_and!|]. simpl. split; [lia|]. split; done.
Qed.

Lemma kept_abandon_call d k c attempts owner interrupted_at now :
  turns_ok d → tool_calls d !! k = Some c → call_running c = true →
  kept d (set_tool_calls d (<[k := put_recovery
    (put_call c (tl_position c) (tl_ledger_revision c + 1) now CallStates.Abandoned (Some now)
       (tl_failure_kind c))
    (tl_ledger_revision c + 1) ToolDecisions.OperatorAbandoned ToolReasons.OperatorAbandoned false
    attempts owner None interrupted_at now]> (tool_calls d))).
Proof.
  intros Hok Hk Hrun%call_running_iff.
  destruct (to_calls _ Hok _ _ Hk) as (Hkey & H0 & Ht & Hpol & _ & Hfail).
  eapply kept_call; [done|done| |].
  - unfold call_row_ok; simpl. split_and!; try done; [lia|]. intros Hf. by rewrite Hfail in Hrun.
  - right. split; [by split_and!|]. simpl. split_and!; try done; lia.
Qed.

Lemma resolve_target_kept d w next d' :
  turns_ok d → next = (aw_expected_ledger_revision w + 1)%Z →
  resolve_target d w next = Ok d' → kept d d' ∧ recovery_actions d' = recovery_actions d.
Proof.
  intros Hok -> H. unfold resolve_target in H.
  destruct (aw_target w) as [invocation|invocation], (aw_action w); try done;
    apply res_bind_ok in H as ([k r] & Hf & H); rewrite ok_or_ok in Hf;
    apply bail_ok in H as [Hg H]; injection H as <-;
    repeat match type of Hg with _ || _ = false => apply orb_false_iff in Hg as [Hg ?] end;
    match goal with Hv : negb (_ =? _)%Z = false |- _ => apply negb_eqb in Hv; rewrite <- Hv end;
    try match goal with Hr : negb (call_running _) = false |- _ => apply negb_false_iff in Hr end;
    (split; [|done]).
  - apply find_iteration_some in Hf as [Hr _]. by apply kept_abandon_iteration.
  - apply find_call_some in Hf as [Hc _]. by apply kept_abandon_call.
  - apply find_call_some in Hf as [Hc _]. by apply kept_put_recovery.
Qed.

Lemma same_action_target a w : same_action a w = true → ar_target a = aw_target w.
Proof.
  unfold same_action. rewrite !andb_true_iff, !bool_decide_eq_true. tauto.
Qed.

Lemma same_action_receipt w next : same_action (action_receipt w next) w = true.
Proof. unfold same_action. simpl. by rewrite !bool_decide_eq_true_2, Z.eqb_refl. Qed.

Lemma resolve_target_awaited d w next d' :
  resolve_target d w next = Ok d' →
  match aw_target w with
  | TargetModel i => ∃ k r, find_iteration d i = Some (k, r) ∧
      iteration_awaits_operator r = true ∧ it_ledger_revision r = aw_expected_ledger_revision w
  | TargetTool i => ∃ k c, find_call d i = Some (k, c) ∧ call_running c = true ∧
      awaits_operator c = true ∧ tl_ledger_revision c = aw_expected_ledger_revision w
  end.
Proof.
  intros H. unfold resolve_target in H. destruct (aw_target w) as [i|i], (aw_action w); try done;
    apply res_bind_ok in H as ([k r] & Hf & H); rewrite ok_or_ok in Hf;
    apply bail_ok in H as [Hg H]; clear H; exists k, r;
    rewrite ?orb_false_iff, ?negb_false_iff, ?Z.eqb_eq in Hg; tauto.
Qed.

Lemma abandoned_turn d s id now :
  has_running_call (abandon_turn d s id now) s id = false ∧
  ∀ t, session_turns (abandon_turn d s id now) !! (s, id) = Some t → turn_running t = false.
Proof.
  split.
  - apply has_running_call_false. intros call c Hc. simpl in Hc.
    rewrite map_lookup_imap in Hc. destruct (tool_calls d !! _) as [c0|]; [|done].
    injection Hc as <-. simpl. rewrite bool_decide_eq_true_2 by done.
    destruct (call_running c0) eqn:Hr; done.
  - intros t Ht. simpl in Ht. rewrite lookup_alter_eq in Ht.
    destruct (session_turns d !! (s, id)) as [t0|]; [|done]. injection Ht as <-.
    by destruct (turn_running t0) eqn:Hr.
Qed.

Section with_crates.
Context `{Crates}.

Lemma load_recovery_ok d id a :
  load_execution_recovery_action d id = Ok (Some a) → recovery_actions d !! id = Some a.
Proof.
  unfold load_execution_recovery_action. destruct (recovery_actions d !! id); [|done].
  intros H0. apply bail_ok in H0 as [_ H0]. do 2 (apply res_bind_ok in H0 as (? & _ & H0)).
  congruence.
Qed.

Lemma load_recovery_none d id :
  load_execution_recovery_action d id = Ok None → recovery_actions d !! id = None.
Proof.
  unfold load_execution_recovery_action. destruct (recovery_actions d !! id); [|done].
  intros H0. apply bail_ok in H0 as [_ H0]. do 2 (apply res_bind_ok in H0 as (? & _ & H0)).
  congruence.
Qed.

Lemma resolve_kept d w a d' :
  turns_ok d → resolve_execution_recovery d w = Ok (a, d') → kept d d'.
Proof.
  intros Hok H0. unfold resolve_execution_recovery in H0.
  apply bail_ok in H0 as [_ H0]. apply res_bind_ok in H0 as (? & _ & H0).
  apply bail_ok in H0 as [_ H0]. apply res_bind_ok in H0 as (existing & Hx & H0).
  destruct existing as [a'|].
  { apply bail_ok in H0 as [_ [= _ <-]]. by split. }
  apply res_bind_ok in H0 as (next & Hn%next_u64_succ & H0).
  apply res_bind_ok in H0 as (? & _ & H0). apply res_bind_ok in H0 as (d1 & Ht & H0).
  apply bail_ok in H0 as [Hnew H0]. apply bail_ok in H0 as [_ H0]. injection H0 as _ <-.
  apply load_recovery_none in Hx as Hfresh.
  apply resolve_target_kept in Ht as [Ht Hacts]; [|done|done].
  eapply ledger_kept_trans; [exact Ht|]. intros Hok1.
  destruct (aw_action w == Actions.AbandonTurn); simpl in *.
  - eapply ledger_kept_trans; [by apply kept_abandon_turn|intros Hok2].
    apply (kept_action (abandon_turn d1 (aw_session_id w) (aw_turn_id w) (aw_observed_at w))); [done|simpl; by rewrite Hacts|done|done].
  - apply kept_action; [done|by rewrite Hacts|done|done].
Qed.
(** What a decision of the moderator rests on, and what it records. *)
Lemma resolve_ok d w a d' :
  turns_ok d → resolve_execution_recovery d w = Ok (a, d') →
  Membership.moderator_instance_id <$> governance (base (sd d)) !! aw_session_id w =
    Some (aw_resolved_by w) ∧
  same_action a w = true ∧ recovery_actions d' !! aw_action_id w = Some a ∧
  (recovery_actions d !! aw_action_id w = None →
     match aw_target w with
     | TargetModel i => ∃ k r, find_iteration d i = Some (k, r) ∧
         iteration_awaits_operator r = true ∧ it_ledger_revision r = aw_expected_ledger_revision w
     | TargetTool i => ∃ k c, find_call d i = Some (k, c) ∧ call_running c = true ∧
         awaits_operator c = true ∧ tl_ledger_revision c = aw_expected_ledger_revision w
     end ∧
     (aw_action w = Actions.AbandonTurn →
        has_running_call d' (aw_session_id w) (aw_turn_id w) = false ∧
        ∀ t, session_turns d' !! (aw_session_id w, aw_turn_id w) = Some t → turn_running t = false)).
Proof.
  intros Hok H0. unfold resolve_execution_recovery in H0.
  apply bail_ok in H0 as [_ H0]. apply res_bind_ok in H0 as (? & _ & H0).
  apply bail_ok in H0 as [Hmod%neq_eq H0]. apply res_bind_ok in H0 as (existing & Hx & H0).
  split; [done|]. destruct existing as [a'|].
  { apply bail_ok in H0 as [Hsame%negb_false_iff [= <- <-]].
    apply load_recovery_ok in Hx. split_and!; [done|done|]. intros Hn. congruence. }
  apply load_recovery_none in Hx.
  apply res_bind_ok in H0 as (next & Hn%next_u64_succ & H0).
  apply res_bind_ok in H0 as (? & _ & H0). apply res_bind_ok in H0 as (d1 & Ht & H0).
  apply bail_ok in H0 as [_ H0]. apply bail_ok in H0 as [_ H0]. injection H0 as <- <-.
  split; [by apply same_action_receipt|]. split; [by apply lookup_insert_eq|]. intros _.
  split; [by eapply resolve_target_awaited|]. intros ->. simpl.
  apply abandoned_turn.
Qed.

(** The request of a recorded decision is answered with it, while its moderator governs. *)
Lemma resolve_again d0 d w a d' :
  resolve_execution_recovery d0 w = Ok (a, d') → turns_ok d0 →
  uuid_parses (target_invocation (aw_target w)) = true → (0 ≤ aw_expected_ledger_revision w)%Z →
  recovery_actions d !! aw_action_id w = Some a →
  Membership.moderator_instance_id <$> governance (base (sd d)) !! aw_session_id w =
    Some (aw_resolved_by w) →
  resolve_execution_recovery d w = Ok (a, d).
Proof.
  intros H0 Hok Huuid Hrev Ha Hmod.
  assert (same_action a w = true ∧ (0 ≤ ar_outcome_ledger_revision a)%Z ∧
    ar_expected_ledger_revision a = aw_expected_ledger_revision w) as (Hsame & Hout & Hexp).
  { pose proof (resolve_ok d0 w a d' Hok H0) as (_ & Hsame & _). split; [done|].
    assert (ar_expected_ledger_revision a = aw_expected_ledger_revision w) as Hexp.
    { unfold same_action in Hsame. rewrite !andb_true_iff, Z.eqb_eq in Hsame. tauto. }
    split; [|done]. unfold resolve_execution_recovery in H0.
    apply bail_ok in H0 as [_ H0]. apply res_bind_ok in H0 as (? & _ & H0).
    apply bail_ok in H0 as [_ H0]. apply res_bind_ok in H0 as (existing & Hx & H0).
    destruct existing as [a'|].
    - apply bail_ok in H0 as [_ H0]. injection H0 as -> _.
      unfold load_execution_recovery_action in Hx.
      destruct (recovery_actions d0 !! _); [|done]. apply bail_ok in Hx as [_ Hx].
      apply res_bind_ok in Hx as (? & _ & Hx). apply res_bind_ok in Hx as (? & Hv & Hx).
      injection Hx as ->. by apply checked_u64_ok in Hv as [_ Hv].
    - apply res_bind_ok in H0 as (next & Hn%next_u64_succ & H0).
      apply res_bind_ok in H0 as (? & _ & H0). apply res_bind_ok in H0 as (? & _ & H0).
      do 2 (apply bail_ok in H0 as [_ H0]). injection H0 as <- _. simpl. lia. }
  unfold resolve_execution_recovery in H0 |- *.
  apply bail_ok in H0 as [Hin H0]. apply res_bind_ok in H0 as (x & Hx & _). rewrite Hin, Hx. simpl.
  rewrite Hmod, bool_decide_eq_true_2 by done. simpl.
  unfold load_execution_recovery_action. rewrite Ha, (same_action_target _ _ Hsame), Huuid. simpl.
  unfold checked_u64. rewrite Hexp, !(proj2 (Z.leb_le 0 _)) by done. simpl. by rewrite Hsame.
Qed.

Lemma resolved_once d w a w2 a2 d3 :
  turns_ok d → same_action a w = true → recovery_actions d !! aw_action_id w = Some a →
  aw_target w2 = aw_target w → resolve_execution_recovery d w2 = Ok (a2, d3) →
  aw_action_id w2 = aw_action_id w ∧ a2 = a ∧ d3 = d.
Proof.
  intros Hok Hsame Ha Htgt H0. pose proof (same_action_target _ _ Hsame) as Hta.
  destruct (to_actions _ Hok _ _ Ha) as [_ Huniq].
  unfold resolve_execution_recovery in H0.
  apply bail_ok in H0 as [_ H0]. apply res_bind_ok in H0 as (? & _ & H0).
  apply bail_ok in H0 as [_ H0]. apply res_bind_ok in H0 as (existing & Hx & H0).
  destruct existing as [b|].
  { apply bail_ok in H0 as [Hs2%negb_false_iff [= <- <-]]. apply load_recovery_ok in Hx.
    pose proof (same_action_target _ _ Hs2) as Htb.
    assert (aw_action_id w = aw_action_id w2) as He by (eapply Huniq; [done|congruence]).
    rewrite He in Ha. split; [done|]. split; [congruence|done]. }
  apply res_bind_ok in H0 as (next & Hn%next_u64_succ & H0).
  apply res_bind_ok in H0 as (? & _ & H0). apply res_bind_ok in H0 as (d1 & Ht & H0).
  apply bail_ok in H0 as [Hfree H0]. exfalso.
  apply resolve_target_kept in Ht as [_ Hacts]; [|done|done].
  unfold target_resolved in Hfree. rewrite existsb_false_elem in Hfree.
  specialize (Hfree a). rewrite bool_decide_eq_false in Hfree. apply Hfree; [|congruence].
  apply list_elem_of_fmap. exists (aw_action_id w, a). split; [done|].
  apply elem_of_map_to_list.
  destruct (aw_action w2 == Actions.AbandonTurn); simpl; by rewrite Hacts.
Qed.
End with_crates.

Lemma record_usage_kept d s input output cost out d' :
  turns_ok d → record_usage d s input output cost = Ok (out, d') → kept d d'.
Proof.
  intros Hok H. unfold record_usage in H. apply bail_ok in H as [_ H].
  apply bail_ok in H as [_ H]. injection H as _ <-. by apply kept_usages.
Qed.
