(* ===== verification/LedgerRun.v ===== *)
(** Runs of the session store: any operations of turns, iterations, tool calls,
    recovery and history, between operations of the stores below, keep the invariants
    of all tables and move rows only by their steps. *)

From S2P Require Import Prelude Graph Instance Store Ledger ToolInvocation.
From S2P Require Import WorkspaceStore InstanceStore StoreSystem.
From S2P Require Import SessionTables TurnStore ToolStore HistoryStore TurnFacts HistoryFacts TurnRun.
From stdpp Require Import base tactics gmap strings list sorting relations.
From Stdlib Require Import ZArith Lia.

(** * The history *)

Lemma append_kept d ctx s role content model tool parent now m d' :
  turns_ok d → append_message d ctx s role content model tool parent now = Ok (m, d') → kept d d'.
Proof.
  intros Hok H. unfold append_message in H. apply bail_ok in H as [_ H].
  apply res_bind_ok in H as (seq & _ & H). apply res_bind_ok in H as ([id d1] & Hi & H).
  injection H as _ <-.
  eapply ledger_kept_trans; [by eapply insert_message_ok|]. intros Hok1. by apply kept_touch.
Qed.

Lemma replace_kept d ctx s ms now d' :
  turns_ok d → replace_active_history d ctx s ms now = Ok (tt, d') → kept d d'.
Proof. apply replaced_rows. Qed.

(** The row of a session is not part of the ledgers. *)
Lemma kept_sessions d rows : turns_ok d → kept d (set_sd d (set_sessions (sd d) rows)).
Proof. intros Hok. by apply kept_same. Qed.

(** * Operations of the stores below *)

(** The messages that such an operation adds, in the order of their [seq]; each gets
    the next row id. *)
Definition new_keys (d : tdb) (s : sdb) : list (SessionId * Z) :=
  stable_sort (λ a b, (a.2 <=? b.2)%Z)
    (filter (λ k, row_keys d !! k = None) (map_to_list (lines s)).*1).

Definition number_rows (d : tdb) (s : sdb) : tdb :=
  let keys := new_keys d s in
  set_row_keys (set_sd d s)
    (row_keys d ∪ list_to_map (imap (λ n k,
       (k, {| row_id := last_row_id d + 1 + Z.of_nat n; parent_msg_id := None |})) keys))
    (last_row_id d + Z.of_nat (length keys)).

Lemma elem_of_new_keys d s k :
  k ∈ new_keys d s ↔ row_keys d !! k = None ∧ is_Some (lines s !! k).
Proof.
  unfold new_keys. rewrite stable_sort_perm, list_elem_of_filter, list_elem_of_fmap.
  split.
  - intros (Hk & [k' l] & -> & Hl%elem_of_map_to_list). split; [done|by exists l].
  - intros (Hk & l & Hl). split; [done|]. exists (k, l). split; [done|].
    by apply elem_of_map_to_list.
Qed.

Lemma NoDup_new_keys d s : NoDup (new_keys d s).
Proof.
  unfold new_keys. rewrite stable_sort_perm.
  apply NoDup_filter, NoDup_fst_map_to_list.
Qed.

Lemma imap_fst {A B} (f : nat → A → B) (l : list A) : (imap (λ n k, (k, f n k)) l).*1 = l.
Proof. revert f. induction l as [|a l IH]; intros f; [done|]. simpl. f_equal. apply IH. Qed.

Lemma number_lookup d s k lk :
  row_keys (number_rows d s) !! k = Some lk ↔
  row_keys d !! k = Some lk ∨
  ∃ n, new_keys d s !! n = Some k ∧ lk = {| row_id := last_row_id d + 1 + Z.of_nat n; parent_msg_id := None |}.
Proof.
  simpl. rewrite lookup_union_Some_raw.
  rewrite <- elem_of_list_to_map by (rewrite imap_fst; apply NoDup_new_keys).
  rewrite elem_of_lookup_imap. split; [naive_solver|].
  intros [Hk|(n & Hn & ->)]; [by left|right]. split.
  - by apply list_elem_of_lookup_2, elem_of_new_keys in Hn as [? _].
  - by exists n, k.
Qed.

(** Messages are added below, and none is deleted. *)
Lemma kept_below d s :
  turns_ok d → lines (sd d) ⊆ lines s →
  turns_ok (number_rows d s) ∧ turns_step d (number_rows d s).
Proof.
  intros Hok Hsub. pose proof (number_lookup d s) as Hkeys.
  assert (turns_step d (number_rows d s)) as Hs.
  { split; try done.
    - intros k l Hl. exists l. split; [by eapply lookup_weaken|done].
    - apply map_subseteq_spec. intros k lk Hlk. apply Hkeys. by left. }
  split; [|done]. destruct Hok as [? Hits ? ? ? ? ? ? Hrows Hids ?]. split; try done.
  - intros k r Hkr. eapply iteration_row_ok_mono; [done|]. by apply Hits.
  - intros k. split.
    + intros [lk [Hlk|(n & Hn & _)]%Hkeys].
      * destruct (proj1 (Hrows k) (mk_is_Some _ _ Hlk)) as [l Hl]. exists l.
        by eapply lookup_weaken.
      * by apply list_elem_of_lookup_2, elem_of_new_keys in Hn as [_ ?].
    + intros Hl. destruct (row_keys d !! k) as [lk|] eqn:Hlk.
      * exists lk. apply Hkeys. by left.
      * assert (k ∈ new_keys d s) as [n Hn]%list_elem_of_lookup by by apply elem_of_new_keys.
        eexists. apply Hkeys. right. by exists n.
  - assert (∀ k lk, row_keys d !! k = Some lk → (row_id lk ≤ last_row_id d)%Z) as Hmax
      by (intros; by eapply Hids).
    intros k lk [Hlk|(n & Hn & ->)]%Hkeys; simpl.
    + pose proof (Hmax _ _ Hlk). split; [lia|]. intros k' lk' [Hlk'|(n & Hn & ->)]%Hkeys He.
      * by eapply Hids.
      * simpl in He. lia.
    + pose proof (lookup_lt_Some _ _ _ Hn). split; [lia|].
      intros k' lk' [Hlk'|(n' & Hn' & ->)]%Hkeys He.
      * apply Hmax in Hlk'. lia.
      * simpl in He. assert (n = n') as <- by lia. congruence.
Qed.

(** * Runs *)

Inductive session_op :=
  | OpBeginTurn (ctx : SessionContext) (start : TurnStart) (now : Z)
  | OpCompleteTurn (ctx : SessionContext) (c : TurnCompletion) (now : Z)
  | OpFinishTurn (s : SessionId) (turn : string) (state : TurnState)
      (kind : option TurnFailureKind) (now : Z)
  | OpBeginIteration (start : ModelIterationStart) (now : Z)
  | OpPersistResponse (ctx : SessionContext) (p : ModelResponsePersistence) (now : Z)
  | OpAdvanceIteration (a : ModelIterationAdvance) (now : Z)
  | OpCompletePersisted (c : PersistedTurnCompletion) (now : Z)
  | OpClassifyModel (w : ModelRecoveryWrite)
  | OpBeginCall (start : ToolCallStart) (now : Z)
  | OpAdvanceCall (a : ToolCallAdvance) (now : Z)
  | OpPersistResult (ctx : SessionContext) (r : ToolResultPersistence) (now : Z)
  | OpFinishCall (c : ToolCallCompletion) (now : Z)
  | OpClassifyTool (w : ToolRecoveryWrite)
  | OpResolve (w : ExecutionRecoveryActionWrite)
  | OpRecordUsage (s : SessionId) (input output : Z) (cost : option Z)
  | OpAppend (ctx : SessionContext) (s : SessionId) (role : MessageRole) (content : string)
      (model tool : option string) (parent : option Z) (now : Z)
  | OpMarkSummarized (ctx : SessionContext) (s : SessionId) (start stop : Z)
  | OpReplaceHistory (ctx : SessionContext) (s : SessionId) (ms : list ReplacementMessage) (now : Z)
  | OpArchive (s : SessionId)
  | OpRestore (s : SessionId) (now : Z)
  | OpBelow (op : durable_op).

Section runs.
Context `{Hcrates : Crates} `{Hhash : !HashOrder}.

(** A transaction of the session store. *)
Definition session_exec (d : tdb) (op : session_op) : tdb :=
  match op with
  | OpBeginTurn ctx start now => (run d (begin_turn d ctx start now)).2
  | OpCompleteTurn ctx c now => (run d (complete_turn d ctx c now)).2
  | OpFinishTurn s turn state kind now => (run d (finish_turn d s turn state kind now)).2
  | OpBeginIteration start now => (run d (begin_model_iteration d start now)).2
  | OpPersistResponse ctx p now => (run d (persist_model_response d ctx p now)).2
  | OpAdvanceIteration a now => (run d (advance_model_iteration d a now)).2
  | OpCompletePersisted c now => (run d (complete_persisted_turn d c now)).2
  | OpClassifyModel w => (run d (classify_model_recovery d w)).2
  | OpBeginCall start now => (run d (begin_tool_call d start now)).2
  | OpAdvanceCall a now => (run d (advance_tool_call d a now)).2
  | OpPersistResult ctx r now => (run d (persist_tool_result d ctx r now)).2
  | OpFinishCall c now => (run d (finish_tool_call d c now)).2
  | OpClassifyTool w => (run d (classify_tool_recovery d w)).2
  | OpResolve w => (run d (resolve_execution_recovery d w)).2
  | OpRecordUsage s input output cost => (run d (record_usage d s input output cost)).2
  | OpAppend ctx s role content model tool parent now =>
      (run d (append_message d ctx s role content model tool parent now)).2
  | OpMarkSummarized ctx s start stop => (run d (mark_summarized d ctx s start stop)).2
  | OpReplaceHistory ctx s ms now => (run d (replace_active_history d ctx s ms now)).2
  | OpArchive s => (run d (archive d s)).2
  | OpRestore s now => (run d (restore d s now)).2
  | OpBelow op => number_rows d (durable_exec (sd d) op)
  end.

(** An operation of the stores below is one of theirs, and deletes no message. *)
Definition session_legal (d : tdb) (op : session_op) : Prop :=
  match op with
  | OpBelow op => durable_legal (sd d) op ∧ lines (sd d) ⊆ lines (durable_exec (sd d) op)
  | _ => True
  end.

Definition session_run (d : tdb) (ops : list session_op) : tdb := foldl session_exec d ops.

Fixpoint session_legal_run (d : tdb) (ops : list session_op) : Prop :=
  match ops with
  | [] => True
  | op :: ops => session_legal d op ∧ session_legal_run (session_exec d op) ops
  end.

Lemma kept_run {A} d (c : ttx A) :
  turns_ok d → (∀ a d', c = Ok (a, d') → kept d d') → kept d (run d c).2.
Proof using.
  intros Hok H. destruct (run_cases d c) as [->|[a Hc]]; [by split|]. by apply (H a).
Qed.

Definition below_op (op : session_op) : bool := match op with OpBelow _ => true | _ => false end.

Lemma session_exec_kept d op : turns_ok d → below_op op = false → kept d (session_exec d op).
Proof using.
  intros Hok Hop. destruct op; try done; apply kept_run; try done; intros x d' H;
    try match type of x with unit => destruct x end.
  - by eapply begin_turn_kept.
  - by eapply complete_turn_kept.
  - by eapply finish_turn_kept.
  - by eapply begin_iteration_kept.
  - by eapply persist_response_kept.
  - by eapply advance_iteration_kept.
  - by eapply complete_persisted_kept.
  - by eapply classify_model_kept.
  - by eapply begin_call_kept.
  - by eapply advance_call_kept.
  - by eapply persist_result_kept.
  - by eapply finish_call_kept.
  - by eapply classify_call_kept.
  - by eapply resolve_kept.
  - by eapply record_usage_kept.
  - by eapply append_kept.
  - injection H as <-. by apply kept_summarize.
  - by eapply replace_kept.
  - unfold archive in H. apply res_bind_ok in H as (row & _ & H). injection H as <-.
    by apply kept_sessions.
  - unfold restore in H. apply res_bind_ok in H as (row & _ & H). apply bail_ok in H as [_ H].
    injection H as <-. by apply kept_sessions.
Qed.

(** For the stores below, an operation of the ledgers writes sessions and messages. *)
Lemma below_durable s s' : below_kept s s' → durable_ok s → durable_ok s'.
Proof using Hhash.
  intros (Hw & Ho & Ha & Hc & Hf) Hok.
  replace s' with (durable_exec s (OpSessionRows (sessions s') (lines s'))).
  - by apply durable_exec_ok.
  - destruct s, s'; simpl in *. by subst.
Qed.

Lemma session_exec_ok d op :
  turns_ok d → durable_ok (sd d) → session_legal d op →
  turns_ok (session_exec d op) ∧ durable_ok (sd (session_exec d op)) ∧
  turns_step d (session_exec d op).
Proof using.
  intros Hok Hd Hl. destruct (below_op op) eqn:Hop.
  - destruct op; try done. destruct Hl as [Hl Hsub]. simpl.
    destruct (kept_below d _ Hok Hsub) as [? ?]. split_and!; [done| |done].
    by apply durable_exec_ok.
  - destruct (session_exec_kept d op Hok Hop) as (? & ? & Hb). split_and!; [done| |done].
    by eapply below_durable.
Qed.

Lemma session_run_ok d ops :
  turns_ok d → durable_ok (sd d) → session_legal_run d ops →
  turns_ok (session_run d ops) ∧ durable_ok (sd (session_run d ops)) ∧
  turns_step d (session_run d ops).
Proof using.
  revert d. induction ops as [|op ops IH]; intros d Hok Hd; [done|]. intros [Hop Hops].
  destruct (session_exec_ok d op Hok Hd Hop) as (Hok1 & Hd1 & Hs1).
  destruct (IH _ Hok1 Hd1 Hops) as (? & ? & ?). split_and!; try done. by etrans.
Qed.
End runs.
