(* ===== verification/InferenceRun.v ===== *)
(** The ledgers of inferences as one: what a row of either shows of itself, the
    invariant of a ledger, and how its rows move.

    A snapshot of either ledger is seen through the interface [Invocation]; the
    lemmas about a change of one row are proved against it once. *)

From S2P Require Import Prelude ToolInvocation Instance Store WorkspaceStore InstanceStore.
From S2P Require Import StoreSystem Ledger SessionTables TurnStore Inference InferenceStore.
From S2P Require Import TurnFacts TurnRun LedgerRun.
From stdpp Require Import base tactics gmap strings list sorting relations.
From Stdlib Require Import ZArith Lia.

(** * The view of a row *)

Record cell := {
  c_turn : TurnKey;
  c_instance : AgentInstanceId;
  c_invocation : string;
  c_route : list string;
  c_numbers : list Z;
  c_stage : nat;
  c_revision : Z;
  c_facts : facts;
}.

Class Invocation (A : Type) := cell_of : A → cell.

#[global] Instance cognition_view : Invocation CognitionInvocationSnapshot := λ r, {|
  c_turn := (cg_session_id r, cg_turn_id r); c_instance := cg_agent_instance_id r;
  c_invocation := cg_invocation_id r;
  c_route := [Roles.encode (cg_role r); cg_provider_id r; cg_model_id r;
              CognitionPolicies.encode (cg_recovery_policy r); cg_capability_revision r;
              cg_input_digest r];
  c_numbers := [cg_input_bytes r; cg_started_at r];
  c_stage := CognitionPositions.stage (cg_position r); c_revision := cg_ledger_revision r;
  c_facts := cognition_facts r |}.

#[global] Instance perception_view : Invocation PerceptionInvocationSnapshot := λ r, {|
  c_turn := (pg_session_id r, pg_turn_id r); c_instance := pg_agent_instance_id r;
  c_invocation := pg_invocation_id r;
  c_route := [Modalities.encode (pg_modality r); Roles.encode (pg_role r); pg_provider_id r;
              pg_model_id r; PerceptionPolicies.encode (pg_recovery_policy r);
              pg_capability_revision r; pg_input_digest r];
  c_numbers := [pg_input_bytes r; pg_started_at r];
  c_stage := PerceptionPositions.stage (pg_position r); c_revision := pg_ledger_revision r;
  c_facts := perception_facts r |}.

(** A text that is written once. *)
Definition grows (x y : option string) : Prop := x = None ∨ y = x.

Definition facts_grow (f f' : facts) : Prop :=
  grows (f_input f) (f_input f') ∧ grows (f_receipt f) (f_receipt f') ∧
  grows (f_output f) (f_output f') ∧ grows (f_digest f) (f_digest f').

(** An invocation that has not ended moves on with its revision; it fails only
    before its receipt. *)
Definition moves (c c' : cell) : Prop :=
  c_turn c' = c_turn c ∧ c_instance c' = c_instance c ∧ c_invocation c' = c_invocation c ∧
  c_route c' = c_route c ∧ c_numbers c' = c_numbers c ∧ c_stage c < 5 ∧
  c_stage c ≤ c_stage c' ∧ (c_stage c' = 6 → c_stage c ≤ 2) ∧
  (c_revision c < c_revision c')%Z ∧ facts_grow (c_facts c) (c_facts c').

Lemma grows_trans x y z : grows x y → grows y z → grows x z.
Proof. intros [-> | ->]; [by left|done]. Qed.

Lemma moves_trans a b c : moves a b → moves b c → moves a c.
Proof.
  unfold moves, facts_grow.
  intros (? & ? & ? & ? & ? & ? & ? & Ha & ? & ? & ? & ? & ?)
    (? & ? & ? & ? & ? & ? & ? & Hb & ? & ? & ? & ? & ?).
  split_and!; try congruence; try lia; by eapply grows_trans.
Qed.

Lemma grows_coalesce x y : (is_some y = false ∨ x = None) → grows y (coalesce x y).
Proof. destruct x, y; simpl; intros [?|?]; try done; (by left) || (by right). Qed.

Section ledger.
Context {A : Type} `{!Invocation A}.

Notation table := (gmap (TurnKey * string) (recoverable A)).

(** A row that ended keeps every column. *)
Definition row_step (r r' : recoverable A) : Prop :=
  r' = r ∨ moves (cell_of (snapshot r)) (cell_of (snapshot r')).

#[global] Instance row_step_preorder : PreOrder row_step.
Proof.
  split; [by left|]. intros a b c [->|Hab] [->|Hbc]; [by left|by right|by right|].
  right. by eapply moves_trans.
Qed.

(** A row is keyed by its identity, belongs to a turn of its instance, and its columns
    are those of its position. *)
Definition row_ok (d : tdb) (k : TurnKey * string) (r : recoverable A) : Prop :=
  let c := cell_of (snapshot r) in
  k = (c_turn c, c_invocation c) ∧ (0 ≤ c_revision c)%Z ∧
  facts_match (c_stage c) (c_facts c) = true ∧
  ∃ t, session_turns d !! c_turn c = Some t ∧ tn_agent_instance_id t = c_instance c.

Record table_ok (d : tdb) (m : table) : Prop := {
  tk_rows : map_Forall (row_ok d) m;
  tk_unique : ∀ k k' r r', m !! k = Some r → m !! k' = Some r' →
    c_invocation (cell_of (snapshot r)) = c_invocation (cell_of (snapshot r')) → k = k';
}.

Lemma row_ok_mono d d' k r : turns_step d d' → row_ok d k r → row_ok d' k r.
Proof.
  intros Hs (Hk & Hv & Hf & t & Ht & Hi). split_and!; try done.
  destruct (tp_turns _ _ Hs _ _ Ht) as (t' & Ht' & [->|[(_ & _ & He & _) _]]).
  - by exists t.
  - exists t'. by rewrite He.
Qed.

Lemma table_ok_mono d d' m : turns_step d d' → table_ok d m → table_ok d' m.
Proof.
  intros Hs [Hr Hu]. split; [|done]. intros k r Hk. eapply row_ok_mono; [done|by apply Hr].
Qed.

(** ** Rows by invocation *)

Definition find_row (m : table) (invocation : string) : option (TurnKey * string * recoverable A) :=
  list_find (λ kr, c_invocation (cell_of (snapshot kr.2)) = invocation) (map_to_list m)
    ≫= λ x, Some x.2.

Lemma find_row_some m id k r :
  find_row m id = Some (k, r) → m !! k = Some r ∧ c_invocation (cell_of (snapshot r)) = id.
Proof.
  unfold find_row. destruct (list_find _ _) as [[n [k' r']]|] eqn:Hf; [|done].
  intros [= -> ->]. apply list_find_some_elem in Hf as [Hin Hid].
  by apply elem_of_map_to_list in Hin.
Qed.

Lemma find_row_none m id k r :
  find_row m id = None → m !! k = Some r → c_invocation (cell_of (snapshot r)) ≠ id.
Proof.
  unfold find_row. destruct (list_find _ _) eqn:Hf; [done|]. intros _ Hr He.
  rewrite list_find_None, Forall_forall in Hf.
  destruct (Hf (k, r)); [by apply elem_of_map_to_list|done].
Qed.

Lemma find_row_unique d m k r :
  table_ok d m → m !! k = Some r → find_row m (c_invocation (cell_of (snapshot r))) = Some (k, r).
Proof.
  intros Hok Hk. destruct (find_row m _) as [[k' r']|] eqn:Hf.
  - apply find_row_some in Hf as [Hk' Hid].
    assert (k' = k) as -> by by eapply (tk_unique _ _ Hok). congruence.
  - by destruct (find_row_none _ _ _ _ Hf Hk).
Qed.

(** ** Changes of one row *)

Lemma table_new d m k r :
  table_ok d m → find_row m (c_invocation (cell_of (snapshot r))) = None → row_ok d k r →
  table_ok d (<[k := r]> m) ∧ rows_step row_step m (<[k := r]> m) ∧ m !! k = None.
Proof.
  intros [Hrows Hu] Hf Hr. assert (m !! k = None) as Hk.
  { destruct (m !! k) as [x|] eqn:Hx; [|done]. destruct (find_row_none _ _ _ _ Hf Hx).
    destruct (Hrows _ _ Hx) as [Hk _], Hr as [Hk' _]. congruence. }
  split; [split|split]; [by apply map_Forall_insert_2| |eapply (rows_step_insert row_step); intros w Hw; by rewrite Hk in Hw|done].
  intros k1 k2 r1 r2. rewrite !lookup_insert_Some.
  intros [[<- <-]|[? H1]] [[<- <-]|[? H2]] He; try done.
  - by destruct (find_row_none _ _ _ _ Hf H2).
  - by destruct (find_row_none _ _ _ _ Hf H1).
  - by eapply Hu.
Qed.

Lemma table_put d m k r r' :
  table_ok d m → m !! k = Some r → moves (cell_of (snapshot r)) (cell_of (snapshot r')) →
  facts_match (c_stage (cell_of (snapshot r'))) (c_facts (cell_of (snapshot r'))) = true →
  table_ok d (<[k := r']> m) ∧ rows_step row_step m (<[k := r']> m).
Proof.
  intros [Hrows Hu] Hk Hm Hf.
  split; [split|eapply (rows_step_insert row_step); intros w Hw; right; congruence].
  - apply map_Forall_insert_2; [|done]. destruct (Hrows _ _ Hk) as (-> & Hv & _ & t & Ht & Hi).
    destruct Hm as (Ht' & Hi' & Hn & _ & _ & _ & _ & _ & Hlt & _).
    split_and!; [by rewrite Ht', Hn|lia|done|]. exists t. by rewrite Ht', Hi'.
  - assert (c_invocation (cell_of (snapshot r')) = c_invocation (cell_of (snapshot r))) as Hn
      by by destruct Hm as (_ & _ & ? & _).
    intros k1 k2 r1 r2. rewrite !lookup_insert_Some.
    intros [[<- <-]|[? H1]] [[<- <-]|[? H2]] He; try done.
    + symmetry. eapply Hu; [exact H2|exact Hk|congruence].
    + eapply Hu; [exact H1|exact Hk|congruence].
    + by eapply Hu.
Qed.

(** The rows of an instance in a turn. *)
Definition calls_of (m : table) (key : TurnKey) (i : AgentInstanceId) : Z :=
  Z.of_nat (length (filter (λ kr, kr.1.1 = key ∧ c_instance (cell_of (snapshot kr.2)) = i)
    (map_to_list m))).

Lemma calls_insert m k r key i :
  m !! k = None → calls_of (<[k := r]> m) key i =
  (calls_of m key i + if decide (k.1 = key ∧ c_instance (cell_of (snapshot r)) = i) then 1 else 0)%Z.
Proof.
  intros Hk. unfold calls_of. rewrite (map_to_list_insert m k r Hk), filter_cons. simpl.
  repeat case_decide; simpl; lia || naive_solver.
Qed.

Lemma calls_put m k r r' key i :
  m !! k = Some r → c_instance (cell_of (snapshot r')) = c_instance (cell_of (snapshot r)) →
  calls_of (<[k := r']> m) key i = calls_of m key i.
Proof.
  intros Hk Hi. rewrite <- (insert_delete_id m k r Hk) at 2. rewrite <- insert_delete_eq.
  rewrite !calls_insert by apply lookup_delete_eq. by rewrite Hi.
Qed.
End ledger.

(** * Changes of a row *)

Section changes.
Context {A : Type} `{!Invocation A}.

Definition row_changed (m : gmap (TurnKey * string) (recoverable A)) (id : string) (e : Z)
    (m' : gmap (TurnKey * string) (recoverable A)) : Prop :=
  ∃ k r r', find_row m id = Some (k, r) ∧ m' = <[k := r']> m ∧
    c_revision (cell_of (snapshot r)) = e ∧ c_revision (cell_of (snapshot r')) = (e + 1)%Z ∧
    moves (cell_of (snapshot r)) (cell_of (snapshot r')) ∧
    facts_match (c_stage (cell_of (snapshot r'))) (c_facts (cell_of (snapshot r'))) = true.

Lemma row_changed_put m id k r r' :
  find_row m id = Some (k, r) →
  c_revision (cell_of (snapshot r')) = (c_revision (cell_of (snapshot r)) + 1)%Z →
  moves (cell_of (snapshot r)) (cell_of (snapshot r')) →
  facts_match (c_stage (cell_of (snapshot r'))) (c_facts (cell_of (snapshot r'))) = true →
  row_changed m id (c_revision (cell_of (snapshot r))) (<[k := r']> m).
Proof. intros. by exists k, r, r'. Qed.

Lemma row_changed_ok d m id e m' :
  table_ok d m → row_changed m id e m' → table_ok d m' ∧ rows_step row_step m m' ∧
  ∀ key i, calls_of m' key i = calls_of m key i.
Proof.
  intros Hok (k & r & r' & [Hk _]%find_row_some & -> & _ & _ & Hm & Hf).
  split_and!; [by eapply table_put..|]. intros. apply (calls_put _ _ r); [done|]. by apply Hm.
Qed.
End changes.

(** An update writes a column at most once: only where its row has none yet. *)
Definition writes_once (stage : nat) (input receipt output digest : option string) : Prop :=
  ∀ f, facts_match stage f = true → facts_grow f {|
    f_input := coalesce input (f_input f); f_receipt := coalesce receipt (f_receipt f);
    f_output := coalesce output (f_output f); f_digest := coalesce digest (f_digest f);
    f_failed := false |}.

Lemma writes_nothing stage : writes_once stage None None None None.
Proof. intros f _. by split_and!; right. Qed.

Ltac solve_writes :=
  let Hf := fresh in
  intros [[?|] [?|] [?|] [?|] [|]] Hf; try discriminate Hf;
  unfold facts_grow, grows; simpl; split_and!; (by left) || (by right).

Lemma writes_input x : writes_once 0 (Some x) None None None.
Proof. solve_writes. Qed.

Lemma writes_receipt x : writes_once 2 None (Some x) None None.
Proof. solve_writes. Qed.

Lemma writes_output x y : writes_once 3 None None (Some x) (Some y).
Proof. solve_writes. Qed.

Ltac put_row Hf :=
  match goal with
  | |- row_changed _ _ _ (<[?k := ?r']> _) => apply (row_changed_put _ _ k _ r' Hf)
  end.

Section ledgers.
Context `{Hcrates : Crates}.

(** * Cognition *)

(** The row of an invocation has moved from a revision to the next. *)
Definition cognition_changed (d : idb) (id : string) (e : Z) (d' : idb) : Prop :=
  ∃ m, d' = set_cognitions d m ∧ row_changed (cognitions d) id e m.

Lemma cognition_put_changed d k row d' q prompt receipt output digest failure now :
  table_ok (tables d) (cognitions d) →
  find_row (cognitions d) (cg_invocation_id (snapshot row)) = Some (k, row) →
  CognitionPositions.stage (cg_position (snapshot row)) < 5 →
  CognitionPositions.stage (cg_position (snapshot row)) ≤ CognitionPositions.stage q →
  (CognitionPositions.stage q = 6 → CognitionPositions.stage (cg_position (snapshot row)) ≤ 2) →
  writes_once (CognitionPositions.stage (cg_position (snapshot row))) prompt receipt output digest →
  put_cognition d k row (moved_cognition (snapshot row) q prompt receipt output digest failure now) = Ok d' →
  cognition_changed d (cg_invocation_id (snapshot row)) (cg_ledger_revision (snapshot row)) d'.
Proof.
  intros Hok Hf Hs Hle H6 Hw H. apply bail_ok in H as [Hm%negb_false_iff [= <-]].
  apply find_row_some in Hf as Hk. destruct Hk as [Hk _].
  destruct (tk_rows _ _ Hok _ _ Hk) as (_ & _ & Hfm & _).
  eexists. split; [done|]. put_row Hf; try done.
  split_and!; try done; simpl; [lia|]. by apply (Hw _ Hfm).
Qed.

Lemma cognition_update_changed d id e p q prompt receipt output digest now n d' :
  table_ok (tables d) (cognitions d) → writes_once (CognitionPositions.stage p) prompt receipt output digest →
  cognition_update d id e p q prompt receipt output digest now = Ok (n, d') →
  cognition_changed d id e d'.
Proof.
  intros Hok Hw H. unfold cognition_update in H. apply bail_ok in H as [Ha%negb_false_iff H].
  apply res_bind_ok in H as (x & [-> _]%checked_i64_ok & H).
  apply res_bind_ok in H as (next & _ & H).
  apply res_bind_ok in H as ([k row] & Hf & H). rewrite ok_or_ok in Hf.
  change (find_row (cognitions d) id = Some (k, row)) in Hf.
  apply bail_ok in H as [Hg H]. destruct_guards.
  apply res_bind_ok in H as (d1 & H & [= _ <-]).
  apply find_row_some in Hf as Hk. destruct Hk as [_ <-].
  replace e with (cg_ledger_revision (snapshot row)) by lia. subst p.
  eapply cognition_put_changed; try exact H; try done;
    clear -Ha; destruct (cg_position (snapshot row)), q; simpl in *; done || lia.
Qed.

Lemma persist_cognition_prompt_changed d w now n d' :
  table_ok (tables d) (cognitions d) → persist_cognition_prompt d w now = Ok (n, d') →
  cognition_changed d (gp_invocation_id w) (gp_expected_revision w) d'.
Proof.
  intros Hok H. apply bail_ok in H as [_ H]. eapply cognition_update_changed; [done| |exact H].
  apply writes_input.
Qed.

Lemma persist_cognition_receipt_changed d w now n d' :
  table_ok (tables d) (cognitions d) → persist_cognition_receipt d w now = Ok (n, d') →
  cognition_changed d (gr_invocation_id w) (gr_expected_revision w) d'.
Proof.
  intros Hok H. apply bail_ok in H as [_ H]. eapply cognition_update_changed; [done| |exact H].
  apply writes_receipt.
Qed.

Lemma persist_cognition_output_changed d w now n d' :
  table_ok (tables d) (cognitions d) → persist_cognition_output d w now = Ok (n, d') →
  cognition_changed d (go_invocation_id w) (go_expected_revision w) d'.
Proof.
  intros Hok H. apply bail_ok in H as [_ H]. eapply cognition_update_changed; [done| |exact H].
  apply writes_output.
Qed.

Lemma advance_cognition_changed d w now n d' :
  table_ok (tables d) (cognitions d) → advance_cognition d w now = Ok (n, d') →
  cognition_changed d (gv_invocation_id w) (gv_expected_revision w) d'.
Proof.
  intros Hok H. eapply cognition_update_changed; [done| |exact H].
  apply writes_nothing.
Qed.

Lemma fail_cognition_changed d w now n d' :
  table_ok (tables d) (cognitions d) → fail_cognition d w now = Ok (n, d') →
  cognition_changed d (gf_invocation_id w) (gf_expected_revision w) d'.
Proof.
  intros Hok H. unfold fail_cognition in H.
  apply res_bind_ok in H as (x & [-> _]%checked_i64_ok & H).
  apply res_bind_ok in H as (next & _ & H).
  apply res_bind_ok in H as ([k row] & Hf & H). rewrite ok_or_ok in Hf.
  change (find_row (cognitions d) (gf_invocation_id w) = Some (k, row)) in Hf.
  apply bail_ok in H as [Hg H]. destruct_guards.
  apply res_bind_ok in H as (d1 & H & [= _ <-]).
  apply find_row_some in Hf as Hk. destruct Hk as [_ Hid]. simpl in Hid. rewrite <- Hid in *.
  replace (gf_expected_revision w) with (cg_ledger_revision (snapshot row)) by lia.
  assert (cg_position (snapshot row) = CognitionPositions.InferenceStarted) as Hp by done.
  eapply cognition_put_changed; try exact H; try done; rewrite Hp; simpl; try lia.
  apply writes_nothing.
Qed.

Lemma classify_cognition_changed d w n d' :
  table_ok (tables d) (cognitions d) → classify_cognition_recovery d w = Ok (n, d') →
  cognition_changed d (gw_invocation_id w) (gw_expected_revision w) d'.
Proof.
  intros Hok H. unfold classify_cognition_recovery in H. apply bail_ok in H as [_ H].
  apply res_bind_ok in H as (x & [-> _]%checked_i64_ok & H).
  apply res_bind_ok in H as (next & _ & H).
  apply res_bind_ok in H as ([k row] & Hf & H). rewrite ok_or_ok in Hf.
  change (find_row (cognitions d) (gw_invocation_id w) = Some (k, row)) in Hf.
  apply bail_ok in H as [Hg H]. apply orb_false_iff in Hg as [Hg _].
  apply orb_false_iff in Hg as [Hv%negb_eqb Ho%negb_false_iff]. injection H as _ <-.
  apply find_row_some in Hf as Hk. destruct Hk as [Hk _].
  destruct (tk_rows _ _ Hok _ _ Hk) as (_ & _ & Hfm & _).
  eexists. split; [done|]. rewrite <- Hv. put_row Hf; try done.
  unfold cognition_open in Ho. split_and!; try done; simpl; [| |lia|by split_and!; right];
    destruct (cg_position (snapshot row)); simpl in *; done || lia.
Qed.

Lemma begin_cognition_new d s now d' :
  begin_cognition d s now = Ok (tt, d') →
  ∃ k r, d' = set_cognitions d (<[k := r]> (cognitions d)) ∧
    find_row (cognitions d) (c_invocation (cell_of (snapshot r))) = None ∧ row_ok (tables d) k r ∧
    k.1 = (ci_session_id s, ci_turn_id s) ∧
    c_instance (cell_of (snapshot r)) = ci_agent_instance_id s ∧
    (calls_of (cognitions d) k.1 (ci_agent_instance_id s) < ci_max_turn_calls s)%Z.
Proof.
  intros H. unfold begin_cognition in H. apply bail_ok in H as [_ H].
  apply res_bind_ok in H as (x & _ & H). apply bail_ok in H as [Hcalls%Z.leb_gt H]. 
  apply bail_ok in H as [Hrun%negb_false_iff H]. apply bail_ok in H as [Hnew H].
  apply orb_false_iff in Hnew as [Hnew _]. injection H as <-.
  eexists _, _. split; [done|]. split.
  { simpl. by destruct (find_cognition _ _) eqn:Hf in Hnew. }
  split; [|by split_and!].
  unfold running_for in Hrun. destruct (session_turns _ !! _) as [t|] eqn:Ht; [|done].
  split_and!; try done. exists t. split; [done|]. by destruct_guards.
Qed.

(** * Perception *)

(** The row of an invocation has moved from a revision to the next. *)
Definition perception_changed (d : idb) (id : string) (e : Z) (d' : idb) : Prop :=
  ∃ m, d' = set_perceptions d m ∧ row_changed (perceptions d) id e m.

Lemma perception_put_changed d k row d' q media receipt output digest failure now :
  table_ok (tables d) (perceptions d) →
  find_row (perceptions d) (pg_invocation_id (snapshot row)) = Some (k, row) →
  PerceptionPositions.stage (pg_position (snapshot row)) < 5 →
  PerceptionPositions.stage (pg_position (snapshot row)) ≤ PerceptionPositions.stage q →
  (PerceptionPositions.stage q = 6 → PerceptionPositions.stage (pg_position (snapshot row)) ≤ 2) →
  writes_once (PerceptionPositions.stage (pg_position (snapshot row))) media receipt output digest →
  put_perception d k row (moved_perception (snapshot row) q media receipt output digest failure now) = Ok d' →
  perception_changed d (pg_invocation_id (snapshot row)) (pg_ledger_revision (snapshot row)) d'.
Proof.
  intros Hok Hf Hs Hle H6 Hw H. apply bail_ok in H as [Hm%negb_false_iff [= <-]].
  apply find_row_some in Hf as Hk. destruct Hk as [Hk _].
  destruct (tk_rows _ _ Hok _ _ Hk) as (_ & _ & Hfm & _).
  eexists. split; [done|]. put_row Hf; try done.
  split_and!; try done; simpl; [lia|]. by apply (Hw _ Hfm).
Qed.

Lemma perception_update_changed d id e p q media receipt output digest now n d' :
  table_ok (tables d) (perceptions d) → writes_once (PerceptionPositions.stage p) media receipt output digest →
  perception_update d id e p q media receipt output digest now = Ok (n, d') →
  perception_changed d id e d'.
Proof.
  intros Hok Hw H. unfold perception_update in H. apply bail_ok in H as [Ha%negb_false_iff H].
  apply res_bind_ok in H as (x & [-> _]%checked_i64_ok & H).
  apply res_bind_ok in H as (next & _ & H).
  apply res_bind_ok in H as ([k row] & Hf & H). rewrite ok_or_ok in Hf.
  change (find_row (perceptions d) id = Some (k, row)) in Hf.
  apply bail_ok in H as [Hg H]. destruct_guards.
  apply res_bind_ok in H as (d1 & H & [= _ <-]).
  apply find_row_some in Hf as Hk. destruct Hk as [_ <-].
  replace e with (pg_ledger_revision (snapshot row)) by lia. subst p.
  eapply perception_put_changed; try exact H; try done;
    clear -Ha; destruct (pg_position (snapshot row)), q; simpl in *; done || lia.
Qed.

Lemma persist_perception_media_changed d w now n d' :
  table_ok (tables d) (perceptions d) → persist_perception_media d w now = Ok (n, d') →
  perception_changed d (qm_invocation_id w) (qm_expected_revision w) d'.
Proof.
  intros Hok H. apply bail_ok in H as [_ H]. eapply perception_update_changed; [done| |exact H].
  apply writes_input.
Qed.

Lemma persist_perception_receipt_changed d w now n d' :
  table_ok (tables d) (perceptions d) → persist_perception_receipt d w now = Ok (n, d') →
  perception_changed d (qr_invocation_id w) (qr_expected_revision w) d'.
Proof.
  intros Hok H. apply bail_ok in H as [_ H]. eapply perception_update_changed; [done| |exact H].
  apply writes_receipt.
Qed.

Lemma persist_perception_artifact_changed d w now n d' :
  table_ok (tables d) (perceptions d) → persist_perception_artifact d w now = Ok (n, d') →
  perception_changed d (qa_invocation_id w) (qa_expected_revision w) d'.
Proof.
  intros Hok H. apply bail_ok in H as [_ H]. eapply perception_update_changed; [done| |exact H].
  apply writes_output.
Qed.

Lemma advance_perception_changed d w now n d' :
  table_ok (tables d) (perceptions d) → advance_perception d w now = Ok (n, d') →
  perception_changed d (qv_invocation_id w) (qv_expected_revision w) d'.
Proof.
  intros Hok H. apply bail_ok in H as [_ H]. eapply perception_update_changed; [done| |exact H].
  apply writes_nothing.
Qed.

Lemma fail_perception_changed d w now n d' :
  table_ok (tables d) (perceptions d) → fail_perception d w now = Ok (n, d') →
  perception_changed d (qf_invocation_id w) (qf_expected_revision w) d'.
Proof.
  intros Hok H. unfold fail_perception in H.
  apply res_bind_ok in H as (x & [-> _]%checked_i64_ok & H).
  apply res_bind_ok in H as (next & _ & H).
  apply res_bind_ok in H as ([k row] & Hf & H). rewrite ok_or_ok in Hf.
  change (find_row (perceptions d) (qf_invocation_id w) = Some (k, row)) in Hf.
  apply bail_ok in H as [Hg H]. destruct_guards.
  apply res_bind_ok in H as (d1 & H & [= _ <-]).
  apply find_row_some in Hf as Hk. destruct Hk as [_ Hid]. simpl in Hid. rewrite <- Hid in *.
  replace (qf_expected_revision w) with (pg_ledger_revision (snapshot row)) by lia.
  assert (pg_position (snapshot row) = PerceptionPositions.InferenceStarted) as Hp by done.
  eapply perception_put_changed; try exact H; try done; rewrite Hp; simpl; try lia.
  apply writes_nothing.
Qed.

Lemma classify_perception_changed d w n d' :
  table_ok (tables d) (perceptions d) → classify_perception_recovery d w = Ok (n, d') →
  perception_changed d (qw_invocation_id w) (qw_expected_revision w) d'.
Proof.
  intros Hok H. unfold classify_perception_recovery in H. apply bail_ok in H as [_ H].
  apply res_bind_ok in H as (x & [-> _]%checked_i64_ok & H).
  apply res_bind_ok in H as (next & _ & H).
  apply res_bind_ok in H as ([k row] & Hf & H). rewrite ok_or_ok in Hf.
  change (find_row (perceptions d) (qw_invocation_id w) = Some (k, row)) in Hf.
  apply bail_ok in H as [Hg H]. apply orb_false_iff in Hg as [Hg _].
  apply orb_false_iff in Hg as [Hv%negb_eqb Ho%negb_false_iff]. injection H as _ <-.
  apply find_row_some in Hf as Hk. destruct Hk as [Hk _].
  destruct (tk_rows _ _ Hok _ _ Hk) as (_ & _ & Hfm & _).
  eexists. split; [done|]. rewrite <- Hv. put_row Hf; try done.
  unfold perception_open in Ho. split_and!; try done; simpl; [| |lia|by split_and!; right];
    destruct (pg_position (snapshot row)); simpl in *; done || lia.
Qed.

Lemma begin_perception_new d s now d' :
  begin_perception d s now = Ok (tt, d') →
  ∃ k r, d' = set_perceptions d (<[k := r]> (perceptions d)) ∧
    find_row (perceptions d) (c_invocation (cell_of (snapshot r))) = None ∧ row_ok (tables d) k r ∧
    k.1 = (qi_session_id s, qi_turn_id s) ∧
    c_instance (cell_of (snapshot r)) = qi_agent_instance_id s.
Proof.
  intros H. unfold begin_perception in H. do 2 apply bail_ok in H as [_ H].
  apply res_bind_ok in H as (x & _ & H). 
  apply bail_ok in H as [Hrun%negb_false_iff H]. apply bail_ok in H as [Hnew H].
  apply orb_false_iff in Hnew as [Hnew _]. injection H as <-.
  eexists _, _. split; [done|]. split.
  { simpl. by destruct (find_perception _ _) eqn:Hf in Hnew. }
  split; [|by split_and!].
  unfold running_for in Hrun. destruct (session_turns _ !! _) as [t|] eqn:Ht; [|done].
  split_and!; try done. exists t. split; [done|]. by destruct_guards.
Qed.

End ledgers.

(** * Runs *)

Inductive inference_op :=
  | OpSession (op : session_op)
  | OpBeginCognition (s : CognitionInvocationStart) (now : Z)
  | OpCognitionPrompt (w : CognitionPromptPersistence) (now : Z)
  | OpAdvanceCognition (a : CognitionAdvance) (now : Z)
  | OpCognitionReceipt (w : CognitionReceiptPersistence) (now : Z)
  | OpCognitionOutput (w : CognitionOutputPersistence) (now : Z)
  | OpCompleteCognition (invocation : string) (expected_revision now : Z)
  | OpFailCognition (w : CognitionFailurePersistence) (now : Z)
  | OpClassifyCognition (w : CognitionRecoveryWrite)
  | OpBeginPerception (s : PerceptionInvocationStart) (now : Z)
  | OpPerceptionMedia (w : PerceptionMediaPersistence) (now : Z)
  | OpAdvancePerception (a : PerceptionAdvance) (now : Z)
  | OpPerceptionReceipt (w : PerceptionReceiptPersistence) (now : Z)
  | OpPerceptionArtifact (w : PerceptionArtifactPersistence) (now : Z)
  | OpCompletePerception (invocation : string) (expected_revision now : Z)
  | OpFailPerception (w : PerceptionFailurePersistence) (now : Z)
  | OpClassifyPerception (w : PerceptionRecoveryWrite).

(** The invocation and the revision that a request expects. *)
Definition cognition_request (op : inference_op) : option (string * Z) :=
  match op with
  | OpCognitionPrompt w _ => Some (gp_invocation_id w, gp_expected_revision w)
  | OpAdvanceCognition a _ => Some (gv_invocation_id a, gv_expected_revision a)
  | OpCognitionReceipt w _ => Some (gr_invocation_id w, gr_expected_revision w)
  | OpCognitionOutput w _ => Some (go_invocation_id w, go_expected_revision w)
  | OpCompleteCognition id e _ => Some (id, e)
  | OpFailCognition w _ => Some (gf_invocation_id w, gf_expected_revision w)
  | OpClassifyCognition w => Some (gw_invocation_id w, gw_expected_revision w)
  | _ => None
  end.

Definition perception_request (op : inference_op) : option (string * Z) :=
  match op with
  | OpPerceptionMedia w _ => Some (qm_invocation_id w, qm_expected_revision w)
  | OpAdvancePerception a _ => Some (qv_invocation_id a, qv_expected_revision a)
  | OpPerceptionReceipt w _ => Some (qr_invocation_id w, qr_expected_revision w)
  | OpPerceptionArtifact w _ => Some (qa_invocation_id w, qa_expected_revision w)
  | OpCompletePerception id e _ => Some (id, e)
  | OpFailPerception w _ => Some (qf_invocation_id w, qf_expected_revision w)
  | OpClassifyPerception w => Some (qw_invocation_id w, qw_expected_revision w)
  | _ => None
  end.

Section runs.
Context `{Hcrates : Crates} `{Hhash : !HashOrder}.

(** A request of the session store: its answer and the tables after it. *)
Definition inference_answer (d : idb) (op : inference_op) : itx (option Z) :=
  let revision (c : itx Z) : itx (option Z) := x <- c;; Ok (Some x.1, x.2) in
  let begun (c : itx unit) : itx (option Z) := x <- c;; Ok (None, x.2) in
  match op with
  | OpSession op => Ok (None, set_tables d (session_exec (tables d) op))
  | OpBeginCognition s now => begun (begin_cognition d s now)
  | OpCognitionPrompt w now => revision (persist_cognition_prompt d w now)
  | OpAdvanceCognition a now => revision (advance_cognition d a now)
  | OpCognitionReceipt w now => revision (persist_cognition_receipt d w now)
  | OpCognitionOutput w now => revision (persist_cognition_output d w now)
  | OpCompleteCognition id e now => revision (complete_cognition d id e now)
  | OpFailCognition w now => revision (fail_cognition d w now)
  | OpClassifyCognition w => revision (classify_cognition_recovery d w)
  | OpBeginPerception s now => begun (begin_perception d s now)
  | OpPerceptionMedia w now => revision (persist_perception_media d w now)
  | OpAdvancePerception a now => revision (advance_perception d a now)
  | OpPerceptionReceipt w now => revision (persist_perception_receipt d w now)
  | OpPerceptionArtifact w now => revision (persist_perception_artifact d w now)
  | OpCompletePerception id e now => revision (complete_perception d id e now)
  | OpFailPerception w now => revision (fail_perception d w now)
  | OpClassifyPerception w => revision (classify_perception_recovery d w)
  end.

Definition inference_exec (d : idb) (op : inference_op) : idb := (run d (inference_answer d op)).2.

Definition inference_legal (d : idb) (op : inference_op) : Prop :=
  match op with OpSession op => session_legal (tables d) op | _ => True end.

Definition inference_run (d : idb) (ops : list inference_op) : idb := foldl inference_exec d ops.

Fixpoint inference_legal_run (d : idb) (ops : list inference_op) : Prop :=
  match ops with
  | [] => True
  | op :: ops => inference_legal d op ∧ inference_legal_run (inference_exec d op) ops
  end.

Record inference_ok (d : idb) : Prop := {
  io_tables : turns_ok (tables d);
  io_below : durable_ok (sd (tables d));
  io_cognitions : table_ok (tables d) (cognitions d);
  io_perceptions : table_ok (tables d) (perceptions d);
}.

Record inference_step (d d' : idb) : Prop := {
  is_tables : turns_step (tables d) (tables d');
  is_cognitions : rows_step row_step (cognitions d) (cognitions d');
  is_perceptions : rows_step row_step (perceptions d) (perceptions d');
}.

#[global] Instance inference_step_preorder : PreOrder inference_step.
Proof using.
  split; [intros d; split; done|]. intros a b c [] []. split; by etrans.
Qed.

(** ** One request *)

Inductive request_answered (d d' : idb) : inference_op → Prop :=
  | ans_session op : d' = set_tables d (session_exec (tables d) op) → request_answered d d' (OpSession op)
  | ans_begin_cognition s now : begin_cognition d s now = Ok (tt, d') →
      request_answered d d' (OpBeginCognition s now)
  | ans_begin_perception s now : begin_perception d s now = Ok (tt, d') →
      request_answered d d' (OpBeginPerception s now)
  | ans_cognition op id e : cognition_request op = Some (id, e) → perception_request op = None →
      cognition_changed d id e d' → request_answered d d' op
  | ans_perception op id e : perception_request op = Some (id, e) → cognition_request op = None →
      perception_changed d id e d' → request_answered d d' op.

Lemma request_answered_ok d op n d' :
  inference_ok d → inference_answer d op = Ok (n, d') → request_answered d d' op.
Proof using.
  intros [_ _ Hc Hp] H.
  destruct op; cbn [inference_answer] in H;
    try (apply res_bind_ok in H as ([x d1] & H & [= _ <-])); try match type of x with unit => destruct x end.
  - injection H as _ <-. by constructor.
  - by constructor.
  - eapply ans_cognition; [done..|]. by eapply persist_cognition_prompt_changed.
  - eapply ans_cognition; [done..|]. by eapply advance_cognition_changed.
  - eapply ans_cognition; [done..|]. by eapply persist_cognition_receipt_changed.
  - eapply ans_cognition; [done..|]. by eapply persist_cognition_output_changed.
  - eapply ans_cognition; [done..|]. eapply cognition_update_changed; [done| |exact H].
    apply writes_nothing.
  - eapply ans_cognition; [done..|]. by eapply fail_cognition_changed.
  - eapply ans_cognition; [done..|]. by eapply classify_cognition_changed.
  - by constructor.
  - eapply ans_perception; [done..|]. by eapply persist_perception_media_changed.
  - eapply ans_perception; [done..|]. by eapply advance_perception_changed.
  - eapply ans_perception; [done..|]. by eapply persist_perception_receipt_changed.
  - eapply ans_perception; [done..|]. by eapply persist_perception_artifact_changed.
  - eapply ans_perception; [done..|]. eapply perception_update_changed; [done| |exact H].
    apply writes_nothing.
  - eapply ans_perception; [done..|]. by eapply fail_perception_changed.
  - eapply ans_perception; [done..|]. by eapply classify_perception_changed.
Qed.

Lemma inference_exec_ok d op :
  inference_ok d → inference_legal d op →
  inference_ok (inference_exec d op) ∧ inference_step d (inference_exec d op).
Proof using.
  intros Hok Hl. unfold inference_exec. destruct (run_cases d (inference_answer d op)) as [->|[n Hn]];
    [done|]. apply request_answered_ok in Hn; [|done]. set (d' := (run _ _).2) in *. clearbody d'.
  pose proof Hok as [Ht Hd Hc Hp]. destruct Hn as [op ->|s now H|s now H|op id e _ _ H|op id e _ _ H].
  - destruct (session_exec_ok (tables d) op Ht Hd Hl) as (? & ? & ?).
    split; split; try done; by eapply table_ok_mono.
  - apply begin_cognition_new in H as (k & r & -> & Hf & Hr & _).
    destruct (table_new _ _ _ _ Hc Hf Hr) as (? & ? & _). by split; split.
  - apply begin_perception_new in H as (k & r & -> & Hf & Hr & _).
    destruct (table_new _ _ _ _ Hp Hf Hr) as (? & ? & _). by split; split.
  - destruct H as (m & -> & Hm). destruct (row_changed_ok _ _ _ _ _ Hc Hm) as (? & ? & _).
    by split; split.
  - destruct H as (m & -> & Hm). destruct (row_changed_ok _ _ _ _ _ Hp Hm) as (? & ? & _).
    by split; split.
Qed.

Lemma inference_run_ok d ops :
  inference_ok d → inference_legal_run d ops →
  inference_ok (inference_run d ops) ∧ inference_step d (inference_run d ops).
Proof using.
  revert d. induction ops as [|op ops IH]; intros d Hok; [done|]. intros [Hop Hops].
  destruct (inference_exec_ok d op Hok Hop) as [Hok1 Hs1].
  destruct (IH _ Hok1 Hops) as [? ?]. split; [done|]. by etrans.
Qed.

(** ** The calls of a turn *)

Definition within (key : TurnKey) (i : AgentInstanceId) (budget : Z) (op : inference_op) : Prop :=
  match op with
  | OpBeginCognition s _ =>
      (ci_session_id s, ci_turn_id s) = key → ci_agent_instance_id s = i →
      (ci_max_turn_calls s ≤ budget)%Z
  | _ => True
  end.

Lemma exec_calls d op key i budget :
  inference_ok d → within key i budget op → (calls_of (cognitions d) key i ≤ budget)%Z →
  (calls_of (cognitions (inference_exec d op)) key i ≤ budget)%Z.
Proof using.
  intros Hok Hw Hle. unfold inference_exec.
  destruct (run_cases d (inference_answer d op)) as [->|[n Hn]]; [done|].
  apply request_answered_ok in Hn; [|done]. set (d' := (run _ _).2) in *. clearbody d'.
  pose proof Hok as [Ht Hd Hc Hp]. destruct Hn as [op ->|s now H|s now H|op id e _ _ H|op id e _ _ H].
  - done.
  - apply begin_cognition_new in H as (k & r & -> & Hf & Hr & Hk & Hi & Hlt).
    destruct (table_new _ _ _ _ Hc Hf Hr) as (_ & _ & Hnew). simpl.
    rewrite calls_insert by done. case_decide as Hd'; [|lia].
    destruct Hd' as [Hk1 Hi1]. rewrite Hi in Hi1. subst i. rewrite <- Hk1 in *.
    simpl in Hw. rewrite <- Hk in Hw. specialize (Hw eq_refl eq_refl). lia.
  - apply begin_perception_new in H as (k & r & -> & _). done.
  - destruct H as (m & -> & Hm). simpl.
    destruct (row_changed_ok _ _ _ _ _ Hc Hm) as (_ & _ & ->). done.
  - by destruct H as (m & -> & Hm).
Qed.
End runs.
