(* ===== verification/Service.v ===== *)
(** The coordination service: src/sylvander-runtime/src/coordination/service.rs
    with [task.rs], [arbitration.rs] and [handoff.rs] of its directory.

    A method of [CoordinationService] is an effect over a [world]: the session
    database and a clock of store calls.  Between two calls of one method the other
    callers of the store commit whatever operations they like ([env]), so every call
    sees the database they left.  The digest of [governance_case_id] (SHA-256 over
    the JSON text of the request) is a parameter, as are the fencing tokens drawn
    for a claim; the texts of errors are not modelled. *)

From S2P Require Import Prelude Graph Effects Instance Store.
From S2P Require Membership Topology Route Tasks Mailbox Handoff Governance Arbitration.
From S2P Require StoreTasks StoreMessages StoreHandoffs StoreArbitration StoreFacts.
From S2P Require Import InstanceStore StoreSystem.
From stdpp Require Import base tactics gmap strings list.
From Stdlib Require Import ZArith Lia.

Inductive CoordinationServiceError :=
  | MissingMembership (session_id : SessionId)
  | MissingTopology (session_id : SessionId)
  | UnknownAgent
  | UnavailableAgent
  | UnknownTask
  | InvalidTask
  | GovernanceBlocked
  | UnknownHandoff
  | UnknownArbitration
  | UnauthorizedArbitrator
  | UnauthorizedActor
  | Unroutable
  | InvalidDurableFacts
  | InvalidDispatch
  | InvalidHandoff
  | InvalidArbitration
  | IdempotencyConflict
  | InvalidConfiguration
  | InvalidAgentSpawn
  | Storage (e : SessionStoreError).

Definition MAX_ARBITRATION_RENEWALS : nat := 64.

Record DispatchMessageRequest := {
  dm_message_id : CoordinationMessageId;
  dm_session_id : SessionId;
  dm_sender_instance_id : AgentInstanceId;
  dm_recipient_instance_id : AgentInstanceId;
  dm_task_id : option TaskId;
  dm_kind : Mailbox.CoordinationMessageKind;
  dm_payload : string;
  dm_max_hops : Z;
  dm_expires_at : Z;
}.

Inductive DispatchMessageOutcome :=
  | Enqueued (message : Mailbox.CoordinationMessage)
  | EnqueuedByModerator (message : Mailbox.CoordinationMessage)
      (decision : Arbitration.ModeratorDecision)
  | DispatchRequiresArbitration (case : Arbitration.ArbitrationCase)
      (assessment : Governance.GovernanceAssessment)
  | DispatchRejectedByModerator (case : Arbitration.ArbitrationCase)
      (decision : Arbitration.ModeratorDecision).

Record ForkAgentRequest := {
  fa_instance_id : AgentInstanceId;
  fa_session_id : SessionId;
  fa_parent_instance_id : AgentInstanceId;
  fa_branch_id : string;
}.

Inductive ForkAgentOutcome :=
  | ForkCreated (participant : AgentInstance)
  | ForkCreatedByModerator (participant : AgentInstance)
      (decision : Arbitration.ModeratorDecision)
  | ForkRequiresArbitration (case : Arbitration.ArbitrationCase)
      (assessment : Governance.GovernanceAssessment)
  | ForkRejectedByModerator (case : Arbitration.ArbitrationCase)
      (decision : Arbitration.ModeratorDecision).

Record DefineAgentRequest := {
  da_instance_id : AgentInstanceId;
  da_session_id : SessionId;
  da_sponsor_instance_id : AgentInstanceId;
  da_definition : AgentDefinitionKey;
  da_role : SessionAgentRole;
  da_capability_revision : string;
  da_effective_config : SessionEffectiveConfig;
}.

Inductive DefineAgentOutcome :=
  | DefineCreated (participant : AgentInstance)
  | DefineCreatedByModerator (participant : AgentInstance)
      (decision : Arbitration.ModeratorDecision)
  | DefineRequiresArbitration (case : Arbitration.ArbitrationCase)
      (assessment : Governance.GovernanceAssessment)
  | DefineRejectedByModerator (case : Arbitration.ArbitrationCase)
      (decision : Arbitration.ModeratorDecision).

Record RelateAgentsRequest := {
  ra_session_id : SessionId;
  ra_requested_by : AgentInstanceId;
  ra_source : AgentInstanceId;
  ra_target : AgentInstanceId;
  ra_kind : Topology.AgentRelationKind;
}.

Inductive RelateAgentsOutcome :=
  | RelationApplied (topology : Topology.SessionTopology)
  | RelationAppliedByModerator (topology : Topology.SessionTopology)
      (decision : Arbitration.ModeratorDecision)
  | RelationRequiresArbitration (case : Arbitration.ArbitrationCase)
      (assessment : Governance.GovernanceAssessment)
  | RelationRejectedByModerator (case : Arbitration.ArbitrationCase)
      (decision : Arbitration.ModeratorDecision).

Record ProposeHandoffRequest := {
  ph_handoff_id : Handoff.HandoffId;
  ph_session_id : SessionId;
  ph_task_id : TaskId;
  ph_from_instance_id : AgentInstanceId;
  ph_to_instance_id : AgentInstanceId;
  ph_requested_by : AgentInstanceId;
  ph_reason : string;
  ph_expires_at : Z;
}.

Record ReportWaitRequest := {
  rw_session_id : SessionId;
  rw_task_id : TaskId;
  rw_waiter : AgentInstanceId;
  rw_awaited : AgentInstanceId;
}.

Record ReportProgressRequest := {
  rp_observation_id : string;
  rp_session_id : SessionId;
  rp_task_id : TaskId;
  rp_agent_instance_id : AgentInstanceId;
  rp_consumed_tokens : Z;
  rp_evidence_digest : option string;
}.

Record CreateTaskRequest := {
  ct_task_id : TaskId;
  ct_session_id : SessionId;
  ct_parent_task_id : option TaskId;
  ct_created_by : AgentInstanceId;
  ct_assigned_to : AgentInstanceId;
  ct_objective : string;
  ct_token_budget : Z;
  ct_max_handoffs : Z;
}.

Record TransitionTaskRequest := {
  tt_task_id : TaskId;
  tt_session_id : SessionId;
  tt_actor : AgentInstanceId;
  tt_next_state : Tasks.CoordinationTaskState;
  tt_consumed_tokens : Z;
}.

Record ClaimTaskRequest := {
  cl_task_id : TaskId;
  cl_session_id : SessionId;
  cl_actor : AgentInstanceId;
  cl_claim_owner_id : string;
  cl_lease_seconds : Z;
}.

Record FinishClaimedTaskRequest := {
  fc_lease : Tasks.TaskExecutionLease;
  fc_next_state : Tasks.CoordinationTaskState;
  fc_consumed_tokens : Z;
}.

Record CancelTaskRequest := {
  ca_task_id : TaskId;
  ca_session_id : SessionId;
  ca_actor : AgentInstanceId;
}.

(** What identifies a case: the request it was opened for, or the expired case
    that it renews. *)
Inductive case_key :=
  | KeyMessage (request : DispatchMessageRequest)
  | KeyTurn (message_id : CoordinationMessageId) (turn_id : string)
  | KeyFork (request : ForkAgentRequest)
  | KeyDefine (request : DefineAgentRequest)
  | KeyRelate (request : RelateAgentsRequest)
  | KeyRenewal (case_id : GovernanceCaseId) (revision expires_at : Z).

(** The services of other code. *)
Class ServicePorts : Type := {
  (** the SHA-256 digest, in hexadecimal, of a request and two revisions *)
  case_digest : case_key → Z → Z → string;
  (** the token drawn for a claim *)
  drawn_token : nat → string;
  (** what the other callers commit before a call, which may depend on the database *)
  env : nat → sdb → list durable_op;
}.

Record world := { data : sdb; clock : nat }.

(** [CoordinationService] without its store. *)
Record config := {
  policy : Governance.GovernancePolicy;
  arbitration_ttl_seconds : Z;
}.

Notation svc := (eff world CoordinationServiceError).

(** A [Result] of a pure function, with its error mapped. *)
Definition lift {A E} (e : CoordinationServiceError) (r : res A E) : svc A :=
  eres (map_err (λ _, e) r).
Definition demand {A} (o : option A) (e : CoordinationServiceError) : svc A := eres (ok_or o e).
Definition refuse (b : bool) (e : CoordinationServiceError) : svc unit :=
  if b then efail e else eret tt.

Notation "'deny' b 'with' e ;; k" := (ebind (refuse b e) (fun _ => k))
  (at level 100, b at next level, e at next level, right associativity) : rust_scope.

Section service.
Context `{Hhash : !HashOrder} `{Hports : !ServicePorts}.

(** ** Store calls *)

(** What the others did since the last call. *)
Definition arrive (w : world) : world :=
  {| data := durable_run (data w) (env (clock w) (data w)); clock := S (clock w) |}.

(** One call of a store operation, a transaction of its own. *)
Definition call {A} (f : sdb → stx A) : svc A := λ w,
  let w := arrive w in
  let '(r, d) := run (data w) (f (data w)) in
  ({| data := d; clock := clock w |}, map_err Storage r).

(** A call that reads. *)
Definition query {A} (f : sdb → A) : svc A := λ w,
  let w := arrive w in (w, Ok (f (data w))).
Definition query_res {A} (f : sdb → res A SessionStoreError) : svc A :=
  call (λ d, a <- f d;; Ok (a, d)).

(** An operation of the coordination store. *)
Definition on_base {A} (f : db → tx A) (d : sdb) : stx A :=
  r <- f (base d);; Ok (r.1, set_base d r.2).
Definition commit_base {A} (f : db → tx A) : svc A := call (on_base f).

Definition session_membership_of (session : SessionId) : svc Membership.SessionMembership :=
  m <~ query_res (λ d, session_membership d session);;
  demand m (MissingMembership session).

Definition load_topology (d : sdb) (session : SessionId) : option Topology.SessionTopology :=
  topologies (base d) !! session.

Definition topology_of (session : SessionId) : svc Topology.SessionTopology :=
  t <~ query (λ d, load_topology d session);;
  demand t (MissingTopology session).

Definition task_of (id : TaskId) : svc Tasks.CoordinationTask :=
  t <~ query (λ d, StoreTasks.load_task (base d) id);;
  demand t UnknownTask.

(** [unwrap_or_else(|| SessionTaskGraph { .. })] *)
Definition task_graph_of (session : SessionId) (membership_revision : Z) :
    svc Tasks.SessionTaskGraph :=
  g <~ query (λ d, StoreTasks.load_task_graph (base d) session);;
  eret (default {| Tasks.g_session_id := session;
                   Tasks.g_membership_revision := membership_revision;
                   Tasks.tasks := []; Tasks.dependencies := [] |} g).

(** ** Checks *)

(** [ensure_available] *)
Definition ensure_available (m : Membership.SessionMembership) (i : AgentInstanceId) : svc unit :=
  participant <~ demand (Membership.find_participant (Membership.participants m) i) UnknownAgent;;
  deny InstanceState.is_terminal (ai_state participant)
       || (ai_state participant == InstanceState.ManualReconciliation) with UnavailableAgent;;
  eret tt.

(** [same_dispatch_intent] *)
Definition same_dispatch_intent (existing proposed : Mailbox.CoordinationMessage) : bool :=
  (Mailbox.message_id existing == Mailbox.message_id proposed)
  && (Mailbox.session_id existing == Mailbox.session_id proposed)
  && (Mailbox.sender_instance_id existing == Mailbox.sender_instance_id proposed)
  && (Mailbox.recipient_instance_id existing == Mailbox.recipient_instance_id proposed)
  && (Mailbox.task_id existing == Mailbox.task_id proposed)
  && (Mailbox.kind existing == Mailbox.kind proposed)
  && (Mailbox.payload existing == Mailbox.payload proposed)
  && (Mailbox.topology_revision existing =? Mailbox.topology_revision proposed)%Z
  && (Mailbox.route existing == Mailbox.route proposed)
  && (Mailbox.max_hops existing =? Mailbox.max_hops proposed)%Z
  && (Mailbox.expires_at existing =? Mailbox.expires_at proposed)%Z.

(** [governance_case_id] *)
Definition governance_case_id (prefix : string) (key : case_key)
    (membership_revision topology_revision : Z) : GovernanceCaseId :=
  prefix +:+ ":" +:+ case_digest key membership_revision topology_revision.

(** [assess]: an assessment visits every ownership edge at most once, so the
    number of relations bounds it. *)
Definition assess (policy : Governance.GovernancePolicy) (m : Membership.SessionMembership)
    (t : Topology.SessionTopology) (g : Tasks.SessionTaskGraph)
    (o : StoreFacts.GovernanceObservations) : svc Governance.GovernanceAssessment :=
  match Governance.assess (length (Topology.relations t) + 2) policy {|
    Governance.membership := m; Governance.topology := t; Governance.tasks := g;
    Governance.waits := StoreFacts.ob_waits o; Governance.progress := StoreFacts.ob_progress o;
    Governance.handoffs := StoreFacts.ob_handoffs o |} with
  | Some assessment => eret assessment
  | None => ehang
  end.
(** ** Facts of a session *)

(** [CoordinationService::topology] *)
Definition service_topology (session : SessionId) : svc Topology.SessionTopology :=
  membership <~ session_membership_of session;;
  t <~ topology_of session;;
  perform lift InvalidDurableFacts (Topology.validate t membership);;
  eret t.

(** [CoordinationService::report_wait] *)
Definition report_wait (r : ReportWaitRequest) (now : Z) : svc unit :=
  membership <~ session_membership_of (rw_session_id r);;
  perform ensure_available membership (rw_waiter r);;
  perform ensure_available membership (rw_awaited r);;
  t <~ topology_of (rw_session_id r);;
  task <~ task_of (rw_task_id r);;
  commit_base (λ d, StoreFacts.record_wait d (rw_session_id r)
    {| Governance.w_task_id := rw_task_id r; Governance.waiter := rw_waiter r;
       Governance.awaited := rw_awaited r |}
    (Tasks.revision task) (Topology.topology_revision t)).

(** [CoordinationService::clear_wait] *)
Definition clear_wait (r : ReportWaitRequest) : svc unit :=
  commit_base (λ d, StoreFacts.clear_wait d (rw_session_id r)
    {| Governance.w_task_id := rw_task_id r; Governance.waiter := rw_waiter r;
       Governance.awaited := rw_awaited r |}).

(** [CoordinationService::report_progress] *)
Definition report_progress (r : ReportProgressRequest) (now : Z) :
    svc Governance.ProgressObservation :=
  membership <~ session_membership_of (rp_session_id r);;
  perform ensure_available membership (rp_agent_instance_id r);;
  task <~ task_of (rp_task_id r);;
  let observation := {|
    Governance.observation_id := rp_observation_id r; Governance.p_task_id := rp_task_id r;
    Governance.p_agent_instance_id := rp_agent_instance_id r;
    Governance.task_revision := Tasks.revision task;
    Governance.consumed_tokens := rp_consumed_tokens r;
    Governance.evidence_digest := rp_evidence_digest r; Governance.observed_at := now |} in
  perform commit_base (λ d, StoreFacts.record_progress d (rp_session_id r) observation);;
  eret observation.

(** [ensure_arbitration_notification] *)
Definition notification (sender : AgentInstanceId) (task : option TaskId)
    (case : Arbitration.ArbitrationCase) (t : Topology.SessionTopology)
    (route : list AgentInstanceId) : Mailbox.CoordinationMessage := {|
  Mailbox.message_id := "arbitration:" +:+ Arbitration.case_id case;
  Mailbox.session_id := Arbitration.session_id case;
  Mailbox.sender_instance_id := sender;
  Mailbox.recipient_instance_id := Arbitration.moderator_instance_id case;
  Mailbox.task_id := task; Mailbox.kind := Mailbox.Control;
  Mailbox.payload := "governance_case:" +:+ Arbitration.case_id case;
  Mailbox.topology_revision := Topology.topology_revision t;
  Mailbox.route := route; Mailbox.max_hops := Z.max (Z.of_nat (length route - 1)) 1;
  Mailbox.state := Mailbox.Delivery.Pending; Mailbox.delivery_attempts := 0;
  Mailbox.revision := 0; Mailbox.expires_at := Arbitration.expires_at case;
  Mailbox.created_at := Arbitration.created_at case;
  Mailbox.updated_at := Arbitration.created_at case |}.

Definition ensure_arbitration_notification (sender : AgentInstanceId) (task : option TaskId)
    (case : Arbitration.ArbitrationCase) (membership : Membership.SessionMembership)
    (t : Topology.SessionTopology) : svc unit :=
  route <~ eres (map_err (λ e : Empty_set, match e with end)
    (Route.route_between t sender (Arbitration.moderator_instance_id case)));;
  route <~ demand route Unroutable;;
  deny (u16_max <? Z.of_nat (length route - 1))%Z with InvalidConfiguration;;
  let message := notification sender task case t route in
  existing <~ query (λ d, StoreMessages.load_message (base d) (Mailbox.message_id message));;
  match existing with
  | Some existing =>
      if same_dispatch_intent existing message then eret tt else efail IdempotencyConflict
  | None =>
      perform commit_base (λ d, StoreMessages.enqueue_message d message membership t
        (Arbitration.created_at case));;
      eret tt
  end.

(** ** Tasks *)

(** [CoordinationService::task_graph] *)
Definition service_task_graph (session : SessionId) : svc (option Tasks.SessionTaskGraph) :=
  membership <~ session_membership_of session;;
  graph <~ query (λ d, StoreTasks.load_task_graph (base d) session);;
  match graph with
  | Some g => perform lift InvalidDurableFacts (Tasks.validate g membership);; eret (Some g)
  | None => eret None
  end.

(** [same_task_intent] *)
Definition same_task_intent (task : Tasks.CoordinationTask) (r : CreateTaskRequest) : bool :=
  (Tasks.task_id task == ct_task_id r) && (Tasks.session_id task == ct_session_id r)
  && (Tasks.parent_task_id task == ct_parent_task_id r)
  && (Tasks.created_by task == ct_created_by r)
  && (Tasks.assigned_to task == Some (ct_assigned_to r))
  && (Tasks.objective task == ct_objective r)
  && (Tasks.token_budget task =? ct_token_budget r)%Z
  && (Tasks.max_handoffs task =? ct_max_handoffs r)%Z.

(** Who may give a task to whom: oneself, the moderator, an owner its child. *)
Definition may_assign (m : Membership.SessionMembership) (t : Topology.SessionTopology)
    (creator assignee : AgentInstanceId) : bool :=
  (creator == assignee)
  || (creator == Membership.moderator_instance_id (Membership.governance m))
  || existsb (λ r, (Topology.kind r == Topology.ParentOf) && (Topology.source r == creator)
                   && (Topology.target r == assignee)) (Topology.relations t).

Definition requested_task (r : CreateTaskRequest) (m : Membership.SessionMembership) (now : Z) :
    Tasks.CoordinationTask := {|
  Tasks.task_id := ct_task_id r; Tasks.session_id := ct_session_id r;
  Tasks.membership_revision := Membership.membership_revision (Membership.governance m);
  Tasks.parent_task_id := ct_parent_task_id r; Tasks.created_by := ct_created_by r;
  Tasks.assigned_to := Some (ct_assigned_to r); Tasks.objective := ct_objective r;
  Tasks.state := Tasks.TaskState.Ready; Tasks.token_budget := ct_token_budget r;
  Tasks.consumed_tokens := 0; Tasks.max_handoffs := ct_max_handoffs r; Tasks.handoff_count := 0;
  Tasks.revision := 0; Tasks.created_at := now; Tasks.updated_at := now |}.

(** [graph.tasks.push(task)] *)
Definition push_task (g : Tasks.SessionTaskGraph) (task : Tasks.CoordinationTask) :
    Tasks.SessionTaskGraph := {|
  Tasks.g_session_id := Tasks.g_session_id g;
  Tasks.g_membership_revision := Tasks.g_membership_revision g;
  Tasks.tasks := Tasks.tasks g ++ [task]; Tasks.dependencies := Tasks.dependencies g |}.

(** [CoordinationService::create_task] *)
Definition create_task (c : config) (r : CreateTaskRequest) (now : Z) :
    svc Tasks.CoordinationTask :=
  deny trim_is_empty (ct_objective r) || (ct_token_budget r =? 0)%Z with InvalidTask;;
  membership <~ session_membership_of (ct_session_id r);;
  perform lift InvalidDurableFacts (Membership.validate membership);;
  perform ensure_available membership (ct_created_by r);;
  perform ensure_available membership (ct_assigned_to r);;
  t <~ topology_of (ct_session_id r);;
  perform lift InvalidDurableFacts (Topology.validate t membership);;
  deny negb (may_assign membership t (ct_created_by r) (ct_assigned_to r)) with UnauthorizedActor;;
  existing <~ query (λ d, StoreTasks.load_task (base d) (ct_task_id r));;
  match existing with
  | Some existing =>
      if same_task_intent existing r then eret existing else efail IdempotencyConflict
  | None =>
      graph <~ task_graph_of (ct_session_id r)
        (Membership.membership_revision (Membership.governance membership));;
      deny match ct_parent_task_id r with
           | Some parent => negb (existsb (λ task, Tasks.task_id task == parent) (Tasks.tasks graph))
           | None => false
           end with UnknownTask;;
      let task := requested_task r membership now in
      let graph := push_task graph task in
      perform lift InvalidTask (Tasks.validate graph membership);;
      observations <~ query_res (λ d, StoreFacts.governance_observations (base d)
        (Tasks.g_session_id graph) 1);;
      assessment <~ assess (policy c) membership t graph observations;;
      deny Governance.has_hard_stop assessment with GovernanceBlocked;;
      perform commit_base (λ d, StoreTasks.create_task d task);;
      eret task
  end.

(** Who may ask for a transition: the owner, and where review or cancellation is
    concerned the moderator or the creator. *)
Definition may_transition (m : Membership.SessionMembership) (task : Tasks.CoordinationTask)
    (actor : AgentInstanceId) (next : Tasks.CoordinationTaskState) : bool :=
  let moderator := actor == Membership.moderator_instance_id (Membership.governance m) in
  let assignee := Tasks.assigned_to task == Some actor in
  if (Tasks.state task == Tasks.TaskState.AwaitingReview)
     && (next == Tasks.TaskState.Completed) then moderator
  else if next == Tasks.TaskState.Cancelled
  then moderator || assignee || (Tasks.created_by task == actor)
  else assignee.

(** [CoordinationService::transition_task] *)
Definition transition_task (r : TransitionTaskRequest) (now : Z) : svc Tasks.CoordinationTask :=
  membership <~ session_membership_of (tt_session_id r);;
  perform ensure_available membership (tt_actor r);;
  task <~ task_of (tt_task_id r);;
  deny Tasks.session_id task != tt_session_id r with UnknownTask;;
  deny (Tasks.state task == Tasks.TaskState.Running)
       || (tt_next_state r == Tasks.TaskState.Running) with InvalidTask;;
  deny negb (may_transition membership task (tt_actor r) (tt_next_state r)) with UnauthorizedActor;;
  deny (tt_consumed_tokens r <? Tasks.consumed_tokens task)%Z
       || (Tasks.token_budget task <? tt_consumed_tokens r)%Z with InvalidTask;;
  revision <~ demand (checked_add u64_max (Tasks.revision task) 1) InvalidConfiguration;;
  let next := StoreTasks.put_task task (Tasks.assigned_to task) (tt_next_state r)
                (tt_consumed_tokens r) (Tasks.handoff_count task) revision now in
  perform commit_base (λ d, StoreTasks.update_task d next (Tasks.revision task));;
  eret next.

(** [CoordinationService::claim_task] *)
Definition claim_task (r : ClaimTaskRequest) (now : Z) : svc Tasks.TaskExecutionLease :=
  membership <~ session_membership_of (cl_session_id r);;
  perform ensure_available membership (cl_actor r);;
  task <~ task_of (cl_task_id r);;
  deny (Tasks.session_id task != cl_session_id r)
       || (Tasks.assigned_to task != Some (cl_actor r)) with UnauthorizedActor;;
  w <~ eget;;
  commit_base (λ d, StoreTasks.claim_task (drawn_token (clock w)) d (cl_task_id r) (cl_actor r)
    (cl_claim_owner_id r) now (cl_lease_seconds r)).

(** The states that end the execution of a claimed task. *)
Definition execution_boundary (s : Tasks.CoordinationTaskState) : bool :=
  match s with
  | Tasks.TaskState.Blocked | Tasks.TaskState.AwaitingReview | Tasks.TaskState.Completed
  | Tasks.TaskState.Failed | Tasks.TaskState.Cancelled => true
  | _ => false
  end.

(** [CoordinationService::finish_claimed_task] *)
Definition finish_claimed_task (r : FinishClaimedTaskRequest) (now : Z) :
    svc Tasks.CoordinationTask :=
  membership <~ session_membership_of (Tasks.l_session_id (fc_lease r));;
  perform ensure_available membership (Tasks.l_assignee (fc_lease r));;
  deny negb (execution_boundary (fc_next_state r)) with InvalidTask;;
  commit_base (λ d, StoreTasks.finish_task_lease d (fc_lease r) (fc_next_state r)
    (fc_consumed_tokens r) now).

(** [CoordinationService::cancel_task] *)
Definition cancel_task (r : CancelTaskRequest) (now : Z) : svc Tasks.CoordinationTask :=
  membership <~ session_membership_of (ca_session_id r);;
  perform ensure_available membership (ca_actor r);;
  task <~ task_of (ca_task_id r);;
  deny (Tasks.session_id task != ca_session_id r)
       || ((ca_actor r != Membership.moderator_instance_id (Membership.governance membership))
           && (Tasks.assigned_to task != Some (ca_actor r))
           && (Tasks.created_by task != ca_actor r)) with UnauthorizedActor;;
  commit_base (λ d, StoreTasks.cancel_task d (ca_task_id r) now).

(** ** Arbitration *)

(** [CoordinationService::decide_arbitration] *)
Definition decide_arbitration (decision : Arbitration.ModeratorDecision) (now : Z) :
    svc Arbitration.ArbitrationCase :=
  case <~ query (λ d, StoreArbitration.load_arbitration_case (base d)
                        (Arbitration.d_case_id decision));;
  case <~ demand case UnknownArbitration;;
  if Arbitration.state case == Arbitration.ArbitrationState.Applied then
    existing <~ query (λ d, StoreArbitration.load_moderator_decision (base d)
                              (Arbitration.d_case_id decision));;
    if existing == Some decision then eret case else efail IdempotencyConflict
  else
    deny Arbitration.state case != Arbitration.ArbitrationState.Open with InvalidArbitration;;
    membership <~ session_membership_of (Arbitration.session_id case);;
    t <~ topology_of (Arbitration.session_id case);;
    tasks <~ task_graph_of (Arbitration.session_id case)
      (Membership.membership_revision (Membership.governance membership));;
    commit_base (λ d, StoreArbitration.decide_arbitration d decision membership tasks
      (Topology.topology_revision t) now).

(** [CoordinationService::arbitration_case] *)
Definition arbitration_case (id : GovernanceCaseId) : svc (option Arbitration.ArbitrationCase) :=
  query (λ d, StoreArbitration.load_arbitration_case (base d) id).

(** [CoordinationService::active_arbitration_cases] *)
Definition service_active_cases (session : SessionId) : svc (list Arbitration.ArbitrationCase) :=
  query (λ d, StoreArbitration.active_arbitration_cases (base d) session).

(** [CoordinationService::applied_decision] *)
Definition applied_decision (case : Arbitration.ArbitrationCase) :
    svc Arbitration.ModeratorDecision :=
  deny Arbitration.state case != Arbitration.ArbitrationState.Applied with InvalidArbitration;;
  decision <~ query (λ d, StoreArbitration.load_moderator_decision (base d)
                            (Arbitration.case_id case));;
  demand decision InvalidDurableFacts.

(** [CoordinationService::current_arbitration], with the renewals that are left *)
Fixpoint current_arbitration_from (renewals : nat) (id : GovernanceCaseId) (now : Z) :
    svc (GovernanceCaseId * option Arbitration.ArbitrationCase) :=
  match renewals with
  | O => efail InvalidDurableFacts
  | S renewals =>
      case <~ query (λ d, StoreArbitration.load_arbitration_case (base d) id);;
      match case with
      | None => eret (id, None)
      | Some case =>
          let renew (expired : Arbitration.ArbitrationCase) :=
            current_arbitration_from renewals
              (governance_case_id "renewal"
                 (KeyRenewal (Arbitration.case_id expired) (Arbitration.revision expired)
                    (Arbitration.expires_at expired))
                 (Arbitration.membership_revision expired) (Arbitration.topology_revision expired))
              now in
          match Arbitration.state case with
          | Arbitration.ArbitrationState.Open =>
              if (Arbitration.expires_at case <=? now)%Z then
                expired <~ commit_base (λ d, StoreArbitration.expire_arbitration d
                  (Arbitration.case_id case) (Arbitration.revision case) now);;
                renew expired
              else eret (id, Some case)
          | Arbitration.ArbitrationState.Expired => renew case
          | _ => eret (id, Some case)
          end
      end
  end.

Definition current_arbitration (id : GovernanceCaseId) (now : Z) :
    svc (GovernanceCaseId * option Arbitration.ArbitrationCase) :=
  current_arbitration_from MAX_ARBITRATION_RENEWALS id now.

(** The new case of a request that needs the moderator. *)
Definition new_case (c : config) (id : GovernanceCaseId) (session : SessionId)
    (m : Membership.SessionMembership) (t : Topology.SessionTopology)
    (findings : list Governance.GovernanceFinding) (now : Z) : svc Arbitration.ArbitrationCase :=
  ttl <~ demand (i64_of_u64 (arbitration_ttl_seconds c)) InvalidConfiguration;;
  expires_at <~ demand (checked_add_i64 now ttl) InvalidConfiguration;;
  eret {|
    Arbitration.case_id := id; Arbitration.session_id := session;
    Arbitration.moderator_instance_id :=
      Membership.moderator_instance_id (Membership.governance m);
    Arbitration.membership_revision := Membership.membership_revision (Membership.governance m);
    Arbitration.topology_revision := Topology.topology_revision t;
    Arbitration.moderator_lease_epoch := Membership.lease_epoch (Membership.governance m);
    Arbitration.moderator_fencing_token := Membership.fencing_token (Membership.governance m);
    Arbitration.findings := findings; Arbitration.state := Arbitration.ArbitrationState.Open;
    Arbitration.revision := 0; Arbitration.expires_at := expires_at;
    Arbitration.created_at := now; Arbitration.updated_at := now |}.

(** How a request stands with its moderator. *)
Inductive authorization :=
  | Permitted (decision : option Arbitration.ModeratorDecision)
  | Pending (case : Arbitration.ArbitrationCase)
  | Rejected (case : Arbitration.ArbitrationCase) (decision : Arbitration.ModeratorDecision).

(** The arbitration that every governed request goes through when its assessment
    has findings: [sender] is who the notification comes from. *)
Definition moderate (c : config) (assessment : Governance.GovernanceAssessment)
    (prefix : string) (key : case_key) (session : SessionId) (sender : AgentInstanceId)
    (task : option TaskId) (m : Membership.SessionMembership) (t : Topology.SessionTopology)
    (now : Z) : svc authorization :=
  if Governance.permits_automatic_progress assessment then eret (Permitted None)
  else
    current <~ current_arbitration (governance_case_id prefix key
      (Membership.membership_revision (Membership.governance m))
      (Topology.topology_revision t)) now;;
    match current with
    | (_, Some case) =>
        if Arbitration.state case == Arbitration.ArbitrationState.Applied then
          decision <~ applied_decision case;;
          if Arbitration.is_continue (Arbitration.verdict decision)
          then eret (Permitted (Some decision)) else eret (Rejected case decision)
        else
          perform ensure_arbitration_notification sender task case m t;;
          eret (Pending case)
    | (id, None) =>
        case <~ new_case c id session m t (Governance.findings assessment) now;;
        perform commit_base (λ d, StoreArbitration.create_arbitration_case d case m t now);;
        perform ensure_arbitration_notification sender task case m t;;
        eret (Pending case)
    end.

(** ** Messages *)

(** [CoordinationService::coordination_message] *)
Definition coordination_message (id : CoordinationMessageId) :
    svc (option Mailbox.CoordinationMessage) :=
  query (λ d, StoreMessages.load_message (base d) id).

(** The window of observations that the policy looks at. *)
Definition observation_window (p : Governance.GovernancePolicy) : Z :=
  Z.max (Z.max (Governance.stagnation_window p) (Governance.handoff_ping_pong_window p)) 1.

Definition requested_message (r : DispatchMessageRequest) (t : Topology.SessionTopology)
    (route : list AgentInstanceId) (now : Z) : Mailbox.CoordinationMessage := {|
  Mailbox.message_id := dm_message_id r; Mailbox.session_id := dm_session_id r;
  Mailbox.sender_instance_id := dm_sender_instance_id r;
  Mailbox.recipient_instance_id := dm_recipient_instance_id r;
  Mailbox.task_id := dm_task_id r; Mailbox.kind := dm_kind r; Mailbox.payload := dm_payload r;
  Mailbox.topology_revision := Topology.topology_revision t; Mailbox.route := route;
  Mailbox.max_hops := dm_max_hops r; Mailbox.state := Mailbox.Delivery.Pending;
  Mailbox.delivery_attempts := 0; Mailbox.revision := 0;
  Mailbox.expires_at := dm_expires_at r; Mailbox.created_at := now; Mailbox.updated_at := now |}.

Definition enqueued (decision : option Arbitration.ModeratorDecision)
    (message : Mailbox.CoordinationMessage) : DispatchMessageOutcome :=
  match decision with
  | Some decision => EnqueuedByModerator message decision
  | None => Enqueued message
  end.

(** What follows the permission: the message that is stored, or the one that was. *)
Definition deliver (r : DispatchMessageRequest) (m : Membership.SessionMembership)
    (t : Topology.SessionTopology) (now : Z) : svc Mailbox.CoordinationMessage :=
  route <~ eres (map_err (λ e : Empty_set, match e with end)
    (Route.route_between t (dm_sender_instance_id r) (dm_recipient_instance_id r)));;
  route <~ demand route Unroutable;;
  let message := requested_message r t route now in
  perform lift InvalidDispatch (Mailbox.validate_new message t m now);;
  existing <~ query (λ d, StoreMessages.load_message (base d) (Mailbox.message_id message));;
  match existing with
  | Some existing =>
      if same_dispatch_intent existing message then eret existing else efail IdempotencyConflict
  | None =>
      perform commit_base (λ d, StoreMessages.enqueue_message d message m t now);;
      eret message
  end.

(** [CoordinationService::dispatch_message] *)
Definition dispatch_message (c : config) (r : DispatchMessageRequest) (now : Z) :
    svc DispatchMessageOutcome :=
  deny (arbitration_ttl_seconds c =? 0)%Z with InvalidConfiguration;;
  membership <~ session_membership_of (dm_session_id r);;
  perform lift InvalidDurableFacts (Membership.validate membership);;
  perform ensure_available membership (dm_sender_instance_id r);;
  perform ensure_available membership (dm_recipient_instance_id r);;
  t <~ topology_of (dm_session_id r);;
  perform lift InvalidDurableFacts (Topology.validate t membership);;
  tasks <~ task_graph_of (dm_session_id r)
    (Membership.membership_revision (Membership.governance membership));;
  perform lift InvalidDurableFacts (Tasks.validate tasks membership);;
  deny match dm_task_id r with
       | Some id => negb (existsb (λ task, Tasks.task_id task == id) (Tasks.tasks tasks))
       | None => false
       end with UnknownTask;;
  observations <~ query_res (λ d, StoreFacts.governance_observations (base d) (dm_session_id r)
    (observation_window (policy c)));;
  assessment <~ assess (policy c) membership t tasks observations;;
  permission <~ moderate c assessment "message" (KeyMessage r) (dm_session_id r)
    (dm_sender_instance_id r) (dm_task_id r) membership t now;;
  match permission with
  | Permitted decision =>
      message <~ deliver r membership t now;;
      eret (enqueued decision message)
  | Pending case => eret (DispatchRequiresArbitration case assessment)
  | Rejected case decision => eret (DispatchRejectedByModerator case decision)
  end.

(** [CoordinationService::claim_next_message] *)
Definition claim_next_message (c : config) (recipient : AgentInstanceId) (now lease_seconds : Z) :
    svc (option Mailbox.MessageClaim) :=
  deny (Governance.max_message_delivery_attempts (policy c) =? 0)%Z with InvalidConfiguration;;
  claim <~ commit_base (λ d, StoreMessages.claim_message d recipient now lease_seconds);;
  match claim with
  | None => eret None
  | Some claim =>
      if (Governance.max_message_delivery_attempts (policy c) <?
          Mailbox.delivery_attempts (Mailbox.message claim))%Z then
        perform commit_base (λ d, StoreMessages.finish_message_claim d
          (Mailbox.message_id (Mailbox.message claim)) recipient (Mailbox.lease_epoch claim)
          Mailbox.Delivery.DeadLetter now);;
        eret None
      else eret (Some claim)
  end.

(** [CoordinationService::mark_message_delivered] *)
Definition mark_message_delivered (claim : Mailbox.MessageClaim) (now : Z) :
    svc Mailbox.CoordinationMessage :=
  commit_base (λ d, StoreMessages.finish_message_claim d
    (Mailbox.message_id (Mailbox.message claim))
    (Mailbox.recipient_instance_id (Mailbox.message claim)) (Mailbox.lease_epoch claim)
    Mailbox.Delivery.Delivered now).

(** [CoordinationService::prepare_message_turn] *)
Definition service_prepare_turn (claim : Mailbox.MessageClaim) (turn : string) (now : Z) :
    svc (Mailbox.CoordinationMessage * Mailbox.AgentMessageTurn) :=
  commit_base (λ d, StoreMessages.prepare_message_turn d claim turn now).

(** [CoordinationService::escalate_mailbox_turn] *)
Definition escalate_mailbox_turn (c : config) (message : Mailbox.CoordinationMessage)
    (receipt : Mailbox.AgentMessageTurn) (now : Z) : svc Arbitration.ArbitrationCase :=
  deny (Mailbox.message_id message != Mailbox.mt_message_id receipt)
       || (Mailbox.session_id message != Mailbox.mt_session_id receipt)
       || (Mailbox.recipient_instance_id message != Mailbox.mt_recipient_instance_id receipt)
    with InvalidDispatch;;
  membership <~ session_membership_of (Mailbox.session_id message);;
  t <~ topology_of (Mailbox.session_id message);;
  current <~ current_arbitration (governance_case_id "mailbox-turn"
    (KeyTurn (Mailbox.message_id message) (Mailbox.turn_id receipt))
    (Membership.membership_revision (Membership.governance membership))
    (Topology.topology_revision t)) now;;
  case <~ match current with
    | (_, Some existing) => eret existing
    | (id, None) =>
        case <~ new_case c id (Mailbox.session_id message) membership t
          [Governance.MailboxTurnUnresolved (Mailbox.recipient_instance_id message)
             (Mailbox.message_id message)] now;;
        perform commit_base (λ d, StoreArbitration.create_arbitration_case d case membership t now);;
        eret case
    end;;
  perform ensure_arbitration_notification (Mailbox.recipient_instance_id message)
    (Mailbox.task_id message) case membership t;;
  eret case.

(** [CoordinationService::acknowledge_message] *)
Definition acknowledge_message (message : Mailbox.CoordinationMessage)
    (recipient : AgentInstanceId) (now : Z) : svc Mailbox.CoordinationMessage :=
  commit_base (λ d, StoreMessages.acknowledge_message d (Mailbox.message_id message) recipient
    (Mailbox.revision message) now).

(** ** Handoffs *)

(** [same_handoff_intent] *)
Definition same_handoff_intent (existing proposed : Handoff.TaskHandoff) : bool :=
  (Handoff.handoff_id existing == Handoff.handoff_id proposed)
  && (Handoff.session_id existing == Handoff.session_id proposed)
  && (Handoff.task_id existing == Handoff.task_id proposed)
  && (Handoff.from_instance_id existing == Handoff.from_instance_id proposed)
  && (Handoff.to_instance_id existing == Handoff.to_instance_id proposed)
  && (Handoff.requested_by existing == Handoff.requested_by proposed)
  && (Handoff.arbitrator_instance_id existing == Handoff.arbitrator_instance_id proposed)
  && (Handoff.task_revision existing =? Handoff.task_revision proposed)%Z
  && (Handoff.topology_revision existing =? Handoff.topology_revision proposed)%Z
  && (Handoff.reason existing == Handoff.reason proposed)
  && (Handoff.expires_at existing =? Handoff.expires_at proposed)%Z.

Definition requested_handoff (r : ProposeHandoffRequest) (arbitrator : AgentInstanceId)
    (task : Tasks.CoordinationTask) (t : Topology.SessionTopology) (now : Z) :
    Handoff.TaskHandoff := {|
  Handoff.handoff_id := ph_handoff_id r; Handoff.session_id := ph_session_id r;
  Handoff.task_id := ph_task_id r; Handoff.from_instance_id := ph_from_instance_id r;
  Handoff.to_instance_id := ph_to_instance_id r; Handoff.requested_by := ph_requested_by r;
  Handoff.arbitrator_instance_id := arbitrator; Handoff.task_revision := Tasks.revision task;
  Handoff.topology_revision := Topology.topology_revision t; Handoff.reason := ph_reason r;
  Handoff.state := Handoff.State.Proposed; Handoff.revision := 0;
  Handoff.expires_at := ph_expires_at r; Handoff.created_at := now; Handoff.updated_at := now |}.

(** [CoordinationService::propose_handoff] *)
Definition propose_handoff (r : ProposeHandoffRequest) (now : Z) : svc Handoff.TaskHandoff :=
  membership <~ session_membership_of (ph_session_id r);;
  perform lift InvalidDurableFacts (Membership.validate membership);;
  perform ensure_available membership (ph_from_instance_id r);;
  perform ensure_available membership (ph_to_instance_id r);;
  perform ensure_available membership (ph_requested_by r);;
  t <~ topology_of (ph_session_id r);;
  perform lift InvalidDurableFacts (Topology.validate t membership);;
  task <~ task_of (ph_task_id r);;
  arbitrator <~ eres (map_err (λ e : Empty_set, match e with end)
    (Topology.arbitrator_for t (ph_from_instance_id r) (ph_to_instance_id r) membership));;
  perform ensure_available membership arbitrator;;
  let proposal := requested_handoff r arbitrator task t now in
  perform lift InvalidHandoff (Handoff.validate_proposal proposal task t membership now);;
  existing <~ query (λ d, StoreHandoffs.load_handoff (base d) (Handoff.handoff_id proposal));;
  durable <~ match existing with
    | Some existing =>
        deny negb (same_handoff_intent existing proposal) with IdempotencyConflict;;
        eret existing
    | None =>
        perform commit_base (λ d, StoreHandoffs.create_handoff d proposal membership t now);;
        eret proposal
    end;;
  if Handoff.state durable == Handoff.State.Proposed then
    commit_base (λ d, StoreHandoffs.transition_handoff d (Handoff.handoff_id durable)
      (Handoff.requested_by durable) Handoff.State.AwaitingArbitration (Handoff.revision durable) now)
  else eret durable.

(** [CoordinationService::decide_handoff] *)
Definition decide_handoff (session : SessionId) (id : Handoff.HandoffId)
    (arbitrator : AgentInstanceId) (accept : bool) (now : Z) : svc Handoff.TaskHandoff :=
  handoff <~ query (λ d, StoreHandoffs.load_handoff (base d) id);;
  handoff <~ demand handoff UnknownHandoff;;
  deny Handoff.session_id handoff != session with UnknownHandoff;;
  deny Handoff.arbitrator_instance_id handoff != arbitrator with UnauthorizedArbitrator;;
  let intended := if accept then Handoff.State.Accepted else Handoff.State.Rejected in
  if Handoff.state handoff == intended then eret handoff
  else
    deny Handoff.state handoff != Handoff.State.AwaitingArbitration with InvalidHandoff;;
    commit_base (λ d, StoreHandoffs.transition_handoff d id arbitrator intended
      (Handoff.revision handoff) now).

(** ** Relations *)

(** The relation that a request asks for is there already; a peer edge counts in
    both directions. *)
Definition related (t : Topology.SessionTopology) (r : RelateAgentsRequest) : bool :=
  existsb (λ e, (Topology.kind e == ra_kind r) &&
    ((Topology.source e == ra_source r) && (Topology.target e == ra_target r)
     || (ra_kind r == Topology.Peer) && (Topology.source e == ra_target r)
        && (Topology.target e == ra_source r))) (Topology.relations t).

(** [CoordinationService::relate_agents] *)
Definition relate_agents (c : config) (r : RelateAgentsRequest) (now : Z) :
    svc RelateAgentsOutcome :=
  deny (ra_kind r == Topology.ParentOf) || (ra_source r == ra_target r) with InvalidAgentSpawn;;
  membership <~ session_membership_of (ra_session_id r);;
  perform ensure_available membership (ra_requested_by r);;
  perform ensure_available membership (ra_source r);;
  perform ensure_available membership (ra_target r);;
  deny (ra_requested_by r != ra_source r)
       && (ra_requested_by r != Membership.moderator_instance_id (Membership.governance membership))
    with UnauthorizedActor;;
  t <~ topology_of (ra_session_id r);;
  if related t r then eret (RelationApplied t)
  else
    let proposed := {| Topology.source := ra_source r; Topology.target := ra_target r;
                       Topology.kind := ra_kind r; Topology.r_created_at := now |} in
    next_revision <~ demand (checked_add u64_max (Topology.topology_revision t) 1)
      InvalidAgentSpawn;;
    next <~ lift InvalidAgentSpawn (Topology.new (ra_session_id r)
      (Membership.membership_revision (Membership.governance membership)) next_revision
      (Topology.relations t ++ [proposed]) now membership);;
    tasks <~ task_graph_of (ra_session_id r)
      (Membership.membership_revision (Membership.governance membership));;
    observations <~ query_res (λ d, StoreFacts.governance_observations (base d) (ra_session_id r)
      (observation_window (policy c)));;
    assessment <~ assess (policy c) membership next tasks observations;;
    permission <~ moderate c assessment "relate" (KeyRelate r) (ra_session_id r)
      (ra_requested_by r) None membership t now;;
    match permission with
    | Permitted decision =>
        perform commit_base (λ d, StoreFacts.save_topology d next membership
          (Some (Topology.topology_revision t)));;
        eret (match decision with
              | Some decision => RelationAppliedByModerator next decision
              | None => RelationApplied next
              end)
    | Pending case => eret (RelationRequiresArbitration case assessment)
    | Rejected case decision => eret (RelationRejectedByModerator case decision)
    end.

(** ** New agents *)

(** The proposal to append a participant below its sponsor. *)
Record spawn := {
  sp_membership : Membership.SessionMembership;
  sp_topology : Topology.SessionTopology;
  sp_assessment : Governance.GovernanceAssessment;
}.

(** What [fork_agent] and [define_agent] do with a new participant before they
    ask the moderator: the next membership, topology and task graph are validated
    and assessed. *)
Definition propose_spawn (c : config) (session : SessionId) (sponsor : AgentInstanceId)
    (participant : AgentInstance) (m : Membership.SessionMembership)
    (t : Topology.SessionTopology) (now : Z) : svc spawn :=
  let g := Membership.governance m in
  next_membership_revision <~ demand (checked_add u64_max (Membership.membership_revision g) 1)
    InvalidAgentSpawn;;
  next_membership <~ lift InvalidAgentSpawn (Membership.new session
    (Membership.participants m ++ [participant]) {|
      Membership.g_session_id := Membership.g_session_id g;
      Membership.moderator_instance_id := Membership.moderator_instance_id g;
      Membership.governance_revision := Membership.governance_revision g;
      Membership.membership_revision := next_membership_revision;
      Membership.lease_epoch := Membership.lease_epoch g;
      Membership.fencing_token := Membership.fencing_token g;
      Membership.g_updated_at := now |});;
  next_topology_revision <~ demand (checked_add u64_max (Topology.topology_revision t) 1)
    InvalidAgentSpawn;;
  next_topology <~ lift InvalidAgentSpawn (Topology.new session next_membership_revision
    next_topology_revision (Topology.relations t ++ [{|
      Topology.source := sponsor; Topology.target := instance_id participant;
      Topology.kind := Topology.ParentOf; Topology.r_created_at := now |}]) now next_membership);;
  tasks <~ task_graph_of session next_membership_revision;;
  let tasks := {|
    Tasks.g_session_id := Tasks.g_session_id tasks;
    Tasks.g_membership_revision := next_membership_revision;
    Tasks.tasks := (λ task, StoreArbitration.rebased task next_membership_revision)
                     <$> Tasks.tasks tasks;
    Tasks.dependencies := Tasks.dependencies tasks |} in
  perform lift InvalidDurableFacts (Tasks.validate tasks next_membership);;
  observations <~ query_res (λ d, StoreFacts.governance_observations (base d) session
    (observation_window (policy c)));;
  assessment <~ assess (policy c) next_membership next_topology tasks observations;;
  eret {| sp_membership := next_membership; sp_topology := next_topology;
          sp_assessment := assessment |}.

(** The append that follows the permission. *)
Definition commit_spawn (participant : AgentInstance) (seed : AgentInstanceConfigSeed)
    (s : spawn) (m : Membership.SessionMembership) (t : Topology.SessionTopology) :
    svc AgentInstance :=
  call (λ d, add_session_participant d participant seed (sp_membership s) (sp_topology s)
    (Membership.membership_revision (Membership.governance m)) (Topology.topology_revision t)).

(** [same_fork_intent] *)
Definition same_fork_intent (existing parent : AgentInstance) (r : ForkAgentRequest) : bool :=
  (ai_session_id existing == fa_session_id r) && (definition existing == definition parent)
  && (role existing == Worker) && (capability_revision existing == capability_revision parent)
  && match origin existing with Forked i _ => i == fa_parent_instance_id r | _ => false end
  && match history_view existing with
     | ForkSnapshot _ branch => branch == fa_branch_id r
     | _ => false
     end
  && (approval_route existing == RouteParent (fa_parent_instance_id r)).

(** The sequence numbers of the forks of an agent. *)
Definition fork_sequences (m : Membership.SessionMembership) (parent : AgentInstanceId) : list Z :=
  omap (λ p, match origin p with
             | Forked i sequence => if i == parent then Some sequence else None
             | _ => None
             end) (Membership.participants m).

Definition forked_participant (r : ForkAgentRequest) (parent : AgentInstance)
    (fork_sequence now : Z) : AgentInstance := {|
  instance_id := fa_instance_id r; ai_session_id := fa_session_id r;
  definition := definition parent; origin := Forked (fa_parent_instance_id r) fork_sequence;
  role := Worker; history_view := ForkSnapshot 0 (fa_branch_id r);
  approval_route := RouteParent (fa_parent_instance_id r); ai_state := InstanceState.Created;
  lifecycle_revision := 0; capability_revision := capability_revision parent;
  ai_created_at := now; ai_updated_at := now |}.

(** [CoordinationService::fork_agent] *)
Definition fork_agent (c : config) (r : ForkAgentRequest) (now : Z) : svc ForkAgentOutcome :=
  deny trim_is_empty (fa_branch_id r) || (256 <? Z.of_nat (String.length (fa_branch_id r)))%Z
    with InvalidAgentSpawn;;
  membership <~ session_membership_of (fa_session_id r);;
  parent <~ demand (Membership.find_participant (Membership.participants membership)
    (fa_parent_instance_id r)) UnknownAgent;;
  perform ensure_available membership (fa_parent_instance_id r);;
  match Membership.find_participant (Membership.participants membership) (fa_instance_id r) with
  | Some existing =>
      perform ensure_available membership (instance_id existing);;
      if same_fork_intent existing parent r then eret (ForkCreated existing)
      else efail IdempotencyConflict
  | None =>
      t <~ topology_of (fa_session_id r);;
      fork_sequence <~ demand (checked_add u64_max
        (match fork_sequences membership (fa_parent_instance_id r) with
         | [] => 0%Z
         | x :: xs => foldr Z.max x xs
         end) 1) InvalidAgentSpawn;;
      let participant := forked_participant r parent fork_sequence now in
      s <~ propose_spawn c (fa_session_id r) (fa_parent_instance_id r) participant membership t now;;
      permission <~ moderate c (sp_assessment s) "fork" (KeyFork r) (fa_session_id r)
        (fa_parent_instance_id r) None membership t now;;
      match permission with
      | Permitted decision =>
          participant <~ commit_spawn participant (InheritFrom (fa_parent_instance_id r)) s
            membership t;;
          eret (match decision with
                | Some decision => ForkCreatedByModerator participant decision
                | None => ForkCreated participant
                end)
      | Pending case => eret (ForkRequiresArbitration case (sp_assessment s))
      | Rejected case decision => eret (ForkRejectedByModerator case decision)
      end
  end.

(** [CoordinationService::mark_agent_ready] *)
Definition mark_agent_ready (p : AgentInstance) (now : Z) : svc AgentInstance :=
  if ai_state p != InstanceState.Created then eret p
  else call (λ d, transition_agent_instance d (ai_session_id p) (instance_id p)
    (lifecycle_revision p) InstanceState.Ready now).

(** [same_defined_intent] *)
Definition same_defined_intent (existing : AgentInstance) (c : option AgentInstanceConfig)
    (r : DefineAgentRequest) (m : Membership.SessionMembership) : bool :=
  (ai_session_id existing == da_session_id r) && (definition existing == da_definition r)
  && (origin existing == Defined) && (role existing == da_role r)
  && (capability_revision existing == da_capability_revision r)
  && (history_view existing == SharedLane 0)
  && (approval_route existing ==
        RouteModerator (Membership.moderator_instance_id (Membership.governance m)))
  && match c with
     | Some c => (config_revision c =? 0)%Z && (effective c == da_effective_config r)
     | None => false
     end.

Definition defined_participant (r : DefineAgentRequest) (m : Membership.SessionMembership)
    (now : Z) : AgentInstance := {|
  instance_id := da_instance_id r; ai_session_id := da_session_id r;
  definition := da_definition r; origin := Defined; role := da_role r;
  history_view := SharedLane 0;
  approval_route := RouteModerator (Membership.moderator_instance_id (Membership.governance m));
  ai_state := InstanceState.Created; lifecycle_revision := 0;
  capability_revision := da_capability_revision r; ai_created_at := now; ai_updated_at := now |}.

(** [CoordinationService::define_agent] *)
Definition define_agent (c : config) (r : DefineAgentRequest) (now : Z) : svc DefineAgentOutcome :=
  deny is_root_moderator (da_role r) || trim_is_empty (da_capability_revision r)
       || (ec_agent_id (da_effective_config r) != agent_id (da_definition r))
       || negb (ec_agent_revision (da_effective_config r) =?
                definition_revision (da_definition r))%Z with InvalidAgentSpawn;;
  membership <~ session_membership_of (da_session_id r);;
  perform ensure_available membership (da_sponsor_instance_id r);;
  match Membership.find_participant (Membership.participants membership) (da_instance_id r) with
  | Some existing =>
      perform ensure_available membership (instance_id existing);;
      config <~ query (λ d, load_agent_instance_config d (da_session_id r) (da_instance_id r));;
      if same_defined_intent existing config r membership then eret (DefineCreated existing)
      else efail IdempotencyConflict
  | None =>
      t <~ topology_of (da_session_id r);;
      let participant := defined_participant r membership now in
      s <~ propose_spawn c (da_session_id r) (da_sponsor_instance_id r) participant membership t now;;
      permission <~ moderate c (sp_assessment s) "define" (KeyDefine r) (da_session_id r)
        (da_sponsor_instance_id r) None membership t now;;
      match permission with
      | Permitted decision =>
          participant <~ commit_spawn participant (Exact {|
            cfg_session_id := da_session_id r; cfg_instance_id := da_instance_id r;
            config_revision := 0; effective := da_effective_config r; cfg_updated_at := now |}) s
            membership t;;
          eret (match decision with
                | Some decision => DefineCreatedByModerator participant decision
                | None => DefineCreated participant
                end)
      | Pending case => eret (DefineRequiresArbitration case (sp_assessment s))
      | Rejected case decision => eret (DefineRejectedByModerator case decision)
      end
  end.

End service.
