(* ===== verification/ServiceFacts.v ===== *)
(** The coordination service over the store: every method is a run of store
    operations.

    [serves start P c Q] specifies a method that began at the database [start]:
    from a well-formed database reached from it, where [P] holds, the method
    reaches its last database by legal operations, its own and those of other
    callers, and a value it returns satisfies [Q] there. *)

From S2P Require Import Prelude Graph Effects Instance Store StoreRun.
From S2P Require Membership Topology Route Tasks Mailbox Handoff Governance Arbitration.
From S2P Require StoreTasks StoreMessages StoreHandoffs StoreArbitration StoreFacts.
From S2P Require Import WorkspaceStore InstanceStore InstanceStoreFacts InstanceStoreRun InstanceStoreSave.
From S2P Require Import StoreSystem StoreHistory Service.
From stdpp Require Import base tactics gmap strings list relations.
From Stdlib Require Import ZArith Lia.

(** The other callers go through the stores too. *)
Class FaithfulPorts `{!HashOrder, !ServicePorts} : Prop := {
  env_legal : ∀ n d, durable_ok d → durable_legal_run d (env n d);
}.

Section specs.
Context `{Hhash : !HashOrder} `{Hports : !ServicePorts} `{Hfaithful : !FaithfulPorts}.

(** ** Specifications *)

Section start.
Context (start : sdb).

Definition serves {A} (P : sdb → Prop) (c : svc A) (Q : A → sdb → Prop) : Prop :=
  ∀ w, reaches start (data w) → durable_ok (data w) → P (data w) →
    reaches (data w) (data (c w).1) ∧
    match (c w).2 with Ok a => Q a (data (c w).1) | Err _ => True | Panic | Diverge => False end.

Lemma serves_ret {A} (P : sdb → Prop) (a : A) (Q : A → sdb → Prop) :
  (∀ d, reaches start d → durable_ok d → P d → Q a d) → serves P (eret a) Q.
Proof using. intros H w Hr Hok HP. split; [done|]. by apply H. Qed.

Lemma serves_fail {A} P e (Q : A → sdb → Prop) : serves P (efail e) Q.
Proof using. by intros w _ _ _. Qed.

Lemma serves_bind {A B} P (c : svc A) (k : A → svc B) Q' Q :
  serves P c Q' → (∀ a, serves (Q' a) (k a) Q) → serves P (ebind c k) Q.
Proof using.
  intros Hc Hk w Hs Hok HP. destruct (Hc w Hs Hok HP) as [Hr HQ]. unfold ebind.
  destruct (c w) as [w1 [a|e| |]]; simpl in *; try done.
  destruct (Hk a w1) as [Hr' HQ']; [by etrans|by eapply reaches_ok|done|].
  split; [by etrans|done].
Qed.

Lemma serves_conseq {A} (P P' : sdb → Prop) (c : svc A) (Q Q' : A → sdb → Prop) :
  serves P' c Q' → (∀ d, durable_ok d → P d → P' d) → (∀ a d, durable_ok d → Q' a d → Q a d) →
  serves P c Q.
Proof using.
  intros Hc HP HQ w Hs Hok Hp. destruct (Hc w Hs Hok) as [Hr Hq]; [by apply HP|].
  split; [done|]. assert (durable_ok (data (c w).1)) as Hok' by by eapply reaches_ok.
  destruct (c w).2; auto.
Qed.

Lemma serves_post {A} P (c : svc A) (Q Q' : A → sdb → Prop) :
  serves P c Q' → (∀ a d, durable_ok d → Q' a d → Q a d) → serves P c Q.
Proof using. intros Hc HQ. by eapply serves_conseq; [exact Hc|done|]. Qed.

(** A stable fact is still known afterwards. *)
Lemma serves_frame {A} (F P : sdb → Prop) (c : svc A) (Q : A → sdb → Prop) :
  stable F → serves P c Q → serves (λ d, F d ∧ P d) c (λ a d, F d ∧ Q a d).
Proof using.
  intros HF Hc w Hs Hok [Hf HP]. destruct (Hc w Hs Hok HP) as [Hr HQ].
  split; [done|]. assert (F (data (c w).1)) as Hf' by by apply (HF (data w)).
  destruct (c w).2; auto.
Qed.

Lemma serves_keep {A} (P : sdb → Prop) (c : svc A) (Q : A → sdb → Prop) :
  stable P → serves (λ _, True) c Q → serves P c (λ a d, P d ∧ Q a d).
Proof using.
  intros HP Hc. eapply serves_conseq; [by apply (serves_frame P), Hc|done|done].
Qed.

Lemma serves_pure {A} (φ : Prop) P (c : svc A) Q :
  (φ → serves P c Q) → serves (λ d, P d ∧ φ) c Q.
Proof using. intros H w Hs Hok [HP Hφ]. by apply (H Hφ). Qed.

(** *** Steps of a method *)

Lemma serves_res {A} (P : sdb → Prop) (r : res A CoordinationServiceError) :
  returns r → serves P (eres r) (λ a d, P d ∧ r = Ok a).
Proof using. intros Hr w _ _ HP. split; [done|]. by destruct r. Qed.

Lemma serves_lift {A E} P e (r : res A E) :
  returns r → serves P (lift e r) (λ a d, P d ∧ r = Ok a).
Proof using. intros Hr w _ _ HP. split; [done|]. by destruct r. Qed.

Lemma serves_demand {A} P (o : option A) e : serves P (demand o e) (λ a d, P d ∧ o = Some a).
Proof using. intros w _ _ HP. split; [done|]. by destruct o. Qed.

Lemma serves_deny {B} P b e (k : svc B) Q :
  (b = false → serves P k Q) → serves P (deny b with e;; k) Q.
Proof using.
  intros H. destruct b; [by intros w _ _ _|]. by apply H.
Qed.

Lemma serves_get P : serves P eget (λ _ d, P d).
Proof using. by intros w _ _ HP. Qed.

Lemma arrive_reaches w : durable_ok (data w) → reaches (data w) (data (arrive w)).
Proof using Hfaithful. intros Hok. eexists. split; [by apply env_legal|done]. Qed.

Lemma serves_query {A} P (f : sdb → A) :
  stable P → serves P (query f) (λ a d, P d ∧ f d = a).
Proof using Hfaithful.
  intros HP w Hs Hok Hp. pose proof (arrive_reaches w Hok) as Hr. split; [done|].
  split; [by apply (HP (data w))|done].
Qed.

Lemma serves_call {A} P (f : sdb → stx A) :
  stable P →
  (∀ d, durable_ok d → P d → ends (f d)) →
  (∀ d a d', reaches start d → durable_ok d → P d → f d = Ok (a, d') → reaches d d') →
  serves P (call f) (λ a d, ∃ d0, reaches start d0 ∧ durable_ok d0 ∧ P d0 ∧ f d0 = Ok (a, d)).
Proof using Hfaithful.
  intros HP He Hf w Hs Hok Hp. pose proof (arrive_reaches w Hok) as Hr.
  assert (durable_ok (data (arrive w))) as Hok' by by eapply reaches_ok.
  assert (P (data (arrive w))) as Hp' by by apply (HP (data w)).
  assert (reaches start (data (arrive w))) as Hs' by by etrans.
  pose proof (He _ Hok' Hp') as Hends.
  unfold call. destruct (f (data (arrive w))) as [[a d']|e| |] eqn:Ef; simpl; try done.
  split; [etrans; [done|by eapply Hf]|]. by exists (data (arrive w)).
Qed.

Lemma serves_query_res {A} P (f : sdb → res A SessionStoreError) :
  stable P → (∀ d, ends (f d)) → serves P (query_res f) (λ a d, P d ∧ f d = Ok a).
Proof using Hfaithful.
  intros HP He. eapply serves_conseq; [apply serves_call; [exact HP| |]|done|].
  - intros d _ _. by apply ends_bind.
  - intros d a d' _ _ _ H. by apply res_bind_ok in H as (x & _ & [= _ <-]).
  - intros a d _ (d0 & _ & _ & Hp & H). apply res_bind_ok in H as (x & Hx & [= <- <-]).
    by split.
Qed.

(** A call of an operation of the coordination store. *)
Lemma serves_commit {A} P (f : db → tx A) (op : db → coordination_op) :
  stable P → (∀ b, ends (f b)) →
  (∀ d, durable_ok d → P d → legal (base d) (op (base d)) ∧
     commit (base d) (op (base d)) = (run (base d) (f (base d))).2) →
  serves P (commit_base f) (λ a d, ∃ d0, reaches start d0 ∧ durable_ok d0 ∧ P d0 ∧
    f (base d0) = Ok (a, base d) ∧ d = set_base d0 (base d) ∧ reaches d0 d).
Proof using Hfaithful.
  intros HP He Hop.
  assert (∀ d a d', durable_ok d → P d → on_base f d = Ok (a, d') →
    f (base d) = Ok (a, base d') ∧ d' = set_base d (base d') ∧ reaches d d') as Hf.
  { intros d a d' Hok Hp H. unfold on_base in H. apply res_bind_ok in H as ([x b] & Hx & [= <- <-]).
    destruct (Hop d Hok Hp) as [Hl Hc]. split_and!; [done|done|].
    by apply (reaches_commit d (op (base d)) (f (base d)) x). }
  eapply serves_conseq; [apply serves_call; [exact HP| |]|done|].
  - intros d _ _. by apply ends_bind.
  - intros d a d' _ Hok Hp H. by eapply Hf.
  - intros a d _ (d0 & ? & ? & ? & H). exists d0. split_and!; try done; by apply (Hf d0 a d).
Qed.

End start.

(** ** Methods that only need their calls to be legal *)

(** The method answers, and its value has [φ]. *)
Definition yields {A} (c : svc A) (φ : A → Prop) : Prop :=
  ∀ start, serves start (λ _, True) c (λ a _, φ a).

#[local] Notation tame c := (yields c (λ _, True)).

Lemma yields_bind {A B} (c : svc A) (k : A → svc B) φ ψ :
  yields c φ → (∀ a, φ a → yields (k a) ψ) → yields (ebind c k) ψ.
Proof using.
  intros Hc Hk start. eapply serves_bind; [apply Hc|].
  intros a w Hs Hok Hφ. by apply (Hk a Hφ start).
Qed.

Lemma yields_tame {A} (c : svc A) φ : yields c φ → tame c.
Proof using. intros Hc start. by eapply serves_conseq; [apply Hc|..]. Qed.

Lemma tame_ret {A} (a : A) : tame (eret a).
Proof using. intros start. by apply serves_ret. Qed.
Lemma tame_fail {A} e : tame (@efail _ _ A e).
Proof using. intros start. apply serves_fail. Qed.
Lemma yields_res {A} (r : res A CoordinationServiceError) :
  returns r → yields (eres r) (λ a, r = Ok a).
Proof using. intros Hr start. eapply serves_conseq; [by apply serves_res|done|]. by intros ? ? _ []. Qed.
Lemma yields_lift {A E} e (r : res A E) : returns r → yields (lift e r) (λ a, r = Ok a).
Proof using. intros Hr start. eapply serves_conseq; [by apply serves_lift|done|]. by intros ? ? _ []. Qed.
Lemma yields_demand {A} (o : option A) e : yields (demand o e) (λ a, o = Some a).
Proof using. intros start. eapply serves_conseq; [by apply serves_demand|done|]. by intros ? ? _ []. Qed.
Lemma yields_refuse b e : yields (refuse b e) (λ _, b = false).
Proof using. intros start. destruct b; [apply serves_fail|by apply serves_ret]. Qed.
Lemma tame_get : tame eget.
Proof using. intros start. apply serves_get. Qed.
Lemma tame_query {A} (f : sdb → A) : tame (query f).
Proof using Hfaithful.
  intros start. by eapply serves_conseq; [apply (serves_query _ (λ _, True)), stable_true|..].
Qed.
Lemma tame_query_res {A} (f : sdb → res A SessionStoreError) :
  (∀ d, ends (f d)) → tame (query_res f).
Proof using Hfaithful.
  intros He start.
  by eapply serves_conseq; [apply (serves_query_res _ (λ _, True)); [apply stable_true|done]|..].
Qed.

Lemma tame_call {A} (f : sdb → stx A) :
  (∀ d, ends (f d)) → (∀ d a d', durable_ok d → f d = Ok (a, d') → reaches d d') → tame (call f).
Proof using Hfaithful.
  intros He Hf start.
  eapply serves_conseq; [apply (serves_call _ (λ _, True)); [apply stable_true|eauto..]|done..].
Qed.

Lemma tame_commit {A} (f : db → tx A) (op : db → coordination_op) :
  (∀ b, ends (f b)) → (∀ b, legal b (op b) ∧ commit b (op b) = (run b (f b)).2) →
  tame (commit_base f).
Proof using Hfaithful.
  intros He Hop start.
  eapply serves_conseq; [apply (serves_commit _ (λ _, True) _ op); [apply stable_true|eauto..]|done..].
Qed.

End specs.

(** What validated facts give. *)
Lemma validated_governed `{!HashOrder} t m :
  Membership.validate m = Ok tt → Topology.validate t m = Ok tt → Topology.governed t m.
Proof.
  intros Hm. apply Topology.validate_governed_iff.
  by apply Membership.moderator_in_members, Membership.validate_well_formed.
Qed.

Lemma validated_topology_returns `{!HashOrder} t m :
  Membership.validate m = Ok tt → returns (Topology.validate t m).
Proof.
  intros Hm. apply Topology.validate_topology_returns.
  by apply Membership.moderator_in_members, Membership.validate_well_formed.
Qed.

Lemma new_membership_valid s ps g m : Membership.new s ps g = Ok m → Membership.validate m = Ok tt.
Proof. intros Hx. by apply res_bind_ok in Hx as ([] & ? & [= <-]). Qed.

Lemma new_membership_returns s ps g : returns (Membership.new s ps g).
Proof. apply returns_bind; [apply Membership.validate_membership_returns|done]. Qed.

Lemma new_topology_governed `{!HashOrder} s mr tr rs now m t :
  Membership.validate m = Ok tt → Topology.new s mr tr rs now m = Ok t → Topology.governed t m.
Proof.
  intros Hm Hx. apply res_bind_ok in Hx as ([] & ? & [= <-]). by apply validated_governed.
Qed.

Lemma new_topology_returns `{!HashOrder} s mr tr rs now m :
  Membership.validate m = Ok tt → returns (Topology.new s mr tr rs now m).
Proof. intros Hm. apply returns_bind; [by apply validated_topology_returns|done]. Qed.

#[export] Hint Resolve validated_topology_returns new_membership_returns new_topology_returns
  Tasks.validate_graph_returns Route.route_between_returns Topology.arbitrator_for_returns
  Handoff.validate_proposal_returns validated_governed new_topology_governed
  new_membership_valid new_topology_returns : res_db.

Notation tame c := (yields c (λ _, True)).

Create HintDb svc_db.
#[export] Hint Resolve tame_ret tame_fail tame_get tame_query : svc_db.
#[export] Hint Resolve yields_res yields_lift yields_demand yields_refuse | 1 : svc_db.
#[export] Hint Extern 1 (returns _) => solve [eauto with res_db] : svc_db.

(** Goes through a method whose calls are known. *)
Ltac svc_steps :=
  repeat first
    [ solve [eauto with svc_db]
    | solve [eapply yields_tame; eauto with svc_db]
    | eapply yields_bind; [solve [eauto with svc_db]|intros ? ?; cbv beta in *]
    | progress cbv zeta
    | match goal with
      | |- yields (match ?x with _ => _ end) _ => destruct x
      | a : unit |- _ => destruct a
      end
    | eapply (yields_bind _ _ (λ _, True)); [|intros ? _] ].

Section methods.
Context `{Hhash : !HashOrder} `{Hports : !ServicePorts} `{Hfaithful : !FaithfulPorts}.

Lemma tame_task_op {A} (f : db → tx A) (op : db → StoreTasks.task_op) :
  (∀ b, ends (f b)) → (∀ d, StoreTasks.op_typed (op d) ∧ StoreTasks.exec d (op d) = (run d (f d)).2) →
  tame (commit_base f).
Proof using Hfaithful.
  intros He H. apply (tame_commit _ (λ d, inl (inl (inl (inl (op d)))))); [done|].
  exact H.
Qed.
Lemma tame_handoff_op {A} (f : db → tx A) (op : db → handoff_op) :
  (∀ b, ends (f b)) → (∀ d, exec_handoff d (op d) = (run d (f d)).2) → tame (commit_base f).
Proof using Hfaithful.
  intros He H. apply (tame_commit _ (λ d, inl (inl (inl (inr (op d)))))); [done|].
  intros d. split; [exact I|apply H].
Qed.
Lemma tame_mail_op {A} (f : db → tx A) (op : db → StoreMessages.mail_op) :
  (∀ b, ends (f b)) → (∀ d, StoreMessages.exec d (op d) = (run d (f d)).2) → tame (commit_base f).
Proof using Hfaithful.
  intros He H. apply (tame_commit _ (λ d, inl (inl (inr (op d))))); [done|].
  intros d. split; [exact I|apply H].
Qed.
Lemma tame_case_op {A} (f : db → tx A) (op : db → StoreArbitration.case_op) :
  (∀ b, ends (f b)) → (∀ d, legal_case d (op d) ∧ StoreArbitration.exec d (op d) = (run d (f d)).2) →
  tame (commit_base f).
Proof using Hfaithful.
  intros He H. apply (tame_commit _ (λ d, inl (inr (op d)))); [done|].
  exact H.
Qed.
Lemma tame_fact_op {A} (f : db → tx A) (op : db → fact_op) :
  (∀ b, ends (f b)) → (∀ d, exec_fact d (op d) = (run d (f d)).2) → tame (commit_base f).
Proof using Hfaithful.
  intros He H. apply (tame_commit _ (λ d, inr (op d))); [done|].
  intros d. split; [exact I|apply H].
Qed.

Lemma yields_membership s :
  yields (session_membership_of s) (λ m, Membership.validate m = Ok tt).
Proof using Hfaithful.
  intros start. unfold session_membership_of.
  eapply serves_bind; [apply (serves_query_res _ (λ _, True));
    [apply stable_true|intros; apply ends_instances]|]. intros o.
  eapply (serves_conseq _ _ (λ d, True ∧ session_membership d s = Ok o)); [apply serves_demand|done|].
  intros m d _ [[_ Hm] ->].
  unfold session_membership in Hm. destruct (governance (base d) !! s); [|done].
  apply res_bind_ok in Hm as (m' & Hm' & [= <-]).
  destruct (Membership.new _ _ _) as [?| | |] eqn:E; simplify_eq/=. by eapply new_membership_valid.
Qed.
Lemma tame_topology s : tame (topology_of s).
Proof using Hfaithful. unfold topology_of. svc_steps. Qed.
Lemma tame_task id : tame (task_of id).
Proof using Hfaithful. unfold task_of. svc_steps. Qed.
Lemma tame_graph s r : tame (task_graph_of s r).
Proof using Hfaithful. unfold task_graph_of. svc_steps. Qed.
Lemma tame_available m i : tame (ensure_available m i).
Proof using. unfold ensure_available. svc_steps. Qed.
Lemma tame_assess p m t g o : Topology.governed t m → tame (assess p m t g o).
Proof using.
  intros Hg. unfold assess. destruct (Governance.assess_is_some (length (Topology.relations t) + 2) p
    {| Governance.membership := m; Governance.topology := t; Governance.tasks := g;
       Governance.waits := StoreFacts.ob_waits o; Governance.progress := StoreFacts.ob_progress o;
       Governance.handoffs := StoreFacts.ob_handoffs o |} Hg) as [a ->]; [simpl; lia|].
  apply tame_ret.
Qed.
Lemma tame_observations s n : tame (query_res (λ d, StoreFacts.governance_observations (base d) s n)).
Proof using Hfaithful. apply tame_query_res. intros; apply ends_store_facts. Qed.

#[local] Hint Resolve yields_membership tame_topology tame_task tame_graph tame_available
  tame_observations : svc_db.
#[local] Hint Extern 2 (tame (assess _ _ _ _ _)) =>
  apply tame_assess; solve [eauto with res_db] : svc_db.

(** The store operations that a method may call at any time. *)
Lemma tame_store :
  (∀ t e, tame (commit_base (λ d, StoreTasks.update_task d t e))) ∧
  (∀ tok id a o now secs, tame (commit_base (λ d, StoreTasks.claim_task tok d id a o now secs))) ∧
  (∀ l nx c now, tame (commit_base (λ d, StoreTasks.finish_task_lease d l nx c now))) ∧
  (∀ id now, tame (commit_base (λ d, StoreTasks.cancel_task d id now))).
Proof using Hfaithful.
  split_and!; intros.
  - apply (tame_task_op _ (λ _, StoreTasks.OpUpdate t e)); [intros; apply ends_store_tasks|done].
  - apply (tame_task_op _ (λ _, StoreTasks.OpClaim tok id a o now secs)); [intros; apply ends_store_tasks|done].
  - apply (tame_task_op _ (λ _, StoreTasks.OpFinish l nx c now)); [intros; apply ends_store_tasks|done].
  - apply (tame_task_op _ (λ _, StoreTasks.OpCancel id now)); [intros; apply ends_store_tasks|done].
Qed.

Lemma tame_store_task t :
  StoreTasks.op_typed (StoreTasks.OpCreate t) → tame (commit_base (λ d, StoreTasks.create_task d t)).
Proof using Hfaithful. intros H. apply (tame_task_op _ (λ _, StoreTasks.OpCreate t)); [intros; apply ends_store_tasks|done]. Qed.

Lemma tame_store_mail :
  (∀ m ms t now, tame (commit_base (λ d, StoreMessages.enqueue_message d m ms t now))) ∧
  (∀ rc now secs, tame (commit_base (λ d, StoreMessages.claim_message d rc now secs))) ∧
  (∀ id rc ep nx now, tame (commit_base (λ d, StoreMessages.finish_message_claim d id rc ep nx now))) ∧
  (∀ cl tn now, tame (commit_base (λ d, StoreMessages.prepare_message_turn d cl tn now))) ∧
  (∀ id rc e now, tame (commit_base (λ d, StoreMessages.acknowledge_message d id rc e now))).
Proof using Hfaithful.
  split_and!; intros.
  - apply (tame_mail_op _ (λ _, StoreMessages.OpEnqueue m ms t now)); [intros; apply ends_store_mail|done].
  - apply (tame_mail_op _ (λ _, StoreMessages.OpClaim rc now secs)); [intros; apply ends_store_mail|done].
  - apply (tame_mail_op _ (λ _, StoreMessages.OpFinish id rc ep nx now)); [intros; apply ends_store_mail|done].
  - apply (tame_mail_op _ (λ _, StoreMessages.OpPrepare cl tn now)); [intros; apply ends_store_mail|done].
  - apply (tame_mail_op _ (λ _, StoreMessages.OpAcknowledge id rc e now)); [intros; apply ends_store_mail|done].
Qed.

Lemma tame_store_cases :
  (∀ c m t now, tame (commit_base (λ d, StoreArbitration.create_arbitration_case d c m t now))) ∧
  (∀ id e now, tame (commit_base (λ d, StoreArbitration.expire_arbitration d id e now))).
Proof using Hfaithful.
  split; intros.
  - apply (tame_case_op _ (λ _, StoreArbitration.OpOpen c m t now)); [intros; apply ends_store_cases|done].
  - apply (tame_case_op _ (λ _, StoreArbitration.OpExpire id e now)); [intros; apply ends_store_cases|done].
Qed.

Lemma tame_store_rest :
  (∀ id a nx e now, tame (commit_base (λ d, StoreHandoffs.transition_handoff d id a nx e now))) ∧
  (∀ s w tr pr, tame (commit_base (λ d, StoreFacts.record_wait d s w tr pr))) ∧
  (∀ s w, tame (commit_base (λ d, StoreFacts.clear_wait d s w))) ∧
  (∀ s o, tame (commit_base (λ d, StoreFacts.record_progress d s o))) ∧
  (∀ t m e, tame (commit_base (λ d, StoreFacts.save_topology d t m e))).
Proof using Hfaithful.
  split_and!; intros.
  - apply (tame_handoff_op _ (λ _, OpTransition id a nx e now)); [intros; apply ends_store_handoffs|done].
  - apply (tame_fact_op _ (λ _, OpWait s w tr pr)); [intros; apply ends_store_facts|done].
  - apply (tame_fact_op _ (λ _, OpClearWait s w)); [intros; apply ends_store_facts|done].
  - apply (tame_fact_op _ (λ _, OpProgress s o)); [intros; apply ends_store_facts|done].
  - apply (tame_fact_op _ (λ _, OpTopology t m e)); [intros; apply ends_store_facts|done].
Qed.

Lemma tame_propose h m t now :
  Topology.governed t m → tame (commit_base (λ d, StoreHandoffs.create_handoff d h m t now)).
Proof using Hfaithful.
  intros Hg. apply (tame_handoff_op _ (λ _, OpPropose h m t now)); [|done].
  intros b. by apply ends_store_handoffs.
Qed.

Lemma tame_add p seed m t em et : tame (call (λ d, add_session_participant d p seed m t em et)).
Proof using Hfaithful.
  apply tame_call; [intros; apply ends_instances|]. intros d a d' _ H.
  pose proof (reaches_op d (OpAddParticipant p seed m t em et) I) as Hr. simpl in Hr. by rewrite H in Hr.
Qed.

Lemma tame_move s i e nx now : tame (call (λ d, transition_agent_instance d s i e nx now)).
Proof using Hfaithful.
  apply tame_call; [intros; apply ends_instances|]. intros d a d' _ H.
  pose proof (reaches_op d (OpTransitionInstance s i e nx now) I) as Hr. simpl in Hr. by rewrite H in Hr.
Qed.

#[local] Hint Extern 0 (tame (commit_base _)) =>
  first [apply tame_store|apply tame_store_mail|apply tame_store_cases|apply tame_store_rest] : svc_db.
#[local] Hint Extern 2 (tame (commit_base (λ d, StoreHandoffs.create_handoff _ _ _ _ _))) =>
  apply tame_propose; solve [eauto with res_db] : svc_db.
#[local] Hint Resolve tame_add tame_move : svc_db.

(** *** Methods *)

Lemma tame_notification sender task case m t :
  tame (ensure_arbitration_notification sender task case m t).
Proof using Hfaithful. unfold ensure_arbitration_notification. svc_steps. Qed.

Lemma tame_current n id now : tame (current_arbitration_from n id now).
Proof using Hfaithful.
  revert id. induction n as [|n IH]; intros id; simpl; [apply tame_fail|]. svc_steps; apply IH.
Qed.

Lemma tame_current_arbitration id now : tame (current_arbitration id now).
Proof using Hfaithful. apply tame_current. Qed.

#[local] Opaque current_arbitration.

Lemma tame_applied case : tame (applied_decision case).
Proof using Hfaithful. unfold applied_decision. svc_steps. Qed.

Lemma tame_new_case c id s m t fs now : tame (new_case c id s m t fs now).
Proof using. unfold new_case. svc_steps. Qed.

#[local] Hint Resolve tame_notification tame_current_arbitration tame_applied tame_new_case : svc_db.

Lemma tame_moderate c a prefix key s sender task m t now :
  tame (moderate c a prefix key s sender task m t now).
Proof using Hfaithful.
  unfold moderate. svc_steps.
Qed.

Lemma tame_deliver r m t now : tame (deliver r m t now).
Proof using Hfaithful. unfold deliver. svc_steps. Qed.

Lemma tame_propose_spawn c s sponsor p m t now : tame (propose_spawn c s sponsor p m t now).
Proof using Hfaithful. unfold propose_spawn. svc_steps. Qed.

#[local] Hint Resolve tame_moderate tame_deliver tame_propose_spawn : svc_db.

Lemma tame_commit_spawn p seed s m t : tame (commit_spawn p seed s m t).
Proof using Hfaithful. unfold commit_spawn. svc_steps. Qed.

#[local] Hint Resolve tame_commit_spawn : svc_db.

Lemma tame_methods :
  (∀ s, tame (service_topology s)) ∧ (∀ s, tame (service_task_graph s)) ∧
  (∀ r now, tame (report_wait r now)) ∧ (∀ r, tame (clear_wait r)) ∧
  (∀ r now, tame (report_progress r now)) ∧ (∀ r now, tame (transition_task r now)) ∧
  (∀ r now, tame (claim_task r now)) ∧ (∀ r now, tame (finish_claimed_task r now)) ∧
  (∀ r now, tame (cancel_task r now)).
Proof using Hfaithful.
  split_and!; intros;
    unfold service_topology, service_task_graph, report_wait, clear_wait, report_progress,
      transition_task, claim_task, finish_claimed_task, cancel_task; svc_steps.
Qed.

Lemma tame_messages :
  (∀ c r now, tame (dispatch_message c r now)) ∧
  (∀ c rc now secs, tame (claim_next_message c rc now secs)) ∧
  (∀ cl now, tame (mark_message_delivered cl now)) ∧
  (∀ cl tn now, tame (service_prepare_turn cl tn now)) ∧
  (∀ c m t now, tame (escalate_mailbox_turn c m t now)) ∧
  (∀ m rc now, tame (acknowledge_message m rc now)).
Proof using Hfaithful.
  split_and!; intros;
    unfold dispatch_message, claim_next_message, mark_message_delivered, service_prepare_turn,
      escalate_mailbox_turn, acknowledge_message; svc_steps.
Qed.

Lemma tame_agents :
  (∀ r now, tame (propose_handoff r now)) ∧ (∀ s id a b now, tame (decide_handoff s id a b now)) ∧
  (∀ c r now, tame (relate_agents c r now)) ∧ (∀ c r now, tame (fork_agent c r now)) ∧
  (∀ p now, tame (mark_agent_ready p now)) ∧ (∀ c r now, tame (define_agent c r now)).
Proof using Hfaithful.
  split_and!; intros;
    unfold propose_handoff, decide_handoff, relate_agents, fork_agent, mark_agent_ready,
      define_agent; svc_steps.
Qed.

Lemma tame_create_task c r now : (0 ≤ ct_token_budget r)%Z → tame (create_task c r now).
Proof using Hfaithful.
  intros Hb. unfold create_task. svc_steps. apply tame_store_task. simpl. lia.
Qed.

Lemma serves_graph start s r :
  serves start (λ _, True) (task_graph_of s r) (λ g d, reading g d).
Proof using Hfaithful.
  unfold task_graph_of. eapply serves_bind; [apply (serves_query _ (λ _, True)), stable_true|].
  intros g. apply serves_ret. intros d _ Hok [_ Hg]. destruct g as [g|]; simpl.
  - by eapply load_graph_reading.
  - by intros t ?%not_elem_of_nil.
Qed.

Lemma tame_decide decision now : tame (decide_arbitration decision now).
Proof using Hfaithful.
  unfold decide_arbitration. eapply yields_bind; [apply tame_query|]. intros found _.
  eapply yields_bind; [apply yields_demand|]. intros case _. case_bool_decide; [svc_steps|].
  eapply yields_bind; [apply yields_refuse|intros _ _].
  eapply yields_bind; [apply yields_membership|intros m _].
  eapply yields_bind; [apply tame_topology|intros t _].
  intros start. eapply serves_bind; [apply serves_graph|]. intros g.
  eapply serves_conseq; [apply (serves_commit _ (reading g) _ (λ _, inl (inr
    (StoreArbitration.OpDecide decision m g (Topology.topology_revision t) now))));
    [apply reading_stable|intros; apply ends_store_cases|]|done|done].
  intros d _ Hg. split; [by apply reading_snapshot|done].
Qed.

(** ** The service as a whole *)

(** A call of one of its methods. *)
Inductive service_request :=
  | AskTopology (s : SessionId)
  | AskTaskGraph (s : SessionId)
  | AskMessage (id : CoordinationMessageId)
  | AskCase (id : GovernanceCaseId)
  | AskActiveCases (s : SessionId)
  | AskReportWait (r : ReportWaitRequest) (now : Z)
  | AskClearWait (r : ReportWaitRequest)
  | AskReportProgress (r : ReportProgressRequest) (now : Z)
  | AskCreateTask (r : CreateTaskRequest) (now : Z)
  | AskTransitionTask (r : TransitionTaskRequest) (now : Z)
  | AskClaimTask (r : ClaimTaskRequest) (now : Z)
  | AskFinishTask (r : FinishClaimedTaskRequest) (now : Z)
  | AskCancelTask (r : CancelTaskRequest) (now : Z)
  | AskDecide (decision : Arbitration.ModeratorDecision) (now : Z)
  | AskDispatch (r : DispatchMessageRequest) (now : Z)
  | AskClaimMessage (recipient : AgentInstanceId) (now secs : Z)
  | AskDelivered (claim : Mailbox.MessageClaim) (now : Z)
  | AskPrepareTurn (claim : Mailbox.MessageClaim) (turn : string) (now : Z)
  | AskEscalate (m : Mailbox.CoordinationMessage) (receipt : Mailbox.AgentMessageTurn) (now : Z)
  | AskAcknowledge (m : Mailbox.CoordinationMessage) (recipient : AgentInstanceId) (now : Z)
  | AskProposeHandoff (r : ProposeHandoffRequest) (now : Z)
  | AskDecideHandoff (s : SessionId) (id : Handoff.HandoffId) (arbitrator : AgentInstanceId)
      (accept : bool) (now : Z)
  | AskRelate (r : RelateAgentsRequest) (now : Z)
  | AskFork (r : ForkAgentRequest) (now : Z)
  | AskReady (p : AgentInstance) (now : Z)
  | AskDefine (r : DefineAgentRequest) (now : Z).

Definition discard {A} (c : svc A) : svc unit := perform c;; eret tt.

Definition serve (cf : config) (q : service_request) : svc unit :=
  match q with
  | AskTopology s => discard (service_topology s)
  | AskTaskGraph s => discard (service_task_graph s)
  | AskMessage id => discard (coordination_message id)
  | AskCase id => discard (arbitration_case id)
  | AskActiveCases s => discard (service_active_cases s)
  | AskReportWait r now => discard (report_wait r now)
  | AskClearWait r => discard (clear_wait r)
  | AskReportProgress r now => discard (report_progress r now)
  | AskCreateTask r now => discard (create_task cf r now)
  | AskTransitionTask r now => discard (transition_task r now)
  | AskClaimTask r now => discard (claim_task r now)
  | AskFinishTask r now => discard (finish_claimed_task r now)
  | AskCancelTask r now => discard (cancel_task r now)
  | AskDecide decision now => discard (decide_arbitration decision now)
  | AskDispatch r now => discard (dispatch_message cf r now)
  | AskClaimMessage recipient now secs => discard (claim_next_message cf recipient now secs)
  | AskDelivered claim now => discard (mark_message_delivered claim now)
  | AskPrepareTurn claim turn now => discard (service_prepare_turn claim turn now)
  | AskEscalate m receipt now => discard (escalate_mailbox_turn cf m receipt now)
  | AskAcknowledge m recipient now => discard (acknowledge_message m recipient now)
  | AskProposeHandoff r now => discard (propose_handoff r now)
  | AskDecideHandoff s id arbitrator accept now => discard (decide_handoff s id arbitrator accept now)
  | AskRelate r now => discard (relate_agents cf r now)
  | AskFork r now => discard (fork_agent cf r now)
  | AskReady p now => discard (mark_agent_ready p now)
  | AskDefine r now => discard (define_agent cf r now)
  end.

(** A token budget is unsigned. *)
Definition typed (q : service_request) : Prop :=
  match q with AskCreateTask r _ => (0 ≤ ct_token_budget r)%Z | _ => True end.

Lemma tame_discard {A} (c : svc A) : tame c → tame (discard c).
Proof using. intros Hc. eapply yields_bind; [exact Hc|intros a _; apply tame_ret]. Qed.

Lemma tame_serve cf q : typed q → tame (serve cf q).
Proof using Hfaithful.
  intros Hq. destruct q; simpl; apply tame_discard; try apply tame_query;
    try apply tame_methods; try apply tame_messages; try apply tame_agents.
  - by apply tame_create_task.
  - apply tame_decide.
Qed.

(** One request after the other, with their answers. *)
Fixpoint serve_all (cf : config) (qs : list service_request) (w : world) :
    world * list (res unit CoordinationServiceError) :=
  match qs with
  | [] => (w, [])
  | q :: qs =>
      let '(w, r) := serve cf q w in
      let '(w, rs) := serve_all cf qs w in (w, r :: rs)
  end.

Lemma serve_all_ok cf qs w :
  durable_ok (data w) → Forall typed qs →
  reaches (data w) (data (serve_all cf qs w).1) ∧ Forall returns (serve_all cf qs w).2.
Proof using Hfaithful.
  intros Hok Hqs. revert w Hok. induction Hqs as [|q qs Hq _ IH]; intros w Hok; simpl; [done|].
  destruct (tame_serve cf q Hq (data w) w) as [Hr Ha]; [done|done|done|].
  destruct (serve cf q w) as [w1 r]. simpl in *.
  destruct (IH w1) as [Hr' Hrs]; [by eapply reaches_ok|].
  destruct (serve_all cf qs w1) as [w2 rs]. simpl in *. split; [by etrans|].
  constructor; [by destruct r|done].
Qed.

(** What a specification says of one call. *)
Lemma serves_result {A} (c : svc A) Q w w' a :
  serves (data w) (λ _, True) c Q → durable_ok (data w) → c w = (w', Ok a) → Q a (data w').
Proof using.
  intros Hc Hok Hw. destruct (Hc w) as [_ Hq]; [done|done|done|]. by rewrite Hw in Hq.
Qed.

End methods.
