(* ===== verification/ServiceGovernance.v ===== *)
(** What the coordination service promises: arbitration and messages.

    The specifications are [serves] triples.  A fact that a method read holds
    [during] the call; a fact of the last store call holds at its end. *)

From S2P Require Import Prelude Graph Effects Instance Store StoreRun.
From S2P Require Membership Topology Route Tasks Mailbox Handoff Governance Arbitration.
From S2P Require StoreTasks StoreMessages StoreHandoffs StoreArbitration StoreFacts.
From S2P Require Import WorkspaceStore InstanceStore InstanceStoreFacts InstanceStoreRun InstanceStoreSave.
From S2P Require Import StoreSystem StoreHistory Service ServiceFacts.
From stdpp Require Import base tactics gmap strings list relations.
From Stdlib Require Import ZArith Lia.

Section governance.
Context `{Hhash : !HashOrder} `{Hports : !ServicePorts} `{Hfaithful : !FaithfulPorts}.

(** ** Reading and checking *)

Section steps.
Context (start : sdb).

Lemma serves_then {A B} P (c : svc A) (φ : A → sdb → Prop) (k : A → svc B) Q :
  stable P → serves start (λ _, True) c φ →
  (∀ a, serves start (λ d, P d ∧ φ a d) (k a) Q) → serves start P (ebind c k) Q.
Proof using. intros HP Hc Hk. eapply serves_bind; [by apply serves_keep|done]. Qed.

Lemma serves_during {A} P φ (c : svc A) Q :
  serves start (λ d, P d ∧ during start φ d) c Q → serves start (λ d, P d ∧ φ d) c Q.
Proof using. intros Hc w Hs Hok [Hp Hφ]. apply (Hc w Hs Hok). split; [done|by apply during_now]. Qed.

Lemma serves_read {A B} P (c : svc A) (φ : A → sdb → Prop) (k : A → svc B) Q :
  stable P → serves start (λ _, True) c φ →
  (∀ a, stable (λ d, P d ∧ during start (φ a) d) →
     serves start (λ d, P d ∧ during start (φ a) d) (k a) Q) →
  serves start P (ebind c k) Q.
Proof using.
  intros HP Hc Hk. eapply serves_then; [done|exact Hc|]. intros a.
  assert (stable (λ d, P d ∧ during start (φ a) d)) as Hst
    by (apply stable_and; [done|apply stable_during]).
  by apply serves_during, Hk.
Qed.

Lemma serves_check {A B} P (c : svc A) φ (k : A → svc B) Q :
  stable P → yields c φ → (∀ a, φ a → serves start P (k a) Q) → serves start P (ebind c k) Q.
Proof using.
  intros HP Hc Hk. eapply serves_then; [done|apply Hc|]. intros a w Hs Hok [HPw Hφ].
  by apply (Hk a Hφ w).
Qed.

(** A check of a value, with nothing known of the database. *)
Lemma serves_weaken {A} (P : sdb → Prop) (c : svc A) Q :
  serves start (λ _, True) c Q → serves start P c Q.
Proof using. intros Hc. by eapply serves_conseq; [exact Hc|..]. Qed.

Lemma serves_membership s :
  serves start (λ _, True) (session_membership_of s)
    (λ m d, session_membership d s = Ok (Some m) ∧ Membership.validate m = Ok tt).
Proof using Hfaithful.
  intros w Hs Hok _. destruct (yields_membership s start w Hs Hok I) as [Hr Hv].
  assert (serves start (λ _, True) (session_membership_of s)
    (λ m d, session_membership d s = Ok (Some m))) as Hm.
  { unfold session_membership_of. eapply serves_bind.
    - apply (serves_query_res _ (λ _, True)); [apply stable_true|intros; apply ends_instances].
    - intros o. eapply serves_post; [apply serves_demand|]. by intros m d _ [[_ ?] ->]. }
  destruct (Hm w Hs Hok I) as [_ Hm']. split; [done|].
  destruct (session_membership_of s w).2; done.
Qed.

Lemma serves_topology s :
  serves start (λ _, True) (topology_of s) (λ t d, topologies (base d) !! s = Some t).
Proof using Hfaithful.
  unfold topology_of. eapply serves_bind; [apply (serves_query _ (λ _, True)), stable_true|].
  intros o. eapply serves_post; [apply serves_demand|]. by intros t d _ [[_ ?] ->].
Qed.

Lemma serves_task id :
  serves start (λ _, True) (task_of id) (λ t d, tasks (base d) !! id = Some t).
Proof using Hfaithful.
  unfold task_of. eapply serves_bind; [apply (serves_query _ (λ _, True)), stable_true|].
  intros o. eapply serves_post; [apply serves_demand|]. by intros t d _ [[_ ?] ->].
Qed.

Lemma serves_reading {A} (f : sdb → A) :
  serves start (λ _, True) (query f) (λ a d, f d = a).
Proof using Hfaithful.
  eapply serves_conseq; [apply (serves_query _ (λ _, True)), stable_true|done|]. by intros a d _ [].
Qed.

Lemma serves_observations s n :
  serves start (λ _, True) (query_res (λ d, StoreFacts.governance_observations (base d) s n))
    (λ o d, StoreFacts.governance_observations (base d) s n = Ok o).
Proof using Hfaithful.
  eapply serves_conseq; [apply (serves_query_res _ (λ _, True));
    [apply stable_true|intros; apply ends_store_facts]|done|]. by intros a d _ [].
Qed.

End steps.

Definition able (m : Membership.SessionMembership) (i : AgentInstanceId) : Prop :=
  ∃ p, Membership.find_participant (Membership.participants m) i = Some p ∧
    InstanceState.is_terminal (ai_state p) = false ∧ ai_state p ≠ InstanceState.ManualReconciliation.

Lemma yields_available m i : yields (ensure_available m i) (λ _, able m i).
Proof using.
  unfold ensure_available. eapply yields_bind; [apply yields_demand|]. intros p Hp.
  eapply yields_bind; [apply yields_refuse|]. intros u Hb. apply orb_false_iff in Hb as [Ht Hm].
  intros start. apply serves_ret. intros d _ _ _. exists p. split_and!; [done|done|].
  by apply bool_decide_eq_false in Hm.
Qed.

Lemma yields_assess p m t g o :
  Topology.governed t m → yields (assess p m t g o) (λ a,
    Governance.assess (length (Topology.relations t) + 2) p {|
      Governance.membership := m; Governance.topology := t; Governance.tasks := g;
      Governance.waits := StoreFacts.ob_waits o; Governance.progress := StoreFacts.ob_progress o;
      Governance.handoffs := StoreFacts.ob_handoffs o |} = Some a).
Proof using.
  intros Hg start. unfold assess. destruct (Governance.assess_is_some (length (Topology.relations t) + 2) p
    {| Governance.membership := m; Governance.topology := t; Governance.tasks := g;
       Governance.waits := StoreFacts.ob_waits o; Governance.progress := StoreFacts.ob_progress o;
       Governance.handoffs := StoreFacts.ob_handoffs o |} Hg) as [a Ha]; [simpl; lia|].
  rewrite Ha. by apply serves_ret.
Qed.

(** ** The case of a request *)

Definition renewal (c : Arbitration.ArbitrationCase) : GovernanceCaseId :=
  governance_case_id "renewal" (KeyRenewal (Arbitration.case_id c) (Arbitration.revision c)
    (Arbitration.expires_at c)) (Arbitration.membership_revision c) (Arbitration.topology_revision c).

(** An expired case and the one that renews it. *)
Definition renews (d : sdb) (id id' : GovernanceCaseId) : Prop :=
  ∃ c, cases (base d) !! id = Some c ∧ Arbitration.state c = Arbitration.ArbitrationState.Expired ∧
    id' = renewal c.

(** The request whose case is [root] is now the business of [id]. *)
Definition case_of (d : sdb) (root id : GovernanceCaseId) : Prop := rtc (renews d) root id.

Lemma stable_settled id c :
  stable (λ d, cases (base d) !! id = Some c ∧ Arbitration.state c ≠ Arbitration.ArbitrationState.Open).
Proof using.
  intros d d' Hok Hr [Hc Hs]. split; [|done]. by apply (rm_cases _ _ (reaches_remembers d d' Hok Hr)).
Qed.

Lemma stable_decision id x : stable (λ d, decisions (base d) !! id = Some x).
Proof using.
  intros d d' Hok Hr Hx. eapply lookup_weaken; [exact Hx|].
  apply (rm_decisions _ _ (reaches_remembers d d' Hok Hr)).
Qed.

Lemma stable_renews id id' : stable (λ d, renews d id id').
Proof using.
  intros d d' Hok Hr (c & Hc & Hs & ->). exists c.
  destruct (stable_settled id c d d' Hok Hr) as [? _]; [by rewrite Hc, Hs|done].
Qed.

Lemma stable_case_of root id : stable (λ d, case_of d root id).
Proof using.
  intros d d' Hok Hr. unfold case_of. induction 1 as [|a b c Hab _ IH]; [done|].
  eapply rtc_l; [|exact IH]. by apply (stable_renews a b d d').
Qed.

(** Not expired, and not overdue. *)
Definition timely (c : Arbitration.ArbitrationCase) (now : Z) : Prop :=
  Arbitration.state c ≠ Arbitration.ArbitrationState.Expired ∧
  (Arbitration.state c = Arbitration.ArbitrationState.Open → (now < Arbitration.expires_at c)%Z).

(** What [current_arbitration] answers. *)
Definition current (root : GovernanceCaseId) (now : Z)
    (r : GovernanceCaseId * option Arbitration.ArbitrationCase) (d : sdb) : Prop :=
  case_of d root r.1 ∧ cases (base d) !! r.1 = r.2 ∧ ∀ c, r.2 = Some c → timely c now.

Lemma expire_stored d id e now c d' :
  StoreArbitration.cases_ok d → StoreArbitration.expire_arbitration d id e now = Ok (c, d') →
  cases d' !! id = Some c ∧ Arbitration.state c = Arbitration.ArbitrationState.Expired.
Proof using.
  intros Hok H. apply StoreArbitration.expire_arbitration_ok in H
    as (c0 & Hc & Hs & [[-> ->]|(_ & _ & _ & -> & _)]); [done| |done].
  simpl. by rewrite lookup_insert_eq.
Qed.

Lemma current_from n root id now start :
  serves start (λ d, case_of d root id) (current_arbitration_from n id now) (current root now).
Proof using Hfaithful.
  revert id. induction n as [|n IH]; intros id; simpl; [apply serves_fail|].
  eapply serves_then; [apply stable_case_of|apply serves_reading|]. intros o.
  destruct o as [c|]; [|apply serves_ret; by intros d _ _ [? ?]].
  assert (timely c now → serves start (λ d, case_of d root id ∧
    StoreArbitration.load_arbitration_case (base d) id = Some c) (eret (id, Some c)) (current root now)) as Hret.
  { intros Ht. apply serves_ret. intros d _ _ [Hc Hid]. split_and!; [done|done|]. by intros ? [= <-]. }
  assert (∀ c', serves start (λ d, case_of d root id ∧ cases (base d) !! id = Some c' ∧
      Arbitration.state c' = Arbitration.ArbitrationState.Expired)
    (current_arbitration_from n (renewal c') now) (current root now)) as Hrenew.
  { intros c'. eapply serves_conseq; [apply IH| |done]. intros d _ (Hc & Hid & Hs).
    eapply rtc_r; [exact Hc|]. by exists c'. }
  destruct (Arbitration.state c) eqn:Es.
  - case_match eqn:Hdue; [|apply Z.leb_gt in Hdue; by apply Hret; split; rewrite Es].
    eapply (serves_bind _ _ _ _ (λ c' d, case_of d root id ∧ cases (base d) !! id = Some c' ∧
      Arbitration.state c' = Arbitration.ArbitrationState.Expired)); [|apply Hrenew].
    eapply (serves_conseq _ _ (λ d, case_of d root id ∧ Arbitration.case_id c = id)).
    + apply (serves_commit _ _ _ (λ _, inl (inr (StoreArbitration.OpExpire (Arbitration.case_id c)
        (Arbitration.revision c) now)))); [|intros; apply ends_store_cases|done].
      apply stable_and; [apply stable_case_of|apply stable_true].
    + intros d [[_ _ _ Hcok _] _ _] [Hc Hid]. split; [done|by apply Hcok].
    + intros c' d Hok (d0 & _ & Hok0 & [Hc Hid] & He & _ & Hr). rewrite Hid in He.
      split; [by apply (stable_case_of root id d0)|].
      apply expire_stored in He as [? ?]; [done|by apply Hok0].
  - by apply Hret; split; rewrite Es.
  - by apply Hret; split; rewrite Es.
  - by apply Hret; split; rewrite Es.
  - eapply serves_conseq; [apply Hrenew| |done]. by intros d _ [? ?].
Qed.

Lemma serves_current root now start :
  serves start (λ _, True) (current_arbitration root now) (current root now).
Proof using Hfaithful.
  eapply serves_conseq; [apply (current_from MAX_ARBITRATION_RENEWALS root root)| |done].
  intros d _ _. apply rtc_refl.
Qed.

(** ** Messages *)

(** Two messages ask for the same thing. *)
Record same_intent (x y : Mailbox.CoordinationMessage) : Prop := {
  si_id : Mailbox.message_id x = Mailbox.message_id y;
  si_session : Mailbox.session_id x = Mailbox.session_id y;
  si_sender : Mailbox.sender_instance_id x = Mailbox.sender_instance_id y;
  si_recipient : Mailbox.recipient_instance_id x = Mailbox.recipient_instance_id y;
  si_task : Mailbox.task_id x = Mailbox.task_id y;
  si_kind : Mailbox.kind x = Mailbox.kind y;
  si_payload : Mailbox.payload x = Mailbox.payload y;
  si_topology : Mailbox.topology_revision x = Mailbox.topology_revision y;
  si_route : Mailbox.route x = Mailbox.route y;
  si_hops : Mailbox.max_hops x = Mailbox.max_hops y;
  si_expires : Mailbox.expires_at x = Mailbox.expires_at y;
}.

Lemma same_dispatch_intent_iff x y : same_dispatch_intent x y = true ↔ same_intent x y.
Proof using.
  unfold same_dispatch_intent. rewrite !andb_true_iff, !bool_decide_eq_true, !Z.eqb_eq.
  split; [intros [[[[[[[[[[? ?] ?] ?] ?] ?] ?] ?] ?] ?] ?]; by split|intros []; split_and!; done].
Qed.

(** A message that asks for the same is stored under its identity. *)
Definition message_stored (x : Mailbox.CoordinationMessage) (d : sdb) : Prop :=
  ∃ row, messages (base d) !! Mailbox.message_id x = Some row ∧ same_intent (msg row) x.

Lemma same_intent_refl x : same_intent x x.
Proof using. by split. Qed.

Lemma enqueue_stored b x m t now b' :
  StoreMessages.enqueue_message b x m t now = Ok (tt, b') →
  ∃ row, messages b' !! Mailbox.message_id x = Some row ∧ same_intent (msg row) x ∧
    (Mailbox.state x = Mailbox.Delivery.Pending → Mailbox.delivery_attempts x = 0%Z →
     Mailbox.revision x = 0%Z → msg row = x).
Proof using.
  intros H. apply StoreMessages.enqueue_message_ok in H as (_ & _ & _ & ->). eexists.
  simpl. rewrite lookup_insert_eq. split_and!; [done|by split|]. destruct x; simpl. by intros -> -> ->.
Qed.

(** The message that is there, or the new one. *)
Lemma serves_enqueue start P x m t now {A} (k : Mailbox.CoordinationMessage → svc A) Q :
  stable P → Mailbox.state x = Mailbox.Delivery.Pending → Mailbox.delivery_attempts x = 0%Z →
  Mailbox.revision x = 0%Z →
  (∀ y, same_intent y x → serves start (λ d, P d ∧
     StoreMessages.load_message (base d) (Mailbox.message_id x) = Some y) (k y) Q) →
  serves start P (existing <~ query (λ d, StoreMessages.load_message (base d) (Mailbox.message_id x));;
    match existing with
    | Some existing => if same_dispatch_intent existing x then k existing else efail IdempotencyConflict
    | None => perform commit_base (λ d, StoreMessages.enqueue_message d x m t now);; k x
    end) Q.
Proof using Hfaithful.
  intros HP Hst Hat Hrev Hk. eapply serves_then; [done|apply serves_reading|]. intros [y|].
  - case_match eqn:Hs; [|apply serves_fail]. apply same_dispatch_intent_iff in Hs. by apply Hk.
  - eapply (serves_bind _ _ _ _ (λ _ d, P d ∧
      StoreMessages.load_message (base d) (Mailbox.message_id x) = Some x)).
    + eapply serves_conseq.
      * apply (serves_commit _ P _ (λ _, inl (inl (inr (StoreMessages.OpEnqueue x m t now)))));
          [done|intros; apply ends_store_mail|done].
      * by intros d _ [? _].
      * intros [] d Hok (d0 & _ & Hok0 & Hp & He & _ & Hr). split; [by apply (HP d0)|].
        apply enqueue_stored in He as (row & Hrow & _ & Heq). unfold StoreMessages.load_message.
        rewrite Hrow. simpl. by rewrite Heq.
    + intros _. by apply Hk, same_intent_refl.
Qed.

(** ** The moderator is asked *)

(** A control message about the case is in the mailbox of its moderator. *)
Definition notified (c : Arbitration.ArbitrationCase) (d : sdb) : Prop :=
  ∃ row, messages (base d) !! ("arbitration:" +:+ Arbitration.case_id c) = Some row ∧
    Mailbox.recipient_instance_id (msg row) = Arbitration.moderator_instance_id c ∧
    Mailbox.session_id (msg row) = Arbitration.session_id c ∧
    Mailbox.kind (msg row) = Mailbox.Control ∧
    Mailbox.payload (msg row) = "governance_case:" +:+ Arbitration.case_id c.

Lemma serves_notification start P sender task c m t :
  stable P →
  serves start P (ensure_arbitration_notification sender task c m t) (λ _ d, P d ∧ notified c d).
Proof using Hfaithful.
  intros HP. unfold ensure_arbitration_notification.
  eapply serves_check; [done|apply yields_res; by apply returns_map_err, Route.route_between_returns|].
  intros o _. eapply serves_check; [done|apply yields_demand|]. intros route _.
  apply serves_deny. intros _. apply (serves_enqueue _ _ _ _ _ _ (λ _, eret tt)); try done.
  intros y Hy. apply serves_ret. intros d _ _ [Hp Hl]. split; [done|].
  unfold StoreMessages.load_message in Hl. apply fmap_Some in Hl as (row & Hrow & ->).
  exists row. destruct Hy as [_ Hs _ Hr _ Hk Hpay _ _ _ _]. by split_and!.
Qed.

(** An applied case and the decision on it. *)
Definition decided (d : sdb) (root : GovernanceCaseId) (x : Arbitration.ModeratorDecision) : Prop :=
  ∃ id c, case_of d root id ∧ cases (base d) !! id = Some c ∧
    Arbitration.state c = Arbitration.ArbitrationState.Applied ∧ decisions (base d) !! id = Some x.

Lemma stable_decided root x : stable (λ d, decided d root x).
Proof using.
  intros d d' Hok Hr (id & c & Hid & Hc & Hs & Hx). exists id, c. split_and!; [..|done|].
  - by apply (stable_case_of root id d).
  - by destruct (stable_settled id c d d' Hok Hr) as [? _]; [rewrite Hs|].
  - by apply (stable_decision id x d).
Qed.

(** The case was found, or opened, and the moderator knows. *)
Definition asked (start : sdb) (root : GovernanceCaseId) (now : Z) (c : Arbitration.ArbitrationCase)
    (d : sdb) : Prop :=
  during start (λ d, case_of d root (Arbitration.case_id c) ∧
    cases (base d) !! Arbitration.case_id c = Some c ∧
    Arbitration.state c = Arbitration.ArbitrationState.Open ∧ (now < Arbitration.expires_at c)%Z) d ∧
  notified c d.

(** How the answer of [moderate] is justified. *)
Definition justified (start : sdb) (a : Governance.GovernanceAssessment) (root : GovernanceCaseId)
    (now : Z) (p : authorization) (d : sdb) : Prop :=
  match p with
  | Permitted None => Governance.permits_automatic_progress a = true
  | Permitted (Some x) => Governance.permits_automatic_progress a = false ∧ decided d root x ∧
      Arbitration.is_continue (Arbitration.verdict x) = true
  | Pending c => Governance.permits_automatic_progress a = false ∧ asked start root now c d
  | Rejected c x => Governance.permits_automatic_progress a = false ∧ decided d root x ∧
      Arbitration.is_continue (Arbitration.verdict x) = false
  end.

Lemma serves_applied start P c :
  stable P → serves start P (applied_decision c) (λ x d, P d ∧
    Arbitration.state c = Arbitration.ArbitrationState.Applied ∧
    decisions (base d) !! Arbitration.case_id c = Some x).
Proof using Hfaithful.
  intros HP. unfold applied_decision. apply serves_deny. intros Hs. apply negb_bool_decide_false in Hs.
  eapply serves_then; [done|apply serves_reading|]. intros o.
  eapply serves_post; [apply serves_demand|]. by intros x d _ [[? ?] ->].
Qed.

Lemma yields_new_case c id s m t fs now :
  yields (new_case c id s m t fs now) (λ x, Arbitration.case_id x = id ∧
    Arbitration.state x = Arbitration.ArbitrationState.Open ∧ Arbitration.revision x = 0%Z).
Proof using.
  unfold new_case. eapply yields_bind; [apply yields_demand|]. intros ttl _.
  eapply yields_bind; [apply yields_demand|]. intros e _ start. by apply serves_ret.
Qed.

Lemma serves_moderate start P cf a prefix key s sender task m t now :
  stable P →
  serves start P (moderate cf a prefix key s sender task m t now) (λ p d, P d ∧
    justified start a (governance_case_id prefix key
      (Membership.membership_revision (Membership.governance m)) (Topology.topology_revision t)) now p d).
Proof using Hfaithful.
  intros HP. unfold moderate. set (root := governance_case_id _ _ _ _).
  destruct (Governance.permits_automatic_progress a) eqn:Ea; [by apply serves_ret|].
  set (open c d := case_of d root (Arbitration.case_id c) ∧
    cases (base d) !! Arbitration.case_id c = Some c ∧
    Arbitration.state c = Arbitration.ArbitrationState.Open ∧ (now < Arbitration.expires_at c)%Z).
  assert (∀ c, serves start (λ d, P d ∧ open c d)
    (perform ensure_arbitration_notification sender task c m t;; eret (Pending c))
    (λ p d, P d ∧ justified start a root now p d)) as Hask.
  { intros c. apply serves_during. eapply serves_bind;
      [apply serves_notification, stable_and; [done|apply stable_during]|].
    intros u. apply serves_ret. intros d _ _ [[Hp Hc] Hn]. simpl. by split_and!. }
  eapply (serves_bind _ _ _ _ (λ r d, P d ∧ current root now r d));
    [apply serves_keep; [done|apply serves_current]|].
  intros [id [c|]].
  - assert (∀ d, durable_ok d → current root now (id, Some c) d →
      case_of d root (Arbitration.case_id c) ∧ Arbitration.case_id c = id ∧
      cases (base d) !! Arbitration.case_id c = Some c ∧
      (Arbitration.state c ≠ Arbitration.ArbitrationState.Applied →
       Arbitration.state c = Arbitration.ArbitrationState.Open ∧ (now < Arbitration.expires_at c)%Z)) as Hcur.
    { intros d [[_ _ _ Hcok _] _ _] (Hc & Hid & Ht). simpl in *. destruct (Hcok id c Hid) as [-> Hs].
      destruct (Ht c eq_refl) as [Hne Hdue]. split_and!; [done|done|done|]. intros ?.
      destruct Hs as [Hs|[?|?]]; [|done..]. by split; [|apply Hdue]. }
    case_bool_decide as Hap.
    + set (F d := case_of d root (Arbitration.case_id c) ∧
        cases (base d) !! Arbitration.case_id c = Some c ∧
        Arbitration.state c ≠ Arbitration.ArbitrationState.Open).
      assert (stable F) as HF
        by (apply stable_and; [apply stable_case_of|apply stable_settled]).
      eapply (serves_conseq _ _ (λ d, P d ∧ F d)); [|intros d Hok [? Hc]|by intros ? ? _ H; exact H].
      2: { destruct (Hcur d Hok Hc) as (? & _ & ? & _). unfold F. rewrite Hap. by split_and!. }
      eapply serves_bind; [by apply serves_applied, stable_and|]. intros x.
      assert (∀ d, F d → decisions (base d) !! Arbitration.case_id c = Some x → decided d root x)
        as Hdec by (intros d (? & ? & _) ?; by exists (Arbitration.case_id c), c).
      case_match eqn:Hv; apply serves_ret; intros d _ _ [[Hp Hf] [_ Hx]]; simpl; split_and!; auto.
    + eapply serves_conseq; [apply (Hask c)| |by intros ? ? _ H; exact H].
      intros d Hok [? Hc]. destruct (Hcur d Hok Hc) as (? & _ & ? & Ho).
      destruct (Ho Hap). split; [done|by split_and!].
  - eapply (serves_conseq _ _ (λ d, P d ∧ case_of d root id));
      [|by intros d _ [? [? _]]|by intros ? ? _ H; exact H].
    assert (stable (λ d, P d ∧ case_of d root id)) as HPc
      by (apply stable_and; [done|apply stable_case_of]).
    eapply serves_check; [exact HPc|apply yields_new_case|]. intros c (Hid & Hopen & Hrev).
    eapply (serves_bind _ _ _ _ (λ _ d, P d ∧ open c d)); [|intros _; apply Hask].
    eapply serves_post; [apply (serves_commit _ _ _ (λ _, inl (inr (StoreArbitration.OpOpen c m t now))));
      [exact HPc|intros; apply ends_store_cases|done]|].
    intros [] d Hok (d0 & _ & Hok0 & [Hp Hc] & He & _ & Hr). split; [by apply (HP d0)|].
    split; [rewrite Hid; by apply (stable_case_of root id d0)|].
    apply StoreArbitration.create_case_ok in He as ([_ _ _ Hlive] & _ & _ & _ & _ & ->). simpl.
    rewrite lookup_insert_eq. split_and!; [|done..].
    f_equal. destruct c; simpl in *. by subst.
Qed.

(** ** Dispatch *)

(** The request is stored as it was asked for, over a shortest route. *)
Definition delivered (r : DispatchMessageRequest) (t : Topology.SessionTopology) (now : Z)
    (x : Mailbox.CoordinationMessage) (d : sdb) : Prop :=
  StoreMessages.load_message (base d) (dm_message_id r) = Some x ∧
  ∃ route, Route.route_between t (dm_sender_instance_id r) (dm_recipient_instance_id r) =
      Ok (Some route) ∧ same_intent x (requested_message r t route now).

Lemma serves_deliver start P r m t now :
  stable P → serves start P (deliver r m t now) (λ x d, P d ∧ delivered r t now x d).
Proof using Hfaithful.
  intros HP. unfold deliver.
  eapply serves_check; [done|apply yields_res; by apply returns_map_err, Route.route_between_returns|].
  intros o Ho. eapply serves_check; [done|apply yields_demand|]. intros route ->.
  eapply serves_check; [done|apply yields_lift, Mailbox.validate_message_returns|]. intros [] _.
  apply (serves_enqueue _ _ _ _ _ _ eret); try done. intros x Hx. apply serves_ret.
  intros d _ _ [Hp Hl]. split; [done|]. split; [exact Hl|]. exists route. split; [|done].
  by destruct (Route.route_between _ _ _) as [?|[]| |]; simplify_eq/=.
Qed.

(** The tasks of a session, none where no membership is stored. *)
Definition graph_of (s : SessionId) (revision : Z) (d : sdb) : Tasks.SessionTaskGraph :=
  default {| Tasks.g_session_id := s; Tasks.g_membership_revision := revision; Tasks.tasks := [];
    Tasks.dependencies := [] |} (StoreTasks.load_task_graph (base d) s).

Lemma graph_of_session s r d : Tasks.g_session_id (graph_of s r d) = s.
Proof using. unfold graph_of, StoreTasks.load_task_graph. by destruct (membership_revision_of _ _). Qed.

(** What the service read of a session, and its assessment. *)
Record consulted (start : sdb) (p : Governance.GovernancePolicy) (s : SessionId)
    (m : Membership.SessionMembership) (t : Topology.SessionTopology) (g : Tasks.SessionTaskGraph)
    (o : StoreFacts.GovernanceObservations) (a : Governance.GovernanceAssessment) (d : sdb) : Prop := {
  co_membership : during start (λ d, session_membership d s = Ok (Some m) ∧
    Membership.validate m = Ok tt) d;
  co_topology : during start (λ d, topologies (base d) !! s = Some t) d;
  co_governed : Topology.governed t m;
  co_tasks : during start (λ d,
    g = graph_of s (Membership.membership_revision (Membership.governance m)) d) d;
  co_valid : Topology.validate t m = Ok tt ∧ Tasks.validate g m = Ok tt;
  co_observations : during start (λ d, StoreFacts.governance_observations (base d) s
    (observation_window p) = Ok o) d;
  co_assessment : Governance.assess (length (Topology.relations t) + 2) p {|
    Governance.membership := m; Governance.topology := t; Governance.tasks := g;
    Governance.waits := StoreFacts.ob_waits o; Governance.progress := StoreFacts.ob_progress o;
    Governance.handoffs := StoreFacts.ob_handoffs o |} = Some a;
}.

Lemma stable_consulted start p s m t g o a : stable (consulted start p s m t g o a).
Proof using.
  intros d d' Hok Hr [Hm Ht Hg Hk Hv Ho Ha]. split; try done; by eapply stable_during.
Qed.

(** How each outcome of [dispatch_message] is justified. *)
Definition dispatched (start : sdb) (r : DispatchMessageRequest) (t : Topology.SessionTopology)
    (a : Governance.GovernanceAssessment) (root : GovernanceCaseId) (now : Z)
    (out : DispatchMessageOutcome) (d : sdb) : Prop :=
  match out with
  | Enqueued x => justified start a root now (Permitted None) d ∧ delivered r t now x d
  | EnqueuedByModerator x decision =>
      justified start a root now (Permitted (Some decision)) d ∧ delivered r t now x d
  | DispatchRequiresArbitration c b => b = a ∧ justified start a root now (Pending c) d
  | DispatchRejectedByModerator c decision => justified start a root now (Rejected c decision) d
  end.

Lemma stable_justified start a root now decision :
  stable (justified start a root now (Permitted decision)).
Proof using.
  destruct decision as [x|]; [|by intros ? ? _ _]. simpl.
  intros d d' Hok Hr (? & Hd & ?). split_and!; [done| |done]. by apply (stable_decided root x d).
Qed.

Lemma serves_graph_read start s r :
  serves start (λ _, True) (task_graph_of s r) (λ g d, g = graph_of s r d).
Proof using Hfaithful.
  unfold task_graph_of. eapply serves_bind; [apply (serves_query _ (λ _, True)), stable_true|].
  intros g. apply serves_ret. by intros d _ Hok [_ <-].
Qed.

Lemma serves_dispatch start cf r now :
  serves start (λ _, True) (dispatch_message cf r now) (λ out d, ∃ m t g o a,
    consulted start (policy cf) (dm_session_id r) m t g o a d ∧
    able m (dm_sender_instance_id r) ∧ able m (dm_recipient_instance_id r) ∧
    dispatched start r t a (governance_case_id "message" (KeyMessage r)
      (Membership.membership_revision (Membership.governance m)) (Topology.topology_revision t))
      now out d).
Proof using Hfaithful.
  unfold dispatch_message. apply serves_deny. intros _.
  eapply serves_read; [apply stable_true|apply serves_membership|]. intros m Hst1.
  eapply serves_check; [done|apply yields_lift, Membership.validate_membership_returns|]. intros [] Hvm.
  eapply serves_check; [done|apply yields_available|]. intros u1 Hs.
  eapply serves_check; [done|apply yields_available|]. intros u2 Hr.
  eapply serves_read; [done|apply serves_topology|]. intros t Hst2.
  eapply serves_check; [done|by apply yields_lift, validated_topology_returns|]. intros [] Hvt.
  pose proof (validated_governed t m Hvm Hvt) as Hgov.
  eapply serves_read; [done|apply serves_graph_read|]. intros g Hst3.
  eapply serves_check; [done|apply yields_lift, Tasks.validate_graph_returns|]. intros [] Hvg.
  apply serves_deny. intros _.
  eapply serves_read; [done|apply serves_observations|]. intros o Hst4.
  eapply serves_check; [done|by apply yields_assess|]. intros a Ha.
  eapply (serves_conseq _ _ (consulted start (policy cf) (dm_session_id r) m t g o a));
    [|by intros d _ ((((_ & ?) & ?) & ?) & ?); split|by intros ? ? _ H; exact H].
  eapply serves_bind; [apply serves_moderate, stable_consulted|].
  set (root := governance_case_id _ _ _ _). intros [decision|c|c decision]; simpl.
  - eapply serves_bind; [apply serves_deliver, stable_and;
      [apply stable_consulted|apply (stable_justified start a root now)]|].
    intros x. apply serves_ret. intros d _ _ [[Hc Hj] Hd]. exists m, t, g, o, a.
    split_and!; try done. destruct decision; by split.
  - apply serves_ret. intros d _ _ [Hc Hj]. by exists m, t, g, o, a.
  - apply serves_ret. intros d _ _ [Hc Hj]. by exists m, t, g, o, a.
Qed.

End governance.
