(* ===== verification/ServiceTasks.v ===== *)
(** What the coordination service promises: claims, tasks, handoffs and decisions. *)

From S2P Require Import Prelude Effects Graph Instance Store StoreRun InstanceStore.
From S2P Require Import InstanceStoreFacts InstanceStoreRun StoreSystem StoreHistory Service.
From S2P Require Import ServiceFacts ServiceGovernance.
From S2P Require Membership.
From S2P Require Topology.
From S2P Require Route.
From S2P Require Tasks.
From S2P Require Mailbox.
From S2P Require Handoff.
From S2P Require Governance.
From S2P Require Arbitration.
From S2P Require StoreTasks.
From S2P Require StoreMessages.
From S2P Require StoreHandoffs.
From S2P Require StoreArbitration.
From S2P Require StoreFacts.
From stdpp Require Import base tactics gmap strings list relations.
From Stdlib Require Import ZArith Lia.

Section tasks.
Context `{Hhash : !HashOrder} `{Hports : !ServicePorts} `{Hfaithful : !FaithfulPorts}.

(** A call of the store as the last one of a method: what it did. *)
Definition committed {A} (start : sdb) (P : sdb → Prop) (f : db → tx A) (a : A) (d : sdb) : Prop :=
  ∃ d0, reaches start d0 ∧ durable_ok d0 ∧ P d0 ∧ f (base d0) = Ok (a, base d) ∧ reaches d0 d.

Lemma serves_task_commit {A} start P (f : db → tx A) (op : StoreTasks.task_op) :
  stable P → (∀ b, ends (f b)) → StoreTasks.op_typed op →
  (∀ b, StoreTasks.exec b op = (run b (f b)).2) →
  serves start P (commit_base f) (λ a d, P d ∧ committed start P f a d).
Proof using Hfaithful.
  intros HP He Hty Hop. eapply serves_post.
  - apply (serves_commit _ P _ (λ _, inl (inl (inl (inl op))))); [done|done|].
    intros d _ _. split; [exact Hty|apply Hop].
  - intros a d Hok (d0 & ? & ? & Hp & Hf & _ & Hr). split; [by apply (HP d0)|]. by exists d0.
Qed.

Lemma serves_mail_commit {A} start P (f : db → tx A) (op : StoreMessages.mail_op) :
  stable P → (∀ b, ends (f b)) → (∀ b, StoreMessages.exec b op = (run b (f b)).2) →
  serves start P (commit_base f) (λ a d, P d ∧ committed start P f a d).
Proof using Hfaithful.
  intros HP He Hop. eapply serves_post.
  - apply (serves_commit _ P _ (λ _, inl (inl (inr op)))); [done|done|].
    intros d _ _. split; [exact I|apply Hop].
  - intros a d Hok (d0 & ? & ? & Hp & Hf & _ & Hr). split; [by apply (HP d0)|]. by exists d0.
Qed.

(** ** Claims of messages *)

(** The outcome of a claim: the store's answer, unless its attempts are used up,
    in which case the message is put away. *)
Definition claimed (start : sdb) (p : Governance.GovernancePolicy) (recipient : AgentInstanceId)
    (now secs : Z) (out : option Mailbox.MessageClaim) (d : sdb) : Prop :=
  ∃ d1 found, during start (λ d0, StoreMessages.claim_message (base d0) recipient now secs =
      Ok (found, d1)) d ∧
  match found, out with
  | None, None => True
  | Some c, Some c' => c' = c ∧
      (Mailbox.delivery_attempts (Mailbox.message c) ≤ Governance.max_message_delivery_attempts p)%Z
  | Some c, None =>
      (Governance.max_message_delivery_attempts p < Mailbox.delivery_attempts (Mailbox.message c))%Z ∧
      Mailbox.state <$> StoreMessages.load_message (base d) (Mailbox.message_id (Mailbox.message c)) =
        Some Mailbox.Delivery.DeadLetter
  | None, Some _ => False
  end.

Lemma serves_claim_next start cf recipient now secs :
  serves start (λ _, True) (claim_next_message cf recipient now secs)
    (claimed start (policy cf) recipient now secs).
Proof using Hfaithful.
  unfold claim_next_message. apply serves_deny. intros _.
  eapply serves_bind; [apply (serves_mail_commit _ (λ _, True) _ (StoreMessages.OpClaim recipient now secs));
    [apply stable_true|intros; apply ends_store_mail|done]|].
  intros found. set (P d := ∃ d1, during start (λ d0,
    StoreMessages.claim_message (base d0) recipient now secs = Ok (found, d1)) d).
  assert (stable P) as HP by (apply stable_exists; intros; apply stable_during).
  apply (serves_conseq _ _ P _ _ (claimed start (policy cf) recipient now secs));
    [| |by intros ? ? _ H; exact H].
  2: { intros d Hok [_ (d0 & Hs & Hok0 & _ & Hf & Hr)]. exists (base d). by exists d0. }
  destruct found as [c|].
  - case_match eqn:Hlim.
    + apply Z.ltb_lt in Hlim. eapply serves_bind; [apply (serves_mail_commit _ P _ (StoreMessages.OpFinish
        (Mailbox.message_id (Mailbox.message c)) recipient (Mailbox.lease_epoch c)
        Mailbox.Delivery.DeadLetter now)); [done|intros; apply ends_store_mail|done]|].
      intros x. apply serves_ret. intros d _ Hok [[d1 Hc] (d0 & _ & _ & _ & Hf & _)].
      exists d1, (Some c). split; [done|]. split; [lia|].
      apply StoreMessages.finish_message_claim_ok in Hf as (r & _ & _ & _ & _ & _ & _ & -> & _).
      unfold StoreMessages.load_message. simpl. by rewrite lookup_insert_eq.
    + apply Z.ltb_ge in Hlim. apply serves_ret. intros d _ _ [d1 Hc]. exists d1, (Some c). by split_and!.
  - apply serves_ret. intros d _ _ [d1 Hc]. by exists d1, None.
Qed.

(** ** New tasks *)

(** Two tasks ask for the same thing. *)
Record same_order (x : Tasks.CoordinationTask) (r : CreateTaskRequest) : Prop := {
  so_id : Tasks.task_id x = ct_task_id r;
  so_session : Tasks.session_id x = ct_session_id r;
  so_parent : Tasks.parent_task_id x = ct_parent_task_id r;
  so_creator : Tasks.created_by x = ct_created_by r;
  so_assignee : Tasks.assigned_to x = Some (ct_assigned_to r);
  so_objective : Tasks.objective x = ct_objective r;
  so_budget : Tasks.token_budget x = ct_token_budget r;
  so_max_handoffs : Tasks.max_handoffs x = ct_max_handoffs r;
}.

Lemma same_task_intent_iff x r : same_task_intent x r = true ↔ same_order x r.
Proof using.
  unfold same_task_intent. rewrite !andb_true_iff, !bool_decide_eq_true, !Z.eqb_eq.
  split; [intros [[[[[[[? ?] ?] ?] ?] ?] ?] ?]; by split|intros []; split_and!; done].
Qed.

(** Who may give whom a task, as a relation. *)
Definition entitled (m : Membership.SessionMembership) (t : Topology.SessionTopology)
    (creator assignee : AgentInstanceId) : Prop :=
  creator = assignee ∨ creator = Membership.moderator_instance_id (Membership.governance m) ∨
  Topology.owns t creator assignee.

Lemma may_assign_iff m t creator assignee :
  may_assign m t creator assignee = true ↔ entitled m t creator assignee.
Proof using.
  unfold may_assign, entitled. rewrite !orb_true_iff, !bool_decide_eq_true.
  assert (existsb (λ r, (Topology.kind r == Topology.ParentOf) && (Topology.source r == creator)
    && (Topology.target r == assignee)) (Topology.relations t) = true ↔
    Topology.owns t creator assignee) as ->; [|tauto].
  rewrite existsb_exists. unfold Topology.owns. setoid_rewrite andb_true_iff.
  setoid_rewrite andb_true_iff. setoid_rewrite bool_decide_eq_true.
  split; intros (r & Hr & ?); exists r; (split; [by apply list_elem_of_In|tauto]).
Qed.

(** The task that is there, or a new one that no hard stop forbids. *)
Definition ordered (start : sdb) (p : Governance.GovernancePolicy) (r : CreateTaskRequest) (now : Z)
    (m : Membership.SessionMembership) (t : Topology.SessionTopology)
    (x : Tasks.CoordinationTask) (d : sdb) : Prop :=
  tasks (base d) !! ct_task_id r = Some x ∧
  (same_order x r ∨
   x = requested_task r m now ∧ ∃ g o a,
     during start (λ d, g = graph_of (ct_session_id r)
       (Membership.membership_revision (Membership.governance m)) d) d ∧
     (∀ parent, ct_parent_task_id r = Some parent → ∃ y, y ∈ Tasks.tasks g ∧ Tasks.task_id y = parent) ∧
     during start (λ d, StoreFacts.governance_observations (base d) (ct_session_id r) 1 = Ok o) d ∧
     Tasks.validate (push_task g x) m = Ok tt ∧
     Governance.assess (length (Topology.relations t) + 2) p {|
       Governance.membership := m; Governance.topology := t; Governance.tasks := push_task g x;
       Governance.waits := StoreFacts.ob_waits o; Governance.progress := StoreFacts.ob_progress o;
       Governance.handoffs := StoreFacts.ob_handoffs o |} = Some a ∧
     Governance.has_hard_stop a = false).

Lemma serves_create_task start cf r now :
  (0 ≤ ct_token_budget r)%Z →
  serves start (λ _, True) (create_task cf r now) (λ x d, ∃ m t,
    during start (λ d, session_membership d (ct_session_id r) = Ok (Some m) ∧
      Membership.validate m = Ok tt) d ∧
    during start (λ d, topologies (base d) !! ct_session_id r = Some t) d ∧
    able m (ct_created_by r) ∧ able m (ct_assigned_to r) ∧
    entitled m t (ct_created_by r) (ct_assigned_to r) ∧ ordered start (policy cf) r now m t x d).
Proof using Hfaithful.
  intros Hb. unfold create_task. apply serves_deny. intros _.
  eapply serves_read; [apply stable_true|apply serves_membership|]. intros m Hst1.
  eapply serves_check; [done|apply yields_lift, Membership.validate_membership_returns|]. intros [] Hvm.
  eapply serves_check; [done|apply yields_available|]. intros u1 Hc.
  eapply serves_check; [done|apply yields_available|]. intros u2 Ha.
  eapply serves_read; [done|apply serves_topology|]. intros t Hst2.
  eapply serves_check; [done|by apply yields_lift, validated_topology_returns|]. intros [] Hvt.
  pose proof (validated_governed t m Hvm Hvt) as Hgov.
  apply serves_deny. intros Hent. apply negb_false_iff, may_assign_iff in Hent.
  eapply serves_then; [done|apply serves_reading|]. intros [x|].
  { case_match eqn:Hs; [|apply serves_fail]. apply same_task_intent_iff in Hs.
    apply serves_ret. intros d _ _ [[[_ ?] ?] ?]. exists m, t. split_and!; try done. split; [done|by left]. }
  eapply (serves_conseq _ _ (λ d, (True ∧ during start (λ d, session_membership d (ct_session_id r) =
    Ok (Some m) ∧ Membership.validate m = Ok tt) d) ∧
    during start (λ d, topologies (base d) !! ct_session_id r = Some t) d));
    [|by intros d _ [? _]|by intros ? ? _ H; exact H].
  eapply serves_read; [done|apply serves_graph_read|]. intros g Hst3.
  apply serves_deny. intros Hpar. set (task := requested_task r m now).
  eapply serves_check; [done|apply yields_lift, Tasks.validate_graph_returns|]. intros [] Hvg.
  eapply serves_read; [done|apply serves_observations|]. intros o Hst4.
  eapply serves_check; [done|by apply yields_assess|]. intros a Has.
  apply serves_deny. intros Hhs.
  eapply serves_bind; [apply (serves_task_commit _ _ _ (StoreTasks.OpCreate task));
    [done|intros; apply ends_store_tasks|simpl; lia|done]|].
  intros []. apply serves_ret.
  intros d _ _ [[[[[_ Hm] Ht] Hg] Ho] (d0 & _ & _ & _ & Hf & _)]. exists m, t. split_and!; try done.
  apply StoreTasks.create_task_ok in Hf as (_ & Hd & _). split; [by rewrite Hd; apply lookup_insert_eq|].
  right. split; [done|]. exists g, o, a.
  assert (Tasks.g_session_id g = ct_session_id r) as Hgs
    by (destruct Hg as (d1 & _ & _ & -> & _); apply graph_of_session).
  simpl in Ho. rewrite Hgs in Ho. split_and!; try done. intros parent Hp. rewrite Hp in Hpar.
  apply negb_false_iff, existsb_exists in Hpar as (y & Hy & Hid). exists y.
  split; [by apply list_elem_of_In|by apply bool_decide_eq_true in Hid].
Qed.

(** ** Commands on tasks *)

Definition moderates (m : Membership.SessionMembership) (i : AgentInstanceId) : Prop :=
  i = Membership.moderator_instance_id (Membership.governance m).

(** Who may move a task where: the moderator accepts a review; the moderator, the
    owner and the creator cancel; everything else is up to the owner. *)
Definition authority (m : Membership.SessionMembership) (x : Tasks.CoordinationTask)
    (actor : AgentInstanceId) (next : Tasks.CoordinationTaskState) : Prop :=
  if decide (Tasks.state x = Tasks.TaskState.AwaitingReview ∧ next = Tasks.TaskState.Completed)
  then moderates m actor
  else if decide (next = Tasks.TaskState.Cancelled)
  then moderates m actor ∨ Tasks.assigned_to x = Some actor ∨ Tasks.created_by x = actor
  else Tasks.assigned_to x = Some actor.

Lemma may_transition_iff m x actor next :
  may_transition m x actor next = true ↔ authority m x actor next.
Proof using.
  unfold may_transition, authority, moderates. rewrite <- bool_decide_and.
  do 2 (case_bool_decide; [rewrite decide_True by done|rewrite decide_False by done];
    rewrite ?orb_true_iff, ?bool_decide_eq_true; try tauto).
Qed.

(** The member and the task that a command was checked against. *)
Definition checked (start : sdb) (s : SessionId) (id : TaskId) (actor : AgentInstanceId)
    (m : Membership.SessionMembership) (x : Tasks.CoordinationTask) (d : sdb) : Prop :=
  during start (λ d, session_membership d s = Ok (Some m) ∧ Membership.validate m = Ok tt) d ∧
  during start (λ d, tasks (base d) !! id = Some x) d ∧ able m actor.

Lemma serves_checked {A} start s id actor (k : Membership.SessionMembership → Tasks.CoordinationTask → svc A) Q :
  (∀ m x, stable (checked start s id actor m x) →
     serves start (checked start s id actor m x) (k m x) (Q m x)) →
  serves start (λ _, True) (m <~ session_membership_of s;;
    perform ensure_available m actor;; x <~ task_of id;; k m x) (λ a d, ∃ m x, Q m x a d).
Proof using Hfaithful.
  intros Hk. eapply serves_read; [apply stable_true|apply serves_membership|]. intros m Hst1.
  eapply serves_check; [done|apply yields_available|]. intros u1 Ha.
  eapply serves_read; [done|apply serves_task|]. intros x Hst2.
  assert (stable (checked start s id actor m x)) as Hst.
  { apply stable_and; [apply stable_during|]. apply stable_and; [apply stable_during|apply stable_true]. }
  eapply serves_conseq; [apply (Hk m x Hst)|by intros d _ [[_ ?] ?]|].
  intros a d _ ?. by exists m, x.
Qed.

Lemma serves_transition start r now :
  serves start (λ _, True) (transition_task r now) (λ y d, ∃ m x,
    checked start (tt_session_id r) (tt_task_id r) (tt_actor r) m x d ∧
    Tasks.session_id x = tt_session_id r ∧ authority m x (tt_actor r) (tt_next_state r) ∧
    Tasks.state x ≠ Tasks.TaskState.Running ∧ tt_next_state r ≠ Tasks.TaskState.Running ∧
    (Tasks.consumed_tokens x ≤ tt_consumed_tokens r ≤ Tasks.token_budget x)%Z ∧
    ∃ row, tasks (base d) !! tt_task_id r = Some row ∧ Tasks.state row = tt_next_state r ∧
      Tasks.consumed_tokens row = tt_consumed_tokens r ∧ Tasks.revision row = (Tasks.revision x + 1)%Z).
Proof using Hfaithful.
  apply serves_checked. intros m x Hst.
  apply serves_deny. intros Hs. apply serves_deny. intros Hrun. apply serves_deny. intros Hauth.
  apply serves_deny. intros Hc. apply orb_false_iff in Hrun as [Hrun Hnext], Hc as [Hc1 Hc2].
  apply negb_false_iff, may_transition_iff in Hauth. apply negb_bool_decide_false in Hs.
  apply bool_decide_eq_false in Hrun, Hnext. apply Z.ltb_ge in Hc1, Hc2.
  eapply serves_check; [done|apply yields_demand|]. intros rev Hrev.
  apply checked_add_some in Hrev as [-> _]. set (next := StoreTasks.put_task _ _ _ _ _ _ _).
  eapply serves_bind; [apply (serves_task_commit _ _ _ (StoreTasks.OpUpdate next (Tasks.revision x)));
    [done|intros; apply ends_store_tasks|done|done]|].
  intros []. apply serves_ret. intros d _ _ [Hck (d0 & _ & [[Hok _ _ _ _] _ _] & _ & Hf & _)].
  pose proof Hck as (_ & Hx & _). split_and!; try done.
  apply StoreTasks.update_task_ok in Hf as (row & row' & _ & Hrev & Hd & [Hev _] & Hst' & Hct); [|done].
  assert (Tasks.task_id x = tt_task_id r) as Hid.
  { destruct Hx as (d1 & _ & [[[Hrows _] _ _ _ _] _ _] & Hx & _). by apply Hrows in Hx as [? _]. }
  exists row'. rewrite Hd. simpl. rewrite Hid, lookup_insert_eq. split_and!; [done..|].
  destruct Hev as [_ _ _ _ [-> _] _]. by rewrite Hrev.
Qed.

Lemma serves_claim start r now :
  serves start (λ _, True) (claim_task r now) (λ l d, ∃ m x,
    checked start (cl_session_id r) (cl_task_id r) (cl_actor r) m x d ∧
    Tasks.session_id x = cl_session_id r ∧ Tasks.assigned_to x = Some (cl_actor r) ∧
    leases (base d) !! cl_task_id r = Some l ∧ Tasks.l_assignee l = cl_actor r ∧
    Tasks.l_claim_owner_id l = cl_claim_owner_id r).
Proof using Hfaithful.
  apply serves_checked. intros m x Hst. apply serves_deny. intros Hs.
  apply orb_false_iff in Hs as [Hs Ha]. apply negb_bool_decide_false in Hs, Ha.
  eapply serves_bind; [apply serves_get|]. intros w. simpl.
  eapply serves_post; [apply (serves_task_commit _ _ _ (StoreTasks.OpClaim (drawn_token (clock w))
    (cl_task_id r) (cl_actor r) (cl_claim_owner_id r) now (cl_lease_seconds r)));
    [done|intros; apply ends_store_tasks|done|done]|].
  intros l d _ [Hck (d0 & _ & [[Hok _ _ _ _] _ _] & _ & Hf & _)].
  apply StoreTasks.claim_task_ok in Hf
    as (y & _ & _ & [[(Hl & _ & ? & ? & _) Hd]|(y' & _ & [_ _ [? ?] _ _ _] & Hd)]); [| |done];
    rewrite Hd; split_and!; try done. simpl. apply lookup_insert_eq.
Qed.


Lemma serves_cancel start r now :
  serves start (λ _, True) (cancel_task r now) (λ y d, ∃ m x,
    checked start (ca_session_id r) (ca_task_id r) (ca_actor r) m x d ∧
    Tasks.session_id x = ca_session_id r ∧
    (moderates m (ca_actor r) ∨ Tasks.assigned_to x = Some (ca_actor r) ∨
     Tasks.created_by x = ca_actor r) ∧
    tasks (base d) !! ca_task_id r = Some y ∧ Tasks.state y = Tasks.TaskState.Cancelled).
Proof using Hfaithful.
  apply serves_checked. intros m x Hst. apply serves_deny. intros Hs.
  apply orb_false_iff in Hs as [Hs Ha]. apply negb_bool_decide_false in Hs.
  eapply serves_post; [apply (serves_task_commit _ _ _ (StoreTasks.OpCancel (ca_task_id r) now));
    [done|intros; apply ends_store_tasks|done|done]|].
  intros y d _ [Hck (d0 & _ & [[Hok _ _ _ _] _ _] & _ & Hf & _)].
  apply StoreTasks.cancel_ok in Hf as (t & Ht & Hs' & Hd); [|done]. split_and!; try done.
  - unfold moderates. rewrite !andb_false_iff, !negb_false_iff, !bool_decide_eq_true in Ha. tauto.
  - destruct Hd as [[-> ->]|[_ ->]]; [done|]. simpl. by rewrite lookup_insert_eq.
Qed.

(** ** Decisions *)

Definition ruled (x : Arbitration.ModeratorDecision) (c : Arbitration.ArbitrationCase) (d : sdb) : Prop :=
  cases (base d) !! Arbitration.d_case_id x = Some c ∧
  Arbitration.state c = Arbitration.ArbitrationState.Applied ∧
  decisions (base d) !! Arbitration.d_case_id x = Some x.

Lemma stable_ruled x c : stable (ruled x c).
Proof using.
  intros d d' Hok Hr (Hc & Hs & Hx). split_and!; [|done|].
  - by destruct (stable_settled (Arbitration.d_case_id x) c d d' Hok Hr) as [? _]; [rewrite Hs|].
  - by apply (stable_decision (Arbitration.d_case_id x) x d).
Qed.

Lemma serves_decide start x now :
  serves start (λ _, True) (decide_arbitration x now) (λ c d, ruled x c d).
Proof using Hfaithful.
  unfold decide_arbitration. set (id := Arbitration.d_case_id x).
  eapply serves_then; [apply stable_true|apply serves_reading|]. intros found.
  eapply serves_bind; [apply serves_demand|]. intros c. case_bool_decide as Hs.
  - apply (serves_conseq _ _ (λ d, cases (base d) !! id = Some c ∧
      Arbitration.state c ≠ Arbitration.ArbitrationState.Open) _ _ (λ c, ruled x c)).
    + eapply serves_then; [apply stable_settled|apply serves_reading|]. intros o.
      case_bool_decide as Ho; [|apply serves_fail]. apply serves_ret. intros d _ _ [[Hc _] Hx].
      split_and!; [done|done|]. unfold StoreArbitration.load_moderator_decision in Hx. by rewrite <- Ho.
    + intros d _ [[_ Hl] Hf]. split; [by rewrite <- Hf|by rewrite Hs].
    + by intros ? ? _ H.
  - apply (serves_weaken start). apply serves_deny. intros _.
    eapply serves_check; [apply stable_true|apply yields_membership|]. intros m _.
    eapply serves_check; [apply stable_true|apply tame_topology|]. intros t _.
    eapply serves_bind; [apply serves_graph|]. intros g.
    eapply serves_post; [apply (serves_commit _ (reading g) _ (λ _, inl (inr
      (StoreArbitration.OpDecide x m g (Topology.topology_revision t) now))));
      [apply reading_stable|intros; apply ends_store_cases|]|].
    { intros d _ Hg. split; [by apply reading_snapshot|done]. }
    intros c' d _ (d0 & _ & [[Htok _ _ Hcok _] _ _] & Hg & Hf & _).
    apply StoreArbitration.decide_arbitration_ok in Hf
      as (c0 & _ & _ & _ & _ & _ & Hd & -> & Hc & _); [|done|done|by apply reading_snapshot].
    split_and!; [by rewrite Hc, lookup_insert_eq|done|by rewrite Hd, lookup_insert_eq].
Qed.

(** Steps of a call whose answers are known. *)
Lemma run_query {A B} (f : sdb → A) (k : A → svc B) w :
  ebind (query f) k w = k (f (data (arrive w))) (arrive w).
Proof using. done. Qed.

Lemma run_demand {A B} (a : A) e (k : A → svc B) w : ebind (demand (Some a) e) k w = k a w.
Proof using. done. Qed.

Lemma run_deny {B} b e (k : svc B) w : b = false → (deny b with e;; k) w = k w.
Proof using. by intros ->. Qed.

(** However late, the same decision is answered with its case, and another one is
    refused. *)
Lemma decide_again w x c y now :
  durable_ok (data w) → ruled x c (data w) → Arbitration.d_case_id y = Arbitration.d_case_id x →
  (decide_arbitration y now w).2 = if decide (y = x) then Ok c else Err IdempotencyConflict.
Proof using Hfaithful.
  intros Hok Hx Hid. pose proof (arrive_reaches w Hok) as Hr.
  pose proof (stable_ruled x c _ _ Hok Hr Hx) as (Hc & Hs & _).
  pose proof (reaches_ok _ _ Hok Hr) as Hok1. pose proof (arrive_reaches (arrive w) Hok1) as Hr1.
  pose proof (stable_ruled x c _ _ Hok1 Hr1 (stable_ruled x c _ _ Hok Hr Hx)) as (_ & _ & Hd).
  unfold decide_arbitration. rewrite Hid, run_query.
  unfold StoreArbitration.load_arbitration_case. rewrite Hc, run_demand, bool_decide_eq_true_2, run_query by done.
  unfold StoreArbitration.load_moderator_decision. rewrite Hd.
  destruct (decide (y = x)) as [->|Hne]; [by rewrite bool_decide_eq_true_2|].
  by rewrite bool_decide_eq_false_2 by congruence.
Qed.

(** ** Handoffs *)

Definition verdict_of (accept : bool) : Handoff.HandoffState :=
  if accept then Handoff.State.Accepted else Handoff.State.Rejected.

(** The handoff has the verdict of its arbitrator. *)
Definition judged (s : SessionId) (id : Handoff.HandoffId) (arbitrator : AgentInstanceId)
    (accept : bool) (h : Handoff.TaskHandoff) (d : sdb) : Prop :=
  handoffs (base d) !! id = Some h ∧ Handoff.session_id h = s ∧
  Handoff.arbitrator_instance_id h = arbitrator ∧ Handoff.state h = verdict_of accept.

Lemma stable_judged s id a b h : stable (judged s id a b h).
Proof using.
  intros d d' Hok Hr (Hh & ? & ? & Hs). split_and!; try done.
  destruct (rm_handoffs _ _ (reaches_remembers d d' Hok Hr) _ _ Hh) as (h' & -> & _ & Hk).
  rewrite Hk; [done|]. rewrite Hs. by destruct b.
Qed.

(** Who judges a handoff never changes. *)
Definition addressed (s : SessionId) (id : Handoff.HandoffId) (arbitrator : AgentInstanceId)
    (d : sdb) : Prop :=
  ∃ h, handoffs (base d) !! id = Some h ∧ Handoff.session_id h = s ∧
    Handoff.arbitrator_instance_id h = arbitrator.

Lemma stable_addressed s id a : stable (addressed s id a).
Proof using.
  intros d d' Hok Hr (h & Hh & ? & ?).
  destruct (rm_handoffs _ _ (reaches_remembers d d' Hok Hr) _ _ Hh) as (h' & Hh' & (? & ? & ? & ->) & _).
  eexists. by split_and!.
Qed.

Lemma serves_decide_handoff start s id arbitrator accept now :
  serves start (λ _, True) (decide_handoff s id arbitrator accept now) (judged s id arbitrator accept).
Proof using Hfaithful.
  unfold decide_handoff. eapply serves_bind; [apply serves_reading|]. intros found.
  eapply serves_bind; [apply serves_demand|]. intros h.
  apply serves_deny. intros Hs. apply negb_bool_decide_false in Hs.
  apply serves_deny. intros Ha. apply negb_bool_decide_false in Ha. case_bool_decide as Hst.
  - apply serves_ret. intros d _ _ [Hl Hf]. split_and!; try done. by rewrite <- Hf.
  - apply serves_deny. intros Hw. apply (serves_conseq _ _ (addressed s id arbitrator) _ _
      (judged s id arbitrator accept)); [|by intros d _ [Hl Hf]; exists h; rewrite <- Hf|by intros ? ? _ H].
    eapply serves_post; [apply (serves_commit _ (addressed s id arbitrator) _ (λ _, inl (inl (inl (inr
      (OpTransition id arbitrator (verdict_of accept) (Handoff.revision h) now))))));
      [apply stable_addressed|intros; apply ends_store_handoffs|done]|].
    intros h' d _ (d0 & _ & [[Htok Hhok _ _ _] _ _] & (h1 & Hh1 & ? & ?) & Hf & _).
    apply StoreHandoffs.transition_handoff_ok in Hf
      as (h0 & Hh0 & _ & _ & _ & _ & -> & Hd & _); [|done|done].
    assert (h0 = h1) as -> by congruence. unfold judged. rewrite Hd. simpl.
    rewrite lookup_insert_eq. by split_and!.
Qed.

(** However late, the verdict stands: it is confirmed, and its opposite refused. *)
Lemma decide_handoff_again w s id arbitrator accept h again now :
  durable_ok (data w) → judged s id arbitrator accept h (data w) →
  (decide_handoff s id arbitrator again now w).2 =
    if decide (again = accept) then Ok h else Err InvalidHandoff.
Proof using Hfaithful.
  intros Hok Hj. pose proof (stable_judged s id arbitrator accept h _ _ Hok (arrive_reaches w Hok) Hj)
    as (Hh & Hs & Ha & Hst).
  unfold decide_handoff. rewrite run_query. unfold StoreHandoffs.load_handoff. rewrite Hh, run_demand.
  rewrite !run_deny by (by apply negb_bool_decide_false). rewrite Hst.
  by destruct again, accept.
Qed.

End tasks.

Section agents.
Context `{Hhash : !HashOrder} `{Hports : !ServicePorts} `{Hfaithful : !FaithfulPorts}.

(** The tasks as they would be at another revision of the membership. *)
Definition rebased_graph (g : Tasks.SessionTaskGraph) (revision : Z) : Tasks.SessionTaskGraph := {|
  Tasks.g_session_id := Tasks.g_session_id g; Tasks.g_membership_revision := revision;
  Tasks.tasks := (λ x, StoreArbitration.rebased x revision) <$> Tasks.tasks g;
  Tasks.dependencies := Tasks.dependencies g |}.

(** The next state of a session with one more participant below its sponsor: it
    is valid, it is what the assessment is about, and nothing else changed. *)
Record spawned (start : sdb) (pol : Governance.GovernancePolicy) (session : SessionId)
    (sponsor : AgentInstanceId) (p : AgentInstance) (m : Membership.SessionMembership)
    (t : Topology.SessionTopology) (now : Z) (x : spawn) (d : sdb) : Prop := {
  sw_members : Membership.participants (sp_membership x) = Membership.participants m ++ [p];
  sw_revision : Membership.membership_revision (Membership.governance (sp_membership x)) =
    (Membership.membership_revision (Membership.governance m) + 1)%Z;
  sw_moderator : Membership.moderator_instance_id (Membership.governance (sp_membership x)) =
    Membership.moderator_instance_id (Membership.governance m);
  sw_valid : Membership.validate (sp_membership x) = Ok tt;
  sw_relations : Topology.relations (sp_topology x) = Topology.relations t ++ [{|
    Topology.source := sponsor; Topology.target := instance_id p;
    Topology.kind := Topology.ParentOf; Topology.r_created_at := now |}];
  sw_governed : Topology.governed (sp_topology x) (sp_membership x);
  sw_topology : Topology.topology_revision (sp_topology x) = (Topology.topology_revision t + 1)%Z ∧
    Topology.validate (sp_topology x) (sp_membership x) = Ok tt;
  sw_assessed : ∃ g o,
    let next := Membership.membership_revision (Membership.governance (sp_membership x)) in
    during start (λ d, g = graph_of session next d) d ∧
    Tasks.validate (rebased_graph g next) (sp_membership x) = Ok tt ∧
    during start (λ d, StoreFacts.governance_observations (base d) session (observation_window pol) = Ok o) d ∧
    Governance.assess (length (Topology.relations (sp_topology x)) + 2) pol {|
      Governance.membership := sp_membership x; Governance.topology := sp_topology x;
      Governance.tasks := rebased_graph g next; Governance.waits := StoreFacts.ob_waits o;
      Governance.progress := StoreFacts.ob_progress o;
      Governance.handoffs := StoreFacts.ob_handoffs o |} = Some (sp_assessment x);
}.

Lemma stable_spawned start pol s sponsor p m t now x : stable (spawned start pol s sponsor p m t now x).
Proof using.
  intros d d' Hok Hr [? ? ? ? ? ? ? (g & o & Hg & Hv & Ho & Ha)]. split; try done.
  exists g, o. split_and!; [by eapply stable_during|done|by eapply stable_during|done].
Qed.

Lemma serves_spawn start P cf s sponsor p m t now :
  stable P →
  serves start P (propose_spawn cf s sponsor p m t now)
    (λ x d, P d ∧ spawned start (policy cf) s sponsor p m t now x d).
Proof using Hfaithful.
  intros HP. unfold propose_spawn.
  eapply serves_check; [done|apply yields_demand|]. intros mr Hmr. apply checked_add_some in Hmr as [-> _].
  eapply serves_check; [done|apply yields_lift, new_membership_returns|]. intros nm Hnm.
  pose proof (new_membership_valid _ _ _ _ Hnm) as Hvm.
  apply res_bind_ok in Hnm as ([] & _ & [= Hnm]).
  eapply serves_check; [done|apply yields_demand|]. intros tr Htr. apply checked_add_some in Htr as [-> _].
  eapply serves_check; [done|by apply yields_lift, new_topology_returns|]. intros nt Hnt.
  pose proof (new_topology_governed _ _ _ _ _ _ _ Hvm Hnt) as Hgov.
  apply res_bind_ok in Hnt as ([] & Hvt & [= Hnt]).
  eapply serves_read; [done|apply serves_graph_read|]. intros g Hst1.
  eapply serves_check; [done|apply yields_lift, Tasks.validate_graph_returns|]. intros [] Hvg.
  eapply serves_read; [done|apply serves_observations|]. intros o Hst2.
  eapply serves_check; [done|by apply yields_assess|]. intros a Ha.
  apply serves_ret. intros d _ _ [[Hp Hg] Ho]. split; [done|].
  subst nm nt. split; simpl; try done. by exists g, o.
Qed.

(** The participant was appended by the last call. *)
Definition appended_by (start : sdb) (p : AgentInstance) (seed : AgentInstanceConfigSeed)
    (x : spawn) (m : Membership.SessionMembership) (t : Topology.SessionTopology)
    (p' : AgentInstance) (d : sdb) : Prop :=
  ∃ d0, reaches start d0 ∧ durable_ok d0 ∧
    add_session_participant d0 p seed (sp_membership x) (sp_topology x)
      (Membership.membership_revision (Membership.governance m)) (Topology.topology_revision t) =
      Ok (p', d).

Lemma serves_commit_spawn start P p seed x m t :
  stable P → serves start P (commit_spawn p seed x m t) (λ p' d, P d ∧ appended_by start p seed x m t p' d).
Proof using Hfaithful.
  intros HP. unfold commit_spawn.
  set (op := OpAddParticipant p seed (sp_membership x) (sp_topology x)
    (Membership.membership_revision (Membership.governance m)) (Topology.topology_revision t)).
  assert (∀ d a d', add_session_participant d p seed (sp_membership x) (sp_topology x)
    (Membership.membership_revision (Membership.governance m)) (Topology.topology_revision t) =
    Ok (a, d') → reaches d d') as Hadd.
  { intros d a d' Ha. pose proof (reaches_op d op I) as Hr. simpl in Hr. by rewrite Ha in Hr. }
  eapply serves_post; [apply serves_call; [exact HP|intros; apply ends_instances|]|].
  - intros d a d' _ _ _. apply Hadd.
  - intros a d _ (d0 & ? & ? & Hp & Ha). split; [apply (HP d0); [done|by eapply Hadd|done]|]. by exists d0.
Qed.

(** ** Forks *)

Lemma sequences_bound (l : list Z) (z : Z) :
  z ∈ l → (z ≤ match l with [] => 0 | x :: xs => foldr Z.max x xs end)%Z.
Proof using.
  destruct l as [|x xs]; [by intros ?%not_elem_of_nil|]. revert x.
  induction xs as [|y ys IH]; intros x; simpl.
  - by intros ->%list_elem_of_singleton.
  - intros Hz. apply elem_of_cons in Hz as [->|Hz]; [etrans; [apply (IH x); left|lia]|].
    apply elem_of_cons in Hz as [->|Hz]; [lia|]. etrans; [apply (IH x); by right|lia].
Qed.

(** What a fork is made of. *)
Definition forks (start : sdb) (pol : Governance.GovernancePolicy) (r : ForkAgentRequest)
    (m : Membership.SessionMembership) (t : Topology.SessionTopology) (parent : AgentInstance)
    (k : Z) (x : spawn) (now : Z) (d : sdb) : Prop :=
  during start (λ d, topologies (base d) !! fa_session_id r = Some t) d ∧
  (∀ j, j ∈ fork_sequences m (fa_parent_instance_id r) → (j < k)%Z) ∧
  spawned start pol (fa_session_id r) (fa_parent_instance_id r) (forked_participant r parent k now)
    m t now x d.

(** How each outcome of [fork_agent] came about. *)
Definition fork_outcome (start : sdb) (pol : Governance.GovernancePolicy) (r : ForkAgentRequest)
    (m : Membership.SessionMembership) (parent : AgentInstance) (now : Z) (out : ForkAgentOutcome)
    (d : sdb) : Prop :=
  match Membership.find_participant (Membership.participants m) (fa_instance_id r) with
  | Some p => out = ForkCreated p ∧ same_fork_intent p parent r = true
  | None => ∃ t k x, forks start pol r m t parent k x now d ∧
      let root := governance_case_id "fork" (KeyFork r)
        (Membership.membership_revision (Membership.governance m)) (Topology.topology_revision t) in
      let made := appended_by start (forked_participant r parent k now)
        (InheritFrom (fa_parent_instance_id r)) x m t in
      match out with
      | ForkCreated p => justified start (sp_assessment x) root now (Permitted None) d ∧ made p d
      | ForkCreatedByModerator p decision =>
          justified start (sp_assessment x) root now (Permitted (Some decision)) d ∧ made p d
      | ForkRequiresArbitration c a =>
          a = sp_assessment x ∧ justified start a root now (Pending c) d
      | ForkRejectedByModerator c decision =>
          justified start (sp_assessment x) root now (Rejected c decision) d
      end
  end.

Lemma serves_fork start cf r now :
  serves start (λ _, True) (fork_agent cf r now) (λ out d, ∃ m parent,
    during start (λ d, session_membership d (fa_session_id r) = Ok (Some m) ∧
      Membership.validate m = Ok tt) d ∧
    Membership.find_participant (Membership.participants m) (fa_parent_instance_id r) = Some parent ∧
    able m (fa_parent_instance_id r) ∧ fork_outcome start (policy cf) r m parent now out d).
Proof using Hfaithful.
  unfold fork_agent. apply serves_deny. intros _.
  eapply serves_read; [apply stable_true|apply serves_membership|]. intros m Hst1.
  eapply serves_check; [done|apply yields_demand|]. intros parent Hp.
  eapply serves_check; [done|apply yields_available|]. intros u Hab. unfold fork_outcome.
  destruct (Membership.find_participant _ (fa_instance_id r)) as [p|] eqn:Ef.
  { eapply serves_check; [done|apply yields_available|]. intros u' _.
    case_match eqn:Hs; [|apply serves_fail]. apply serves_ret. intros d _ _ [_ Hm].
    exists m, parent. by rewrite Ef. }
  eapply serves_read; [done|apply serves_topology|]. intros t Hst2.
  eapply serves_check; [done|apply yields_demand|]. intros k Hk. apply checked_add_some in Hk as [-> _].
  set (k := (_ + 1)%Z). set (p := forked_participant r parent k now).
  assert (∀ j, j ∈ fork_sequences m (fa_parent_instance_id r) → (j < k)%Z) as Hseq
    by (intros j Hj; apply sequences_bound in Hj; unfold k; lia).
  eapply serves_bind; [by apply serves_spawn|]. intros x.
  assert (stable (λ d, ((True ∧ during start (λ d, session_membership d (fa_session_id r) =
    Ok (Some m) ∧ Membership.validate m = Ok ()) d) ∧
    during start (λ d, topologies (base d) !! fa_session_id r = Some t) d) ∧
    spawned start (policy cf) (fa_session_id r) (fa_parent_instance_id r) p m t now x d)) as Hst3
    by (apply stable_and; [done|apply stable_spawned]).
  eapply serves_bind; [by apply serves_moderate|].
  set (root := governance_case_id _ _ _ _). intros [decision|c|c decision]; cbn [justified].
  - eapply serves_bind; [apply serves_commit_spawn, stable_and;
      [exact Hst3|apply (stable_justified start (sp_assessment x) root now decision)]|].
    intros p'. apply serves_ret. intros d _ _ [[[[[_ Hm] Ht] Hx] Hj] Hmade].
    exists m, parent. rewrite Ef. split_and!; try done. exists t, k, x. split; [done|].
    by destruct decision.
  - apply serves_ret. intros d _ _ [[[[_ Hm] Ht] Hx] Hj]. exists m, parent. rewrite Ef.
    split_and!; try done. by exists t, k, x.
  - apply serves_ret. intros d _ _ [[[[_ Hm] Ht] Hx] Hj]. exists m, parent. rewrite Ef.
    split_and!; try done. by exists t, k, x.
Qed.

End agents.
