(* ===== verification/Sample.v ===== *)
(** A small session: one moderator that owns two workers, its tasks, messages
    and stores.  The properties of the library are instantiated on it, which
    shows that their hypotheses can hold. *)

From S2P Require Import Prelude Graph Instance Store StoreRun.
From S2P Require Membership Topology Tasks Mailbox Handoff Workspace Governance Arbitration.
From S2P Require StoreTasks StoreMessages StoreHandoffs StoreArbitration StoreFacts.
From stdpp Require Import base tactics gmap strings list.
From Stdlib Require Import ZArith.

Local Open Scope Z_scope.

(** * The session *)

Definition agent (i : string) (r : SessionAgentRole) : AgentInstance := {|
  instance_id := i; ai_session_id := "s";
  definition := {| agent_id := "coder"; definition_revision := 1 |};
  origin := Defined; role := r; history_view := SharedLane 0; approval_route := RouteUser;
  ai_state := InstanceState.Ready; lifecycle_revision := 1; capability_revision := "caps";
  ai_created_at := 0; ai_updated_at := 0;
|}.

Definition governed_by : Membership.SessionGovernance := {|
  Membership.g_session_id := "s"; Membership.moderator_instance_id := "m";
  Membership.governance_revision := "g1"; Membership.membership_revision := 1;
  Membership.lease_epoch := 1; Membership.fencing_token := 7; Membership.g_updated_at := 0;
|}.

Definition members : Membership.SessionMembership := {|
  Membership.m_session_id := "s";
  Membership.participants := [agent "m" Moderator; agent "w1" Worker; agent "w2" Worker];
  Membership.governance := governed_by;
|}.

Definition relation (u v : string) (k : Topology.AgentRelationKind) : Topology.AgentRelation := {|
  Topology.source := u; Topology.target := v; Topology.kind := k; Topology.r_created_at := 0;
|}.

Definition hierarchy (rev : Z) : Topology.SessionTopology := {|
  Topology.session_id := "s"; Topology.membership_revision := 1;
  Topology.topology_revision := rev;
  Topology.relations := [relation "m" "w1" Topology.ParentOf; relation "m" "w2" Topology.ParentOf];
  Topology.updated_at := 0;
|}.

Definition task (i : string) (parent : option string) (a : string) (s : Tasks.CoordinationTaskState)
    : Tasks.CoordinationTask := {|
  Tasks.task_id := i; Tasks.session_id := "s"; Tasks.membership_revision := 1;
  Tasks.parent_task_id := parent; Tasks.created_by := "m"; Tasks.assigned_to := Some a;
  Tasks.objective := "build"; Tasks.state := s; Tasks.token_budget := 100;
  Tasks.consumed_tokens := 0; Tasks.max_handoffs := 2; Tasks.handoff_count := 0;
  Tasks.revision := 0; Tasks.created_at := 0; Tasks.updated_at := 0;
|}.

Definition graph : Tasks.SessionTaskGraph := {|
  Tasks.g_session_id := "s"; Tasks.g_membership_revision := 1;
  Tasks.tasks := [task "t" None "w1" Tasks.TaskState.Ready;
                  task "u" (Some "t") "w2" Tasks.TaskState.Ready];
  Tasks.dependencies := [{| Tasks.prerequisite := "t"; Tasks.dependent := "u" |}];
|}.

Definition message (i : string) (created : Z) : Mailbox.CoordinationMessage := {|
  Mailbox.message_id := i; Mailbox.session_id := "s"; Mailbox.sender_instance_id := "w1";
  Mailbox.recipient_instance_id := "w2"; Mailbox.task_id := Some "t";
  Mailbox.kind := Mailbox.Question; Mailbox.payload := "which schema?";
  Mailbox.topology_revision := 0; Mailbox.route := ["w1"; "m"; "w2"]; Mailbox.max_hops := 4;
  Mailbox.state := Mailbox.Delivery.Pending; Mailbox.delivery_attempts := 0;
  Mailbox.revision := 0; Mailbox.expires_at := 1000; Mailbox.created_at := created;
  Mailbox.updated_at := created;
|}.

(** The first worker, running its task, asks to hand it over. *)
Definition handoff : Handoff.TaskHandoff := {|
  Handoff.handoff_id := "h"; Handoff.session_id := "s"; Handoff.task_id := "t";
  Handoff.from_instance_id := "w1"; Handoff.to_instance_id := "w2";
  Handoff.requested_by := "w1"; Handoff.arbitrator_instance_id := "m";
  Handoff.task_revision := 1; Handoff.topology_revision := 0; Handoff.reason := "skills";
  Handoff.state := Handoff.State.Proposed; Handoff.revision := 0; Handoff.expires_at := 1000;
  Handoff.created_at := 0; Handoff.updated_at := 0;
|}.

Definition case : Arbitration.ArbitrationCase := {|
  Arbitration.case_id := "c"; Arbitration.session_id := "s";
  Arbitration.moderator_instance_id := "m"; Arbitration.membership_revision := 1;
  Arbitration.topology_revision := 0; Arbitration.moderator_lease_epoch := 1;
  Arbitration.moderator_fencing_token := 7;
  Arbitration.findings := [Governance.WaitCycle ["w1"; "w2"]];
  Arbitration.state := Arbitration.ArbitrationState.Open; Arbitration.revision := 0;
  Arbitration.expires_at := 1000; Arbitration.created_at := 0; Arbitration.updated_at := 0;
|}.

Definition decision (v : Arbitration.ModeratorVerdict) : Arbitration.ModeratorDecision := {|
  Arbitration.d_case_id := "c"; Arbitration.decided_by := "m"; Arbitration.d_lease_epoch := 1;
  Arbitration.d_fencing_token := 7; Arbitration.verdict := v;
  Arbitration.rationale := "break the cycle"; Arbitration.evidence_refs := ["trace"];
  Arbitration.decided_at := 50;
|}.

(** * Stores *)

(** The session before its first task. *)
Definition fresh : db := {|
  governance := {["s" := governed_by]};
  instances := {["m" := agent "m" Moderator; "w1" := agent "w1" Worker;
                 "w2" := agent "w2" Worker]};
  topologies := {["s" := hierarchy 0]};
  tasks := ∅; leases := ∅; dependencies := ∅; handoffs := ∅; messages := ∅; turns := ∅;
  waits := ∅; progress := ∅; cases := ∅; decisions := ∅;
|}.

Lemma fresh_ok : store_ok fresh.
Proof.
  split; [split| |split| |]; repeat intro; simpl in *;
    match goal with Hx : ∅ !! _ = Some _ |- _ => by rewrite lookup_empty in Hx end.
Qed.

Definition on_task (op : StoreTasks.task_op) : coordination_op := inl (inl (inl (inl op))).
Definition on_handoff (op : handoff_op) : coordination_op := inl (inl (inl (inr op))).
Definition on_mail (op : StoreMessages.mail_op) : coordination_op := inl (inl (inr op)).
Definition on_case (op : StoreArbitration.case_op) : coordination_op := inl (inr op).
Definition on_fact (op : fact_op) : coordination_op := inr op.

(** Two tasks, two messages and an open case. *)
Definition setup : list coordination_op := [
  on_task (StoreTasks.OpCreate (task "t" None "w1" Tasks.TaskState.Ready));
  on_task (StoreTasks.OpCreate (task "u" (Some "t") "w2" Tasks.TaskState.Ready));
  on_mail (StoreMessages.OpEnqueue (message "n1" 5) members (hierarchy 0) 10);
  on_mail (StoreMessages.OpEnqueue (message "n2" 3) members (hierarchy 0) 10);
  on_case (StoreArbitration.OpOpen case members (hierarchy 0) 10)].

Definition busy : db := commits fresh setup.

Example busy_contents :
  size (tasks busy) = 2%nat ∧ size (messages busy) = 2%nat ∧ size (cases busy) = 1%nat.
Proof. vm_compute. done. Qed.

Lemma busy_legal : legal_run fresh setup.
Proof. vm_compute. intuition discriminate. Qed.

Lemma busy_ok : store_ok busy.
Proof. apply commits_ok; [apply fresh_ok|apply busy_legal]. Qed.

(** The result of an operation that commits. *)
Definition value {A} (c : tx A) (default : A) : A :=
  match c with Ok (a, _) => a | _ => default end.

(** The worker runs its task under a lease. *)
Definition leased : db :=
  commits busy [on_task (StoreTasks.OpClaim "tok1" "t" "w1" "host" 20 60)].

Definition lease : Tasks.TaskExecutionLease := {|
  Tasks.l_task_id := "t"; Tasks.l_session_id := "s"; Tasks.l_assignee := "w1";
  Tasks.l_claim_owner_id := "host"; Tasks.l_task_revision := 1; Tasks.l_lease_epoch := 1;
  Tasks.l_fencing_token := "tok1"; Tasks.l_expires_at := 80;
|}.

Lemma leased_ok : store_ok leased.
Proof. apply commits_ok; [apply busy_ok|]. vm_compute. auto. Qed.

(** The other worker claimed the older message. *)
Definition claimed : db := commits busy [on_mail (StoreMessages.OpClaim "w2" 20 30)].

Definition claim : Mailbox.MessageClaim := {|
  Mailbox.message :=
    StoreMessages.put_message (message "n2" 3) Mailbox.Delivery.Claimed 1 1 20;
  Mailbox.lease_epoch := 1; Mailbox.lease_expires_at := 50;
|}.

Lemma claimed_ok : store_ok claimed.
Proof. apply commits_ok; [apply busy_ok|]. vm_compute. auto. Qed.

Example leased_lease : leases leased !! "t" = Some lease.
Proof. reflexivity. Qed.

Example claimed_message :
  StoreMessages.claim_message busy "w2" 20 30 = Ok (Some claim, claimed).
Proof. reflexivity. Qed.

(** Its turn is prepared, and acknowledged. *)
Definition receipt : Mailbox.AgentMessageTurn := {|
  Mailbox.mt_message_id := "n2"; Mailbox.mt_session_id := "s";
  Mailbox.mt_recipient_instance_id := "w2"; Mailbox.turn_id := "turn-1";
  Mailbox.mt_created_at := 21;
|}.

Definition delivered (s : Mailbox.MessageDeliveryState) (rev now : Z) :
    Mailbox.CoordinationMessage :=
  StoreMessages.put_message (message "n2" 3) s 1 rev now.

Definition prepared : db :=
  (run claimed (StoreMessages.prepare_message_turn claimed claim "turn-1" 21)).2.

Example prepared_turn :
  StoreMessages.prepare_message_turn claimed claim "turn-1" 21 =
  Ok (delivered Mailbox.Delivery.Delivered 2 21, receipt, prepared).
Proof. vm_compute. reflexivity. Qed.

Definition acknowledge : list coordination_op :=
  [on_mail (StoreMessages.OpAcknowledge "n2" "w2" 2 25)].

Example prepared_again :
  StoreMessages.prepare_message_turn (commits prepared acknowledge) claim "turn-1" 90 =
  Ok (delivered Mailbox.Delivery.Acknowledged 3 25, receipt, commits prepared acknowledge).
Proof. vm_compute. reflexivity. Qed.

(** The task is finished as blocked. *)
Definition blocked_task : Tasks.CoordinationTask :=
  StoreTasks.put_task (task "t" None "w1" Tasks.TaskState.Ready) (Some "w1")
    Tasks.TaskState.Blocked 40 0 2 30.

Definition finished : db :=
  (run leased (StoreTasks.finish_task_lease leased lease Tasks.TaskState.Blocked 40 30)).2.

Example finished_task :
  StoreTasks.finish_task_lease leased lease Tasks.TaskState.Blocked 40 30 =
  Ok (blocked_task, finished).
Proof. vm_compute. reflexivity. Qed.

(** It is unblocked and claimed again. *)
Definition reclaim : list coordination_op := [
  on_task (StoreTasks.OpUpdate
    (StoreTasks.put_task blocked_task (Some "w1") Tasks.TaskState.Ready 40 0 3 35) 2);
  on_task (StoreTasks.OpClaim "tok2" "t" "w1" "host" 40 60)].

Definition reclaimed : db := commits finished reclaim.

Example reclaimed_lease :
  Tasks.l_lease_epoch <$> leases reclaimed !! "t" = Some 1 ∧
  Tasks.l_fencing_token <$> leases reclaimed !! "t" = Some "tok2".
Proof. vm_compute. done. Qed.

(** The handoff is requested and accepted. *)
Definition request : list coordination_op := [
  on_handoff (OpPropose handoff members (hierarchy 0) 21);
  on_handoff (OpTransition "h" "w1" Handoff.State.AwaitingArbitration 0 22)].

Definition requested : db := commits leased request.

Lemma requested_ok : store_ok requested.
Proof. apply commits_ok; [apply leased_ok|]. exact (conj I (conj I I)). Qed.

Definition accepted_handoff : Handoff.TaskHandoff :=
  StoreHandoffs.put_handoff handoff Handoff.State.Accepted 2 23.

Definition accepted : db :=
  (run requested
     (StoreHandoffs.transition_handoff requested "h" "m" Handoff.State.Accepted 1 23)).2.

Example handoff_accepted :
  StoreHandoffs.transition_handoff requested "h" "m" Handoff.State.Accepted 1 23 =
  Ok (accepted_handoff, accepted).
Proof. vm_compute. reflexivity. Qed.

Example accepted_task :
  (Tasks.assigned_to <$> tasks accepted !! "t") = Some (Some "w2").
Proof. reflexivity. Qed.

(** The lease expires and another host takes it over. *)
Definition takeover_lease : Tasks.TaskExecutionLease := {|
  Tasks.l_task_id := "t"; Tasks.l_session_id := "s"; Tasks.l_assignee := "w1";
  Tasks.l_claim_owner_id := "host-2"; Tasks.l_task_revision := 1; Tasks.l_lease_epoch := 2;
  Tasks.l_fencing_token := "tok2"; Tasks.l_expires_at := 160;
|}.

Definition taken_over : db :=
  (run leased (StoreTasks.claim_task "tok2" leased "t" "w1" "host-2" 100 60)).2.

Example taken_over_lease :
  StoreTasks.claim_task "tok2" leased "t" "w1" "host-2" 100 60 =
  Ok (takeover_lease, taken_over).
Proof. vm_compute. reflexivity. Qed.

(** The moderator decides the open case. *)
Definition verdict : Arbitration.ModeratorDecision := decision (Arbitration.Replan ["t"]).

Definition read_graph : Tasks.SessionTaskGraph := {|
  Tasks.g_session_id := "s"; Tasks.g_membership_revision := 1;
  Tasks.tasks := [task "t" None "w1" Tasks.TaskState.Ready;
                  task "u" (Some "t") "w2" Tasks.TaskState.Ready];
  Tasks.dependencies := [];
|}.

Example read_busy : StoreTasks.load_task_graph busy "s" = Some read_graph.
Proof. vm_compute. reflexivity. Qed.

Lemma read_graph_snapshot : StoreArbitration.snapshot busy read_graph.
Proof. exact (StoreArbitration.load_graph_snapshot _ _ _ (so_tasks _ busy_ok) read_busy). Qed.

Definition applied_case : Arbitration.ArbitrationCase :=
  StoreArbitration.put_case case Arbitration.ArbitrationState.Applied 1 50.

Definition decided : db :=
  (run busy (StoreArbitration.decide_arbitration busy verdict members read_graph 0 50)).2.

Example case_decided :
  StoreArbitration.decide_arbitration busy verdict members read_graph 0 50 =
  Ok (applied_case, decided).
Proof. vm_compute. reflexivity. Qed.

(** The message lease expires, and the next claim takes the message over. *)
Definition second_claim : Mailbox.MessageClaim := {|
  Mailbox.message :=
    StoreMessages.put_message (message "n2" 3) Mailbox.Delivery.Claimed 2 2 60;
  Mailbox.lease_epoch := 2; Mailbox.lease_expires_at := 90;
|}.

Definition claimed_again : db := (run claimed (StoreMessages.claim_message claimed "w2" 60 30)).2.

Example message_claimed_again :
  StoreMessages.claim_message claimed "w2" 60 30 = Ok (Some second_claim, claimed_again).
Proof. vm_compute. reflexivity. Qed.

(** An empty run of the store. *)
Definition nothing : list coordination_op := [].

(** The claimed message, in its row. *)
Definition claimed_row : message_row := {|
  msg := Mailbox.message claim; lease_owner := Some "w2"; row_lease_epoch := 1;
  row_lease_expires_at := Some 50;
|}.

Example claimed_row_at : messages claimed !! "n2" = Some claimed_row.
Proof. vm_compute. reflexivity. Qed.

(** The other message is claimed next. *)
Definition other_claim : Mailbox.MessageClaim := {|
  Mailbox.message :=
    StoreMessages.put_message (message "n1" 5) Mailbox.Delivery.Claimed 1 1 30;
  Mailbox.lease_epoch := 1; Mailbox.lease_expires_at := 60;
|}.

Definition both_claimed : db := (run claimed (StoreMessages.claim_message claimed "w2" 30 30)).2.

Example other_claimed :
  StoreMessages.claim_message claimed "w2" 30 30 = Ok (Some other_claim, both_claimed).
Proof. vm_compute. reflexivity. Qed.

(** A dependency between the tasks, a wait, and a topology with a review edge. *)
Definition dependency : Tasks.TaskDependency :=
  {| Tasks.prerequisite := "t"; Tasks.dependent := "u" |}.

Definition depending : db := (run busy (StoreTasks.add_task_dependency busy dependency members)).2.

Example dependency_added :
  StoreTasks.add_task_dependency busy dependency members = Ok (tt, depending).
Proof. vm_compute. reflexivity. Qed.

Definition wait : Governance.WaitDependency := {|
  Governance.w_task_id := "t"; Governance.waiter := "w1"; Governance.awaited := "w2" |}.

Definition waiting : db := (run busy (StoreFacts.record_wait busy "s" wait 0 0)).2.

Example wait_recorded : StoreFacts.record_wait busy "s" wait 0 0 = Ok (tt, waiting).
Proof. vm_compute. reflexivity. Qed.

Definition observation : Governance.ProgressObservation := {|
  Governance.observation_id := "o1"; Governance.p_task_id := "t";
  Governance.p_agent_instance_id := "w1"; Governance.task_revision := 0;
  Governance.consumed_tokens := 30; Governance.evidence_digest := Some "sha256:aa";
  Governance.observed_at := 15;
|}.

Definition observed : db := (run busy (StoreFacts.record_progress busy "s" observation)).2.

Example progress_recorded :
  StoreFacts.record_progress busy "s" observation = Ok (tt, observed).
Proof. vm_compute. reflexivity. Qed.

Definition reviewed : Topology.SessionTopology := {|
  Topology.session_id := "s"; Topology.membership_revision := 1; Topology.topology_revision := 1;
  Topology.relations := relation "w2" "w1" Topology.Reviews :: Topology.relations (hierarchy 0);
  Topology.updated_at := 30;
|}.

Definition restructured : db := (run busy (StoreFacts.save_topology busy reviewed members (Some 0))).2.

Example topology_saved :
  StoreFacts.save_topology busy reviewed members (Some 0) = Ok (tt, restructured).
Proof. vm_compute. reflexivity. Qed.

Lemma moderator_is_member :
  Membership.moderator_instance_id (Membership.governance members) ∈ Membership.members members.
Proof. by apply (bool_decide_eq_true_1 _). Qed.

(** * Workspaces *)

Definition view (s : Workspace.WorkspaceViewState) (rev : Z) : Workspace.AgentWorkspaceView := {|
  Workspace.view_id := "v"; Workspace.session_id := "s"; Workspace.agent_instance_id := "w1";
  Workspace.membership_revision := 1; Workspace.access := Workspace.ReadWrite;
  Workspace.isolation := Workspace.IsolatedWorktree; Workspace.source_workspace := "/repo";
  Workspace.effective_workspace := "/worktrees/w1"; Workspace.target_id := None;
  Workspace.branch := Some "agent/w1"; Workspace.base_revision := Some "0123456";
  Workspace.state := s; Workspace.lease_epoch := 1; Workspace.fencing_token := 3;
  Workspace.revision := rev; Workspace.created_at := 0; Workspace.updated_at := 0;
|}.

Definition sha (c : string) : string := String.concat "" (replicate 40 c).

Definition approval : Workspace.WorkspaceIntegrationApproval := {|
  Workspace.integration_id := "i"; Workspace.a_view_id := "v"; Workspace.a_session_id := "s";
  Workspace.a_agent_instance_id := "w1"; Workspace.approved_by := "m";
  Workspace.a_membership_revision := 1; Workspace.topology_revision := 0;
  Workspace.view_revision := 1; Workspace.a_lease_epoch := 1; Workspace.a_fencing_token := 3;
  Workspace.review_digest := "sha256:" ++ String.concat "" (replicate 64 "a");
  Workspace.target_revision := sha "1"; Workspace.candidate_revision := sha "2";
  Workspace.approved_at := 40;
|}.

Definition integration (s : Workspace.WorkspaceIntegrationState) (receipt : option string)
    (rev now : Z) : Workspace.WorkspaceIntegration := {|
  Workspace.approval := approval; Workspace.i_state := s; Workspace.merge_revision := receipt;
  Workspace.i_revision := rev; Workspace.i_updated_at := now;
|}.

Lemma prepared_ok : store_ok prepared.
Proof.
  destruct (@commit_ok _ mail_family claimed (StoreMessages.OpPrepare claim "turn-1" 21)
    claimed_ok I) as [_ Hok].
  cbn [commit mail_family StoreMessages.exec] in Hok. rewrite prepared_turn in Hok. exact Hok.
Qed.

Definition prepared_row : message_row := {|
  msg := delivered Mailbox.Delivery.Delivered 2 21; lease_owner := None; row_lease_epoch := 1;
  row_lease_expires_at := None;
|}.

Example prepared_row_at : messages prepared !! "n2" = Some prepared_row.
Proof. vm_compute. reflexivity. Qed.

Example prepared_recovery :
  StoreMessages.recoverable_message_turns prepared "w2" =
  Ok [(delivered Mailbox.Delivery.Delivered 2 21, receipt)].
Proof. vm_compute. reflexivity. Qed.
