(* ===== verification/StoreSpec.v ===== *)
(** What the coordination store guarantees to concurrent agents, over every
    interleaving of its operations (src/sylvander-runtime/src/storage/coordination.rs).

    Each theorem is followed by its instance on the session of [Sample]. *)

From S2P Require Import Prelude Graph Instance Store StoreRun.
From S2P Require Membership Topology Tasks Mailbox Handoff Governance Arbitration.
From S2P Require StoreTasks StoreMessages StoreHandoffs StoreArbitration StoreFacts Sample.
From stdpp Require Import base tactics gmap strings list sorting relations.
From Stdlib Require Import ZArith Lia.

(** * Committed operations inside a run *)

(** The operations used below, as members of their families. *)
Lemma task_committed `{!HashOrder} {A} d op (c : tx A) a d' :
  store_ok d → StoreTasks.op_typed op → StoreTasks.exec d op = (run d c).2 → c = Ok (a, d') →
  store_step d d' ∧ store_ok d'.
Proof.
  intros Hok Hty Hex Hc. destruct (@commit_ok _ task_family d op Hok Hty) as [Hs Hok']. simpl in *.
  by rewrite Hex, Hc in Hs, Hok'.
Qed.

Lemma handoff_committed {A} d op (c : tx A) a d' :
  store_ok d → exec_handoff d op = (run d c).2 → c = Ok (a, d') →
  store_step d d' ∧ store_ok d'.
Proof.
  intros Hok Hex Hc. destruct (@commit_ok _ handoff_family d op Hok I) as [Hs Hok']. simpl in *.
  by rewrite Hex, Hc in Hs, Hok'.
Qed.

Lemma mail_committed {A} d op (c : tx A) a d' :
  store_ok d → StoreMessages.exec d op = (run d c).2 → c = Ok (a, d') →
  store_step d d' ∧ store_ok d'.
Proof.
  intros Hok Hex Hc. destruct (@commit_ok _ mail_family d op Hok I) as [Hs Hok']. simpl in *.
  by rewrite Hex, Hc in Hs, Hok'.
Qed.

Lemma case_committed `{!HashOrder} {A} d op (c : tx A) a d' :
  store_ok d → legal_case d op → StoreArbitration.exec d op = (run d c).2 → c = Ok (a, d') →
  store_step d d' ∧ store_ok d'.
Proof.
  intros Hok Hl Hex Hc. destruct (@commit_ok _ case_family d op Hok Hl) as [Hs Hok']. simpl in *.
  by rewrite Hex, Hc in Hs, Hok'.
Qed.

(** A fenced lease is useless. *)
Lemma fenced_lease d l now :
  StoreTasks.lease_matches d l now = false →
  (∀ secs r, StoreTasks.renew_task_lease d l now secs ≠ Ok r) ∧
  (∀ next consumed r, StoreTasks.finish_task_lease d l next consumed now ≠ Ok r).
Proof.
  intros Hm. assert (StoreTasks.ensure_task_lease d l now ≠ Ok tt) as He.
  { intros He%StoreTasks.ensure_ok%StoreTasks.lease_matches_iff. congruence. }
  split.
  - intros secs [l' d'] Hr. apply StoreTasks.renew_ok in Hr as (c & t & Hh & _).
    assert (StoreTasks.lease_matches d l now = true); [|congruence].
    apply StoreTasks.lease_matches_iff. eauto.
  - intros next consumed r Hf. unfold StoreTasks.finish_task_lease in Hf.
    StoreTasks.inv_tx.
    match goal with H : StoreTasks.ensure_task_lease _ _ _ = Ok ?u |- _ => destruct u; done end.
Qed.

Section runs.
Context `{!HashOrder}.
Implicit Types (d : db) (ops : list coordination_op).

Lemma run_tasks d ops :
  store_ok d → legal_run d ops → StoreTasks.tasks_run d (commits d ops).
Proof. intros Hok Hl. apply (commits_ok d ops Hok Hl). Qed.

Lemma run_mail d ops :
  store_ok d → legal_run d ops → StoreMessages.mail_run d (commits d ops).
Proof. intros Hok Hl. apply (commits_ok d ops Hok Hl). Qed.
End runs.

(** * Runs *)

(** C4: however the operations of all callers interleave, the store stays
    well-formed (task budgets and revisions within their columns, message
    leases exactly on claimed messages, receipts only on delivered ones, rows
    under their keys) and changes only by the allowed steps: a task moves along its
    lifecycle, or is blocked for a new plan, made ready for another owner or handed
    over; messages move along theirs, closed cases, decisions and
    progress are kept, the governance is untouched, topology revisions never
    go back. *)
Theorem coordination_run_invariant `{!HashOrder} d (ops : list coordination_op)
    (Hok : store_ok d) (Hlegal : legal_run d ops) :
  store_step d (commits d ops) ∧ store_ok (commits d ops).
Proof. by apply commits_ok. Qed.

Lemma coordination_run_invariant_witness :
  store_step Sample.fresh Sample.busy ∧ store_ok Sample.busy.
Proof.
  exact (coordination_run_invariant Sample.fresh Sample.setup Sample.fresh_ok
    Sample.busy_legal).
Defined.

(** C21: a task is never rewritten: over any run its revision and its consumed
    tokens only grow, the tokens stay within the budget it was created with,
    its session and objective stay, and once it is terminal the row never
    changes again. *)
Theorem task_history `{!HashOrder} d (ops : list coordination_op) id t
    (Hok : store_ok d) (Hlegal : legal_run d ops) (Ht : tasks d !! id = Some t) :
  ∃ t', tasks (commits d ops) !! id = Some t' ∧
    (Tasks.revision t ≤ Tasks.revision t')%Z ∧
    (Tasks.consumed_tokens t ≤ Tasks.consumed_tokens t' ≤ Tasks.token_budget t)%Z ∧
    Tasks.session_id t' = Tasks.session_id t ∧ Tasks.objective t' = Tasks.objective t ∧
    (Tasks.TaskState.is_terminal (Tasks.state t) = true → t' = t).
Proof.
  destruct (StoreTasks.tasks_run_task _ _ id t (run_tasks d ops Hok Hlegal) Ht)
    as (t' & Ht' & Hr).
  apply StoreTasks.evolves_run in Hr as (? & ? & _ & Hb & ? & ? & ?).
  destruct (commits_ok d ops Hok Hlegal) as [_ [[Hrows _] _ _ _ _]].
  destruct (Hrows _ _ Ht') as [_ [_ _ ? _ _]]. exists t'. split_and!; try done; lia.
Qed.

Lemma task_history_witness :
  let d := commits Sample.busy [Sample.on_task (StoreTasks.OpCancel "t" 20)] in
  ∃ t', tasks (commits d [Sample.on_task (StoreTasks.OpUpdate
           (Sample.task "t" None "w1" Tasks.TaskState.Ready) 1)]) !! "t" = Some t' ∧
    Tasks.state t' = Tasks.TaskState.Cancelled.
Proof.
  set (ops := [Sample.on_task (StoreTasks.OpCancel "t" 20)]).
  assert (legal_run Sample.busy ops) as Hl by (vm_compute; auto).
  pose proof (proj2 (commits_ok Sample.busy ops Sample.busy_ok Hl)) as Hok.
  destruct (tasks (commits Sample.busy ops) !! "t") as [t|] eqn:Et;
    [|vm_compute in Et; discriminate].
  edestruct (task_history (commits Sample.busy ops) [Sample.on_task (StoreTasks.OpUpdate
    (Sample.task "t" None "w1" Tasks.TaskState.Ready) 1)] "t" t Hok) as (t' & Ht' & H);
    [vm_compute; auto|exact Et|].
  exists t'. split; [exact Ht'|]. vm_compute in Et. injection Et as <-.
  destruct H as (_ & _ & _ & _ & Hf). rewrite (Hf eq_refl). reflexivity.
Defined.

(** a lease that finished its task is spent: after any further run it
    matches no state of the task, so it can neither be renewed nor finish the
    task a second time. *)
Theorem finished_lease_is_spent `{!HashOrder} d l next consumed now t d'
    (ops : list coordination_op) later
    (Hok : store_ok d)
    (Hf : StoreTasks.finish_task_lease d l next consumed now = Ok (t, d'))
    (Hlegal : legal_run d' ops) :
  StoreTasks.lease_matches (commits d' ops) l later = false ∧
  (∀ secs r, StoreTasks.renew_task_lease (commits d' ops) l later secs ≠ Ok r) ∧
  (∀ next' consumed' r,
     StoreTasks.finish_task_lease (commits d' ops) l next' consumed' later ≠ Ok r).
Proof.
  destruct (task_committed d (StoreTasks.OpFinish l next consumed now) _ _ _ Hok I eq_refl Hf)
    as [_ Hok'].
  assert (StoreTasks.lease_matches (commits d' ops) l later = false) as Hm.
  { eapply StoreTasks.finish_once; [apply Hok|exact Hf|by apply run_tasks]. }
  split; [done|by apply fenced_lease].
Qed.

Lemma finished_lease_is_spent_witness :
  StoreTasks.lease_matches Sample.reclaimed Sample.lease 41 = false ∧
  (∀ secs r, StoreTasks.renew_task_lease Sample.reclaimed Sample.lease 41 secs ≠ Ok r) ∧
  (∀ next consumed r,
     StoreTasks.finish_task_lease Sample.reclaimed Sample.lease next consumed 41 ≠ Ok r).
Proof.
  exact (finished_lease_is_spent Sample.leased Sample.lease _ _ _ _ Sample.finished
    Sample.reclaim 41 Sample.leased_ok Sample.finished_task (conj I (conj I I))).
Defined.

(** C22: a message starts at most one turn: once a preparation bound it to a
    turn, every later preparation, by whoever holds whatever claim, returns
    the same receipt for the same turn and changes nothing. *)
Theorem message_starts_one_turn `{!HashOrder} d claim turn now m t d1
    (ops : list coordination_op) claim' turn' now' m' t' d3
    (Hok : store_ok d)
    (Hp : StoreMessages.prepare_message_turn d claim turn now = Ok (m, t, d1))
    (Hlegal : legal_run d1 ops)
    (Hid : Mailbox.message_id (Mailbox.message claim') =
           Mailbox.message_id (Mailbox.message claim))
    (Hp' : StoreMessages.prepare_message_turn (commits d1 ops) claim' turn' now' =
           Ok (m', t', d3)) :
  t' = t ∧ turn' = turn ∧ d3 = commits d1 ops.
Proof.
  destruct (mail_committed d (StoreMessages.OpPrepare claim turn now) _ _ _ Hok eq_refl Hp)
    as [_ Hok1].
  eapply StoreMessages.one_turn; [exact Hp|by apply run_mail|exact Hid|exact Hp'].
Qed.

Lemma message_starts_one_turn_witness :
  ∃ m t d3, StoreMessages.prepare_message_turn (commits Sample.prepared Sample.acknowledge)
      Sample.claim "turn-1" 90 = Ok (m, t, d3) ∧
    t = Sample.receipt ∧ d3 = commits Sample.prepared Sample.acknowledge.
Proof.
  exists (Sample.delivered Mailbox.Delivery.Acknowledged 3 25), Sample.receipt,
    (commits Sample.prepared Sample.acknowledge).
  split; [exact Sample.prepared_again|].
  destruct (message_starts_one_turn Sample.claimed Sample.claim "turn-1" 21 _ _ Sample.prepared
    Sample.acknowledge Sample.claim "turn-1" 90 _ _ _
    Sample.claimed_ok Sample.prepared_turn (conj I I) eq_refl Sample.prepared_again)
    as (Ht & _ & Hd).
  exact (conj Ht Hd).
Defined.

(** a governance case is decided at most once: after a decision was
    stored, the decision stays and no other decision of the case is accepted,
    whatever happens in between and whatever facts it is validated against. *)
Theorem case_decided_once `{!HashOrder} d decision m g topology now c d'
    (ops : list coordination_op) decision' m' g' topology' now' r
    (Hok : store_ok d) (Hsnap : StoreArbitration.snapshot d g)
    (Hd : StoreArbitration.decide_arbitration d decision m g topology now = Ok (c, d'))
    (Hlegal : legal_run d' ops)
    (Hid : Arbitration.d_case_id decision' = Arbitration.d_case_id decision) :
  decisions (commits d' ops) !! Arbitration.d_case_id decision = Some decision ∧
  StoreArbitration.decide_arbitration (commits d' ops) decision' m' g' topology' now' ≠ Ok r.
Proof.
  destruct (case_committed d (StoreArbitration.OpDecide decision m g topology now) _ _ _
    Hok Hsnap eq_refl Hd) as [_ Hok'].
  destruct (commits_ok d' ops Hok' Hlegal) as [[_ _ Hclosed _ Hdec _ _ _ _] _].
  split.
  - apply (lookup_weaken (decisions d')); [|done].
    destruct (StoreArbitration.decide_writes _ _ _ _ _ _ _ _ Hd) as [_ ->].
    apply lookup_insert_eq.
  - apply StoreArbitration.closed_undecidable with (Arbitration.d_case_id decision); [|done].
    apply StoreArbitration.decide_cases in Hd as (? & _ & _ & c2 & Hd & Hs & _); [|apply Hok].
    exists c2. split; [|by rewrite Hs]. apply Hclosed; [by rewrite Hd, lookup_insert_eq|by rewrite Hs].
Qed.

Lemma case_decided_once_witness :
  decisions Sample.decided !! "c" = Some Sample.verdict ∧
  StoreArbitration.decide_arbitration Sample.decided
    (Sample.decision (Arbitration.CancelTasks ["u"])) Sample.members Sample.read_graph 0 51
    ≠ Ok (Sample.applied_case, Sample.decided).
Proof.
  exact (case_decided_once Sample.busy Sample.verdict Sample.members Sample.read_graph 0 50
    Sample.applied_case Sample.decided Sample.nothing
    (Sample.decision (Arbitration.CancelTasks ["u"])) Sample.members Sample.read_graph 0 51
    (Sample.applied_case, Sample.decided)
    Sample.busy_ok Sample.read_graph_snapshot Sample.case_decided I eq_refl).
Defined.

(** an accepted handoff takes the task away: only its arbitrator accepts
    it, before it expires, the task goes from the old to the new assignee, and
    the lease under which the old assignee ran the task is fenced for ever. *)
Theorem accepted_handoff_transfers `{!HashOrder} d id actor e now h d'
    (ops : list coordination_op) l later
    (Hok : store_ok d)
    (Hacc : StoreHandoffs.transition_handoff d id actor Handoff.State.Accepted e now = Ok (h, d'))
    (Hlegal : legal_run d' ops)
    (Hl : Tasks.l_task_id l = Handoff.task_id h)
    (Hrev : (Tasks.l_task_revision l ≤ Handoff.task_revision h)%Z) :
  actor = Handoff.arbitrator_instance_id h ∧ (now < Handoff.expires_at h)%Z ∧
  (∃ t t', tasks d !! Handoff.task_id h = Some t ∧ tasks d' !! Handoff.task_id h = Some t' ∧
     Tasks.assigned_to t = Some (Handoff.from_instance_id h) ∧
     Tasks.assigned_to t' = Some (Handoff.to_instance_id h)) ∧
  StoreTasks.lease_matches (commits d' ops) l later = false.
Proof.
  pose proof Hok as [Htok Hhok _ _ _].
  destruct (handoff_committed d (OpTransition id actor Handoff.State.Accepted e now) _ _ _
    Hok eq_refl Hacc) as [_ Hok'].
  destruct (StoreHandoffs.decision_authority _ _ _ _ _ _ _ _ Htok Hhok Hacc ltac:(by left)).
  split_and!; [done|done| |].
  - destruct (StoreHandoffs.transition_handoff_ok _ _ _ _ _ _ _ _ Htok Hhok Hacc)
      as (h0 & _ & _ & _ & _ & _ & -> & _ & Htasks). simpl in *.
    destruct Htasks as (t & t' & Ht & _ & Hd' & _ & ? & ?). exists t, t'.
    by rewrite Hd', lookup_insert_eq.
  - eapply StoreHandoffs.acceptance_fences; [done|done|exact Hacc|done|done|by apply run_tasks].
Qed.

Lemma accepted_handoff_transfers_witness :
  StoreTasks.lease_matches Sample.accepted Sample.lease 24 = false ∧
  "m" = Handoff.arbitrator_instance_id Sample.accepted_handoff.
Proof.
  destruct (accepted_handoff_transfers Sample.requested "h" "m" 1 23 _ Sample.accepted
    Sample.nothing Sample.lease 24 Sample.requested_ok Sample.handoff_accepted I eq_refl
    (Z.le_refl 1)) as (Ha & _ & _ & Hm).
  exact (conj Hm Ha).
Defined.

(** While a lease is live nobody else obtains the task: a claim by another
    assignee or another host is refused and changes nothing. *)
Theorem live_lease_excludes_others tok d id a owner now secs l
    (Hl : leases d !! id = Some l) (Hlive : (now < Tasks.l_expires_at l)%Z)
    (Hother : Tasks.l_assignee l ≠ a ∨ Tasks.l_claim_owner_id l ≠ owner) :
  ∃ e, run d (StoreTasks.claim_task tok d id a owner now secs) = (Err e, d).
Proof.
  destruct (StoreTasks.claim_excluded tok d id a owner now secs l Hl Hlive) as [e He];
    [naive_solver|].
  exists e. by rewrite He.
Qed.

Lemma live_lease_excludes_others_witness :
  ∃ e, run Sample.leased (StoreTasks.claim_task "tok9" Sample.leased "t" "w1" "host-2" 30 60) =
    (Err e, Sample.leased).
Proof.
  apply (live_lease_excludes_others "tok9" Sample.leased "t" "w1" "host-2" 30 60 Sample.lease).
  - exact Sample.leased_lease.
  - done.
  - right. done.
Defined.

(** A claim that takes over an expired lease fences its holder: the new
    lease is accepted, its epoch is the next one, and the old lease is refused
    at any time, as long as its token is not drawn again. *)
Theorem takeover_fences_previous_holder tok d id a owner now secs l d' old later
    (Hok : store_ok d)
    (Hc : StoreTasks.claim_task tok d id a owner now secs = Ok (l, d'))
    (Hold : leases d !! id = Some old) (Hexp : (Tasks.l_expires_at old ≤ now)%Z)
    (Htok : Tasks.l_fencing_token old ≠ tok) :
  StoreTasks.lease_matches d' l now = true ∧ StoreTasks.lease_matches d' old later = false ∧
  Tasks.l_lease_epoch l = (Tasks.l_lease_epoch old + 1)%Z ∧
  (Tasks.l_expires_at l ≤ now + Tasks.MAX_TASK_LEASE_SECONDS)%Z.
Proof.
  destruct Hok as [Htasks _ _ _ _].
  destruct (StoreTasks.takeover_fences _ _ _ _ _ _ _ _ _ _ later Htasks Hc Hold Hexp Htok)
    as (? & ? & ?).
  split_and!; [done|done|done|].
  apply StoreTasks.claim_task_ok in Hc as (t & _ & _ & [[(Hl & ? & _) _]|(t' & _ & Hi & _)]);
    [| |done].
  - rewrite Hold in Hl. simplify_eq. lia.
  - destruct Hi as [_ _ _ _ _ [-> Hsecs]]. lia.
Qed.

Lemma takeover_fences_previous_holder_witness :
  StoreTasks.lease_matches Sample.taken_over Sample.takeover_lease 100 = true ∧
  StoreTasks.lease_matches Sample.taken_over Sample.lease 30 = false ∧
  Tasks.l_lease_epoch Sample.takeover_lease = 2%Z ∧
  (Tasks.l_expires_at Sample.takeover_lease ≤ 100 + Tasks.MAX_TASK_LEASE_SECONDS)%Z.
Proof.
  exact (takeover_fences_previous_holder "tok2" Sample.leased "t" "w1" "host-2" 100 60
    Sample.takeover_lease Sample.taken_over Sample.lease 30 Sample.leased_ok
    Sample.taken_over_lease Sample.leased_lease ltac:(vm_compute; discriminate)
    ltac:(discriminate)).
Defined.

(** Two leases of one task that are both accepted in one state are the
    same right: same assignee, same host, same epoch and same token. *)
Theorem one_lease_holder d l1 l2 now1 now2
    (H1 : StoreTasks.lease_matches d l1 now1 = true)
    (H2 : StoreTasks.lease_matches d l2 now2 = true)
    (Htask : Tasks.l_task_id l1 = Tasks.l_task_id l2) :
  Tasks.l_assignee l1 = Tasks.l_assignee l2 ∧
  Tasks.l_claim_owner_id l1 = Tasks.l_claim_owner_id l2 ∧
  Tasks.l_lease_epoch l1 = Tasks.l_lease_epoch l2 ∧
  Tasks.l_fencing_token l1 = Tasks.l_fencing_token l2.
Proof.
  destruct (StoreTasks.one_holder d l1 l2 now1 now2 H1 H2 Htask) as (? & ? & ? & ?). done.
Qed.

Lemma one_lease_holder_witness :
  Tasks.l_fencing_token Sample.lease = "tok1".
Proof.
  destruct (one_lease_holder Sample.leased Sample.lease
    (StoreTasks.extend_lease Sample.lease 999) 21 22 eq_refl eq_refl eq_refl) as (_ & _ & _ & H).
  exact H.
Defined.

(** A mailbox claim serves the oldest message the recipient can still be
    given, in the order of creation and then of identity, for at most a
    minute; it returns nothing exactly when there is none. *)
Theorem claim_serves_oldest d recipient now secs claim d'
    (Hok : store_ok d)
    (Hc : StoreMessages.claim_message d recipient now secs = Ok (claim, d')) :
  match claim with
  | None => d' = d ∧ ∀ id r, messages d !! id = Some r →
      StoreMessages.deliverable r recipient now = false
  | Some claim =>
      let id := Mailbox.message_id (Mailbox.message claim) in
      (∃ r, messages d !! id = Some r ∧ StoreMessages.deliverable r recipient now = true ∧
        Mailbox.lease_epoch claim = (row_lease_epoch r + 1)%Z ∧
        ∀ id' r', messages d !! id' = Some r' →
          StoreMessages.deliverable r' recipient now = true → Is_true (StoreMessages.older r r')) ∧
      (∃ r, messages d' !! id = Some r ∧ msg r = Mailbox.message claim ∧
        Mailbox.state (msg r) = Mailbox.Delivery.Claimed ∧ lease_owner r = Some recipient) ∧
      (Mailbox.lease_expires_at claim ≤ now + Mailbox.MAX_MESSAGE_LEASE_SECONDS)%Z
  end.
Proof.
  destruct claim as [claim|]; [|by apply StoreMessages.claim_message_none in Hc].
  apply StoreMessages.claim_message_ok in Hc as (r & rest & Ho & Hdel & Hr & -> & -> & ? & _);
    [|apply Hok].
  cbv zeta. simpl. split_and!; [| |lia].
  - exists r. split_and!; [done|done|done|].
    intros id' r' Hr' Hdel'. by eapply StoreMessages.ordered_head.
  - eexists. rewrite lookup_insert_eq. done.
Qed.

Lemma claim_serves_oldest_witness :
  ∃ r, messages Sample.busy !! "n2" = Some r ∧
    ∀ id' r', messages Sample.busy !! id' = Some r' →
      StoreMessages.deliverable r' "w2" 20 = true → Is_true (StoreMessages.older r r').
Proof.
  destruct (claim_serves_oldest Sample.busy "w2" 20 30 (Some Sample.claim) Sample.claimed
    Sample.busy_ok Sample.claimed_message) as ((r & Hr & _ & _ & Hold) & _).
  exists r. exact (conj Hr Hold).
Defined.

(** A message under a live lease is not claimed again, by anybody. *)
Theorem live_claim_is_exclusive d id r recipient now secs claim d'
    (Hok : store_ok d) (Hr : messages d !! id = Some r)
    (Hclaimed : Mailbox.state (msg r) = Mailbox.Delivery.Claimed)
    (Hlive : StoreMessages.lease_live r now = true)
    (Hc : StoreMessages.claim_message d recipient now secs = Ok (Some claim, d')) :
  Mailbox.message_id (Mailbox.message claim) ≠ id ∧ messages d' !! id = Some r.
Proof.
  destruct Hok as [_ _ Hmok _ _].
  pose proof (StoreMessages.claim_exclusive _ _ _ _ _ _ _ _ Hmok Hr Hclaimed Hlive Hc) as Hne.
  split; [done|].
  apply StoreMessages.claim_message_ok in Hc as (r0 & _ & _ & _ & _ & -> & -> & _); [|done].
  simpl in *. by rewrite lookup_insert_ne.
Qed.

Lemma live_claim_is_exclusive_witness :
  "n1" ≠ "n2" ∧ messages Sample.both_claimed !! "n2" = Some Sample.claimed_row.
Proof.
  exact (live_claim_is_exclusive Sample.claimed "n2" Sample.claimed_row "w2" 30 30
    Sample.other_claim Sample.both_claimed Sample.claimed_ok Sample.claimed_row_at eq_refl eq_refl
    Sample.other_claimed).
Defined.

(** A claim that was taken over is fenced for ever: after the next claim
    of the message, the previous epoch can neither finish the message nor
    bind it to a turn, in any later state. *)
Theorem superseded_claim_is_fenced `{!HashOrder} d r recipient now secs claim d'
    (ops : list coordination_op) epoch
    (Hok : store_ok d)
    (Hc : StoreMessages.claim_message d recipient now secs = Ok (Some claim, d'))
    (Hr : messages d !! Mailbox.message_id (Mailbox.message claim) = Some r)
    (Hepoch : (epoch ≤ row_lease_epoch r)%Z)
    (Hlegal : legal_run d' ops) :
  let id := Mailbox.message_id (Mailbox.message claim) in
  (∀ recipient' next now' m d'', StoreMessages.finish_message_claim (commits d' ops) id
     recipient' epoch next now' ≠ Ok (m, d'')) ∧
  (∀ old turn now' m t d'', Mailbox.message_id (Mailbox.message old) = id →
     Mailbox.lease_epoch old = epoch → turns (commits d' ops) !! id = None →
     StoreMessages.prepare_message_turn (commits d' ops) old turn now' ≠ Ok (m, t, d'')).
Proof.
  intros id.
  destruct (mail_committed d (StoreMessages.OpClaim recipient now secs) _ _ _ Hok eq_refl Hc)
    as [_ Hok'].
  apply StoreMessages.epoch_passed_fenced.
  apply (StoreMessages.epoch_passed_stable d'); [by apply run_mail|].
  eapply StoreMessages.claim_passes; [apply Hok|exact Hc|exact Hr|exact Hepoch].
Qed.

Lemma superseded_claim_is_fenced_witness :
  StoreMessages.finish_message_claim Sample.claimed_again "n2" "w2" 1
    Mailbox.Delivery.Delivered 61 ≠ Ok (Mailbox.message Sample.claim, Sample.claimed_again).
Proof.
  exact (proj1 (superseded_claim_is_fenced Sample.claimed Sample.claimed_row "w2" 60 30
    Sample.second_claim Sample.claimed_again Sample.nothing 1 Sample.claimed_ok
    Sample.message_claimed_again Sample.claimed_row_at (Z.le_refl 1) I)
    "w2" Mailbox.Delivery.Delivered 61%Z (Mailbox.message Sample.claim) Sample.claimed_again).
Defined.

(** ** Handoffs, verdicts and facts *)

(** A handoff moves only along its lifecycle, under the revision its
    caller read, by the party that may cause the step, and not after its
    expiry except to expire; only an acceptance touches a task. *)
Theorem handoff_transition_effect d id actor next e now h' d'
    (Hok : store_ok d)
    (Ht : StoreHandoffs.transition_handoff d id actor next e now = Ok (h', d')) :
  ∃ h, handoffs d !! id = Some h ∧ Handoff.revision h = e ∧
    Handoff.State.can_transition_to (Handoff.state h) next = true ∧
    StoreHandoffs.authorized h next actor = true ∧
    ((now < Handoff.expires_at h)%Z ∨ next = Handoff.State.Expired) ∧
    handoffs d' = <[id := StoreHandoffs.put_handoff h next (e + 1) now]> (handoffs d) ∧
    (next ≠ Handoff.State.Accepted → tasks d' = tasks d).
Proof.
  destruct Hok as [Htok Hhok _ _ _].
  destruct (StoreHandoffs.transition_handoff_ok _ _ _ _ _ _ _ _ Htok Hhok Ht)
    as (h & Hh & <- & ? & ? & ? & -> & Hd & Htasks).
  exists h. split_and!; try done.
  - by rewrite Hd.
  - intros Hne. by rewrite decide_False in Htasks.
Qed.

Lemma handoff_transition_effect_witness :
  ∃ h, handoffs Sample.requested !! "h" = Some h ∧ Handoff.revision h = 1%Z ∧
    StoreHandoffs.authorized h Handoff.State.Accepted "m" = true.
Proof.
  destruct (handoff_transition_effect Sample.requested "h" "m" Handoff.State.Accepted 1 23
    Sample.accepted_handoff Sample.accepted Sample.requested_ok Sample.handoff_accepted)
    as (h & Hh & Hr & _ & Ha & _).
  exists h. exact (conj Hh (conj Hr Ha)).
Defined.

(** A stored verdict is the decision of the moderator the durable
    governance names, under its current lease, on an open case whose facts are
    current; it closes the case as applied, and the tasks evolve by it as by
    any other operation. *)
Theorem verdict_is_governed d decision m g topology now c' d'
    (Hok : store_ok d) (Hsnap : StoreArbitration.snapshot d g)
    (Hd : StoreArbitration.decide_arbitration d decision m g topology now = Ok (c', d')) :
  ∃ c gov, cases d !! Arbitration.d_case_id decision = Some c ∧
    governance d !! Arbitration.session_id c = Some gov ∧
    Membership.moderator_instance_id gov = Arbitration.decided_by decision ∧
    Membership.lease_epoch gov = Arbitration.d_lease_epoch decision ∧
    Membership.fencing_token gov = Arbitration.d_fencing_token decision ∧
    topology_revision_of d (Arbitration.session_id c) = Some topology ∧
    Arbitration.decision_ok decision c m g topology now ∧
    cases d' = <[Arbitration.d_case_id decision := StoreArbitration.put_case c
      Arbitration.ArbitrationState.Applied (Arbitration.revision c + 1)
      (Arbitration.decided_at decision)]> (cases d) ∧
    StoreTasks.tasks_run d d'.
Proof.
  destruct Hok as [Htok _ _ Hcok _].
  destruct (StoreArbitration.decide_arbitration_ok _ _ _ _ _ _ _ _ Htok Hcok Hsnap Hd)
    as (c & ? & ? & (gov & ? & ? & ? & ?) & ? & _ & _ & -> & ? & ? & _).
  exists c, gov. split_and!; done.
Qed.

Lemma verdict_is_governed_witness :
  ∃ c, cases Sample.busy !! "c" = Some c ∧ Arbitration.decision_ok Sample.verdict c
    Sample.members Sample.read_graph 0 50.
Proof.
  destruct (verdict_is_governed Sample.busy Sample.verdict Sample.members Sample.read_graph 0 50
    Sample.applied_case Sample.decided Sample.busy_ok Sample.read_graph_snapshot
    Sample.case_decided) as (c & gov & Hc & _ & _ & _ & _ & _ & Hdec & _).
  exists c. exact (conj Hc Hdec).
Defined.

(** Every stored topology is governed by the moderator of the membership
    it was checked against, names the durable membership revision, and follows
    the stored topology by one revision (or replaces an initial one of
    revision 0). *)
Theorem stored_topology_is_governed `{!HashOrder} d t m expected d'
    (Hmoderator : Membership.moderator_instance_id (Membership.governance m) ∈
                  Membership.members m)
    (Hs : StoreFacts.save_topology d t m expected = Ok (tt, d')) :
  Topology.governed t m ∧
  topologies d' = <[Topology.session_id t := t]> (topologies d) ∧
  membership_revision_of d (Topology.session_id t) = Some (Topology.membership_revision t) ∧
  match topology_revision_of d (Topology.session_id t) with
  | None => expected = None ∧ Topology.topology_revision t = 0%Z
  | Some old => Topology.topology_revision t = (old + 1)%Z ∨
      expected = None ∧ old = 0%Z ∧ Topology.topology_revision t = 0%Z
  end.
Proof.
  apply StoreFacts.save_topology_stored in Hs as (Hv & Hm & Hrev & _ & ->).
  split_and!; try done. by apply Topology.validate_governed_iff.
Qed.

Lemma stored_topology_is_governed_witness :
  Topology.governed Sample.reviewed Sample.members.
Proof.
  exact (proj1 (stored_topology_is_governed Sample.busy Sample.reviewed Sample.members (Some 0%Z)
    Sample.restructured Sample.moderator_is_member Sample.topology_saved)).
Defined.

(** Topology writers that read the same revision do not overwrite each
    other: once one of them stored its topology, the others are refused, now
    and after any further run. *)
Theorem topology_writers_serialised `{!HashOrder} d t1 m1 e d1 (ops : list coordination_op)
    t2 m2 d2
    (Hok : store_ok d)
    (H1 : StoreFacts.save_topology d t1 m1 (Some e) = Ok (tt, d1))
    (Hlegal : legal_run d1 ops)
    (Hsession : Topology.session_id t2 = Topology.session_id t1) :
  StoreFacts.save_topology (commits d1 ops) t2 m2 (Some e) ≠ Ok (tt, d2).
Proof.
  intros H2.
  destruct (@commit_ok _ fact_family d (OpTopology t1 m1 (Some e)) Hok I) as [_ Hok1].
  simpl in Hok1. rewrite H1 in Hok1. simpl in Hok1.
  pose proof (st_topology _ _ (proj1 (commits_ok d1 ops Hok1 Hlegal))) as Hmono.
  apply StoreFacts.save_topology_stored in H1 as (_ & _ & Hrev & Hexp & ->).
  apply StoreFacts.save_topology_stored in H2 as (_ & _ & _ & Hexp2 & _).
  rewrite (Hexp ltac:(done)) in Hrev. destruct Hrev as [Hrev|[? _]]; [|done].
  destruct (Hmono (Topology.session_id t1) (e + 1)%Z) as (r & Hr & Hle).
  - unfold topology_revision_of. simpl. rewrite lookup_insert_eq. simpl. by rewrite Hrev.
  - rewrite Hsession in Hexp2. rewrite (Hexp2 ltac:(done)) in Hr. injection Hr as <-. lia.
Qed.

Lemma topology_writers_serialised_witness :
  StoreFacts.save_topology Sample.restructured Sample.reviewed Sample.members (Some 0%Z)
    ≠ Ok (tt, Sample.restructured).
Proof.
  exact (topology_writers_serialised Sample.busy Sample.reviewed Sample.members 0
    Sample.restructured Sample.nothing Sample.reviewed Sample.members Sample.restructured
    Sample.busy_ok Sample.topology_saved I eq_refl).
Defined.

(** A recorded wait joins two different agents, belongs to a live task
    at its current revision that is assigned to the waiter, and the very next
    governance observation reports it. *)
Theorem recorded_wait_is_observed d session w task_revision topology_revision d'
    (Hw : StoreFacts.record_wait d session w task_revision topology_revision = Ok (tt, d')) :
  Governance.waiter w ≠ Governance.awaited w ∧
  (∃ task, tasks d !! Governance.w_task_id w = Some task ∧
     Tasks.revision task = task_revision ∧
     Tasks.assigned_to task = Some (Governance.waiter w) ∧
     Tasks.TaskState.is_terminal (Tasks.state task) = false) ∧
  ∀ samples, (1 ≤ samples ≤ 64)%Z →
    ∃ ob, StoreFacts.governance_observations d' session samples = Ok ob ∧
      w ∈ StoreFacts.ob_waits ob.
Proof.
  pose proof (StoreFacts.record_wait_observed _ _ _ _ _ _ Hw) as Hin.
  apply StoreFacts.record_wait_ok in Hw as (Hne & (task & ? & ? & ? & _ & ?) & _ & _).
  split_and!; [done|by exists task|]. intros samples Hs.
  eexists. unfold StoreFacts.governance_observations.
  rewrite (proj2 (Z.eqb_neq samples 0)), (proj2 (Z.ltb_ge 64 samples)) by lia. by split.
Qed.

Lemma recorded_wait_is_observed_witness :
  ∃ ob, StoreFacts.governance_observations Sample.waiting "s" 3 = Ok ob ∧
    Sample.wait ∈ StoreFacts.ob_waits ob.
Proof.
  destruct (recorded_wait_is_observed Sample.busy "s" Sample.wait 0 0 Sample.waiting
    Sample.wait_recorded) as (_ & _ & H).
  apply (H 3%Z). lia.
Defined.

(** Progress is recorded once: a recorded observation carries token
    counts between what its task consumed and its budget, repeating it changes
    nothing, and a different observation under the same id is refused. *)
Theorem progress_is_idempotent d session o d'
    (Hp : StoreFacts.record_progress d session o = Ok (tt, d')) :
  progress d' !! Governance.observation_id o = Some (session, o) ∧
  StoreFacts.record_progress d' session o = Ok (tt, d') ∧
  (progress d !! Governance.observation_id o = None →
   ∃ task, tasks d !! Governance.p_task_id o = Some task ∧
     (Tasks.consumed_tokens task ≤ Governance.consumed_tokens o ≤ Tasks.token_budget task)%Z) ∧
  ∀ session' o' r, (session', o') ≠ (session, o) →
    Governance.observation_id o' = Governance.observation_id o →
    StoreFacts.record_progress d' session' o' ≠ Ok r.
Proof.
  pose proof (StoreFacts.record_progress_again _ _ _ _ Hp) as Hagain.
  apply StoreFacts.record_progress_ok in Hp as [Hin Hcase]. split_and!; [done|done| |].
  - intros Hnone. destruct Hcase as [[? _]|(_ & _ & task & ? & _ & _ & ?)]; [congruence|].
    by exists task.
  - intros session' o' [[] d2] Hne Hid H2.
    apply StoreFacts.record_progress_ok in H2 as [_ [[H2 _]|[H2 _]]];
      rewrite Hid, Hin in H2; congruence.
Qed.

Lemma progress_is_idempotent_witness :
  StoreFacts.record_progress Sample.observed "s" Sample.observation = Ok (tt, Sample.observed).
Proof.
  exact (proj1 (proj2 (progress_is_idempotent Sample.busy "s" Sample.observation Sample.observed
    Sample.progress_recorded))).
Defined.

(** The states and kinds survive storage, and what is read back was
    written: the codecs of the columns are mutually inverse on the texts they
    accept. *)
Theorem codecs_round_trip :
  (∀ s x, decode_task_state s = Ok x ↔ encode_task_state x = s) ∧
  (∀ s x, decode_message_kind s = Ok x ↔ encode_message_kind x = s) ∧
  (∀ s x, decode_message_state s = Ok x ↔ encode_message_state x = s) ∧
  (∀ s x, decode_handoff_state s = Ok x ↔ encode_handoff_state x = s) ∧
  (∀ s x, decode_relation_kind s = Ok x ↔ encode_relation_kind x = s).
Proof.
  destruct decode_encode_states as (? & ? & ? & ? & ?).
  split_and!; intros s x; (split; [apply encode_decode_states|by intros <-]).
Qed.

(** A dependency is only added to a valid task graph and leaves a valid
    one: its tasks keep their budgets and members, and neither the parents nor
    the dependencies ever form a cycle. *)
Theorem dependency_keeps_graph_valid `{!HashOrder} d dep m d'
    (Hd : StoreTasks.add_task_dependency d dep m = Ok (tt, d')) :
  (∃ g, StoreTasks.load_task_graph d' (Membership.m_session_id m) = Some g ∧
     Tasks.graph_ok g m ∧ dep ∈ Tasks.dependencies g) ∧
  tasks d' = tasks d.
Proof.
  apply StoreTasks.add_dependency_ok in Hd as (_ & (g & Hg & Hok) & ->). split; [|done].
  exists g. split_and!; [done|done|]. unfold StoreTasks.load_task_graph in Hg.
  destruct (membership_revision_of _ _); [|done]. injection Hg as <-. simpl.
  apply list_elem_of_fmap. exists (Tasks.prerequisite dep, Tasks.dependent dep).
  split; [by destruct dep|]. rewrite stable_sort_perm. apply list_elem_of_fmap.
  exists (Membership.m_session_id m, Tasks.prerequisite dep, Tasks.dependent dep).
  split; [done|]. apply list_elem_of_filter. split; [done|]. set_solver.
Qed.

Lemma dependency_keeps_graph_valid_witness :
  ∃ g, StoreTasks.load_task_graph Sample.depending "s" = Some g ∧
    Tasks.graph_ok g Sample.members ∧ Sample.dependency ∈ Tasks.dependencies g.
Proof.
  exact (proj1 (dependency_keeps_graph_valid Sample.busy Sample.dependency Sample.members
    Sample.depending Sample.dependency_added)).
Defined.

(** C34: recovery of a recipient succeeds exactly when every message delivered
    to it has the receipt of its turn; one delivered message without a receipt
    makes the recovery of all others fail. *)
Theorem recovery_needs_every_receipt d recipient (Hok : store_ok d) :
  (∃ l, StoreMessages.recoverable_message_turns d recipient = Ok l) ↔
  ∀ id r, messages d !! id = Some r →
    Mailbox.recipient_instance_id (msg r) = recipient →
    Mailbox.state (msg r) = Mailbox.Delivery.Delivered → is_Some (turns d !! id).
Proof.
  destruct Hok as [_ _ Hmok _ _]. split.
  - intros [l Hl] id r Hr Hrec Hs. destruct (turns d !! id) eqn:Et; [done|].
    by rewrite (StoreMessages.recoverable_fails d recipient id r Hmok Hr Hrec Hs Et) in Hl.
  - intros Hall. apply StoreMessages.recoverable_succeeds; [done|].
    intros id r Hr Hrec Hs. by apply (Hall id r).
Qed.

Lemma recovery_needs_every_receipt_witness : is_Some (turns Sample.prepared !! "n2").
Proof.
  exact (proj1 (recovery_needs_every_receipt Sample.prepared "w2" Sample.prepared_ok)
    (ex_intro _ _ Sample.prepared_recovery) "n2" Sample.prepared_row Sample.prepared_row_at
    eq_refl eq_refl).
Defined.
