(* ===== verification/ModelSpec.v ===== *)
(** What the coordination model promises: the admission checks decide their
    specifications, the searches over the topology are optimal, and the
    lifecycles are bounded (src/sylvander-runtime/src/coordination/ and
    src/sylvander-runtime/src/session/membership.rs).

    Each theorem with a hypothesis is followed by an instance. *)

From S2P Require Import Prelude Graph Instance.
From S2P Require Membership Topology Route Tasks Mailbox Handoff Workspace Arbitration.
From S2P Require StoreTasks Sample.
From stdpp Require Import base tactics gmap strings list sorting relations.
From Stdlib Require Import ZArith Lia.

(** * Topology *)

(** C38: for a membership whose moderator is one of its members, a topology is
    accepted exactly when it is governed: session and membership revision agree, edges
    join distinct members without repetition, the moderator has no owner and nobody
    has two, and the moderator owns every member, directly or not (so ownership has no
    cycle). *)
Theorem topology_validation_exact `{!HashOrder} t m
    (Hmoderator : Membership.moderator_instance_id (Membership.governance m) ∈
                  Membership.members m) :
  Topology.validate t m = Ok tt ↔ Topology.governed t m.
Proof. by apply Topology.validate_governed_iff. Qed.

Lemma topology_validation_exact_witness :
  Topology.governed (Sample.hierarchy 0) Sample.members.
Proof.
  apply (topology_validation_exact (Sample.hierarchy 0) Sample.members
    Sample.moderator_is_member).
  vm_compute. reflexivity.
Defined.

(** in a governed topology the arbitrator of two members exists and is
    their nearest common owner: it owns both (or is one of them), and every
    other common owner owns it. *)
Theorem arbitrator_is_nearest_common_owner t m source target
    (Hgoverned : Topology.governed t m)
    (Hsource : source ∈ Membership.members m) (Htarget : target ∈ Membership.members m) :
  ∃ a, Topology.arbitrator_for t source target m = Ok a ∧ a ∈ Membership.members m ∧
    rtc (Topology.owns t) a source ∧ rtc (Topology.owns t) a target ∧
    ∀ o, rtc (Topology.owns t) o source → rtc (Topology.owns t) o target →
      rtc (Topology.owns t) o a.
Proof.
  destruct (Topology.arbitrator_for_governed t m source target Hgoverned Hsource Htarget)
    as (a & Ha & Hs & Ht & Hn).
  exists a. split_and!; [done| |done|done|done]. by eapply Topology.owner_member.
Qed.

Lemma arbitrator_is_nearest_common_owner_witness :
  Topology.arbitrator_for (Sample.hierarchy 0) "w1" "w2" Sample.members = Ok "m" ∧
  rtc (Topology.owns (Sample.hierarchy 0)) "m" "w1".
Proof.
  assert ("w1" ∈ Membership.members Sample.members ∧ "w2" ∈ Membership.members Sample.members)
    as [H1 H2] by (split; by apply (bool_decide_eq_true_1 _)).
  assert (Topology.governed (Sample.hierarchy 0) Sample.members) as Hg.
  { apply Topology.validate_governed_iff; [exact Sample.moderator_is_member|].
    vm_compute. reflexivity. }
  destruct (arbitrator_is_nearest_common_owner (Sample.hierarchy 0) Sample.members "w1" "w2"
    Hg H1 H2) as (a & Ha & _ & Hs & _).
  vm_compute in Ha. injection Ha as <-. split; [reflexivity|exact Hs].
Defined.

(** the route between two agents is a shortest path of relations, in
    either direction of each, that repeats nobody; there is none exactly when
    no sequence of relations joins them.  The search always returns. *)
Theorem route_is_shortest t source target :
  (∃ route, Route.route_between t source target = Ok (Some route) ∧
     Route.shortest_route (Route.linked t) source target route) ∨
  (Route.route_between t source target = Ok None ∧ ¬ rtc (Route.linked t) source target).
Proof.
  destruct (Route.route_between_spec t source target) as [(route & Hr & Hs)|[Hr Hno]].
  - left. exists route. split; [done|]. by apply Route.shortest_route_linked.
  - right. split; [done|]. intros Hl. apply Hno. clear -Hl.
    induction Hl as [|u v w Huv _ IH]; [done|]. eapply rtc_l; [|done].
    by apply Route.edge_neighbors.
Qed.

(** * Tasks *)

(** Kahn's algorithm accepts a set of edges exactly when their ends are
    known and no node precedes itself, whatever the order in which the hash
    maps are visited; otherwise it returns the given error. *)
Theorem kahn_decides_acyclicity `{!HashOrder} n ids es err :
  (Tasks.validate_acyclic_edges n ids es err = Ok tt ↔ Tasks.acyclic_edges ids es) ∧
  returns (Tasks.validate_acyclic_edges n ids es err).
Proof.
  split; [apply Tasks.validate_acyclic_edges_iff|apply Tasks.validate_acyclic_edges_returns].
Qed.

(** a task graph is accepted exactly when it is valid: its tasks belong
    to the session and its membership, stay within their budgets and have
    distinct identities, and neither the parent hierarchy nor the dependencies
    form a cycle. *)
Theorem task_graph_validation_exact `{!HashOrder} g m :
  (Tasks.validate g m = Ok tt ↔ Tasks.graph_ok g m) ∧ returns (Tasks.validate g m).
Proof. split; [apply Tasks.validate_graph_iff|apply Tasks.validate_graph_returns]. Qed.

(** * Membership *)

(** A membership is accepted exactly when it is well-formed, and then
    asking for its moderator cannot panic: it is the one participant with the
    moderator role, the one the governance names, and it is available. *)
Theorem membership_validation_exact m :
  (Membership.validate m = Ok tt ↔ Membership.well_formed m) ∧
  (Membership.validate m = Ok tt →
   ∃ p, Membership.moderator m = Ok p ∧ p ∈ Membership.participants m ∧ role p = Moderator ∧
     instance_id p = Membership.moderator_instance_id (Membership.governance m) ∧
     available (ai_state p) = true ∧
     ∀ q, q ∈ Membership.participants m → role q = Moderator → q = p).
Proof.
  split; [apply Membership.validate_well_formed|]. intros Hv%Membership.validate_well_formed.
  destruct (Membership.moderator_of_well_formed m Hv) as (p & ? & Hp & Hr & ? & ?).
  exists p. split_and!; try done. intros q Hq Hqr.
  destruct (Membership.wf_moderator _ Hv) as (p' & Hroots & _).
  assert (∀ x, x ∈ Membership.participants m → role x = Moderator → x = p') as Hall.
  { intros x Hx Hxr. apply list_elem_of_singleton. rewrite <- Hroots.
    apply Membership.elem_of_roots. by rewrite Hxr. }
  by rewrite (Hall q Hq Hqr), (Hall p Hp Hr).
Qed.

(** C39: the checks never panic and never loop, on any input: task graphs,
    messages, views, memberships, verdicts and decisions always get an answer;
    topologies do when the moderator is a member, and handoffs do on governed
    topologies. *)
Theorem checks_always_answer `{!HashOrder} :
  (∀ m, returns (Membership.validate m)) ∧
  (∀ t m, Membership.moderator_instance_id (Membership.governance m) ∈ Membership.members m →
     returns (Topology.validate t m)) ∧
  (∀ g m, returns (Tasks.validate g m)) ∧
  (∀ x t m now, returns (Mailbox.validate_new x t m now)) ∧
  (∀ h task t m now, Topology.governed t m → returns (Handoff.validate_proposal h task t m now)) ∧
  (∀ v m, returns (Workspace.validate_new v m)) ∧
  (∀ d c m g topology now, returns (Arbitration.validate d c m g topology now)).
Proof.
  split_and!.
  - apply Membership.validate_membership_returns.
  - apply Topology.validate_topology_returns.
  - apply Tasks.validate_graph_returns.
  - apply Mailbox.validate_message_returns.
  - apply Handoff.validate_proposal_returns.
  - apply Workspace.validate_view_returns.
  - apply Arbitration.validate_decision_returns.
Qed.

(** * Messages and handoffs *)

(** A message is admitted exactly when it is new, current, filled, live,
    between members and within its hop limit, and then its route is a shortest
    path of relations from the sender to the recipient. *)
Theorem message_admission_exact x t m now :
  (Mailbox.validate_new x t m now = Ok tt ↔ Mailbox.message_ok x t m now) ∧
  (Mailbox.validate_new x t m now = Ok tt →
   Route.shortest_route (Route.linked t) (Mailbox.sender_instance_id x)
     (Mailbox.recipient_instance_id x) (Mailbox.route x)).
Proof.
  split; [apply Mailbox.validate_message_iff|].
  intros Hv. eapply Mailbox.message_ok_route. by apply Mailbox.validate_message_iff.
Qed.

(** Deliveries and handoffs end: a message changes its state at most
    three times and is acknowledged only after a claim and a delivery; a
    handoff changes at most twice and is decided only from arbitration. *)
Theorem lifecycles_are_bounded :
  (∀ n s s', nsteps Mailbox.delivery_step n s s' → n ≤ 3) ∧
  (∀ n, nsteps Mailbox.delivery_step n Mailbox.Delivery.Pending Mailbox.Delivery.Acknowledged →
     n = 3) ∧
  (∀ n s s', nsteps Handoff.handoff_step n s s' → n ≤ 2) ∧
  (∀ s s', Handoff.handoff_step s s' →
     s' = Handoff.State.Accepted ∨ s' = Handoff.State.Rejected →
     s = Handoff.State.AwaitingArbitration).
Proof.
  split_and!.
  - apply Mailbox.delivery_bounded.
  - intros n Hn. by apply (Mailbox.delivery_acknowledged n _ Hn).
  - intros n s s' Hn. pose proof (ranked_run_bounded Handoff.handoff_step Handoff.handoff_rank 2
      Handoff.handoff_step_rank n s s' Hn). destruct s; simpl in *; lia.
  - apply Handoff.handoff_decided_from_arbitration.
Qed.

(** In a governed topology a handoff between members is proposed exactly
    under [proposal_ok], and the arbitrator it names is the nearest common
    owner of the two assignees. *)
Theorem handoff_proposal_exact h task t m now
    (Hgoverned : Topology.governed t m)
    (Hfrom : Handoff.from_instance_id h ∈ Membership.members m) :
  (Handoff.validate_proposal h task t m now = Ok tt ↔ Handoff.proposal_ok h task t m now) ∧
  (Handoff.validate_proposal h task t m now = Ok tt →
   let a := Handoff.arbitrator_instance_id h in
   rtc (Topology.owns t) a (Handoff.from_instance_id h) ∧
   rtc (Topology.owns t) a (Handoff.to_instance_id h) ∧
   ∀ o, rtc (Topology.owns t) o (Handoff.from_instance_id h) →
     rtc (Topology.owns t) o (Handoff.to_instance_id h) → rtc (Topology.owns t) o a).
Proof.
  split; [apply Handoff.validate_proposal_iff|].
  intros Hv%Handoff.validate_proposal_iff. by apply Handoff.proposal_arbitrated with task m now.
Qed.

Lemma handoff_proposal_exact_witness :
  let running := StoreTasks.put_task (Sample.task "t" None "w1" Tasks.TaskState.Ready)
    (Some "w1") Tasks.TaskState.Running 0 0 1 20 in
  Handoff.proposal_ok Sample.handoff running (Sample.hierarchy 0) Sample.members 21.
Proof.
  intros running. apply (handoff_proposal_exact Sample.handoff running (Sample.hierarchy 0)
    Sample.members 21).
  - apply Topology.validate_governed_iff; [exact Sample.moderator_is_member|].
    vm_compute. reflexivity.
  - by apply (bool_decide_eq_true_1 _).
  - vm_compute. reflexivity.
Defined.

(** * Workspaces *)

(** A workspace view is accepted exactly when it is new, current, owned
    by an available member and safe: whoever writes does so in an isolated
    worktree away from its source, with a branch and a base; a shared view is
    read-only and is the source itself. *)
Theorem view_admission_exact v m :
  (Workspace.validate_new v m = Ok tt ↔ Workspace.view_ok v m) ∧
  (Workspace.validate_new v m = Ok tt → Workspace.access v = Workspace.ReadWrite →
   Workspace.isolation v = Workspace.IsolatedWorktree ∧
   Workspace.components (Workspace.source_workspace v) ≠
     Workspace.components (Workspace.effective_workspace v)).
Proof.
  split; [apply Workspace.validate_view_iff|].
  intros Hv%Workspace.validate_view_iff Hw. pose proof (Workspace.v_mode _ _ Hv) as Hmode.
  unfold Workspace.mode_ok in Hmode. destruct (Workspace.isolation v).
  - destruct Hmode as [Hr _]. congruence.
  - by destruct Hmode.
Qed.

(** Transitions of a view are fenced.  Over any sequence of calls the
    revision counts exactly the calls that succeeded and the lifecycle is
    followed; a holder whose epoch or token is not the view's changes nothing;
    of two calls that read the same revision one fails; a terminal view never
    changes. *)
Theorem view_calls_are_fenced v cs :
  let '(w, succeeded) := Workspace.calls v cs in
  (Workspace.revision w = Workspace.revision v + Z.of_nat succeeded)%Z ∧
  rtc (λ a b, Workspace.ViewState.can_transition_to a b = true)
    (Workspace.state v) (Workspace.state w) ∧
  ((∀ c, c ∈ cs → Workspace.c_epoch c ≠ Workspace.lease_epoch v ∨
                   Workspace.c_token c ≠ Workspace.fencing_token v) → w = v) ∧
  (Workspace.ViewState.is_terminal (Workspace.state v) = true → w = v) ∧
  (∀ c d v1 v2, Workspace.c_expected c = Workspace.c_expected d →
     Workspace.call v c = (v1, Ok tt) → Workspace.call v1 d ≠ (v2, Ok tt)).
Proof.
  pose proof (Workspace.calls_revision v cs) as Hrev.
  pose proof (Workspace.stale_calls v cs) as Hstale.
  pose proof (Workspace.view_frozen v cs) as Hfrozen.
  destruct (Workspace.calls v cs) as [w n]. destruct Hrev as (? & _ & _ & ?).
  split_and!; [done|done| | |].
  - intros Hc. by injection (Hstale Hc).
  - intros Ht. by injection (Hfrozen Ht).
  - intros c d v1 v2 Hcd Hc Hd. by apply (Workspace.one_winner v c d v1 v2).
Qed.

(** An integration starts from an approval of the moderator for exactly
    the current view, topology and membership; from there it takes at most two
    steps, keeps its approval, counts its revisions, and carries a merge
    receipt exactly when it was applied. *)
Theorem integration_is_approved_and_bounded a v m topology i n j
    (Hnew : Workspace.new a v m topology = Ok i)
    (Hsteps : nsteps Workspace.integration_step n i j) :
  Workspace.approval_ok a v m topology ∧ Workspace.approval j = a ∧
  Workspace.i_revision j = Z.of_nat n ∧ n ≤ 2 ∧
  match Workspace.merge_revision j with
  | Some receipt => Workspace.i_state j = Workspace.IntegrationState.Applied ∧
      Workspace.is_git_revision receipt = true
  | None => Workspace.i_state j ≠ Workspace.IntegrationState.Applied
  end.
Proof.
  apply Workspace.new_ok in Hnew as [Ha ->].
  pose proof (Workspace.integration_bounded _ _ _ Hsteps).
  apply Workspace.integration_run in Hsteps as (Hr & -> & ->); [|done].
  simpl in *. split_and!; [done|done|lia|lia|exact Hr].
Qed.

Lemma integration_is_approved_and_bounded_witness :
  Workspace.approval_ok Sample.approval (Sample.view Workspace.ViewState.Active 1)
    Sample.members 0 ∧
  Workspace.is_git_revision (Sample.sha "3") = true.
Proof.
  destruct (integration_is_approved_and_bounded Sample.approval
    (Sample.view Workspace.ViewState.Active 1) Sample.members 0
    (Sample.integration Workspace.IntegrationState.Approved None 0 40) 2
    (Sample.integration Workspace.IntegrationState.Applied (Some (Sample.sha "3")) 2 42))
    as (Ha & _ & _ & _ & _ & Hr).
  - vm_compute. reflexivity.
  - apply nsteps_l with (Sample.integration Workspace.IntegrationState.Applying None 1 41).
    + exists {| Workspace.ic_expected := 0; Workspace.ic_next :=
        Workspace.IntegrationState.Applying; Workspace.ic_receipt := None;
        Workspace.ic_now := 41 |}. vm_compute. reflexivity.
    + apply nsteps_once. exists {| Workspace.ic_expected := 1; Workspace.ic_next :=
        Workspace.IntegrationState.Applied; Workspace.ic_receipt := Some (Sample.sha "3");
        Workspace.ic_now := 42 |}. vm_compute. reflexivity.
  - exact (conj Ha Hr).
Defined.
