(* ===== verification/GovernanceSpec.v ===== *)
(** What the governance of a session promises: deadlocks are found exactly,
    assessments terminate and do not depend on hash order, the limits stop a
    session exactly when one is exceeded, and a moderator's decision is
    accepted exactly when it is authorised and applicable
    (src/sylvander-runtime/src/coordination/governance.rs and arbitration.rs).

    Each theorem with a hypothesis is followed by an instance. *)

From S2P Require Import Prelude Graph Instance.
From S2P Require Membership Topology Tasks Governance Arbitration Sample.
From stdpp Require Import base tactics gmap strings list sorting relations.
From Stdlib Require Import ZArith Lia.

(** An assessment of the session of [Sample]: two agents wait for each other. *)
Definition sample_snapshot : Governance.GovernanceSnapshot := {|
  Governance.membership := Sample.members; Governance.topology := Sample.hierarchy 0;
  Governance.tasks := Sample.graph;
  Governance.waits := [Governance.wait_of "w1" "w2"; Governance.wait_of "w2" "w1"];
  Governance.progress := []; Governance.handoffs := [];
|}.

Lemma sample_governed : Topology.governed (Sample.hierarchy 0) Sample.members.
Proof.
  apply Topology.validate_governed_iff; [exact Sample.moderator_is_member|].
  vm_compute. reflexivity.
Qed.

Lemma default_policy_ok : Governance.policy_ok Governance.default_policy.
Proof. done. Qed.

(** C40: the reported wait cycles are exactly the deadlocks: each of them
    once, as the sorted list of all agents that wait for one another, and an
    agent waits for itself, directly or not, exactly when it is in one. *)
Theorem wait_cycles_are_the_deadlocks `{!HashOrder} waits :
  NoDup (Governance.wait_cycles waits) ∧
  (∀ c, c ∈ Governance.wait_cycles waits ↔ Governance.is_cycle (Governance.waits_for waits) c) ∧
  (Governance.wait_cycles waits = [] ↔ ∀ i, ¬ tc (Governance.waits_for waits) i i).
Proof.
  destruct (Governance.wait_cycles_spec waits) as [Hnd Hin]. split_and!; [done|done|]. split.
  - intros Hnil i Hi. destruct (Governance.cycle_exists waits i Hi) as [c Hc].
    apply Hin in Hc. rewrite Hnil in Hc. by apply not_elem_of_nil in Hc.
  - intros Hno. destruct (Governance.wait_cycles waits) as [|c cs]; [done|]. exfalso.
    assert (c ∈ c :: cs) as (_ & _ & a & Ha & _)%Hin by left. by apply (Hno a).
Qed.

(** On a governed topology an assessment is finished once the fuel
    exceeds the number of relations by two, and more fuel changes nothing. *)
Theorem assessment_terminates `{!HashOrder} policy s
    (Hgoverned : Topology.governed (Governance.topology s) (Governance.membership s)) :
  ∃ a, ∀ fuel, length (Topology.relations (Governance.topology s)) + 1 < fuel →
    Governance.assess fuel policy s = Some a.
Proof.
  set (k := length (Topology.relations (Governance.topology s)) + 2).
  destruct (Governance.assess_is_some k policy s Hgoverned) as [a Ha]; [lia|].
  exists a. intros fuel Hf.
  destruct (Governance.assess_is_some fuel policy s Hgoverned Hf) as [b Hb]. rewrite Hb. f_equal.
  apply Governance.assess_parts in Ha as (d & Hd & ->).
  apply Governance.assess_parts in Hb as (d' & Hd' & ->).
  apply Governance.ownership_depth_spec in Hd as [(x & Hx) Hmax].
  apply Governance.ownership_depth_spec in Hd' as [(y & Hy) Hmax'].
  assert (d = d') as ->; [|done].
  specialize (Hmax _ _ Hy). specialize (Hmax' _ _ Hx). lia.
Qed.

Lemma assessment_terminates_witness :
  Governance.findings <$> Governance.assess 4 Governance.default_policy sample_snapshot =
  Some [Governance.WaitCycle ["w1"; "w2"]].
Proof.
  destruct (assessment_terminates Governance.default_policy sample_snapshot sample_governed)
    as [a Ha].
  pose proof (Ha 9%nat ltac:(vm_compute; lia)) as H9. rewrite (Ha 4%nat ltac:(vm_compute; lia)).
  vm_compute in H9. injection H9 as <-. reflexivity.
Defined.

(** An assessment demands a hard stop exactly when a limit is exceeded:
    too many agents, too many children, too deep an ownership chain, too many
    active tasks, an exhausted token budget, or a deadlock. *)
Theorem hard_stop_exact `{!HashOrder} fuel policy s a
    (Hpolicy : Governance.policy_ok policy)
    (Ha : Governance.assess fuel policy s = Some a) :
  Governance.has_hard_stop a = true ↔ Governance.overloaded policy s.
Proof. by apply (Governance.hard_stop_iff fuel). Qed.

Lemma hard_stop_exact_witness :
  Governance.overloaded Governance.default_policy sample_snapshot.
Proof.
  destruct (Governance.assess 9 Governance.default_policy sample_snapshot) as [a|] eqn:E;
    [|vm_compute in E; discriminate].
  apply (hard_stop_exact 9 Governance.default_policy sample_snapshot a default_policy_ok E).
  vm_compute in E. injection E as <-. reflexivity.
Defined.

(** A session may progress without its moderator exactly when no limit is
    exceeded, no task spends tokens over a full window of observations without
    a new revision or new evidence, and no task is handed to and fro over a
    full window of handoffs. *)
Theorem automatic_progress_exact `{!HashOrder} fuel policy s a
    (Hpolicy : Governance.policy_ok policy)
    (Ha : Governance.assess fuel policy s = Some a) :
  Governance.permits_automatic_progress a = true ↔
  ¬ Governance.overloaded policy s ∧
  ((2 ≤ Governance.stagnation_window policy)%Z → ∀ t ws,
     Governance.full_window Governance.p_task_id Governance.observed_at
       (Governance.stagnation_window policy) (Governance.progress s) t ws →
     ¬ Governance.no_progress ws) ∧
  ((2 ≤ Governance.handoff_ping_pong_window policy)%Z → ∀ t ws,
     Governance.full_window Governance.o_task_id Governance.accepted_at
       (Governance.handoff_ping_pong_window policy) (Governance.handoffs s) t ws →
     ¬ Governance.ping_pong ws).
Proof. by apply (Governance.permits_iff fuel). Qed.

Definition calm_snapshot : Governance.GovernanceSnapshot := {|
  Governance.membership := Sample.members; Governance.topology := Sample.hierarchy 0;
  Governance.tasks := Sample.graph; Governance.waits := [Governance.wait_of "w1" "w2"];
  Governance.progress := []; Governance.handoffs := [];
|}.

Lemma automatic_progress_exact_witness :
  ¬ Governance.overloaded Governance.default_policy calm_snapshot.
Proof.
  destruct (Governance.assess 9 Governance.default_policy calm_snapshot) as [a|] eqn:E;
    [|vm_compute in E; discriminate].
  apply (automatic_progress_exact 9 Governance.default_policy calm_snapshot a
    default_policy_ok E).
  vm_compute in E. injection E as <-. reflexivity.
Defined.

(** two assessments of the same facts that visit their hash maps in
    different orders report the same findings, up to their order, and agree on
    stopping the session and on letting it progress. *)
Theorem assessment_independent_of_hash_order (O1 O2 : HashOrder) fuel policy s a
    (Ha : @Governance.assess O1 fuel policy s = Some a) :
  ∃ b, @Governance.assess O2 fuel policy s = Some b ∧
    Governance.findings b ≡ₚ Governance.findings a ∧
    Governance.has_hard_stop b = Governance.has_hard_stop a ∧
    Governance.permits_automatic_progress b = Governance.permits_automatic_progress a.
Proof.
  destruct (Governance.assess_perm O1 O2 fuel policy s a Ha) as (b & Hb & _ & Hp).
  exists b. split_and!; [done|done|by apply Governance.hard_stop_perm|].
  unfold Governance.permits_automatic_progress.
  destruct (Governance.findings a) as [|x l], (Governance.findings b) as [|y k]; try done.
  - by apply Permutation_nil_r in Hp.
  - by apply Permutation_nil_l in Hp.
Qed.

Lemma assessment_independent_of_hash_order_witness :
  ∃ b, @Governance.assess reverse_order 9 Governance.default_policy sample_snapshot = Some b ∧
    Governance.has_hard_stop b = true.
Proof.
  destruct (@Governance.assess elements_order 9 Governance.default_policy sample_snapshot)
    as [a|] eqn:E; [|vm_compute in E; discriminate].
  destruct (assessment_independent_of_hash_order elements_order reverse_order 9
    Governance.default_policy sample_snapshot a E) as (b & Hb & _ & Hstop & _).
  exists b. split; [exact Hb|]. rewrite Hstop. vm_compute in E. injection E as <-. reflexivity.
Defined.

(** A decision is accepted exactly when the case is open and in time, the
    moderator and its lease are the ones of the case and of the current
    governance, the facts are current, reasons are given and the verdict is
    applicable to every task and agent it names; the check never panics, and a
    case with a hard stop is never continued. *)
Theorem decision_check_exact d c m g topology now :
  (Arbitration.validate d c m g topology now = Ok tt ↔
   Arbitration.decision_ok d c m g topology now) ∧
  returns (Arbitration.validate d c m g topology now) ∧
  (Arbitration.has_hard_stop c = true → ∀ conditions,
   Arbitration.verdict d = Arbitration.ContinueWithConditions conditions →
   Arbitration.validate d c m g topology now ≠ Ok tt).
Proof.
  split_and!.
  - apply Arbitration.validate_decision_iff.
  - apply Arbitration.validate_decision_returns.
  - intros Hs conditions Hv Hok%Arbitration.validate_decision_iff.
    pose proof (Arbitration.d_hard_stop _ _ _ _ _ _ Hok Hs) as Hc. by rewrite Hv in Hc.
Qed.
