(* ===== verification/SystemSample.v ===== *)
(** A session in the whole database: founded with a moderator and two workers,
    one of which is forked. *)

From S2P Require Import Prelude Graph Instance Store StoreRun.
From S2P Require Membership Topology Tasks Workspace Sample StoreTasks.
From S2P Require Import WorkspaceStore InstanceStore InstanceStoreFacts InstanceStoreRun StoreSystem.
From stdpp Require Import base tactics gmap strings list.
From Stdlib Require Import ZArith.

Local Open Scope Z_scope.

Definition settings : SessionEffectiveConfig :=
  {| ec_agent_id := "coder"; ec_agent_revision := 1; ec_settings := "{}" |}.

Definition empty_db : db := {|
  governance := ∅; instances := ∅; topologies := ∅; tasks := ∅; leases := ∅; dependencies := ∅;
  handoffs := ∅; messages := ∅; turns := ∅; waits := ∅; progress := ∅; cases := ∅; decisions := ∅;
|}.

(** One session row and nothing else. *)
Definition unfounded : sdb := {|
  wk := {| core := empty_db; views := ∅; integrations := ∅ |};
  sessions := {["s" := {| is_archived := false; s_config_revision := 0;
                          s_effective_config := Some settings; s_user_id := "u";
                          s_updated_at := 0 |}]};
  ordinals := ∅; session_agents := ∅; configs := ∅; lines := ∅; fork_receipts := ∅;
|}.

Ltac from_empty :=
  repeat intro; simpl in *;
  match goal with Hx : ∅ !! _ = Some _ |- _ => by rewrite lookup_empty in Hx end.

Lemma unfounded_ok : durable_ok unfounded.
Proof.
  split.
  - split; [split| |split| |]; from_empty.
  - split; from_empty.
  - split; [from_empty| |from_empty|from_empty]. intros s. exists []. split; [|done].
    split; [|constructor|by intros n p Hn; rewrite lookup_nil in Hn].
    intros p. simpl. rewrite lookup_empty. split; [by intros ?%not_elem_of_nil|naive_solver].
Qed.

Definition governed (revision : Z) : Membership.SessionGovernance := {|
  Membership.g_session_id := "s"; Membership.moderator_instance_id := "m";
  Membership.governance_revision := "g1"; Membership.membership_revision := revision;
  Membership.lease_epoch := 1; Membership.fencing_token := 7; Membership.g_updated_at := 5;
|}.

Definition founders : Membership.SessionMembership := {|
  Membership.m_session_id := "s";
  Membership.participants := Membership.participants Sample.members;
  Membership.governance := governed 0;
|}.

Definition hierarchy (membership revision : Z) (rs : list Topology.AgentRelation) :
    Topology.SessionTopology := {|
  Topology.session_id := "s"; Topology.membership_revision := membership;
  Topology.topology_revision := revision;
  Topology.relations := Topology.relations (Sample.hierarchy 0) ++ rs; Topology.updated_at := 0;
|}.

Definition line_of (i : string) (summarized : bool) (text : string) : line := {|
  l_agent_instance_id := Some i; is_summarized := summarized;
  l_content := {| l_role := "user"; content_json := text; user_id := "u"; l_agent_id := "coder";
                  trace_id := None; priority := None; model_id := None; tool_name := None;
                  l_created_at := 0 |};
|}.

Definition founding : list durable_op := [
  OpSaveMembership founders None;
  OpCoordination (Sample.on_fact (OpTopology (hierarchy 0 0 []) founders None));
  OpCoordination (Sample.on_task (StoreTasks.OpCreate {|
    Tasks.task_id := "t"; Tasks.session_id := "s"; Tasks.membership_revision := 0;
    Tasks.parent_task_id := None; Tasks.created_by := "m"; Tasks.assigned_to := Some "w1";
    Tasks.objective := "build"; Tasks.state := Tasks.TaskState.Ready; Tasks.token_budget := 100;
    Tasks.consumed_tokens := 0; Tasks.max_handoffs := 2; Tasks.handoff_count := 0;
    Tasks.revision := 0; Tasks.created_at := 0; Tasks.updated_at := 0 |}));
  OpSaveConfig {| cfg_session_id := "s"; cfg_instance_id := "w1"; config_revision := 0;
                  effective := settings; cfg_updated_at := 0 |} None;
  OpSessionRows (sessions unfounded)
    {[("s", 0) := line_of "w1" true "old"; ("s", 1) := line_of "m" false "plan";
      ("s", 2) := line_of "w1" false "first"; ("s", 5) := line_of "w1" false "second"]}].

Definition founded : sdb := durable_run unfounded founding.

Lemma founding_legal : durable_legal_run unfounded founding.
Proof. vm_compute. intuition discriminate. Qed.

Lemma founded_ok : durable_ok founded.
Proof. apply durable_run_ok; [apply unfounded_ok|apply founding_legal]. Qed.

Example founded_members :
  session_membership founded "s" = Ok (Some founders) ∧ size (tasks (base founded)) = 1%nat ∧
  Topology.relations <$> topologies (base founded) !! "s" =
    Some (Topology.relations (hierarchy 0 0 [])).
Proof. vm_compute. done. Qed.

(** The first worker is forked. *)
Definition fork : AgentInstance := {|
  instance_id := "w3"; ai_session_id := "s";
  definition := {| agent_id := "coder"; definition_revision := 1 |};
  origin := Forked "w1" 0; role := Worker; history_view := ForkSnapshot 0 "branch";
  approval_route := RouteParent "w1"; ai_state := InstanceState.Created; lifecycle_revision := 0;
  capability_revision := "caps"; ai_created_at := 9; ai_updated_at := 9;
|}.

Definition proposed : Membership.SessionMembership := {|
  Membership.m_session_id := "s";
  Membership.participants := Membership.participants founders ++ [fork];
  Membership.governance := governed 1;
|}.

Definition grown_hierarchy : Topology.SessionTopology :=
  hierarchy 1 1 [Sample.relation "w1" "w3" Topology.ParentOf].

Definition forked_worker : AgentInstance := with_history fork (ForkSnapshot 6 "branch").

Definition forked_session : sdb :=
  (run founded (add_session_participant founded fork (InheritFrom "w1") proposed grown_hierarchy 0 0)).2.

Example fork_added :
  add_session_participant founded fork (InheritFrom "w1") proposed grown_hierarchy 0 0 =
    Ok (forked_worker, forked_session).
Proof. vm_compute. reflexivity. Qed.

Example fork_history :
  content_json <$> (open_lines forked_session "s" "w3").*2 = ["first"; "second"] ∧
  Tasks.membership_revision <$> tasks (base forked_session) !! "t" = Some 1.
Proof. vm_compute. done. Qed.
