(* ===== verification/SystemSpec.v ===== *)
(** What the session database guarantees as one system: the stores of
    src/sylvander-runtime/src/storage/coordination.rs,
    src/sylvander-runtime/src/storage/workspace_coordination.rs and
    src/sylvander-runtime/src/storage/agent_instance.rs over every interleaving of
    their operations.

    Each theorem is followed by its instance on the session of [SystemSample]. *)

From S2P Require Import Prelude Graph Instance Store StoreRun.
From S2P Require Membership Topology Tasks Workspace Sample StoreTasks.
From S2P Require Import WorkspaceStore InstanceStore InstanceStoreFacts InstanceStoreRun InstanceStoreSave.
From S2P Require Import StoreSystem SystemSample.
From stdpp Require Import base tactics gmap strings list sorting relations.
From Stdlib Require Import ZArith Lia.

(** C3: Whatever operations of the three stores run in whatever order, the tables stay
    well formed as a whole: the coordination store keeps its invariant, a workspace
    view has one owner and an integration one approval, ordinals number the
    participants of a session without gaps, every governed session has a membership
    that is sound, a configuration names the definition of its participant, and a
    fork receipt names a participant of its session. *)
Theorem durable_run_invariant `{!HashOrder} d ops
    (Hok : durable_ok d) (Hlegal : durable_legal_run d ops) :
  durable_ok (durable_run d ops).
Proof. by apply durable_run_ok. Qed.

Lemma durable_run_invariant_witness : durable_ok (durable_run unfounded founding).
Proof. apply (durable_run_invariant unfounded founding); [apply unfounded_ok|apply founding_legal]. Defined.

(** Membership is append-only: unless a whole membership is saved over an existing
    one, every participant stays where it is in the order of its session, with the
    identity, definition, origin and role it was created with; its state follows
    the lifecycle, and its lifecycle revision does not fall and moves with every change
    of the row; new participants come after the old ones. *)
Theorem participants_only_appended `{!HashOrder} d ops s
    (Hok : durable_ok d) (Hlegal : durable_legal_run d ops)
    (Hsaves : Forall (λ op, replaces op = false) ops) :
  ∃ moved new, stored_participants (durable_run d ops) s = moved ++ new ∧
    Forall2 (λ p p',
      instance_id p' = instance_id p ∧ definition p' = definition p ∧ origin p' = origin p ∧
      role p' = role p ∧ (lifecycle_revision p ≤ lifecycle_revision p')%Z ∧
      rtc lifecycle_step (ai_state p) (ai_state p') ∧
      (lifecycle_revision p' = lifecycle_revision p → p' = p))
      (stored_participants d s) moved.
Proof.
  destruct (durable_run_extends d ops s Hok Hlegal Hsaves) as (moved & new & Hd & Hm).
  exists moved, new. split; [done|]. eapply Forall2_impl; [exact Hm|]. intros p p' Hrun.
  destruct (instance_run_identity _ _ Hrun) as (? & ? & ? & ? & ? & ? & ? & ?).
  split_and!; try done. intros He. inversion Hrun as [|? q ? [_ _ Hq] Hrest]; [done|subst].
  destruct (instance_run_identity _ _ Hrest) as (_ & _ & _ & _ & _ & _ & ? & _). lia.
Qed.

Definition adding : list durable_op := [
  OpTransitionInstance "s" "w1" 1 InstanceState.Running 7;
  OpAddParticipant fork (InheritFrom "w1") proposed grown_hierarchy 0 0].

Lemma participants_only_appended_witness :
  ∃ moved new, stored_participants (durable_run founded adding) "s" = moved ++ new ∧
    length moved = 3 ∧ length new = 1.
Proof.
  destruct (participants_only_appended founded adding "s") as (moved & new & Hd & Hm).
  - apply founded_ok.
  - vm_compute. intuition discriminate.
  - repeat constructor.
  - exists moved, new. apply Forall2_length in Hm. split; [exact Hd|].
    apply (f_equal length) in Hd. rewrite length_app, <- Hm in Hd.
    rewrite <- Hm. vm_compute in Hd |- *. split; [reflexivity|congruence].
Defined.

(** An append adds the participant it names at the end of its session and nobody
    else, whatever membership the caller proposes: the other rows, the governance
    but for its revision, and every other session are left as they are, the
    revisions of membership and topology each grow by one, and the participant has
    a configuration of its own definition. *)
Theorem append_adds_one_participant `{!HashOrder} d p seed m t em et p' d'
    (Hok : sessions_ok d) (Ha : add_session_participant d p seed m t em et = Ok (p', d')) :
  let s := ai_session_id p in
  stored_participants d' s = stored_participants d s ++ [p'] ∧
  (∃ h, p' = with_history p h) ∧
  (∃ g, governance (base d) !! s = Some g ∧ Membership.membership_revision g = em ∧
     governance (base d') !! s =
       Some (advanced g (em + 1) (Membership.g_updated_at (Membership.governance m)))) ∧
  topology_revision_of (base d) s = Some et ∧ topology_revision_of (base d') s = Some (et + 1)%Z ∧
  (∀ s', s' ≠ s → stored_participants d' s' = stored_participants d s' ∧
     governance (base d') !! s' = governance (base d) !! s') ∧
  ∃ c, configs d' !! (s, instance_id p) = Some c ∧ config_ok d' (s, instance_id p) c.
Proof.
  destruct (add_keeps _ _ _ _ _ _ _ _ _ Hok Ha)
    as [_ [[h Hh] (g & Hg & Hm & [Hps Hg' Ho]) [Ht Ht'] _ (c & Hc & Hcs & _)]].
  assert (ai_session_id p' = ai_session_id p) as Hs by by rewrite Hh.
  rewrite Hs in Hps, Hg', Ho. split_and!; try done; [by exists h|by exists g|by exists c].
Qed.

Lemma append_adds_one_participant_witness :
  instance_id <$> stored_participants forked_session "s" = ["m"; "w1"; "w2"; "w3"].
Proof.
  destruct (append_adds_one_participant founded fork (InheritFrom "w1") proposed grown_hierarchy 0 0
    forked_worker forked_session) as [Hps _]; [apply founded_ok|apply fork_added|].
  change (ai_session_id fork) with "s" in Hps. rewrite Hps. vm_compute. reflexivity.
Defined.

(** A fork starts with its parent's open history, line by line and in order, and
    with its parent's configuration; no line that was there is lost or changed, and
    the history of everybody else reads as before. *)
Theorem fork_inherits_history `{!HashOrder} d p parent m t em et p' d'
    (Hok : sessions_ok d)
    (Ha : add_session_participant d p (InheritFrom parent) m t em et = Ok (p', d')) :
  let s := ai_session_id p in
  (open_lines d' s (instance_id p)).*2 = (open_lines d s parent).*2 ∧
  lines d ⊆ lines d' ∧
  (∀ s' i, (s', i) ≠ (s, instance_id p) → open_lines d' s' i = open_lines d s' i) ∧
  effective <$> configs d' !! (s, instance_id p) = effective <$> configs d !! (s, parent).
Proof.
  destruct (add_keeps _ _ _ _ _ _ _ _ _ Hok Ha)
    as [_ [_ _ _ (_ & Hl & Hch & Ho) (c & _ & Hcs & e & He & Hce & _)]].
  split_and!; try done. simpl. rewrite Hcs, He. simpl. congruence.
Qed.

Lemma fork_inherits_history_witness :
  content_json <$> (open_lines forked_session "s" "w3").*2 = ["first"; "second"].
Proof.
  destruct (fork_inherits_history founded fork "w1" proposed grown_hierarchy 0 0 forked_worker
    forked_session) as [Hl _]; [apply founded_ok|apply fork_added|].
  change (ai_session_id fork) with "s" in Hl. change (instance_id fork) with "w3" in Hl.
  rewrite Hl. vm_compute. reflexivity.
Defined.

(** C32: A saved membership is read back, and it takes the place of the one whose
    revision the caller named; other sessions keep theirs. *)
Theorem membership_reads_back d m expected d'
    (Hok : sessions_ok d) (Hs : save_session_membership d m expected = Ok (tt, d')) :
  session_membership d' (Membership.m_session_id m) = Ok (Some m) ∧
  membership_revision_of (base d) (Membership.m_session_id m) = expected ∧
  Membership.membership_revision (Membership.governance m) =
    match expected with Some r => (r + 1)%Z | None => 0%Z end ∧
  ∀ s, s ≠ Membership.m_session_id m → session_membership d' s = session_membership d s.
Proof.
  destruct (save_membership_ok d m expected d' Hok Hs) as (Hok' & Hwf & Hr & Hn & Hg & Hps & Ho).
  split_and!; try done.
  - pose proof (session_membership_spec d' (Membership.m_session_id m) Hok') as Hspec.
    rewrite Hg, lookup_insert_eq, Hps in Hspec. apply well_formed_sound in Hwf as [_ Hav].
    assert (membership_of (Membership.m_session_id m) (Membership.participants m)
              (Membership.governance m) = m) as Hm by by destruct m.
    simpl in Hspec. rewrite Hm in Hspec. by destruct Hspec as (_ & _ & [[_ ?]|[? _]]).
  - intros s Hne. unfold session_membership. rewrite Hg, lookup_insert_ne by done. by rewrite Ho.
Qed.

Lemma membership_reads_back_witness :
  session_membership (run unfounded (save_session_membership unfounded founders None)).2 "s" =
    Ok (Some founders).
Proof.
  destruct (membership_reads_back unfounded founders None
    (run unfounded (save_session_membership unfounded founders None)).2) as [Hm _];
    [apply unfounded_ok|vm_compute; reflexivity|exact Hm].
Defined.

(** A transition of an instance succeeds exactly when the caller names the stored
    revision and a state the lifecycle leads to (within the column's range), and
    then changes that row alone. *)
Theorem instance_transition_exact d s i expected next now p
    (Hok : sessions_ok d) (Hp : load_agent_instance d s i = Some p)
    (Hrange : (0 ≤ expected < i64_max)%Z) :
  let c := transition_agent_instance d s i expected next now in
  ((∃ r, c = Ok r) ↔
     lifecycle_revision p = expected ∧ InstanceState.can_transition_to (ai_state p) next = true) ∧
  (∀ p' d', c = Ok (p', d') → instance_step p p' ∧ ai_state p' = next ∧
     instances (base d') = <[i := p']> (instances (base d)) ∧ sessions_ok d').
Proof.
  intros c. split.
  - split.
    + intros [[p' d'] H]. unfold c, transition_agent_instance in H. rewrite Hp in H. simpl in H.
      apply bail_ok in H as [Hr H]. apply bail_ok in H as [Hn _]. destruct_guards.
      by apply Z.eqb_eq in Hr.
    + intros [Hr Hn]. unfold c, transition_agent_instance. rewrite Hp. simpl.
      rewrite Hr, Z.eqb_refl, Hn. simpl. unfold next_u64.
      rewrite (proj2 (checked_add_some u64_max expected 1 (expected + 1)))
        by (unfold i64_max, u64_max in *; lia). simpl. unfold checked_i64.
      rewrite !(proj2 (Z.leb_le _ _)) by lia. simpl. by eexists.
  - intros p' d' H. pose proof (sessions_ok_transition _ _ _ _ _ _ _ _ Hok H) as Hok'.
    apply agent_transition_ok in H as (q & Hq & Hs & _ & Hst & Hn & _ & ->); [|by apply ss_keys].
    unfold load_agent_instance in Hp. rewrite Hq, bool_decide_eq_true_2 in Hp by done.
    by injection Hp as ->.
Qed.

Lemma instance_transition_exact_witness :
  ∃ r, transition_agent_instance founded "s" "w1" 1 InstanceState.Running 7 = Ok r.
Proof.
  apply (instance_transition_exact founded "s" "w1" 1 InstanceState.Running 7
    (Sample.agent "w1" Worker)); [apply founded_ok|vm_compute; reflexivity|split; [lia|vm_compute; reflexivity]|].
  split; [reflexivity|vm_compute; reflexivity].
Defined.

(** C33: A stored integration was approved: at some moment of the run the moderator of a
    membership approved exactly that integration, for the view and the topology
    revision stored at that moment.  Its approval never changes, it still concerns
    the lease its view has, a receipt appears only with a revision of git once it is
    applied, and a view has no second active integration. *)
Theorem stored_integration_was_approved d ops id i'
    (Hok : workspace_ok d) (Hnew : integrations d !! id = None)
    (Hi : integrations (execs d ops) !! id = Some i') :
  (∃ before after v m topology, ops = before ++ after ∧
     Workspace.approval_ok (Workspace.approval i') v m topology ∧
     (∃ w, views (execs d before) !! Workspace.view_id v = Some w ∧ view_eq w v = true) ∧
     topology_revision_of (core (execs d before)) (Workspace.session_id v) = Some topology) ∧
  (∃ v, views (execs d ops) !! Workspace.a_view_id (Workspace.approval i') = Some v ∧
     bound (Workspace.approval i') v) ∧
  Workspace.receipt_ok i' ∧
  ∀ j k, integrations (execs d ops) !! j = Some k → integration_active i' = true →
    integration_active k = true →
    Workspace.a_view_id (Workspace.approval k) = Workspace.a_view_id (Workspace.approval i') →
    j = id.
Proof.
  pose proof (execs_ok d ops Hok) as Hok'.
  destruct (wo_integration _ Hok' _ _ Hi) as (_ & Hr & Hb). split_and!; try done.
  - destruct (execs_approved d ops id i' Hok Hi Hnew)
      as (before & after & i & -> & (_ & _ & _ & v & m & t & Ha & Hw & Ht) & He).
    exists before, after, v, m, t. rewrite He. split_and!; try done.
    by rewrite Ht; destruct Ha as [_ _ _ -> _ _ _ _].
  - intros j k Hk Hai Hak Hv. by apply (wo_one_integration _ Hok' j id k i').
Qed.

Definition integrating : list workspace_op := [
  OpCreateView (Sample.view Workspace.ViewState.Provisioning 0) Sample.members;
  OpTransitionView "v" 0 1 3 Workspace.ViewState.Active 0;
  OpCreateIntegration (Sample.integration Workspace.IntegrationState.Approved None 0 40)
    (Sample.view Workspace.ViewState.Active 1) Sample.members 0;
  OpTransitionIntegration "i" 0 Workspace.IntegrationState.Applying 41].

Definition bare : wdb := {| core := Sample.fresh; views := ∅; integrations := ∅ |}.

Lemma stored_integration_was_approved_witness :
  ∃ v m topology, Workspace.approval_ok Sample.approval v m topology.
Proof.
  destruct (stored_integration_was_approved bare integrating "i"
    (Sample.integration Workspace.IntegrationState.Applying None 1 41))
    as [(_ & _ & v & m & t & _ & Ha & _) _].
  - split; from_empty.
  - vm_compute. reflexivity.
  - vm_compute. reflexivity.
  - exists v, m, t. exact Ha.
Defined.
