(* ===== verification/TurnSample.v ===== *)
(** A turn in the session of [SystemSample]: the first worker answers with a tool call
    whose effect has started when the process stops, and the moderator is asked what
    became of it. *)

From S2P Require Import Prelude Graph Instance Store Ledger ToolContract ToolInvocation.
From S2P Require Import WorkspaceStore InstanceStore StoreSystem SystemSample.
From S2P Require Import SessionTables TurnStore ToolStore HistoryStore TurnFacts TurnRun LedgerRun.
From stdpp Require Import base tactics gmap strings list.
From Stdlib Require Import ZArith.

Local Open Scope Z_scope.

(** Crates of an image without Unicode. *)
#[local] Instance sample_crates : Crates := {|
  sha256_hex s := s; uuid_parses s := String.prefix "0000" s; to_lowercase s := s;
  split_whitespace s := [s]; trim s := s |}.

Definition blank : tdb := {|
  sd := unfounded; row_keys := ∅; last_row_id := 0; session_turns := ∅; iterations := ∅;
  tool_calls := ∅; recovery_actions := ∅; usages := ∅ |}.

Lemma blank_ok : turns_ok blank.
Proof. split; try from_empty. intros k. simpl. by rewrite !lookup_empty. Qed.

(** The session of [SystemSample] with its four messages. *)
Definition opened : tdb := number_rows blank founded.

Lemma opened_ok : turns_ok opened ∧ durable_ok (sd opened).
Proof.
  split; [|apply founded_ok]. apply kept_below; [apply blank_ok|]. apply map_empty_subseteq.
Qed.

Definition zeros : string := Eval vm_compute in String.concat "" (repeat "0" 64).
Definition digest : string := "sha256:" +:+ zeros.

Definition worker : SessionContext := {|
  ctx_user_id := "u"; ctx_agent_id := "coder"; ctx_agent_instance_id := Some "w1";
  ctx_trace_id := None; ctx_priority := Priorities.Normal |}.

Definition start_turn : TurnStart := {|
  ts_session_id := "s"; ts_turn_id := "t1"; ts_agent_instance_id := "w1"; ts_config_revision := 0;
  ts_effective_config := settings; ts_user_content := "build it"; ts_model_id := "model" |}.

Definition asking : list session_op := [
  OpBeginTurn worker start_turn 10;
  OpBeginIteration {|
    mi_session_id := "s"; mi_turn_id := "t1"; mi_iteration := 1; mi_invocation_id := "0000-model";
    mi_model_id := "model"; mi_capability_revision := digest; mi_request_digest := digest |} 11;
  OpPersistResponse worker {|
    mp_invocation_id := "0000-model"; mp_expected_revision := 0; mp_assistant_content := "run make";
    mp_model_id := "model"; mp_terminal := false |} 12].

Definition advance (revision : Z) (from to : ToolExecutionPosition) : ToolCallAdvance := {|
  ca_session_id := "s"; ca_turn_id := "t1"; ca_call_id := "c1"; ca_expected_revision := revision;
  ca_expected_position := from; ca_next_position := to |}.

Definition begin_call : ToolCallStart := {|
  cs_session_id := "s"; cs_turn_id := "t1"; cs_call_id := "c1"; cs_invocation_id := "0000-call";
  cs_tool_name := "shell"; cs_invocation_class := Some InvocationClass.Terminal;
  cs_declared_recovery_policy := NeverReplay; cs_effective_recovery_policy := NeverReplay;
  cs_capability_revision := digest; cs_input_digest := digest |}.

Definition calling : list session_op := [
  OpBeginCall begin_call 13;
  OpAdvanceCall (advance 0 ToolPositions.Prepared ToolPositions.Authorized) 14;
  OpAdvanceCall (advance 1 ToolPositions.Authorized ToolPositions.EffectStarted) 15].

Definition classify (owner : string) (revision observed : Z) : ToolRecoveryWrite := {|
  tw_invocation_id := "0000-call"; tw_expected_revision := revision; tw_recovery_owner := owner;
  tw_observed_at := observed; tw_lease_expires_at := observed + 30;
  tw_classification := tool_recovery ToolPositions.EffectStarted NeverReplay |}.

(** The database when the model has answered, when the effect has started, and when
    recovery has handed the call to an operator. *)
Definition answered : tdb := session_run opened asking.
Definition started : tdb := session_run answered calling.
Definition waiting : tdb := session_exec started (OpClassifyTool (classify "runtime-a" 2 100)).

(** The moderator abandons the turn. *)
Definition abandon (id : string) : ExecutionRecoveryActionWrite := {|
  aw_action_id := id; aw_session_id := "s"; aw_turn_id := "t1"; aw_target := TargetTool "0000-call";
  aw_expected_ledger_revision := 3; aw_action := Actions.AbandonTurn; aw_resolved_by := "m";
  aw_rationale_digest := digest; aw_observed_at := 120; aw_lease_expires_at := 150 |}.

Definition abandoned : tdb := session_exec waiting (OpResolve (abandon "0000-action")).

(** While a turn of an instance runs, the schema admits no other. *)
Example second_turn_is_refused :
  begin_turn answered worker {|
    ts_session_id := "s"; ts_turn_id := "t2"; ts_agent_instance_id := "w1"; ts_config_revision := 0;
    ts_effective_config := settings; ts_user_content := "and now?"; ts_model_id := "model" |} 20
  = Err Store.
Proof. vm_compute. reflexivity. Qed.

Example waiting_rows :
  tn_state <$> session_turns waiting !! ("s", "t1") = Some TurnStates.Running ∧
  (λ r, (it_position r, it_response_message_id r)) <$> iterations waiting !! ("s", "t1", 1) =
    Some (ModelPositions.ResponsePersisted, Some 6) ∧
  (λ c, (tl_position c, tl_ledger_revision c, tl_operator_action_required c)) <$>
    tool_calls waiting !! ("s", "t1", "c1") = Some (ToolPositions.EffectStarted, 3, true) ∧
  content_json ∘ l_content <$> lines (sd waiting) !! ("s", 7) = Some "run make".
Proof. vm_compute. done. Qed.

Example abandoned_rows :
  tn_state <$> session_turns abandoned !! ("s", "t1") = Some TurnStates.Interrupted ∧
  (λ c, (tl_state c, tl_ledger_revision c)) <$> tool_calls abandoned !! ("s", "t1", "c1") =
    Some (CallStates.Abandoned, 4) ∧
  is_Some (recovery_actions abandoned !! "0000-action").
Proof. vm_compute. split; [done|]. split; [done|]. by eexists. Qed.
