(* ===== verification/InferenceSpec.v ===== *)
(** What the session store guarantees about the inferences of specialists inside a turn,
    over every interleaving of the operations of both ledgers with the operations of
    the session store.

    The sample is the turn of [TurnSample]: a critic that is asked and answers, and an
    image whose inference fails. *)

From S2P Require Import Prelude Instance Store Ledger ToolInvocation Inference.
From S2P Require Import WorkspaceStore InstanceStore StoreSystem SystemSample.
From S2P Require Import SessionTables TurnStore Inference InferenceStore.
From S2P Require Import TurnFacts InferenceRun TurnRun LedgerRun TurnSample.
From stdpp Require Import base tactics gmap strings list relations.
From Stdlib Require Import ZArith Lia.

#[local] Existing Instance sample_crates.
Local Open Scope Z_scope.

(** * The sample *)

Definition consulted : idb :=
  {| tables := session_run opened asking; cognitions := ∅; perceptions := ∅ |}.

Lemma consulted_ok : inference_ok consulted.
Proof.
  destruct (session_run_ok opened asking) as (? & ? & _); [apply opened_ok..|repeat split|].
  split; [done..| |]; split; try apply map_Forall_empty; intros k k' r r' Hr; exfalso; revert Hr;
    simpl; by rewrite lookup_empty.
Qed.

Definition critic (id : string) (budget : Z) : CognitionInvocationStart := {|
  ci_session_id := "s"; ci_turn_id := "t1"; ci_agent_instance_id := "w1"; ci_invocation_id := id;
  ci_role := Roles.Critic; ci_provider_id := "provider"; ci_model_id := "small";
  ci_recovery_policy := CognitionPolicies.RecoverFromReceipt; ci_capability_revision := digest;
  ci_input_digest := digest; ci_input_bytes := 12; ci_max_turn_calls := budget |}.

Definition artifact : string := "artifact:0000-a".

Definition ask_critic : CognitionAdvance := {|
  gv_invocation_id := "0000-critic"; gv_expected_revision := 1;
  gv_expected_position := CognitionPositions.PromptPersisted;
  gv_next_position := CognitionPositions.InferenceStarted |}.

Definition criticizing : list inference_op := [
  OpBeginCognition (critic "0000-critic" 1) 20;
  OpCognitionPrompt {| gp_invocation_id := "0000-critic"; gp_expected_revision := 0;
                       gp_artifact_locator := artifact |} 21;
  OpAdvanceCognition ask_critic 22].

Definition receiving : list inference_op := [
  OpCognitionReceipt {| gr_invocation_id := "0000-critic"; gr_expected_revision := 2;
                        gr_artifact_locator := artifact |} 23;
  OpCognitionOutput {| go_invocation_id := "0000-critic"; go_expected_revision := 3;
                       go_artifact_locator := artifact; go_output_digest := digest |} 24;
  OpCompleteCognition "0000-critic" 4 25].

Definition look : PerceptionInvocationStart := {|
  qi_session_id := "s"; qi_turn_id := "t1"; qi_agent_instance_id := "w1";
  qi_invocation_id := "0000-image"; qi_modality := Modalities.Image; qi_role := Roles.Vision;
  qi_provider_id := "provider"; qi_model_id := "eyes";
  qi_recovery_policy := PerceptionPolicies.NeverReplay; qi_capability_revision := digest;
  qi_input_digest := digest; qi_input_bytes := 4096 |}.

Definition looking : list inference_op := [
  OpBeginPerception look 30;
  OpPerceptionMedia {| qm_invocation_id := "0000-image"; qm_expected_revision := 0;
                       qm_artifact_locator := artifact |} 31;
  OpAdvancePerception {| qv_invocation_id := "0000-image"; qv_expected_revision := 1;
                         qv_expected_position := PerceptionPositions.MediaPersisted;
                         qv_next_position := PerceptionPositions.InferenceStarted |} 32;
  OpFailPerception {| qf_invocation_id := "0000-image"; qf_expected_revision := 2;
                      qf_failure_kind := PerceptionFailures.TimedOut |} 33].

Definition asked : idb := inference_run consulted criticizing.
Definition criticized : idb := inference_run asked receiving.

Lemma asked_ok : inference_ok asked.
Proof. apply inference_run_ok; [apply consulted_ok|repeat split]. Qed.

Lemma criticized_ok : inference_ok criticized.
Proof. apply inference_run_ok; [apply asked_ok|repeat split]. Qed.

Example criticized_rows :
  (λ r, (cg_position (snapshot r), cg_ledger_revision (snapshot r))) <$>
    cognitions criticized !! ("s", "t1", "0000-critic") =
    Some (CognitionPositions.ResultPersisted, 5) ∧
  (begin_cognition criticized (critic "0000-again" 1) 26) = Err Invalid ∧
  (λ r, (pg_position (snapshot r), pg_failure_kind (snapshot r))) <$>
    perceptions (inference_run criticized looking) !! ("s", "t1", "0000-image") =
    Some (PerceptionPositions.Failed, Some PerceptionFailures.TimedOut).
Proof. vm_compute. done. Qed.

(** * The ledgers *)

(** Whatever requests reach the session store in whatever order, both ledgers of
    inferences stay well formed: an invocation id names one row, a row belongs to a
    turn of its own instance, and its columns are those of its position: no receipt
    before the inference was started, no output without a receipt, an output with its
    digest, a failure only in a failed row and nothing received in it. *)
Theorem inference_run_invariant `{!Crates} `{!HashOrder} d ops
    (Hok : inference_ok d) (Hlegal : inference_legal_run d ops) :
  inference_ok (inference_run d ops).
Proof. by destruct (inference_run_ok d ops Hok Hlegal). Qed.

Lemma inference_run_invariant_witness :
  inference_ok (inference_run consulted (criticizing ++ receiving ++ looking)).
Proof. apply (inference_run_invariant consulted); [apply consulted_ok|repeat split]. Defined.

(** What a row keeps while it moves on. *)
Definition same_inference (c c' : cell) : Prop :=
  c_turn c' = c_turn c ∧ c_instance c' = c_instance c ∧ c_invocation c' = c_invocation c ∧
  c_route c' = c_route c ∧ c_numbers c' = c_numbers c.

Lemma row_step_same {A} `{!Invocation A} (r r' : recoverable A) :
  row_step r r' →
  let c := cell_of (snapshot r) in let c' := cell_of (snapshot r') in
  same_inference c c' ∧ (c_revision c ≤ c_revision c')%Z ∧ (c_stage c ≤ c_stage c')%nat ∧
  facts_grow (c_facts c) (c_facts c') ∧ (5 ≤ c_stage c → r' = r)%nat.
Proof.
  intros [->|(? & ? & ? & ? & ? & ? & ? & ? & ? & Hf)]; cbv zeta.
  - unfold same_inference, facts_grow. split_and!; first [done | lia | by right].
  - unfold same_inference. split_and!; first [done | lia | apply Hf].
Qed.

(** An inference keeps what it was approved with, whatever runs: role, provider,
    model, policy, capability revision and input of an invocation never change, its
    position does not go back, an artifact once recorded is not replaced, and a row
    that has ended keeps every column, those of recovery included. *)
Theorem inference_rows_only_grow `{!Crates} `{!HashOrder} d ops
    (Hok : inference_ok d) (Hlegal : inference_legal_run d ops) :
  let grown {A} `{!Invocation A} (r r' : recoverable A) :=
    let c := cell_of (snapshot r) in let c' := cell_of (snapshot r') in
    same_inference c c' ∧ (c_revision c ≤ c_revision c')%Z ∧ (c_stage c ≤ c_stage c')%nat ∧
    facts_grow (c_facts c) (c_facts c') ∧ (5 ≤ c_stage c → r' = r)%nat in
  (∀ k r, cognitions d !! k = Some r →
     ∃ r', cognitions (inference_run d ops) !! k = Some r' ∧ grown r r') ∧
  (∀ k r, perceptions d !! k = Some r →
     ∃ r', perceptions (inference_run d ops) !! k = Some r' ∧ grown r r').
Proof.
  destruct (inference_run_ok d ops Hok Hlegal) as [_ [_ Hc Hp]]. split; intros k r Hk.
  - destruct (Hc k r Hk) as (r' & ? & ?%row_step_same). by exists r'.
  - destruct (Hp k r Hk) as (r' & ? & ?%row_step_same). by exists r'.
Qed.

Lemma inference_rows_only_grow_witness :
  cognitions (inference_run criticized (receiving ++ looking)) !! ("s", "t1", "0000-critic") =
  cognitions criticized !! ("s", "t1", "0000-critic").
Proof.
  destruct (inference_rows_only_grow criticized (receiving ++ looking)) as [Hc _];
    [apply criticized_ok|repeat split|].
  destruct (cognitions criticized !! ("s", "t1", "0000-critic")) as [r|] eqn:Hr;
    [|pose proof criticized_rows as [Hrow _]; rewrite Hr in Hrow; discriminate Hrow].
  destruct (Hc _ _ Hr) as (r' & Hr' & _ & _ & _ & _ & Hend). rewrite Hr', Hend; [reflexivity|].
  pose proof criticized_rows as [Hrow _]. rewrite Hr in Hrow. injection Hrow as Hpos _.
  unfold cell_of, cognition_view. simpl. rewrite Hpos. exact (le_n 5).
Defined.

(** The specialists of a turn are called at most as often as its budget allows: as
    long as each request for the instance in the turn carries a budget of at most [b],
    the ledger never holds more than [b] of its calls, whatever else runs between. *)
Theorem cognition_budget_holds `{!Crates} `{!HashOrder} d ops key i b
    (Hok : inference_ok d) (Hlegal : inference_legal_run d ops)
    (Hbudget : Forall (within key i b) ops) (Hle : calls_of (cognitions d) key i ≤ b) :
  calls_of (cognitions (inference_run d ops)) key i ≤ b.
Proof.
  revert d Hok Hlegal Hle. induction Hbudget as [|op ops Hop _ IH]; intros d Hok; [done|].
  intros [Hl Hls] Hle. apply IH; [by apply inference_exec_ok|done|by apply exec_calls].
Qed.

Lemma cognition_budget_holds_witness :
  calls_of (cognitions (inference_run consulted
    (criticizing ++ [OpBeginCognition (critic "0000-again" 1) 26] ++ receiving))) ("s", "t1") "w1" ≤ 1.
Proof.
  apply (cognition_budget_holds consulted); [apply consulted_ok|repeat split| |discriminate].
  repeat (apply Forall_cons; split; [first [exact I | intros _ _; exact (Z.le_refl 1)]|]).
  apply Forall_nil. exact I.
Defined.

(** ** Revisions *)

Section revisions.
Context `{Hcrates : Crates} `{Hhash : !HashOrder} {A : Type} `{!Invocation A}.

(** A revision that a request has spent is behind its row for good. *)
Lemma row_changed_spent d d2 m m1 m2 m3 id e :
  table_ok d m → row_changed m id e m1 → rows_step row_step m1 m2 → table_ok d2 m2 →
  ¬ row_changed m2 id e m3.
Proof using.
  intros Hok (k & r & r' & Hf & -> & He & He' & Hm & _) Hs Hok2 (k2 & r2 & r3 & Hf2 & _ & He2 & _).
  apply find_row_some in Hf as [Hk Hid].
  destruct (Hs k r') as (r4 & Hk4 & H4); [by rewrite lookup_insert_eq|].
  assert (c_invocation (cell_of (snapshot r4)) = id) as Hid4.
  { rewrite <- Hid. destruct Hm as (_ & _ & Hn & _). rewrite <- Hn. by destruct H4 as [->|(_ & _ & ? & _)]. }
  pose proof (find_row_unique _ _ _ _ Hok2 Hk4) as Hf4. rewrite Hid4, Hf2 in Hf4.
  injection Hf4 as -> ->. destruct H4 as [->|(_ & _ & _ & _ & _ & _ & _ & _ & ? & _)]; lia.
Qed.
End revisions.

(** The requests of one ledger that expect the same revision of the same invocation. *)
Definition contend (a b : inference_op) : Prop :=
  (cognition_request a ≠ None ∧ cognition_request a = cognition_request b) ∨
  (perception_request a ≠ None ∧ perception_request a = perception_request b).

(** C18: The boundary of an inference is crossed once: of all requests that expect the
    same revision of an invocation (to start it, to record its receipt, its output or
    its failure, or to recover it), at most one succeeds: after it none does, whatever
    runs in between, as long as the operations of the stores below delete no message. *)
Theorem inference_revision_is_spent_once `{!Crates} `{!HashOrder} d a n d1 ops b
    (Hok : inference_ok d) (Ha : inference_answer d a = Ok (n, d1))
    (Hlegal : inference_legal_run d1 ops) (Hc : contend a b) :
  ∀ out, inference_answer (inference_run d1 ops) b ≠ Ok out.
Proof.
  intros [n2 d3] Hb. pose proof (inference_exec_ok d a Hok) as He. unfold inference_exec in He.
  rewrite Ha in He. simpl in He. destruct He as [Hok1 _]; [by destruct a; destruct Hc as [[]|[]]|].
  destruct (inference_run_ok d1 ops Hok1 Hlegal) as [Hok2 [_ Hsc Hsp]].
  apply request_answered_ok in Ha; [|done]. apply request_answered_ok in Hb; [|done].
  destruct Hc as [[Hn He]|[Hn He]].
  - destruct Ha as [| | |a id e Hr _ (m & -> & Hm)|a id e _ Hr _]; simpl in *; try congruence.
    destruct Hb as [| | |b id' e' Hr' _ (m' & _ & Hm')|b id' e' _ Hr' _]; simpl in *; try congruence.
    rewrite Hr, Hr' in He. injection He as <- <-. simpl in Hsc.
    exact (row_changed_spent _ _ _ _ _ _ _ _ (io_cognitions _ Hok) Hm Hsc (io_cognitions _ Hok2) Hm').
  - destruct Ha as [| | |a id e _ Hr _|a id e Hr _ (m & -> & Hm)]; simpl in *; try congruence.
    destruct Hb as [| | |b id' e' _ Hr' _|b id' e' Hr' _ (m' & _ & Hm')]; simpl in *; try congruence.
    rewrite Hr, Hr' in He. injection He as <- <-. simpl in Hsp.
    exact (row_changed_spent _ _ _ _ _ _ _ _ (io_perceptions _ Hok) Hm Hsp (io_perceptions _ Hok2) Hm').
Qed.

Definition unasked : idb := inference_run consulted (take 2 criticizing).

Lemma unasked_ok : inference_ok unasked.
Proof. apply inference_run_ok; [apply consulted_ok|repeat split]. Qed.

Lemma inference_revision_is_spent_once_witness :
  match inference_answer criticized (OpAdvanceCognition ask_critic 40) with
  | Ok _ => False
  | _ => True
  end.
Proof.
  destruct (inference_answer criticized (OpAdvanceCognition ask_critic 40)) as [out| | |] eqn:Hout;
    [|exact I..].
  apply (inference_revision_is_spent_once unasked (OpAdvanceCognition ask_critic 22) (Some 2) asked
    receiving (OpAdvanceCognition ask_critic 40)) with out;
    [apply unasked_ok|vm_compute; reflexivity|repeat split| |exact Hout].
  left. split; [discriminate|reflexivity].
Defined.
