(* ===== verification/WorkspaceJournal.v ===== *)
(** The workspace journal: src/sylvander-runtime/src/storage/workspace_journal.rs, with
    the token of src/sylvander-agent/src/execution/mutation_journal.rs.

    The journal writes files, so the model has a file system: contents by path, the
    directories, and a number of changes after which the process dies ([left]). A
    write is the creation of a temporary file, which a death leaves torn, and a
    rename. What the changes before a death wrote is durable, in their order.

    The JSON of a manifest and of a marker is a parameter ([Serde]), and so are the
    symbolic links, the order in which a directory lists, the uuids that are drawn,
    and what a torn write leaves ([Os]). *)

From S2P Require Import Prelude Effects.
From stdpp Require Import base tactics gmap strings list sorting.
From Stdlib Require Import ZArith Ascii.

(** * Files *)

Notation path := (list string) (only parsing).

Record disk := {
  files : gmap path string;
  dirs : gset path;
  drawn : nat;
  left : option nat;
}.

Inductive JournalError :=
  | LimitExceeded | NotRegular | Escapes | SymbolicLink | NotAwaitingCommit | WorkspaceChanged
  | NothingReversible | StaleConfirmation | Conflict | BadToken | Io | Malformed | Crashed.

#[global] Instance JournalError_eq_dec : EqDecision JournalError.
Proof. solve_decision. Defined.

Class Os := {
  is_symlink : path → bool;
  listing : gset path → list path;
  listing_perm s : listing s ≡ₚ elements s;
  uuid : nat → string;
  torn : nat;
}.

Notation io A := (eff disk JournalError A).

Definition set_files (d : disk) x : disk :=
  {| files := x; dirs := dirs d; drawn := drawn d; left := left d |}.
Definition set_dirs (d : disk) x : disk :=
  {| files := files d; dirs := x; drawn := drawn d; left := left d |}.

Definition parent (p : path) : path := take (length p - 1) p.

(** The directories above a path, the path itself included. *)
Definition ancestors (p : path) : list path := (λ n, take n p) <$> seq 0 (S (length p)).

(** A file is in the way of a directory. *)
Definition blocked (d : disk) (p : path) : bool :=
  existsb (λ q, match files d !! q with Some _ => true | None => false end) (ancestors p).

(** A change of the file system, unless the process has died. *)
Definition change (f : disk → disk) : io unit := λ d,
  match left d with
  | Some O => (d, Err Crashed)
  | Some (S n) =>
      let d := f d in
      ({| files := files d; dirs := dirs d; drawn := drawn d; left := Some n |}, Ok tt)
  | None => (f d, Ok tt)
  end.

Section journal.
Context `{Os}.

Definition draw : io string := λ d,
  ({| files := files d; dirs := dirs d; drawn := S (drawn d); left := left d |}, Ok (uuid (drawn d))).

Definition read_file (d : disk) (p : path) : res string JournalError := ok_or (files d !! p) Io.

Definition read (p : path) : io string := λ d, (d, read_file d p).

Definition create_dir_all (p : path) : io unit := λ d,
  if blocked d p then (d, Err Io)
  else change (λ d, set_dirs d (dirs d ∪ list_to_set (ancestors p))) d.

(** [fs::write]: a new file, which a death can leave with a part of its content. *)
Definition write_new (p : path) (bytes : string) : io unit :=
  perform change (λ d, set_files d (<[p := String.substring 0 torn bytes]> (files d)));;
  change (λ d, set_files d (<[p := bytes]> (files d))).

Definition rename (p q : path) : io unit := λ d,
  if bool_decide (q ∈ dirs d) then (d, Err Io)
  else change (λ d, set_files d (match files d !! p with
                                 | Some bytes => <[q := bytes]> (delete p (files d))
                                 | None => files d
                                 end)) d.

Definition temp_name (id : string) : string := ".sylvander-" +:+ id +:+ ".tmp".

(** [write_file_atomic] *)
Definition write_file_atomic (p : path) (bytes : string) : io unit :=
  perform eres (bail bool_decide (p = []) with Io;; Ok tt);;
  perform create_dir_all (parent p);;
  id <~ draw;;
  let temp := parent p ++ [temp_name id] in
  perform write_new temp bytes;;
  rename temp p.

(** [fs::remove_file] of [restore_before], where a missing file is no error *)
Definition remove_file (p : path) : io unit := λ d,
  match files d !! p with
  | Some _ => change (λ d, set_files d (delete p (files d))) d
  | None => if bool_decide (p ∈ dirs d) || blocked d p then (d, Err Io) else (d, Ok tt)
  end.

(** * Paths *)

Fixpoint split_path (s : string) : list string :=
  match s with
  | EmptyString => [""]
  | String c s =>
      if (c == "/"%char) then "" :: split_path s
      else match split_path s with
           | part :: parts => String c part :: parts
           | [] => [String c ""]
           end
  end.

(** [Path::components] of a relative path: empty and current components vanish. *)
Definition components (s : string) : list string :=
  filter (λ part, part ≠ "" ∧ part ≠ ".") (split_path s).

(** [WorkspaceJournal::resolve] *)
Definition resolve (root : path) (relative : string) : res path JournalError :=
  bail String.prefix "/" relative || (relative == "") with Escapes;;
  bail bool_decide (".." ∈ components relative) with Escapes;;
  bail existsb (λ n, is_symlink (root ++ take n (components relative)))
         (seq 1 (length (components relative))) with SymbolicLink;;
  Ok (root ++ components relative).

(** [session_id.replace(['/', '\\'], "_")] *)
Fixpoint safe_name (s : string) : string :=
  match s with
  | EmptyString => EmptyString
  | String c s =>
      String (if (c == "/"%char) || (c == "\"%char) then "_"%char else c) (safe_name s)
  end.

(** * Manifests *)

Inductive MutationState := Prepared | Applied | RolledBack | Abandoned.

#[global] Instance MutationState_eq_dec : EqDecision MutationState.
Proof using. solve_decision. Defined.

Inductive WorkspaceMutationRecovery := Committed | NotCommitted | WasRolledBack | Unknown.

Record Manifest := {
  mf_id : string;
  mf_sequence : Z;
  mf_session_id : string;
  mf_turn_id : string;
  mf_call_id : string;
  mf_workspace : path;
  mf_relative_path : string;
  mf_before_blob : option path;
  mf_after_blob : path;
  mf_state : MutationState;
}.

Class Serde := {
  encode_manifest : Manifest → string;
  decode_manifest : string → option Manifest;
  encode_marker : list path → string;
  decode_marker : string → option (list path);
}.

Definition with_state (m : Manifest) (s : MutationState) : Manifest := {|
  mf_id := mf_id m; mf_sequence := mf_sequence m; mf_session_id := mf_session_id m;
  mf_turn_id := mf_turn_id m; mf_call_id := mf_call_id m; mf_workspace := mf_workspace m;
  mf_relative_path := mf_relative_path m; mf_before_blob := mf_before_blob m;
  mf_after_blob := mf_after_blob m; mf_state := s |}.

(** * The journal of a directory *)

Section operations.
Context `{Serde} (base : path).

Definition session_dir (session : string) : path := base ++ [safe_name session].
Definition entries_dir (session : string) : path := session_dir session ++ ["entries"].
Definition blobs_dir (session : string) : path := session_dir session ++ ["blobs"].
Definition marker_path (session : string) : path := session_dir session ++ ["rollback.json"].

(** [read_manifest] *)
Definition read_manifest (d : disk) (p : path) : res Manifest JournalError :=
  bytes <- read_file d p;; ok_or (decode_manifest bytes) Malformed.

(** [fs::read_dir] *)
Definition read_dir (d : disk) (p : path) : res (list path) JournalError :=
  bail negb (bool_decide (p ∈ dirs d)) with Io;;
  Ok (listing (filter (λ q, q ≠ [] ∧ parent q = p) (dom (files d) ∪ dirs d))).

(** [next_sequence] *)
Definition next_sequence (d : disk) (entries : path) : res Z JournalError :=
  found <- read_dir d entries;;
  max <- foldr (λ p rest, rest <- rest;; m <- read_manifest d p;;
                 Ok (Z.max rest (mf_sequence m))) (Ok 0%Z) found;;
  if (max =? u64_max)%Z then Panic else Ok (max + 1)%Z.

(** [WorkspaceJournal::restore_before] *)
Definition restore_before (m : Manifest) : io unit :=
  target <~ eres (resolve (mf_workspace m) (mf_relative_path m));;
  match mf_before_blob m with
  | Some blob =>
      bytes <~ read blob;;
      write_file_atomic target bytes
  | None => remove_file target
  end.

(** The files as a reversal would leave them. *)
Notation overlay := (gmap path (option string)) (only parsing).

Definition seen (d : disk) (v : overlay) (p : path) : option string :=
  match v !! p with Some c => c | None => files d !! p end.

(** The content that a manifest restores. *)
Definition before_content (d : disk) (m : Manifest) : res (option string) JournalError :=
  match mf_before_blob m with
  | Some p => bytes <- read_file d p;; Ok (Some bytes)
  | None => Ok None
  end.

(** One step of [preflight_reverse], whose loop goes from the last manifest to the
    first. *)
Definition preflight_one (d : disk) (allow_already_restored : bool) (m : Manifest) (v : overlay) :
    res overlay JournalError :=
  target <- resolve (mf_workspace m) (mf_relative_path m);;
  let current := seen d v target in
  after <- read_file d (mf_after_blob m);;
  before <- before_content d m;;
  if current == Some after then Ok (<[target := before]> v)
  else if allow_already_restored && (current == before) then Ok (<[target := current]> v)
  else Err Conflict.

(** [preflight_reverse] *)
Fixpoint preflight (d : disk) (allow : bool) (reversed : list Manifest) (v : overlay) :
    res overlay JournalError :=
  match reversed with
  | [] => Ok v
  | m :: ms => v <- preflight_one d allow m v;; preflight d allow ms v
  end.

Definition preflight_reverse (d : disk) (manifests : list (path * Manifest)) (allow : bool) :
    res unit JournalError :=
  _ <- preflight d allow (reverse manifests.*2) ∅;; Ok tt.

Definition write_manifest (p : path) (m : Manifest) : io unit :=
  write_file_atomic p (encode_manifest m).

Definition get : io disk := eget.

(** [fs::remove_file] of the marker *)
Definition remove_marker (session : string) : io unit := λ d,
  match files d !! marker_path session with
  | Some _ => change (λ d, set_files d (delete (marker_path session) (files d))) d
  | None => (d, Err Io)
  end.

(** The restoration that a marker stands for. *)
Definition restore_all (session : string) (manifests : list (path * Manifest)) : io unit :=
  perform efor (reverse manifests) (λ pm, restore_before pm.2);;
  perform efor manifests (λ pm, write_manifest pm.1 (with_state pm.2 RolledBack));;
  remove_marker session.

(** Reading the manifests that a marker names. *)
Fixpoint read_manifests (d : disk) (ps : list path) : res (list (path * Manifest)) JournalError :=
  match ps with
  | [] => Ok []
  | p :: ps => m <- read_manifest d p;; ms <- read_manifests d ps;; Ok ((p, m) :: ms)
  end.

(** [recover_locked] *)
Definition recover_locked (session : string) : io unit :=
  d <~ get;;
  match files d !! marker_path session with
  | None => eret tt
  | Some bytes =>
      ps <~ eres (ok_or (decode_marker bytes) Malformed);;
      manifests <~ eres (read_manifests d ps);;
      perform eres (preflight_reverse d manifests true);;
      restore_all session manifests
  end.

(** [active_manifests] for one entry: a prepared mutation is settled by what the file
    holds. *)
Definition settle (p : path) : io (path * Manifest) :=
  d <~ get;;
  m <~ eres (read_manifest d p);;
  if mf_state m == Prepared then
    target <~ eres (resolve (mf_workspace m) (mf_relative_path m));;
    after <~ read (mf_after_blob m);;
    let m := with_state m (if files d !! target == Some after then Applied else Abandoned) in
    perform write_manifest p m;;
    eret (p, m)
  else eret (p, m).

Fixpoint settle_all (ps : list path) : io (list (path * Manifest)) :=
  match ps with
  | [] => eret []
  | p :: ps =>
      pm <~ settle p;;
      pms <~ settle_all ps;;
      eret (if mf_state pm.2 == Applied then pm :: pms else pms)
  end.

(** [active_manifests] *)
Definition active_manifests (session : string) : io (list (path * Manifest)) :=
  d <~ get;;
  match read_dir d (entries_dir session) with
  | Ok found =>
      pms <~ settle_all found;;
      eret (stable_sort (λ a b, (mf_sequence a.2 <=? mf_sequence b.2)%Z) pms)
  | _ => eret []
  end.

(** [mutation_token] : [PreparedMutation::from_runtime_token] of the path as text *)
Definition path_text (p : path) : string := foldr (λ part s, "/" +:+ part +:+ s) "" p.

(** [char::is_control] on the characters of one byte *)
Definition is_control (c : ascii) : bool := (nat_of_ascii c <? 32)%nat || (nat_of_ascii c =? 127)%nat.

Fixpoint has_control (s : string) : bool :=
  match s with EmptyString => false | String c s => is_control c || has_control s end.

Definition token_ok (s : string) : bool :=
  negb (s == "") && (String.length s <=? N.to_nat 4096)%nat && negb (has_control s).

Definition too_long (s : string) : bool := (8388608 <? Z.of_nat (String.length s))%Z.

(** What [prepare_mutation] finds at the target. *)
Definition before_image (d : disk) (target : path) : res (option string) JournalError :=
  match files d !! target with
  | Some bytes => bail too_long bytes with LimitExceeded;; Ok (Some bytes)
  | None =>
      bail bool_decide (target ∈ dirs d) with NotRegular;;
      bail blocked d (parent target) with Io;;
      Ok None
  end.

(** [prepare_mutation]; the token is the path of the manifest. *)
Definition prepare_mutation (session turn call : string) (workspace : path) (relative after : string) :
    io path :=
  perform eres (bail too_long after with LimitExceeded;; Ok tt);;
  perform recover_locked session;;
  target <~ eres (resolve workspace relative);;
  d <~ get;;
  before <~ eres (before_image d target);;
  let entries := entries_dir session in
  let blobs := blobs_dir session in
  perform create_dir_all entries;;
  perform create_dir_all blobs;;
  id <~ draw;;
  before_blob <~ match before with
                 | Some bytes =>
                     let p := blobs ++ [id +:+ ".before"] in
                     perform write_file_atomic p bytes;; eret (Some p)
                 | None => eret None
                 end;;
  let after_blob := blobs ++ [id +:+ ".after"] in
  perform write_file_atomic after_blob after;;
  let manifest_path := entries ++ [id +:+ ".json"] in
  d <~ get;;
  sequence <~ eres (next_sequence d entries);;
  perform write_manifest manifest_path {|
    mf_id := id; mf_sequence := sequence; mf_session_id := session; mf_turn_id := turn;
    mf_call_id := call; mf_workspace := workspace; mf_relative_path := relative;
    mf_before_blob := before_blob; mf_after_blob := after_blob; mf_state := Prepared |};;
  perform eres (bail negb (token_ok (path_text manifest_path)) with BadToken;; Ok tt);;
  eret manifest_path.

(** [commit_mutation] *)
Definition commit_mutation (manifest_path : path) : io unit :=
  d <~ get;;
  m <~ eres (read_manifest d manifest_path);;
  perform eres (bail mf_state m != Prepared with NotAwaitingCommit;; Ok tt);;
  target <~ eres (resolve (mf_workspace m) (mf_relative_path m));;
  current <~ read target;;
  expected <~ read (mf_after_blob m);;
  perform eres (bail current != expected with WorkspaceChanged;; Ok tt);;
  write_manifest manifest_path (with_state m Applied).

(** The tool [Write] (src/sylvander-agent/src/tool/builtins/write.rs) with a journal:
    prepare, write by the executor, commit. A write that fails ends it, and its
    mutation stays prepared. *)
Definition journaled_write (write : path → string → io unit)
    (session turn call : string) (workspace : path) (relative content : string) : io unit :=
  token <~ prepare_mutation session turn call workspace relative content;;
  target <~ eres (resolve workspace relative);;
  perform write target content;;
  commit_mutation token.

(** The mutations of the turn that mutated last. *)
Definition latest_turn (manifests : list (path * Manifest)) :
    res (string * list (path * Manifest)) JournalError :=
  pm <- ok_or (last manifests) NothingReversible;;
  let turn := mf_turn_id pm.2 in
  Ok (turn, filter (λ pm, mf_turn_id pm.2 = turn) manifests).

Fixpoint dedup (l : list string) : list string :=
  match l with
  | [] => []
  | x :: rest => if head rest == Some x then dedup rest else x :: dedup rest
  end.

(** [preview_latest_turn] *)
Definition preview_latest_turn (session : string) : io (string * list string) :=
  perform recover_locked session;;
  active <~ active_manifests session;;
  latest <~ eres (latest_turn active);;
  d <~ get;;
  perform eres (preflight_reverse d latest.2 false);;
  eret (latest.1, dedup (stable_sort string_le ((λ pm, mf_relative_path pm.2) <$> latest.2))).

(** [rollback_latest_turn] *)
Definition rollback_latest_turn (session expected_turn_id : string) : io (string * list string) :=
  perform recover_locked session;;
  active <~ active_manifests session;;
  latest <~ eres (latest_turn active);;
  perform eres (bail latest.1 != expected_turn_id with StaleConfirmation;; Ok tt);;
  d <~ get;;
  perform eres (preflight_reverse d latest.2 false);;
  perform write_file_atomic (marker_path session) (encode_marker latest.2.*1);;
  perform restore_all session latest.2;;
  eret (latest.1, (λ pm, mf_relative_path pm.2) <$> latest.2).

(** [reconcile_manifest] *)
Definition reconcile_manifest (d : disk) (m : Manifest) : WorkspaceMutationRecovery :=
  match resolve (mf_workspace m) (mf_relative_path m), files d !! mf_after_blob m with
  | Ok target, Some after =>
      let current := files d !! target in
      let reconciled before :=
        if ((mf_state m == Applied) || (mf_state m == Prepared)) && (current == Some after)
        then Committed
        else if ((mf_state m == Prepared) || (mf_state m == Abandoned)) && (current == before)
        then NotCommitted
        else if (mf_state m == RolledBack) && (current == before) then WasRolledBack
        else Unknown in
      match mf_before_blob m with
      | Some p => match files d !! p with
                  | Some bytes => reconciled (Some bytes)
                  | None => Unknown
                  end
      | None => reconciled None
      end
  | _, _ => Unknown
  end.

(** [reconcile_tool_call] *)
Definition reconcile_tool_call (d : disk) (session turn call : string) : WorkspaceMutationRecovery :=
  match read_dir d (entries_dir session) with
  | Ok found =>
      let matching := filter (λ m, mf_session_id m = session ∧ mf_turn_id m = turn ∧ mf_call_id m = call)
        (omap (λ p, match read_manifest d p with Ok m => Some m | _ => None end) found) in
      match matching with
      | [m] => reconcile_manifest d m
      | _ => Unknown
      end
  | _ => Unknown
  end.
End operations.
End journal.
