(* ===== verification/JournalFacts.v ===== *)
(** The file system under the workspace journal: what its operations change when the
    process lives, and what they leave when it dies. *)

From S2P Require Import Prelude Effects WorkspaceJournal.
From stdpp Require Import base tactics gmap strings list sorting.
From Stdlib Require Import ZArith Ascii Lia.

(** * Paths *)

#[global] Arguments ancestors : simpl never.

Lemma elem_of_ancestors p q : q ∈ ancestors p ↔ ∃ r, p = q ++ r.
Proof.
  unfold ancestors. rewrite list_elem_of_fmap. split.
  - intros (n & -> & _). exists (drop n p). by rewrite take_drop.
  - intros [r ->]. exists (length q). rewrite take_app_length. split; [done|].
    rewrite elem_of_seq, length_app. lia.
Qed.

Lemma ancestors_refl p : p ∈ ancestors p.
Proof. apply elem_of_ancestors. exists []. by rewrite app_nil_r. Qed.

Lemma parent_snoc p x : parent (p ++ [x]) = p.
Proof. unfold parent. rewrite length_app. simpl. by rewrite Nat.add_sub, take_app_length. Qed.

Lemma snoc_parent p : p ≠ [] → ∃ x, p = parent p ++ [x].
Proof.
  intros Hp. destruct (exists_last Hp) as (l & x & ->). exists x. by rewrite parent_snoc.
Qed.

(** A path strictly above another. *)
Definition above (q p : path) : Prop := ∃ x r, p = q ++ x :: r.

Lemma ancestors_parent p q : p ≠ [] → q ∈ ancestors (parent p) ↔ above q p.
Proof.
  intros Hp. rewrite elem_of_ancestors. destruct (snoc_parent p Hp) as [x He]. split.
  - intros [r Hr]. rewrite He, Hr, <- app_assoc. destruct r as [|y r]; simpl.
    + by exists x, [].
    + by exists y, (r ++ [x]).
  - intros (y & r & Hr). destruct (exists_last (l := y :: r)) as (l & z & Hl); [done|].
    rewrite Hr, Hl, app_assoc, parent_snoc. by exists l.
Qed.

Lemma above_not_self p : ¬ above p p.
Proof. intros (x & r & H). apply (f_equal length) in H. rewrite length_app in H. simpl in H. lia. Qed.

Lemma blocked_false d p :
  blocked d p = false ↔ ∀ q, q ∈ ancestors p → files d !! q = None.
Proof.
  unfold blocked. rewrite existsb_false_elem. split; intros H q Hq; specialize (H q Hq);
    destruct (files d !! q); done.
Qed.

(** * Well-formed disks *)

(** A file has its directories, and is none. *)
Record tree_ok (d : disk) : Prop := {
  to_dirs : ∀ p c q, files d !! p = Some c → above q p → q ∈ dirs d;
  to_files : ∀ p, p ∈ dirs d → files d !! p = None;
}.

Lemma tree_unblocked d p c : tree_ok d → files d !! p = Some c → p ≠ [] → blocked d (parent p) = false.
Proof.
  intros [Hd Hf] Hp Hne. apply blocked_false. intros q Hq. apply ancestors_parent in Hq; [|done].
  apply Hf. by eapply Hd.
Qed.

(** ** Names *)

Fixpoint last_char (s : string) : option ascii :=
  match s with
  | EmptyString => None
  | String c EmptyString => Some c
  | String _ s => last_char s
  end.

Lemma last_char_app s t : t ≠ "" → last_char (s +:+ t) = last_char t.
Proof.
  intros Ht. induction s as [|c s IH]; [done|]. simpl. rewrite IH.
  destruct (s +:+ t) eqn:He; [|done]. destruct s; [by simpl in He|done].
Qed.

Lemma length_append s t : String.length (s +:+ t) = String.length s + String.length t.
Proof. induction s as [|c s IH]; [done|]. simpl. by rewrite IH. Qed.

Lemma append_cancel_r s s' t : s +:+ t = s' +:+ t → s = s'.
Proof.
  revert s'. induction s as [|c s IH]; intros [|c' s'] H; [done| | |].
  - apply (f_equal String.length) in H. rewrite !length_append in H. simpl in H. lia.
  - apply (f_equal String.length) in H. rewrite !length_append in H. simpl in H. lia.
  - injection H as -> H. by rewrite (IH _ H).
Qed.

(** The names that a drawn uuid can give to a file. *)
Inductive name_kind := TempName | BeforeName | AfterName | JsonName.

Section names.
Context `{HOs : Os}.

Definition name (n : nat) (k : name_kind) : string :=
  match k with
  | TempName => temp_name (uuid n)
  | BeforeName => uuid n +:+ ".before"
  | AfterName => uuid n +:+ ".after"
  | JsonName => uuid n +:+ ".json"
  end.

Lemma name_last n k : last_char (name n k) =
  Some match k with TempName => "p" | BeforeName => "e" | AfterName => "r" | JsonName => "n" end%char.
Proof using.
  destruct k; cbn [name]; unfold temp_name; rewrite !last_char_app; try done; by destruct (uuid n).
Qed.

Lemma name_inj `{!Inj (=) (=) uuid} n k n' k' : name n k = name n' k' → n = n' ∧ k = k'.
Proof using.
  intros He. pose proof (f_equal last_char He) as Hl. rewrite !name_last in Hl.
  assert (k = k') as <- by by destruct k, k'. split; [|done]. apply (inj uuid).
  destruct k; simpl in He; [|by eapply append_cancel_r..].
  unfold temp_name in He. simpl in He. injection He as He. by eapply append_cancel_r.
Qed.

(** No name of a uuid that is drawn from [n] on. *)
Definition clean (n : nat) (p : path) : Prop := ∀ n' k, n ≤ n' → name n' k ∉ p.

Lemma clean_app n p q : clean n (p ++ q) ↔ clean n p ∧ clean n q.
Proof using. unfold clean. setoid_rewrite elem_of_app. naive_solver. Qed.

Lemma clean_le n n' p : n ≤ n' → clean n p → clean n' p.
Proof using. intros Hn Hc m k Hm. apply Hc. lia. Qed.

Lemma clean_name `{!Inj (=) (=) uuid} n n' k : n < n' → clean n' [name n k].
Proof using.
  intros Hn m k' Hm Hin%list_elem_of_singleton. apply name_inj in Hin as [? _]. lia.
Qed.

(** The names of the uuids to come are nowhere on the disk. *)
Definition unused (d : disk) : Prop :=
  ∀ p, is_Some (files d !! p) ∨ p ∈ dirs d → clean (drawn d) p.

Definition temp_of (d : disk) (p : path) : path := parent p ++ [temp_name (uuid (drawn d))].

Lemma temp_absent d p : unused d → files d !! temp_of d p = None ∧ temp_of d p ∉ dirs d.
Proof using.
  intros Hu. assert (name (drawn d) TempName ∈ temp_of d p) as Hin
    by (apply elem_of_app; right; by left).
  split.
  - destruct (files d !! temp_of d p) eqn:Hf; [|done].
    destruct (Hu (temp_of d p) ltac:(left; by rewrite Hf) (drawn d) TempName); done.
  - intros Hd. by destruct (Hu (temp_of d p) (or_intror Hd) (drawn d) TempName).
Qed.

(** The disk after a file is written. *)
Definition written (d : disk) (p : path) (bytes : string) : disk := {|
  files := <[p := bytes]> (files d); dirs := dirs d ∪ list_to_set (ancestors (parent p));
  drawn := S (drawn d); left := left d |}.

Lemma written_file d p bytes q :
  files (written d p bytes) !! q = if decide (p = q) then Some bytes else files d !! q.
Proof using. apply lookup_insert. Qed.

Lemma written_dir d p bytes q :
  q ∈ dirs (written d p bytes) ↔ q ∈ dirs d ∨ q ∈ ancestors (parent p).
Proof using. unfold written. cbn [dirs]. by rewrite elem_of_union, elem_of_list_to_set. Qed.

Lemma not_in_own_parent p : p ≠ [] → p ∉ ancestors (parent p).
Proof using. intros Hp Hin. by apply ancestors_parent, above_not_self in Hin. Qed.

Lemma mkdir_alive d p : left d = None →
  create_dir_all p d = if blocked d p then (d, Err Io)
                       else (set_dirs d (dirs d ∪ list_to_set (ancestors p)), Ok tt).
Proof using. intros Hl. unfold create_dir_all, change. by rewrite Hl. Qed.

Lemma write_new_alive d p bytes : left d = None →
  write_new p bytes d = (set_files d (<[p := bytes]> (files d)), Ok tt).
Proof using.
  intros Hl. unfold write_new, ebind, change. rewrite Hl. simpl. rewrite Hl.
  unfold set_files. simpl. by rewrite insert_insert_eq.
Qed.

Lemma rename_alive d p q bytes : left d = None → files d !! p = Some bytes →
  rename p q d = if bool_decide (q ∈ dirs d) then (d, Err Io)
                 else (set_files d (<[q := bytes]> (delete p (files d))), Ok tt).
Proof using. intros Hl Hp. unfold rename, change. rewrite Hl, Hp. done. Qed.

(** A write succeeds exactly where the parent can be a directory and the file can be. *)
Lemma write_file_alive d p bytes :
  left d = None → unused d → clean (drawn d) p → p ≠ [] → blocked d (parent p) = false → p ∉ dirs d →
  write_file_atomic p bytes d = (written d p bytes, Ok tt).
Proof using.
  intros Hl Hu Hc Hp Hb Hd. destruct (temp_absent d p Hu) as [Hf _].
  assert (p ≠ temp_of d p) as Hne.
  { intros He. apply (Hc (drawn d) TempName); [done|]. rewrite He. apply elem_of_app. right. by left. }
  unfold write_file_atomic. unfold ebind at 1. rewrite bool_decide_eq_false_2 by done. simpl.
  unfold ebind at 1. rewrite mkdir_alive, Hb by done. unfold ebind at 1, draw.
  unfold ebind. rewrite write_new_alive by done. cbn [files dirs drawn left set_files set_dirs]. fold (temp_of d p).
  erewrite rename_alive; [|done|by apply lookup_insert_eq].
  rewrite bool_decide_eq_false_2.
  - unfold written, set_files. cbn [files dirs drawn left set_files set_dirs]. rewrite delete_insert_id by done. done.
  - cbn [files dirs drawn left set_files set_dirs]. rewrite elem_of_union, elem_of_list_to_set. pose proof (not_in_own_parent p Hp). tauto.
Qed.

Lemma write_file_inv d p bytes d' :
  left d = None → unused d → clean (drawn d) p → write_file_atomic p bytes d = (d', Ok tt) →
  p ≠ [] ∧ blocked d (parent p) = false ∧ p ∉ dirs d ∧ d' = written d p bytes.
Proof using.
  intros Hl Hu Hc H. destruct (decide (p = [])) as [->|Hp].
  { unfold write_file_atomic, ebind in H. by rewrite bool_decide_eq_true_2 in H by done. }
  destruct (blocked d (parent p)) eqn:Hb.
  { unfold write_file_atomic in H. unfold ebind at 1 in H. rewrite bool_decide_eq_false_2 in H by done.
    simpl in H. unfold ebind at 1 in H. by rewrite mkdir_alive, Hb in H by done. }
  destruct (decide (p ∈ dirs d)) as [Hd|Hd].
  { unfold write_file_atomic in H. unfold ebind at 1 in H. rewrite bool_decide_eq_false_2 in H by done.
    simpl in H. unfold ebind at 1 in H. rewrite mkdir_alive, Hb in H by done.
    unfold ebind at 1, draw in H. unfold ebind in H. rewrite write_new_alive in H by done.
    erewrite rename_alive in H; [|done|by apply lookup_insert_eq].
    rewrite bool_decide_eq_true_2 in H; [done|]. cbn [files dirs drawn left set_files set_dirs]. set_solver. }
  rewrite write_file_alive in H by done. by injection H as <-.
Qed.

(** Well-formedness of the disk after a write. *)
Lemma written_tree d p bytes :
  tree_ok d → p ≠ [] → blocked d (parent p) = false → p ∉ dirs d → tree_ok (written d p bytes).
Proof using.
  intros [Hd Hf] Hp Hb Hn. rewrite blocked_false in Hb. split.
  - intros q c r Hq Hr. rewrite written_dir. rewrite written_file in Hq.
    case_decide as Hpq; [right; apply ancestors_parent; [done|by subst]|]. left. by eapply Hd.
  - intros q Hq. apply written_dir in Hq. rewrite written_file.
    case_decide as Hpq; [subst q|destruct Hq; [by apply Hf|by apply Hb]].
    destruct Hq as [Hq|Hq]; [done|]. by apply not_in_own_parent in Hq.
Qed.

Lemma written_unused d p bytes : unused d → clean (drawn d) p → unused (written d p bytes).
Proof using.
  intros Hu Hc q Hq. rewrite written_dir, written_file in Hq. apply (clean_le (drawn d)); [simpl; lia|].
  destruct Hq as [Hq|[Hq|Hq]].
  - case_decide as Hpq; [by subst q|]. apply Hu. by left.
  - apply Hu. by right.
  - apply elem_of_ancestors in Hq as [r Hr]. rewrite <- (take_drop (length p - 1) p) in Hc.
    apply clean_app in Hc as [Hc _]. fold (parent p) in Hc. rewrite Hr in Hc. by apply clean_app in Hc as [? _].
Qed.

(** ** Places *)

(** Where a file is or can be, without a new directory. *)
Definition place (d : disk) (p : path) : Prop :=
  p ≠ [] ∧ p ∉ dirs d ∧ ∀ q, above q p → q ∈ dirs d.

Lemma place_of_file d p c : tree_ok d → p ≠ [] → files d !! p = Some c → place d p.
Proof using.
  intros [Hd Hf] Hp Hc. split_and!; [done| |by intros q; eapply Hd].
  intros Hin. apply Hf in Hin. congruence.
Qed.

Lemma place_unblocked d p : tree_ok d → place d p → blocked d (parent p) = false.
Proof using.
  intros [_ Hf] (Hp & _ & Hq). apply blocked_false. intros q Hin.
  by apply Hf, Hq, ancestors_parent.
Qed.

Lemma place_dirs d p : place d p → dirs d ∪ list_to_set (ancestors (parent p)) = dirs d.
Proof using.
  intros (Hp & _ & Hq). apply set_eq. intros q. rewrite elem_of_union, elem_of_list_to_set.
  rewrite ancestors_parent by done. naive_solver.
Qed.

(** A disk that lives on: with the same directories, and with the given files. *)
Record follows (d d' : disk) (fs : gmap path string) : Prop := {
  fo_files : files d' = fs;
  fo_dirs : dirs d' = dirs d;
  fo_left : left d' = None;
  fo_tree : tree_ok d';
  fo_unused : unused d';
}.

Lemma write_place d p bytes :
  left d = None → tree_ok d → unused d → clean (drawn d) p → place d p →
  ∃ d', write_file_atomic p bytes d = (d', Ok tt) ∧ follows d d' (<[p := bytes]> (files d)).
Proof using.
  intros Hl Ht Hu Hc Hp. pose proof (place_unblocked _ _ Ht Hp) as Hb.
  pose proof (place_dirs _ _ Hp) as Hdirs. destruct Hp as (Hne & Hd & _).
  exists (written d p bytes). rewrite write_file_alive by done. split; [done|].
  split; [done|apply Hdirs|done|by apply written_tree|by apply written_unused].
Qed.

Lemma remove_place d p :
  left d = None → tree_ok d → unused d → place d p →
  ∃ d', remove_file p d = (d', Ok tt) ∧ follows d d' (delete p (files d)).
Proof using.
  intros Hl Ht Hu (Hne & Hd & Hq). unfold remove_file. destruct (files d !! p) as [c|] eqn:Hp.
  - exists (set_files d (delete p (files d))). unfold change. rewrite Hl. split; [done|].
    split; [done..| |].
    + destruct Ht as [Htd Htf]. split; simpl.
      * intros q c' r Hq'. rewrite lookup_delete_Some in Hq'. destruct Hq' as [_ Hq']. by eapply Htd.
      * intros q Hq'. destruct (decide (p = q)) as [->|Hpq]; [by rewrite lookup_delete_eq|].
        rewrite lookup_delete_ne by done. by apply Htf.
    + intros q Hq'. apply Hu. destruct Hq' as [[c' Hq']|Hq']; [left|by right].
      simpl in Hq'. rewrite lookup_delete_Some in Hq'. destruct Hq' as [_ Hq']. by rewrite Hq'.
  - exists d. rewrite bool_decide_eq_false_2 by done. simpl.
    assert (blocked d p = false) as ->.
    { apply blocked_false. intros q Hin. apply elem_of_ancestors in Hin as [[|x r] ->].
      - by rewrite app_nil_r in Hp.
      - apply Ht, Hq. by exists x, r. }
    split; [done|]. split; [by rewrite delete_id|done..].
Qed.
End names.

(** * Restoring *)

Section restoring.
Context `{HOs : Os} `{HSerde : Serde}.

Lemma restore_place d m target before :
  left d = None → tree_ok d → unused d → clean (drawn d) target → place d target →
  resolve (mf_workspace m) (mf_relative_path m) = Ok target → before_content d m = Ok before →
  ∃ d', restore_before m d = (d', Ok tt) ∧
    follows d d' (partial_alter (λ _, before) target (files d)).
Proof using.
  intros Hl Ht Hu Hc Hp Hr Hb. unfold restore_before, ebind, eres. rewrite Hr. simpl.
  unfold before_content, read_file in Hb. destruct (mf_before_blob m) as [blob|].
  - unfold read, read_file. destruct (files d !! blob) as [bytes|]; [|done].
    injection Hb as <-. apply write_place; done.
  - injection Hb as <-. apply remove_place; done.
Qed.

(** ** The preflight *)

Lemma seen_insert d v t c p :
  seen d (<[t := c]> v) p = if decide (t = p) then c else seen d v p.
Proof using. unfold seen. rewrite lookup_insert. by case_decide. Qed.

(** What one step of the preflight finds. *)
Inductive reverses (d : disk) (allow : bool) (m : Manifest) (v v' : gmap path (option string)) : Prop :=
  reverses_intro target after before
    (_ : resolve (mf_workspace m) (mf_relative_path m) = Ok target)
    (_ : files d !! mf_after_blob m = Some after) (_ : before_content d m = Ok before)
    (_ : seen d v target = Some after ∨ (allow = true ∧ seen d v target = before))
    (_ : v' = <[target := before]> v).

Lemma preflight_one_ok d allow m v v' :
  preflight_one d allow m v = Ok v' ↔ reverses d allow m v v'.
Proof using.
  unfold preflight_one. split.
  - intros H. apply res_bind_ok in H as (target & Hr & H). apply res_bind_ok in H as (after & Ha & H).
    apply res_bind_ok in H as (before & Hb & H). unfold read_file in Ha. rewrite ok_or_ok in Ha.
    destruct (bool_decide_reflect (seen d v target = Some after)) as [Hs|Hs].
    + injection H as <-. econstructor; eauto.
    + destruct allow; [|done]. simpl in H.
      destruct (bool_decide_reflect (seen d v target = before)) as [Hs'|Hs']; [|done].
      injection H as <-. rewrite Hs'. econstructor; eauto.
  - intros [target after before Hr Ha Hb Hs ->]. rewrite Hr. simpl. unfold read_file. rewrite Ha. simpl.
    rewrite Hb. simpl.
    case_bool_decide as H1; [done|]. destruct Hs as [Hs|[-> Hs]]; [done|].
    rewrite Hs. simpl. by rewrite bool_decide_eq_true_2.
Qed.

Section session.
Context (base : path) (session : string).

(** The directory of the session. *)
Definition inside (p : path) : Prop := ∃ r, p = session_dir base session ++ r.

(** The path of a blob. *)
Definition is_blob (p : path) : Prop := ∃ x, p = blobs_dir base session ++ [x].

Lemma blob_inside p : is_blob p → inside p.
Proof using. intros [x ->]. exists ["blobs"; x]. unfold blobs_dir. rewrite <- app_assoc. done. Qed.

Lemma blob_entry p : is_blob p → parent p ≠ entries_dir base session.
Proof using. intros [x ->]. rewrite parent_snoc. by intros [_ ?]%app_inj_tail. Qed.

(** The blobs of a manifest are the journal's, its target is not. *)
Record owned (m : Manifest) (target : path) : Prop := {
  ow_target : resolve (mf_workspace m) (mf_relative_path m) = Ok target;
  ow_outside : ¬ inside target;
  ow_root : target ≠ [];
  ow_clean : clean 0 target;
  ow_after : is_blob (mf_after_blob m);
  ow_before : ∀ b, mf_before_blob m = Some b → is_blob b;
}.

(** What the journal holds is kept. *)
Definition journal_grows (d d' : disk) : Prop :=
  ∀ p c, inside p → files d !! p = Some c → files d' !! p = Some c.

Lemma before_content_grows d d' m t b :
  owned m t → journal_grows d d' → before_content d m = Ok b → before_content d' m = Ok b.
Proof using.
  intros Ho Hg. unfold before_content, read_file. destruct (mf_before_blob m) as [p|] eqn:Hp; [|done].
  destruct (files d !! p) eqn:Hc; [|done]. intros [= <-].
  by rewrite (Hg _ _ (blob_inside _ (ow_before _ _ Ho p Hp)) Hc).
Qed.

(** The preflight sees blobs, and the workspace through what is already reversed. *)
Lemma preflight_ext d1 d2 allow ms v1 v1' v2 :
  journal_grows d1 d2 → Forall (λ m, ∃ t, owned m t) ms →
  (∀ p, ¬ inside p → seen d1 v1 p = seen d2 v2 p) →
  preflight d1 allow ms v1 = Ok v1' →
  ∃ v2', preflight d2 allow ms v2 = Ok v2' ∧ ∀ p, ¬ inside p → seen d1 v1' p = seen d2 v2' p.
Proof using.
  intros Hg Hms. revert v1 v2. induction Hms as [|m ms [t Ho] _ IH]; intros v1 v2 Hs H; simpl in *.
  - injection H as <-. by exists v2.
  - apply res_bind_ok in H as (v & Hv & H). apply preflight_one_ok in Hv as [t' a b Hr Ha Hb Hc ->].
    pose proof (ow_target _ _ Ho) as Ht. rewrite Hr in Ht. injection Ht as ->.
    assert (preflight_one d2 allow m v2 = Ok (<[t := b]> v2)) as ->.
    { apply preflight_one_ok. econstructor; [done|by apply Hg, Ha; apply blob_inside, Ho| | |done].
      - by eapply before_content_grows.
      - by rewrite <- Hs by apply Ho. }
    simpl. apply (IH (<[t := b]> v1)); [|done]. intros p Hp. rewrite !seen_insert. case_decide; auto.
Qed.

(** ** Restoring all *)

Definition running (d : disk) : Prop := tree_ok d ∧ unused d.

(** A process that does not die. *)
Definition alive (d : disk) : Prop := left d = None ∧ running d.

Lemma follows_alive d d' fs : follows d d' fs → alive d'.
Proof using. by intros []. Qed.

(** A restoration leaves the files as the preflight saw them. *)
Lemma restore_seen d0 allow rms v v' d :
  alive d → Forall (λ pm : path * Manifest, ∃ t, owned pm.2 t ∧ place d t) rms →
  (∀ p, inside p → files d !! p = files d0 !! p) →
  (∀ p, ¬ inside p → files d !! p = seen d0 v p) →
  preflight d0 allow rms.*2 v = Ok v' →
  ∃ d', efor rms (λ pm, restore_before pm.2) d = (d', Ok tt) ∧ alive d' ∧ dirs d' = dirs d ∧
    (∀ p, inside p → files d' !! p = files d0 !! p) ∧
    (∀ p, ¬ inside p → files d' !! p = seen d0 v' p).
Proof using.
  revert v d. induction rms as [|[q m] rms IH]; intros v d Hd Hms Hin Hout H; simpl in *.
  - injection H as <-. by exists d.
  - apply Forall_cons in Hms as [(t & Ho & Hp) Hms]. simpl in Ho.
    apply res_bind_ok in H as (v1 & Hv & H). apply preflight_one_ok in Hv as [t' a b Hr Ha Hb Hc ->].
    pose proof (ow_target _ _ Ho) as Ht. rewrite Hr in Ht. injection Ht as ->.
    destruct Hd as (Hl & Htree & Hu).
    assert (before_content d m = Ok b) as Hb'.
    { eapply before_content_grows; [done| |done]. intros p c Hp' Hc'. by rewrite Hin. }
    destruct (restore_place d m t b) as (d1 & Hrun & Hf); try done.
    { eapply clean_le, ow_clean; [lia|done]. }
    destruct (IH (<[t := b]> v) d1) as (d' & Hrun' & Hd' & Hdirs & Hin' & Hout'); try done.
    + by eapply follows_alive.
    + eapply Forall_impl; [exact Hms|]. intros pm (t' & Ho' & Hp'). exists t'. split; [done|].
      unfold place in *. by rewrite (fo_dirs _ _ _ Hf).
    + intros p Hp'. rewrite (fo_files _ _ _ Hf), lookup_partial_alter_ne; [by apply Hin|].
      intros ->. by apply (ow_outside _ _ Ho).
    + intros p Hp'. rewrite seen_insert, (fo_files _ _ _ Hf). case_decide as He.
      * subst. by rewrite lookup_partial_alter_eq.
      * rewrite lookup_partial_alter_ne by done. by apply Hout.
    + exists d'. unfold ebind. rewrite Hrun. split; [done|]. split; [done|].
      by rewrite Hdirs, (fo_dirs _ _ _ Hf).
Qed.

(** Files that exist are written over. *)
Lemma write_manifests d ms :
  alive d → Forall (λ pm : path * Manifest, pm.1 ≠ [] ∧ is_Some (files d !! pm.1)) ms →
  ∃ d', efor ms (λ pm, write_manifest pm.1 (with_state pm.2 RolledBack)) d = (d', Ok tt) ∧
    alive d' ∧ dirs d' = dirs d ∧ ∀ p, p ∉ ms.*1 → files d' !! p = files d !! p.
Proof using.
  revert d. induction ms as [|[q m] ms IH]; intros d Hd Hms; simpl; [by exists d|].
  apply Forall_cons in Hms as [[Hq [c Hc]] Hms]. destruct Hd as (Hl & Ht & Hu). simpl in *.
  destruct (write_place d q (encode_manifest (with_state m RolledBack))) as (d1 & Hrun & Hf); try done.
  { apply Hu. left. by rewrite Hc. }
  { by eapply place_of_file. }
  destruct (IH d1) as (d' & Hrun' & Hd' & Hdirs & Hout).
  - by eapply follows_alive.
  - eapply Forall_impl; [exact Hms|]. intros pm [? ?]. split; [done|].
    rewrite (fo_files _ _ _ Hf), lookup_insert. by case_decide.
  - exists d'. unfold ebind, write_manifest. rewrite Hrun. split; [done|]. split; [done|].
    split; [by rewrite Hdirs, (fo_dirs _ _ _ Hf)|]. intros p Hp.
    apply not_elem_of_cons in Hp as [Hpq Hp]. rewrite Hout by done.
    rewrite (fo_files _ _ _ Hf). by rewrite lookup_insert_ne.
Qed.

(** The whole restoration of a marker. *)
Lemma restore_all_seen allow ms v d :
  alive d → is_Some (files d !! marker_path base session) → marker_path base session ∉ ms.*1 →
  Forall (λ pm : path * Manifest, pm.1 ≠ [] ∧ inside pm.1 ∧ is_Some (files d !! pm.1) ∧
    ∃ t, owned pm.2 t ∧ place d t) ms →
  preflight d allow (reverse ms).*2 ∅ = Ok v →
  ∃ d', restore_all base session ms d = (d', Ok tt) ∧
    files d' !! marker_path base session = None ∧
    ∀ p, ¬ inside p → files d' !! p = seen d v p.
Proof using.
  intros Hd [c Hmark] Hnin Hms Hpre.
  destruct (restore_seen d allow (reverse ms) ∅ v d) as (d1 & Hrun1 & Hd1 & _ & Hin1 & Hout1); try done.
  { apply Forall_reverse. eapply Forall_impl; [exact Hms|]. by intros pm (_ & _ & _ & ?). }
  destruct (write_manifests d1 ms) as (d2 & Hrun2 & Hd2 & _ & Hsame); [done| |].
  { eapply Forall_impl; [exact Hms|]. intros pm (? & ? & Hs & _). split; [done|]. by rewrite Hin1. }
  assert (inside (marker_path base session)) as Hmi by by exists ["rollback.json"].
  assert (files d2 !! marker_path base session = Some c) as Hm2 by by rewrite Hsame, Hin1.
  exists (set_files d2 (delete (marker_path base session) (files d2))).
  unfold restore_all, ebind. rewrite Hrun1, Hrun2. unfold remove_marker. rewrite Hm2.
  unfold change. destruct Hd2 as [-> _]. split; [done|]. simpl. split; [apply lookup_delete_eq|].
  intros p Hp. rewrite lookup_delete_ne by by intros <-. rewrite Hsame; [by apply Hout1|].
  intros (pm & -> & Hpm)%list_elem_of_fmap. rewrite Forall_forall in Hms.
  by destruct (Hms pm Hpm) as (_ & ? & _).
Qed.
End session.
End restoring.
