(* ===== verification/JournalRun.v ===== *)
(** The workspace journal over the edits of a turn: what a journal of settled mutations
    knows of them, and how an edit of the turn extends it. *)

From S2P Require Import Prelude Effects WorkspaceJournal JournalFacts.
From stdpp Require Import base tactics gmap strings list sorting.
From Stdlib Require Import ZArith Ascii Lia.

(** * Lists *)

Section lists.
Context {A : Type} (P : A → Prop) `{!∀ x, Decision (P x)}.

Lemma filter_keeps (l : list A) : (∀ x, x ∈ l → P x) → filter P l = l.
Proof.
  induction l as [|x l IH]; intros Hl; [done|]. rewrite filter_cons_True by (apply Hl; by left).
  f_equal. apply IH. intros y Hy. apply Hl. by right.
Qed.

Lemma filter_drops (l : list A) : (∀ x, x ∈ l → ¬ P x) → filter P l = [].
Proof.
  induction l as [|x l IH]; intros Hl; [done|]. rewrite filter_cons_False by (apply Hl; by left).
  apply IH. intros y Hy. apply Hl. by right.
Qed.

Lemma sorted_filter (R : A → A → Prop) (l : list A) : StronglySorted R l → StronglySorted R (filter P l).
Proof.
  induction 1 as [|x l Hl IH Hx]; [constructor|]. rewrite filter_cons. case_decide; [|done].
  constructor; [done|]. rewrite Forall_forall in *. intros y Hy. apply Hx.
  by apply list_elem_of_filter in Hy as [_ ?].
Qed.
End lists.

(** What is assumed of serde_json and of uuids. *)
Class JournalLaws `{Os} `{Serde} : Prop := {
  manifest_codec m : decode_manifest (encode_manifest m) = Some m;
  marker_codec ps : decode_marker (encode_marker ps) = Some ps;
  uuid_inj :: Inj (=) (=) uuid;
}.

Section run.
Context `{HOs : Os} `{HSerde : Serde} `{HLaws : !JournalLaws} (base : path) (session : string).

Notation entries := (entries_dir base session).
Notation marker := (marker_path base session).
Notation inside := (inside base session).
Notation owned := (owned base session).
Notation is_blob := (is_blob base session).

(** * The journal *)

Definition child (d : disk) (p : path) : Prop :=
  p ≠ [] ∧ parent p = entries ∧ (is_Some (files d !! p) ∨ p ∈ dirs d).

Definition entry (d : disk) (p : path) (m : Manifest) : Prop :=
  child d p ∧ files d !! p = Some (encode_manifest m).

(** A journal between operations. *)
Record journal_ok (d : disk) : Prop := {
  jo_running : running d;
  jo_marker : files d !! marker = None;
  jo_marker_dir : marker ∉ dirs d;
  jo_entries : ∀ p, child d p → ∃ m, entry d p m ∧ mf_state m ≠ Prepared;
  jo_numbers : ∀ p m, entry d p m → (0 < mf_sequence m)%Z;
  jo_sequence : ∀ p m p' m', entry d p m → entry d p' m' → mf_sequence m = mf_sequence m' → p = p';
}.

(** The mutations [ms] are those of a turn, which is the last one, in their order. *)
Record turn_last (d : disk) (turn : string) (ms : list (path * Manifest)) : Prop := {
  tu_ms : ∀ p m, (p, m) ∈ ms ↔ entry d p m ∧ mf_state m = Applied ∧ mf_turn_id m = turn;
  tu_sorted : StronglySorted (λ a b, mf_sequence a.2 < mf_sequence b.2)%Z ms;
  tu_latest : ∀ p m pm, entry d p m → mf_state m = Applied → mf_turn_id m ≠ turn → pm ∈ ms →
    (mf_sequence m < mf_sequence pm.2)%Z;
}.

(** They lead from the workspace [w] to the files of the disk. *)
Record turn_ok (d : disk) (w : path → option string) (turn : string)
    (ms : list (path * Manifest)) : Prop := {
  tu_last :> turn_last d turn ms;
  tu_undo : ∃ v, preflight d false (reverse ms).*2 ∅ = Ok v ∧ ∀ p, ¬ inside p → seen d v p = w p;
  tu_owned : Forall (λ pm, ∃ t, owned pm.2 t ∧ is_Some (files d !! t)) ms;
}.

Lemma entry_inj d p m m' : entry d p m → entry d p m' → m = m'.
Proof using HLaws.
  intros [_ H1] [_ H2]. rewrite H1 in H2. injection H2 as H2. apply (f_equal decode_manifest) in H2.
  rewrite !manifest_codec in H2. by injection H2.
Qed.

Lemma entry_read d p m : entry d p m → read_manifest d p = Ok m.
Proof using HLaws.
  intros [_ Hp]. unfold read_manifest, read_file. rewrite Hp. simpl. by rewrite manifest_codec.
Qed.

Lemma child_inside d p : child d p → inside p.
Proof using.
  intros (Hp & He & _). destruct (snoc_parent p Hp) as [x Hx]. exists ["entries"; x].
  rewrite Hx, He. unfold entries_dir. by rewrite <- app_assoc.
Qed.

Lemma entries_list d l : read_dir d entries = Ok l → NoDup l ∧ ∀ p, p ∈ l ↔ child d p.
Proof using.
  unfold read_dir. intros [_ [= <-]]%bail_ok. split; [rewrite listing_perm; apply NoDup_elements|].
  intros p. rewrite listing_perm, elem_of_elements, elem_of_filter, elem_of_union, elem_of_dom.
  unfold child. tauto.
Qed.

(** ** Reading the journal *)

Lemma recover_nothing d : files d !! marker = None → recover_locked base session d = (d, Ok tt).
Proof using. intros Hm. unfold recover_locked, ebind, get, eget. by rewrite Hm. Qed.

Lemma settle_nothing d p m : entry d p m → mf_state m ≠ Prepared → settle p d = (d, Ok (p, m)).
Proof using HLaws.
  intros He Hs. unfold settle, ebind, get, eget, eres. rewrite (entry_read _ _ _ He). simpl.
  by rewrite bool_decide_eq_false_2.
Qed.

(** All entries that apply. *)
Definition is_active (d : disk) (pm : path * Manifest) : Prop :=
  entry d pm.1 pm.2 ∧ mf_state pm.2 = Applied.

Lemma settle_all_ok d l :
  journal_ok d → Forall (child d) l → NoDup l →
  ∃ pms, settle_all l d = (d, Ok pms) ∧ NoDup pms ∧
    ∀ pm, pm ∈ pms ↔ pm.1 ∈ l ∧ is_active d pm.
Proof using HLaws.
  intros Hok Hl. induction Hl as [|p l Hp Hl IH]; intros Hnd; simpl.
  - exists []. split; [done|]. split; [constructor|]. intros pm. set_solver.
  - apply NoDup_cons in Hnd as [Hnin Hnd]. destruct (IH Hnd) as (pms & Hrun & Hnd' & Hin).
    destruct (jo_entries _ Hok _ Hp) as (m & He & Hs). unfold ebind.
    rewrite (settle_nothing _ _ _ He Hs), Hrun. eexists. split; [done|]. simpl.
    assert ((p, m) ∉ pms) as Hnew by (rewrite Hin; naive_solver).
    case_bool_decide as Ha.
    + split; [by constructor|]. intros pm. rewrite elem_of_cons, elem_of_cons, Hin. split.
      * intros [->|[? ?]]; [split; [by left|done]|auto].
      * intros [[Hpm|Hpm] Hact]; [left|by right]. destruct pm as [q m']. simpl in *. subst q.
        destruct Hact as [He' _]. by rewrite (entry_inj _ _ _ _ He He').
    + split; [done|]. intros pm. rewrite elem_of_cons, Hin. split; [naive_solver|].
      intros [[Hpm|Hpm] Hact]; [|done]. destruct pm as [q m']. simpl in *. subst q.
      destruct Hact as [He' Ha']. simpl in *. by rewrite (entry_inj _ _ _ _ He He') in Ha.
Qed.

Definition by_number (a b : path * Manifest) : bool := (mf_sequence a.2 <=? mf_sequence b.2)%Z.

Lemma sorted_by_number l :
  StronglySorted (λ a b, mf_sequence a.2 ≤ mf_sequence b.2)%Z (stable_sort by_number l).
Proof using.
  assert (Total (λ a b, Is_true (by_number a b))) as Htot.
  { intros a b. unfold by_number. rewrite !Is_true_true, !Z.leb_le. lia. }
  assert (Transitive (λ a b, Is_true (by_number a b))) as Htrans.
  { intros a b c. unfold by_number. rewrite !Is_true_true, !Z.leb_le. lia. }
  pose proof (stable_sort_sorted by_number l) as Hs.
  induction Hs as [|a l' Hl IH Ha]; constructor; [done|].
  eapply Forall_impl; [exact Ha|]. intros b. unfold by_number. by rewrite Is_true_true, Z.leb_le.
Qed.

(** The entries in the order of their numbers end with those of the turn. *)
Lemma sorted_split d turn ms sorted :
  journal_ok d → turn_last d turn ms → NoDup sorted → (∀ pm, pm ∈ sorted ↔ is_active d pm) →
  StronglySorted (λ a b, mf_sequence a.2 ≤ mf_sequence b.2)%Z sorted →
  sorted = filter (λ pm, mf_turn_id pm.2 ≠ turn) sorted ++ ms.
Proof using HLaws.
  intros Hok Hturn Hnd Hact Hsort.
  set (R := λ a b : path * Manifest, (mf_sequence a.2 < mf_sequence b.2)%Z).
  assert (StronglySorted R sorted) as Hstrict.
  { clear Hturn ms. assert (∀ pm, pm ∈ sorted → is_active d pm) as Hact' by (intros; by apply Hact).
    clear Hact. induction Hsort as [|a l Hl IH Ha]; [constructor|].
    apply NoDup_cons in Hnd as [Hnin Hnd]. constructor; [apply IH; set_solver|].
    rewrite Forall_forall in *. intros b Hb. unfold R. specialize (Ha b Hb).
    destruct (decide (mf_sequence a.2 = mf_sequence b.2)) as [He|]; [|lia]. exfalso. apply Hnin.
    destruct (Hact' a ltac:(by left)) as [Hea _], (Hact' b ltac:(by right)) as [Heb _].
    pose proof (jo_sequence _ Hok _ _ _ _ Hea Heb He) as Hp. destruct a as [p m], b as [p' m'].
    simpl in *. subst p'. by rewrite (entry_inj _ _ _ _ Hea Heb). }
  apply (StronglySorted_unique_strong R).
  - intros a b _ _ Hab Hba. unfold R in *. lia.
  - done.
  - apply StronglySorted_app. split_and!; [|by apply (sorted_filter _ R)|apply Hturn].
    intros a b Ha Hb. apply list_elem_of_filter in Ha as [Ht Ha]. apply Hact in Ha as [He Ha].
    by eapply (tu_latest _ _ _ Hturn).
  - apply NoDup_Permutation; [done| |].
    + apply NoDup_app. split_and!; [by apply NoDup_filter| |].
      * intros pm Hpm Hpm'. apply list_elem_of_filter in Hpm as [Ht _]. destruct pm as [p m].
        apply (tu_ms _ _ _ Hturn) in Hpm' as (_ & _ & ?). done.
      * assert (StronglySorted R ms) as Hms by apply Hturn. clear -Hms.
        induction Hms as [|a l Hl IH Ha]; [constructor|]. constructor; [|done]. intros Hin.
        rewrite Forall_forall in Ha. specialize (Ha a Hin). unfold R in Ha. lia.
    + intros [p m]. rewrite elem_of_app, list_elem_of_filter, Hact, (tu_ms _ _ _ Hturn).
      unfold is_active. simpl. destruct (decide (mf_turn_id m = turn)); tauto.
Qed.

(** The mutations that a turn made last are found, in their order. *)
Lemma latest_is_turn d turn ms :
  journal_ok d → turn_last d turn ms → ms ≠ [] →
  ∃ act, active_manifests base session d = (d, Ok act) ∧ latest_turn act = Ok (turn, ms).
Proof using HLaws.
  intros Hok Hturn Hne. destruct ms as [|[q0 m0] ms0] eqn:Hms; [done|]. rewrite <- Hms in *. clear Hne.
  assert ((q0, m0) ∈ ms) as Hq0 by (rewrite Hms; by left).
  assert (entries ∈ dirs d) as Hdir.
  { apply (tu_ms _ _ _ Hturn) in Hq0 as ((( Hp & Hpar & _) & Hf) & _).
    destruct (jo_running _ Hok) as [Ht _]. eapply (to_dirs _ Ht); [exact Hf|].
    rewrite <- Hpar. apply ancestors_parent; [done|]. apply ancestors_refl. }
  unfold active_manifests, ebind, get, eget.
  destruct (read_dir d entries) as [l| | |] eqn:Hrd;
    [|by unfold read_dir in Hrd; rewrite bool_decide_eq_true_2 in Hrd..].
  destruct (entries_list _ _ Hrd) as [Hnd Hl].
  destruct (settle_all_ok d l Hok) as (pms & Hrun & Hndp & Hin); [|done|].
  { apply Forall_forall. intros p. apply Hl. }
  rewrite Hrun. eexists. split; [done|]. set (sorted := stable_sort _ pms).
  assert (sorted ≡ₚ pms) as Hperm by apply stable_sort_perm.
  assert (∀ pm, pm ∈ sorted ↔ is_active d pm) as Hact.
  { intros pm. rewrite Hperm, Hin, Hl. split; [tauto|]. intros [[Hc He] Ha]. by split. }
  set (other := filter (λ pm, mf_turn_id pm.2 ≠ turn) sorted).
  assert (sorted = other ++ ms) as Hsplit.
  { eapply sorted_split; [done|done| |done|apply sorted_by_number]. by rewrite Hperm. }
  unfold latest_turn. rewrite Hsplit.
  destruct (last ms) as [[ql ml]|] eqn:Hlast; [|by rewrite last_None in Hlast; rewrite Hms in Hlast].
  rewrite last_app, Hlast. simpl.
  assert ((ql, ml) ∈ ms) as Hlin by (apply last_Some in Hlast as [l' ->]; set_solver).
  apply (tu_ms _ _ _ Hturn) in Hlin as (_ & _ & ->). f_equal. f_equal.
  rewrite filter_app, filter_drops, filter_keeps; [done| |].
  - intros [p m] Hpm. by apply (tu_ms _ _ _ Hturn) in Hpm as (_ & _ & ?).
  - intros pm Hpm. by apply list_elem_of_filter in Hpm as [? _].
Qed.

(** * An edit *)

Context (Hclean : clean 0 marker).

Lemma clean_session : clean 0 (session_dir base session).
Proof using Hclean. by apply clean_app in Hclean as [? _]. Qed.

(** A name that no uuid gives, by its last letter. *)
Lemma clean_word x : (∀ k n, last_char x ≠ last_char (name n k)) → clean 0 [x].
Proof using. intros Hx n k _ Hin%list_elem_of_singleton. apply (Hx k n). by rewrite Hin. Qed.

Lemma clean_entries : clean 0 entries.
Proof using Hclean.
  apply clean_app. split; [apply clean_session|]. apply clean_word. intros k n.
  rewrite name_last. by destruct k.
Qed.

Lemma clean_blobs : clean 0 (blobs_dir base session).
Proof using Hclean.
  apply clean_app. split; [apply clean_session|]. apply clean_word. intros k n.
  rewrite name_last. by destruct k.
Qed.

(** The disk where the next uuid is drawn. *)
Lemma new_name_absent d p k :
  alive d → files d !! (p ++ [name (drawn d) k]) = None ∧ p ++ [name (drawn d) k] ∉ dirs d.
Proof using.
  intros (_ & _ & Hu).
  assert (¬ clean (drawn d) (p ++ [name (drawn d) k])) as Hn.
  { intros Hc. apply (Hc (drawn d) k); [done|]. apply elem_of_app. right. by left. }
  split; [|intros Hd; apply Hn, Hu; by right].
  destruct (files d !! _) eqn:He; [|done]. destruct Hn. apply Hu. left. by rewrite He.
Qed.

Lemma mkdir_inv d p d' :
  alive d → clean (drawn d) p → create_dir_all p d = (d', Ok tt) →
  alive d' ∧ files d' = files d ∧ drawn d' = drawn d ∧
  (∀ q, q ∈ dirs d' ↔ q ∈ dirs d ∨ q ∈ ancestors p).
Proof using.
  intros (Hl & Ht & Hu) Hc. rewrite mkdir_alive by done. destruct (blocked d p) eqn:Hb; [done|].
  intros [= <-]. rewrite blocked_false in Hb.
  assert (∀ q, q ∈ dirs (set_dirs d (dirs d ∪ list_to_set (ancestors p))) ↔
    q ∈ dirs d ∨ q ∈ ancestors p) as Hdirs.
  { intros q. unfold set_dirs. cbn [dirs]. by rewrite elem_of_union, elem_of_list_to_set. }
  split_and!; [|done..|exact Hdirs]. split; [done|]. destruct Ht as [Htd Htf]. split; [split|].
  - intros q c r Hq Hr. apply Hdirs. left. by eapply Htd.
  - intros q Hq. apply Hdirs in Hq as [Hq|Hq]; [by apply Htf|by apply Hb].
  - intros q Hq. destruct Hq as [Hq|Hq]; [apply Hu; by left|]. apply Hdirs in Hq as [Hq|Hq].
    + apply Hu. by right.
    + apply elem_of_ancestors in Hq as [r ->]. by apply clean_app in Hc as [? _].
Qed.

Lemma write_inv d p bytes d' :
  alive d → clean (drawn d) p → write_file_atomic p bytes d = (d', Ok tt) →
  alive d' ∧ files d' = <[p := bytes]> (files d) ∧ drawn d' = S (drawn d) ∧
  (∀ q, q ∈ dirs d' ↔ q ∈ dirs d ∨ q ∈ ancestors (parent p)).
Proof using.
  intros (Hl & Ht & Hu) Hc Hrun. apply write_file_inv in Hrun as (Hne & Hb & Hd & ->); try done.
  split_and!; [|done..|intros q; apply written_dir].
  split_and!; [done|split; [by apply written_tree|by apply written_unused]].
Qed.

Lemma draw_alive d : alive d → alive (draw d).1 ∧ files (draw d).1 = files d ∧
  dirs (draw d).1 = dirs d ∧ drawn (draw d).1 = S (drawn d).
Proof using.
  intros (Hl & [Htd Htf] & Hu). split; [|done]. split; [done|]. split; [by split|].
  intros q Hq. apply (clean_le (drawn d)); [simpl; lia|]. by apply Hu.
Qed.

(** Numbers rise. *)
Lemma next_sequence_above d n :
  next_sequence d entries = Ok n →
  entries ∈ dirs d ∧ (0 < n)%Z ∧ ∀ p, child d p → ∃ m, read_manifest d p = Ok m ∧ (mf_sequence m < n)%Z.
Proof using.
  unfold next_sequence. intros Hn. apply res_bind_ok in Hn as (found & Hf & Hn).
  apply res_bind_ok in Hn as (max & Hm & Hn). destruct (max =? u64_max)%Z; [done|]. injection Hn as <-.
  assert (0 ≤ max ∧ ∀ p, p ∈ found → ∃ m, read_manifest d p = Ok m ∧ mf_sequence m ≤ max)%Z as [Hpos Hall].
  { clear -Hm. revert max Hm. induction found as [|p found IH]; simpl; intros max Hm.
    - injection Hm as <-. split; [lia|]. set_solver.
    - apply res_bind_ok in Hm as (rest & Hr & Hm). apply res_bind_ok in Hm as (m & Hp & [= <-]).
      destruct (IH rest Hr) as [? Hall]. split; [lia|]. intros q [->|Hq]%elem_of_cons.
      + exists m. split; [done|]. lia.
      + destruct (Hall q Hq) as (m' & ? & ?). exists m'. split; [done|]. lia. }
  split; [by unfold read_dir in Hf; apply bail_ok in Hf as [Hd%negb_false_iff%bool_decide_eq_true _]|].
  split; [lia|]. intros p Hp. destruct (entries_list _ _ Hf) as [_ Hl].
  destruct (Hall p) as (m & ? & ?); [by apply Hl|]. exists m. split; [done|]. lia.
Qed.

(** What [prepare_mutation] leaves. *)
Record prepared (d d' : disk) (token : path) (m : Manifest) (target : path) (after : string) : Prop := {
  pr_alive : alive d';
  pr_token : token ≠ [] ∧ parent token = entries ∧ files d !! token = None ∧ token ∉ dirs d;
  pr_manifest : files d' !! token = Some (encode_manifest m);
  pr_keeps : files d ⊆ files d';
  pr_files : ∀ p, is_Some (files d' !! p) →
    is_Some (files d !! p) ∨ p = token ∨ is_blob p;
  pr_dirs : ∀ q, q ∈ dirs d' → q ∈ dirs d ∨ q ∈ ancestors entries ∨ q ∈ ancestors (blobs_dir base session);
  pr_target : target ∉ dirs d;
  pr_before : before_content d' m = Ok (files d !! target);
  pr_after : files d' !! mf_after_blob m = Some after;
  pr_blobs : is_blob (mf_after_blob m) ∧ ∀ b, mf_before_blob m = Some b → is_blob b;
  pr_state : mf_state m = Prepared;
  pr_sequence : (0 < mf_sequence m)%Z ∧ ∀ p m', entry d p m' → (mf_sequence m' < mf_sequence m)%Z;
}.

Lemma grows_content d d' m b :
  files d ⊆ files d' → before_content d m = Ok b → before_content d' m = Ok b.
Proof using.
  intros Hg. unfold before_content, read_file. destruct (mf_before_blob m) as [p|]; [|done].
  destruct (files d !! p) as [c|] eqn:Hc; [|done]. intros [= <-]. by rewrite (lookup_weaken _ _ _ _ Hc Hg).
Qed.

Lemma inserted {V} (fs : gmap path V) p c q : is_Some (<[p := c]> fs !! q) → is_Some (fs !! q) ∨ q = p.
Proof using. rewrite lookup_insert. case_decide; [by right|by left]. Qed.

(** The image of the target is stored, when there is one. *)
Lemma store_before d before d' b n m :
  alive d → clean (drawn d) (blobs_dir base session) → n < drawn d →
  let blob := blobs_dir base session ++ [name n BeforeName] in
  files d !! blob = None →
  match before with
  | Some bytes => perform write_file_atomic blob bytes;; eret (Some blob)
  | None => eret None
  end d = (d', Ok b) →
  mf_before_blob m = b →
  alive d' ∧ drawn d ≤ drawn d' ∧
  (∀ q, q ∈ dirs d' → q ∈ dirs d ∨ q ∈ ancestors (blobs_dir base session)) ∧
  files d ⊆ files d' ∧ (∀ p, is_Some (files d' !! p) → is_Some (files d !! p) ∨ p = blob) ∧
  before_content d' m = Ok before ∧ (∀ p, b = Some p → p = blob).
Proof using HLaws.
  intros Hd Hc Hn blob Hnew H Hm. destruct before as [bytes|].
  - apply ebind_ok in H as ([] & d1 & Hw & [= <- <-]).
    apply write_inv in Hw as (Hd1 & Hf & Hdr & Hdirs); [|done|].
    + split_and!; [done|lia| | | | |congruence].
      * intros q Hq. apply Hdirs in Hq. unfold blob in Hq. by rewrite parent_snoc in Hq.
      * rewrite Hf. by apply insert_subseteq.
      * rewrite Hf. intros q. apply inserted.
      * unfold before_content, read_file. by rewrite Hm, Hf, lookup_insert_eq.
    + apply clean_app. split; [done|]. by apply clean_name.
  - injection H as <- <-. split_and!; [done|lia|tauto|done|tauto| |done].
    unfold before_content. by rewrite Hm.
Qed.

Lemma other_name p q n k k' : k ≠ k' → p ++ [name n k] ≠ q ++ [name n k'].
Proof using HLaws. intros Hk [_ He]%app_inj_tail. by apply name_inj in He as [_ ?]. Qed.

Lemma before_image_ok d target b :
  tree_ok d → before_image d target = Ok b → b = files d !! target ∧ target ∉ dirs d.
Proof using.
  intros Ht. unfold before_image. destruct (files d !! target) as [c|] eqn:Hc.
  - intros [_ [= <-]]%bail_ok. split; [done|]. intros Hin. apply (to_files _ Ht) in Hin. congruence.
  - intros [Hd H]%bail_ok. apply bail_ok in H as [_ [= <-]]. split; [done|].
    by apply bool_decide_eq_false in Hd.
Qed.

(** The two files that follow the first image have names of their own. *)
Lemma fresh_files (d : disk) (f4 : gmap path string) (after x : string) :
  alive d → let pb := blobs_dir base session ++ [name (drawn d) BeforeName] in
  let pa := blobs_dir base session ++ [name (drawn d) AfterName] in
  let token := entries ++ [name (drawn d) JsonName] in
  (∀ p, is_Some (f4 !! p) → is_Some (files d !! p) ∨ p = pb) →
  f4 ⊆ <[pa := after]> f4 ∧ <[pa := after]> f4 ⊆ <[token := x]> (<[pa := after]> f4) ∧
  ∀ p, is_Some (<[pa := after]> f4 !! p) → is_Some (files d !! p) ∨ p = pb ∨ p = pa.
Proof using HLaws.
  intros Hd pb pa token Hnew4. pose proof (λ p k, proj1 (new_name_absent d p k Hd)) as Hnew.
  assert (∀ p, is_Some (<[pa := after]> f4 !! p) → is_Some (files d !! p) ∨ p = pb ∨ p = pa) as Hnew5.
  { intros p [Hs|Hs]%inserted; [|tauto]. apply Hnew4 in Hs. tauto. }
  split; [|split; [|done]].
  - apply insert_subseteq, eq_None_not_Some. intros [Hs|Hs]%Hnew4.
    + unfold pa in Hs. rewrite Hnew in Hs. by destruct Hs.
    + by apply other_name in Hs.
  - apply insert_subseteq, eq_None_not_Some. intros [Hs|[Hs|Hs]]%Hnew5.
    + unfold token in Hs. rewrite Hnew in Hs. by destruct Hs.
    + by apply other_name in Hs.
    + by apply other_name in Hs.
Qed.

Lemma prepare_ok d turn call workspace relative after d' token :
  journal_ok d → left d = None → prepare_mutation base session turn call workspace relative after d = (d', Ok token) →
  ∃ m target, resolve workspace relative = Ok target ∧ prepared d d' token m target after ∧
    mf_workspace m = workspace ∧ mf_relative_path m = relative ∧ mf_turn_id m = turn.
Proof using HLaws Hclean.
  intros Hok Hl H. unfold prepare_mutation in H. pose proof (conj Hl (jo_running _ Hok) : alive d) as Hd.
  apply ebind_ok in H as ([] & ? & [= <- _] & H).
  apply ebind_ok in H as ([] & ? & Hrec & H). rewrite (recover_nothing _ (jo_marker _ Hok)) in Hrec.
  injection Hrec as <-.
  apply ebind_ok in H as (target & ? & [= <- Hr] & H). apply ebind_ok in H as (? & ? & [= <- <-] & H).
  apply ebind_ok in H as (before & ? & [= <- Hbefore] & H).
  apply ebind_ok in H as ([] & d1 & H1 & H). apply mkdir_inv in H1 as (Hd1 & Hf1 & Hn1 & Hdirs1);
    [|done|eapply clean_le, clean_entries; lia].
  apply ebind_ok in H as ([] & d2 & H2 & H). apply mkdir_inv in H2 as (Hd2 & Hf2 & Hn2 & Hdirs2);
    [|done|eapply clean_le, clean_blobs; lia].
  apply ebind_ok in H as (id & d3 & H3 & H).
  destruct (draw_alive d2 Hd2) as (Hd3 & Hf3 & Hdirs3 & Hn3).
  assert (id = uuid (drawn d)) as -> by (unfold draw in H3; injection H3 as _ <-; by rewrite Hn2, Hn1).
  assert (d3 = (draw d2).1) as -> by by rewrite H3.
  apply ebind_ok in H as (bb & d4 & H4 & H).
  apply ebind_ok in H as ([] & d5 & H5 & H).
  apply ebind_ok in H as (? & ? & [= <- <-] & H). apply ebind_ok in H as (n & ? & [= <- Hseq] & H).
  apply ebind_ok in H as ([] & d6 & H6 & H).
  apply ebind_ok in H as ([] & ? & [= <- _] & [= <- <-]).
  set (m := Build_Manifest _ _ _ _ _ _ _ _ _ _) in H6.
  pose proof (λ p k, proj1 (new_name_absent d p k Hd)) as Hnew.
  apply (store_before _ _ _ _ (drawn d) m) in H4 as (Hd4 & Hn4 & Hdirs4 & Hk4 & Hnew4 & Hb & Hbb);
    [|done|eapply clean_le, clean_blobs; lia|lia|by rewrite Hf3, Hf2, Hf1; apply (Hnew _ BeforeName)|done].
  apply write_inv in H5 as (Hd5 & Hf5 & Hn5 & Hdirs5); [|done|apply clean_app; split;
    [eapply clean_le, clean_blobs; lia|apply (clean_name _ _ AfterName); lia]].
  apply write_inv in H6 as (Hd6 & Hf6 & Hn6 & Hdirs6); [|done|apply clean_app; split;
    [eapply clean_le, clean_entries; lia|apply (clean_name _ _ JsonName); lia]].
  set (pb := blobs_dir base session ++ [name (drawn d) BeforeName]) in *.
  set (pa := blobs_dir base session ++ [name (drawn d) AfterName]).
  set (token := entries ++ [name (drawn d) JsonName]).
  change (files d5 = <[pa := after]> (files d4)) in Hf5.
  change (files d6 = <[token := encode_manifest m]> (files d5)) in Hf6.
  rewrite Hf3, Hf2, Hf1 in Hk4, Hnew4.
  destruct (fresh_files d (files d4) after (encode_manifest m) Hd Hnew4) as (Hk5 & Hk6 & Hnew5).
  fold pb pa token in Hk5, Hk6, Hnew5. rewrite <- Hf5 in Hk5, Hk6, Hnew5. rewrite <- Hf6 in Hk6.
  apply before_image_ok in Hbefore as [-> Htarget]; [|apply Hd].
  apply next_sequence_above in Hseq as (_ & Hpos & Hmax).
  exists m, target. split; [done|]. split; [|done]. split; try done.
  - split_and!; [by destruct entries|apply parent_snoc|apply (Hnew entries JsonName)|].
    apply (new_name_absent d entries JsonName Hd).
  - rewrite Hf6. apply lookup_insert_eq.
  - by rewrite Hk4, Hk5.
  - intros p. rewrite Hf6. intros [Hs|Hs]%inserted; [|tauto]. apply Hnew5 in Hs.
    destruct Hs as [Hs|[->| ->]]; [tauto|right; right; by eexists..].
  - intros q Hq. apply Hdirs6 in Hq. fold token in Hq. unfold token in Hq. rewrite parent_snoc in Hq.
    rewrite Hdirs5, parent_snoc in Hq. destruct Hq as [[Hq|Hq]|Hq]; [|tauto..].
    apply Hdirs4 in Hq. rewrite Hdirs3, Hdirs2, Hdirs1 in Hq. tauto.
  - eapply grows_content, Hb. by rewrite Hk5.
  - eapply lookup_weaken, Hk6. rewrite Hf5. apply lookup_insert_eq.
  - split; [by eexists|]. intros b Hbm. apply Hbb in Hbm as ->. by eexists.
  - split; [done|]. intros p m' [Hc Hp]. destruct (Hmax p) as (m2 & Hm2 & Hlt).
    + destruct Hc as (? & ? & _). split_and!; [done..|]. left. exists (encode_manifest m').
      eapply lookup_weaken; [done|]. by rewrite Hk4.
    + unfold read_manifest, read_file in Hm2. rewrite (lookup_weaken _ (files d5) _ _ Hp) in Hm2.
      * simpl in Hm2. rewrite manifest_codec in Hm2. by injection Hm2 as <-.
      * by rewrite Hk4.
Qed.
(** ** Write and commit *)

(** An executor that writes what it is told to. *)
Definition faithful (write : path → string → io unit) : Prop :=
  ∀ t c d d', alive d → clean (drawn d) t → write t c d = (d', Ok tt) →
    alive d' ∧ files d' = <[t := c]> (files d) ∧ ∀ q, q ∈ dirs d' → q ∈ dirs d ∨ q ∈ ancestors (parent t).

Lemma atomic_faithful : faithful write_file_atomic.
Proof using.
  intros t c d d' Hd Hc H. apply write_inv in H as (? & ? & _ & Hq); [|done..].
  split_and!; [done..|]. intros q. by rewrite Hq.
Qed.

Lemma entries_clean d p x : alive d → files d !! p = Some x → clean (drawn d) p.
Proof using. intros (_ & _ & Hu) Hp. apply Hu. left. by rewrite Hp. Qed.

Lemma commit_ok d token m target d' :
  alive d → files d !! token = Some (encode_manifest m) → parent token = entries →
  resolve (mf_workspace m) (mf_relative_path m) = Ok target →
  commit_mutation token d = (d', Ok tt) →
  alive d' ∧ files d' = <[token := encode_manifest (with_state m Applied)]> (files d) ∧
  (∀ q, q ∈ dirs d' → q ∈ dirs d ∨ q ∈ ancestors entries) ∧
  files d !! target = files d !! mf_after_blob m.
Proof using HLaws.
  intros Hd Htok Hpar Hr H. unfold commit_mutation in H.
  apply ebind_ok in H as (? & ? & [= <- <-] & H). apply ebind_ok in H as (m' & ? & [= <- Hm] & H).
  assert (m' = m) as ->.
  { unfold read_manifest, read_file in Hm. rewrite Htok in Hm. simpl in Hm.
    rewrite manifest_codec in Hm. by injection Hm. }
  apply ebind_ok in H as ([] & ? & [= <- _] & H). apply ebind_ok in H as (t & ? & [= <- Ht] & H).
  rewrite Hr in Ht. injection Ht as <-.
  apply ebind_ok in H as (current & ? & [= <- Hc] & H). apply ebind_ok in H as (expected & ? & [= <- He] & H).
  apply ebind_ok in H as ([] & ? & [= <- Heq] & H).
  apply write_inv in H as (Hd' & Hf & _ & Hdirs); [|done|by eapply entries_clean].
  split_and!; [done..| |].
  - intros q Hq. apply Hdirs in Hq. by rewrite Hpar in Hq.
  - unfold read_file in Hc, He. rewrite ok_or_ok in Hc, He. rewrite Hc, He.
    apply bail_ok in Heq as [Heq _]. f_equal. by apply negb_false_iff, bool_decide_eq_true in Heq.
Qed.
(** What an edit leaves. *)
Record edited (d d' : disk) (token : path) (m : Manifest) (target : path) (content : string) : Prop := {
  ed_alive : alive d';
  ed_token : token ≠ [] ∧ parent token = entries ∧ files d !! token = None ∧ token ∉ dirs d;
  ed_manifest : files d' !! token = Some (encode_manifest (with_state m Applied));
  ed_target : files d' !! target = Some content;
  ed_inside : ∀ p c, inside p → files d !! p = Some c → files d' !! p = Some c;
  ed_outside : ∀ p, ¬ inside p → p ≠ target → files d' !! p = files d !! p;
  ed_entries : ∀ p, is_Some (files d' !! p) → parent p = entries → is_Some (files d !! p) ∨ p = token ∨ p = target;
  ed_dirs : ∀ q, q ∈ dirs d' → q ∈ dirs d ∨ q ∈ ancestors entries ∨ q ∈ ancestors (blobs_dir base session) ∨
    q ∈ ancestors (parent target);
  ed_marker : files d' !! marker = files d !! marker;
  ed_before : before_content d' m = Ok (files d !! target);
  ed_after : files d' !! mf_after_blob m = Some content;
  ed_blobs : is_blob (mf_after_blob m) ∧ ∀ b, mf_before_blob m = Some b → is_blob b;
  ed_sequence : (0 < mf_sequence m)%Z ∧ ∀ p m', entry d p m' → (mf_sequence m' < mf_sequence m)%Z;
}.

(** The marker is no entry and no blob. *)
Lemma marker_apart : parent marker ≠ entries ∧ ¬ is_blob marker.
Proof using.
  split; [unfold marker_path; rewrite parent_snoc; intros He|intros [x He]]; apply (f_equal length) in He;
    unfold entries_dir, blobs_dir, marker_path in He; rewrite !length_app in He; simpl in He; lia.
Qed.

Lemma token_inside p : p ≠ [] → parent p = entries → inside p.
Proof using.
  intros Hp He. destruct (snoc_parent p Hp) as [x Hx]. exists ["entries"; x].
  rewrite Hx, He. unfold entries_dir. by rewrite <- app_assoc.
Qed.

Lemma edit_ok write d turn call workspace relative target content d' :
  faithful write → journal_ok d → left d = None → resolve workspace relative = Ok target →
  target ≠ [] → clean 0 target → ¬ inside target →
  journaled_write base write session turn call workspace relative content d = (d', Ok tt) →
  ∃ token m, edited d d' token m target content ∧
    mf_workspace m = workspace ∧ mf_relative_path m = relative ∧ mf_turn_id m = turn.
Proof using HLaws Hclean.
  intros Hw Hok Hl Hr Hne Hc Hout H. unfold journaled_write in H.
  apply ebind_ok in H as (token & d1 & H1 & H).
  apply prepare_ok in H1 as (m & target' & Hr' & Hp & Hmw & Hmr & Hmt); [|done..].
  rewrite Hr in Hr'. injection Hr' as <-.
  apply ebind_ok in H as (t & ? & [= <- Ht] & H). rewrite Hr in Ht. injection Ht as <-.
  apply ebind_ok in H as ([] & d2 & H2 & H3).
  apply Hw in H2 as (Hd2 & Hf2 & Hdirs2); [|by apply Hp|by eapply clean_le, Hc; lia].
  destruct (pr_token _ _ _ _ _ _ Hp) as (Hte & Htp & Htn & Htd).
  assert (Htin : inside token) by by apply token_inside.
  assert (Htt : target ≠ token) by congruence.
  apply (commit_ok d2 token m target) in H3 as (Hd3 & Hf3 & Hdirs3 & Heq);
    [|done|by rewrite Hf2, lookup_insert_ne by done; apply Hp|done|by rewrite Hmw, Hmr].
  assert (Hin : ∀ p c, inside p → p ≠ token → files d1 !! p = Some c → files d' !! p = Some c).
  { intros p c Hpi Hpt Hpc. rewrite Hf3, Hf2, !lookup_insert_ne by congruence. done. }
  assert (Hblob : ∀ p, is_blob p → p ≠ token).
  { intros p Hb ->. by apply blob_entry in Hb. }
  exists token, m. split; [|done]. split; try done.
  - rewrite Hf3. apply lookup_insert_eq.
  - rewrite Hf3, Hf2, lookup_insert_ne, lookup_insert_eq by done. done.
  - intros p c Hpi Hpc. apply Hin; [done|congruence|]. eapply lookup_weaken; [done|]. apply Hp.
  - intros p Hpo Hpt. rewrite Hf3, Hf2, !lookup_insert_ne by congruence. apply option_eq.
    intros c. split; [|intros; eapply lookup_weaken; [done|apply Hp]]. intros Hpc.
    destruct (pr_files _ _ _ _ _ _ Hp p) as [[c' Hs]|[Hs|Hs]]; [by eexists| | |].
    + pose proof (lookup_weaken _ _ _ _ Hs (pr_keeps _ _ _ _ _ _ Hp)). congruence.
    + by subst.
    + by apply blob_inside in Hs.
  - intros p. rewrite Hf3, Hf2. intros [[Hs|Hs]%inserted|Hs]%inserted Hpar; [|tauto..].
    destruct (pr_files _ _ _ _ _ _ Hp p Hs) as [?|[?|Hb]]; [tauto..|]. by apply blob_entry in Hb.
  - intros q Hq. apply Hdirs3 in Hq as [Hq|Hq]; [|tauto]. apply Hdirs2 in Hq as [Hq|Hq]; [|tauto].
    apply (pr_dirs _ _ _ _ _ _ Hp) in Hq. tauto.
  - assert (Hmi : inside marker) by by exists ["rollback.json"].
    destruct marker_apart as [Hme Hmb]. assert (marker ≠ token) by congruence.
    rewrite Hf3, Hf2, !lookup_insert_ne by congruence. rewrite (jo_marker _ Hok).
    apply eq_None_not_Some. intros Hs. destruct (pr_files _ _ _ _ _ _ Hp _ Hs) as [[? Hs']|[?|?]];
      [by rewrite (jo_marker _ Hok) in Hs'|done|done].
  - pose proof (pr_before _ _ _ _ _ _ Hp) as Hb. unfold before_content, read_file in *.
    destruct (mf_before_blob m) as [b|] eqn:Hbm; [|done].
    pose proof (proj2 (pr_blobs _ _ _ _ _ _ Hp) _ Hbm) as Hbb.
    destruct (files d1 !! b) as [c|] eqn:Hbc; [|done].
    by rewrite (Hin _ _ (blob_inside _ _ _ Hbb) (Hblob _ Hbb) Hbc).
  - pose proof (proj1 (pr_blobs _ _ _ _ _ _ Hp)) as Hb.
    apply Hin; [by apply blob_inside|by apply Hblob|by apply Hp].
  - apply Hp.
  - apply Hp.
Qed.
Lemma ancestors_length q p : q ∈ ancestors p → length q ≤ length p.
Proof using. intros [r ->]%elem_of_ancestors. rewrite length_app. lia. Qed.

Lemma ancestors_same q p : q ∈ ancestors p → length q = length p → q = p.
Proof using.
  intros [r ->]%elem_of_ancestors. rewrite length_app. destruct r; simpl; [by rewrite app_nil_r|lia].
Qed.

Lemma above_inside q p : inside q → q ∈ ancestors (parent p) → inside p.
Proof using.
  intros [r ->] [r' Hp]%elem_of_ancestors. exists (r ++ r' ++ drop (length p - 1) p).
  rewrite !app_assoc, <- (app_assoc _ r). rewrite app_assoc, <- Hp. unfold parent. by rewrite take_drop.
Qed.

(** ** A turn of edits *)

Section edited.
Context (d d' : disk) (token : path) (m : Manifest) (target : path) (content : string).
Context (Hok : journal_ok d) (He : edited d d' token m target content) (Hout : ¬ inside target).

Lemma edited_child p : child d' p → child d p ∨ p = token.
Proof using Hok He Hout.
  intros (Hp & Hpar & Hs). assert (inside p) as Hpi by by apply token_inside.
  destruct Hs as [Hs|Hs].
  - destruct (ed_entries _ _ _ _ _ _ He p Hs Hpar) as [?|[?|?]]; [left|by right|by subst].
    split_and!; [done..|by left].
  - destruct (snoc_parent p Hp) as [x Hx]. rewrite Hpar in Hx.
    apply (ed_dirs _ _ _ _ _ _ He) in Hs as [Hs|[Hs|[Hs|Hs]]].
    + left. split_and!; [done..|by right].
    + apply ancestors_length in Hs. rewrite Hx in Hs. unfold entries_dir in Hs.
      rewrite !length_app in Hs. simpl in Hs. lia.
    + apply ancestors_length in Hs. rewrite Hx in Hs. unfold entries_dir, blobs_dir in Hs.
      rewrite !length_app in Hs. simpl in Hs. lia.
    + destruct Hout. by eapply above_inside.
Qed.

Lemma edited_entry p m' : entry d' p m' ↔ entry d p m' ∨ (p = token ∧ m' = with_state m Applied).
Proof using HLaws Hok He Hout.
  pose proof (ed_token _ _ _ _ _ _ He) as (Hne & Hpar & Hnone & Hnd). split.
  - intros [Hc Hf]. destruct (edited_child p Hc) as [Hc'| ->].
    + left. split; [done|]. destruct (jo_entries _ Hok p Hc') as (m2 & [_ Hm2] & _).
      pose proof (ed_inside _ _ _ _ _ _ He p _ (child_inside _ _ Hc) Hm2). congruence.
    + right. split; [done|]. rewrite (ed_manifest _ _ _ _ _ _ He) in Hf. injection Hf as Hf.
      apply (f_equal decode_manifest) in Hf. rewrite !manifest_codec in Hf. by injection Hf.
  - intros [[Hc Hf]|[-> ->]].
    + pose proof (ed_inside _ _ _ _ _ _ He p _ (child_inside _ _ Hc) Hf) as Hf'.
      destruct Hc as (? & ? & _). split; [|done]. split_and!; [done..|by left].
    + pose proof (ed_manifest _ _ _ _ _ _ He). split; [|done]. split_and!; [done..|by left].
Qed.

Lemma edited_journal : journal_ok d'.
Proof using HLaws Hok He Hout.
  pose proof (ed_sequence _ _ _ _ _ _ He) as [Hpos Hlt]. split.
  - apply (ed_alive _ _ _ _ _ _ He).
  - rewrite (ed_marker _ _ _ _ _ _ He). exact (jo_marker _ Hok).
  - intros Hd. apply (ed_dirs _ _ _ _ _ _ He) in Hd as [Hd|[Hd|[Hd|Hd]]].
    + by apply (jo_marker_dir _ Hok).
    + apply ancestors_same in Hd; [by apply app_inj_tail in Hd as [_ ?]|].
      unfold entries_dir, marker_path. by rewrite !length_app.
    + apply ancestors_same in Hd; [by apply app_inj_tail in Hd as [_ ?]|].
      unfold blobs_dir, marker_path. by rewrite !length_app.
    + destruct Hout. eapply above_inside; [|done]. by exists ["rollback.json"].
  - intros p Hc. destruct (edited_child p Hc) as [Hc'| ->].
    + destruct (jo_entries _ Hok p Hc') as (m' & Hm & Hs). exists m'. split; [|done].
      apply edited_entry. by left.
    + exists (with_state m Applied). split; [|done]. apply edited_entry. by right.
  - intros p m' [Hm|[-> ->]]%edited_entry; [by eapply (jo_numbers _ Hok)|done].
  - intros p m1 p' m2 [Hm1|[-> ->]]%edited_entry [Hm2|[-> ->]]%edited_entry Hs.
    + by eapply (jo_sequence _ Hok).
    + apply Hlt in Hm1. simpl in Hs. lia.
    + apply Hlt in Hm2. simpl in Hs. lia.
    + done.
Qed.
Lemma edited_turn w turn ms :
  resolve (mf_workspace m) (mf_relative_path m) = Ok target → target ≠ [] → clean 0 target →
  mf_turn_id m = turn →
  turn_ok d w turn ms → turn_ok d' w turn (ms ++ [(token, with_state m Applied)]).
Proof using HLaws Hok He Hout.
  intros Hr Hne Hc Hturn Ht.
  pose proof (ed_sequence _ _ _ _ _ _ He) as [_ Hlt]. pose proof (ed_blobs _ _ _ _ _ _ He) as [Hba Hbb].
  assert (owned (with_state m Applied) target) as Hown.
  { by split. }
  assert (∀ pm, pm ∈ ms → entry d pm.1 pm.2) as Hms.
  { intros [p m'] Hpm. by apply (tu_ms _ _ _ Ht) in Hpm as [? _]. }
  split; [split|..].
  - intros p m'. rewrite elem_of_app, list_elem_of_singleton, edited_entry, (tu_ms _ _ _ Ht).
    split; [|naive_solver]. intros [?|[= -> ->]]; [tauto|]. split; [by right|done].
  - apply StronglySorted_app. split_and!; [|apply (tu_sorted _ _ _ Ht)|repeat constructor].
    intros [p m1] x Hpm Hx%list_elem_of_singleton. subst x. apply Hms in Hpm. by eapply Hlt.
  - intros p m' pm [Hm'|[-> ->]]%edited_entry Ha Hn Hpm; [|done].
    apply elem_of_app in Hpm as [Hpm|Hpm%list_elem_of_singleton]; [by eapply (tu_latest _ _ _ Ht)|].
    subst pm. by eapply Hlt, Hm'.
  - destruct (tu_undo _ _ _ _ Ht) as (v & Hv & Hseen). rewrite reverse_snoc. simpl.
    assert (preflight_one d' false (with_state m Applied) ∅ = Ok (<[target := files d !! target]> ∅)) as ->.
    { apply preflight_one_ok, (reverses_intro _ _ _ _ _ target content (files d !! target)); try done.
      - apply (ed_after _ _ _ _ _ _ He).
      - apply (ed_before _ _ _ _ _ _ He).
      - left. apply (ed_target _ _ _ _ _ _ He). }
    simpl. destruct (preflight_ext base session d d' false (reverse ms).*2 ∅ v
      (<[target := files d !! target]> ∅)) as (v' & Hv' & Hs); try done.
    + intros p c. apply He.
    + apply Forall_fmap, Forall_reverse. eapply Forall_impl; [apply Ht|]. intros pm (t & Ho & _). by exists t.
    + intros p Hp. rewrite seen_insert. unfold seen. rewrite !lookup_empty. case_decide as Hpt; [by subst|].
      symmetry. by apply He.
    + exists v'. split; [done|]. intros p Hp. rewrite <- Hs by done. by apply Hseen.
  - apply Forall_app. split; [|constructor; [|constructor]].
    + eapply Forall_impl; [apply Ht|]. intros pm (t & Ho & Hs). exists t. split; [done|].
      destruct (decide (t = target)) as [->|Hpt]; [by rewrite (ed_target _ _ _ _ _ _ He); eexists|].
      rewrite (ed_outside _ _ _ _ _ _ He); [done|apply Ho|done].
    + exists target. split; [done|]. rewrite (ed_target _ _ _ _ _ _ He). by eexists.
Qed.
End edited.

(** The edits of a turn: the call, the workspace, the file and its content. *)
Record edit := { e_call : string; e_workspace : path; e_relative : string; e_content : string }.

Definition run_edits (write : path → string → io unit) (turn : string) (es : list edit) : io unit :=
  efor es (λ e, journaled_write base write session turn (e_call e) (e_workspace e) (e_relative e) (e_content e)).

(** An edit outside the directory of the session. *)
Definition outside (e : edit) : Prop :=
  ∃ t, resolve (e_workspace e) (e_relative e) = Ok t ∧ t ≠ [] ∧ clean 0 t ∧ ¬ inside t.

Lemma edits_ok write turn w es d d' ms :
  faithful write → Forall outside es → journal_ok d → left d = None → turn_ok d w turn ms →
  run_edits write turn es d = (d', Ok tt) →
  journal_ok d' ∧ left d' = None ∧ ∃ ms', turn_ok d' w turn (ms ++ ms') ∧
    (λ pm, (mf_workspace pm.2, mf_relative_path pm.2)) <$> ms' = (λ e, (e_workspace e, e_relative e)) <$> es.
Proof using HLaws Hclean.
  intros Hw Hes. revert d ms. induction Hes as [|e es (t & Hr & Hne & Hc & Ho) _ IH];
    intros d ms Hok Hl Ht H; simpl in H.
  - injection H as <-. split; [done|]. split; [done|]. exists []. by rewrite app_nil_r.
  - apply ebind_ok in H as ([] & d1 & H1 & H).
    apply (edit_ok _ _ _ _ _ _ t) in H1 as (token & m & He & Hmw & Hmr & Hmt); try done.
    eapply (edited_turn _ _ _ _ _ _ Hok He Ho w turn ms) in Ht; [|by rewrite Hmw, Hmr|done..].
    destruct (IH _ _ (edited_journal _ _ _ _ _ _ Hok He Ho) (proj1 (ed_alive _ _ _ _ _ _ He)) Ht H)
      as (Hok' & Hl' & ms' & Ht' & Hrel).
    split; [done|]. split; [done|]. exists ((token, with_state m Applied) :: ms'). rewrite <- app_assoc in Ht'.
    split; [done|]. rewrite !fmap_cons, Hrel. simpl. by rewrite Hmw, Hmr.
Qed.

Lemma turn_begins d turn :
  (∀ p m, entry d p m → mf_state m = Applied → mf_turn_id m ≠ turn) →
  turn_ok d (λ p, files d !! p) turn [].
Proof using.
  intros Hn. split; [split; [|constructor|by intros ? ? ? _ _ _ ?%not_elem_of_nil]| |constructor].
  - intros p m. split; [by intros ?%not_elem_of_nil|]. intros (He & Ha & Ht). by destruct (Hn p m).
  - exists ∅. split; [done|]. intros p _. unfold seen. by rewrite lookup_empty.
Qed.

(** ** Rolling back *)

Lemma marker_nonempty : marker ≠ [].
Proof using. unfold marker_path. by destruct (session_dir base session). Qed.

Lemma marker_place d w turn ms : journal_ok d → turn_ok d w turn ms → ms ≠ [] → place d marker.
Proof using.
  intros Hok Ht Hne. split_and!; [apply marker_nonempty|apply (jo_marker_dir _ Hok)|].
  destruct ms as [|[p m] ms]; [done|].
  assert (entry d p m) as ((Hp & Hpar & _) & Hfp) by by apply (tu_ms _ _ _ Ht); left.
  intros q Hq. apply ancestors_parent in Hq; [|apply marker_nonempty].
  unfold marker_path in Hq. rewrite parent_snoc in Hq. apply elem_of_ancestors in Hq as [r Hq].
  eapply (to_dirs _ (proj1 (jo_running _ Hok))); [exact Hfp|]. apply ancestors_parent; [done|].
  rewrite Hpar. apply elem_of_ancestors. exists (r ++ ["entries"]). unfold entries_dir.
  by rewrite Hq, app_assoc.
Qed.

Lemma entry_not_marker p : parent p = entries → p ≠ marker.
Proof using.
  intros Hp ->. unfold marker_path in Hp. rewrite parent_snoc in Hp. unfold entries_dir in Hp.
  apply (f_equal length) in Hp. rewrite length_app in Hp. simpl in Hp. lia.
Qed.

Lemma turn_owned d w turn ms : turn_ok d w turn ms → Forall (λ m, ∃ t, owned m t) (reverse ms).*2.
Proof using.
  intros Ht. apply Forall_fmap, Forall_reverse. eapply Forall_impl; [apply (tu_owned _ _ _ _ Ht)|].
  intros pm (t & Ho & _). by exists t.
Qed.

(** A rollback of the latest turn is a restoration under its marker. *)
Lemma rollback_starts d w turn ms :
  journal_ok d → turn_ok d w turn ms → ms ≠ [] →
  rollback_latest_turn base session turn d =
    (perform write_file_atomic marker (encode_marker ms.*1);;
     perform restore_all base session ms;;
     eret (turn, (λ pm, mf_relative_path pm.2) <$> ms)) d.
Proof using HLaws.
  intros Hok Ht Hne. destruct (latest_is_turn _ _ _ Hok Ht Hne) as (act & Hact & Hlat).
  destruct (tu_undo _ _ _ _ Ht) as (v & Hv & _).
  unfold rollback_latest_turn. unfold ebind at 1. rewrite (recover_nothing _ (jo_marker _ Hok)).
  unfold ebind at 1. rewrite Hact. unfold ebind at 1, eres. rewrite Hlat. simpl.
  unfold ebind at 1. rewrite bool_decide_eq_true_2 by done. simpl. unfold ebind at 1, get, eget.
  unfold ebind at 1, preflight_reverse. by rewrite <- fmap_reverse, Hv.
Qed.

Lemma rollback_ok d w turn ms :
  journal_ok d → left d = None → turn_ok d w turn ms → ms ≠ [] →
  ∃ d', rollback_latest_turn base session turn d =
      (d', Ok (turn, (λ pm, mf_relative_path pm.2) <$> ms)) ∧
    files d' !! marker = None ∧ ∀ p, ¬ inside p → files d' !! p = w p.
Proof using HLaws Hclean.
  intros Hok Hl Ht Hne. rewrite (rollback_starts _ _ _ _ Hok Ht Hne).
  destruct (tu_undo _ _ _ _ Ht) as (v & Hv & Hseen). destruct (jo_running _ Hok) as [Htree Hu].
  assert (∀ pm, pm ∈ ms → entry d pm.1 pm.2) as Hms.
  { intros [p m'] Hpm. by apply (tu_ms _ _ _ Ht) in Hpm as [? _]. }
  destruct (write_place d marker (encode_marker ms.*1)) as (d1 & Hw & Hf); [done..| | |].
  { eapply clean_le, Hclean. lia. }
  { by eapply marker_place. }
  assert (∀ p, p ≠ marker → files d1 !! p = files d !! p) as Hsame.
  { intros p Hp. rewrite (fo_files _ _ _ Hf). by rewrite lookup_insert_ne. }
  assert (inside marker) as Hmi by by exists ["rollback.json"].
  destruct (preflight_ext base session d d1 false (reverse ms).*2 ∅ v ∅) as (v' & Hv' & Hs); try done.
  { intros p c _ Hp. rewrite Hsame; [done|]. intros ->. rewrite (jo_marker _ Hok) in Hp. done. }
  { by eapply turn_owned. }
  { intros p Hp. unfold seen. rewrite !lookup_empty. symmetry. apply Hsame. by intros ->. }
  destruct (restore_all_seen base session false ms v' d1) as (d' & Hrun & Hmark & Hout).
  - by eapply follows_alive.
  - rewrite (fo_files _ _ _ Hf), lookup_insert_eq. by eexists.
  - intros (pm & Hpm & Hin)%list_elem_of_fmap. destruct (Hms pm Hin) as ((_ & Hpar & _) & _).
    symmetry in Hpm. by apply entry_not_marker in Hpar.
  - apply Forall_forall. intros pm Hin. destruct (Hms pm Hin) as (Hc & Hfp).
    pose proof Hc as (Hp & Hpar & _). split; [done|]. split; [by eapply child_inside|].
    split; [rewrite Hsame, Hfp by (by apply entry_not_marker); by eexists|].
    destruct (proj1 (Forall_forall _ _) (tu_owned _ _ _ _ Ht) pm Hin) as (t & Ho & [c Hs']).
    exists t. split; [done|]. eapply place_of_file; [apply Hf|apply Ho|].
    rewrite Hsame; [done|]. intros ->. by apply (ow_outside _ _ _ _ Ho).
  - done.
  - exists d'. split; [|split; [done|]; intros p Hp; rewrite Hout, <- Hs, Hseen; done].
    unfold ebind. by rewrite Hw, Hrun.
Qed.
(** ** A workspace that someone else changed *)

(** The preflight conflicts on a file that is not as the turn left it. *)
Lemma preflight_diverged d d2 rms v v2 v' t :
  journal_grows base session d d2 → Forall (λ m, ∃ t', owned m t') rms →
  (∀ p, ¬ inside p → p ≠ t → seen d v p = seen d2 v2 p) → seen d v t ≠ seen d2 v2 t →
  (∃ m, m ∈ rms ∧ resolve (mf_workspace m) (mf_relative_path m) = Ok t) →
  preflight d false rms v = Ok v' → preflight d2 false rms v2 = Err Conflict.
Proof using.
  intros Hg Hms. revert v v2. induction Hms as [|m rms [t' Ho] _ IH]; intros v v2 Hs Hne (m0 & Hm0 & Hr0) H.
  { by apply not_elem_of_nil in Hm0. }
  simpl in *. apply res_bind_ok in H as (v1 & Hv & H). apply preflight_one_ok in Hv as [t1 a b Hr Ha Hb Hc ->].
  pose proof (ow_target _ _ _ _ Ho) as Ht. rewrite Hr in Ht. injection Ht as ->.
  assert (files d2 !! mf_after_blob m = Some a) as Ha2.
  { apply Hg; [|done]. eapply blob_inside, ow_after, Ho. }
  pose proof (before_content_grows _ _ _ _ _ _ _ Ho Hg Hb) as Hb2.
  destruct Hc as [Hc|[? _]]; [|done]. destruct (decide (t' = t)) as [->|Htt].
  - assert (preflight_one d2 false m v2 = Err Conflict) as ->; [|done].
    unfold preflight_one. rewrite Hr. simpl. unfold read_file. rewrite Ha2. simpl. rewrite Hb2. simpl.
    rewrite bool_decide_eq_false_2; [done|]. congruence.
  - assert (preflight_one d2 false m v2 = Ok (<[t' := b]> v2)) as ->.
    { apply preflight_one_ok, (reverses_intro _ _ _ _ _ t' a b); try done. left.
      rewrite <- Hs; [done|apply Ho|done]. }
    simpl. apply (IH (<[t' := b]> v)); [| | |done].
    + intros p Hp Hpt. rewrite !seen_insert. case_decide; auto.
    + by rewrite !seen_insert, !decide_False.
    + exists m0. apply elem_of_cons in Hm0 as [->|Hm0]; [|done]. congruence.
Qed.

Section changed.
Context (d : disk) (t : path) (c : option string) (Hout : ¬ inside t) (Hfile : is_Some (files d !! t)).

(** The disk where someone changed or removed one file. *)
Definition changed : disk := set_files d (partial_alter (λ _, c) t (files d)).

Lemma changed_same p : p ≠ t → files changed !! p = files d !! p.
Proof using. intros Hp. simpl. by rewrite lookup_partial_alter_ne. Qed.

Lemma changed_inside p : inside p → files changed !! p = files d !! p.
Proof using Hout. intros Hp. apply changed_same. by intros ->. Qed.

Lemma changed_some p : is_Some (files changed !! p) → is_Some (files d !! p).
Proof using Hfile.
  intros Hp. destruct (decide (p = t)) as [->|Hpt]; [done|by rewrite <- changed_same].
Qed.

Lemma changed_child p : child changed p ↔ child d p.
Proof using Hout.
  unfold child. split; intros (Hp & Hpar & Hs); pose proof (token_inside p Hp Hpar) as Hpi;
    rewrite changed_inside in * by done; done.
Qed.

Lemma changed_entry p m : entry changed p m ↔ entry d p m.
Proof using Hout.
  unfold entry. rewrite changed_child. split; intros [Hc Hf]; split; try done;
    rewrite changed_inside in * by (by eapply child_inside); done.
Qed.

Lemma changed_journal : journal_ok d → journal_ok changed.
Proof using Hout Hfile.
  intros Hok. destruct (jo_running _ Hok) as [[Htd Htf] Hu]. split; [split; [split|]|..].
  - intros p c' q Hp. destruct (changed_some p) as [c1 Hc1]; [by rewrite Hp|]. by eapply Htd.
  - intros p Hp. apply eq_None_not_Some. intros Hs%changed_some. rewrite Htf in Hs by done. by destruct Hs.
  - intros p [Hp|Hp]; apply Hu; [left; by apply changed_some|by right].
  - rewrite changed_inside by (by exists ["rollback.json"]). apply (jo_marker _ Hok).
  - apply (jo_marker_dir _ Hok).
  - intros p Hp%changed_child. destruct (jo_entries _ Hok p Hp) as (m & Hm & ?). exists m. by rewrite changed_entry.
  - intros p m. rewrite changed_entry. apply (jo_numbers _ Hok).
  - intros p m p' m'. rewrite !changed_entry. apply (jo_sequence _ Hok).
Qed.

Lemma changed_last turn ms : turn_last d turn ms → turn_last changed turn ms.
Proof using Hout.
  intros Hl. split; [intros p m; rewrite changed_entry; apply Hl|apply Hl|].
  intros p m pm. rewrite changed_entry. apply Hl.
Qed.
End changed.

Lemma rollback_refused d w turn ms t c :
  journal_ok d → turn_ok d w turn ms →
  (∃ pm, pm ∈ ms ∧ resolve (mf_workspace pm.2) (mf_relative_path pm.2) = Ok t) → files d !! t ≠ c →
  rollback_latest_turn base session turn (changed d t c) = (changed d t c, Err Conflict).
Proof using HLaws.
  intros Hok Ht (pm & Hpm & Hr) Hne.
  destruct (proj1 (Forall_forall _ _) (tu_owned _ _ _ _ Ht) pm Hpm) as (t' & Ho & Hfile).
  pose proof (ow_target _ _ _ _ Ho) as Hr'. rewrite Hr in Hr'. injection Hr' as <-.
  pose proof (ow_outside _ _ _ _ Ho) as Hout.
  pose proof (changed_journal d t c Hout Hfile Hok) as Hok2.
  assert (ms ≠ []) as Hms by by intros ->; apply not_elem_of_nil in Hpm.
  destruct (latest_is_turn _ _ _ Hok2 (changed_last d t c Hout _ _ Ht) Hms) as (act & Hact & Hlat).
  destruct (tu_undo _ _ _ _ Ht) as (v & Hv & _).
  unfold rollback_latest_turn. unfold ebind at 1. rewrite (recover_nothing _ (jo_marker _ Hok2)).
  unfold ebind at 1. rewrite Hact. unfold ebind at 1, eres. rewrite Hlat. simpl.
  unfold ebind at 1. rewrite bool_decide_eq_true_2 by done. simpl. unfold ebind at 1, get, eget.
  unfold ebind at 1, preflight_reverse. rewrite <- fmap_reverse.
  assert (preflight (changed d t c) false (reverse ms).*2 ∅ = Err Conflict) as ->; [|done].
  eapply (preflight_diverged d (changed d t c) _ ∅ ∅ v t); [| | | | |done].
  - intros p c' Hp. by rewrite changed_inside.
  - by eapply turn_owned.
  - intros p _ Hp. unfold seen. rewrite !lookup_empty. by rewrite changed_same.
  - unfold seen. rewrite !lookup_empty. simpl. by rewrite lookup_partial_alter_eq.
  - exists pm.2. split; [|done]. apply list_elem_of_fmap_2. by apply elem_of_reverse.
Qed.
End run.
