(* ===== verification/JournalCrash.v ===== *)
(** The workspace journal when the process dies: a rollback that is cut short after any
    change of the file system, and the recovery that completes it. *)

From S2P Require Import Prelude Effects WorkspaceJournal JournalFacts JournalRun.
From stdpp Require Import base tactics gmap strings list sorting.
From Stdlib Require Import ZArith Ascii Lia.

Section crash.
Context `{HOs : Os} `{HSerde : Serde} `{HLaws : !JournalLaws} (base : path) (session : string).

Notation marker := (marker_path base session).
Notation inside := (inside base session).
Notation owned := (owned base session).

(** The disk of a process that dies after [n] changes, and of the next process. *)
Definition dying (n : nat) (d : disk) : disk :=
  {| files := files d; dirs := dirs d; drawn := drawn d; left := Some n |}.
Definition restarted (d : disk) : disk :=
  {| files := files d; dirs := dirs d; drawn := drawn d; left := None |}.

Lemma running_restarted d : running d → running (restarted d).
Proof using. intros [[Hd Hf] Hu]. split; [split; [exact Hd|exact Hf]|exact Hu]. Qed.

Lemma running_dying n d : running d → running (dying n d).
Proof using. intros [[Hd Hf] Hu]. split; [split; [exact Hd|exact Hf]|exact Hu]. Qed.

(** * Operations that die *)

(** The disk runs on, with the same directories and more names in use. *)
Definition onward (d d' : disk) : Prop :=
  running d' ∧ dirs d' = dirs d ∧ drawn d ≤ drawn d'.

(** What an operation with a result leaves of the files that existed before it: all of
    its change, or nothing. *)
Definition all_or_nothing (d d' : disk) (r : res unit JournalError) (fs : gmap path string) : Prop :=
  (r = Ok tt ∧ ∀ q, clean (drawn d) q → files d' !! q = fs !! q) ∨
  (r = Err Crashed ∧ ∀ q, clean (drawn d) q → files d' !! q = files d !! q).

Lemma change_cases f d d' r :
  change f d = (d', r) →
  (r = Ok tt ∧ files d' = files (f d) ∧ dirs d' = dirs (f d) ∧ drawn d' = drawn (f d)) ∨
  (r = Err Crashed ∧ d' = d).
Proof using. unfold change. destruct (left d) as [[|n]|]; intros [= <- <-]; naive_solver. Qed.

Lemma running_files d d' :
  running d → dirs d' = dirs d → drawn d ≤ drawn d' →
  (∀ p, is_Some (files d' !! p) →
    is_Some (files d !! p) ∨ place d p ∧ clean (drawn d') p) → running d'.
Proof using.
  intros [[Htd Htf] Hu] Hd Hn Hp. split; [split|].
  - intros p c q Hc Hq. rewrite Hd. destruct (Hp p) as [[c' Hs]|[(_ & _ & Hs) _]]; [by eexists|by eapply Htd|by apply Hs].
  - intros p Hin. rewrite Hd in Hin. apply eq_None_not_Some. intros Hs.
    destruct (Hp p Hs) as [[c Hc]|[(_ & Hc & _) _]]; [|done]. by rewrite Htf in Hc.
  - intros p [Hs|Hs].
    + destruct (Hp p Hs) as [Hs'|[_ Hc]]; [|done]. apply (clean_le (drawn d)); [done|]. apply Hu. by left.
    + rewrite Hd in Hs. apply (clean_le (drawn d)); [done|]. apply Hu. by right.
Qed.

(** A disk whose new files are at places with drawn names. *)
Definition stage (d d' : disk) (temp : path) : Prop :=
  dirs d' = dirs d ∧ drawn d' = S (drawn d) ∧ ∀ q, q ≠ temp → files d' !! q = files d !! q.

Lemma temp_clean d p : clean (drawn d) p → clean (S (drawn d)) (temp_of d p).
Proof using HLaws.
  intros Hc. apply clean_app. split.
  - rewrite <- (take_drop (length p - 1) p) in Hc. apply clean_app in Hc as [Hc _].
    by apply (clean_le (drawn d)); [lia|].
  - apply (clean_name _ _ TempName). lia.
Qed.

Lemma temp_not_clean d p : ¬ clean (drawn d) (temp_of d p).
Proof using.
  intros Hc. apply (Hc (drawn d) TempName); [done|]. apply elem_of_app. right. by left.
Qed.

Lemma temp_nonempty d p : temp_of d p ≠ [].
Proof using. unfold temp_of. by destruct (parent p). Qed.

Lemma temp_place d p : running d → place d p → place d (temp_of d p).
Proof using.
  intros [_ Hu] (Hne & _ & Ha). split_and!; [apply temp_nonempty|by apply temp_absent|].
  intros q Hq. apply Ha, ancestors_parent; [done|]. apply ancestors_parent in Hq; [|apply temp_nonempty].
  unfold temp_of in Hq. by rewrite parent_snoc in Hq.
Qed.

Lemma stage_onward d d' p :
  running d → clean (drawn d) p → place d p → stage d d' (temp_of d p) →
  onward d d' ∧ ∀ q, clean (drawn d) q → files d' !! q = files d !! q.
Proof using HLaws.
  intros Hd Hc Hp (Hdirs & Hdr & Hf). split.
  - split; [|split; [done|lia]]. apply (running_files d); [done|done|lia|]. intros q Hq.
    destruct (decide (q = temp_of d p)) as [->|Hqt]; [|left; by rewrite <- Hf].
    right. split; [by apply temp_place|]. rewrite Hdr. by apply temp_clean.
  - intros q Hq. apply Hf. intros ->. by apply temp_not_clean in Hq.
Qed.

Lemma write_new_cases p bytes d d' r :
  write_new p bytes d = (d', r) →
  dirs d' = dirs d ∧ drawn d' = drawn d ∧ (∀ q, q ≠ p → files d' !! q = files d !! q) ∧
  (r = Ok tt ∧ files d' !! p = Some bytes ∨ r = Err Crashed).
Proof using.
  unfold write_new, ebind. destruct (change _ d) as [d1 r1] eqn:H1.
  apply change_cases in H1 as [(-> & Hf1 & Hd1 & Hn1)|[-> ->]]; [|intros [= <- <-]; tauto].
  intros H2. apply change_cases in H2 as [(-> & Hf2 & Hd2 & Hn2)|[-> ->]]; simpl in *.
  - rewrite Hd2, Hn2, Hf2, Hf1. split_and!; [done..| |left; by rewrite lookup_insert_eq].
    intros q Hq. by rewrite !lookup_insert_ne.
  - rewrite Hf1. split_and!; [done..| |by right]. intros q Hq. by rewrite lookup_insert_ne.
Qed.

Lemma write_crash p bytes d d' r :
  running d → clean (drawn d) p → place d p → write_file_atomic p bytes d = (d', r) →
  onward d d' ∧ all_or_nothing d d' r (<[p := bytes]> (files d)).
Proof using HLaws.
  intros Hd Hc Hp H. pose proof Hp as (Hne & Hnd & Habove).
  unfold write_file_atomic in H. unfold ebind at 1 in H. rewrite bool_decide_eq_false_2 in H by done.
  simpl in H. unfold ebind at 1, create_dir_all in H. rewrite (place_unblocked d p) in H by (done || apply Hd).
  destruct (change _ d) as [d1 r1] eqn:H1.
  apply change_cases in H1 as [(-> & Hf1 & Hd1 & Hn1)|[-> ->]]; cbn [files dirs drawn set_dirs] in *.
  2: { injection H as <- <-. split; [|by right]. by split. }
  rewrite (place_dirs d p Hp) in Hd1. unfold ebind at 1 in H. simpl in H. rewrite Hn1 in H.
  fold (temp_of d p) in H. set (d2 := Build_disk _ _ _ _) in H.
  unfold ebind in H. destruct (write_new _ _ d2) as [d3 r3] eqn:H3.
  apply write_new_cases in H3 as (Hd3 & Hn3 & Hf3 & Hr3).
  assert (stage d d3 (temp_of d p)) as Hs.
  { split_and!; [by rewrite Hd3|by rewrite Hn3|]. intros q Hq. rewrite Hf3 by done. simpl. by rewrite Hf1. }
  destruct Hr3 as [[-> Ht]| ->].
  2: { injection H as <- <-. apply stage_onward in Hs as [? ?]; [|done..]. split; [done|by right]. }
  unfold rename in H. rewrite Hd3 in H. simpl in H. rewrite Hd1, bool_decide_eq_false_2 in H by done.
  apply change_cases in H as [(-> & Hf4 & Hd4 & Hn4)|[-> ->]]; cbn [files dirs drawn set_files] in *.
  2: { apply stage_onward in Hs as [? ?]; [|done..]. split; [done|by right]. }
  destruct Hs as (Hsd & Hsn & Hsf). rewrite Ht in Hf4.
  assert (∀ q, files d' !! q = <[p := bytes]> (files d) !! q) as Hfin.
  { intros q. rewrite Hf4, !lookup_insert. case_decide; [done|].
    destruct (decide (temp_of d p = q)) as [<-|Hq].
    - rewrite lookup_delete_eq. symmetry. apply temp_absent. apply Hd.
    - rewrite lookup_delete_ne by done. by apply Hsf. }
  split; [|left; split; [done|]; auto].
  split; [|split; [congruence|lia]]. apply (running_files d); [done|congruence|lia|].
  intros q Hq. rewrite Hfin in Hq. rewrite lookup_insert in Hq. case_decide as Hpq; [subst q|by left].
  right. split; [done|]. eapply clean_le, Hc. lia.
Qed.

Lemma remove_crash p d d' r :
  running d → place d p → remove_file p d = (d', r) →
  onward d d' ∧ all_or_nothing d d' r (delete p (files d)).
Proof using.
  intros Hd Hp H. unfold remove_file in H. destruct (files d !! p) as [c|] eqn:Hc.
  - apply change_cases in H as [(-> & Hf & Hdirs & Hn)|[-> ->]]; simpl in *.
    2: { split; [by split|by right]. }
    split; [|left; split; [done|]; intros q _; by rewrite Hf].
    split; [|split; [done|lia]]. apply (running_files d); [done|done|lia|].
    intros q Hq. left. rewrite Hf in Hq. destruct Hq as [c' Hq]. apply lookup_delete_Some in Hq as [_ Hq].
    by rewrite Hq.
  - destruct Hp as (_ & Hnd & Ha). rewrite bool_decide_eq_false_2 in H by done. simpl in H.
    assert (blocked d p = false) as Hb.
    { apply blocked_false. intros q Hin. apply elem_of_ancestors in Hin as [[|x r'] ->].
      - by rewrite app_nil_r in Hc.
      - apply Hd, Ha. by exists x, r'. }
    rewrite Hb in H. injection H as <- <-. split; [by split|]. left. split; [done|].
    intros q _. by rewrite delete_id.
Qed.
Lemma nodup_fmap_inj {A B} (f : A → B) l x y : NoDup (f <$> l) → x ∈ l → y ∈ l → f x = f y → x = y.
Proof using.
  induction l as [|z l IH]; simpl; [by intros _ ?%not_elem_of_nil|]. intros [Hn Hl]%NoDup_cons.
  rewrite !elem_of_cons. intros [->|Hx] [->|Hy] He; [done|..|by apply IH]; destruct Hn.
  - rewrite He. by apply list_elem_of_fmap_2.
  - rewrite <- He. by apply list_elem_of_fmap_2.
Qed.

(** * What a manifest says *)

Definition target (m : Manifest) : path :=
  match resolve (mf_workspace m) (mf_relative_path m) with Ok t => t | _ => [] end.

Definition after (d : disk) (m : Manifest) : option string := files d !! mf_after_blob m.

Definition before (d : disk) (m : Manifest) : option string :=
  match mf_before_blob m with Some p => files d !! p | None => None end.

Definition readable (d : disk) (m : Manifest) : Prop :=
  resolve (mf_workspace m) (mf_relative_path m) = Ok (target m) ∧ is_Some (after d m) ∧
  before_content d m = Ok (before d m).

Lemma before_is d m b : before_content d m = Ok b → b = before d m.
Proof using.
  unfold before_content, before, read_file. destruct (mf_before_blob m) as [p|]; [|by intros [= <-]].
  destruct (files d !! p); [|done]. by intros [= <-].
Qed.

(** A preflight over distinct files looks at each as it is. *)
Lemma preflight_distinct d allow l v v' :
  NoDup (target <$> l) → preflight d allow l v = Ok v' →
  (∀ m, m ∈ l → readable d m ∧
    (seen d v (target m) = after d m ∨ allow = true ∧ seen d v (target m) = before d m)) ∧
  (∀ m, m ∈ l → seen d v' (target m) = before d m) ∧
  (∀ p, p ∉ target <$> l → seen d v' p = seen d v p).
Proof using.
  revert v. induction l as [|m l IH]; intros v Hnd H; simpl in *.
  - injection H as <-. split_and!; [by intros m ?%not_elem_of_nil..|done].
  - apply NoDup_cons in Hnd as [Hnin Hnd]. apply res_bind_ok in H as (v1 & Hv & H).
    apply preflight_one_ok in Hv as [t a b Hr Ha Hb Hc ->].
    assert (t = target m) as -> by (unfold target; by rewrite Hr).
    pose proof (before_is _ _ _ Hb) as ->. destruct (IH _ Hnd H) as (Hl & Hl' & Hrest).
    assert (∀ m', m' ∈ l → target m ≠ target m') as Hne.
    { intros m' Hm' He. apply Hnin. rewrite He. by apply list_elem_of_fmap_2. }
    split_and!.
    + intros m' [->|Hm']%elem_of_cons.
      * split; [|by unfold after; rewrite Ha]. split_and!; [done| |done]. unfold after. by rewrite Ha.
      * destruct (Hl m' Hm') as [Hrd Hs]. split; [done|]. by rewrite seen_insert, decide_False in Hs by auto.
    + intros m' [->|Hm']%elem_of_cons; [|by apply Hl']. rewrite Hrest, seen_insert by done.
      by rewrite decide_True.
    + intros p [Hp Hpl]%not_elem_of_cons. rewrite Hrest, seen_insert by done. by rewrite decide_False.
Qed.

Lemma preflight_exists d l v :
  NoDup (target <$> l) →
  (∀ m, m ∈ l → readable d m ∧ (seen d v (target m) = after d m ∨ seen d v (target m) = before d m)) →
  ∃ v', preflight d true l v = Ok v'.
Proof using.
  revert v. induction l as [|m l IH]; intros v Hnd Hl; simpl; [by eexists|].
  apply NoDup_cons in Hnd as [Hnin Hnd].
  destruct (Hl m ltac:(by left)) as [(Hr & [a Ha] & Hb) Hs].
  assert (preflight_one d true m v = Ok (<[target m := before d m]> v)) as ->.
  { apply preflight_one_ok, (reverses_intro _ _ _ _ _ (target m) a (before d m)); try done.
    rewrite Ha in Hs. tauto. }
  simpl. apply IH; [done|]. intros m' Hm'. destruct (Hl m' ltac:(by right)) as [Hrd Hs'].
  split; [done|]. rewrite seen_insert, decide_False; [done|]. intros He. apply Hnin. rewrite He.
  by apply list_elem_of_fmap_2.
Qed.

(** * A rollback under way *)

(** The disk when the marker is written. *)
Record marked (d0 : disk) (ms : list (path * Manifest)) : Prop := {
  mk_running : running d0;
  mk_marker : files d0 !! marker = Some (encode_marker ms.*1);
  mk_paths : NoDup ms.*1;
  mk_entries pm : pm ∈ ms → pm.1 ≠ [] ∧ parent pm.1 = entries_dir base session ∧
    files d0 !! pm.1 = Some (encode_manifest pm.2);
  mk_owned pm : pm ∈ ms → owned pm.2 (target pm.2) ∧ place d0 (target pm.2) ∧ readable d0 pm.2;
  mk_after pm : pm ∈ ms → files d0 !! target pm.2 = after d0 pm.2;
  mk_distinct : NoDup (target <$> ms.*2);
}.

Section marked.
Context (d0 : disk) (ms : list (path * Manifest)) (Hmk : marked d0 ms).

(** All files are as they were before the turn. *)
Definition restored (d : disk) : Prop := ∀ pm, pm ∈ ms → files d !! target pm.2 = before d0 pm.2.

(** The files that neither the restoration nor a name to be drawn touches. *)
Definition aside (p : path) : Prop :=
  clean (drawn d0) p ∧ p ∉ target <$> ms.*2 ∧ p ∉ ms.*1 ∧ p ≠ marker.

Record half (d : disk) : Prop := {
  ha_onward : onward d0 d;
  ha_aside p : aside p → files d !! p = files d0 !! p;
  ha_targets pm : pm ∈ ms → files d !! target pm.2 = after d0 pm.2 ∨ files d !! target pm.2 = before d0 pm.2;
  ha_entries pm : pm ∈ ms → files d !! pm.1 = Some (encode_manifest pm.2) ∨
    files d !! pm.1 = Some (encode_manifest (with_state pm.2 RolledBack));
  ha_marker : files d !! marker = files d0 !! marker ∨ files d !! marker = None ∧ restored d;
}.

Lemma half_begins : half d0.
Proof using Hmk.
  split; [by split; [apply Hmk|]|done|..|by left].
  - intros pm Hpm. left. by apply (mk_after _ _ Hmk).
  - intros pm Hpm. left. by apply (mk_entries _ _ Hmk).
Qed.
Lemma outside_targets pm p : pm ∈ ms → inside p → target pm.2 ≠ p.
Proof using Hmk.
  intros Hpm Hp He. destruct (mk_owned _ _ Hmk pm Hpm) as (Ho & _). apply (ow_outside _ _ _ _ Ho).
  by rewrite He.
Qed.

Lemma path_inside pm : pm ∈ ms → inside pm.1 ∧ pm.1 ≠ marker ∧ clean (drawn d0) pm.1.
Proof using Hmk.
  intros Hpm. destruct (mk_entries _ _ Hmk pm Hpm) as (Hne & Hpar & Hf).
  split_and!; [by apply token_inside|by eapply entry_not_marker|].
  apply (mk_running _ _ Hmk). left. by rewrite Hf.
Qed.

Lemma marker_inside : inside marker ∧ clean (drawn d0) marker.
Proof using Hmk.
  split; [by exists ["rollback.json"]|]. apply (mk_running _ _ Hmk). left.
  by rewrite (mk_marker _ _ Hmk).
Qed.

Lemma target_clean pm : pm ∈ ms → clean (drawn d0) (target pm.2).
Proof using Hmk.
  intros Hpm. destruct (mk_owned _ _ Hmk pm Hpm) as (Ho & _). eapply clean_le, ow_clean; [lia|done].
Qed.

Lemma blob_aside p c : is_blob base session p → files d0 !! p = Some c → aside p.
Proof using Hmk.
  intros Hb Hc. pose proof (blob_inside _ _ _ Hb) as Hp. split_and!.
  - apply (mk_running _ _ Hmk). left. by rewrite Hc.
  - intros (m & -> & (pm & -> & Hpm)%list_elem_of_fmap)%list_elem_of_fmap.
    by apply (outside_targets pm (target pm.2)).
  - intros (pm & -> & Hpm)%list_elem_of_fmap. destruct (mk_entries _ _ Hmk pm Hpm) as (_ & Hpar & _).
    by apply blob_entry in Hb.
  - intros ->. destruct Hb as [x Hb]. apply (f_equal length) in Hb. unfold marker_path, blobs_dir in Hb.
    rewrite !length_app in Hb. simpl in Hb. lia.
Qed.

(** The blobs stay. *)
Lemma half_blobs d pm : half d → pm ∈ ms →
  after d pm.2 = after d0 pm.2 ∧ before d pm.2 = before d0 pm.2 ∧ readable d pm.2.
Proof using Hmk.
  intros Hh Hpm. destruct (mk_owned _ _ Hmk pm Hpm) as (Ho & _ & Hr & [a Ha] & Hb).
  assert (after d pm.2 = after d0 pm.2) as Hae.
  { apply (ha_aside _ Hh). eapply blob_aside, Ha. apply Ho. }
  assert (before d pm.2 = before d0 pm.2 ∧ before_content d pm.2 = Ok (before d pm.2)) as [Hbe Hbc].
  { unfold before, before_content, read_file in *. destruct (mf_before_blob pm.2) as [b|] eqn:Hbb; [|done].
    destruct (files d0 !! b) as [c|] eqn:Hc; [|done].
    assert (files d !! b = Some c) as ->; [|done]. rewrite (ha_aside _ Hh); [done|].
    eapply blob_aside, Hc. by eapply ow_before. }
  split_and!; [done..|]. split_and!; [done| |done]. by rewrite Hae, Ha.
Qed.

(** A step changes one file, or dies. *)
Lemma half_one d d' r p fs :
  half d → onward d d' → all_or_nothing d d' r fs → (∀ q, q ≠ p → fs !! q = files d !! q) →
  clean (drawn d0) p →
  onward d0 d' ∧ (∀ q, clean (drawn d0) q → q ≠ p → files d' !! q = files d !! q) ∧
  (r = Ok tt ∧ files d' !! p = fs !! p ∨ r = Err Crashed ∧ files d' !! p = files d !! p).
Proof using.
  intros Hh (Hr & Hd & Hn) Hall Hfs Hp. destruct (ha_onward _ Hh) as (_ & Hd0 & Hn0).
  assert (∀ q, clean (drawn d0) q → clean (drawn d) q) as Hc by (intros q; by apply clean_le).
  split; [split_and!; [done|congruence|lia]|].
  destruct Hall as [[-> Hf]|[-> Hf]].
  - split; [intros q Hq Hqp; rewrite Hf by auto; by apply Hfs|]. left. split; [done|]. auto.
  - split; [intros q Hq Hqp; by apply Hf, Hc|]. right. split; [done|]. auto.
Qed.

(** The restoration of one manifest. *)
Lemma half_restore d d' r pm :
  half d → files d !! marker = files d0 !! marker → pm ∈ ms → restore_before pm.2 d = (d', r) →
  half d' ∧ files d' !! marker = files d0 !! marker ∧
  (r = Ok tt → files d' !! target pm.2 = before d0 pm.2) ∧
  ∀ pm', pm' ∈ ms → files d !! target pm'.2 = before d0 pm'.2 → files d' !! target pm'.2 = before d0 pm'.2.
Proof using HLaws Hmk.
  intros Hh Hm Hpm H. destruct (half_blobs d pm Hh Hpm) as (_ & Hbe & Hr & _ & Hb).
  destruct (mk_owned _ _ Hmk pm Hpm) as (Ho & Hp & _).
  pose proof (ha_onward _ Hh) as (Hrun & Hdirs & Hn).
  assert (place d (target pm.2)) as Hpl by (unfold place in *; by rewrite Hdirs).
  assert (clean (drawn d) (target pm.2)) as Hc by (eapply clean_le, ow_clean; [lia|done]).
  assert (onward d d' ∧ all_or_nothing d d' r (partial_alter (λ _, before d0 pm.2) (target pm.2) (files d)))
    as [Hon Hall].
  { unfold restore_before in H. unfold ebind at 1, eres in H. rewrite Hr in H.
    unfold before_content, before, read_file in *. destruct (mf_before_blob pm.2) as [b|].
    - unfold ebind, read, read_file in H. destruct (files d !! b) as [c|]; [|done].
      rewrite <- Hbe. by apply write_crash.
    - by apply remove_crash. }
  destruct (half_one d d' r (target pm.2) _ Hh Hon Hall) as (Hon' & Hsame & Hcase);
    [intros q Hq; by rewrite lookup_partial_alter_ne|by apply target_clean|].
  rewrite lookup_partial_alter_eq in Hcase.
  assert (∀ pm', pm' ∈ ms → target pm'.2 = target pm.2 → pm'.2 = pm.2) as Hinj.
  { intros pm' Hpm' He. eapply (nodup_fmap_inj target); [apply Hmk| | |done]; by apply list_elem_of_fmap_2. }
  assert (∀ pm', pm' ∈ ms → files d !! target pm'.2 = before d0 pm'.2 →
    files d' !! target pm'.2 = before d0 pm'.2) as Hkeep.
  { intros pm' Hpm' Hf. destruct (decide (target pm'.2 = target pm.2)) as [He|Hne].
    - rewrite (Hinj _ Hpm' He) in *. destruct Hcase as [[_ ->]|[_ ->]]; done.
    - rewrite Hsame; [done|by apply target_clean|done]. }
  pose proof marker_inside as [Hmi Hmc].
  assert (files d' !! marker = files d0 !! marker) as Hm'.
  { rewrite Hsame; [done|done|]. intros He. by apply (outside_targets pm marker). }
  split_and!; [|done| |done].
  - split; [done| | | |by left].
    + intros p (Hpc & Hpt & Hpe & Hpm0). rewrite Hsame; [by apply ha_aside|done|]. intros ->.
      apply Hpt, list_elem_of_fmap_2. by apply list_elem_of_fmap_2.
    + intros pm' Hpm'. destruct (ha_targets _ Hh pm' Hpm') as [Hf|Hf]; [|right; by apply Hkeep].
      destruct (decide (target pm'.2 = target pm.2)) as [He|Hne].
      * rewrite (Hinj _ Hpm' He) in *. destruct Hcase as [[_ ->]|[_ ->]]; tauto.
      * left. rewrite Hsame; [done|by apply target_clean|done].
    + intros pm' Hpm'. destruct (path_inside pm' Hpm') as (Hpi & _ & Hpc).
      rewrite Hsame; [by apply ha_entries|done|]. intros He. symmetry in He. by apply outside_targets in He.
  - intros ->. by destruct Hcase as [[_ ->]|[? _]].
Qed.
(** A manifest is written over. *)
Lemma half_write d d' r pm :
  half d → files d !! marker = files d0 !! marker → restored d → pm ∈ ms →
  write_manifest pm.1 (with_state pm.2 RolledBack) d = (d', r) →
  half d' ∧ files d' !! marker = files d0 !! marker ∧ restored d'.
Proof using HLaws Hmk.
  intros Hh Hm Hres Hpm H. destruct (path_inside pm Hpm) as (Hpi & Hpm0 & Hpc).
  pose proof (ha_onward _ Hh) as (Hrun & Hdirs & Hn).
  assert (∃ c, files d !! pm.1 = Some c) as [c Hc] by (destruct (ha_entries _ Hh pm Hpm); eauto).
  assert (place d pm.1) as Hpl.
  { eapply place_of_file; [apply Hrun|by apply (mk_entries _ _ Hmk)|done]. }
  apply write_crash in H as [Hon Hall]; [|done|by eapply clean_le|done].
  destruct (half_one d d' r pm.1 _ Hh Hon Hall) as (Hon' & Hsame & Hcase);
    [intros q Hq; by rewrite lookup_insert_ne|done|]. rewrite lookup_insert_eq in Hcase.
  pose proof marker_inside as [Hmi Hmc].
  assert (∀ pm', pm' ∈ ms → files d' !! target pm'.2 = files d !! target pm'.2) as Ht.
  { intros pm' Hpm'. apply Hsame; [by apply target_clean|by apply outside_targets]. }
  assert (files d' !! marker = files d0 !! marker) as Hm' by by rewrite Hsame by done.
  split_and!; [|done|intros pm' Hpm'; rewrite Ht; auto].
  split; [done| | | |by left].
  - intros p (Hp & Hpt & Hpe & Hpk). rewrite Hsame; [by apply ha_aside|done|]. intros ->.
    by apply Hpe, list_elem_of_fmap_2.
  - intros pm' Hpm'. rewrite Ht by done. by apply ha_targets.
  - intros pm' Hpm'. destruct (decide (pm'.1 = pm.1)) as [He|Hne].
    + assert (pm' = pm) as -> by by eapply (nodup_fmap_inj fst); [apply Hmk|..].
      destruct Hcase as [[_ ->]|[_ ->]]; [by right|by apply ha_entries].
    + rewrite Hsame; [by apply ha_entries|by apply path_inside|done].
Qed.

(** The marker is removed when all is restored. *)
Lemma half_remove d d' r :
  half d → files d !! marker = files d0 !! marker → restored d →
  remove_marker base session d = (d', r) → half d' ∧ restored d'.
Proof using HLaws Hmk.
  intros Hh Hm Hres H. unfold remove_marker in H. rewrite Hm, (mk_marker _ _ Hmk) in H.
  apply change_cases in H as [(-> & Hf & Hdirs & Hn)|[-> ->]]; [|done]. cbn [files dirs drawn set_files] in *.
  assert (∀ p, p ≠ marker → files d' !! p = files d !! p) as Hsame.
  { intros p Hp. rewrite Hf. by rewrite lookup_delete_ne. }
  pose proof marker_inside as [Hmi Hmc]. pose proof (ha_onward _ Hh) as (Hrun & Hd0 & Hn0).
  assert (restored d') as Hres'.
  { intros pm Hpm. rewrite Hsame; [by apply Hres|by apply outside_targets]. }
  split; [|done]. split.
  - split; [|split; [congruence|lia]]. apply (running_files d); [done|done|lia|]. intros q [c Hq].
    rewrite Hf in Hq. apply lookup_delete_Some in Hq as [_ Hq]. left. by rewrite Hq.
  - intros p Hp. rewrite Hsame; [by apply ha_aside|apply Hp].
  - intros pm Hpm. right. by apply Hres'.
  - intros pm Hpm. rewrite Hsame; [by apply ha_entries|by apply path_inside].
  - right. split; [|done]. rewrite Hf. apply lookup_delete_eq.
Qed.

(** A loop keeps what each of its steps keeps. *)
Lemma efor_keeps {A} (l : list A) (f : A → io unit) (I : disk → Prop) d d' r :
  (∀ x d d' r, x ∈ l → I d → f x d = (d', r) → I d') → I d → efor l f d = (d', r) → I d'.
Proof using.
  intros Hf. revert d. induction l as [|x l IH]; intros d Hd H; simpl in H; [by injection H as <- _|].
  unfold ebind in H. destruct (f x d) as [d1 r1] eqn:H1.
  assert (I d1) as Hd1 by (eapply Hf; [by left|done|done]).
  destruct r1; [|by injection H as <- _..]. eapply IH; [|done|done]. intros y. intros. eapply Hf; [by right|done|done].
Qed.

(** A loop that ends has done all its steps. *)
Lemma efor_done {A} (l : list A) (f : A → io unit) (I : disk → Prop) (Q : A → disk → Prop) d d' :
  (∀ x d d' r, x ∈ l → I d → f x d = (d', r) → I d') →
  (∀ x d d', x ∈ l → I d → f x d = (d', Ok tt) → Q x d') →
  (∀ x y d d' r, x ∈ l → I d → f x d = (d', r) → Q y d → Q y d') →
  I d → efor l f d = (d', Ok tt) → ∀ x, x ∈ l → Q x d'.
Proof using.
  intros HI HQ HQ'. revert d. induction l as [|x l IH]; intros d Hd H; simpl in H; [by intros x ?%not_elem_of_nil|].
  apply ebind_ok in H as ([] & d1 & H1 & H).
  assert (I d1) as Hd1 by (eapply HI; [by left|done|done]).
  assert (Hl : ∀ y, y ∈ l → y ∈ x :: l) by (intros; by right).
  intros y [->|Hy]%elem_of_cons.
  - apply (efor_keeps l f (λ d, I d ∧ Q x d) d1 d' (Ok tt)); [|split; [done|]|done].
    + intros z e e' r Hz [Hi Hq] Hz'. split; eauto.
    + eapply HQ; [by left| |exact H1]. done.
  - eapply (IH (λ x d d' r Hx, HI x d d' r (Hl _ Hx)) (λ x d d' Hx, HQ x d d' (Hl _ Hx))
      (λ x y d d' r Hx, HQ' x y d d' r (Hl _ Hx))); done.
Qed.

(** Wherever the restoration stops, it is under way; where it ends, it is done. *)
Lemma restore_half d d' r :
  half d → files d !! marker = files d0 !! marker → restore_all base session ms d = (d', r) →
  half d' ∧ (r = Ok tt → restored d').
Proof using HLaws Hmk.
  intros Hh Hm H. set (I := λ d, half d ∧ files d !! marker = files d0 !! marker).
  assert (∀ x, x ∈ reverse ms → x ∈ ms) as Hrev by (intros x; by rewrite elem_of_reverse).
  unfold restore_all in H. unfold ebind at 1 in H. destruct (efor _ _ d) as [d1 r1] eqn:H1.
  assert (I d1) as Hd1.
  { eapply (efor_keeps _ _ I); [|by split|exact H1]. intros x e e' r' Hx [He Hem] Hrun.
    destruct (half_restore e e' r' x) as (? & ? & _); auto. by split. }
  destruct r1 as [[]| | |]; [|by injection H as <- <-; split; [apply Hd1|]..].
  assert (restored d1) as Hres.
  { intros pm Hpm.
    eapply (efor_done _ _ I (λ pm d, pm ∈ ms → files d !! target pm.2 = before d0 pm.2) d d1);
      [..|exact H1|by apply elem_of_reverse|done]; [| | |by split].
    - intros x e e' r' Hx [He Hem] Hrun. destruct (half_restore e e' r' x) as (? & ? & _); auto. by split.
    - intros x e e' Hx [He Hem] Hrun _. destruct (half_restore e e' (Ok tt) x) as (_ & _ & ? & _); auto.
    - intros x y e e' r' Hx [He Hem] Hrun Hy Hyms.
      destruct (half_restore e e' r' x) as (_ & _ & _ & ?); auto. }
  unfold ebind in H. destruct (efor _ _ d1) as [d2 r2] eqn:H2.
  assert (I d2 ∧ restored d2) as [[Hh2 Hm2] Hres2].
  { eapply (efor_keeps _ _ (λ d, I d ∧ restored d)); [|by split|exact H2].
    intros x e e' r' Hx [[He Hem] Her] Hrun. destruct (half_write e e' r' x) as (? & ? & ?); auto.
    split; [by split|done]. }
  destruct r2 as [[]| | |]; [|by injection H as <- <-; split..].
  apply half_remove in H; [|done..]. destruct H as [? ?]. by split.
Qed.
(** ** Recovery *)

(** The manifests as the restoration found them, or as it left them. *)
Definition same_but_state (pm pm' : path * Manifest) : Prop :=
  pm'.1 = pm.1 ∧ (pm'.2 = pm.2 ∨ pm'.2 = with_state pm.2 RolledBack).

Lemma half_reads d l : half d → (∀ pm, pm ∈ l → pm ∈ ms) →
  ∃ l', read_manifests d l.*1 = Ok l' ∧ Forall2 same_but_state l l'.
Proof using HLaws.
  intros Hh. induction l as [|pm l IH]; intros Hl; [by eexists|].
  destruct IH as (l' & Hr & Hs); [intros; apply Hl; by right|].
  assert (∃ m', files d !! pm.1 = Some (encode_manifest m') ∧ (m' = pm.2 ∨ m' = with_state pm.2 RolledBack))
    as (m' & Hm & Hc) by (destruct (ha_entries _ Hh pm ltac:(apply Hl; by left)); eauto).
  exists ((pm.1, m') :: l'). split; [|by constructor].
  rewrite fmap_cons. unfold read_manifests; fold read_manifests. unfold read_manifest, read_file. rewrite Hm. simpl.
  rewrite manifest_codec. simpl. by rewrite Hr.
Qed.

Lemma same_target pm pm' : same_but_state pm pm' → target pm'.2 = target pm.2.
Proof using. intros [_ [->| ->]]; done. Qed.

Lemma same_before d pm pm' : same_but_state pm pm' → before d pm'.2 = before d pm.2.
Proof using. intros [_ [->| ->]]; done. Qed.

Lemma same_readable d pm pm' : same_but_state pm pm' → readable d pm.2 → readable d pm'.2.
Proof using. intros [_ [->| ->]]; done. Qed.

Lemma same_owned pm pm' t : same_but_state pm pm' → owned pm.2 t → owned pm'.2 t.
Proof using. intros [_ [->| ->]]; [done|]. by intros []. Qed.

(** The workspace before the turn, but for the files of names that were drawn. *)
Definition reverted (d : disk) : Prop :=
  restored d ∧ ∀ p, aside p → ¬ inside p → files d !! p = files d0 !! p.

(** The next operation completes what was cut short. *)
Lemma half_recovers d : half d → left d = None →
  ∃ d', recover_locked base session d = (d', Ok tt) ∧ files d' !! marker = None ∧ reverted d'.
Proof using HLaws Hmk.
  intros Hh Hl. destruct (ha_marker _ Hh) as [Hm|[Hm Hres]].
  2: { exists d. rewrite recover_nothing by done. split; [done|]. split; [done|]. split; [done|].
    intros p Hp _. by apply (ha_aside _ Hh). }
  destruct (half_reads d ms Hh) as (ms' & Hread & Hsame); [done|].
  pose proof (ha_onward _ Hh) as (Hrun & Hdirs & Hn).
  assert (Hin : ∀ pm', pm' ∈ ms' → ∃ pm, pm ∈ ms ∧ same_but_state pm pm').
  { intros pm' Hpm'. apply list_elem_of_lookup in Hpm' as [i Hi].
    destruct (Forall2_lookup_r _ _ _ _ _ Hsame Hi) as (pm & Hpm & ?). exists pm. split; [|done].
    by eapply list_elem_of_lookup_2. }
  assert (Hfst : ms'.*1 = ms.*1).
  { clear -Hsame. induction Hsame as [|? ? ? ? [? _] _ IH]; [done|]. rewrite !fmap_cons. congruence. }
  assert (Htg : target <$> ms'.*2 = target <$> ms.*2).
  { clear -Hsame. induction Hsame as [|? ? ? ? Hs _ IH]; [done|]. rewrite !fmap_cons, IH.
    by rewrite (same_target _ _ Hs). }
  assert (Hnd : NoDup (target <$> (reverse ms').*2)).
  { rewrite !fmap_reverse, reverse_Permutation, Htg. apply Hmk. }
  assert (∀ m', m' ∈ (reverse ms').*2 → ∃ pm pm', pm ∈ ms ∧ same_but_state pm pm' ∧ m' = pm'.2) as Hrev.
  { intros m' (pm' & -> & Hpm')%list_elem_of_fmap. rewrite elem_of_reverse in Hpm'. destruct (Hin _ Hpm') as (pm & ? & ?). eauto. }
  destruct (preflight_exists d (reverse ms').*2 ∅ Hnd) as (v & Hv).
  { intros m' Hm'. destruct (Hrev m' Hm') as (pm & pm' & Hpm & Hs & ->).
    destruct (half_blobs d pm Hh Hpm) as (Ha & Hb & Hr). split; [by apply (same_readable _ _ _ Hs)|].
    unfold seen. rewrite lookup_empty, (same_target _ _ Hs). pose proof (same_before d _ _ Hs) as Hsb.
    rewrite Hsb, Hb. replace (after d pm'.2) with (after d pm.2) by by destruct Hs as [_ [->| ->]].
    rewrite Ha. by apply ha_targets. }
  destruct (preflight_distinct _ _ _ _ _ Hnd Hv) as (_ & Hseen & Hrest).
  destruct (restore_all_seen base session true ms' v d) as (d' & Hrun' & Hmark & Hout); [| | | |done|].
  - by split.
  - simpl. rewrite Hm, (mk_marker _ _ Hmk). by eexists.
  - rewrite Hfst. intros (pm & Hpm & Hpms)%list_elem_of_fmap. by destruct (path_inside pm Hpms) as (_ & ? & _).
  - apply Forall_forall. intros pm' Hpm'. destruct (Hin _ Hpm') as (pm & Hpm & Hs).
    destruct (mk_owned _ _ Hmk pm Hpm) as (Ho & Hp & _). destruct (mk_entries _ _ Hmk pm Hpm) as (Hne & _).
    destruct (path_inside pm Hpm) as (Hpi & _). pose proof Hs as [Hse _]. rewrite Hse.
    split_and!; [done..| |].
    + simpl. destruct (ha_entries _ Hh pm Hpm) as [->| ->]; by eexists.
    + exists (target pm.2). split; [by eapply same_owned|]. unfold place in *. simpl. by rewrite Hdirs.
  - exists d'. unfold recover_locked, ebind, get, eget, eres. simpl. rewrite Hm, (mk_marker _ _ Hmk). simpl.
    rewrite marker_codec. simpl. rewrite Hread.
    unfold preflight_reverse. rewrite <- fmap_reverse, Hv. simpl. split; [by rewrite Hrun'|].
    split; [done|]. split.
    + intros pm Hpm. rewrite Hout; [|by apply (mk_owned _ _ Hmk)].
      apply list_elem_of_lookup in Hpm as [i Hi]. destruct (Forall2_lookup_l _ _ _ _ _ Hsame Hi) as (pm' & Hi' & Hs).
      apply list_elem_of_lookup_2 in Hi, Hi'. destruct (half_blobs d pm Hh Hi) as (_ & Hb & _).
      rewrite <- (same_target _ _ Hs), Hseen, <- Hb; [by apply (same_before d)|].
      apply list_elem_of_fmap_2. by apply elem_of_reverse.
    + intros p Hp Hpo. rewrite Hout by done. rewrite Hrest; [unfold seen; rewrite lookup_empty; by apply ha_aside|].
      rewrite !fmap_reverse, elem_of_reverse, Htg. apply Hp.
Qed.
Lemma half_restarted d : half d → half (restarted d).
Proof using. intros [(? & ? & ?) ? ? ? ?]. split; [by split; [apply running_restarted|]|done..]. Qed.
End marked.

(** * A rollback that dies *)

Lemma journal_dying n d : journal_ok base session d → journal_ok base session (dying n d).
Proof using. intros []. split; [by apply running_dying|done..]. Qed.

Lemma turn_dying n d w turn ms :
  turn_ok base session d w turn ms → turn_ok base session (dying n d) w turn ms.
Proof using HLaws.
  intros [[? ? ?] (v & Hv & Hs) ?]. split; [by split| |done].
  destruct (preflight_ext base session d (dying n d) false (reverse ms).*2 ∅ v ∅) as (v' & Hv' & Hs'); try done.
  - by intros ? ? _.
  - apply Forall_fmap, Forall_reverse. eapply Forall_impl; [done|]. intros pm (t & Ho & _). by exists t.
  - exists v'. split; [done|]. intros p Hp. rewrite <- Hs' by done. by apply Hs.
Qed.

Lemma turn_paths d w turn ms :
  turn_ok base session d w turn ms → NoDup ms.*1.
Proof using HLaws.
  intros Ht. assert (∀ pm, pm ∈ ms → entry base session d pm.1 pm.2) as Hms.
  { intros [p m'] Hpm. by apply (tu_ms _ _ _ _ _ Ht) in Hpm as [? _]. }
  pose proof (tu_sorted _ _ _ _ _ Ht) as Hs. clear Ht.
  induction Hs as [|a l Hl IH Ha]; [constructor|]. rewrite fmap_cons. constructor.
  - intros (b & He & Hb)%list_elem_of_fmap. rewrite Forall_forall in Ha. specialize (Ha b Hb). simpl in Ha.
    assert (a.2 = b.2) as Hab; [|rewrite Hab in Ha; lia].
    eapply entry_inj; [apply Hms; by left|]. rewrite He. apply Hms. by right.
  - apply IH. intros pm Hpm. apply Hms. by right.
Qed.

(** When the marker is written, the rollback is under way. *)
Lemma rollback_marked d w turn ms d0 :
  journal_ok base session d → turn_ok base session d w turn ms → NoDup (target <$> ms.*2) →
  clean 0 marker →
  onward d d0 → (∀ q, clean (drawn d) q → files d0 !! q = <[marker := encode_marker ms.*1]> (files d) !! q) →
  marked d0 ms.
Proof using HLaws.
  intros Hok Ht Hnd Hc (Hrun & Hdirs & Hn) Hf. pose proof (jo_running _ _ _ Hok) as Hd.
  assert (∀ p c, files d !! p = Some c → files d0 !! p = Some c) as Hkeep.
  { intros p c Hp. rewrite Hf by (apply Hd; left; by rewrite Hp). rewrite lookup_insert_ne; [done|].
    intros <-. by rewrite (jo_marker _ _ _ Hok) in Hp. }
  assert (∀ pm, pm ∈ ms → entry base session d pm.1 pm.2) as Hms.
  { intros [p m'] Hpm. by apply (tu_ms _ _ _ _ _ Ht) in Hpm as [? _]. }
  destruct (tu_undo _ _ _ _ _ _ Ht) as (v & Hv & _).
  apply preflight_distinct in Hv as (Hr & _ & _); [|by rewrite !fmap_reverse, reverse_Permutation].
  assert (∀ pm, pm ∈ ms → readable d pm.2 ∧ files d !! target pm.2 = after d pm.2) as Hrd.
  { intros pm Hpm. destruct (Hr pm.2) as [? [Hs|[? _]]]; [|split; [done|]|done].
    - apply list_elem_of_fmap_2. by apply elem_of_reverse.
    - unfold seen in Hs. by rewrite lookup_empty in Hs. }
  assert (∀ pm, pm ∈ ms → after d0 pm.2 = after d pm.2) as Ha.
  { intros pm Hpm. destruct (Hrd pm Hpm) as [(_ & [a Ha] & _) _]. rewrite Ha. by apply Hkeep. }
  split; [done| |by eapply turn_paths| | | |done].
  - rewrite Hf by (by eapply clean_le, Hc; lia). apply lookup_insert_eq.
  - intros pm Hpm. destruct (Hms pm Hpm) as [(? & ? & _) ?]. split_and!; [done..|by apply Hkeep].
  - intros pm Hpm. destruct (Hrd pm Hpm) as [(Hres & [a Haf] & Hb) _].
    destruct (proj1 (Forall_forall _ _) (tu_owned _ _ _ _ _ _ Ht) pm Hpm) as (t & Ho & [c Hs]).
    pose proof (ow_target _ _ _ _ Ho) as Hr'. rewrite Hres in Hr'. injection Hr' as <-. split_and!; [done| |].
    + unfold place. rewrite Hdirs. eapply place_of_file; [apply Hd|apply Ho|done].
    + split_and!; [done|rewrite (Ha _ Hpm), Haf; by eexists|].
      assert (before_content d0 pm.2 = Ok (before d pm.2)) as Hb0.
      { eapply before_content_grows; [exact Ho| |done]. intros p c' _. apply Hkeep. }
      by rewrite Hb0, (before_is _ _ _ Hb0).
  - intros pm Hpm. destruct (Hrd pm Hpm) as [(_ & [a Haf] & _) Hs]. rewrite (Ha _ Hpm), Haf.
    apply Hkeep. by rewrite Hs.
Qed.

(** A rollback that dies anywhere is completed or undone by the next operation, where
    the turn edited each file once. *)
Lemma rollback_atomic n d w turn ms d1 r :
  journal_ok base session d → turn_ok base session d w turn ms → ms ≠ [] → NoDup (target <$> ms.*2) →
  clean 0 marker →
  rollback_latest_turn base session turn (dying n d) = (d1, r) →
  ∃ d2, recover_locked base session (restarted d1) = (d2, Ok tt) ∧ files d2 !! marker = None ∧
    ((r = Err Crashed ∧ ∀ p, clean (drawn d) p → ¬ inside p → files d2 !! p = files d !! p) ∨
     ∀ p, clean (drawn d) p → ¬ inside p → files d2 !! p = w p).
Proof using HLaws.
  intros Hok Ht Hne Hnd Hc H. rewrite (rollback_starts _ _ _ w turn ms) in H;
    [|by apply journal_dying|by apply turn_dying|done].
  pose proof (marker_place _ _ _ _ _ _ Hok Ht Hne) as Hp.
  assert (clean (drawn d) marker) as Hcm by (eapply clean_le, Hc; lia).
  unfold ebind at 1 in H. destruct (write_file_atomic _ _ _) as [d0 r0] eqn:Hw.
  apply write_crash in Hw as [Hon Hall]; [|by apply running_dying, Hok|done|done].
  destruct Hall as [[-> Hf]|[-> Hf]].
  2: { injection H as <- <-. exists (restarted d0). rewrite recover_nothing; simpl.
    - split; [done|]. rewrite Hf by done. split; [apply (jo_marker _ _ _ Hok)|]. left. split; [done|].
      intros p Hpc _. by apply Hf.
    - rewrite Hf by done. apply (jo_marker _ _ _ Hok). }
  assert (marked d0 ms) as Hmk by by eapply rollback_marked.
  unfold ebind in H. destruct (restore_all _ _ _ d0) as [d3 r3] eqn:Hrun.
  destruct (restore_half _ _ Hmk d0 d3 r3 (half_begins _ _ Hmk) eq_refl Hrun) as [Hh _].
  assert (d3 = d1) as -> by by destruct r3 as [[]| | |]; injection H.
  destruct (half_recovers _ _ Hmk (restarted d1)) as (d2 & Hrec & Hm & Hrest & Haside);
    [by apply half_restarted|done|].
  exists d2. split; [done|]. split; [done|]. right. intros p Hpc Hpo.
  destruct (tu_undo _ _ _ _ _ _ Ht) as (v & Hv & Hseen). rewrite <- Hseen by done.
  apply preflight_distinct in Hv as (Hrd & Hst & Hsr); [|by rewrite !fmap_reverse, reverse_Permutation].
  destruct (decide (p ∈ target <$> ms.*2)) as [Hin|Hnin].
  - apply list_elem_of_fmap in Hin as (m & -> & Hm'). pose proof Hm' as (pm & -> & Hpm)%list_elem_of_fmap.
    assert (pm.2 ∈ (reverse ms).*2) as Hrev by (apply list_elem_of_fmap_2; by apply elem_of_reverse).
    rewrite Hrest, Hst by done. destruct (Hrd _ Hrev) as [(_ & _ & Hb) _]. symmetry. apply before_is.
    eapply before_content_grows; [by apply (mk_owned _ _ Hmk)| |exact Hb].
    intros q c _ Hq. rewrite Hf; [|apply (jo_running _ _ _ Hok); left; by rewrite Hq].
    rewrite lookup_insert_ne; [done|]. intros <-. by rewrite (jo_marker _ _ _ Hok) in Hq.
  - rewrite Hsr by by rewrite !fmap_reverse, elem_of_reverse.
    rewrite Haside; [|split_and!; [eapply clean_le, Hpc; apply Hon|done| |]|done].
    + rewrite Hf by done. unfold seen. rewrite lookup_empty, lookup_insert_ne; [done|].
      intros <-. apply Hpo. by exists ["rollback.json"].
    + intros (pm & -> & Hpm)%list_elem_of_fmap. by apply Hpo, (path_inside _ _ Hmk pm Hpm).
    + intros ->. apply Hpo. by exists ["rollback.json"].
Qed.
End crash.
