(* ===== verification/JournalSpec.v ===== *)
(** What the workspace journal promises, with a sample: a codec for its manifests, and
    turns that edit files of a workspace. *)

From S2P Require Import Prelude Effects WorkspaceJournal JournalFacts JournalRun JournalCrash.
From stdpp Require Import base tactics gmap strings list.
From Stdlib Require Import ZArith Ascii Lia.

(** * A codec *)

Definition put_text (s rest : string) : string :=
  let fix go (s : string) : string :=
    match s with
    | EmptyString => String ";" rest
    | String c s => String "c" (String c (go s))
    end in go s.

Definition put_texts (l : list string) (rest : string) : string :=
  foldr put_text (String "|" rest) l.

Definition put_fields (ls : list (list string)) : string := foldr put_texts "" ls.

Fixpoint get_fields (s : string) : option (list (list string)) :=
  match s with
  | EmptyString => Some []
  | String "c" (String c s) =>
      match get_fields s with
      | Some ((t :: ts) :: ls) => Some ((String c t :: ts) :: ls)
      | _ => None
      end
  | String ";" s =>
      match get_fields s with Some (ts :: ls) => Some (("" :: ts) :: ls) | _ => None end
  | String "|" s =>
      match get_fields s with Some ls => Some ([] :: ls) | _ => None end
  | _ => None
  end.

Lemma get_put_fields ls : get_fields (put_fields ls) = Some ls.
Proof.
  assert (∀ l rest ls, get_fields rest = Some ls → get_fields (put_texts l rest) = Some (l :: ls))
    as Htexts.
  { intros l rest ls' Hrest. induction l as [|s l IH]; simpl; [by rewrite Hrest|].
    assert (∀ s, get_fields (put_text s (put_texts l rest)) = Some ((s :: l) :: ls')) as Hs.
    { clear s. induction s as [|c s IHs]; simpl; [by rewrite IH|]. by rewrite IHs. }
    apply Hs. }
  induction ls as [|l ls IH]; [done|]. by apply Htexts.
Qed.

Fixpoint put_bits (p : positive) : list string :=
  match p with
  | xH => []
  | xO p => "0" :: put_bits p
  | xI p => "1" :: put_bits p
  end.

Fixpoint get_bits (l : list string) : positive :=
  match l with
  | [] => xH
  | b :: l => if String.eqb b "0" then xO (get_bits l) else xI (get_bits l)
  end.

Lemma get_put_bits p : get_bits (put_bits p) = p.
Proof. induction p as [p IH|p IH|]; simpl; by rewrite ?IH. Qed.

Definition put_number (z : Z) : list string :=
  match z with Z0 => [] | Zpos p => "+" :: put_bits p | Zneg p => "-" :: put_bits p end.

Definition get_number (l : list string) : Z :=
  match l with
  | [] => 0%Z
  | s :: l => if String.eqb s "+" then Zpos (get_bits l) else Zneg (get_bits l)
  end.

Lemma get_put_number z : get_number (put_number z) = z.
Proof. destruct z; simpl; by rewrite ?get_put_bits. Qed.

Definition put_state (s : MutationState) : string :=
  match s with
  | Prepared => "prepared" | Applied => "applied" | RolledBack => "rolled_back"
  | Abandoned => "abandoned"
  end.

Definition get_state (s : string) : MutationState :=
  if String.eqb s "prepared" then Prepared else if String.eqb s "applied" then Applied
  else if String.eqb s "rolled_back" then RolledBack else Abandoned.

#[local] Instance sample_serde : Serde := {|
  encode_manifest m := put_fields [
    [mf_id m]; put_number (mf_sequence m); [mf_session_id m]; [mf_turn_id m]; [mf_call_id m];
    mf_workspace m; [mf_relative_path m];
    match mf_before_blob m with Some p => "blob" :: p | None => [] end; mf_after_blob m;
    [put_state (mf_state m)]];
  decode_manifest s :=
    match get_fields s with
    | Some [[id]; number; [session]; [turn]; [call]; workspace; [relative]; before; after; [state]] =>
        Some {|
          mf_id := id; mf_sequence := get_number number; mf_session_id := session;
          mf_turn_id := turn; mf_call_id := call; mf_workspace := workspace;
          mf_relative_path := relative;
          mf_before_blob := match before with [] => None | _ :: p => Some p end;
          mf_after_blob := after; mf_state := get_state state |}
    | _ => None
    end;
  encode_marker ps := put_fields ps;
  decode_marker s := get_fields s |}.

Lemma sample_manifests m : decode_manifest (encode_manifest m) = Some m.
Proof.
  cbn [decode_manifest encode_manifest sample_serde]. rewrite get_put_fields, get_put_number.
  destruct m as [? ? ? ? ? ? ? [p|] ? []]; reflexivity.
Qed.

Lemma sample_markers ps : decode_marker (encode_marker ps) = Some ps.
Proof. apply get_put_fields. Qed.

(** * A disk *)

Fixpoint marks (n : nat) : string :=
  match n with O => "" | S n => String "u" (marks n) end.

#[local, program] Instance sample_os : Os := {|
  is_symlink _ := false; listing s := elements s; uuid n := marks n; torn := 3 |}.
Next Obligation. done. Qed.

#[local] Instance sample_laws : JournalLaws.
Proof.
  split; [apply sample_manifests|apply sample_markers|].
  intros n n' He. simpl in He. revert n' He. induction n as [|n IH]; intros [|n'] He; try done.
  injection He as He. f_equal. by apply IH.
Qed.

(** No part of the path is a name that the sample draws. *)
Definition plain (s : string) : bool :=
  match s with String "u" _ | String "." _ => false | _ => true end.

Lemma plain_clean p : forallb plain p = true → clean 0 p.
Proof.
  intros Hp n k _ Hin. rewrite forallb_forall in Hp. specialize (Hp (name n k) (proj1 (list_elem_of_In _ _) Hin)).
  destruct n, k; done.
Qed.

(** ** A workspace of one file *)

Definition base : path := ["data"].
Definition workspace : path := ["work"].

Definition fresh_disk : disk := {|
  files := {[ ["work"; "a.txt"] := "zero" ]};
  dirs := {[ []; ["work"]; ["data"] ]}; drawn := 0; left := None |}.

Lemma fresh_file p c : files fresh_disk !! p = Some c → p = ["work"; "a.txt"].
Proof. simpl. by intros [<- _]%lookup_singleton_Some. Qed.

Lemma fresh_running : running fresh_disk.
Proof.
  split; [split|].
  - intros p c q Hp (x & r & Hq). apply fresh_file in Hp as ->. simpl.
    destruct q as [|y [|z q]]; [set_solver| |].
    + injection Hq as <- _. set_solver.
    + injection Hq as _ _ Hq. by destruct q.
  - intros p Hp. destruct (files fresh_disk !! p) eqn:He; [|done]. apply fresh_file in He as ->. set_solver.
  - intros p Hp. apply plain_clean. destruct Hp as [[c Hp]|Hp].
    + by apply fresh_file in Hp as ->.
    + simpl in Hp. rewrite !elem_of_union, !elem_of_singleton in Hp. by destruct Hp as [[->| ->]| ->].
Qed.

Lemma fresh_child p : ¬ child base "s" fresh_disk p.
Proof.
  intros (Hp & Hpar & [[c Hc]|Hd]).
  - by apply fresh_file in Hc as ->.
  - simpl in Hd. rewrite !elem_of_union, !elem_of_singleton in Hd. by destruct Hd as [[->| ->]| ->].
Qed.

Lemma fresh_journal : journal_ok base "s" fresh_disk.
Proof.
  split; [apply fresh_running|done|set_solver|by intros p ?%fresh_child|
    by intros p m [?%fresh_child _]|by intros p m p' m' [?%fresh_child _]].
Qed.

Lemma fresh_turn p m : entry base "s" fresh_disk p m → mf_state m = Applied → mf_turn_id m ≠ "t1".
Proof. intros [Hc _]. by destruct (fresh_child p Hc). Qed.

Definition edit_of (call relative content : string) : edit :=
  {| e_call := call; e_workspace := workspace; e_relative := relative; e_content := content |}.

(** A turn that edits two files, and a turn that edits one file twice. *)
Definition edits : list edit := [edit_of "c1" "a.txt" "one"; edit_of "c2" "b.txt" "new"].
Definition again : list edit := [edit_of "c1" "a.txt" "one"; edit_of "c2" "a.txt" "two"].

Definition edited (es : list edit) : disk := (run_edits base "s" write_file_atomic "t1" es fresh_disk).1.

Lemma edits_outside es :
  forallb (λ e, match resolve (e_workspace e) (e_relative e) with
    | Ok t => forallb plain t && negb (bool_decide (head t = Some "data")) && negb (bool_decide (t = []))
    | _ => false
    end) es = true → Forall (outside base "s") es.
Proof.
  intros Hes. apply Forall_forall. intros e He. rewrite forallb_forall in Hes.
  specialize (Hes e (proj1 (list_elem_of_In _ _) He)).
  destruct (resolve _ _) as [t| | |] eqn:Hr; try done. exists t. rewrite !andb_true_iff in Hes.
  destruct Hes as [[Hp Hd] Hn]. split; [done|].
  split; [by apply negb_true_iff, bool_decide_eq_false in Hn|]. split; [by apply plain_clean|].
  intros [r ->]. by apply negb_true_iff, bool_decide_eq_false in Hd.
Qed.

Lemma edited_run es : (run_edits base "s" write_file_atomic "t1" es fresh_disk).2 = Ok tt →
  run_edits base "s" write_file_atomic "t1" es fresh_disk = (edited es, Ok tt).
Proof. unfold edited. destruct (run_edits _ _ _ _ es _) as [d r]. simpl. by intros ->. Qed.

(** * Properties *)

(** C36: Whatever files outside the directory of the session a new turn wrote through a
    settled journal (no marker, no mutation left prepared), as often and with whatever
    contents, a rollback of that turn succeeds, names them in the order of the writes, and leaves every file outside the
    directory of the session as it was before the turn. *)
Theorem rollback_restores_workspace `{HOs : Os} `{HSerde : Serde} `{HLaws : !JournalLaws}
    (b : path) (session turn : string) (write : path → string → io unit) (es : list edit) (d0 d1 : disk) :
  clean 0 (marker_path b session) → faithful write →
  journal_ok b session d0 → left d0 = None →
  (∀ p m, entry b session d0 p m → mf_state m = Applied → mf_turn_id m ≠ turn) →
  es ≠ [] → Forall (outside b session) es →
  run_edits b session write turn es d0 = (d1, Ok tt) →
  ∃ d2, rollback_latest_turn b session turn d1 = (d2, Ok (turn, e_relative <$> es)) ∧
    ∀ p, ¬ inside b session p → files d2 !! p = files d0 !! p.
Proof.
  intros Hc Hw Hok Hl Hnew Hne Hout Hrun.
  destruct (edits_ok _ _ Hc _ _ _ _ _ _ [] Hw Hout Hok Hl (turn_begins _ _ _ _ Hnew) Hrun)
    as (Hok1 & Hl1 & ms & Ht & Hrel). simpl in Ht.
  destruct (rollback_ok _ _ Hc _ _ _ _ Hok1 Hl1 Ht) as (d2 & Hroll & _ & Hfiles).
  { intros ->. by destruct es. }
  exists d2. split; [|done]. rewrite Hroll. do 3 f_equal. apply (f_equal (fmap snd)) in Hrel.
  by rewrite <- !list_fmap_compose in Hrel.
Qed.

Lemma rollback_restores_workspace_witness :
  run_edits base "s" write_file_atomic "t1" again fresh_disk = (edited again, Ok tt) ∧
  files (edited again) !! ["work"; "a.txt"] = Some "two" ∧
  ∃ d2, rollback_latest_turn base "s" "t1" (edited again) = (d2, Ok ("t1", ["a.txt"; "a.txt"])) ∧
    ∀ p, ¬ inside base "s" p → files d2 !! p = files fresh_disk !! p.
Proof.
  assert (run_edits base "s" write_file_atomic "t1" again fresh_disk = (edited again, Ok tt)) as Hrun
    by (apply edited_run; vm_compute; reflexivity).
  split; [exact Hrun|]. split; [vm_compute; reflexivity|].
  apply (rollback_restores_workspace base "s" "t1" write_file_atomic again fresh_disk (edited again)).
  - by apply plain_clean.
  - apply atomic_faithful.
  - apply fresh_journal.
  - reflexivity.
  - exact fresh_turn.
  - discriminate.
  - by apply edits_outside.
  - exact Hrun.
Defined.

(** A rollback never overwrites what someone else did since. If a file that the turn
    wrote holds anything else now, or is gone, the rollback is refused as a conflict and
    changes nothing at all. *)
Theorem changed_workspace_is_kept `{HOs : Os} `{HSerde : Serde} `{HLaws : !JournalLaws}
    (b : path) (session turn : string) (write : path → string → io unit) (es : list edit) (d0 d1 : disk)
    (e : edit) (t : path) (c : option string) :
  clean 0 (marker_path b session) → faithful write →
  journal_ok b session d0 → left d0 = None →
  (∀ p m, entry b session d0 p m → mf_state m = Applied → mf_turn_id m ≠ turn) →
  Forall (outside b session) es →
  run_edits b session write turn es d0 = (d1, Ok tt) →
  e ∈ es → resolve (e_workspace e) (e_relative e) = Ok t → files d1 !! t ≠ c →
  rollback_latest_turn b session turn (changed d1 t c) = (changed d1 t c, Err Conflict).
Proof.
  intros Hc Hw Hok Hl Hnew Hout Hrun He Ht Hne.
  destruct (edits_ok _ _ Hc _ _ _ _ _ _ [] Hw Hout Hok Hl (turn_begins _ _ _ _ Hnew) Hrun)
    as (Hok1 & _ & ms & Hturn & Hrel).
  apply (rollback_refused _ _ _ _ _ _ _ _ Hok1 Hturn); [|done]. simpl.
  assert ((e_workspace e, e_relative e) ∈ (λ pm, (mf_workspace pm.2, mf_relative_path pm.2)) <$> ms)
    as (pm & Heq & Hpm)%list_elem_of_fmap.
  { rewrite Hrel. apply list_elem_of_fmap. by exists e. }
  injection Heq as Hw' Hr'. exists pm. split; [done|]. by rewrite <- Hw', <- Hr'.
Qed.

Lemma changed_workspace_is_kept_witness :
  let d2 := changed (edited edits) ["work"; "a.txt"] (Some "mine") in
  rollback_latest_turn base "s" "t1" d2 = (d2, Err Conflict).
Proof.
  apply (changed_workspace_is_kept base "s" "t1" write_file_atomic edits fresh_disk (edited edits)
    (edit_of "c1" "a.txt" "one")).
  - by apply plain_clean.
  - apply atomic_faithful.
  - apply fresh_journal.
  - reflexivity.
  - exact fresh_turn.
  - by apply edits_outside.
  - apply edited_run. vm_compute. reflexivity.
  - by left.
  - reflexivity.
  - assert (files (edited edits) !! ["work"; "a.txt"] = Some "one") as -> by (vm_compute; reflexivity).
    discriminate.
Defined.

(** C12: A rollback is atomic under crashes, for a turn that wrote each file once through
    the journal, starting from a settled journal (no marker, no mutation left
    prepared). Whatever the change of the file system that the process dies at, the
    recovery that the next operation begins with succeeds and removes the marker, and
    then all files outside the directory of the session, but for temporary ones with
    drawn names, are those after the turn, or all are those before it; and they are
    those before it where the rollback had been answered. *)
Theorem interrupted_rollback_recovers `{HOs : Os} `{HSerde : Serde} `{HLaws : !JournalLaws}
    (b : path) (session turn : string) (write : path → string → io unit) (es : list edit)
    (d0 d1 d2 : disk) (n : nat) (r : res (string * list string) JournalError) :
  clean 0 (marker_path b session) → faithful write →
  journal_ok b session d0 → left d0 = None →
  (∀ p m, entry b session d0 p m → mf_state m = Applied → mf_turn_id m ≠ turn) →
  es ≠ [] → Forall (outside b session) es →
  NoDup ((λ e, resolve (e_workspace e) (e_relative e)) <$> es) →
  run_edits b session write turn es d0 = (d1, Ok tt) →
  rollback_latest_turn b session turn (dying n d1) = (d2, r) →
  ∃ d3, recover_locked b session (restarted d2) = (d3, Ok tt) ∧
    files d3 !! marker_path b session = None ∧
    ((r = Err Crashed ∧ ∀ p, clean (drawn d1) p → ¬ inside b session p → files d3 !! p = files d1 !! p) ∨
     ∀ p, clean (drawn d1) p → ¬ inside b session p → files d3 !! p = files d0 !! p).
Proof.
  intros Hc Hw Hok Hl Hnew Hne Hout Hnd Hrun Hroll.
  destruct (edits_ok _ _ Hc _ _ _ _ _ _ [] Hw Hout Hok Hl (turn_begins _ _ _ _ Hnew) Hrun)
    as (Hok1 & _ & ms & Hturn & Hrel). simpl in Hturn.
  apply (rollback_atomic b session n d1 (λ p, files d0 !! p) turn ms); try done.
  - intros ->. by destruct es.
  - apply (NoDup_fmap_1 (@Ok _ JournalError)).
    assert (Ok <$> (target <$> ms.*2) =
      (λ wr : path * string, resolve wr.1 wr.2) <$> ((λ e, (e_workspace e, e_relative e)) <$> es)) as ->;
      [|by rewrite <- list_fmap_compose].
    rewrite <- Hrel, <- !list_fmap_compose. apply list_fmap_ext. intros i pm Hpm. simpl.
    destruct (proj1 (Forall_forall _ _) (tu_owned _ _ _ _ _ _ Hturn) pm) as (t & Ho & _).
    { by eapply list_elem_of_lookup_2. }
    unfold target. by rewrite (ow_target _ _ _ _ Ho).
Qed.

Lemma interrupted_rollback_recovers_witness :
  let rolled := rollback_latest_turn base "s" "t1" (dying 7 (edited edits)) in
  rolled.2 = Err Crashed ∧ files rolled.1 !! ["work"; "b.txt"] = None ∧
  files rolled.1 !! ["work"; "a.txt"] = Some "one" ∧
  ∃ d3, recover_locked base "s" (restarted rolled.1) = (d3, Ok tt) ∧
    files d3 !! marker_path base "s" = None ∧
    ((rolled.2 = Err Crashed ∧ ∀ p, clean (drawn (edited edits)) p → ¬ inside base "s" p →
        files d3 !! p = files (edited edits) !! p) ∨
     ∀ p, clean (drawn (edited edits)) p → ¬ inside base "s" p → files d3 !! p = files fresh_disk !! p).
Proof.
  set (rolled := rollback_latest_turn base "s" "t1" (dying 7 (edited edits))).
  split; [vm_compute; reflexivity|]. split; [vm_compute; reflexivity|]. split; [vm_compute; reflexivity|].
  apply (interrupted_rollback_recovers base "s" "t1" write_file_atomic edits fresh_disk (edited edits)
    rolled.1 7 rolled.2).
  - by apply plain_clean.
  - apply atomic_faithful.
  - apply fresh_journal.
  - reflexivity.
  - exact fresh_turn.
  - discriminate.
  - by apply edits_outside.
  - repeat constructor; rewrite ?list_elem_of_singleton; [discriminate|apply not_elem_of_nil].
  - apply edited_run. vm_compute. reflexivity.
  - apply surjective_pairing.
Defined.

(** The disk after a process died at the [n]-th change of an operation on [d]. *)
Definition died {A} (n : nat) (c : io A) (d : disk) : disk := restarted (c (dying n d)).1.

(** A preview, a rollback and a mutation of the session are all refused. *)
Definition refused (e : JournalError) (d : disk) : bool :=
  bool_decide ((preview_latest_turn base "s" d).2 = Err e) &&
  bool_decide ((rollback_latest_turn base "s" "t1" d).2 = Err e) &&
  bool_decide ((prepare_mutation base "s" "t2" "c9" workspace "b.txt" "text" d).2 = Err e).

(** A turn that wrote one file twice breaks the promise of recovery. Its rollback
    succeeds when it is left alone. A process that dies between the restorations of the
    rollback, at any of nine changes, leaves a marker that no recovery can complete: the
    recovery, a preview, the rollback and every further mutation of the session are
    refused as conflicts. *)
Example interrupted_rollback_of_two_edits_is_stuck :
  (rollback_latest_turn base "s" "t1" (edited again)).2 = Ok ("t1", ["a.txt"; "a.txt"]) ∧
  forallb (λ n, let d := died n (rollback_latest_turn base "s" "t1") (edited again) in
    bool_decide ((recover_locked base "s" d).2 = Err Conflict) && refused Conflict d) (seq 12 9) = true.
Proof. split; vm_compute; reflexivity. Qed.

(** A process that dies while it writes a manifest leaves a temporary file among the
    manifests, and from then on all of them are refused as malformed: after the death of
    a first mutation, which did not touch the workspace, and after that of a commit. A
    complete temporary file counts as a second mutation, and the rollback conflicts. *)
Example torn_manifest_blocks_the_session :
  let d n := died n (run_edits base "s" write_file_atomic "t1" [edit_of "c1" "a.txt" "one"]) fresh_disk in
  files (d 12) !! ["work"; "a.txt"] = Some "zero" ∧ refused Malformed (d 12) = true ∧
  files (d 20) !! ["work"; "a.txt"] = Some "one" ∧ refused Malformed (d 20) = true ∧
  (rollback_latest_turn base "s" "t1" (d 21)).2 = Err Conflict.
Proof. vm_compute. repeat split. Qed.

Section truth.
Context `{HOs : Os} `{HSerde : Serde} (b : path) (session turn call : string).

(** An answer that holds of the file of a manifest. *)
Definition truthful (d : disk) (m : Manifest) (answer : WorkspaceMutationRecovery) : Prop :=
  ∃ t a, resolve (mf_workspace m) (mf_relative_path m) = Ok t ∧ files d !! mf_after_blob m = Some a ∧
    match answer with
    | Committed => files d !! t = Some a ∧ (mf_state m = Applied ∨ mf_state m = Prepared)
    | NotCommitted =>
        before_content d m = Ok (files d !! t) ∧ (mf_state m = Prepared ∨ mf_state m = Abandoned)
    | WasRolledBack => before_content d m = Ok (files d !! t) ∧ mf_state m = RolledBack
    | Unknown => False
    end.

(** A manifest of the call. *)
Definition of_call (d : disk) (m : Manifest) : Prop :=
  ∃ p, p ≠ [] ∧ parent p = entries_dir b session ∧ read_manifest d p = Ok m ∧
    mf_session_id m = session ∧ mf_turn_id m = turn ∧ mf_call_id m = call.

Lemma reconcile_manifest_true d m : reconcile_manifest d m = Unknown ∨ truthful d m (reconcile_manifest d m).
Proof using.
  unfold truthful, reconcile_manifest, before_content, read_file.
  destruct (resolve _ _) as [t| | |]; [|by left..].
  destruct (files d !! mf_after_blob m) as [a|]; [|by left].
  destruct (mf_before_blob m) as [p|]; [destruct (files d !! p) as [c|]; [|by left]|]; simpl;
    repeat case_bool_decide; simpl; try (by left); right; exists t, a;
    (split; [done|]; split; [done|]; split; [congruence|tauto]).
Qed.

(** What the recovery of a tool call concludes from the journal holds of the
    workspace. Unless it concludes nothing, the call has exactly one manifest; a
    committed call's file holds what the call wrote, and the file of a call that was not
    committed, or was rolled back, is as the call found it, absent where it was. *)
Theorem reconcile_truthful (d : disk) :
  reconcile_tool_call b d session turn call = Unknown ∨
  ∃ m, of_call d m ∧ (∀ m', of_call d m' → m' = m) ∧
    truthful d m (reconcile_tool_call b d session turn call).
Proof using.
  unfold reconcile_tool_call. destruct (read_dir d _) as [found| | |] eqn:Hrd; [|by left..].
  set (matching := filter _ _).
  assert (∀ m, m ∈ matching ↔ of_call d m) as Hm.
  { intros m. unfold matching, of_call. rewrite list_elem_of_filter, list_elem_of_omap.
    apply entries_list in Hrd as [_ Hl]. split.
    - intros ((Hs & Ht & Hc) & p & Hp & Hr). apply Hl in Hp as (Hp & Hpar & _).
      destruct (read_manifest d p) as [m'| | |] eqn:Hm'; try done. injection Hr as ->. by exists p.
    - intros (p & Hp & Hpar & Hr & Hs & Ht & Hc). split; [done|]. exists p. rewrite Hr. split; [|done].
      apply Hl. split_and!; [done..|]. left. unfold read_manifest, read_file in Hr.
      destruct (files d !! p); [by eexists|done]. }
  destruct matching as [|m [|m2 l]]; [by left| |by left].
  destruct (reconcile_manifest_true d m) as [?|Ht]; [by left|]. right. exists m. split; [apply Hm; by left|].
  split; [|done]. intros m' Hm'. apply Hm in Hm'. by apply list_elem_of_singleton in Hm'.
Qed.
End truth.
