(* ===== verification/TurnSpec.v ===== *)
(** What the session store guarantees about turns, model iterations, tool calls,
    recovery and the message history, over every interleaving of its operations.

    Each theorem is followed by its instance on the turn of [TurnSample]. *)

From S2P Require Import Prelude Graph Instance Store Ledger ToolContract ToolInvocation.
From S2P Require Membership.
From S2P Require Import WorkspaceStore InstanceStore StoreSystem SystemSample.
From S2P Require Import SessionTables TurnStore ToolStore HistoryStore.
From S2P Require Import TurnFacts HistoryFacts TurnRun LedgerRun TurnSample.
From stdpp Require Import base tactics gmap strings list relations.
From Stdlib Require Import ZArith Lia.

#[local] Existing Instance sample_crates.

(** C5: Whatever operations of the session store run in whatever order, between
    operations of the stores below it that delete no message, the tables stay well
    formed as a whole: invocation ids are unique, iterations of a turn are numbered
    without gaps and only the last is open, an instance runs one turn at a time, an
    iteration past its start has its response as a message of the assistant of that
    turn, a completed turn has no running call and the running calls of any other
    ended turn have crossed the boundary of their effect, and no effective policy is
    laxer than the declared one. The invariant of the stores below is kept as well. *)
Theorem ledger_run_invariant `{!Crates} `{!HashOrder} d ops
    (Hok : turns_ok d) (Hd : durable_ok (sd d)) (Hlegal : session_legal_run d ops) :
  turns_ok (session_run d ops) ∧ durable_ok (sd (session_run d ops)).
Proof. by destruct (session_run_ok d ops Hok Hd Hlegal) as (? & ? & _). Qed.

Lemma ledger_run_invariant_witness :
  turns_ok (session_run opened (asking ++ calling)) ∧
  durable_ok (sd (session_run opened (asking ++ calling))).
Proof.
  apply (ledger_run_invariant opened (asking ++ calling)); [apply opened_ok..|].
  repeat split.
Defined.

(** C6: Nothing that is settled changes again, whatever operations run, as long as the
    operations of the stores below delete no message (saving a whole membership over
    an existing one deletes them): a turn that ended and a call that ended keep their
    rows to the last column, the response of an iteration stays the message it was,
    messages keep their author and content, decisions of the moderator stay. A call
    that still runs keeps its identity, and its position and revision do not fall. *)
Theorem settled_rows_are_frozen `{!Crates} `{!HashOrder} d ops
    (Hok : turns_ok d) (Hd : durable_ok (sd d)) (Hlegal : session_legal_run d ops) :
  let d' := session_run d ops in
  (∀ k t, session_turns d !! k = Some t → tn_state t ≠ TurnStates.Running →
     session_turns d' !! k = Some t) ∧
  (∀ k c, tool_calls d !! k = Some c → tl_state c ≠ CallStates.Running →
     tool_calls d' !! k = Some c) ∧
  (∀ k r id, iterations d !! k = Some r → it_response_message_id r = Some id →
     ∃ r', iterations d' !! k = Some r' ∧ it_response_message_id r' = Some id ∧
       it_response_terminal r' = it_response_terminal r) ∧
  (∀ k l, lines (sd d) !! k = Some l → ∃ l', lines (sd d') !! k = Some l' ∧
     l_content l' = l_content l ∧ l_agent_instance_id l' = l_agent_instance_id l) ∧
  recovery_actions d ⊆ recovery_actions d' ∧
  (∀ k c, tool_calls d !! k = Some c → ∃ c', tool_calls d' !! k = Some c' ∧ same_identity c c' ∧
     (tool_rank (tl_position c) ≤ tool_rank (tl_position c'))%Z ∧
     (tl_ledger_revision c ≤ tl_ledger_revision c')%Z).
Proof.
  destruct (session_run_ok d ops Hok Hd Hlegal) as (_ & _ & [Ht Hi Hc Ha Hl _]). cbv zeta.
  split_and!; [..|done|].
  - intros k t Hk Hs. destruct (Ht k t Hk) as (t' & Ht' & [->|(_ & Hr & _)]); done.
  - intros k c Hk Hs. destruct (Hc k c Hk) as (c' & Hc' & [->|(_ & Hr & _)]); done.
  - intros k r id Hk Hs. destruct (Hi k r Hk) as (r' & Hr' & [->|(_ & _ & _ & Hresp)]);
      [by exists r|]. exists r'. destruct Hresp as [He1 He2]; [by rewrite Hs|].
    by rewrite He1, Hs.
  - intros k l Hk. destruct (Hl k l Hk) as (l' & Hl' & ? & ? & _). by exists l'.
  - intros k c Hk. destruct (Hc k c Hk) as (c' & Hc' & [->|(? & _ & ? & ? & _)]).
    + by exists c.
    + by exists c'.
Qed.

Definition late : list session_op := [
  OpFinishCall {| cc_session_id := "s"; cc_turn_id := "t1"; cc_call_id := "c1";
                  cc_state := CallStates.Succeeded; cc_failure_kind := None |} 200;
  OpFinishTurn "s" "t1" TurnStates.Failed (Some TurnFailures.AgentLoop) 201;
  OpMarkSummarized worker "s" 0 100].

Lemma abandoned_ok : turns_ok abandoned ∧ durable_ok (sd abandoned).
Proof.
  destruct (session_run_ok opened (asking ++ calling ++
    [OpClassifyTool (classify "runtime-a" 2 100); OpResolve (abandon "0000-action")]))
    as (? & ? & _); [apply opened_ok..|repeat split|]. done.
Qed.

Lemma settled_rows_are_frozen_witness :
  tn_state <$> session_turns (session_run abandoned late) !! ("s", "t1") =
    Some TurnStates.Interrupted ∧
  recovery_actions abandoned ⊆ recovery_actions (session_run abandoned late).
Proof.
  destruct (settled_rows_are_frozen abandoned late) as (Ht & _ & _ & _ & Ha & _);
    [apply abandoned_ok..|repeat split|].
  split; [|exact Ha]. destruct (session_turns abandoned !! ("s", "t1")) as [t|] eqn:Hk.
  - assert (tn_state t = TurnStates.Interrupted) as Hs.
    { pose proof abandoned_rows as [Hs _]. rewrite Hk in Hs. by injection Hs. }
    rewrite (Ht _ _ Hk) by by rewrite Hs. simpl. by rewrite Hs.
  - pose proof abandoned_rows as [Hs _]. by rewrite Hk in Hs.
Defined.

(** C15: What the model said is durable before anything is done about it: an iteration
    past its start has its response in the history, as a message of the assistant
    with the model that was asked, written by the instance of the turn; and an
    iteration is only there when each one before it has its response and its tools
    resolved. *)
Theorem responses_are_durable `{!Crates} `{!HashOrder} d ops key n r
    (Hok : turns_ok d) (Hd : durable_ok (sd d)) (Hlegal : session_legal_run d ops)
    (Hr : iterations (session_run d ops) !! (key, n) = Some r) :
  let d' := session_run d ops in
  (it_position r ≠ ModelPositions.ModelStarted →
     ∃ id, it_response_message_id r = Some id ∧ response_ok d' r id) ∧
  (∀ m, (1 ≤ m < n)%Z → ∃ r' id, iterations d' !! (key, m) = Some r' ∧
     it_position r' = ModelPositions.ToolsResolved ∧
     it_response_message_id r' = Some id ∧ response_ok d' r' id).
Proof.
  destruct (session_run_ok d ops Hok Hd Hlegal) as (Hok' & _ & _).
  assert (∀ k x, iterations (session_run d ops) !! k = Some x →
    it_position x ≠ ModelPositions.ModelStarted →
    ∃ id, it_response_message_id x = Some id ∧ response_ok (session_run d ops) x id) as Hresp.
  { intros k x Hx Hp. destruct (to_iterations _ Hok' _ _ Hx) as (_ & _ & _ & _ & Hm).
    destruct (it_response_message_id x) as [id|]; destruct (it_response_terminal x); try done.
    exists id. by destruct Hm. }
  split; [by apply (Hresp _ _ Hr)|]. intros m Hm.
  destruct (to_sequence _ Hok' _ _ _ m Hr Hm) as (r' & Hr' & Hp).
  destruct (Hresp _ _ Hr') as (id & ? & ?); [by rewrite Hp|]. by exists r', id.
Qed.

Lemma responses_are_durable_witness :
  ∃ r id, Some r = iterations (session_run opened asking) !! ("s", "t1", 1%Z) ∧
    it_response_message_id r = Some id ∧ response_ok (session_run opened asking) r id.
Proof.
  destruct (iterations (session_run opened asking) !! ("s", "t1", 1%Z)) as [r|] eqn:Hr;
    [|by vm_compute in Hr].
  destruct (responses_are_durable opened asking ("s", "t1") 1 r) as [Hresp _];
    [apply opened_ok..|repeat split|exact Hr|].
  destruct Hresp as (id & Hid & Hmsg); [|exists r, id; exact (conj eq_refl (conj Hid Hmsg))].
  assert (it_position <$> iterations (session_run opened asking) !! ("s", "t1", 1%Z) =
    Some ModelPositions.ResponsePersisted) as Hp by (vm_compute; reflexivity).
  rewrite Hr in Hp. injection Hp as ->. discriminate.
Defined.

(** C16: The position of a tool call is a compare-and-swap: after a request succeeded, the
    call is at the position and revision it asked for, the same request answers the
    same and changes nothing, and a request that saw the same revision but goes
    elsewhere is refused. *)
Theorem call_position_is_swapped_once d a now n d' (H : advance_tool_call d a now = Ok (n, d')) :
  let k := call_key (ca_session_id a) (ca_turn_id a) (ca_call_id a) in
  n = (ca_expected_revision a + 1)%Z ∧
  (∃ c, tool_calls d' !! k = Some c ∧ tl_position c = ca_next_position a ∧
     tl_ledger_revision c = n) ∧
  (∀ now', advance_tool_call d' a now' = Ok (n, d')) ∧
  (∀ b now', call_key (ca_session_id b) (ca_turn_id b) (ca_call_id b) = k →
     ca_expected_revision b = ca_expected_revision a → ca_next_position b ≠ ca_next_position a →
     advance_tool_call d' b now' = Err Invalid).
Proof.
  intros k. unfold advance_tool_call in H. apply bail_ok in H as [Hadv H].
  apply res_bind_ok in H as (next & Hnext & H). apply res_bind_ok in H as (? & Hi1 & H).
  apply res_bind_ok in H as (? & Hi2 & H). apply res_bind_ok in H as (c & Hc & H).
  pose proof (next_u64_succ _ _ Hnext) as Hn. rewrite ok_or_ok in Hc.
  assert (n = next ∧ ∃ c', tool_calls d' !! k = Some c' ∧
    tl_position c' = ca_next_position a ∧ tl_ledger_revision c' = next) as (-> & c' & Hc' & Hp & Hv).
  { destruct (call_at c _ _) eqn:Hat.
    - injection H as <- <-. split; [done|]. eexists. simpl. by rewrite lookup_insert_eq.
    - apply bail_ok in H as [[Hp Hv]%negb_false_iff%andb_true_iff [= <- <-]].
      split; [done|]. exists c. split; [done|].
      by apply bool_decide_eq_true in Hp; apply Z.eqb_eq in Hv. }
  split; [done|]. split; [by exists c'|].
  assert (∀ p, call_at c' p (ca_expected_revision a) = false) as Hno.
  { intros p. unfold call_at. rewrite Hv, Hn.
    by rewrite (proj2 (Z.eqb_neq _ _)) by lia. }
  split.
  - intros now'. unfold advance_tool_call. rewrite Hadv, Hnext, Hi1. simpl. rewrite Hi2. simpl.
    fold k. rewrite Hc'. simpl. rewrite Hno, Hp, Hv, Z.eqb_refl, bool_decide_eq_true_2 by done. done.
  - intros b now' Hk He Hne. unfold advance_tool_call. rewrite He, Hnext, Hi1.
    destruct (ToolPositions.can_advance_to (ca_expected_position b) _); [|done]. simpl.
    rewrite Hi2. simpl. rewrite Hk, Hc'. simpl.
    by rewrite Hno, Hp, bool_decide_eq_false_2.
Qed.

Lemma call_position_is_swapped_once_witness :
  advance_tool_call started (advance 1 ToolPositions.Authorized ToolPositions.EffectStarted) 40 =
    Ok (2%Z, started).
Proof.
  set (d := session_run answered (take 2 calling)).
  destruct (call_position_is_swapped_once d
    (advance 1 ToolPositions.Authorized ToolPositions.EffectStarted) 15 2 started)
    as (_ & _ & Hsame & _); [vm_compute; reflexivity|]. apply Hsame.
Defined.

(** C7: The moderator decides once about an interrupted invocation: a decision is only
    taken for the current moderator of the session, about an invocation that waits for
    an operator at the revision the moderator saw; it is recorded with its request; and
    after any further operations the record is the same, the same request is answered
    with it and changes nothing as long as its author is still the moderator, and no
    request under another id about the invocation succeeds. A decision to abandon
    leaves the turn ended and no call of it running. *)
Theorem recovery_decision_is_final `{!Crates} `{!HashOrder} d w a d'
    (Hok : turns_ok d) (Hd : durable_ok (sd d))
    (Hr : resolve_execution_recovery d w = Ok (a, d')) :
  Membership.moderator_instance_id <$> governance (base (sd d)) !! aw_session_id w =
    Some (aw_resolved_by w) ∧
  same_action a w = true ∧ recovery_actions d' !! aw_action_id w = Some a ∧
  (recovery_actions d !! aw_action_id w = None →
     match aw_target w with
     | TargetModel i => ∃ k r, find_iteration d i = Some (k, r) ∧
         iteration_awaits_operator r = true ∧ it_ledger_revision r = aw_expected_ledger_revision w
     | TargetTool i => ∃ k c, find_call d i = Some (k, c) ∧ call_running c = true ∧
         awaits_operator c = true ∧ tl_ledger_revision c = aw_expected_ledger_revision w
     end ∧
     (aw_action w = Actions.AbandonTurn →
        has_running_call d' (aw_session_id w) (aw_turn_id w) = false ∧
        ∀ t, session_turns d' !! (aw_session_id w, aw_turn_id w) = Some t → turn_running t = false)) ∧
  ∀ ops, session_legal_run d' ops →
    let d2 := session_run d' ops in
    recovery_actions d2 !! aw_action_id w = Some a ∧
    (uuid_parses (target_invocation (aw_target w)) = true → (0 ≤ aw_expected_ledger_revision w)%Z →
       Membership.moderator_instance_id <$> governance (base (sd d2)) !! aw_session_id w =
         Some (aw_resolved_by w) →
       resolve_execution_recovery d2 w = Ok (a, d2)) ∧
    ∀ w2 a2 d3, aw_target w2 = aw_target w → resolve_execution_recovery d2 w2 = Ok (a2, d3) →
      aw_action_id w2 = aw_action_id w ∧ a2 = a ∧ d3 = d2.
Proof.
  destruct (resolve_kept d w a d' Hok Hr) as (Hok' & _ & Hb). pose proof Hr as Hr0.
  apply resolve_ok in Hr; [|done]. destruct Hr as (Hmod & Hsame & Hrec & Hnew). split_and!; [done..|].
  intros ops Hops. destruct (session_run_ok d' ops) as (Hok2 & _ & Hs2);
    [done|by eapply below_durable|done|].
  assert (recovery_actions (session_run d' ops) !! aw_action_id w = Some a) as Ha
    by by eapply lookup_weaken, (tp_actions _ _ Hs2).
  split; [done|]. split; [intros; by eapply resolve_again|].
  intros w2 a2 d3 Ht Hr2. by eapply resolved_once.
Qed.

Lemma waiting_ok : turns_ok waiting ∧ durable_ok (sd waiting).
Proof.
  destruct (session_run_ok opened (asking ++ calling ++ [OpClassifyTool (classify "runtime-a" 2 100)]))
    as (? & ? & _); [apply opened_ok..|repeat split|]. done.
Qed.

Lemma recovery_decision_is_final_witness :
  let later := session_run abandoned late in
  ∃ a, resolve_execution_recovery later (abandon "0000-action") = Ok (a, later) ∧
    ∀ a2 d3, resolve_execution_recovery later (abandon "0000-other") ≠ Ok (a2, d3).
Proof.
  exists (action_receipt (abandon "0000-action") 4).
  destruct (recovery_decision_is_final waiting (abandon "0000-action")
    (action_receipt (abandon "0000-action") 4) abandoned) as (_ & _ & _ & _ & Hlater);
    [apply waiting_ok..|vm_compute; reflexivity|].
  destruct (Hlater late) as (_ & Hsame & Hno); [repeat split|]. split.
  - apply Hsame; [reflexivity|discriminate|vm_compute; reflexivity].
  - intros a2 d3 Hr2. destruct (Hno (abandon "0000-other") a2 d3 eq_refl Hr2) as [He _].
    discriminate He.
Defined.

(** A lease on an interrupted invocation is exclusive: right after one runtime
    classified a call or an iteration, no other runtime does before that lease has run
    out. *)
Theorem recovery_lease_is_exclusive d :
  (∀ w n d' w', classify_tool_recovery d w = Ok (n, d') →
     turns_ok d → tw_invocation_id w' = tw_invocation_id w →
     tw_recovery_owner w' ≠ tw_recovery_owner w → (tw_observed_at w' < tw_lease_expires_at w)%Z →
     ∀ out, classify_tool_recovery d' w' ≠ Ok out) ∧
  (∀ w n d' w', classify_model_recovery d w = Ok (n, d') →
     turns_ok d → mw_invocation_id w' = mw_invocation_id w →
     mw_recovery_owner w' ≠ mw_recovery_owner w → (mw_observed_at w' < mw_lease_expires_at w)%Z →
     ∀ out, classify_model_recovery d' w' ≠ Ok out).
Proof.
  split; intros w n d' w' Hc Hok Hid Hown Hobs [n' d2] Hc'.
  - destruct (classify_tool_lease _ _ _ _ Hok Hc) as (k & c & Hf & Ho & Hl).
    rewrite <- Hid in Hf. destruct (classify_tool_free _ _ _ _ Hc') as (k' & c' & Hf' & Hmay).
    rewrite Hf' in Hf. injection Hf as -> ->. unfold may_recover in Hmay. rewrite Ho, Hl in Hmay.
    rewrite bool_decide_eq_false_2 in Hmay by congruence. apply Z.leb_le in Hmay. lia.
  - destruct (classify_model_lease _ _ _ _ Hok Hc) as (k & r & Hf & Ho & Hl).
    rewrite <- Hid in Hf. destruct (classify_model_free _ _ _ _ Hc') as (k' & r' & Hf' & Hmay).
    rewrite Hf' in Hf. injection Hf as -> ->. rewrite Ho, Hl in Hmay.
    rewrite bool_decide_eq_false_2, orb_false_r in Hmay by congruence. apply Z.leb_le in Hmay. lia.
Qed.

Lemma recovery_lease_is_exclusive_witness :
  match classify_tool_recovery waiting (classify "runtime-b" 3 129) with
  | Ok _ => False
  | _ => True
  end.
Proof.
  destruct (recovery_lease_is_exclusive started) as [Htool _].
  destruct (classify_tool_recovery waiting (classify "runtime-b" 3 129)) as [out| | |] eqn:Hc;
    [|exact I..].
  apply (Htool (classify "runtime-a" 2 100) 3%Z waiting (classify "runtime-b" 3 129)) with out;
    [vm_compute; reflexivity| |reflexivity|discriminate|reflexivity|exact Hc].
  destruct (session_run_ok opened (asking ++ calling)) as (Hok & _); [apply opened_ok..|repeat split|].
  exact Hok.
Defined.

(** C13: A turn starts for an instance that is a member of an open session, in a state
    that can work, with exactly the configuration stored for it, and only while no turn
    of it runs and no call of any of its turns; the turn is new, and the message of the
    user goes to the end of the history with it. *)
Theorem turn_starts_without_open_effect d ctx start now out d'
    (Hok : turns_ok d) (H : begin_turn d ctx start now = Ok (out, d')) :
  let s := ts_session_id start in
  let i := ts_agent_instance_id start in
  (∀ k t, session_turns d !! k = Some t → k.1 = s → tn_state t = TurnStates.Running →
     tn_agent_instance_id t ≠ i) ∧
  (∀ k c t, tool_calls d !! k = Some c → session_turns d !! k.1 = Some t → k.1.1 = s →
     tn_agent_instance_id t = i → call_running c = false) ∧
  (∃ row cfg p, sessions (sd d) !! s = Some row ∧ is_archived row = false ∧
     configs (sd d) !! (s, i) = Some cfg ∧ config_revision cfg = ts_config_revision start ∧
     effective cfg = ts_effective_config start ∧ load_agent_instance (sd d) s i = Some p ∧
     unavailable (ai_state p) = false) ∧
  session_turns d !! (s, ts_turn_id start) = None ∧
  (∃ t, session_turns d' !! (s, ts_turn_id start) = Some t ∧ turn_running t = true ∧
     tn_agent_instance_id t = i ∧ tn_effective_config t = ts_effective_config start) ∧
  ∃ seq, next_seq d s = Ok seq ∧
    lines (sd d') = <[(s, seq) := written_line ctx MessageRoles.User (ts_user_content start)
      (Some (ts_model_id start)) None now]> (lines (sd d)).
Proof.
  unfold begin_turn in H. apply bail_ok in H as [_ H]. apply res_bind_ok in H as (? & _ & H).
  apply bail_ok in H as [_ H]. apply res_bind_ok in H as (cfg & Hcfg & H). rewrite ok_or_ok in Hcfg.
  apply bail_ok in H as [Hrev%negb_eqb H]. apply bail_ok in H as [Heff%neq_eq H].
  apply res_bind_ok in H as (p & Hp & H). rewrite ok_or_ok in Hp.
  apply bail_ok in H as [[_ Hun]%orb_false_iff H]. apply bail_ok in H as [Hopen H].
  apply bail_ok in H as [[Hnew Hone]%orb_false_iff H]. apply res_bind_ok in H as (seq & Hseq & H).
  apply res_bind_ok in H as ([id d2] & Hi & H). injection H as _ <-.
  assert (session_turns d !! (ts_session_id start, ts_turn_id start) = None) as Hnone
    by by destruct (session_turns d !! _).
  eapply insert_message_ok in Hi as (_ & _ & Hl & _ & Ht & _);
    [|by apply kept_new_turn; [done|done|split_and!|..]].
  split; [by apply instance_runs_false|]. split; [|split; [|split; [done|split]]].
  - intros k c t Hc Htn Hs Hi'. unfold unresolved_effect in Hopen.
    rewrite existsb_false_elem in Hopen. specialize (Hopen (k, c)).
    rewrite elem_of_map_to_list in Hopen. specialize (Hopen Hc). simpl in Hopen.
    rewrite Htn, Hs, Hi', !bool_decide_eq_true_2 in Hopen by done.
    by destruct (call_running c).
  - unfold turn_config in Hcfg. destruct (sessions (sd d) !! _) as [row|]; [|done].
    destruct (is_archived row) eqn:Har; [done|]. by exists row, cfg, p.
  - simpl. rewrite Ht. simpl. eexists. rewrite lookup_insert_eq. done.
  - exists seq. split; [done|]. simpl. by rewrite Hl.
Qed.

Lemma turn_starts_without_open_effect_witness :
  ∃ seq, next_seq opened "s" = Ok seq ∧
    lines (sd (session_exec opened (OpBeginTurn worker start_turn 10))) =
      <[("s", seq) := written_line worker MessageRoles.User "build it" (Some "model") None 10]>
        (lines (sd opened)).
Proof.
  destruct (begin_turn opened worker start_turn 10) as [[out d']| | |] eqn:Hb;
    [|by vm_compute in Hb..].
  destruct (turn_starts_without_open_effect opened worker start_turn 10 out d') as (_ & _ & _ & _ & _ & Hl);
    [apply opened_ok|exact Hb|].
  unfold session_exec. rewrite Hb. exact Hl.
Defined.

(** C17: Replacing the active history of a caller is exact: read without what was
    summarized, the history is then the replacement and nothing else, in its order;
    every history that shares no message with it is read as before, whatever is asked
    of it; and no message is lost, the old ones are only marked. *)
Theorem replaced_history_is_exact d ctx s ms now d'
    (Hok : turns_ok d) (H : replace_active_history d ctx s ms now = Ok (tt, d')) :
  (∃ out, read_history d' ctx s false None = Ok out ∧
     (λ m, (sm_role m, sm_content m, sm_tool_name m)) <$> out =
       (λ m, (rm_role m, rm_content m, rm_tool_name m)) <$> ms) ∧
  (∀ s' ctx' all limit, apart s ctx s' ctx' →
     read_history d' ctx' s' all limit = read_history d ctx' s' all limit) ∧
  (∀ k l, lines (sd d) !! k = Some l → ∃ l', lines (sd d') !! k = Some l' ∧
     l_content l' = l_content l ∧ l_agent_instance_id l' = l_agent_instance_id l) ∧
  count_active_messages d' ctx s = length ms.
Proof.
  destruct (replaced_rows _ _ _ _ _ _ Hok H) as ((Hok' & Hs & _) & (seq & Hrows) & Hother).
  assert (∃ out, read_all (read_line d') (replacement_rows ctx s seq now ms) = Ok out ∧
    (λ m, (sm_role m, sm_content m, sm_tool_name m)) <$> out =
      (λ m, (rm_role m, rm_content m, rm_tool_name m)) <$> ms) as (out & Hread & Hout).
  { apply read_replacement. intros kl Hkl. rewrite <- Hrows in Hkl. by eapply history_has_keys. }
  split; [|split; [|split]].
  - exists out. split; [|done]. unfold read_history. by rewrite Hrows.
  - intros s' ctx' all limit Hapart. apply read_history_same; [done|apply Hs|]. by apply Hother.
  - intros k l Hl. destruct (tp_lines _ _ Hs k l Hl) as (l' & ? & ? & ? & _). by exists l'.
  - unfold count_active_messages. rewrite Hrows. clear. revert seq.
    induction ms as [|m ms IH]; intros seq; [done|]. simpl. by rewrite IH.
Qed.

Definition summary : list ReplacementMessage := [
  {| rm_role := MessageRoles.User; rm_content := "summary"; rm_tool_name := None |}].

Lemma replaced_history_is_exact_witness :
  count_active_messages (session_exec answered (OpReplaceHistory worker "s" summary 50)) worker "s" = 1%nat.
Proof.
  destruct (replace_active_history answered worker "s" summary 50) as [[[] d']| | |] eqn:Hr;
    [|by vm_compute in Hr..].
  destruct (replaced_history_is_exact answered worker "s" summary 50 d') as (_ & _ & _ & Hcount).
  - destruct (session_run_ok opened asking) as (Hok & _); [apply opened_ok..|repeat split|]. exact Hok.
  - exact Hr.
  - unfold session_exec. rewrite Hr. exact Hcount.
Defined.

(** A limit takes the messages that come first in the history: the oldest, not the
    most recent ones. *)
Theorem history_limit_keeps_the_oldest d ctx s all out n
    (H : read_history d ctx s all None = Ok out) :
  read_history d ctx s all (Some n) = Ok (take n out).
Proof. by apply read_all_take. Qed.

Lemma history_limit_keeps_the_oldest_witness :
  ∃ out, read_history answered worker "s" true None = Ok out ∧
    read_history answered worker "s" true (Some 1%nat) = Ok (take 1 out).
Proof.
  destruct (read_history answered worker "s" true None) as [out| | |] eqn:Hr;
    [|by vm_compute in Hr..].
  exists out. split; [reflexivity|].
  exact (history_limit_keeps_the_oldest answered worker "s" true out 1 Hr).
Defined.

(** ** Usage *)

Definition sum (f : Z * Z * option Z → Z) (rs : list (Z * Z * option Z)) : Z := foldr (λ r n, f r + n)%Z 0%Z rs.

(** What a list of recorded iterations adds up to. *)
Definition usage_of (rs : list (Z * Z * option Z)) : SessionUsage := {|
  su_iterations := Z.of_nat (length rs); su_input_tokens := sum (λ r, r.1.1) rs;
  su_output_tokens := sum (λ r, r.1.2) rs;
  su_cost_nano_usd := match rs with
                      | [] => None
                      | _ => if forallb (λ r, Workspace.is_some r.2) rs
                             then Some (sum (λ r, default 0%Z r.2) rs) else None
                      end |}.

Definition record_all (d : tdb) (s : SessionId) (rs : list (Z * Z * option Z)) : tdb :=
  foldl (λ d r, (run d (record_usage d s r.1.1 r.1.2 r.2)).2) d rs.

(** The row that records [rs]. *)
Definition usage_row_of (rs : list (Z * Z * option Z)) : usage_row := {|
  u_iterations := Z.of_nat (length rs); u_input_tokens := sum (λ r, r.1.1) rs;
  u_output_tokens := sum (λ r, r.1.2) rs; u_cost_nano_usd := sum (λ r, default 0%Z r.2) rs;
  u_cost_complete := if forallb (λ r, Workspace.is_some r.2) rs then 1 else 0 |}.

Lemma sum_snoc f rs r : sum f (rs ++ [r]) = (sum f rs + f r)%Z.
Proof. unfold sum. induction rs as [|x rs IH]; simpl in *; lia. Qed.

Lemma usage_row_snoc rs r :
  usage_row_of (rs ++ [r]) = {|
    u_iterations := u_iterations (usage_row_of rs) + 1;
    u_input_tokens := u_input_tokens (usage_row_of rs) + r.1.1;
    u_output_tokens := u_output_tokens (usage_row_of rs) + r.1.2;
    u_cost_nano_usd := u_cost_nano_usd (usage_row_of rs) + default 0%Z r.2;
    u_cost_complete := u_cost_complete (usage_row_of rs) *
      match r.2 with Some _ => 1 | None => 0 end |}.
Proof.
  unfold usage_row_of. rewrite !sum_snoc, forallb_app, length_app, Nat2Z.inj_add. simpl.
  f_equal. destruct (forallb _ rs), r.2; done.
Qed.

(** The usage of a session is the sum of what was recorded for it, as long as it fits
    the columns; the cost is known when the cost of every iteration is. *)
Theorem usage_is_the_sum d s rs
    (Hs : is_Some (sessions (sd d) !! s)) (Hnew : usages d !! s = None)
    (Hcost : Forall (λ r, (default 0%Z r.2 <= i64_max)%Z) rs)
    (Hn : (Z.of_nat (length rs) <= u32_max)%Z)
    (Hin : (sum (λ r, r.1.1) rs <= i64_max)%Z) (Hout : (sum (λ r, r.1.2) rs <= i64_max)%Z)
    (Hsum : (sum (λ r, default 0%Z r.2) rs <= i64_max)%Z) :
  usage (record_all d s rs) s = Ok (usage_of rs).
Proof.
  assert (sd (record_all d s rs) = sd d ∧
    usages (record_all d s rs) !! s = match rs with [] => None | _ => Some (usage_row_of rs) end)
    as [_ Hrow].
  { clear Hn Hin Hout Hsum. induction rs as [|r rs IH] using rev_ind; [done|].
    apply Forall_app in Hcost as [Hcost Hr]. destruct (IH Hcost) as [Hsd Hrow].
    apply Forall_cons in Hr as [Hr _]. unfold record_all in *. rewrite foldl_app. simpl.
    set (d1 := foldl _ d rs) in *. unfold record_usage.
    rewrite (proj2 (Z.ltb_ge _ _) Hr). rewrite Hsd. destruct Hs as [row ->]. simpl.
    cbn [run fst snd sd usages set_usages]. split; [exact Hsd|].
    rewrite lookup_insert_eq, Hrow, usage_row_snoc.
    destruct rs as [|r0 rs]; [|done]. destruct r as [[i o] [c|]]; by repeat f_equal. }
  unfold usage, read_usage. rewrite Hrow.
  destruct rs as [|r rs]; [done|]. set (l := r :: rs) in *.
  unfold usage_row_of, usage_of, checked_u32. cbn [u_iterations u_input_tokens u_output_tokens
    u_cost_nano_usd u_cost_complete].
  rewrite (proj2 (Z.leb_le 0 _)) by lia. rewrite (proj2 (Z.leb_le _ u32_max)) by done.
  cbn [andb res_bind]. rewrite !(proj2 (Z.ltb_ge i64_max _)) by done.
  by destruct (forallb _ l).
Qed.

Lemma usage_is_the_sum_witness :
  usage (record_all opened "s" [(10, 5, Some 3); (7, 2, Some 4)]%Z) "s" = Ok {|
    su_iterations := 2; su_input_tokens := 17; su_output_tokens := 7;
    su_cost_nano_usd := Some 7%Z |}.
Proof.
  apply (usage_is_the_sum opened "s" [(10, 5, Some 3); (7, 2, Some 4)]%Z).
  - vm_compute. by eexists.
  - exact (lookup_empty "s").
  - repeat constructor; discriminate.
  - discriminate.
  - discriminate.
  - discriminate.
  - discriminate.
Defined.

(** A result is written for a turn that ended: the owner of the turn is compared as an
    optional value, so for a turn that does not run a caller without instance passes
    for the owner. The message of the tool goes to the history that has no instance. *)
Lemma result_outlives_its_turn :
  let failed := session_exec started
    (OpFinishTurn "s" "t1" TurnStates.Failed (Some TurnFailures.AgentLoop) 20) in
  let nobody := {| ctx_user_id := "x"; ctx_agent_id := "y"; ctx_agent_instance_id := None;
                   ctx_trace_id := None; ctx_priority := Priorities.Normal |} in
  let result := {| tr_session_id := "s"; tr_turn_id := "t1"; tr_call_id := "c1";
    tr_expected_revision := 2; tr_expected_position := ToolPositions.EffectStarted;
    tr_content := "done"; tr_tool_name := "shell"; tr_terminal_state := CallStates.Succeeded;
    tr_failure_kind := None |} in
  tn_state <$> session_turns failed !! ("s", "t1") = Some TurnStates.Failed ∧
  ∃ d', persist_tool_result failed nobody result 30 = Ok (3%Z, d') ∧
    tl_state <$> tool_calls d' !! ("s", "t1", "c1") = Some CallStates.Succeeded.
Proof. vm_compute. split; [done|]. eexists. by split. Qed.
