(* ===== verification/ServiceSample.v ===== *)
(** The coordination service at work on the session of [SystemSample], alone on its
    database. *)

From S2P Require Import Prelude Graph Effects Instance Store StoreRun.
From S2P Require Membership Topology Tasks Mailbox Handoff Governance Arbitration Sample.
From S2P Require StoreMessages StoreArbitration.
From S2P Require Import InstanceStore StoreSystem StoreHistory Service ServiceFacts SystemSample.
From stdpp Require Import base tactics gmap strings list.
From Stdlib Require Import ZArith.

Local Open Scope Z_scope.

#[export] Instance ports : ServicePorts := {|
  case_digest key _ _ := match key with
    | KeyMessage r => dm_message_id r
    | KeyTurn message turn => message +:+ "/" +:+ turn
    | KeyFork r => fa_instance_id r
    | KeyDefine r => da_instance_id r
    | KeyRelate r => ra_source r +:+ "-" +:+ ra_target r
    | KeyRenewal case _ _ => case
    end;
  drawn_token _ := "token";
  env _ _ := [];
|}.

#[export] Instance ports_faithful : FaithfulPorts.
Proof. by split. Qed.

Definition lenient : config :=
  {| policy := Governance.default_policy; arbitration_ttl_seconds := 60 |}.

(** Two reports without progress are suspicious, and one attempt to deliver a
    message is enough. *)
Definition watchful : config := {|
  policy := {|
    Governance.max_agents := 16; Governance.max_ownership_depth := 4;
    Governance.max_children_per_agent := 6; Governance.max_active_tasks_per_agent := 4;
    Governance.max_message_delivery_attempts := 1; Governance.stagnation_window := 2;
    Governance.handoff_ping_pong_window := 4 |};
  arbitration_ttl_seconds := 60 |}.

Definition start : world := {| data := founded; clock := 0 |}.

Definition ping : DispatchMessageRequest := {|
  dm_message_id := "hello"; dm_session_id := "s"; dm_sender_instance_id := "w1";
  dm_recipient_instance_id := "w2"; dm_task_id := Some "t"; dm_kind := Mailbox.Question;
  dm_payload := "ping"; dm_max_hops := 2; dm_expires_at := 100;
|}.

Definition sent (now : Z) : Mailbox.CoordinationMessage := {|
  Mailbox.message_id := "hello"; Mailbox.session_id := "s"; Mailbox.sender_instance_id := "w1";
  Mailbox.recipient_instance_id := "w2"; Mailbox.task_id := Some "t";
  Mailbox.kind := Mailbox.Question; Mailbox.payload := "ping"; Mailbox.topology_revision := 0;
  Mailbox.route := ["w1"; "m"; "w2"]; Mailbox.max_hops := 2;
  Mailbox.state := Mailbox.Delivery.Pending; Mailbox.delivery_attempts := 0; Mailbox.revision := 0;
  Mailbox.expires_at := 100; Mailbox.created_at := now; Mailbox.updated_at := now;
|}.

Example ping_sent : (dispatch_message lenient ping 10 start).2 = Ok (Enqueued (sent 10)).
Proof. vm_compute. reflexivity. Qed.

(** The first worker is stuck, so that the moderator is asked; it grants leave. *)
Definition report (id : string) (tokens : Z) : ReportProgressRequest := {|
  rp_observation_id := id; rp_session_id := "s"; rp_task_id := "t"; rp_agent_instance_id := "w1";
  rp_consumed_tokens := tokens; rp_evidence_digest := Some "same";
|}.

(** The world after some requests. *)
Definition after (cf : config) (qs : list service_request) : world := (serve_all cf qs start).1.

Lemma after_ok cf qs : Forall typed qs → durable_ok (data (after cf qs)).
Proof.
  intros Hqs. destruct (serve_all_ok cf qs start founded_ok Hqs) as [Hr _].
  by eapply reaches_ok; [apply founded_ok|].
Qed.

Definition reports : list service_request :=
  [AskReportProgress (report "p1" 10) 8; AskReportProgress (report "p2" 20) 9].
Definition stuck : world := after watchful reports.

Definition opened : Arbitration.ArbitrationCase := {|
  Arbitration.case_id := "message:hello"; Arbitration.session_id := "s";
  Arbitration.moderator_instance_id := "m"; Arbitration.membership_revision := 0;
  Arbitration.topology_revision := 0; Arbitration.moderator_lease_epoch := 1;
  Arbitration.moderator_fencing_token := 7; Arbitration.findings := [Governance.StagnantProgress "t" 2];
  Arbitration.state := Arbitration.ArbitrationState.Open; Arbitration.revision := 0;
  Arbitration.expires_at := 70; Arbitration.created_at := 10; Arbitration.updated_at := 10;
|}.

Definition stagnant : Governance.GovernanceAssessment := {|
  Governance.moderator_instance_id := "m"; Governance.findings := [Governance.StagnantProgress "t" 2];
|}.

Definition waiting : world := after watchful (reports ++ [AskDispatch ping 10]).

Example ping_waits :
  (dispatch_message watchful ping 10 stuck).2 = Ok (DispatchRequiresArbitration opened stagnant) ∧
  (claim_next_message watchful "m" 11 10 waiting).2 ≠ Ok None.
Proof. vm_compute. done. Qed.

Definition leave : Arbitration.ModeratorDecision := {|
  Arbitration.d_case_id := "message:hello"; Arbitration.decided_by := "m";
  Arbitration.d_lease_epoch := 1; Arbitration.d_fencing_token := 7;
  Arbitration.verdict := Arbitration.ContinueWithConditions ["once"];
  Arbitration.rationale := "needed"; Arbitration.evidence_refs := ["trace"];
  Arbitration.decided_at := 20;
|}.

Definition granted : world := after watchful (reports ++ [AskDispatch ping 10; AskDecide leave 20]).

Definition closed : Arbitration.ArbitrationCase := StoreArbitration.put_case opened
  Arbitration.ArbitrationState.Applied 1 20.

Definition permitted : world :=
  after watchful (reports ++ [AskDispatch ping 10; AskDecide leave 20; AskDispatch ping 30]).

Example ping_granted :
  (decide_arbitration leave 20 waiting).2 = Ok closed ∧
  (dispatch_message watchful ping 30 granted).2 = Ok (EnqueuedByModerator (sent 30) leave).
Proof. vm_compute. done. Qed.

(** One attempt is allowed: when its lease is over the message is put away. *)
Example second_attempt :
  (claim_next_message watchful "w2" 60 10 (claim_next_message watchful "w2" 40 10 permitted).1).2 =
    Ok None ∧
  Mailbox.state <$> StoreMessages.load_message (base (data (claim_next_message watchful "w2" 60 10
    (claim_next_message watchful "w2" 40 10 permitted).1).1)) "hello" = Some Mailbox.Delivery.DeadLetter.
Proof. vm_compute. done. Qed.

(** ** Tasks *)

Definition commission : CreateTaskRequest := {|
  ct_task_id := "u"; ct_session_id := "s"; ct_parent_task_id := Some "t"; ct_created_by := "m";
  ct_assigned_to := "w2"; ct_objective := "review"; ct_token_budget := 50; ct_max_handoffs := 1;
|}.

Definition review_task : Tasks.CoordinationTask := requested_task commission founders 10.

Example review_created : (create_task lenient commission 10 start).2 = Ok review_task.
Proof. vm_compute. reflexivity. Qed.

Definition cancel : CancelTaskRequest := {| ca_task_id := "t"; ca_session_id := "s"; ca_actor := "m" |}.
Definition claim : ClaimTaskRequest := {|
  cl_task_id := "t"; cl_session_id := "s"; cl_actor := "w1"; cl_claim_owner_id := "p1";
  cl_lease_seconds := 30;
|}.
Definition stop : TransitionTaskRequest := {|
  tt_task_id := "t"; tt_session_id := "s"; tt_actor := "m";
  tt_next_state := Tasks.TaskState.Cancelled; tt_consumed_tokens := 0;
|}.

Example commands :
  Tasks.state <$> (match (transition_task stop 10 start).2 with Ok y => Some y | _ => None end) =
    Some Tasks.TaskState.Cancelled ∧
  Tasks.l_fencing_token <$> (match (claim_task claim 10 start).2 with Ok l => Some l | _ => None end) =
    Some "token" ∧
  Tasks.state <$> (match (cancel_task cancel 10 start).2 with Ok y => Some y | _ => None end) =
    Some Tasks.TaskState.Cancelled.
Proof. vm_compute. done. Qed.

(** ** Handoffs *)

Definition proposal : ProposeHandoffRequest := {|
  ph_handoff_id := "h"; ph_session_id := "s"; ph_task_id := "t"; ph_from_instance_id := "w1";
  ph_to_instance_id := "w2"; ph_requested_by := "w1"; ph_reason := "busy"; ph_expires_at := 90;
|}.

Definition offered : world := after lenient [AskProposeHandoff proposal 10].
Definition accepted : world :=
  after lenient [AskProposeHandoff proposal 10; AskDecideHandoff "s" "h" "m" true 20].

Example service_accepts_handoff :
  Handoff.state <$> handoffs (base (data accepted)) !! "h" = Some Handoff.State.Accepted ∧
  Tasks.assigned_to <$> tasks (base (data accepted)) !! "t" = Some (Some "w2").
Proof. vm_compute. done. Qed.

(** ** Forks *)

Definition offshoot : ForkAgentRequest := {|
  fa_instance_id := "w3"; fa_session_id := "s"; fa_parent_instance_id := "w1"; fa_branch_id := "branch";
|}.

Definition third : AgentInstance := {|
  instance_id := "w3"; ai_session_id := "s"; definition := definition fork;
  origin := Forked "w1" 1; role := Worker; history_view := ForkSnapshot 6 "branch";
  approval_route := RouteParent "w1"; ai_state := InstanceState.Created; lifecycle_revision := 0;
  capability_revision := "caps"; ai_created_at := 10; ai_updated_at := 10;
|}.

(** A retry finds the fork. *)
Example forked_once :
  (fork_agent lenient offshoot 10 start).2 = Ok (ForkCreated third) ∧
  (fork_agent lenient offshoot 11 (fork_agent lenient offshoot 10 start).1).2 = Ok (ForkCreated third).
Proof. vm_compute. done. Qed.
