(* ===== verification/ServiceSpec.v ===== *)
(** What the coordination service promises its callers, over every interleaving of
    its calls with those of others.

    Each theorem is followed by its instance on the session of [ServiceSample]. *)

From S2P Require Import Prelude Graph Effects Instance Store StoreRun.
From S2P Require Membership Topology Route Tasks Mailbox Handoff Governance Arbitration Sample.
From S2P Require StoreTasks StoreMessages StoreHandoffs StoreArbitration StoreFacts.
From S2P Require Import InstanceStore InstanceStoreFacts InstanceStoreRun StoreSystem StoreHistory.
From S2P Require Import Service ServiceFacts ServiceGovernance ServiceTasks.
From S2P Require Import SystemSample ServiceSample.
From stdpp Require Import base tactics gmap strings list relations.
From Stdlib Require Import ZArith Lia.

(** C1: The service refines the stores: whatever requests are made of it, and whatever
    other callers do between its store calls, the database goes through legal store
    operations only, so it stays well formed; and every request is answered, with a
    value or an error, never by a panic or an endless loop. *)
Theorem service_refines_store `{!HashOrder, !ServicePorts} `{!FaithfulPorts} cf qs w
    (Hok : durable_ok (data w)) (Hqs : Forall typed qs) :
  (∃ ops, durable_legal_run (data w) ops ∧ data (serve_all cf qs w).1 = durable_run (data w) ops) ∧
  durable_ok (data (serve_all cf qs w).1) ∧ Forall returns (serve_all cf qs w).2.
Proof.
  destruct (serve_all_ok cf qs w Hok Hqs) as [Hr Ha]. split_and!; [done| |done].
  by eapply reaches_ok.
Qed.

Lemma service_refines_store_witness :
  Forall returns (serve_all watchful (reports ++ [AskDispatch ping 10; AskDecide leave 20]) start).2.
Proof.
  apply (service_refines_store watchful (reports ++ [AskDispatch ping 10; AskDecide leave 20]) start);
    [apply founded_ok|repeat constructor].
Defined.

(** C2: A message is sent only with leave: the service reads the membership, the topology
    and the tasks of the session, all three valid, and its observations, and enqueues the
    message as asked for over a shortest route only if their assessment has no
    finding, or if the moderator decided the case of this very request (or one that
    renews it) to continue.  Otherwise that case is open and not overdue and its
    moderator notified, or the decision was another one. *)
Theorem dispatch_is_governed `{!HashOrder, !ServicePorts} `{!FaithfulPorts} w cf r now w' out
    (Hok : durable_ok (data w)) (Hd : dispatch_message cf r now w = (w', Ok out)) :
  ∃ m t g o a,
    consulted (data w) (policy cf) (dm_session_id r) m t g o a (data w') ∧
    able m (dm_sender_instance_id r) ∧ able m (dm_recipient_instance_id r) ∧
    dispatched (data w) r t a (governance_case_id "message" (KeyMessage r)
      (Membership.membership_revision (Membership.governance m)) (Topology.topology_revision t))
      now out (data w').
Proof. exact (serves_result _ _ w w' out (serves_dispatch (data w) cf r now) Hok Hd). Qed.

Lemma dispatch_is_governed_witness :
  StoreMessages.load_message (base (data (dispatch_message lenient ping 10 start).1)) "hello" =
    Some (sent 10).
Proof.
  destruct (dispatch_is_governed start lenient ping 10 (dispatch_message lenient ping 10 start).1
    (Enqueued (sent 10)) founded_ok) as (m & t & g & o & a & _ & _ & _ & _ & Hd & _);
    [vm_compute; reflexivity|exact Hd].
Defined.

(** C31: The case that stands for a request is never an expired one: it is the case of
    the request or the last of the cases that renewed it, and if it is open its
    deadline has not passed. *)
Theorem arbitration_is_current `{!HashOrder, !ServicePorts} `{!FaithfulPorts} w root now w' id found
    (Hok : durable_ok (data w))
    (Hc : current_arbitration root now w = (w', Ok (id, found))) :
  case_of (data w') root id ∧ cases (base (data w')) !! id = found ∧
  ∀ c, found = Some c → Arbitration.state c ≠ Arbitration.ArbitrationState.Expired ∧
    (Arbitration.state c = Arbitration.ArbitrationState.Open → (now < Arbitration.expires_at c)%Z).
Proof. exact (serves_result _ _ w w' (id, found) (serves_current root now (data w)) Hok Hc). Qed.

Lemma arbitration_is_current_witness :
  (10 < Arbitration.expires_at opened)%Z.
Proof.
  destruct (arbitration_is_current waiting "message:hello" 10
    (current_arbitration "message:hello" 10 waiting).1 "message:hello" (Some opened))
    as (_ & _ & Hc).
  - apply after_ok. repeat constructor.
  - vm_compute. reflexivity.
  - apply (Hc opened); reflexivity.
Defined.



(** C9: Only who has the authority moves a task: a transition is made by an able member
    that the rules entitle to it, on a task of the session that does not run, within
    its budget; a claim by its owner, who then holds the lease; a cancellation by the
    moderator, the owner or the creator. *)
Theorem task_commands_are_authorized `{!HashOrder, !ServicePorts} `{!FaithfulPorts} w
    (Hok : durable_ok (data w)) :
  (∀ r now w' y, transition_task r now w = (w', Ok y) → ∃ m x,
    checked (data w) (tt_session_id r) (tt_task_id r) (tt_actor r) m x (data w') ∧
    Tasks.session_id x = tt_session_id r ∧ authority m x (tt_actor r) (tt_next_state r) ∧
    Tasks.state x ≠ Tasks.TaskState.Running ∧ tt_next_state r ≠ Tasks.TaskState.Running ∧
    (Tasks.consumed_tokens x ≤ tt_consumed_tokens r ≤ Tasks.token_budget x)%Z ∧
    ∃ row, tasks (base (data w')) !! tt_task_id r = Some row ∧ Tasks.state row = tt_next_state r ∧
      Tasks.consumed_tokens row = tt_consumed_tokens r ∧
      Tasks.revision row = (Tasks.revision x + 1)%Z) ∧
  (∀ r now w' l, claim_task r now w = (w', Ok l) → ∃ m x,
    checked (data w) (cl_session_id r) (cl_task_id r) (cl_actor r) m x (data w') ∧
    Tasks.session_id x = cl_session_id r ∧ Tasks.assigned_to x = Some (cl_actor r) ∧
    leases (base (data w')) !! cl_task_id r = Some l ∧ Tasks.l_assignee l = cl_actor r ∧
    Tasks.l_claim_owner_id l = cl_claim_owner_id r) ∧
  (∀ r now w' y, cancel_task r now w = (w', Ok y) → ∃ m x,
    checked (data w) (ca_session_id r) (ca_task_id r) (ca_actor r) m x (data w') ∧
    Tasks.session_id x = ca_session_id r ∧
    (moderates m (ca_actor r) ∨ Tasks.assigned_to x = Some (ca_actor r) ∨
     Tasks.created_by x = ca_actor r) ∧
    tasks (base (data w')) !! ca_task_id r = Some y ∧ Tasks.state y = Tasks.TaskState.Cancelled).
Proof.
  split_and!.
  - intros r now w' y Hc. exact (serves_result _ _ w w' y (serves_transition (data w) r now) Hok Hc).
  - intros r now w' l Hc. exact (serves_result _ _ w w' l (serves_claim (data w) r now) Hok Hc).
  - intros r now w' y Hc. exact (serves_result _ _ w w' y (serves_cancel (data w) r now) Hok Hc).
Qed.

Lemma task_commands_are_authorized_witness :
  ∃ l, leases (base (data (claim_task claim 10 start).1)) !! "t" = Some l ∧ Tasks.l_assignee l = "w1".
Proof.
  destruct (task_commands_are_authorized start founded_ok) as (_ & Hc & _).
  set (l := {| Tasks.l_task_id := "t"; Tasks.l_session_id := "s"; Tasks.l_assignee := "w1";
    Tasks.l_claim_owner_id := "p1"; Tasks.l_task_revision := 1; Tasks.l_lease_epoch := 1;
    Tasks.l_fencing_token := "token"; Tasks.l_expires_at := 40 |}).
  destruct (Hc claim 10%Z (claim_task claim 10 start).1 l) as (m & x & _ & _ & _ & Hl & Ha & _);
    [vm_compute; reflexivity|]. exists l. split; [exact Hl|exact Ha].
Defined.

(** C29: A claim is handed out only within the limit of delivery attempts: it is the one
    that the store granted, and a message over the limit is put away instead. *)
Theorem message_claims_are_bounded `{!HashOrder, !ServicePorts} `{!FaithfulPorts} w cf recipient now secs w' out
    (Hok : durable_ok (data w)) (Hc : claim_next_message cf recipient now secs w = (w', Ok out)) :
  ∃ d1 found, during (data w) (λ d0,
      StoreMessages.claim_message (base d0) recipient now secs = Ok (found, d1)) (data w') ∧
  match found, out with
  | None, None => True
  | Some c, Some c' => c' = c ∧
      (Mailbox.delivery_attempts (Mailbox.message c)
       ≤ Governance.max_message_delivery_attempts (policy cf))%Z
  | Some c, None =>
      (Governance.max_message_delivery_attempts (policy cf)
       < Mailbox.delivery_attempts (Mailbox.message c))%Z ∧
      Mailbox.state <$> StoreMessages.load_message (base (data w'))
        (Mailbox.message_id (Mailbox.message c)) = Some Mailbox.Delivery.DeadLetter
  | None, Some _ => False
  end.
Proof.
  exact (serves_result _ _ w w' out (serves_claim_next (data w) cf recipient now secs) Hok Hc).
Qed.

Definition received : world := after watchful
  (reports ++ [AskDispatch ping 10; AskDecide leave 20; AskDispatch ping 30; AskClaimMessage "w2" 40 10]).

Lemma message_claims_are_bounded_witness :
  ∃ d1 found, during (data received) (λ d0,
    StoreMessages.claim_message (base d0) "w2" 60 10 = Ok (found, d1))
    (data (claim_next_message watchful "w2" 60 10 received).1).
Proof.
  destruct (message_claims_are_bounded received watchful "w2" 60 10
    (claim_next_message watchful "w2" 60 10 received).1 None) as (d1 & found & Hd & _);
    [apply after_ok; repeat constructor|vm_compute; reflexivity|by exists d1, found].
Defined.

(** C8: A moderator's decision is final: once it is taken, its case stays applied and
    the decision stays recorded; however much later, the same decision is answered
    with that case, and any other on the case is refused. *)
Theorem moderator_decision_is_final `{!HashOrder, !ServicePorts} `{!FaithfulPorts} w x now w' c w2 y now'
    (Hok : durable_ok (data w)) (Hd : decide_arbitration x now w = (w', Ok c))
    (Hlater : reaches (data w') (data w2))
    (Hcase : Arbitration.d_case_id y = Arbitration.d_case_id x) :
  Arbitration.state c = Arbitration.ArbitrationState.Applied ∧
  decisions (base (data w2)) !! Arbitration.d_case_id x = Some x ∧
  (decide_arbitration y now' w2).2 = if decide (y = x) then Ok c else Err IdempotencyConflict.
Proof.
  pose proof (serves_result _ _ w w' c (serves_decide (data w) x now) Hok Hd) as Hx.
  destruct (tame_decide x now (data w) w) as [Hr _]; [done|done|done|]. rewrite Hd in Hr. simpl in Hr.
  pose proof (reaches_ok _ _ Hok Hr) as Hok'.
  pose proof (stable_ruled x c _ _ Hok' Hlater Hx) as Hx2. split_and!; [apply Hx|apply Hx2|].
  apply decide_again; [by eapply reaches_ok|done|done].
Qed.

Definition other : Arbitration.ModeratorDecision := {|
  Arbitration.d_case_id := "message:hello"; Arbitration.decided_by := "m";
  Arbitration.d_lease_epoch := 1; Arbitration.d_fencing_token := 7;
  Arbitration.verdict := Arbitration.CancelTasks ["t"];
  Arbitration.rationale := "stuck"; Arbitration.evidence_refs := ["trace"];
  Arbitration.decided_at := 25;
|}.

Lemma moderator_decision_is_final_witness :
  (decide_arbitration other 25 (decide_arbitration leave 20 waiting).1).2 = Err IdempotencyConflict.
Proof.
  destruct (moderator_decision_is_final waiting leave 20 (decide_arbitration leave 20 waiting).1 closed
    (decide_arbitration leave 20 waiting).1 other 25) as (_ & _ & Ho).
  - apply after_ok. repeat constructor.
  - vm_compute. reflexivity.
  - reflexivity.
  - reflexivity.
  - rewrite decide_False in Ho by discriminate. exact Ho.
Defined.

(** C30: So is the verdict of an arbitrator on a handoff: it is the one that the handoff
    names, in its session, and however much later the same verdict is confirmed and
    the opposite one refused. *)
Theorem handoff_verdict_is_final `{!HashOrder, !ServicePorts} `{!FaithfulPorts} w s id arbitrator accept now w' h w2
    again now'
    (Hok : durable_ok (data w)) (Hd : decide_handoff s id arbitrator accept now w = (w', Ok h))
    (Hlater : reaches (data w') (data w2)) :
  Handoff.session_id h = s ∧ Handoff.arbitrator_instance_id h = arbitrator ∧
  handoffs (base (data w2)) !! id = Some h ∧
  (decide_handoff s id arbitrator again now' w2).2 =
    if decide (again = accept) then Ok h else Err InvalidHandoff.
Proof.
  pose proof (serves_result _ _ w w' h (serves_decide_handoff (data w) s id arbitrator accept now) Hok Hd)
    as Hj.
  destruct (serves_decide_handoff (data w) s id arbitrator accept now w) as [Hr _]; [done|done|done|].
  rewrite Hd in Hr. simpl in Hr. pose proof (reaches_ok _ _ Hok Hr) as Hok'.
  pose proof (stable_judged s id arbitrator accept h _ _ Hok' Hlater Hj) as Hj2.
  pose proof Hj2 as (Hh & ? & ? & _). split_and!; try done.
  apply decide_handoff_again; [by eapply reaches_ok|done].
Qed.

Lemma handoff_verdict_is_final_witness :
  let w' := (decide_handoff "s" "h" "m" true 20 offered).1 in
  (decide_handoff "s" "h" "m" false 30 w').2 = Err InvalidHandoff.
Proof.
  intros w'.
  set (h := default (requested_handoff proposal "m" (Sample.task "t" None "w1" Tasks.TaskState.Ready)
    (hierarchy 0 0 []) 10) (handoffs (base (data w')) !! "h")).
  destruct (handoff_verdict_is_final offered "s" "h" "m" true 20 w' h w' false 30) as (_ & _ & _ & Hv).
  - apply after_ok. repeat constructor.
  - vm_compute. reflexivity.
  - reflexivity.
  - exact Hv.
Defined.

(** C11: A fork is made only with leave, and only once: if the instance is a participant
    already it is returned when it is that very fork; otherwise the service
    assesses the session as it would be with the fork under its able parent, with
    a sequence number above those of all its siblings: the valid next membership and
    topology, and the tasks stored during the call moved to the next revision, which
    are valid, too.  It appends the fork only if that assessment has no finding or
    the moderator decided this request's case to continue. *)
Theorem fork_is_governed `{!HashOrder, !ServicePorts} `{!FaithfulPorts} w cf r now w' out
    (Hok : durable_ok (data w)) (Hf : fork_agent cf r now w = (w', Ok out)) :
  ∃ m parent,
    during (data w) (λ d, session_membership d (fa_session_id r) = Ok (Some m) ∧
      Membership.validate m = Ok tt) (data w') ∧
    Membership.find_participant (Membership.participants m) (fa_parent_instance_id r) = Some parent ∧
    able m (fa_parent_instance_id r) ∧ fork_outcome (data w) (policy cf) r m parent now out (data w').
Proof. exact (serves_result _ _ w w' out (serves_fork (data w) cf r now) Hok Hf). Qed.

Lemma fork_is_governed_witness :
  ∃ m parent, able m "w1" ∧ fork_outcome founded (policy lenient) offshoot m parent 10
    (ForkCreated third) (data (fork_agent lenient offshoot 10 start).1).
Proof.
  destruct (fork_is_governed start lenient offshoot 10 (fork_agent lenient offshoot 10 start).1
    (ForkCreated third) founded_ok) as (m & parent & _ & _ & Ha & Ho); [vm_compute; reflexivity|].
  exists m, parent. split; [exact Ha|exact Ho].
Defined.
